(* ===== verification/_CoqProject ===== *)
-Q . S2P
Prelude.v
Machine.v
Vga.v
Bmp.v
Spinlock.v
Pmm.v
Limine.v
Slab.v
Heap.v
HeapUse.v
Vmm.v
Vma.v
UserMem.v
Effects.v
Elf.v
UserStack.v
StackBuilder.v
Clone.v
Tlb.v
Proc.v
Fork.v
Exec.v
Text.v
Vfs.v
Ramfs.v
Path.v
Mount.v
VfsProofs.v
Rootfs.v
Initrd.v
Execve.v
Keyboard.v
Ports.v
Serial.v
Console.v
Pci.v
I8042.v
Pic.v
Timer.v
Syscall.v
Trap.v
Asm.v
Io.v
Idt.v
SyscallEntry.v
Gdt.v
Switch.v
Ide.v
IdeInit.v
Fat32.v
Shell.v
ShellProofs.v
Boot.v
Main.v
