(* ===== verification/Prelude.v ===== *)
(** * SarOSx64: a verification of the kernel

    SarOSx64 is an x86-64 kernel in Rust: a boot path, physical and virtual
    memory, processes, system calls and interrupts, a virtual file system with a
    RAM and a FAT32 implementation, device drivers, and a shell. This library
    translates its functions into Rocq definitions that compute, and proves what
    they do. Source paths below are relative to [src/src/].

    ** How the parts fit together

    The boot loader gives a memory map and a direct map of physical memory. The
    frame allocator keeps its free lists inside the free frames; page tables, the
    heap, kernel stacks and user pages are taken from it. A process has an address
    space, a list of areas and a kernel stack; [fork] and [execve] build new ones.
    The scheduler runs from the timer interrupt and from blocking calls. The
    shell reads keys that interrupts have buffered, and works on the virtual file
    system, on processes and on the screen.

    ** Conventions

    - Code that can panic is a computation in [exec] (below); code that returns a
      [Result] is in [fallible] (Effects.v), where an error keeps the changes made
      before it. [build.sh] builds the [dev] profile, so an arithmetic overflow
      is a [Panic]. Undefined behaviour, where a definition can meet it, is also
      a [Panic].
    - Machine integers are [Z] with their range written out. Memory is bytes
      (Machine.v), and structures that the code reaches by pointers (free lists,
      slabs, page tables, descriptors, pixels) are laid out in it.
    - Shared objects ([Arc]) are handles into a store.
    - Messages of the kernel log are left out of the operations that send them,
      except those of [kernel_main] and [init_bsp]; the function that prints one is
      in Console.v.

    ** Files

    Foundations: Machine.v (memory, the direct map), Limine.v
    ([arch/x86_64/limine.rs]: what the boot loader leaves in memory), Effects.v,
    Text.v (strings and number formats), Ports.v (the port functions of
    [arch/x86_64/io.rs], implemented by each device model), Asm.v (the
    instructions of the naked functions), Io.v (the registers and flags of
    [arch/x86_64/io.rs]).

    Memory: Pmm.v ([mm/pmm.rs]: buddy allocator), Slab.v and Heap.v
    ([mm/heap.rs]), HeapUse.v (the heap seen by its clients), Vmm.v and Vma.v ([mm/vmm.rs]: page tables; areas and page
    faults), UserMem.v (user memory as a process sees it), Spinlock.v
    ([sync/spinlock.rs]: Modules Spin and Rw, as step relations), Tlb.v (the
    invalidations of [mm/vmm.rs] and [proc/fork.rs] on a processor that caches
    translations).

    Processes: Proc.v ([proc.rs]: table, run queue, scheduler), Elf.v
    ([proc/elf.rs]), UserStack.v and StackBuilder.v ([proc/stack.rs]), Clone.v and
    Fork.v ([proc/fork.rs]), Exec.v, Initrd.v and Execve.v ([proc/exec.rs]),
    Syscall.v ([syscall.rs]), Switch.v (the assembly that changes between
    processes, in [proc.rs], [proc/fork.rs] and [proc/exec.rs]).

    Processor: Idt.v and Trap.v ([arch/x86_64/idt.rs]: entry code; dispatch),
    SyscallEntry.v ([arch/x86_64/syscall_entry.rs]), Gdt.v
    ([arch/x86_64/gdt.rs] and the registers set by [arch/x86_64.rs]), Pic.v
    ([arch/x86_64/pic.rs]), Timer.v ([arch/x86_64/timer.rs]).

    File systems: Vfs.v ([fs/vfs.rs]; the trait [InodeOps] is a class), Path.v,
    Mount.v, Ramfs.v, Fat32.v ([fs/fat32.rs], [fs/mbr.rs], over the class
    [SectorDisk], which the driver of Ide.v implements), VfsProofs.v, Rootfs.v
    ([fs/mod.rs]).

    Drivers: Vga.v, Bmp.v, Serial.v, Pci.v, Ide.v ([drivers/] files of the same
    names), IdeInit.v (the detection of the drives), Keyboard.v and I8042.v
    ([drivers/keyboard.rs]), Console.v (both outputs together, and
    [drivers/logger.rs]).

    Shell and boot: Shell.v and ShellProofs.v ([shell/]), Boot.v (the first
    processes of [kernel_main] in [main.rs]), Main.v ([kernel_main] as a whole, and
    the panic handler).

    ** What the theorems show

    - Memory. The allocator implements a set of free frames: no frame is handed
      out twice, requests succeed exactly when an aligned run is free, and [free]
      undoes [alloc]. Clients use the class [FrameAllocator]. [map], [translate]
      and [drop] are specified by the processor's page walk. The heap hands out
      aligned, disjoint objects, and serves any well-formed client while there is
      room. No translation that the processor has cached outlives the page tables
      it came from, not even across [execve], which frees the tables in use.
    - Processes. Reachable scheduler states keep the queue consistent; [schedule]
      takes the best ready process; the ticks of the timer make equal processes
      take turns. [fork] shares
      pages read-only; loading, the first stack and [execve] give a program the
      memory it expects. One result is negative: after [fork] a write to a shared
      page is refused.
    - Switching. Processes that yield to each other through the assembly find
      their registers and stacks as they left them, and a new user process starts
      at its entry point. A child that [fork] made is the second negative result:
      it starts from the words above the end of its kernel stack, where [fork] has
      put nothing.
    - Entry and interrupts. The entry code passes arguments and restores
      registers; every gate is right; every hardware interrupt is served without
      panic. [cpu_init_correct] is a typing result on selectors and descriptors.
      The lock excludes in every interleaving.
    - Files. What is written to a path is read back, except for a new name below a
      mount point, which is lost; the boot file system is well formed; FAT32 chains
      end on every disk, and reads return the bytes of the file, up to a million
      clusters.
    - Devices. The drivers are proved against models of the devices: 8259A, 8254,
      16550, i8042, ATA, PCI configuration. The screen refines a text terminal.
    - Shell. [readline] returns and displays the edited line and reports its keys
      on the serial line; a [write] command followed by [cat] goes from the keys to
      the screen.
    - Boot. If the boot loader followed its protocol, the devices answer and there is
      a free block for each allocation, [kernel_main] runs to its end without a
      panic, every component is in the state its own theorems start from, and the
      shell runs first.

    ** Fuel

    Loops that are not structural take a bound, and [NoFuel] means that it ran
    out. Loops over memory get a bound computed from the sizes they run over, and
    a theorem that claims a result shows that the bound is enough; the search of
    the slab lists takes its bound as an argument, and the number of physical frames
    is enough. Loops that
    poll a device take the bound as an argument, with the hypothesis that the
    device answers within it. [NoFuel] also stands for code that never continues:
    a lock taken twice by its holder (Ramfs.v), and a key that is never pressed
    (Shell.v).

    ** Parameters

    The font (a binary file), the addresses of code and static data, the answers
    of [cpuid], the time stamp counter, in the shell the probing of a drive, and in
    Main.v the requests that each step of the boot makes of the heap: their layouts
    are for the compiler and the [alloc] library to choose.

    ** Not modelled

    - Outside Boot.v and Main.v, the heap requests that lists, strings and [Arc]s
      make, and so the panic when the heap is exhausted: there they are values.
    - In Main.v, the interrupts that arrive while the boot runs (the clock that
      [calibrate_tsc] reads is an argument).
    - The request for other processors in [arch/x86_64/limine.rs], which nothing
      reads.
    - The formatting machinery of [core::fmt] beyond the formats used, and the
      [log] crate beyond the registration of one logger.
    - Caches other than the TLB, and several processors at once, except for the
      locks. *)
From stdpp Require Export base numbers list gmap.
From Stdlib Require Export ZArith Lia.
#[global] Open Scope Z_scope.
Coercion Z.of_nat : nat >-> Z.

(** ** Outcomes of kernel code

    [build.sh] builds the [dev] profile, so arithmetic overflow, a failed
    [assert!], [unwrap] on [None] and an index out of range all panic.  Code
    that can do so is a computation in the monad [exec]. [NoFuel] is the
    result of a loop whose fuel ran out, and of code that waits for ever; a
    theorem that claims a result shows that it is not reached. *)
Inductive exec (A : Type) : Type :=
  | Ret (a : A)
  | Panic
  | NoFuel.
Arguments Ret {A} a.
Arguments Panic {A}.
Arguments NoFuel {A}.

#[global] Instance exec_ret : MRet exec := λ A a, Ret a.
#[global] Instance exec_bind : MBind exec := λ A B f x,
  match x with Ret a => f a | Panic => Panic | NoFuel => NoFuel end.
#[global] Instance exec_fmap : FMap exec := λ A B f x,
  match x with Ret a => Ret (f a) | Panic => Panic | NoFuel => NoFuel end.

(** The value of an [Option] that the code indexes or unwraps. *)
Definition expect {A} (o : option A) : exec A :=
  match o with Some a => Ret a | None => Panic end.

(** [assert!(b)] *)
Definition assert_ (b : bool) : exec unit := if b then Ret () else Panic.

Lemma bind_Ret {A B} (a : A) (f : A → exec B) : (Ret a ≫= f) = f a.
Proof. reflexivity. Qed.

(** Steps through one bind without reducing the continuation. *)
Lemma bind_ok {A B} (x : exec A) (f : A → exec B) a y : x = Ret a → f a = y → x ≫= f = y.
Proof. by intros -> <-. Qed.

Lemma bind_Ret_inv {A B} (x : exec A) (f : A → exec B) b :
  x ≫= f = Ret b → ∃ a, x = Ret a ∧ f a = Ret b.
Proof. destruct x as [a| |]; simpl; intros H; try discriminate. by exists a. Qed.

Lemma bind_assoc {A B C} (x : exec A) (f : A → exec B) (g : B → exec C) :
  (x ≫= f) ≫= g = x ≫= (λ a, f a ≫= g).
Proof. by destruct x. Qed.

(** ** 64-bit machine integers

    [u64] and [usize] values are integers of [Z] in the range [0, 2^64). *)
Abbreviation U64 := 18446744073709551616 (only parsing).
Abbreviation U64_MAX := 18446744073709551615 (only parsing).
Abbreviation U32 := 4294967296 (only parsing).

Definition is_u64 (x : Z) : Prop := 0 ≤ x < U64.

Definition u64_add (a b : Z) : exec Z := if a + b <? U64 then Ret (a + b) else Panic.
Definition u64_sub (a b : Z) : exec Z := if b <=? a then Ret (a - b) else Panic.
Definition u64_mul (a b : Z) : exec Z := if a * b <? U64 then Ret (a * b) else Panic.
(** [AtomicUsize::fetch_add] and [fetch_sub] wrap around. *)
Definition u64_wrap (x : Z) : Z := x mod U64.
(** [!x] on a [u64] *)
Definition u64_not (x : Z) : Z := U64_MAX - x.

Lemma u64_add_ok a b : a + b < U64 → u64_add a b = Ret (a + b).
Proof. unfold u64_add. intros. by rewrite (proj2 (Z.ltb_lt _ _)). Qed.
Lemma u64_sub_ok a b : b ≤ a → u64_sub a b = Ret (a - b).
Proof. unfold u64_sub. intros. by rewrite (proj2 (Z.leb_le _ _)). Qed.
Lemma u64_mul_ok a b : a * b < U64 → u64_mul a b = Ret (a * b).
Proof. unfold u64_mul. intros. by rewrite (proj2 (Z.ltb_lt _ _)). Qed.

Create HintDb saros.
Ltac exec_simpl :=
  cbn [mbind exec_bind mret exec_ret expect fst snd fmap option_fmap option_map].
Ltac exec_simpl_in H :=
  cbn [mbind exec_bind mret exec_ret expect fst snd fmap option_fmap option_map] in H.
#[export] Hint Unfold is_u64 : saros.

(** [lia] with division and remainder by constants. *)
Ltac dlia := Z.to_euclidean_division_equations; lia.

(** [for x in xs { body }] over a state *)
Fixpoint for_each {A S} (xs : list A) (body : A → S → exec S) (s : S) : exec S :=
  match xs with
  | [] => Ret s
  | x :: xs => s' ← body x s; for_each xs body s'
  end.

(** The same where the body may leave the function with [?]: [None] stops the
    loop. *)
Fixpoint for_try {A S} (xs : list A) (body : A → S → exec (option unit * S)) (s : S)
    : exec (option unit * S) :=
  match xs with
  | [] => Ret (Some (), s)
  | x :: xs =>
      '(r, s') ← body x s;
      match r with
      | None => Ret (None, s')
      | Some _ => for_try xs body s'
      end
  end.

Lemma for_each_app {A S} (xs ys : list A) (body : A → S → exec S) s :
  for_each (xs ++ ys) body s = s' ← for_each xs body s; for_each ys body s'.
Proof.
  revert s. induction xs as [|x xs IH]; intros s; simpl; [done|].
  destruct (body x s); simpl; auto.
Qed.

(** A loop rule: [I xs s] holds with [xs] still to come. *)
Lemma for_each_ind {A S} (I : list A → S → Prop) (body : A → S → exec S) :
  (∀ x xs s, I (x :: xs) s → ∃ s', body x s = Ret s' ∧ I xs s') →
  ∀ xs s, I xs s → ∃ s', for_each xs body s = Ret s' ∧ I [] s'.
Proof.
  intros Hb xs. induction xs as [|x xs IH]; intros s HI; simpl; [eauto|].
  destruct (Hb x xs s HI) as (s' & -> & HI'). exec_simpl. eauto.
Qed.

(** The same for a loop over a range: [I i s] holds before the turn for [i]. *)
Lemma for_range_ind {St} (I : Z → St → Prop) (body : Z → St → exec St) n :
  0 ≤ n → (∀ i s, 0 ≤ i < n → I i s → ∃ s', body i s = Ret s' ∧ I (i + 1) s') →
  ∀ s, I 0 s → ∃ s', for_each (seqZ 0 n) body s = Ret s' ∧ I n s'.
Proof.
  intros Hn Hb. assert (Hg : ∀ k : nat, k ≤ n → ∀ s, I (n - k) s →
    ∃ s', for_each (seqZ (n - k) k) body s = Ret s' ∧ I n s').
  { induction k as [|k IH]; intros Hk s HI; [exists s; by rewrite Z.sub_0_r in HI|].
    rewrite seqZ_cons by lia. cbn [for_each]. destruct (Hb (n - S k) s) as (s' & -> & HI'); [lia|done|].
    exec_simpl. replace (Z.succ (n - S k)) with (n - k) by lia. replace (Z.pred (S k)) with (Z.of_nat k) by lia.
    apply IH; [lia|]. by replace (n - k) with (n - S k + 1) by lia. }
  intros s HI. specialize (Hg (Z.to_nat n)). rewrite Z2Nat.id, Z.sub_diag in Hg by done. by apply Hg.
Qed.

(** Steps through the checked operations at the head of a computation,
    discharging each range condition with [lia]. *)
Ltac exec_step :=
  first
    [ rewrite u64_add_ok by lia
    | rewrite u64_sub_ok by lia
    | rewrite u64_mul_ok by lia ];
  exec_simpl.
Ltac exec_steps := repeat (exec_simpl; exec_step).

(** Inverts a hypothesis [x ≫= f = Ret b] all the way down. *)
Ltac exec_inv :=
  repeat match goal with
  | H : _ ≫= _ = Ret _ |- _ =>
      apply bind_Ret_inv in H; destruct H as (? & ? & ?)
  | H : Ret _ = Ret _ |- _ => injection H as H; subst
  | H : Panic = Ret _ |- _ => discriminate H
  | H : NoFuel = Ret _ |- _ => discriminate H
  end.

(** ** Arithmetic shared by the components *)

(** Clearing the low [k] bits with a mask of ones. *)
Lemma land_not_ones x k :
  0 ≤ k ≤ 64 → is_u64 x →
  Z.land x (u64_not (2 ^ k - 1)) = x - x mod 2 ^ k.
Proof.
  intros Hk Hx. unfold u64_not, is_u64 in *.
  assert (Hm : U64_MAX - (2 ^ k - 1) = Z.ldiff (Z.ones 64) (Z.ones k)).
  { rewrite <- Z.sub_nocarry_ldiff.
    - rewrite !Z.ones_equiv. lia.
    - apply Z.bits_inj'. intros i Hi. rewrite Z.ldiff_spec, Z.bits_0.
      destruct (Z.ltb_spec i k).
      + rewrite (Z.ones_spec_low 64) by lia. by rewrite andb_false_r.
      + by rewrite (Z.ones_spec_high k) by lia. }
  rewrite Hm.
  assert (Hx' : x = Z.land x (Z.ones 64)).
  { rewrite Z.land_ones, Z.mod_small; lia. }
  rewrite Z.ldiff_land, Z.land_assoc, <- Hx', <- Z.ldiff_land, Z.ldiff_ones_r by lia.
  rewrite Z.shiftr_div_pow2, Z.shiftl_mul_pow2 by lia.
  pose proof (Z.div_mod x (2 ^ k)). lia.
Qed.

(** The low [k] bits selected by a mask of ones. *)
Lemma land_ones_mod x k : 0 ≤ k → Z.land x (2 ^ k - 1) = x mod 2 ^ k.
Proof. intros. rewrite <- Z.land_ones, Z.ones_equiv by lia. f_equal. Qed.

Lemma mod_sub_aligned x d : 0 < d → (x - x mod d) mod d = 0.
Proof. intros. rewrite Zminus_mod, Zmod_mod, Z.sub_diag. apply Z.mod_0_l. lia. Qed.

(** A value aligned to [b] is aligned to every divisor of [b]. *)
Lemma mod_divide_0 x a b : 0 < a → (a | b) → x mod b = 0 → x mod a = 0.
Proof.
  intros Ha Hab Hx. destruct (Z.eq_dec b 0) as [->|Hb].
  { rewrite Z.mod_0_r in Hx. subst. apply Z.mod_0_l. lia. }
  apply Z.mod_divide; [lia|]. apply Z.mod_divide in Hx; [|done].
  by etransitivity.
Qed.

(** Two aligned blocks of the same size either coincide or are disjoint. *)
Lemma aligned_blocks_eq x y d z :
  0 < d → x mod d = 0 → y mod d = 0 →
  x ≤ z < x + d → y ≤ z < y + d → x = y.
Proof.
  intros Hd Hx Hy Hzx Hzy.
  pose proof (Z.div_mod x d) as Dx. pose proof (Z.div_mod y d) as Dy.
  assert (x / d = y / d) by nia. lia.
Qed.

(** A bit-field mask of [n] ones above bit [k]. *)
Lemma land_field x n k :
  0 ≤ n → 0 ≤ k → Z.land x (Z.shiftl (Z.ones n) k) = 2 ^ k * ((x / 2 ^ k) mod 2 ^ n).
Proof.
  intros Hn Hk. rewrite <- Z.land_ones, <- Z.shiftr_div_pow2, Z.mul_comm, <- Z.shiftl_mul_pow2 by lia.
  apply Z.bits_inj'. intros i Hi. rewrite Z.land_spec, !Z.shiftl_spec, Z.land_spec by lia.
  destruct (Z.ltb_spec i k).
  - rewrite !(Z.testbit_neg_r _ (i - k)) by lia. by rewrite andb_false_r.
  - rewrite Z.shiftr_spec by lia. by replace (i - k + k) with i by lia.
Qed.

(** Fields put side by side. *)
Lemma lor_shiftl a k c : 0 ≤ k → 0 ≤ c < 2 ^ k → Z.lor (Z.shiftl a k) c = a * 2 ^ k + c.
Proof.
  intros Hk Hc. assert (Hz : Z.land (Z.shiftl a k) c = 0).
  { apply Z.bits_inj'. intros i Hi. rewrite Z.land_spec, Z.bits_0, Z.shiftl_spec by done.
    destruct (Z.ltb_spec i k); [by rewrite (Z.testbit_neg_r _ (i - k)) by lia|].
    rewrite <- (Z.mod_small c (2 ^ k)), Z.mod_pow2_bits_high, andb_false_r by lia. done. }
  rewrite <- Z.lxor_lor, <- Z.add_nocarry_lxor by done. by rewrite Z.shiftl_mul_pow2.
Qed.

Lemma u64_land_ones x : is_u64 x → x = Z.land x (Z.ones 64).
Proof. intros []. rewrite Z.land_ones, Z.mod_small; lia. Qed.

Lemma lor_shiftl_r a k c : 0 ≤ k → 0 ≤ c < 2 ^ k → Z.lor c (Z.shiftl a k) = a * 2 ^ k + c.
Proof. intros. rewrite Z.lor_comm. by apply lor_shiftl. Qed.

(** The halves of a 64-bit value, put together again. *)
Lemma join_halves v : is_u64 v → Z.lor (Z.shiftl (Z.shiftr v 32 mod U32) 32) (v mod U32) = v.
Proof. intros []. rewrite lor_shiftl, Z.shiftr_div_pow2 by dlia. dlia. Qed.

(** A test of one bit. *)
Lemma land_bit v b : 0 ≤ b → negb (Z.land v (Z.shiftl 1 b) =? 0) = Z.testbit v b.
Proof.
  intros Hb. rewrite Z.shiftl_1_l. destruct (Z.testbit v b) eqn:E.
  - apply negb_true_iff, Z.eqb_neq. intros H0. assert (Hz : Z.testbit (Z.land v (2 ^ b)) b = true) by (rewrite Z.land_spec, E, Z.pow2_bits_true by lia; done).
    by rewrite H0, Z.bits_0 in Hz.
  - apply negb_false_iff, Z.eqb_eq. apply Z.bits_inj'. intros i Hi. rewrite Z.land_spec, Z.bits_0.
    destruct (decide (i = b)) as [->|]; [by rewrite E|]. rewrite (Z.pow2_bits_false b i) by lia. by rewrite andb_false_r.
Qed.

Lemma lor_u64 x y : is_u64 x → is_u64 y → is_u64 (Z.lor x y).
Proof.
  intros Hx Hy. rewrite (u64_land_ones x Hx), (u64_land_ones y Hy), <- Z.land_lor_distr_l.
  rewrite Z.land_ones by lia. apply Z.mod_pos_bound. lia.
Qed.

Lemma land_u64 x y : is_u64 x → is_u64 (Z.land x y).
Proof.
  intros Hx. rewrite (u64_land_ones x Hx), <- Z.land_assoc, (Z.land_comm _ y), Z.land_assoc.
  rewrite Z.land_ones by lia. apply Z.mod_pos_bound. lia.
Qed.
#[export] Hint Resolve lor_u64 land_u64 : saros.

(** ** Lists *)
Lemma subseteq_app_l {A} (F G : list A) : F ⊆ F ++ G.
Proof. intros x Hx. apply elem_of_app. by left. Qed.

Lemma subseteq_app_r {A} (F G : list A) : G ⊆ F ++ G.
Proof. intros x Hx. apply elem_of_app. by right. Qed.

Lemma nth_nil {A} (k : nat) (d : A) : nth k [] d = d.
Proof. by destruct k. Qed.

Lemma rev_reverse {A} (l : list A) : rev l = reverse l.
Proof. apply rev_alt. Qed.

Lemma size_run_minus (U : gset Z) lo (n : nat) p :
  (∀ f, lo ≤ f < lo + n → f ∈ U) → (n ≤ size (U ∖ {[p]}) + 1)%nat.
Proof.
  intros HU. assert (Hs : list_to_set (seqZ lo n) ⊆ (U ∖ {[p]}) ∪ {[p]}).
  { intros f Hf. apply elem_of_list_to_set, elem_of_seqZ, HU in Hf. destruct (decide (f = p)); set_solver. }
  apply subseteq_size in Hs. rewrite size_list_to_set, length_seqZ in Hs by apply NoDup_seqZ.
  rewrite size_union, size_singleton in Hs by set_solver. lia.
Qed.

Lemma size_take_one (F : gset Z) f : f ∈ F → size F = S (size (F ∖ {[f]})).
Proof.
  intros Hf. rewrite size_difference, size_singleton by (by apply singleton_subseteq_l).
  assert (size F ≠ 0%nat) by (intros E0%size_empty_inv; set_solver). lia.
Qed.

(** A statement about the numbers below a bound, by cases. *)
Lemma forall_below (n : Z) (P : Z → Prop) : Forall P (seqZ 0 n) → ∀ i, 0 ≤ i < n → P i.
Proof. rewrite Forall_forall. intros H i Hi. apply H, elem_of_seqZ. lia. Qed.
