(* ===== verification/Machine.v ===== *)
(** Physical memory as the kernel addresses it through the higher-half direct
    map (HHDM): byte cells, little-endian words, fills and copies, and the
    address translation of [src/src/arch/x86_64/limine.rs]. *)
From S2P Require Import Prelude.

(** ** Memory

    A memory maps a kernel virtual address to a byte; the value of a cell is
    read modulo 256. *)
Definition mem := Z → Z.

Definition load8 (m : mem) (a : Z) : Z := m a mod 256.

Fixpoint load_le (n : nat) (m : mem) (a : Z) : Z :=
  match n with
  | O => 0
  | S n => load8 m a + 256 * load_le n m (a + 1)
  end.

Definition store_le (n : nat) (m : mem) (a v : Z) : mem := λ x,
  if (a <=? x) && (x <? a + n) then Z.shiftr v (8 * (x - a)) mod 256 else m x.

(** [*(a as *const u64)] and [*(a as *mut u64) = v] *)
Definition load64 (m : mem) (a : Z) : Z := load_le 8 m a.
Definition store64 (m : mem) (a v : Z) : mem := store_le 8 m a v.

(** [ptr.write_bytes(b, n)] *)
Definition mem_fill (m : mem) (a n b : Z) : mem := λ x,
  if (a <=? x) && (x <? a + n) then b else m x.

(** [copy_nonoverlapping(src, dst, n)] *)
Definition mem_copy (m : mem) (src dst n : Z) : mem := λ x,
  if (dst <=? x) && (x <? dst + n) then m (src + (x - dst)) else m x.

(** Writing a byte slice that lives outside this memory. *)
Definition store_bytes (m : mem) (a : Z) (bs : list Z) : mem := λ x,
  if (a <=? x) && (x <? a + length bs) then nth (Z.to_nat (x - a)) bs 0 else m x.

Implicit Types (n k j : nat) (m : mem) (a v x : Z).

Lemma load_le_bound n m a : 0 ≤ load_le n m a < 256 ^ n.
Proof.
  revert a. induction n as [|n IH]; intros a; cbn [load_le].
  { rewrite Z.pow_0_r. lia. }
  specialize (IH (a + 1)). unfold load8.
  pose proof (Z.mod_pos_bound (m a) 256 ltac:(lia)).
  rewrite Nat2Z.inj_succ, Z.pow_succ_r by lia. lia.
Qed.

Lemma load64_bound m a : is_u64 (load64 m a).
Proof. apply (load_le_bound 8). Qed.

Lemma load_le_ext n m m' a :
  (∀ x, a ≤ x < a + n → m' x = m x) → load_le n m' a = load_le n m a.
Proof.
  revert a. induction n as [|n IH]; intros a H; cbn [load_le]; [done|].
  unfold load8. rewrite H by lia. rewrite IH; [done|]. intros. apply H. lia.
Qed.

Lemma load64_ext m m' a :
  (∀ x, a ≤ x < a + 8 → m' x = m x) → load64 m' a = load64 m a.
Proof. intros. by apply load_le_ext. Qed.

Lemma store_le_other n m a v x : x < a ∨ a + n ≤ x → store_le n m a v x = m x.
Proof.
  unfold store_le. intros.
  destruct (Z.leb_spec a x), (Z.ltb_spec x (a + n)); simpl; auto; lia.
Qed.

Lemma store64_other m a v x : x < a ∨ a + 8 ≤ x → store64 m a v x = m x.
Proof. apply (store_le_other 8). Qed.

Lemma load_store_le_gen n m a v k j :
  (j + k ≤ n)%nat →
  load_le k (store_le n m a v) (a + j) = (v / 256 ^ j) mod 256 ^ k.
Proof.
  revert j. induction k as [|k IH]; intros j Hj; cbn [load_le].
  { by rewrite Z.pow_0_r, Z.mod_1_r. }
  replace (a + j + 1) with (a + (S j)%nat) by lia.
  rewrite IH by lia. unfold load8, store_le.
  rewrite (proj2 (Z.leb_le _ _)), (proj2 (Z.ltb_lt _ _)) by lia. simpl.
  rewrite Z.shiftr_div_pow2 by lia.
  replace (a + j - a) with (Z.of_nat j) by lia.
  rewrite (Z.pow_mul_r 2 8) by lia. change (2 ^ 8) with 256.
  rewrite Zmod_mod, !Nat2Z.inj_succ, !Z.pow_succ_r by lia.
  rewrite (Z.mul_comm 256 (256 ^ j)), <- Z.div_div by lia.
  rewrite Z.rem_mul_r by lia. done.
Qed.

Lemma load_store_le n m a v : load_le n (store_le n m a v) a = v mod 256 ^ n.
Proof.
  pose proof (load_store_le_gen n m a v n 0 ltac:(lia)) as H.
  rewrite Z.add_0_r, Z.pow_0_r, Z.div_1_r in H. done.
Qed.

Lemma load_store64 m a v : is_u64 v → load64 (store64 m a v) a = v.
Proof.
  intros. unfold load64, store64. rewrite load_store_le.
  change (256 ^ 8%nat) with U64. apply Z.mod_small. auto with saros.
Qed.

Lemma load_store64_other m a b v :
  b + 8 ≤ a ∨ a + 8 ≤ b → load64 (store64 m a v) b = load64 m b.
Proof. intros. apply load64_ext. intros. apply store64_other. lia. Qed.

Lemma load64_zero m a : (∀ x, a ≤ x < a + 8 → m x = 0) → load64 m a = 0.
Proof.
  intros H. rewrite (load64_ext (λ _, 0)); [done|]. auto.
Qed.

(** ** Little-endian fields of a byte slice *)
Definition byte_at (b : list Z) (k : nat) : Z := nth k b 0.
Definition le16 (b : list Z) (k : nat) : Z := byte_at b k + 256 * byte_at b (k + 1).
Definition le32 (b : list Z) (k : nat) : Z := le16 b k + 65536 * le16 b (k + 2).
Definition le64 (b : list Z) (k : nat) : Z := le32 b k + 4294967296 * le32 b (k + 4).

(** [n.to_le_bytes()] on a [u64] *)
Definition to_le_bytes (n : Z) : list Z := (λ i : nat, Z.shiftr n (8 * i) mod 256) <$> seq 0 8.

Definition is_byte (b : Z) : Prop := 0 ≤ b < 256.

Lemma byte_at_bound b k : Forall is_byte b → is_byte (byte_at b k).
Proof.
  intros Hb. unfold byte_at. destruct (nth_in_or_default k b 0) as [H| ->]; [|unfold is_byte; lia].
  rewrite Forall_forall in Hb. by apply Hb, list_elem_of_In.
Qed.

Lemma le_bound b k : Forall is_byte b →
  0 ≤ le16 b k < 65536 ∧ 0 ≤ le32 b k < U32 ∧ is_u64 (le64 b k).
Proof.
  intros Hb. assert (H16 : ∀ k, 0 ≤ le16 b k < 65536).
  { intros j. pose proof (byte_at_bound b j Hb). pose proof (byte_at_bound b (j + 1) Hb).
    unfold is_byte, le16 in *. lia. }
  assert (H32 : ∀ k, 0 ≤ le32 b k < U32).
  { intros j. pose proof (H16 j). pose proof (H16 (j + 2)%nat). unfold le32. lia. }
  split; [apply H16|]. split; [apply H32|]. pose proof (H32 k). pose proof (H32 (k + 4)%nat).
  unfold is_u64, le64. lia.
Qed.

(** ** The direct map ([limine.rs])

    The offset is read from the boot loader's response. The Limine protocol
    maps physical memory at a page-aligned, non-zero offset in the higher half.
    With 4-level paging that half has 2^47 bytes and its top holds the kernel
    image, so the direct map covers physical addresses below 2^46 (64 TiB). *)
Abbreviation PHYS_LIMIT := 70368744177664 (only parsing).

Class Hhdm := {
  hhdm_offset : Z;
  hhdm_pos : 0 < hhdm_offset;
  hhdm_aligned : hhdm_offset mod 4096 = 0;
  hhdm_bound : hhdm_offset + PHYS_LIMIT < U64
}.

(** The offset QEMU boots the kernel with. *)
Definition qemu_hhdm : Hhdm.
Proof. refine {| hhdm_offset := 0xFFFF800000000000 |}; [lia|reflexivity|lia]. Defined.

Section Hhdm.
Context {hh : Hhdm}.

Definition phys_to_virt (phys : Z) : exec Z := u64_add phys hhdm_offset.
Definition virt_to_phys (virt : Z) : exec Z := u64_sub virt hhdm_offset.

Lemma phys_to_virt_ok p : p ≤ PHYS_LIMIT → phys_to_virt p = Ret (p + hhdm_offset).
Proof. intros. pose proof hhdm_bound. unfold phys_to_virt. by exec_steps. Qed.

Lemma virt_to_phys_ok p : 0 ≤ p → virt_to_phys (p + hhdm_offset) = Ret p.
Proof.
  intros. unfold virt_to_phys. rewrite u64_sub_ok by lia.
  by rewrite Z.add_simpl_r.
Qed.
End Hhdm.
