(* ===== verification/Vga.v ===== *)
(** The framebuffer console ([src/src/drivers/vga.rs]): pixels, glyphs, the
    cursor, scrolling and escape sequences, and the drawing of a bitmap. *)
From S2P Require Import Prelude Machine.

Abbreviation FONT_WIDTH := 8 (only parsing).
Abbreviation FONT_HEIGHT := 16 (only parsing).

(** ** Colours *)
Definition BLACK : Z := 0x000000.
Definition WHITE : Z := 0xFFFFFF.
Definition RED : Z := 0xFF0000.
Definition YELLOW : Z := 0xFFFF00.
Definition LIGHT_GRAY : Z := 0xAAAAAA.
Definition LIGHT_GREEN : Z := 0x55FF55.

(** ** [struct Screen]; the memory it points at is passed beside it. *)
Record Screen := {
  base : Z; width : Z; height : Z; pitch : Z; bpp : Z;
  col : Z; row : Z; cols : Z; rows : Z;
  fg : Z; bg : Z
}.
Implicit Types (scr : Screen) (m : mem).

Definition uninit : Screen :=
  {| base := 0; width := 0; height := 0; pitch := 0; bpp := 4; col := 0; row := 0; cols := 0; rows := 0;
     fg := WHITE; bg := BLACK |}.

Definition set_pos scr (r c : Z) : Screen :=
  {| base := base scr; width := width scr; height := height scr; pitch := pitch scr; bpp := bpp scr;
     col := c; row := r; cols := cols scr; rows := rows scr; fg := fg scr; bg := bg scr |}.

Definition set_color scr (f b : Z) : Screen :=
  {| base := base scr; width := width scr; height := height scr; pitch := pitch scr; bpp := bpp scr;
     col := col scr; row := row scr; cols := cols scr; rows := rows scr; fg := f; bg := b |}.

(** [limine::Framebuffer], the fields that are used *)
Record Framebuffer := { fb_address : Z; fb_width : Z; fb_height : Z; fb_pitch : Z; fb_bpp : Z }.

Definition put_pixel scr m (x y color : Z) : exec mem :=
  if (width scr <=? x) || (height scr <=? y) then Ret m else
  a ← u64_mul y (pitch scr);
  b ← u64_mul x (bpp scr);
  offset ← u64_add a b;
  Ret (store_le 4 m (base scr + offset) color).

Section Vga.
(** [font8x16.bin] *)
Variable FONT : list Z.

Definition glyph_bit (byte c : Z) : bool := negb (Z.land byte (Z.shiftr 0x80 c) =? 0).

Definition draw_char scr m (ch px py f b : Z) : exec mem :=
  glyph_offset ← u64_mul ch FONT_HEIGHT;
  e ← u64_add glyph_offset FONT_HEIGHT;
  if Z.of_nat (length FONT) <? e then Ret m else
  for_each (seqZ 0 FONT_HEIGHT) (λ r m,
    byte ← expect (FONT !! Z.to_nat (glyph_offset + r));
    for_each (seqZ 0 FONT_WIDTH) (λ c m,
      x ← u64_add px c;
      y ← u64_add py r;
      put_pixel scr m x y (if glyph_bit byte c then f else b)) m) m.

Definition scroll_up scr m : exec (Screen * mem) :=
  line_bytes ← u64_mul FONT_HEIGHT (pitch scr);
  total ← u64_mul (height scr) (pitch scr);
  n ← u64_sub total line_bytes;
  let m := mem_copy m (base scr + line_bytes) (base scr) n in
  let m := mem_fill m (base scr + n) line_bytes 0 in
  Ret (if 0 <? row scr then set_pos scr (row scr - 1) (col scr) else scr, m).

Definition put_char scr m (ch : Z) : exec (Screen * mem) :=
  '(scr, m) ←
    (if ch =? 10 then
       r ← u64_add (row scr) 1;
       Ret (set_pos scr r 0, m)
     else if ch =? 13 then Ret (set_pos scr (row scr) 0, m)
     else if ch =? 8 then
       if 0 <? col scr then
         let scr := set_pos scr (row scr) (col scr - 1) in
         px ← u64_mul (col scr) FONT_WIDTH;
         py ← u64_mul (row scr) FONT_HEIGHT;
         m ← draw_char scr m 32 px py (fg scr) (bg scr);
         Ret (scr, m)
       else Ret (scr, m)
     else
       px ← u64_mul (col scr) FONT_WIDTH;
       py ← u64_mul (row scr) FONT_HEIGHT;
       m ← draw_char scr m ch px py (fg scr) (bg scr);
       c ← u64_add (col scr) 1;
       if cols scr <=? c then
         r ← u64_add (row scr) 1;
         Ret (set_pos scr r 0, m)
       else Ret (set_pos scr (row scr) c, m));
  if rows scr <=? row scr then scroll_up scr m else Ret (scr, m).

Definition clear scr m : exec (Screen * mem) :=
  total ← u64_mul (height scr) (pitch scr);
  Ret (set_pos scr 0 0, mem_fill m (base scr) total 0).

(** [init], with the response of the boot loader. *)
Definition init (resp : option (list Framebuffer)) scr m : exec (Screen * mem) :=
  match resp with
  | None | Some [] => Ret (scr, m)
  | Some (fb :: _) =>
      clear {| base := fb_address fb; width := fb_width fb; height := fb_height fb; pitch := fb_pitch fb;
               bpp := fb_bpp fb / 8; col := col scr; row := row scr;
               cols := fb_width fb / FONT_WIDTH; rows := fb_height fb / FONT_HEIGHT;
               fg := fg scr; bg := bg scr |} m
  end.

(** The bytes that [vga::write_str] leaves after dropping [ESC [ ... final]. *)
Fixpoint put_bytes (in_csi : bool) scr m (b : list Z) : exec (Screen * mem) :=
  match b with
  | [] => Ret (scr, m)
  | x :: b1 =>
      if in_csi then put_bytes (negb ((0x40 <=? x) && (x <=? 0x7e))) scr m b1
      else
        match b1 with
        | y :: b2 =>
            if (x =? 0x1b) && (y =? 0x5b) then put_bytes true scr m b2
            else '(scr, m) ← put_char scr m x; put_bytes false scr m b1
        | [] => put_char scr m x
        end
  end.

Definition write_str scr m (s : list Z) : exec (Screen * mem) :=
  if base scr =? 0 then Ret (scr, m) else put_bytes false scr m s.
End Vga.

(** ** [draw_bitmap]; the bitmap is that of [bmp.rs]. *)
Record Bitmap := { bmp_width : Z; bmp_height : Z; pixels : list Z }.

(** A division; the code panics on zero. *)
Definition u64_div (a b : Z) : exec Z := if b =? 0 then Panic else Ret (a / b).

Definition fit_size (sw sh iw ih : Z) : exec (Z * Z) :=
  a ← u64_mul sw ih;
  b ← u64_mul sh iw;
  if a <=? b then
    c ← u64_mul ih sw; d ← u64_div c iw; Ret (sw, d)
  else
    c ← u64_mul iw sh; d ← u64_div c ih; Ret (d, sh).

Definition draw_bitmap scr m (bmp : Bitmap) : exec (Screen * mem) :=
  if base scr =? 0 then Ret (scr, m) else
  let '(sw, sh, iw, ih) := (width scr, height scr, bmp_width bmp, bmp_height bmp) in
  total ← u64_mul sh (pitch scr);
  let m := mem_fill m (base scr) total 0 in
  let scr := set_pos scr 0 0 in
  '(dst_w, dst_h) ← fit_size sw sh iw ih;
  wx ← u64_sub sw dst_w;
  wy ← u64_sub sh dst_h;
  let off_x := wx / 2 in
  let off_y := wy / 2 in
  m ← for_each (seqZ 0 dst_h) (λ dy m,
    a ← u64_mul dy ih; sy ← u64_div a dst_h;
    for_each (seqZ 0 dst_w) (λ dx m,
      b ← u64_mul dx iw; sx ← u64_div b dst_w;
      c ← u64_mul sy iw; i ← u64_add c sx;
      color ← expect (pixels bmp !! Z.to_nat i);
      x ← u64_add off_x dx; y ← u64_add off_y dy;
      put_pixel scr m x y color) m) m;
  Ret (scr, m).

(** Moving the cursor. *)
Lemma pos_pos scr r c r' c' : set_pos (set_pos scr r c) r' c' = set_pos scr r' c'.
Proof. done. Qed.
Lemma row_pos scr r c : row (set_pos scr r c) = r.
Proof. done. Qed.
Lemma col_pos scr r c : col (set_pos scr r c) = c.
Proof. done. Qed.
Lemma fg_pos scr r c : fg (set_pos scr r c) = fg scr.
Proof. done. Qed.
Lemma bg_pos scr r c : bg (set_pos scr r c) = bg scr.
Proof. done. Qed.
Lemma cols_pos scr r c : cols (set_pos scr r c) = cols scr.
Proof. done. Qed.
Create Rewrite HintDb screen.
#[local] Hint Rewrite pos_pos row_pos col_pos fg_pos bg_pos cols_pos : screen.

(** ** Pixels

    The geometry of a linear 32-bit framebuffer. *)
Abbreviation U32_MAX1 := 4294967296 (only parsing).

Record geom_ok scr : Prop := {
  go_bpp : bpp scr = 4;
  go_base : 0 < base scr;
  go_end : base scr + height scr * pitch scr < U64;
  go_pitch : width scr * 4 ≤ pitch scr;
  go_cols : cols scr = width scr / FONT_WIDTH;
  go_rows : rows scr = height scr / FONT_HEIGHT;
  go_cols1 : 1 ≤ cols scr;
  go_rows1 : 1 ≤ rows scr;
  go_fg : 0 ≤ fg scr < U32_MAX1;
  go_bg : 0 ≤ bg scr < U32_MAX1
}.

Definition on_screen scr (x y : Z) : Prop := 0 ≤ x < width scr ∧ 0 ≤ y < height scr.
Definition pixel scr m (x y : Z) : Z := load_le 4 m (base scr + (y * pitch scr + x * 4)).

(** From [m] to [m'] the pixels that [u] gives a colour get it, the others stay,
    and nothing outside the framebuffer changes. *)
Record draws scr m m' (u : Z → Z → option Z) : Prop := {
  dr_pixel : ∀ x y, on_screen scr x y → pixel scr m' x y = default (pixel scr m x y) (u x y);
  dr_off : ∀ a, a < base scr ∨ base scr + height scr * pitch scr ≤ a → m' a = m a
}.

Lemma draws_none scr m : draws scr m m (λ _ _, None).
Proof. by split. Qed.

Lemma draws_then scr m m1 m2 u1 u2 u : draws scr m m1 u1 → draws scr m1 m2 u2 →
  (∀ x y, on_screen scr x y → u x y = match u2 x y with Some c => Some c | None => u1 x y end) →
  draws scr m m2 u.
Proof.
  intros [P1 O1] [P2 O2] Hu. split.
  - intros x y Hxy. rewrite P2, P1, Hu by done. by destruct (u2 x y).
  - intros a Ha. by rewrite O2, O1.
Qed.

Lemma draws_ext scr m m' u u' : draws scr m m' u → (∀ x y, on_screen scr x y → u' x y = u x y) → draws scr m m' u'.
Proof. intros [P O] Hu. split; [|done]. intros x y Hxy. by rewrite P, Hu. Qed.

(** Where a pixel lies in the framebuffer. *)
Lemma pixel_range scr x y : geom_ok scr → on_screen scr x y →
  0 ≤ y * pitch scr + x * 4 ∧ y * pitch scr + x * 4 + 4 ≤ (y + 1) * pitch scr ∧
  y * pitch scr + x * 4 + 4 ≤ height scr * pitch scr.
Proof.
  intros Hg [Hx Hy]. pose proof (go_pitch _ Hg).
  assert (0 ≤ y * pitch scr) by (apply Z.mul_nonneg_nonneg; lia).
  assert ((y + 1) * pitch scr ≤ height scr * pitch scr) by (apply Z.mul_le_mono_nonneg_r; lia).
  rewrite Z.mul_add_distr_r in *. lia.
Qed.

Lemma pixel_apart scr x y x' y' : geom_ok scr → on_screen scr x y → on_screen scr x' y' → (x, y) ≠ (x', y') →
  y * pitch scr + x * 4 + 4 ≤ y' * pitch scr + x' * 4 ∨ y' * pitch scr + x' * 4 + 4 ≤ y * pitch scr + x * 4.
Proof.
  intros Hg Hxy Hxy' Hne. destruct (pixel_range scr x y Hg Hxy), (pixel_range scr x' y' Hg Hxy').
  destruct (Hxy) as [? ?], (Hxy') as [? ?]. pose proof (go_pitch _ Hg).
  destruct (Z.lt_trichotomy y y') as [Hlt|[<-|Hlt]].
  - assert ((y + 1) * pitch scr ≤ y' * pitch scr) by (apply Z.mul_le_mono_nonneg_r; lia). lia.
  - assert (x ≠ x') by congruence. lia.
  - assert ((y' + 1) * pitch scr ≤ y * pitch scr) by (apply Z.mul_le_mono_nonneg_r; lia). lia.
Qed.

Lemma load_le_shift n m m' a d : (∀ x, a ≤ x < a + Z.of_nat n → m' x = m (x + d)) → load_le n m' a = load_le n m (a + d).
Proof.
  revert a. induction n as [|n IH]; intros a H; cbn [load_le]; [done|]. unfold load8. rewrite H by lia.
  rewrite (IH (a + 1)) by (intros; apply H; lia). by replace (a + 1 + d) with (a + d + 1) by lia.
Qed.

Definition at_pixel (x y c x' y' : Z) : option Z := if (x' =? x) && (y' =? y) then Some c else None.

Lemma put_pixel_spec scr m x y c : geom_ok scr → on_screen scr x y → 0 ≤ c < U32_MAX1 →
  ∃ m', put_pixel scr m x y c = Ret m' ∧ draws scr m m' (at_pixel x y c).
Proof.
  intros Hg Hxy Hc. destruct (pixel_range scr x y Hg Hxy) as (? & ? & ?). pose proof (go_base _ Hg). pose proof (go_end _ Hg).
  destruct (Hxy) as [Hx Hy]. pose proof (go_pitch _ Hg). assert (0 ≤ y * pitch scr) by (apply Z.mul_nonneg_nonneg; lia).
  unfold put_pixel. rewrite (go_bpp _ Hg).
  rewrite !(proj2 (Z.leb_gt _ _)) by lia. cbn [orb].
  rewrite u64_mul_ok by lia. exec_simpl. rewrite u64_mul_ok by lia. exec_simpl. rewrite u64_add_ok by lia. exec_simpl.
  eexists. split; [done|]. split.
  - intros x' y' Hxy'. unfold at_pixel, pixel. destruct (Z.eqb_spec x' x) as [->|Hne]; [destruct (Z.eqb_spec y' y) as [->|Hne]|]; cbn [andb default from_option id].
    + rewrite load_store_le. by apply Z.mod_small.
    + apply load_le_ext. intros a Ha. apply store_le_other. destruct (pixel_apart scr x y x y' Hg Hxy Hxy'); [congruence|lia|lia].
    + apply load_le_ext. intros a Ha. apply store_le_other. destruct (pixel_apart scr x y x' y' Hg Hxy Hxy'); [congruence|lia|lia].
  - intros a Ha. apply store_le_other. lia.
Qed.

Lemma geom_bounds scr : geom_ok scr → width scr < U64 ∧ height scr < U64 ∧ 0 < pitch scr ∧
  cols scr * FONT_WIDTH ≤ width scr ∧ rows scr * FONT_HEIGHT ≤ height scr.
Proof.
  intros Hg. destruct (Hg) as [_ Hb He Hp Hc Hr Hc1 Hr1 _ _].
  pose proof (Z.mul_div_le (width scr) FONT_WIDTH). pose proof (Z.mul_div_le (height scr) FONT_HEIGHT).
  assert (height scr * 1 ≤ height scr * pitch scr) by (apply Z.mul_le_mono_nonneg_l; lia).
  assert (1 * pitch scr ≤ height scr * pitch scr) by (apply Z.mul_le_mono_nonneg_r; lia). lia.
Qed.

Lemma geom_set_pos scr r c : geom_ok scr → geom_ok (set_pos scr r c).
Proof. intros []. by split. Qed.

Lemma draws_set_pos scr r c m m' u : draws (set_pos scr r c) m m' u → draws scr m m' u.
Proof. intros [P O]. by split. Qed.

(** A framebuffer filled with zeros is black. *)
Lemma filled_pixel scr m x y : geom_ok scr → on_screen scr x y →
  pixel scr (mem_fill m (base scr) (height scr * pitch scr) 0) x y = 0.
Proof.
  intros Hg Hxy. destruct (pixel_range scr x y Hg Hxy) as (? & ? & ?). unfold pixel.
  rewrite (load_le_ext 4 (λ _, 0)); [done|]. intros a Ha. unfold mem_fill.
  by rewrite (proj2 (Z.leb_le _ _)), (proj2 (Z.ltb_lt _ _)) by lia.
Qed.

(** ** Glyphs *)
Section Text.
Variable FONT : list Z.
Hypothesis font_length : length FONT = 4096%nat.

Definition glyph_colour (ch f b x y : Z) : Z :=
  if glyph_bit (nth (Z.to_nat (ch * FONT_HEIGHT + y)) FONT 0) x then f else b.

(** The box of [w] by [h] pixels at ([px], [py]), drawn with the glyph. *)
Definition glyph_box (ch f b px py w h x y : Z) : option Z :=
  if (px <=? x) && (x <? px + w) && (py <=? y) && (y <? py + h) then Some (glyph_colour ch f b (x - px) (y - py)) else None.

Lemma glyph_row scr m (ch f b px py r : Z) : geom_ok scr → 0 ≤ f < U32_MAX1 → 0 ≤ b < U32_MAX1 →
  0 ≤ px → px + FONT_WIDTH ≤ width scr → 0 ≤ py → 0 ≤ r → py + r < height scr → height scr < U64 → width scr < U64 →
  ∃ m', for_each (seqZ 0 FONT_WIDTH) (λ c m,
      x ← u64_add px c;
      y ← u64_add py r;
      put_pixel scr m x y (if glyph_bit (nth (Z.to_nat (ch * FONT_HEIGHT + r)) FONT 0) c then f else b)) m = Ret m' ∧
    draws scr m m' (λ x y, if (px <=? x) && (x <? px + FONT_WIDTH) && (y =? py + r)
                           then Some (glyph_colour ch f b (x - px) r) else None).
Proof.
  intros Hg Hf Hb Hpx Hpw Hpy Hr Hph Hh Hw.
  apply (for_range_ind (λ c m', draws scr m m' (λ x y, if (px <=? x) && (x <? px + c) && (y =? py + r)
                           then Some (glyph_colour ch f b (x - px) r) else None))); [lia| |].
  - intros c m1 Hc Hd. rewrite !u64_add_ok by lia. exec_simpl.
    destruct (put_pixel_spec scr m1 (px + c) (py + r) (glyph_colour ch f b c r) Hg) as (m2 & E & Hd2).
    { split; lia. } { unfold glyph_colour. by destruct (glyph_bit _ _). }
    exists m2. split; [exact E|]. eapply draws_then; [exact Hd|exact Hd2|].
    intros x y _. unfold at_pixel.
    destruct (Z.eqb_spec x (px + c)) as [->|Hx], (Z.eqb_spec y (py + r)) as [->|Hy]; cbn [andb]; rewrite ?andb_false_r; try done.
    + rewrite (proj2 (Z.leb_le _ _)), (proj2 (Z.ltb_lt _ _)) by lia. cbn [andb]. do 2 f_equal. lia.
    + destruct (Z.leb_spec px x), (Z.ltb_spec x (px + (c + 1))), (Z.ltb_spec x (px + c)); cbn; try done; lia.
  - eapply draws_ext; [apply draws_none|]. intros x y _.
    destruct (Z.leb_spec px x), (Z.ltb_spec x (px + 0)); cbn; try done; lia.
Qed.

Lemma draw_char_spec scr m (ch px py f b : Z) : geom_ok scr → 0 ≤ ch < 256 → 0 ≤ f < U32_MAX1 → 0 ≤ b < U32_MAX1 →
  0 ≤ px → px + FONT_WIDTH ≤ width scr → 0 ≤ py → py + FONT_HEIGHT ≤ height scr → height scr < U64 → width scr < U64 →
  ∃ m', draw_char FONT scr m ch px py f b = Ret m' ∧
    draws scr m m' (glyph_box ch f b px py FONT_WIDTH FONT_HEIGHT).
Proof.
  intros Hg Hch Hf Hb Hpx Hpw Hpy Hph Hh Hw. unfold draw_char. rewrite u64_mul_ok by lia. exec_simpl.
  rewrite u64_add_ok by lia. exec_simpl. rewrite font_length. rewrite (proj2 (Z.ltb_ge _ _)) by lia.
  apply (for_range_ind (λ r m', draws scr m m' (glyph_box ch f b px py FONT_WIDTH r))); [lia| |].
  - intros r m1 Hr Hd. destruct (lookup_lt_is_Some_2 FONT (Z.to_nat (ch * FONT_HEIGHT + r))) as [byte Eb]; [lia|].
    rewrite Eb. cbn [expect]. exec_simpl. apply (nth_lookup_Some _ _ 0) in Eb as Eb'. rewrite <- Eb'.
    destruct (glyph_row scr m1 ch f b px py r) as (m2 & E & Hd2); auto; [lia..|]. exists m2. split; [exact E|].
    eapply draws_then; [exact Hd|exact Hd2|]. intros x y _. unfold glyph_box.
    destruct (Z.leb_spec px x), (Z.ltb_spec x (px + FONT_WIDTH)); cbn [andb]; try done.
    destruct (Z.eqb_spec y (py + r)) as [->|Hy].
    + rewrite (proj2 (Z.leb_le _ _)), (proj2 (Z.ltb_lt _ _)) by lia. cbn [andb]. do 2 f_equal. lia.
    + destruct (Z.leb_spec py y), (Z.ltb_spec y (py + (r + 1))), (Z.ltb_spec y (py + r)); cbn; try done; lia.
  - eapply draws_ext; [apply draws_none|]. intros x y _. unfold glyph_box.
    destruct (Z.leb_spec px x), (Z.ltb_spec x (px + FONT_WIDTH)), (Z.leb_spec py y), (Z.ltb_spec y (py + 0)); cbn; try done; lia.
Qed.

(** ** The text console

    A grid of cells, each blank or a character with its colours, and a cursor. *)
Definition cell := option (Z * Z * Z).
Record term := { t_row : Z; t_col : Z; t_grid : Z → Z → cell }.

Definition cell_colour (c : cell) (x y : Z) : Z :=
  match c with None => 0 | Some (ch, f, b) => glyph_colour ch f b x y end.

(** The framebuffer shows the grid; the margin is black. *)
Definition shows scr m (g : Z → Z → cell) : Prop := ∀ x y, on_screen scr x y →
  pixel scr m x y =
    if (x / FONT_WIDTH <? cols scr) && (y / FONT_HEIGHT <? rows scr)
    then cell_colour (g (y / FONT_HEIGHT) (x / FONT_WIDTH)) (x mod FONT_WIDTH) (y mod FONT_HEIGHT) else 0.

Definition set_cell (g : Z → Z → cell) (r c : Z) (v : cell) : Z → Z → cell :=
  λ r' c', if (r' =? r) && (c' =? c) then v else g r' c'.
Definition scroll_grid (n : Z) (g : Z → Z → cell) : Z → Z → cell := λ r c, if r + 1 <? n then g (r + 1) c else None.

(** One character on a console of [nr] rows and [nc] columns. *)
Definition term_put (nr nc f b : Z) (t : term) (ch : Z) : term :=
  let '{| t_row := r; t_col := c; t_grid := g |} := t in
  let t1 :=
    if ch =? 10 then {| t_row := r + 1; t_col := 0; t_grid := g |}
    else if ch =? 13 then {| t_row := r; t_col := 0; t_grid := g |}
    else if ch =? 8 then
      if 0 <? c then {| t_row := r; t_col := c - 1; t_grid := set_cell g r (c - 1) (Some (32, f, b)) |} else t
    else
      let g := set_cell g r c (Some (ch, f, b)) in
      if nc <=? c + 1 then {| t_row := r + 1; t_col := 0; t_grid := g |}
      else {| t_row := r; t_col := c + 1; t_grid := g |} in
  if nr <=? t_row t1 then {| t_row := t_row t1 - 1; t_col := t_col t1; t_grid := scroll_grid nr (t_grid t1) |} else t1.

Lemma shows_draw scr m m' g ch f b r c : shows scr m g → 0 ≤ r < rows scr → 0 ≤ c < cols scr →
  draws scr m m' (glyph_box ch f b (c * FONT_WIDTH) (r * FONT_HEIGHT) FONT_WIDTH FONT_HEIGHT) →
  shows scr m' (set_cell g r c (Some (ch, f, b))).
Proof.
  intros Hs Hr Hc [Hd _] x y Hxy. rewrite Hd, Hs by done. unfold glyph_box, set_cell.
  pose proof (Z.div_mod x FONT_WIDTH ltac:(lia)). pose proof (Z.mod_pos_bound x FONT_WIDTH ltac:(lia)).
  pose proof (Z.div_mod y FONT_HEIGHT ltac:(lia)). pose proof (Z.mod_pos_bound y FONT_HEIGHT ltac:(lia)).
  destruct (Z.eqb_spec (y / FONT_HEIGHT) r) as [Ey|Ey], (Z.eqb_spec (x / FONT_WIDTH) c) as [Ex|Ex]; cbn [andb].
  - rewrite !(proj2 (Z.leb_le _ _)), !(proj2 (Z.ltb_lt _ _)) by lia. cbn [andb default from_option id cell_colour]. f_equal; lia.
  - destruct (Z.leb_spec (c * FONT_WIDTH) x), (Z.ltb_spec x (c * FONT_WIDTH + FONT_WIDTH)); cbn [andb default from_option]; try done; lia.
  - rewrite (andb_comm (_ && _)). destruct (Z.leb_spec (r * FONT_HEIGHT) y), (Z.ltb_spec y (r * FONT_HEIGHT + FONT_HEIGHT));
    rewrite ?andb_false_r, ?andb_true_r; cbn [andb default from_option]; try done; try lia; destruct (_ && _); done || lia.
  - destruct (Z.leb_spec (c * FONT_WIDTH) x), (Z.ltb_spec x (c * FONT_WIDTH + FONT_WIDTH)); cbn [andb default from_option]; try done; lia.
Qed.

(** Scrolling moves the lines up by the height of a character. *)
Lemma scroll_up_spec scr m : geom_ok scr →
  ∃ m', scroll_up scr m = Ret (if 0 <? row scr then set_pos scr (row scr - 1) (col scr) else scr, m') ∧
    (∀ x y, on_screen scr x y →
       pixel scr m' x y = if y + FONT_HEIGHT <? height scr then pixel scr m x (y + FONT_HEIGHT) else 0) ∧
    ∀ a, a < base scr ∨ base scr + height scr * pitch scr ≤ a → m' a = m a.
Proof.
  intros Hg. destruct (geom_bounds scr Hg) as (? & ? & ? & ? & ?). destruct (Hg) as [_ Hb He Hp _ Hr _ Hr1 _ _].
  assert (Hl : FONT_HEIGHT * pitch scr ≤ height scr * pitch scr) by (apply Z.mul_le_mono_nonneg_r; lia).
  unfold scroll_up. rewrite u64_mul_ok by lia. exec_simpl. rewrite u64_mul_ok by lia. exec_simpl.
  rewrite u64_sub_ok by lia. exec_simpl. eexists. split; [done|]. split.
  - intros x y Hxy. destruct (pixel_range scr x y Hg Hxy) as (? & ? & ?). destruct (Hxy) as [? ?].
    unfold pixel. destruct (Z.ltb_spec (y + FONT_HEIGHT) (height scr)) as [Hy|Hy].
    + assert ((y + 1) * pitch scr ≤ (height scr - FONT_HEIGHT) * pitch scr) by (apply Z.mul_le_mono_nonneg_r; lia).
      rewrite Z.mul_sub_distr_r in *. rewrite (load_le_shift 4 m _ _ (FONT_HEIGHT * pitch scr)).
      * f_equal. rewrite (Z.mul_add_distr_r y). lia.
      * intros a Ha. unfold mem_fill, mem_copy. rewrite (proj2 (Z.leb_gt _ _)) by lia. cbn [andb].
        rewrite (proj2 (Z.leb_le _ _)), (proj2 (Z.ltb_lt _ _)) by lia. cbn [andb]. f_equal. lia.
    + assert ((height scr - FONT_HEIGHT) * pitch scr ≤ y * pitch scr) by (apply Z.mul_le_mono_nonneg_r; lia).
      rewrite Z.mul_sub_distr_r in *. rewrite (load_le_ext 4 (λ _, 0)); [done|].
      intros a Ha. unfold mem_fill. by rewrite (proj2 (Z.leb_le _ _)), (proj2 (Z.ltb_lt _ _)) by lia.
  - intros a Ha. unfold mem_fill, mem_copy.
    destruct Ha; [rewrite (proj2 (Z.leb_gt _ a)) by lia|rewrite (proj2 (Z.ltb_ge a _)), andb_false_r by lia].
    + cbn [andb]. rewrite (proj2 (Z.leb_gt _ a)) by lia. done.
    + rewrite (proj2 (Z.ltb_ge a _)), andb_false_r by lia. done.
Qed.

Lemma shows_scroll scr m m' g : geom_ok scr → shows scr m g →
  (∀ x y, on_screen scr x y →
     pixel scr m' x y = if y + FONT_HEIGHT <? height scr then pixel scr m x (y + FONT_HEIGHT) else 0) →
  shows scr m' (scroll_grid (rows scr) g).
Proof.
  intros Hg Hs Hm x y Hxy. rewrite Hm by done. destruct (Hxy) as [? ?]. unfold scroll_grid.
  destruct (geom_bounds scr Hg) as (? & ? & ? & ? & ?).
  replace (y + FONT_HEIGHT) with (y + 1 * FONT_HEIGHT) by lia.
  destruct (Z.ltb_spec (y + 1 * FONT_HEIGHT) (height scr)) as [Hy|Hy].
  - rewrite Hs by (split; lia). rewrite Z.div_add, Z.mod_add by lia.
    destruct (Z.ltb_spec (y / FONT_HEIGHT + 1) (rows scr)), (Z.ltb_spec (y / FONT_HEIGHT) (rows scr)); rewrite ?andb_false_r; try done; [lia|].
    rewrite andb_true_r. by destruct (_ <? _).
  - assert (rows scr ≤ y / FONT_HEIGHT + 1).
    { rewrite (go_rows _ Hg), <- Z.div_add by lia. apply Z.div_le_mono; lia. }
    destruct (_ && _); [|done]. by rewrite (proj2 (Z.ltb_ge _ _)) by lia.
Qed.

(** The screen with the cursor of the console. *)
Definition with_cursor scr (t : term) : Screen := set_pos scr (t_row t) (t_col t).

Definition cursor_ok scr (t : term) : Prop := 0 ≤ t_row t < rows scr ∧ 0 ≤ t_col t < cols scr.

(** The end of [put_char]: scrolling when the cursor has left the last row. *)
Lemma scroll_refines scr m t : geom_ok scr → shows scr m (t_grid t) → 0 ≤ t_row t ≤ rows scr → 0 ≤ t_col t < cols scr →
  let t' := if rows scr <=? t_row t
            then {| t_row := t_row t - 1; t_col := t_col t; t_grid := scroll_grid (rows scr) (t_grid t) |} else t in
  ∃ m', (if rows scr <=? t_row t then scroll_up (with_cursor scr t) m else Ret (with_cursor scr t, m)) = Ret (with_cursor scr t', m') ∧
    shows scr m' (t_grid t') ∧ cursor_ok scr t' ∧ ∀ a, a < base scr ∨ base scr + height scr * pitch scr ≤ a → m' a = m a.
Proof.
  intros Hg Hs Hr Hc. pose proof (go_rows1 _ Hg). destruct (Z.leb_spec (rows scr) (t_row t)) as [Hle|Hlt]; cbn zeta.
  - destruct (scroll_up_spec (with_cursor scr t) m (geom_set_pos _ _ _ Hg)) as (m' & E & Hm & Ho). rewrite E.
    cbn [row col with_cursor set_pos]. rewrite (proj2 (Z.ltb_lt _ _)) by lia. exists m'. split; [done|].
    split; [by apply (shows_scroll scr m)|]. split; [unfold cursor_ok; cbn; lia|done].
  - exists m. split_and!; try done. unfold cursor_ok. lia.
Qed.

Lemma put_char_refines scr m t ch : geom_ok scr → shows scr m (t_grid t) → cursor_ok scr t → 0 ≤ ch < 256 →
  let t' := term_put (rows scr) (cols scr) (fg scr) (bg scr) t ch in
  ∃ m', put_char FONT (with_cursor scr t) m ch = Ret (with_cursor scr t', m') ∧
    shows scr m' (t_grid t') ∧ cursor_ok scr t' ∧ ∀ a, a < base scr ∨ base scr + height scr * pitch scr ≤ a → m' a = m a.
Proof.
  intros Hg Hs [Hr Hc] Hch. destruct (geom_bounds scr Hg) as (Hw & Hh & _ & Hcw & Hrh). destruct (Hg) as [_ _ _ _ _ _ _ _ Hf Hb].
  assert (Hdraw : ∀ c ch, 0 ≤ c < cols scr → 0 ≤ ch < 256 → ∃ m',
    draw_char FONT (set_pos scr (t_row t) c) m ch (c * FONT_WIDTH) (t_row t * FONT_HEIGHT) (fg scr) (bg scr) = Ret m' ∧
    shows scr m' (set_cell (t_grid t) (t_row t) c (Some (ch, fg scr, bg scr))) ∧
    ∀ a, a < base scr ∨ base scr + height scr * pitch scr ≤ a → m' a = m a).
  { intros c ch' Hc' Hch'. destruct (draw_char_spec (set_pos scr (t_row t) c) m ch' (c * FONT_WIDTH) (t_row t * FONT_HEIGHT) (fg scr) (bg scr))
      as (m' & E & Hd); auto using geom_set_pos; cbn; try lia.
    exists m'. split; [done|]. apply draws_set_pos in Hd.
    split; [by apply (shows_draw scr m m')|]. apply (dr_off _ _ _ _ Hd). }
  destruct t as [r c g]. cbn [t_row t_col t_grid] in *. unfold put_char, term_put, with_cursor.
  cbn [t_row t_col]. autorewrite with screen.
  destruct (Z.eqb_spec ch 10); [|destruct (Z.eqb_spec ch 13); [|destruct (Z.eqb_spec ch 8); [destruct (Z.ltb_spec 0 c)|]]].
  - rewrite u64_add_ok by lia. exec_simpl. apply (scroll_refines scr m {| t_row := r + 1; t_col := 0; t_grid := g |}); cbn; auto; lia.
  - exec_simpl. apply (scroll_refines scr m {| t_row := r; t_col := 0; t_grid := g |}); cbn; auto; lia.
  - rewrite !u64_mul_ok by lia. exec_simpl.
    destruct (Hdraw (c - 1) 32) as (m1 & E & Hs1 & Ho1); [lia|lia|]. autorewrite with screen. rewrite E. exec_simpl.
    destruct (scroll_refines scr m1 {| t_row := r; t_col := c - 1; t_grid := set_cell g r (c - 1) (Some (32, fg scr, bg scr)) |})
      as (m2 & E2 & ? & ? & Ho2); cbn; auto; [lia..|]. exists m2. split; [exact E2|]. split_and!; auto. intros a Ha. by rewrite Ho2, Ho1.
  - exec_simpl. apply (scroll_refines scr m {| t_row := r; t_col := c; t_grid := g |}); cbn; auto; lia.
  - rewrite !u64_mul_ok by lia. exec_simpl.
    destruct (Hdraw c ch) as (m1 & E & Hs1 & Ho1); [lia|lia|]. rewrite E. exec_simpl. rewrite (u64_add_ok c) by lia. exec_simpl.
    autorewrite with screen. set (g' := set_cell g r c _) in *. destruct (Z.leb_spec (cols scr) (c + 1)).
    + rewrite u64_add_ok by lia. exec_simpl.
      destruct (scroll_refines scr m1 {| t_row := r + 1; t_col := 0; t_grid := g' |}) as (m2 & E2 & ? & ? & Ho2); cbn; auto; [lia..|].
      exists m2. split; [exact E2|]. split_and!; auto. intros a Ha. by rewrite Ho2, Ho1.
    + exec_simpl.
      destruct (scroll_refines scr m1 {| t_row := r; t_col := c + 1; t_grid := g' |}) as (m2 & E2 & ? & ? & Ho2); cbn; auto; [lia..|].
      exists m2. split; [exact E2|]. split_and!; auto. intros a Ha. by rewrite Ho2, Ho1.
Qed.

(** The picture is in the memory of the framebuffer. *)
Lemma shows_agree scr m m' g : geom_ok scr → (∀ a, base scr ≤ a < base scr + height scr * pitch scr → m' a = m a) →
  shows scr m g → shows scr m' g.
Proof.
  intros Hg Hm Hs x y Hxy. rewrite <- (Hs x y Hxy). unfold pixel. apply load_le_ext. intros a Ha. apply Hm.
  destruct Hxy as [Hx Hy]. pose proof (go_pitch _ Hg). nia.
Qed.

(** The bytes that are left when escape sequences are dropped. *)
Fixpoint visible (in_csi : bool) (b : list Z) : list Z :=
  match b with
  | [] => []
  | x :: b1 =>
      if in_csi then visible (negb ((0x40 <=? x) && (x <=? 0x7e))) b1
      else match b1 with
           | y :: b2 => if (x =? 0x1b) && (y =? 0x5b) then visible true b2 else x :: visible false b1
           | [] => [x]
           end
  end.

(** Text without [ESC] is written as it is, and a control sequence, with any
    parameters, leaves nothing. *)
Lemma visible_plain b : (27 ∉ b) → visible false b = b.
Proof.
  induction b as [|x b IH]; intros Hn; [done|]. apply not_elem_of_cons in Hn as [Hx Hn]. cbn [visible].
  destruct b as [|y b]; [done|]. rewrite (proj2 (Z.eqb_neq x 0x1b)) by congruence. cbn [andb]. by rewrite IH.
Qed.

Lemma visible_csi ps fin rest : Forall (λ p, p < 0x40 ∨ 0x7e < p) ps → 0x40 ≤ fin ≤ 0x7e →
  visible false (0x1b :: 0x5b :: ps ++ fin :: rest) = visible false rest.
Proof.
  intros Hps Hf. cbn [visible Z.eqb andb Pos.eqb]. induction Hps as [|p ps Hp _ IH]; cbn [visible app].
  - by rewrite !(proj2 (Z.leb_le _ _)) by lia.
  - replace (negb ((64 <=? p) && (p <=? 126))) with true; [exact IH|]. symmetry. apply negb_true_iff, andb_false_iff.
    rewrite !Z.leb_gt. lia.
Qed.

Lemma put_bytes_refines scr b : geom_ok scr → Forall is_byte b → ∀ in_csi m t, shows scr m (t_grid t) → cursor_ok scr t →
  let t' := fold_left (term_put (rows scr) (cols scr) (fg scr) (bg scr)) (visible in_csi b) t in
  ∃ m', put_bytes FONT in_csi (with_cursor scr t) m b = Ret (with_cursor scr t', m') ∧
    shows scr m' (t_grid t') ∧ cursor_ok scr t' ∧ ∀ a, a < base scr ∨ base scr + height scr * pitch scr ≤ a → m' a = m a.
Proof.
  intros Hg. induction b as [b IH] using (induction_ltof1 _ (@length Z)). unfold ltof in IH. intros Hb in_csi m t Hs Hc.
  destruct b as [|x b1]; [by exists m|]. apply Forall_cons in Hb as [Hx Hb].
  destruct in_csi; cbn [put_bytes visible]; [apply IH; cbn; auto; lia|].
  destruct (put_char_refines scr m t x Hg Hs Hc Hx) as (m1 & E1 & Hs1 & Hc1 & Ho1).
  destruct b1 as [|y b2]; [by exists m1|].
  destruct ((x =? 27) && (y =? 91)); [apply Forall_cons in Hb as [_ Hb]; apply IH; cbn; auto; lia|].
  rewrite E1. exec_simpl. cbn [fold_left]. set (t1 := term_put _ _ _ _ t x) in *.
  destruct (IH (y :: b2) ltac:(cbn; lia) Hb false m1 t1 Hs1 Hc1) as (m2 & E2 & Hs2 & Hc2 & Ho2).
  exists m2. split; [exact E2|]. split_and!; auto. intros a Ha. by rewrite Ho2, Ho1.
Qed.

(** C19: The console refines the text terminal: writing a string puts its visible
    bytes on the grid that the framebuffer shows, moves the cursor as the
    terminal does, and touches no memory outside the framebuffer. *)
Theorem console_correct scr m t s : geom_ok scr → shows scr m (t_grid t) → cursor_ok scr t → Forall is_byte s →
  let t' := fold_left (term_put (rows scr) (cols scr) (fg scr) (bg scr)) (visible false s) t in
  ∃ m', write_str FONT (with_cursor scr t) m s = Ret (with_cursor scr t', m') ∧
    shows scr m' (t_grid t') ∧ cursor_ok scr t' ∧ ∀ a, a < base scr ∨ base scr + height scr * pitch scr ≤ a → m' a = m a.
Proof.
  intros Hg Hs Hc Hb. unfold write_str. cbn [base with_cursor set_pos]. pose proof (go_base _ Hg).
  rewrite (proj2 (Z.eqb_neq _ 0)) by lia. by apply put_bytes_refines.
Qed.

(** A framebuffer the boot loader reports: 32 bits per pixel, at least one
    character wide and high, inside the address space. *)
Record fb_ok (fb : Framebuffer) : Prop := {
  fo_bpp : fb_bpp fb = 32;
  fo_address : 0 < fb_address fb;
  fo_end : fb_address fb + fb_height fb * fb_pitch fb < U64;
  fo_pitch : fb_width fb * 4 ≤ fb_pitch fb;
  fo_width : FONT_WIDTH ≤ fb_width fb;
  fo_height : FONT_HEIGHT ≤ fb_height fb
}.

Definition blank : term := {| t_row := 0; t_col := 0; t_grid := λ _ _, None |}.

Lemma clear_spec scr m : geom_ok scr →
  ∃ m', clear scr m = Ret (with_cursor scr blank, m') ∧ shows scr m' (t_grid blank) ∧ cursor_ok scr blank ∧
    ∀ a, a < base scr ∨ base scr + height scr * pitch scr ≤ a → m' a = m a.
Proof.
  intros Hg. pose proof (go_end _ Hg). pose proof (go_base _ Hg). unfold clear. rewrite u64_mul_ok by lia. exec_simpl.
  eexists. split; [done|]. split_and!; [|by split; [pose proof (go_rows1 _ Hg)|pose proof (go_cols1 _ Hg)]; cbn; lia|].
  - intros x y Hxy. rewrite filled_pixel by done. by destruct (_ && _).
  - intros a Ha. unfold mem_fill. destruct (Z.leb_spec (base scr) a), (Z.ltb_spec a (base scr + height scr * pitch scr)); try done. lia.
Qed.

(** After [init] the framebuffer shows an empty console. *)
Lemma init_spec fb fbs scr0 m : fb_ok fb → 0 ≤ fg scr0 < U32_MAX1 → 0 ≤ bg scr0 < U32_MAX1 →
  ∃ scr m', init (Some (fb :: fbs)) scr0 m = Ret (with_cursor scr blank, m') ∧
    geom_ok scr ∧ shows scr m' (t_grid blank) ∧ cursor_ok scr blank ∧
    fg scr = fg scr0 ∧ bg scr = bg scr0 ∧ cols scr = fb_width fb / FONT_WIDTH ∧ rows scr = fb_height fb / FONT_HEIGHT ∧
    (base scr, height scr, pitch scr) = (fb_address fb, fb_height fb, fb_pitch fb) ∧
    ∀ a, a < fb_address fb ∨ fb_address fb + fb_height fb * fb_pitch fb ≤ a → m' a = m a.
Proof.
  intros [Hbpp ? ? ? ? ?] Hf Hb. cbn [init]. rewrite Hbpp. set (scr := {| base := _ |}). exists scr.
  assert (Hg : geom_ok scr).
  { split; cbn; auto; try done; [apply Z.div_le_lower_bound; lia|apply Z.div_le_lower_bound; lia]. }
  destruct (clear_spec scr m Hg) as (m' & E & Hs & Hc & Ho). exists m'. by split_and!.
Qed.
End Text.

(** ** Bitmaps *)
Lemma u64_div_ok a b : b ≠ 0 → u64_div a b = Ret (a / b).
Proof. intros Hb. unfold u64_div. by rewrite (proj2 (Z.eqb_neq b 0)). Qed.

Record bitmap_ok (bmp : Bitmap) : Prop := {
  bo_width : 0 < bmp_width bmp < U32_MAX1;
  bo_height : 0 < bmp_height bmp < U32_MAX1;
  bo_pixels : Z.of_nat (length (pixels bmp)) = bmp_width bmp * bmp_height bmp;
  bo_colours : Forall (λ c, 0 ≤ c < U32_MAX1) (pixels bmp)
}.

Definition bmp_pixel (bmp : Bitmap) (x y : Z) : Z := nth (Z.to_nat (y * bmp_width bmp + x)) (pixels bmp) 0.

(** The rectangle of [w] by [h] pixels at ([ox], [oy]) drawn with the bitmap,
    scaled to [dw] by [dh]. *)
Definition bmp_box (bmp : Bitmap) (ox oy dw dh w h x y : Z) : option Z :=
  if (ox <=? x) && (x <? ox + w) && (oy <=? y) && (y <? oy + h)
  then Some (bmp_pixel bmp ((x - ox) * bmp_width bmp / dw) ((y - oy) * bmp_height bmp / dh)) else None.

Lemma scale_bound d n k : 0 ≤ k < d → 0 < n → 0 ≤ k * n / d < n.
Proof.
  intros Hk Hn. split; [apply Z.div_pos; nia|]. apply Z.div_lt_upper_bound; [lia|]. apply Z.mul_lt_mono_pos_r; lia.
Qed.

Lemma bmp_lookup bmp x y : bitmap_ok bmp → 0 ≤ x < bmp_width bmp → 0 ≤ y < bmp_height bmp →
  0 ≤ y * bmp_width bmp + x < bmp_width bmp * bmp_height bmp ∧
  pixels bmp !! Z.to_nat (y * bmp_width bmp + x) = Some (bmp_pixel bmp x y) ∧ 0 ≤ bmp_pixel bmp x y < U32_MAX1.
Proof.
  intros [Hw Hh Hl Hc] Hx Hy. assert (Hi : 0 ≤ y * bmp_width bmp + x < bmp_width bmp * bmp_height bmp) by nia.
  destruct (lookup_lt_is_Some_2 (pixels bmp) (Z.to_nat (y * bmp_width bmp + x))) as [c Ec]; [lia|].
  unfold bmp_pixel. rewrite (nth_lookup_Some _ _ _ c Ec). split_and!; try lia; [done|..];
  rewrite Forall_forall in Hc; apply Hc; by eapply list_elem_of_lookup_2.
Qed.

Lemma fit_size_spec sw sh iw ih : 0 < sw < U32_MAX1 → 0 < sh < U32_MAX1 → 0 < iw < U32_MAX1 → 0 < ih < U32_MAX1 →
  ∃ dw dh, fit_size sw sh iw ih = Ret (dw, dh) ∧ 0 ≤ dw ≤ sw ∧ 0 ≤ dh ≤ sh ∧ (dw = sw ∨ dh = sh).
Proof.
  intros Hsw Hsh Hiw Hih. assert (Hm : ∀ a b, 0 < a < U32_MAX1 → 0 < b < U32_MAX1 → a * b < U64).
  { intros a b Ha Hb. apply Z.lt_le_trans with (U32_MAX1 * U32_MAX1); [apply Z.mul_lt_mono_nonneg; lia|done]. }
  unfold fit_size. rewrite !u64_mul_ok by auto. exec_simpl.
  destruct (Z.leb_spec (sw * ih) (sh * iw)); exec_simpl.
  - rewrite u64_div_ok by lia. exec_simpl. eexists _, _. split; [done|]. split_and!; [lia|lia|apply Z.div_pos; lia| |by left].
    apply Z.div_le_upper_bound; lia.
  - rewrite u64_div_ok by lia. exec_simpl. eexists _, _. split; [done|]. split_and!; [apply Z.div_pos; lia| |lia|lia|by right].
    apply Z.div_le_upper_bound; lia.
Qed.

(** One line of the scaled bitmap. *)
Lemma bitmap_line scr m bmp ox oy dw dh dy : geom_ok scr → bitmap_ok bmp → 0 ≤ ox → 0 ≤ oy →
  0 ≤ dw → ox + dw ≤ width scr → 0 ≤ dy < dh → oy + dh ≤ height scr → width scr < U32_MAX1 → height scr < U32_MAX1 →
  ∃ m', for_each (seqZ 0 dw) (λ dx m,
      b ← u64_mul dx (bmp_width bmp); sx ← u64_div b dw;
      c ← u64_mul (dy * bmp_height bmp / dh) (bmp_width bmp); i ← u64_add c sx;
      color ← expect (pixels bmp !! Z.to_nat i);
      x ← u64_add ox dx; y ← u64_add oy dy;
      put_pixel scr m x y color) m = Ret m' ∧
    draws scr m m' (λ x y, if (ox <=? x) && (x <? ox + dw) && (y =? oy + dy)
       then Some (bmp_pixel bmp ((x - ox) * bmp_width bmp / dw) (dy * bmp_height bmp / dh)) else None).
Proof.
  intros Hg Hbmp Hox Hoy Hdw Hw Hdy Hh Hw32 Hh32. destruct (Hbmp) as [Hbw Hbh _ _].
  apply (for_range_ind (λ c m', draws scr m m' (λ x y, if (ox <=? x) && (x <? ox + c) && (y =? oy + dy)
       then Some (bmp_pixel bmp ((x - ox) * bmp_width bmp / dw) (dy * bmp_height bmp / dh)) else None))); [lia| |].
  - intros dx m1 Hdx Hd. pose proof (scale_bound dw (bmp_width bmp) dx Hdx ltac:(lia)).
    pose proof (scale_bound dh (bmp_height bmp) dy Hdy ltac:(lia)).
    destruct (bmp_lookup bmp (dx * bmp_width bmp / dw) (dy * bmp_height bmp / dh) Hbmp) as (Hi & El & Hcol); [done|done|].
    assert (Hmul : dx * bmp_width bmp < U64 ∧ bmp_width bmp * bmp_height bmp < U64).
    { split; (apply Z.lt_le_trans with (U32_MAX1 * U32_MAX1); [apply Z.mul_lt_mono_nonneg; lia|done]). }
    assert (0 ≤ dy * bmp_height bmp / dh * bmp_width bmp) by (apply Z.mul_nonneg_nonneg; lia).
    rewrite !u64_mul_ok by lia. exec_simpl. rewrite u64_div_ok by lia. exec_simpl.
    rewrite (u64_add_ok (_ * _)) by lia. exec_simpl. rewrite El. cbn [expect]. exec_simpl.
    rewrite !u64_add_ok by lia. exec_simpl.
    destruct (put_pixel_spec scr m1 (ox + dx) (oy + dy) _ Hg ltac:(split; lia) Hcol) as (m2 & E & Hd2).
    exists m2. split; [exact E|]. eapply draws_then; [exact Hd|exact Hd2|]. intros x y _. unfold at_pixel.
    destruct (Z.eqb_spec x (ox + dx)) as [->|Hx], (Z.eqb_spec y (oy + dy)) as [->|Hy]; cbn [andb]; rewrite ?andb_false_r; try done.
    + rewrite (proj2 (Z.leb_le _ _)), (proj2 (Z.ltb_lt _ _)) by lia. cbn [andb]. by replace (ox + dx - ox) with dx by lia.
    + destruct (Z.leb_spec ox x), (Z.ltb_spec x (ox + (dx + 1))), (Z.ltb_spec x (ox + dx)); cbn; try done; lia.
  - eapply draws_ext; [apply draws_none|]. intros x y _.
    destruct (Z.leb_spec ox x), (Z.ltb_spec x (ox + 0)); cbn; try done; lia.
Qed.

Lemma bitmap_lines scr m bmp ox oy dw dh : geom_ok scr → bitmap_ok bmp → 0 ≤ ox → 0 ≤ oy →
  0 ≤ dw → ox + dw ≤ width scr → 0 ≤ dh → oy + dh ≤ height scr → width scr < U32_MAX1 → height scr < U32_MAX1 →
  ∃ m', for_each (seqZ 0 dh) (λ dy m,
      a ← u64_mul dy (bmp_height bmp); sy ← u64_div a dh;
      for_each (seqZ 0 dw) (λ dx m,
        b ← u64_mul dx (bmp_width bmp); sx ← u64_div b dw;
        c ← u64_mul sy (bmp_width bmp); i ← u64_add c sx;
        color ← expect (pixels bmp !! Z.to_nat i);
        x ← u64_add ox dx; y ← u64_add oy dy;
        put_pixel scr m x y color) m) m = Ret m' ∧ draws scr m m' (bmp_box bmp ox oy dw dh dw dh).
Proof.
  intros Hg Hbmp Hox Hoy Hdw Hw Hdh Hh Hw32 Hh32. destruct (Hbmp) as [Hbw Hbh _ _].
  apply (for_range_ind (λ k m', draws scr m m' (bmp_box bmp ox oy dw dh dw k))); [lia| |].
  - intros dy m1 Hdy Hd. assert (dy * bmp_height bmp < U64).
    { apply Z.lt_le_trans with (U32_MAX1 * U32_MAX1); [apply Z.mul_lt_mono_nonneg; lia|done]. }
    rewrite (u64_mul_ok dy) by lia. exec_simpl. rewrite (u64_div_ok _ dh) by lia. exec_simpl.
    destruct (bitmap_line scr m1 bmp ox oy dw dh dy) as (m2 & E & Hd2); auto. exists m2. split; [exact E|].
    eapply draws_then; [exact Hd|exact Hd2|]. intros x y _. unfold bmp_box.
    destruct (Z.leb_spec ox x), (Z.ltb_spec x (ox + dw)); cbn [andb]; try done.
    destruct (Z.eqb_spec y (oy + dy)) as [->|Hy].
    + rewrite (proj2 (Z.leb_le _ _)), (proj2 (Z.ltb_lt _ _)) by lia. cbn [andb]. by replace (oy + dy - oy) with dy by lia.
    + destruct (Z.leb_spec oy y), (Z.ltb_spec y (oy + (dy + 1))), (Z.ltb_spec y (oy + dy)); cbn; try done; lia.
  - eapply draws_ext; [apply draws_none|]. intros x y _. unfold bmp_box.
    destruct (Z.leb_spec ox x), (Z.ltb_spec x (ox + dw)), (Z.leb_spec oy y), (Z.ltb_spec y (oy + 0)); cbn; try done; lia.
Qed.

(** [draw_bitmap] clears the screen and shows the bitmap on it, scaled to the
    largest size of the same shape that fits, centred; nothing outside the
    framebuffer is written. *)
Theorem draw_bitmap_correct scr m bmp : geom_ok scr → bitmap_ok bmp → width scr < U32_MAX1 → height scr < U32_MAX1 →
  ∃ m' dw dh, draw_bitmap scr m bmp = Ret (set_pos scr 0 0, m') ∧ fit_size (width scr) (height scr) (bmp_width bmp) (bmp_height bmp) = Ret (dw, dh) ∧
    0 ≤ dw ≤ width scr ∧ 0 ≤ dh ≤ height scr ∧ (dw = width scr ∨ dh = height scr) ∧
    (∀ x y, on_screen scr x y → pixel scr m' x y =
       default 0 (bmp_box bmp ((width scr - dw) / 2) ((height scr - dh) / 2) dw dh dw dh x y)) ∧
    (∀ a, a < base scr ∨ base scr + height scr * pitch scr ≤ a → m' a = m a).
Proof.
  intros Hg Hbmp Hw Hh. destruct (geom_bounds scr Hg) as (_ & _ & ? & ? & ?). pose proof (go_cols1 _ Hg). pose proof (go_rows1 _ Hg).
  pose proof (go_base _ Hg). pose proof (go_end _ Hg). destruct (Hbmp) as [Hbw Hbh _ _].
  destruct (fit_size_spec (width scr) (height scr) (bmp_width bmp) (bmp_height bmp)) as (dw & dh & Ef & Hdw & Hdh & Hfit); [lia..|].
  set (ox := (width scr - dw) / 2). set (oy := (height scr - dh) / 2).
  assert (Hox : 0 ≤ ox ∧ ox + dw ≤ width scr) by (unfold ox; dlia). assert (Hoy : 0 ≤ oy ∧ oy + dh ≤ height scr) by (unfold oy; dlia).
  set (m0 := mem_fill m (base scr) (height scr * pitch scr) 0).
  unfold draw_bitmap. rewrite (proj2 (Z.eqb_neq _ 0)) by lia. rewrite u64_mul_ok by lia. exec_simpl. rewrite Ef. exec_simpl.
  rewrite !u64_sub_ok by lia. exec_simpl. fold ox oy m0.
  destruct (bitmap_lines (set_pos scr 0 0) m0 bmp ox oy dw dh) as (m' & E & Hd%draws_set_pos); auto using geom_set_pos; try tauto; try (cbn; lia).
  rewrite E. exec_simpl. exists m', dw, dh. split_and!; auto; try lia.
  - intros x y Hxy. rewrite (dr_pixel _ _ _ _ Hd x y Hxy). destruct (bmp_box _ _ _ _ _ _ _ x y); [done|].
    by apply filled_pixel.
  - intros a Ha. rewrite (dr_off _ _ _ _ Hd a Ha). unfold m0, mem_fill.
    destruct Ha; [rewrite (proj2 (Z.leb_gt _ a)) by lia|rewrite (proj2 (Z.ltb_ge a _)), andb_false_r by lia]; done.
Qed.

(** ** Witnesses *)
Definition demo_screen : Screen :=
  {| base := 0xFD000000; width := 640; height := 480; pitch := 2560; bpp := 4; col := 0; row := 0; cols := 80; rows := 30;
     fg := WHITE; bg := BLACK |}.

Lemma demo_geom : geom_ok demo_screen.
Proof. split; cbn; try lia; try done. Qed.

Lemma console_correct_witness :
  ∃ m', write_str (replicate 4096 0xAA) (with_cursor demo_screen blank) (λ _, 0) [72; 105; 10] =
    Ret (set_pos demo_screen 1 0, m') ∧ pixel demo_screen m' 8 0 = WHITE.
Proof.
  destruct (console_correct (replicate 4096 0xAA) (length_replicate _ _) demo_screen (λ _, 0) blank [72; 105; 10] demo_geom)
    as (m' & E & Hs & _).
  - intros x y _. by destruct (_ && _).
  - split; cbn; lia.
  - repeat (constructor; [split; lia|]). constructor.
  - exists m'. split; [exact E|]. rewrite (Hs 8 0) by (split; cbn; lia). vm_compute. reflexivity.
Defined.

Definition demo_bitmap : Bitmap := {| bmp_width := 2; bmp_height := 1; pixels := [RED; YELLOW] |}.

Lemma draw_bitmap_correct_witness :
  ∃ m', draw_bitmap demo_screen (λ _, 0) demo_bitmap = Ret (set_pos demo_screen 0 0, m') ∧
    pixel demo_screen m' 639 100 = YELLOW ∧ pixel demo_screen m' 0 0 = BLACK.
Proof.
  destruct (draw_bitmap_correct demo_screen (λ _, 0) demo_bitmap demo_geom) as (m' & dw & dh & E & Ef & _ & _ & _ & Hp & _).
  - split; cbn; try lia. repeat (constructor; [unfold RED, YELLOW; lia|]). constructor.
  - cbn. lia.
  - cbn. lia.
  - exists m'. split; [exact E|]. vm_compute in Ef. injection Ef as <- <-.
    rewrite !Hp by (split; cbn; lia). by split.
Defined.
