(* ===== verification/Bmp.v ===== *)
(** The decoder of 24-bit bitmaps ([src/src/drivers/bmp.rs]). *)
From S2P Require Import Prelude Machine Vga.

(** [i32::from_le_bytes] *)
Definition le_i32 (b : list Z) (k : nat) : Z := let v := le32 b k in if v <? 2 ^ 31 then v else v - 2 ^ 32.

(** [-h] on an [i32], which overflows at the least value. *)
Definition i32_neg (h : Z) : exec Z := if h =? - 2 ^ 31 then Panic else Ret (- h).

(** [data[i]] *)
Definition index (data : list Z) (i : Z) : exec Z := expect (data !! Z.to_nat i).

Definition read_pixel (data : list Z) (row_start x : Z) : exec Z :=
  b ← index data (row_start + x * 3);
  g ← index data (row_start + x * 3 + 1);
  r ← index data (row_start + x * 3 + 2);
  Ret (Z.lor (Z.lor (Z.shiftl r 16) (Z.shiftl g 8)) b).

Definition decode (data : list Z) : exec (option Bitmap) :=
  if Z.of_nat (length data) <? 54 then Ret None else
  if negb (byte_at data 0 =? 66) || negb (byte_at data 1 =? 77) then Ret None else
  let pixel_offset := le32 data 10 in
  let width := le32 data 18 in
  let height_raw := le_i32 data 22 in
  let bpp := le16 data 28 in
  let compression := le32 data 30 in
  if negb (bpp =? 24) || negb (compression =? 0) || (width =? 0) then Ret None else
  '(height, bottom_up) ← (if height_raw <? 0 then h ← i32_neg height_raw; Ret (h, false) else Ret (height_raw, true));
  if height =? 0 then Ret None else
  w3 ← u64_mul width 3;
  w33 ← u64_add w3 3;
  let row_bytes := Z.land w33 (u64_not 3) in
  size ← u64_mul row_bytes height;
  need ← u64_add pixel_offset size;
  if Z.of_nat (length data) <? need then Ret None else
  pixels ← for_each (seqZ 0 height) (λ y acc,
    src_y ← (if bottom_up : bool then a ← u64_sub height 1; u64_sub a y else Ret y);
    off ← u64_mul src_y row_bytes;
    row_start ← u64_add pixel_offset off;
    for_each (seqZ 0 width) (λ x acc, c ← read_pixel data row_start x; Ret (acc ++ [c])) acc) [];
  Ret (Some {| bmp_width := width; bmp_height := height; pixels := pixels |}).

(** ** What the decoder computes *)

(** The bytes of a line, padded to a multiple of four. *)
Definition line_bytes (w : Z) : Z := (w * 3 + 3) / 4 * 4.

(** The colour of the pixel at column [x] of the stored line [l]. *)
Definition stored_pixel (data : list Z) (off w l x : Z) : Z :=
  let p := Z.to_nat (off + l * line_bytes w + x * 3) in
  65536 * byte_at data (p + 2) + 256 * byte_at data (p + 1) + byte_at data p.

Lemma line_bytes_eq w : 0 ≤ w < U32 → Z.land (w * 3 + 3) (u64_not 3) = line_bytes w.
Proof.
  intros Hw. change (u64_not 3) with (u64_not (2 ^ 2 - 1)). rewrite land_not_ones by (unfold is_u64; lia). change (2 ^ 2) with 4.
  unfold line_bytes. dlia.
Qed.

Lemma pack_rgb r g b : is_byte r → is_byte g → is_byte b →
  Z.lor (Z.lor (Z.shiftl r 16) (Z.shiftl g 8)) b = 65536 * r + 256 * g + b.
Proof.
  unfold is_byte. intros Hr Hg Hb. rewrite <- Z.lor_assoc, (lor_shiftl g), lor_shiftl by lia.
  change (2 ^ 8) with 256. change (2 ^ 16) with 65536. lia.
Qed.

Lemma index_ok data i : Forall is_byte data → 0 ≤ i < Z.of_nat (length data) →
  index data i = Ret (byte_at data (Z.to_nat i)).
Proof.
  intros Hb Hi. unfold index. destruct (lookup_lt_is_Some_2 data (Z.to_nat i)) as [b Eb]; [lia|]. rewrite Eb.
  unfold byte_at. by rewrite (nth_lookup_Some _ _ _ _ Eb).
Qed.

Lemma read_pixel_ok data off w l x : Forall is_byte data → 0 ≤ off → 0 ≤ l → 0 ≤ x < w →
  off + (l + 1) * line_bytes w ≤ Z.of_nat (length data) →
  read_pixel data (off + l * line_bytes w) x = Ret (stored_pixel data off w l x) ∧ 0 ≤ stored_pixel data off w l x < U32.
Proof.
  intros Hb Hoff Hl Hx Hlen. assert (w * 3 ≤ line_bytes w) by (unfold line_bytes; dlia).
  assert (0 ≤ l * line_bytes w) by (apply Z.mul_nonneg_nonneg; lia). rewrite Z.mul_add_distr_r in Hlen.
  unfold read_pixel, stored_pixel. rewrite !index_ok by (done || lia). exec_simpl.
  set (p := Z.to_nat (off + l * line_bytes w + x * 3)).
  replace (Z.to_nat (off + l * line_bytes w + x * 3 + 1)) with (p + 1)%nat by lia.
  replace (Z.to_nat (off + l * line_bytes w + x * 3 + 2)) with (p + 2)%nat by lia.
  pose proof (byte_at_bound data p Hb). pose proof (byte_at_bound data (p + 1) Hb). pose proof (byte_at_bound data (p + 2) Hb).
  rewrite pack_rgb by done. unfold is_byte in *. split; [done|lia].
Qed.

Lemma line_loop data off w l acc : Forall is_byte data → 0 ≤ off → 0 ≤ l → 0 ≤ w →
  off + (l + 1) * line_bytes w ≤ Z.of_nat (length data) →
  for_each (seqZ 0 w) (λ x acc, c ← read_pixel data (off + l * line_bytes w) x; Ret (acc ++ [c])) acc =
    Ret (acc ++ (stored_pixel data off w l <$> seqZ 0 w)).
Proof.
  intros Hb Hoff Hl Hw Hlen.
  destruct (for_range_ind (λ k r, r = acc ++ (stored_pixel data off w l <$> seqZ 0 k))
    (λ x acc, c ← read_pixel data (off + l * line_bytes w) x; Ret (acc ++ [c])) w Hw) with (s := acc) as (r & E & ->).
  - intros x r Hx ->. destruct (read_pixel_ok data off w l x Hb Hoff Hl Hx Hlen) as [-> _]. exec_simpl. eexists. split; [done|].
    rewrite seqZ_app, fmap_app, app_assoc by lia. by rewrite Z.add_0_l.
  - by rewrite app_nil_r.
  - done.
Qed.

(** The lines in the order they are pushed. *)
Definition lines (data : list Z) (off w h : Z) (bottom_up : bool) (k : Z) : list (list Z) :=
  (λ y, stored_pixel data off w (if bottom_up then h - 1 - y else y) <$> seqZ 0 w) <$> seqZ 0 k.

Lemma lines_loop data off w h bottom_up : Forall is_byte data → 0 ≤ off → 0 ≤ w < U32 → 0 ≤ h →
  off + line_bytes w * h ≤ Z.of_nat (length data) < U64 →
  for_each (seqZ 0 h) (λ y acc,
    src_y ← (if bottom_up : bool then a ← u64_sub h 1; u64_sub a y else Ret y);
    o ← u64_mul src_y (line_bytes w);
    row_start ← u64_add off o;
    for_each (seqZ 0 w) (λ x acc, c ← read_pixel data row_start x; Ret (acc ++ [c])) acc) [] =
    Ret (concat (lines data off w h bottom_up h)).
Proof.
  intros Hb Hoff Hw Hh Hlen. assert (Hl : 0 ≤ line_bytes w) by (unfold line_bytes; dlia).
  edestruct (for_range_ind (λ k r, r = concat (lines data off w h bottom_up k))) as (r & E & Hr); [exact Hh| | |rewrite E, Hr; done].
  - intros y r Hy ->. set (s := if bottom_up then h - 1 - y else y). assert (Hs : 0 ≤ s < h) by (unfold s; destruct bottom_up; lia).
    assert ((s + 1) * line_bytes w ≤ h * line_bytes w) by (apply Z.mul_le_mono_nonneg_r; lia).
    assert (0 ≤ s * line_bytes w) by (apply Z.mul_nonneg_nonneg; lia). assert (E := Z.mul_add_distr_r s 1 (line_bytes w)).
    assert ((if bottom_up then a ← u64_sub h 1; u64_sub a y else Ret y) = Ret s) as ->.
    { unfold s. destruct bottom_up; [|done]. rewrite !u64_sub_ok by lia. exec_simpl. by rewrite u64_sub_ok by lia. }
    exec_simpl. rewrite u64_mul_ok by lia. exec_simpl. rewrite u64_add_ok by lia. exec_simpl.
    rewrite line_loop by (done || lia). eexists. split; [done|]. unfold lines.
    rewrite seqZ_app, fmap_app, concat_app by lia. rewrite (seqZ_cons (0 + y)), (seqZ_nil (Z.succ _)), Z.add_0_l by lia.
    cbn [fmap list_fmap concat]. by rewrite app_nil_r.
  - done.
Qed.

Lemma concat_grid {A} (ls : list (list A)) (n y x : nat) : Forall (λ l, length l = n) ls → (x < n)%nat →
  concat ls !! (y * n + x)%nat = l ← ls !! y; l !! x.
Proof.
  intros Hl Hx. revert y. induction Hl as [|l ls Hln Hl IH]; intros y; [by rewrite lookup_nil|]. cbn [concat].
  destruct y as [|y]; cbn [lookup list_lookup].
  - rewrite lookup_app_l by lia. done.
  - rewrite lookup_app_r by lia. rewrite <- IH. f_equal. lia.
Qed.

Lemma lines_pixel data off w h bu k x y : 0 ≤ x < w → 0 ≤ y < k →
  nth (Z.to_nat (y * w + x)) (concat (lines data off w h bu k)) 0 = stored_pixel data off w (if bu then h - 1 - y else y) x.
Proof.
  intros Hx Hy. apply nth_lookup_Some. replace (Z.to_nat (y * w + x)) with (Z.to_nat y * Z.to_nat w + Z.to_nat x)%nat by nia.
  rewrite concat_grid; [|apply Forall_fmap, Forall_forall; intros i _; cbn; by rewrite length_fmap, length_seqZ|lia].
  unfold lines. rewrite list_lookup_fmap, lookup_seqZ_lt by lia. cbn. rewrite list_lookup_fmap, lookup_seqZ_lt by lia. cbn.
  rewrite !Z2Nat.id by lia. done.
Qed.

(** A file the decoder accepts. *)
Definition raw_height (data : list Z) : Z := le_i32 data 22.
Definition file_end (data : list Z) : Z := le32 data 10 + line_bytes (le32 data 18) * Z.abs (raw_height data).

Record header_ok (data : list Z) : Prop := {
  ho_length : 54 ≤ Z.of_nat (length data);
  ho_magic : byte_at data 0 = 66 ∧ byte_at data 1 = 77;
  ho_format : le16 data 28 = 24 ∧ le32 data 30 = 0;
  ho_width : le32 data 18 ≠ 0;
  ho_height : raw_height data ≠ 0
}.

Lemma le_i32_bound data k : Forall is_byte data → - 2 ^ 31 ≤ le_i32 data k < 2 ^ 31.
Proof.
  intros Hb. destruct (le_bound data k Hb) as (_ & H & _). unfold le_i32. destruct (Z.ltb_spec (le32 data k) (2 ^ 31)); lia.
Qed.

Lemma height_ok data : Forall is_byte data → raw_height data ≠ - 2 ^ 31 →
  (if raw_height data <? 0 then h ← i32_neg (raw_height data); Ret (h, false) else Ret (raw_height data, true)) =
    Ret (Z.abs (raw_height data), negb (raw_height data <? 0)).
Proof.
  intros Hb Hm. destruct (Z.ltb_spec (raw_height data) 0); cbn [negb].
  - unfold i32_neg. rewrite (proj2 (Z.eqb_neq _ _)) by done. exec_simpl. by rewrite Z.abs_neq by lia.
  - by rewrite Z.abs_eq by lia.
Qed.

(** The checks on the header, in the order of the code. *)
Lemma decode_header data : Forall is_byte data → header_ok data →
  decode data =
    '(height, bottom_up) ← (if raw_height data <? 0 then h ← i32_neg (raw_height data); Ret (h, false) else Ret (raw_height data, true));
    if height =? 0 then Ret None else
    size ← u64_mul (line_bytes (le32 data 18)) height;
    need ← u64_add (le32 data 10) size;
    if Z.of_nat (length data) <? need then Ret None else
    pixels ← for_each (seqZ 0 height) (λ y acc,
      src_y ← (if bottom_up : bool then a ← u64_sub height 1; u64_sub a y else Ret y);
      off ← u64_mul src_y (line_bytes (le32 data 18));
      row_start ← u64_add (le32 data 10) off;
      for_each (seqZ 0 (le32 data 18)) (λ x acc, c ← read_pixel data row_start x; Ret (acc ++ [c])) acc) [];
    Ret (Some {| bmp_width := le32 data 18; bmp_height := height; pixels := pixels |}).
Proof.
  intros Hb [Hl [Hm1 Hm2] [Hf1 Hf2] Hw _]. destruct (le_bound data 18 Hb) as (_ & Hw32 & _). unfold decode, raw_height.
  rewrite (proj2 (Z.ltb_ge _ _)) by lia. rewrite Hm1, Hm2, Hf1, Hf2. rewrite (proj2 (Z.eqb_neq (le32 data 18) 0)) by done.
  cbn [negb orb Z.eqb Pos.eqb].
  destruct (if le_i32 data 22 <? 0 then h ← i32_neg (le_i32 data 22); Ret (h, false) else Ret (le_i32 data 22, true)) as [[h bu]| |];
    [|done..]. exec_simpl. destruct (h =? 0); [done|]. rewrite u64_mul_ok by lia. exec_simpl. rewrite u64_add_ok by lia. exec_simpl.
  by rewrite line_bytes_eq by done.
Qed.

Lemma lines_bitmap data off w h bu : Forall is_byte data → 0 ≤ off → 0 < w < U32 → 0 < h ≤ 2 ^ 31 →
  off + line_bytes w * h ≤ Z.of_nat (length data) →
  bitmap_ok {| bmp_width := w; bmp_height := h; pixels := concat (lines data off w h bu h) |}.
Proof.
  intros Hb Hoff Hw Hh Hlen. assert (0 ≤ line_bytes w) by (unfold line_bytes; dlia). split; cbn [bmp_width bmp_height pixels]; [lia|lia| |].
  - assert (Hg : ∀ k : nat, length (concat (lines data off w h bu k)) = (Z.to_nat w * k)%nat).
    { induction k as [|k IH]; [by rewrite Nat.mul_0_r|]. unfold lines in *. replace (Z.of_nat (S k)) with (k + 1) by lia.
      rewrite seqZ_app, fmap_app, concat_app, length_app, IH by lia. rewrite (seqZ_cons (0 + k)), (seqZ_nil (Z.succ _)) by lia.
      cbn [fmap list_fmap concat]. rewrite app_nil_r, length_fmap, length_seqZ. lia. }
    specialize (Hg (Z.to_nat h)). rewrite Z2Nat.id in Hg by lia. rewrite Hg. lia.
  - apply Forall_concat, Forall_fmap, Forall_forall. intros y Hy%elem_of_seqZ. cbn.
    apply Forall_fmap, Forall_forall. intros x Hx%elem_of_seqZ. cbn.
    set (l := if bu then h - 1 - y else y). assert (Hl : 0 ≤ l < h) by (unfold l; destruct bu; lia).
    assert ((l + 1) * line_bytes w ≤ h * line_bytes w) by (apply Z.mul_le_mono_nonneg_r; lia).
    apply (read_pixel_ok data off w l x); [done|done|lia|lia|lia].
Qed.

(** With a correct header. *)
Lemma decode_ok data : Forall is_byte data → Z.of_nat (length data) < U64 → header_ok data →
  (raw_height data ≠ - 2 ^ 31 → file_end data ≤ Z.of_nat (length data) →
   ∃ bmp, decode data = Ret (Some bmp) ∧ bitmap_ok bmp ∧
     bmp_width bmp = le32 data 18 ∧ bmp_height bmp = Z.abs (raw_height data) ∧
     ∀ x y, 0 ≤ x < bmp_width bmp → 0 ≤ y < bmp_height bmp →
       bmp_pixel bmp x y = stored_pixel data (le32 data 10) (bmp_width bmp)
         (if raw_height data <? 0 then y else bmp_height bmp - 1 - y) x) ∧
  (raw_height data ≠ - 2 ^ 31 → Z.of_nat (length data) < file_end data < U64 → decode data = Ret None) ∧
  (decode data = Panic ↔ raw_height data = - 2 ^ 31 ∨ U64 ≤ file_end data).
Proof.
  intros Hb Hlen Hh. rewrite decode_header by done. destruct (Hh) as [_ _ _ Hw Hhz].
  destruct (le_bound data 10 Hb) as (_ & Ho & _). destruct (le_bound data 18 Hb) as (_ & Hw32 & _).
  pose proof (le_i32_bound data 22 Hb) as Hhb. fold (raw_height data) in Hhb.
  set (w := le32 data 18) in *. set (off := le32 data 10) in *.
  assert (Hlb : 0 ≤ line_bytes w) by (unfold line_bytes; dlia).
  assert (Hsz : 0 ≤ line_bytes w * Z.abs (raw_height data)) by (apply Z.mul_nonneg_nonneg; lia).
  assert (Hfe : file_end data = off + line_bytes w * Z.abs (raw_height data)) by done. rewrite Hfe.
  destruct (Z.eq_dec (raw_height data) (- 2 ^ 31)) as [Hm|Hm].
  { rewrite Hm. split_and!; [done|done|]. by split; [left|]. }
  rewrite height_ok by done. exec_simpl. assert (Hh0 : 0 < Z.abs (raw_height data) ≤ 2 ^ 31) by lia.
  set (h := Z.abs (raw_height data)) in *.
  rewrite (proj2 (Z.eqb_neq h 0)) by lia.
  destruct (Z.lt_ge_cases (off + line_bytes w * h) U64) as [Hfit|Hbig]; cycle 1.
  { split_and!; [lia|lia|]. split; [by right|]. intros _. unfold u64_mul. destruct (Z.ltb_spec (line_bytes w * h) U64); [|done].
    exec_simpl. unfold u64_add. by rewrite (proj2 (Z.ltb_ge (off + line_bytes w * h) U64)) by lia. }
  rewrite u64_mul_ok by lia. exec_simpl. rewrite u64_add_ok by lia. exec_simpl.
  destruct (Z.ltb_spec (Z.of_nat (length data)) (off + line_bytes w * h)) as [Hshort|Hall].
  { split_and!; [lia|done|]. split; [done|lia]. }
  rewrite lines_loop by (done || lia). exec_simpl. split_and!; [|lia|by split; [|lia]].
  intros _ _. eexists. split; [done|]. cbn [bmp_width bmp_height].
  assert (Hpx : ∀ x y, 0 ≤ x < w → 0 ≤ y < h → bmp_pixel {| bmp_width := w; bmp_height := h;
      pixels := concat (lines data off w h (negb (raw_height data <? 0)) h) |} x y =
      stored_pixel data off w (if raw_height data <? 0 then y else h - 1 - y) x).
  { intros x y Hx Hy. unfold bmp_pixel. cbn [pixels bmp_width]. rewrite lines_pixel by done. by destruct (raw_height data <? 0). }
  split_and!; [|done|done|done]. apply lines_bitmap; try done; lia.
Qed.

(** Any other header gives no bitmap. *)
Lemma decode_bad_header data : ¬ header_ok data → decode data = Ret None.
Proof.
  intros Hn. unfold decode. destruct (Z.ltb_spec (Z.of_nat (length data)) 54); [done|].
  destruct (Z.eqb_spec (byte_at data 0) 66), (Z.eqb_spec (byte_at data 1) 77); cbn [negb orb]; try done.
  destruct (Z.eqb_spec (le16 data 28) 24), (Z.eqb_spec (le32 data 30) 0), (Z.eqb_spec (le32 data 18) 0); cbn [negb orb]; try done.
  destruct (Z.eq_dec (raw_height data) 0) as [H0|H0]; [|by destruct Hn; split]. unfold raw_height in H0. by rewrite H0.
Qed.

(** C38: The decoder, on every file: with a correct header and all its lines present
    the result is the stored pixels, bottom line first when the height is
    positive; with a correct header and too few bytes there is no bitmap; with
    any other header there is none either; only a height of -2^31 and sizes
    beyond 64 bits panic. *)
Theorem decode_correct data : Forall is_byte data → Z.of_nat (length data) < U64 →
  (header_ok data →
    (raw_height data ≠ - 2 ^ 31 → file_end data ≤ Z.of_nat (length data) →
     ∃ bmp, decode data = Ret (Some bmp) ∧ bitmap_ok bmp ∧
       bmp_width bmp = le32 data 18 ∧ bmp_height bmp = Z.abs (raw_height data) ∧
       ∀ x y, 0 ≤ x < bmp_width bmp → 0 ≤ y < bmp_height bmp →
         bmp_pixel bmp x y = stored_pixel data (le32 data 10) (bmp_width bmp)
           (if raw_height data <? 0 then y else bmp_height bmp - 1 - y) x) ∧
    (raw_height data ≠ - 2 ^ 31 → Z.of_nat (length data) < file_end data < U64 → decode data = Ret None) ∧
    (decode data = Panic ↔ raw_height data = - 2 ^ 31 ∨ U64 ≤ file_end data)) ∧
  (¬ header_ok data → decode data = Ret None).
Proof. intros Hb Hl. split; [by apply decode_ok|apply decode_bad_header]. Qed.

(** ** Witness: an image of one pixel *)
Definition word (v : Z) : list Z := [v; 0; 0; 0].
Definition demo_bmp : list Z :=
  [66; 77] ++ replicate 8 0 ++ word 54 ++ word 40 ++ word 1 ++ word 1 ++ [1; 0; 24; 0] ++ replicate 24 0 ++ [10; 20; 30; 0].

Lemma decode_correct_witness :
  ∃ bmp, decode demo_bmp = Ret (Some bmp) ∧ bitmap_ok bmp ∧ bmp_pixel bmp 0 0 = 0x1E140A.
Proof.
  destruct (decode_correct demo_bmp) as [Hd _].
  - repeat (constructor; [split; lia|]). constructor.
  - cbn. lia.
  - destruct Hd as [Hd _]; [split; [cbn; lia|done|done|done|done]|]. destruct Hd as (bmp & E & Hok & Hw & Hh & Hp); [done|vm_compute; discriminate|].
    exists bmp. split; [exact E|]. split; [exact Hok|]. rewrite Hp; [|rewrite Hw; vm_compute; split; [discriminate|reflexivity]|rewrite Hh; vm_compute; split; [discriminate|reflexivity]].
    rewrite Hw, Hh. reflexivity.
Defined.

(** The least height panics. *)
Example decode_panics :
  decode ([66; 77] ++ replicate 8 0 ++ word 54 ++ word 40 ++ word 1 ++ [0; 0; 0; 128; 1; 0; 24; 0] ++ replicate 28 0) = Panic.
Proof. reflexivity. Qed.
