(* ===== verification/Spinlock.v ===== *)
(** The locks ([src/src/sync/spinlock.rs]) under every interleaving of the
    processors that use them: each atomic instruction is one spin_step. *)
From S2P Require Import Prelude.

(** ** [SpinLock]

    A thread of control runs on a processor with an interrupt flag. [lock] turns
    interrupts off, then tries [compare_exchange] until it succeeds; the guard
    remembers whether interrupts were on, and its drop releases the lock and
    turns them on again. *)
Module Spin.
(** Where a thread is: outside, in the loop of [lock], or holding the guard; the
    flag is the [rflags] that [cli] returned. *)
Inductive spin_pc := Idle | Trying (rflags : bool) | Holding (rflags : bool) | Releasing (rflags : bool).
#[global] Instance pc_eq_dec : EqDecision spin_pc.
Proof. solve_decision. Defined.

(** The lock's [locked] flag, and each thread's position and interrupt flag. *)
Record spin := { locked : bool; at_ : gmap nat spin_pc; intr : gmap nat bool }.
Implicit Types (s : spin) (t : nat).

Definition spin_move s t (l : bool) (p : spin_pc) (i : bool) : spin :=
  {| locked := l; at_ := <[t := p]> (at_ s); intr := <[t := i]> (intr s) |}.

(** [cli] *)
Definition lock_enter s t : option spin :=
  match at_ s !! t, intr s !! t with
  | Some Idle, Some i => Some (spin_move s t (locked s) (Trying i) false)
  | _, _ => None
  end.

(** One turn of the loop. A weak [compare_exchange] may fail at any time; the
    turn that fails changes nothing. *)
Definition lock_try s t (spurious : bool) : option spin :=
  match at_ s !! t with
  | Some (Trying i) => if negb spurious && negb (locked s) then Some (spin_move s t true (Holding i) false) else Some s
  | _ => None
  end.

(** [try_lock]: [cli], one [compare_exchange], and [sti] again on failure. *)
Definition try_lock s t : option (spin * bool) :=
  match at_ s !! t, intr s !! t with
  | Some Idle, Some i =>
      if negb (locked s) then Some (spin_move s t true (Holding i) false, true)
      else Some (spin_move s t (locked s) Idle i, false)
  | _, _ => None
  end.

(** The drop of the guard: the store, then [sti]. *)
Definition release s t : option spin :=
  match at_ s !! t with Some (Holding i) => Some (spin_move s t false (Releasing i) false) | _ => None end.
Definition restore s t : option spin :=
  match at_ s !! t with Some (Releasing i) => Some (spin_move s t (locked s) Idle i) | _ => None end.

Inductive spin_step : spin → spin → Prop :=
  | SEnter s t s' : lock_enter s t = Some s' → spin_step s s'
  | STry s t b s' : lock_try s t b = Some s' → spin_step s s'
  | STryLock s t s' r : try_lock s t = Some (s', r) → spin_step s s'
  | SRelease s t s' : release s t = Some s' → spin_step s s'
  | SRestore s t s' : restore s t = Some s' → spin_step s s'.

(** [SpinLock::new], with any threads, all outside. *)
Definition spin_fresh s : Prop := locked s = false ∧ (∀ t p, at_ s !! t = Some p → p = Idle) ∧ dom (intr s) = dom (at_ s).

Definition holding s t : Prop := ∃ i, at_ s !! t = Some (Holding i).

(** The flag says whether some thread holds the lock, at most one does, and a
    thread between [cli] and the end of the drop runs with interrupts off. *)
Record spin_inv s : Prop := {
  si_flag : locked s = true ↔ ∃ t, holding s t;
  si_one : ∀ t t', holding s t → holding s t' → t = t';
  si_intr : ∀ t p, at_ s !! t = Some p → p ≠ Idle → intr s !! t = Some false
}.

Lemma lookup_move s t l p i u : at_ (spin_move s t l p i) !! u = if decide (t = u) then Some p else at_ s !! u.
Proof. cbn. destruct (decide (t = u)) as [->|]; [apply lookup_insert_eq|by apply lookup_insert_ne]. Qed.
Lemma intr_move s t l p i u : intr (spin_move s t l p i) !! u = if decide (t = u) then Some i else intr s !! u.
Proof. cbn. destruct (decide (t = u)) as [->|]; [apply lookup_insert_eq|by apply lookup_insert_ne]. Qed.

(** A move of a thread that neither takes nor gives up the lock. *)
Lemma spin_move_inv s t p i : spin_inv s → ¬ holding s t → (∀ j, p ≠ Holding j) → (p ≠ Idle → i = false) →
  spin_inv (spin_move s t (locked s) p i).
Proof.
  intros [Hf Ho Hi] Hn Hp Hpi.
  assert (Hh : ∀ u, holding (spin_move s t (locked s) p i) u ↔ holding s u).
  { intros u. unfold holding. rewrite lookup_move. destruct (decide (t = u)) as [<-|]; [|done].
    split; [by intros [j [= ->]]; destruct (Hp j)|by intros []; destruct Hn; eexists]. }
  split.
  - cbn [locked spin_move]. rewrite Hf. by setoid_rewrite Hh.
  - intros u u'. rewrite !Hh. apply Ho.
  - intros u q. rewrite lookup_move, intr_move. destruct (decide (t = u)) as [<-|]; [|apply Hi].
    intros [= <-] Hne. by rewrite Hpi.
Qed.

Lemma spin_take_inv s t i : spin_inv s → locked s = false → spin_inv (spin_move s t true (Holding i) false).
Proof.
  intros [Hf Ho Hi] Hl. assert (Hnone : ∀ u, ¬ holding s u).
  { intros u Hu. assert (locked s = true) by (apply Hf; eauto). congruence. }
  assert (Hh : ∀ u, holding (spin_move s t true (Holding i) false) u ↔ u = t).
  { intros u. unfold holding. rewrite lookup_move. destruct (decide (t = u)) as [<-|Hne].
    - split; [done|]. intros _. by exists i.
    - split; [intros Hu; by destruct (Hnone u)|congruence]. }
  split.
  - split; [|done]. intros _. exists t. by apply Hh.
  - intros u u' ->%Hh ->%Hh. done.
  - intros u q. rewrite lookup_move, intr_move. destruct (decide (t = u)) as [<-|]; [done|apply Hi].
Qed.

Lemma spin_drop_inv s t i : spin_inv s → holding s t → spin_inv (spin_move s t false (Releasing i) false).
Proof.
  intros [Hf Ho Hi] Ht. assert (Hh : ∀ u, ¬ holding (spin_move s t false (Releasing i) false) u).
  { intros u. unfold holding. rewrite lookup_move. destruct (decide (t = u)) as [<-|Hne]; [by intros []|].
    intros Hu. by destruct Hne; apply Ho. }
  split.
  - split; [done|]. intros [u Hu]. by destruct (Hh u).
  - intros u u' Hu. by destruct (Hh u).
  - intros u q. rewrite lookup_move, intr_move. destruct (decide (t = u)) as [<-|]; [done|apply Hi].
Qed.

Lemma not_holding s t p : at_ s !! t = Some p → (∀ i, p ≠ Holding i) → ¬ holding s t.
Proof. intros Hp Hn [i Hi]. apply (Hn i). congruence. Qed.

Lemma spin_step_inv s s' : spin_inv s → spin_step s s' → spin_inv s'.
Proof.
  intros Hs Hst. destruct Hst as [s t s' E|s t b s' E|s t s' r E|s t s' E|s t s' E].
  - unfold lock_enter in E. destruct (at_ s !! t) as [[]|] eqn:Ep; try done. destruct (intr s !! t); simplify_eq.
    apply spin_move_inv; [done|by eapply not_holding|done|done].
  - unfold lock_try in E. destruct (at_ s !! t) as [[|i|i|i]|] eqn:Ep; try done.
    destruct (negb b && negb (locked s)) eqn:Eb; simplify_eq; [|done]. apply andb_prop in Eb as [_ Eb].
    apply spin_take_inv; [done|by apply negb_true_iff].
  - unfold try_lock in E. destruct (at_ s !! t) as [[]|] eqn:Ep; try done. destruct (intr s !! t); try done.
    destruct (locked s) eqn:El; cbn in E; simplify_eq.
    + rewrite <- El. apply spin_move_inv; [done|by eapply not_holding|done|done].
    + by apply spin_take_inv.
  - unfold release in E. destruct (at_ s !! t) as [[|i|i|i]|] eqn:Ep; try done. simplify_eq. apply spin_drop_inv; [done|by exists i].
  - unfold restore in E. destruct (at_ s !! t) as [[|i|i|i]|] eqn:Ep; try done. simplify_eq.
    apply spin_move_inv; [done|by eapply not_holding|done|done].
Qed.

Lemma spin_fresh_inv s : spin_fresh s → spin_inv s.
Proof.
  intros (Hl & Hp & _). assert (Hh : ∀ t, ¬ holding s t) by (intros t [i Hi]; by apply Hp in Hi).
  split.
  - rewrite Hl. split; [done|]. intros [t Ht]. by destruct (Hh t).
  - intros t t' Ht. by destruct (Hh t).
  - intros t p Ht Hn. by apply Hp in Ht.
Qed.

Lemma spin_reachable_inv s s' : spin_fresh s → rtc spin_step s s' → spin_inv s'.
Proof.
  intros Hf Hr. apply spin_fresh_inv in Hf. revert Hf. induction Hr; eauto using spin_step_inv.
Qed.
(** C12: The lock excludes: in every state the threads can reach, at most one holds
    the guard and [locked] says whether one does; the holder runs with
    interrupts off, so a handler on its processor cannot spin on the lock it
    holds. When nobody holds it, a thread in the loop takes it on its next
    exchange, with interrupts off and its flag remembered; its drop then frees
    the lock and gives the flag back. *)
Theorem spinlock_correct s0 s : spin_fresh s0 → rtc spin_step s0 s →
  (locked s = true ↔ ∃ t, holding s t) ∧
  (∀ t t', holding s t → holding s t' → t = t') ∧
  (∀ t, holding s t → intr s !! t = Some false) ∧
  (∀ t i, at_ s !! t = Some (Trying i) → (∀ u, ¬ holding s u) →
     ∃ s1 s2 s3, lock_try s t false = Some s1 ∧ at_ s1 !! t = Some (Holding i) ∧ intr s1 !! t = Some false ∧
       release s1 t = Some s2 ∧ restore s2 t = Some s3 ∧
       locked s3 = false ∧ at_ s3 !! t = Some Idle ∧ intr s3 !! t = Some i).
Proof.
  intros Hf Hr. destruct (spin_reachable_inv _ _ Hf Hr) as [Hl Ho Hi]. split_and!; [done|done| |].
  - intros t [i Ht]. by apply (Hi t (Holding i)).
  - intros t i Ht Hn. assert (Hlf : locked s = false).
    { apply not_true_iff_false. intros [u Hu]%Hl. by destruct (Hn u). }
    set (s1 := spin_move s t true (Holding i) false). set (s2 := spin_move s1 t false (Releasing i) false).
    exists s1, s2, (spin_move s2 t false Idle i).
    unfold lock_try, release, restore. rewrite Ht, Hlf. cbn [negb andb]. subst s1 s2.
    rewrite !lookup_move, !intr_move, !decide_True by done. done.
Qed.

Definition demo_threads : spin :=
  {| locked := false; at_ := {[1%nat := Idle; 2%nat := Idle]}; intr := {[1%nat := true; 2%nat := true]} |}.

Lemma spinlock_correct_witness :
  spin_fresh demo_threads ∧ ∀ s s', lock_enter demo_threads 1 = Some s → lock_try s 1 false = Some s' →
  ∀ t t', holding s' t → holding s' t' → t = t'.
Proof.
  assert (Hf : spin_fresh demo_threads).
  { split_and!; [done| |done]. intros t p. cbn [at_ demo_threads]. intros [[_ <-]|[_ [_ <-]%lookup_singleton_Some]]%lookup_insert_Some; done. }
  split; [done|]. intros s s' H1 H2. apply (spinlock_correct demo_threads s' Hf).
  eapply rtc_l; [by apply (SEnter _ 1)|]. eapply rtc_once. by apply (STry _ 1 false).
Defined.
End Spin.

(** ** [RwSpinLock]

    The state counts the readers; -1 stands for a writer. A reader loads the
    state and then tries to add one to the value it saw. *)
Module Rw.
Inductive rw_pc := Idle | Loaded (seen : Z) | Reading | Writing.
#[global] Instance rw_pc_eq_dec : EqDecision rw_pc.
Proof. solve_decision. Defined.

Record rw := { state : Z; at_ : gmap nat rw_pc }.
Implicit Types (s : rw) (t : nat).

Definition rw_move s t (v : Z) (p : rw_pc) : rw := {| state := v; at_ := <[t := p]> (at_ s) |}.

(** [read]: the load, and a reader that sees a writer loads again. *)
Definition read_load s t : option rw :=
  match at_ s !! t with Some Idle | Some (Loaded _) => Some (rw_move s t (state s) (Loaded (state s))) | _ => None end.
(** The [compare_exchange] on a value that is not negative; [s + 1] panics at
    [i32::MAX]. *)
Definition read_cas s t (spurious : bool) : exec (option rw) :=
  match at_ s !! t with
  | Some (Loaded v) =>
      if v <? 0 then Ret None else
      if v =? 2 ^ 31 - 1 then Panic else
      Ret (Some (if negb spurious && (state s =? v) then rw_move s t (v + 1) Reading else rw_move s t (state s) Idle))
  | _ => Ret None
  end.
Definition write_cas s t (spurious : bool) : option rw :=
  match at_ s !! t with
  | Some Idle => Some (if negb spurious && (state s =? 0) then rw_move s t (-1) Writing else s)
  | _ => None
  end.
(** The drops of the guards. *)
Definition read_drop s t : option rw :=
  match at_ s !! t with Some Reading => Some (rw_move s t (state s - 1) Idle) | _ => None end.
Definition write_drop s t : option rw :=
  match at_ s !! t with Some Writing => Some (rw_move s t 0 Idle) | _ => None end.

Inductive rw_step : rw → rw → Prop :=
  | RLoad s t s' : read_load s t = Some s' → rw_step s s'
  | RCas s t b s' : read_cas s t b = Ret (Some s') → rw_step s s'
  | WCas s t b s' : write_cas s t b = Some s' → rw_step s s'
  | RDrop s t s' : read_drop s t = Some s' → rw_step s s'
  | WDrop s t s' : write_drop s t = Some s' → rw_step s s'.

Definition rw_fresh s : Prop := state s = 0 ∧ ∀ t p, at_ s !! t = Some p → p = Idle.

Definition in_pc p s : gset nat := dom (filter (λ x : nat * rw_pc, x.2 = p) (at_ s)).
Definition readers s : gset nat := in_pc Reading s.
Definition writers s : gset nat := in_pc Writing s.

(** Either readers only, counted by the state, or one writer alone. *)
Record rw_inv s : Prop := {
  ri_state : (writers s = ∅ ∧ state s = Z.of_nat (size (readers s))) ∨
             (∃ t, writers s = {[t]} ∧ readers s = ∅ ∧ state s = -1);
  ri_seen : ∀ t v, at_ s !! t = Some (Loaded v) → v ≤ Z.of_nat (size (dom (at_ s)))
}.

Lemma elem_of_in_pc p s t : t ∈ in_pc p s ↔ at_ s !! t = Some p.
Proof.
  unfold in_pc. rewrite elem_of_dom. split.
  - intros [q [Hq E]%map_lookup_filter_Some]. cbn in E. by subst.
  - intros Hp. exists p. by apply map_lookup_filter_Some.
Qed.

Lemma in_pc_move s t v p q : in_pc q (rw_move s t v p) =
  if decide (p = q) then {[t]} ∪ in_pc q s else in_pc q s ∖ {[t]}.
Proof.
  apply set_eq. intros u. rewrite elem_of_in_pc. cbn [at_ rw_move].
  destruct (decide (t = u)) as [<-|Hne].
  - rewrite lookup_insert_eq. destruct (decide (p = q)) as [->|Hpq]; [set_solver|].
    split; [congruence|]. intros [_ H]%elem_of_difference. by destruct H; apply elem_of_singleton.
  - rewrite lookup_insert_ne by done. rewrite <- elem_of_in_pc. destruct (decide (p = q)); set_solver.
Qed.

Lemma dom_move s t v p q : at_ s !! t = Some q → dom (at_ (rw_move s t v p)) = dom (at_ s).
Proof. intros Hq. cbn. rewrite dom_insert_L. apply elem_of_dom_2 in Hq. set_solver. Qed.

Lemma in_pc_remove p s t v q : at_ s !! t ≠ Some p → q ≠ p → in_pc p (rw_move s t v q) = in_pc p s.
Proof.
  intros Ht Hq. rewrite in_pc_move, decide_False by done.
  assert (t ∉ in_pc p s) by (by rewrite elem_of_in_pc). set_solver.
Qed.

Lemma readers_le s : size (readers s) ≤ size (dom (at_ s)).
Proof.
  apply inj_le, subseteq_size. intros t. unfold readers. rewrite elem_of_in_pc. apply elem_of_dom_2.
Qed.

Lemma state_le s : rw_inv s → state s ≤ size (dom (at_ s)).
Proof. intros [[[_ ->]|(t & _ & _ & ->)] _]; [apply readers_le|lia]. Qed.

(** A move that leaves the state and the holders as they are. *)
Lemma rw_move_inv s t p q : rw_inv s → at_ s !! t = Some q →
  q ≠ Reading → q ≠ Writing → p ≠ Reading → p ≠ Writing → (∀ v, p = Loaded v → v = state s) →
  rw_inv (rw_move s t (state s) p).
Proof.
  intros Hs Hq ????. pose proof (state_le _ Hs) as Hle. destruct Hs as [Hst Hseen]. intros Hp.
  assert (readers (rw_move s t (state s) p) = readers s) as Hr by (apply in_pc_remove; congruence).
  assert (writers (rw_move s t (state s) p) = writers s) as Hw by (apply in_pc_remove; congruence).
  split; [by rewrite Hr, Hw|]. erewrite dom_move by done. intros u v. cbn [at_ rw_move].
  destruct (decide (t = u)) as [<-|Hne].
  - rewrite lookup_insert_eq. intros [= ->]. by rewrite (Hp v).
  - rewrite lookup_insert_ne by done. apply Hseen.
Qed.

(** A move that takes or drops a guard: it sees no value of the state. *)
Lemma seen_move s t v p q : rw_inv s → at_ s !! t = Some q → (∀ w, p ≠ Loaded w) →
  ∀ u w, at_ (rw_move s t v p) !! u = Some (Loaded w) → w ≤ size (dom (at_ (rw_move s t v p))).
Proof.
  intros [_ Hseen] Hq Hp u w. erewrite dom_move by done. cbn [at_ rw_move]. destruct (decide (t = u)) as [<-|Hne].
  - rewrite lookup_insert_eq. intros [= E]. by destruct (Hp w).
  - rewrite lookup_insert_ne by done. apply Hseen.
Qed.

Lemma read_take s t v : rw_inv s → at_ s !! t = Some (Loaded v) → 0 ≤ v → state s = v → rw_inv (rw_move s t (v + 1) Reading).
Proof.
  intros Hs Ht Hv <-. split; [|by eapply seen_move]. destruct Hs as [[[Hw Hst]|(?&?&?&?)] _]; [|lia].
  left. unfold writers, readers in *. rewrite in_pc_remove by congruence. split; [done|].
  rewrite in_pc_move, decide_True by done. rewrite size_union, size_singleton.
  - cbn [state rw_move]. lia.
  - intros u ->%elem_of_singleton. rewrite elem_of_in_pc. congruence.
Qed.

Lemma write_take s t : rw_inv s → at_ s !! t = Some Idle → state s = 0 → rw_inv (rw_move s t (-1) Writing).
Proof.
  intros Hs Ht Hz. split; [|by eapply seen_move]. destruct Hs as [[[Hw Hst]|(?&?&?&?)] _]; [|lia].
  right. exists t. unfold writers, readers in *. rewrite in_pc_move, decide_True, Hw by done.
  rewrite in_pc_remove by congruence. split_and!; [set_solver| |done]. apply leibniz_equiv, size_empty_inv. lia.
Qed.

Lemma read_give s t : rw_inv s → at_ s !! t = Some Reading → rw_inv (rw_move s t (state s - 1) Idle).
Proof.
  intros Hs Ht. assert (Hin : t ∈ readers s) by by apply elem_of_in_pc. split; [|by eapply seen_move].
  destruct Hs as [[[Hw Hst]|(?&?&?&?)] _]; [|set_solver].
  left. unfold writers, readers in *. rewrite in_pc_remove by congruence. split; [done|].
  rewrite in_pc_move, decide_False by done. rewrite size_difference by set_solver. rewrite size_singleton.
  assert (size (in_pc Reading s) ≠ 0%nat) by (apply size_non_empty_iff; set_solver). cbn [state rw_move]. lia.
Qed.

Lemma write_give s t : rw_inv s → at_ s !! t = Some Writing → rw_inv (rw_move s t 0 Idle).
Proof.
  intros Hs Ht. assert (Hin : t ∈ writers s) by by apply elem_of_in_pc. split; [|by eapply seen_move].
  destruct Hs as [[[Hw Hst]|(u & Hw & Hr & Hst)] _]; [set_solver|].
  left. unfold writers, readers in *. rewrite Hw in Hin. apply elem_of_singleton in Hin as <-.
  rewrite in_pc_move, decide_False, Hw by done. rewrite in_pc_remove, Hr by congruence.
  split; [set_solver|]. by rewrite size_empty.
Qed.

Lemma rw_step_inv s s' : rw_inv s → rw_step s s' → rw_inv s'.
Proof.
  intros Hs Hst. destruct Hst as [s t s' E|s t b s' E|s t b s' E|s t s' E|s t s' E].
  - unfold read_load in E. destruct (at_ s !! t) as [[]|] eqn:Ep; simplify_eq; eapply rw_move_inv; eauto; congruence.
  - unfold read_cas in E. destruct (at_ s !! t) as [[]|] eqn:Ep; try done. repeat case_match; simplify_eq.
    + apply read_take; [done|done|lia|]. apply Z.eqb_eq. by eapply andb_prop.
    + eapply rw_move_inv; eauto; congruence.
  - unfold write_cas in E. destruct (at_ s !! t) as [[]|] eqn:Ep; try done. case_match eqn:Eb; simplify_eq; [|done].
    apply write_take; [done|done|]. apply Z.eqb_eq. by eapply andb_prop.
  - unfold read_drop in E. destruct (at_ s !! t) as [[]|] eqn:Ep; simplify_eq. by apply read_give.
  - unfold write_drop in E. destruct (at_ s !! t) as [[]|] eqn:Ep; simplify_eq. by apply write_give.
Qed.

Lemma rw_fresh_inv s : rw_fresh s → rw_inv s.
Proof.
  intros [Hz Hp]. assert (Hn : ∀ p, p ≠ Idle → in_pc p s = ∅).
  { intros p Hne. apply set_eq. intros t. rewrite elem_of_in_pc. split; [intros Ht; by apply Hp in Ht|set_solver]. }
  split.
  - left. unfold writers, readers. rewrite !Hn by done. by rewrite size_empty.
  - intros t v Ht. by apply Hp in Ht.
Qed.

Lemma rw_reachable s s' : rw_fresh s → rtc rw_step s s' → rw_inv s' ∧ dom (at_ s') = dom (at_ s).
Proof.
  intros Hf Hr. apply rw_fresh_inv in Hf. revert Hf.
  induction Hr as [|x y z Hxy _ IH]; [done|]. intros Hx. destruct (IH (rw_step_inv _ _ Hx Hxy)) as [? ->].
  split; [done|]. destruct Hxy as [s t s' E|s t b s' E|s t b s' E|s t s' E|s t s' E];
  unfold read_load, read_cas, write_cas, read_drop, write_drop in E;
  destruct (at_ s !! t) as [[]|] eqn:Ep; try done; repeat case_match; simplify_eq; by eauto using dom_move.
Qed.

(** The reader-writer lock excludes: in every reachable state there is at most
    one writer and no reader beside it, the state counts the readers, and with
    fewer than 2^31 - 1 threads the count never overflows its [i32]. *)
Theorem rwlock_correct s0 s : rw_fresh s0 → rtc rw_step s0 s → size (dom (at_ s0)) < 2 ^ 31 - 1 →
  (∀ t, at_ s !! t = Some Writing → state s = -1 ∧ ∀ u, at_ s !! u = Some Writing ∨ at_ s !! u = Some Reading → u = t) ∧
  (state s ≠ -1 → state s = size (readers s)) ∧
  (∀ t b, read_cas s t b ≠ Panic).
Proof.
  intros Hf Hr Hn. destruct (rw_reachable _ _ Hf Hr) as [Hs Hd]. destruct (Hs) as [Hst Hseen]. split_and!.
  - intros t Ht. apply elem_of_in_pc in Ht. fold (writers s) in Ht. destruct Hst as [[Hw _]|(v & Hw & Hrd & ->)].
    { rewrite Hw in Ht. by apply elem_of_empty in Ht. }
    rewrite Hw in Ht. apply elem_of_singleton in Ht as ->. split; [done|].
    intros u [Hu|Hu]; apply elem_of_in_pc in Hu.
    + fold (writers s) in Hu. rewrite Hw in Hu. by apply elem_of_singleton in Hu.
    + fold (readers s) in Hu. rewrite Hrd in Hu. by apply elem_of_empty in Hu.
  - intros Hne. by destruct Hst as [[_ ?]|(?&?&?&?)].
  - intros t b. unfold read_cas. destruct (at_ s !! t) as [[|v| |]|] eqn:Et; try done. apply Hseen in Et. rewrite Hd in Et.
    destruct (v <? 0); [done|]. destruct (Z.eqb_spec v (2 ^ 31 - 1)); [lia|done].
Qed.

Definition demo_lock : rw := {| state := 0; at_ := {[1%nat := Idle; 2%nat := Idle]} |}.

Lemma rwlock_correct_witness :
  rw_fresh demo_lock ∧ ∀ s, write_cas demo_lock 1 false = Some s → ∀ t b, read_cas s t b ≠ Panic.
Proof.
  assert (Hf : rw_fresh demo_lock).
  { split; [done|]. intros t p. cbn [at_ demo_lock]. intros [[_ <-]|[_ [_ <-]%lookup_singleton_Some]]%lookup_insert_Some; done. }
  split; [done|]. intros s Hs. apply (rwlock_correct demo_lock s Hf); [|vm_compute; reflexivity].
  eapply rtc_once. by apply (WCas _ 1 false).
Defined.
End Rw.
