(* ===== verification/Pmm.v ===== *)
(** The physical memory manager, [src/src/mm/pmm.rs]: a buddy allocator whose
    free lists are threaded through the free blocks themselves.

    [FreeList], [BuddyAllocator] and the public functions are translated at
    the level of pointers and bytes. A ghost value [Ls : list (list Z)] gives,
    for each order, the physical addresses of the free blocks in list order;
    [pmm_inv] relates the two. *)
From S2P Require Import Prelude Machine.

Abbreviation PAGE_SIZE := 4096 (only parsing).
Abbreviation MAX_ORDER := 12%nat (only parsing).

(** ** Alignment helpers *)
Definition align_up (val align : Z) : exec Z :=
  x ← u64_add val align;
  y ← u64_sub x 1;
  z ← u64_sub align 1;
  Ret (Z.land y (u64_not z)).

Definition align_down (val align : Z) : exec Z :=
  z ← u64_sub align 1;
  Ret (Z.land val (u64_not z)).

Definition is_aligned (val align : Z) : exec bool :=
  z ← u64_sub align 1;
  Ret (Z.land val z =? 0).

(** [(PAGE_SIZE << order) as u64]; every use has [order <= MAX_ORDER]. *)
Definition block_size (order : nat) : Z := Z.shiftl PAGE_SIZE order.

(** ** Intrusive free lists *)
Record FreeList := { head : Z; count : Z }.

Definition FreeList_empty : FreeList := {| head := 0; count := 0 |}.

(** The place a [*mut *mut FreeBlock] cursor points at: the list head or the
    [next] field of a block. *)
Inductive link := LHead | LNext (block : Z).

Definition read_link (m : mem) (hd : Z) (cur : link) : Z :=
  match cur with LHead => hd | LNext b => load64 m b end.

Definition write_link (m : mem) (hd : Z) (cur : link) (p : Z) : mem * Z :=
  match cur with LHead => (m, p) | LNext b => (store64 m b p, hd) end.

Section Pmm.
Context {hh : Hhdm}.

Definition push (m : mem) (l : FreeList) (phys : Z) : exec (mem * FreeList) :=
  virt ← phys_to_virt phys;
  let m' := store64 m virt (head l) in
  c ← u64_add (count l) 1;
  Ret (m', {| head := virt; count := c |}).

Definition pop (m : mem) (l : FreeList) : exec (option Z * FreeList) :=
  if head l =? 0 then Ret (None, l)
  else
    let block := head l in
    let next := load64 m block in
    c ← u64_sub (count l) 1;
    phys ← virt_to_phys block;
    Ret (Some phys, {| head := next; count := c |}).

(** The [while] loop of [remove]; a list of [count] blocks is left after
    [count + 1] tests of its condition. *)
Fixpoint remove_loop (fuel : nat) (m : mem) (hd : Z) (cur : link) (target : Z)
    : exec (option (mem * Z)) :=
  match fuel with
  | O => NoFuel
  | S fuel =>
      let p := read_link m hd cur in
      if p =? 0 then Ret None
      else if p =? target then Ret (Some (write_link m hd cur (load64 m p)))
      else remove_loop fuel m hd (LNext p) target
  end.

Definition remove (m : mem) (l : FreeList) (phys : Z) : exec (bool * mem * FreeList) :=
  target ← phys_to_virt phys;
  r ← remove_loop (S (Z.to_nat (count l))) m (head l) LHead target;
  match r with
  | Some (m', hd') =>
      c ← u64_sub (count l) 1;
      Ret (true, m', {| head := hd'; count := c |})
  | None => Ret (false, m, l)
  end.

(** ** The buddy allocator *)
Record BuddyAllocator := {
  lists : list FreeList;
  base_phys : Z;
  total_frames : Z
}.

Definition BuddyAllocator_new : BuddyAllocator :=
  {| lists := replicate (S MAX_ORDER) FreeList_empty; base_phys := 0; total_frames := 0 |}.

(** Physical memory with the statics of [pmm.rs]. *)
Record mm := {
  ram : mem;
  PMM : BuddyAllocator;
  FREE_PAGES : Z;
  TOTAL_PAGES : Z
}.

Definition set_list (s : mm) (o : nat) (m : mem) (l : FreeList) : mm := {|
  ram := m;
  PMM := {| lists := <[o := l]> (lists (PMM s));
            base_phys := base_phys (PMM s);
            total_frames := total_frames (PMM s) |};
  FREE_PAGES := FREE_PAGES s;
  TOTAL_PAGES := TOTAL_PAGES s
|}.

Definition set_ram (s : mm) (m : mem) : mm := {|
  ram := m; PMM := PMM s; FREE_PAGES := FREE_PAGES s; TOTAL_PAGES := TOTAL_PAGES s |}.

(** [FREE_PAGES.fetch_add(n)]; a negative [n] stands for [fetch_sub]. *)
Definition add_free (s : mm) (n : Z) : mm := {|
  ram := ram s; PMM := PMM s;
  FREE_PAGES := u64_wrap (FREE_PAGES s + n); TOTAL_PAGES := TOTAL_PAGES s |}.

(** [TOTAL_PAGES.fetch_add(n)] *)
Definition add_total (s : mm) (n : Z) : mm := {|
  ram := ram s; PMM := PMM s;
  FREE_PAGES := FREE_PAGES s; TOTAL_PAGES := u64_wrap (TOTAL_PAGES s + n) |}.

(** [self.lists[o].push(phys)] *)
Definition push_at (s : mm) (o : nat) (phys : Z) : exec mm :=
  l ← expect (lists (PMM s) !! o);
  '(m, l') ← push (ram s) l phys;
  Ret (set_list s o m l').

(** [self.lists[o].remove(phys)] *)
Definition remove_at (s : mm) (o : nat) (phys : Z) : exec (bool * mm) :=
  l ← expect (lists (PMM s) !! o);
  '(b, m, l') ← remove (ram s) l phys;
  Ret (b, set_list s o m l').

(** The inner [loop] of [add_region]: the block pushed at [addr] and the next
    address. *)
Fixpoint add_block (order : nat) (s : mm) (addr end_ : Z) : exec (mm * Z) :=
  match order with
  | O =>
      s' ← push_at s 0 addr;
      addr' ← u64_add addr PAGE_SIZE;
      Ret (add_total (add_free s' 1) 1, addr')
  | S o =>
      let bs := block_size order in
      if negb (addr mod bs =? 0) then add_block o s addr end_
      else
        e ← u64_add addr bs;
        if end_ <? e then add_block o s addr end_
        else
          s' ← push_at s order addr;
          Ret (add_total (add_free s' (Z.shiftl 1 order)) (Z.shiftl 1 order), e)
  end.

(** The outer [while]: each turn adds at least one page. *)
Fixpoint add_region_loop (fuel : nat) (s : mm) (addr end_ : Z) : exec mm :=
  if addr <? end_ then
    match fuel with
    | O => NoFuel
    | S fuel =>
        '(s', addr') ← add_block MAX_ORDER s addr end_;
        add_region_loop fuel s' addr' end_
    end
  else Ret s.

Definition add_region (s : mm) (base size : Z) : exec mm :=
  addr ← align_up base PAGE_SIZE;
  e ← u64_add base size;
  end_ ← align_down e PAGE_SIZE;
  add_region_loop (Z.to_nat ((end_ - addr) / PAGE_SIZE)) s addr end_.

(** [for o in order..=MAX_ORDER]: [n] is the number of orders left to try. *)
Fixpoint find_order (n o : nat) (s : mm) : exec (option nat) :=
  match n with
  | O => Ret None
  | S n =>
      l ← expect (lists (PMM s) !! o);
      if negb (head l =? 0) then Ret (Some o) else find_order n (S o) s
  end.

(** [while current_order > order]: splits a block of order [order + d]. *)
Fixpoint split_loop (d order : nat) (s : mm) (phys : Z) : exec mm :=
  match d with
  | O => Ret s
  | S d =>
      buddy ← u64_add phys (block_size (order + d));
      s' ← push_at s (order + d) buddy;
      split_loop d order s' phys
  end.

Definition alloc (s : mm) (order : nat) : exec (option Z * mm) :=
  found ← find_order (S MAX_ORDER - order) order s;
  match found with
  | None => Ret (None, s)
  | Some o =>
      l ← expect (lists (PMM s) !! o);
      '(p, l') ← pop (ram s) l;
      let s' := set_list s o (ram s) l' in
      match p with
      | None => Ret (None, s')
      | Some phys =>
          s'' ← split_loop (o - order) order s' phys;
          Ret (Some phys, add_free s'' (- Z.shiftl 1 order))
      end
  end.

(** The [loop] of [free]: [n] is [MAX_ORDER - current_order]. *)
Fixpoint merge_loop (n : nat) (s : mm) (current_phys : Z) (current_order : nat)
    : exec (mm * Z * nat) :=
  match n with
  | O => Ret (s, current_phys, current_order)
  | S n =>
      let buddy_phys := Z.lxor current_phys (block_size current_order) in
      '(found, s') ← remove_at s current_order buddy_phys;
      if found : bool then
        merge_loop n s' (Z.min current_phys buddy_phys) (S current_order)
      else Ret (s', current_phys, current_order)
  end.

Definition free (s : mm) (phys : Z) (order : nat) : exec mm :=
  '(s1, p, o) ← merge_loop (MAX_ORDER - order) s phys order;
  s2 ← push_at s1 o p;
  Ret (add_free s2 (Z.shiftl 1 order)).

(** ** Public functions *)
Definition alloc_frame (s : mm) : exec (option Z * mm) := alloc s 0.
Definition alloc_frames (s : mm) (order : nat) : exec (option Z * mm) := alloc s order.
Definition free_frame (s : mm) (phys : Z) : exec mm := free s phys 0.
Definition free_frames (s : mm) (phys : Z) (order : nat) : exec mm := free s phys order.

Definition alloc_zeroed_frame (s : mm) : exec (option Z * mm) :=
  '(r, s') ← alloc_frame s;
  match r with
  | None => Ret (None, s')
  | Some phys =>
      virt ← phys_to_virt phys;
      Ret (Some phys, set_ram s' (mem_fill (ram s') virt PAGE_SIZE 0))
  end.

Definition free_pages (s : mm) : Z := FREE_PAGES s.
Definition total_pages (s : mm) : Z := TOTAL_PAGES s.
(** [saturating_sub] *)
Definition used_pages (s : mm) : Z := Z.max 0 (total_pages s - free_pages s).

(** ** Initialisation from the boot memory map *)
Inductive MemoryMapEntryType :=
  | Usable | Reserved | AcpiReclaimable | AcpiNvs | BadMemory
  | BootloaderReclaimable | KernelAndModules | Framebuffer.

Record MemoryMapEntry := { base : Z; length_ : Z; kind : MemoryMapEntryType }.

Definition is_usable (k : MemoryMapEntryType) : bool :=
  match k with Usable => true | _ => false end.

Fixpoint init_entries (es : list MemoryMapEntry) (s : mm) (usable_bytes : Z)
    : exec (mm * Z) :=
  match es with
  | [] => Ret (s, usable_bytes)
  | e :: es =>
      if negb (is_usable (kind e)) then init_entries es s usable_bytes
      else if (base e <? 0x200000) && (length_ e <=? 0x200000 - base e)
      then init_entries es s usable_bytes
      else
        let b := if base e <? 0x200000 then 0x200000 else base e in
        let len := Z.max 0 (length_ e - (b - base e)) in
        if 0 <? len then
          s' ← add_region s b len;
          u ← u64_add usable_bytes len;
          init_entries es s' u
        else init_entries es s usable_bytes
  end.

(** [None] is a null response pointer. *)
Definition init (resp : option (list MemoryMapEntry)) (s : mm) : exec mm :=
  es ← expect resp;
  '(s', _) ← init_entries es s 0;
  Ret s'.

(** ** Blocks and frames *)

(** The frame numbers of the block of order [o] at physical address [p]. *)
Definition block_frames (o : nat) (p : Z) : list Z := seqZ (p / PAGE_SIZE) (2 ^ o).

Definition block_ok (o : nat) (p : Z) : Prop :=
  0 ≤ p ∧ p mod (PAGE_SIZE * 2 ^ o) = 0 ∧ p + PAGE_SIZE * 2 ^ o ≤ PHYS_LIMIT.

(** All frames of the blocks listed in [Ls], whose first element holds the
    blocks of order [k]. *)
Fixpoint frames_from (k : nat) (Ls : list (list Z)) : list Z :=
  match Ls with
  | [] => []
  | l :: Ls => (l ≫= block_frames k) ++ frames_from (S k) Ls
  end.
Definition frames_of (Ls : list (list Z)) : list Z := frames_from 0 Ls.

Implicit Types (o k : nat) (p q : Z) (l : list Z) (Ls : list (list Z)).

Lemma block_size_eq o : block_size o = PAGE_SIZE * 2 ^ o.
Proof. unfold block_size. rewrite Z.shiftl_mul_pow2; lia. Qed.

Lemma pow2_pos (o : nat) : 0 < 2 ^ o.
Proof. apply Z.pow_pos_nonneg; lia. Qed.

Lemma pow2_S (o : nat) : 2 ^ S o = 2 * 2 ^ o.
Proof. rewrite Nat2Z.inj_succ, Z.pow_succ_r; lia. Qed.

Lemma block_ok_page o p : block_ok o p → p = PAGE_SIZE * (p / PAGE_SIZE).
Proof.
  intros (_ & Ha & _). pose proof (pow2_pos o).
  assert (p mod PAGE_SIZE = 0).
  { eapply (mod_divide_0 p PAGE_SIZE (PAGE_SIZE * 2 ^ o)); [lia| |done].
    apply Z.divide_factor_l. }
  pose proof (Z.div_mod p PAGE_SIZE). lia.
Qed.

Lemma block_frames_elem o p f :
  f ∈ block_frames o p ↔ p / PAGE_SIZE ≤ f < p / PAGE_SIZE + 2 ^ o.
Proof. unfold block_frames. by rewrite elem_of_seqZ. Qed.

Lemma block_frames_first o p : p / PAGE_SIZE ∈ block_frames o p.
Proof. rewrite block_frames_elem. pose proof (pow2_pos o). lia. Qed.

Lemma block_frames_length o p : length (block_frames o p) = Z.to_nat (2 ^ o).
Proof. apply length_seqZ. Qed.

(** A block is the concatenation of its two halves. *)
Lemma block_frames_split o p :
  block_frames (S o) p
  = block_frames o p ++ block_frames o (p + PAGE_SIZE * 2 ^ o).
Proof.
  unfold block_frames. pose proof (pow2_pos o).
  rewrite pow2_S. replace (2 * 2 ^ o) with (2 ^ o + 2 ^ o) by lia.
  rewrite seqZ_app by lia. f_equal. f_equal.
  rewrite (Z.mul_comm PAGE_SIZE), Z.div_add by lia. done.
Qed.

Lemma block_ok_halves o p :
  block_ok (S o) p → block_ok o p ∧ block_ok o (p + PAGE_SIZE * 2 ^ o).
Proof.
  intros (H0 & Ha & Hb). pose proof (pow2_pos o). rewrite pow2_S in *.
  assert (Hp : p mod (PAGE_SIZE * 2 ^ o) = 0).
  { eapply mod_divide_0; [lia| |exact Ha]. exists 2. lia. }
  repeat split; try lia; try done.
  rewrite <- Z.add_mod_idemp_l, Hp, Z.mod_same by lia. done.
Qed.

(** The buddy of an aligned block is the other half of the enclosing block. *)
Lemma lxor_pow2 (x k : Z) :
  0 ≤ k → x mod 2 ^ k = 0 →
  Z.lxor x (2 ^ k) = if Z.testbit x k then x - 2 ^ k else x + 2 ^ k.
Proof.
  intros Hk Hx. destruct (Z.testbit x k) eqn:E.
  - rewrite Z.sub_nocarry_ldiff.
    + apply Z.bits_inj'. intros i Hi. rewrite Z.lxor_spec, Z.ldiff_spec, Z.pow2_bits_eqb by lia.
      destruct (Z.eqb_spec k i) as [->|]; [by rewrite E|]. by destruct (Z.testbit x i).
    + apply Z.bits_inj'. intros i Hi. rewrite Z.ldiff_spec, Z.pow2_bits_eqb, Z.bits_0 by lia.
      destruct (Z.eqb_spec k i) as [->|]; [by rewrite E|]. done.
  - rewrite Z.add_nocarry_lxor; [done|].
    apply Z.bits_inj'. intros i Hi. rewrite Z.land_spec, Z.pow2_bits_eqb, Z.bits_0 by lia.
    destruct (Z.eqb_spec k i) as [->|]; [by rewrite E|]. by rewrite andb_false_r.
Qed.

Lemma block_size_pow2 o : PAGE_SIZE * 2 ^ o = 2 ^ (12 + o).
Proof. rewrite Z.pow_add_r by lia. done. Qed.

Definition buddy (o : nat) (p : Z) : Z := Z.lxor p (block_size o).

(** [p] and its buddy are, in some order, the halves of the block of the next
    order that starts at the smaller of the two. *)
Lemma buddy_halves o p :
  block_ok o p →
  let q := Z.min p (buddy o p) in
  q mod (PAGE_SIZE * 2 ^ S o) = 0 ∧
  ((p = q ∧ buddy o p = q + PAGE_SIZE * 2 ^ o) ∨
   (buddy o p = q ∧ p = q + PAGE_SIZE * 2 ^ o)).
Proof.
  intros (H0 & Ha & Hb) q. subst q. unfold buddy.
  assert (Hk : 0 ≤ 12 + o) by lia.
  assert (Hs : PAGE_SIZE * 2 ^ S o = 2 * 2 ^ (12 + o)).
  { rewrite <- block_size_pow2, pow2_S. lia. }
  rewrite Hs. rewrite block_size_eq, block_size_pow2 in *.
  pose proof (Z.pow_pos_nonneg 2 (12 + o) ltac:(lia) Hk) as Hpos.
  rewrite (lxor_pow2 p (12 + o) Hk Ha).
  pose proof (Z.div_mod p (2 ^ (12 + o)) ltac:(lia)) as Hd.
  pose proof (Z.testbit_spec' p (12 + o) Hk) as Ht.
  pose proof (Z.div_mod (p / 2 ^ (12 + o)) 2) as Hd2.
  destruct (Z.testbit p (12 + o)); cbn [Z.b2z] in Ht.
  - rewrite Z.min_r by lia. split; [|right; lia].
    apply Z.mod_divide; [lia|]. exists (p / 2 ^ (12 + o) / 2). nia.
  - rewrite Z.min_l by lia. split; [|left; lia].
    apply Z.mod_divide; [lia|]. exists (p / 2 ^ (12 + o) / 2). nia.
Qed.

Lemma block_merge o p :
  block_ok o p → block_ok o (buddy o p) →
  let q := Z.min p (buddy o p) in
  block_ok (S o) q ∧
  block_frames (S o) q ≡ₚ block_frames o p ++ block_frames o (buddy o p).
Proof.
  intros Hp Hq q. destruct (buddy_halves o p Hp) as [Ha Hc]. fold q in Ha, Hc.
  pose proof (pow2_pos o). rewrite block_frames_split.
  destruct Hp as (? & ? & ?), Hq as (? & ? & ?).
  destruct Hc as [[Hc1 Hc2]|[Hc1 Hc2]].
  - split; [|by rewrite Hc2, <- Hc1].
    unfold block_ok. rewrite pow2_S. repeat split; [lia| |lia]. by rewrite <- pow2_S.
  - split; [|rewrite <- Hc2, <- Hc1; apply Permutation_app_comm].
    unfold block_ok. rewrite pow2_S. repeat split; [lia| |lia]. by rewrite <- pow2_S.
Qed.

(** The first half of a block has the second half as its buddy. *)
Lemma buddy_low o p : block_ok (S o) p → buddy o p = p + PAGE_SIZE * 2 ^ o.
Proof.
  intros Hp. destruct (block_ok_halves o p Hp) as [Hp1 _]. pose proof (pow2_pos o).
  destruct (buddy_halves o p Hp1) as [Hq [[Hq1 Hq2]|[Hq1 Hq2]]]; [lia|exfalso].
  destruct Hp as (_ & Ha & _). rewrite pow2_S in *.
  apply Z.mod_divide in Ha as [x Hx]; [|lia]. apply Z.mod_divide in Hq as [y Hy]; [|lia].
  assert (2 ^ o * (2 * (x - y) - 1) = 0) as [?|?]%Z.mul_eq_0 by lia; lia.
Qed.

(** *** Frames of a family of lists *)
Lemma frames_from_insert k Ls o l :
  (o < length Ls)%nat →
  frames_from k (<[o := l]> Ls)
  ≡ₚ (l ≫= block_frames (k + o)) ++ frames_from k (<[o := []]> Ls).
Proof.
  revert k o. induction Ls as [|l0 Ls IH]; intros k [|o] Ho; simpl in *; try lia.
  - by rewrite Nat.add_0_r.
  - rewrite IH by lia. rewrite Nat.add_succ_r, Nat.add_succ_l.
    by rewrite Permutation_app_swap_app.
Qed.

Lemma frames_of_insert Ls o l :
  (o < length Ls)%nat →
  frames_of (<[o := l]> Ls) ≡ₚ (l ≫= block_frames o) ++ frames_of (<[o := []]> Ls).
Proof. apply (frames_from_insert 0). Qed.

Lemma frames_of_lookup Ls o l :
  Ls !! o = Some l →
  frames_of Ls ≡ₚ (l ≫= block_frames o) ++ frames_of (<[o := []]> Ls).
Proof.
  intros Hl. rewrite <- (list_insert_id Ls o l Hl) at 1.
  apply frames_of_insert. by eapply lookup_lt_Some.
Qed.

(** The head block of a list, apart from the rest. *)
Lemma frames_of_cons Ls o p l :
  (o < length Ls)%nat →
  frames_of (<[o := p :: l]> Ls) ≡ₚ block_frames o p ++ frames_of (<[o := l]> Ls).
Proof.
  intros Ho. rewrite (frames_of_insert Ls o (p :: l)), (frames_of_insert Ls o l) by done.
  simpl. by rewrite <- app_assoc.
Qed.

Lemma frames_of_perm Ls o l l' :
  (o < length Ls)%nat → l ≡ₚ l' →
  frames_of (<[o := l]> Ls) ≡ₚ frames_of (<[o := l']> Ls).
Proof.
  intros Ho Hl. rewrite (frames_of_insert Ls o l), (frames_of_insert Ls o l') by done.
  by rewrite Hl.
Qed.

Lemma frames_of_node Ls o l p :
  Ls !! o = Some l → p ∈ l → ∀ f, f ∈ block_frames o p → f ∈ frames_of Ls.
Proof.
  intros Hl Hp f Hf. rewrite (frames_of_lookup Ls o l Hl), elem_of_app. left.
  apply list_elem_of_bind. eauto.
Qed.

(** In a family without repeated frames, a frame determines its block. *)
Lemma frames_of_unique Ls o o' l l' p p' f :
  NoDup (frames_of Ls) →
  Ls !! o = Some l → Ls !! o' = Some l' → p ∈ l → p' ∈ l' →
  f ∈ block_frames o p → f ∈ block_frames o' p' → o = o' ∧ p = p'.
Proof.
  intros Hnd Hl Hl' Hp Hp' Hf Hf'.
  destruct (decide (o = o')) as [<-|Hne].
  - split; [done|]. simplify_eq.
    apply elem_of_Permutation in Hp as [l1 Hp].
    destruct (decide (p' = p)) as [->|Hpp]; [done|].
    rewrite Hp, elem_of_cons in Hp'. destruct Hp' as [?|Hp']; [done|].
    rewrite <- (list_insert_id Ls o l Hl) in Hnd.
    rewrite (frames_of_perm Ls o l (p :: l1)), frames_of_cons in Hnd;
      try done; try (by eapply lookup_lt_Some).
    apply NoDup_app in Hnd as (_ & Hd & _). exfalso. apply (Hd f Hf).
    rewrite frames_of_insert by (by eapply lookup_lt_Some).
    apply elem_of_app. left. apply list_elem_of_bind. eauto.
  - exfalso. rewrite (frames_of_lookup Ls o l Hl) in Hnd.
    apply NoDup_app in Hnd as (_ & Hd & _). apply (Hd f).
    + apply list_elem_of_bind. eauto.
    + eapply (frames_of_node _ o' l' p'); eauto.
      by rewrite list_lookup_insert_ne.
Qed.

(** Pigeonhole: frames below [PHYS_LIMIT] bound the length of the lists. *)
Lemma frames_of_bound Ls :
  NoDup (frames_of Ls) → (∀ f, f ∈ frames_of Ls → 0 ≤ f < 17179869184) →
  Z.of_nat (length (frames_of Ls)) ≤ 17179869184.
Proof.
  intros Hnd Hb.
  assert (Hs : frames_of Ls ⊆+ seqZ 0 17179869184).
  { apply NoDup_submseteq; [done|]. intros f Hf. apply elem_of_seqZ. specialize (Hb f Hf). lia. }
  apply submseteq_length in Hs. rewrite length_seqZ in Hs. lia.
Qed.

Lemma length_bind_frames o l : (length l ≤ length (l ≫= block_frames o))%nat.
Proof.
  induction l as [|p l IH]; [simpl; lia|].
  rewrite bind_cons, length_app, block_frames_length, length_cons.
  pose proof (pow2_pos o). lia.
Qed.

(** ** Representation of a free list *)

(** [chain m ptr l]: following [next] from [ptr] visits the blocks [l]. *)
Fixpoint chain (m : mem) (ptr : Z) (l : list Z) : Prop :=
  match l with
  | [] => ptr = 0
  | p :: l => ptr = p + hhdm_offset ∧ chain m (load64 m ptr) l
  end.

Definition node_ok (p : Z) : Prop := 0 ≤ p < PHYS_LIMIT ∧ p mod PAGE_SIZE = 0.

Definition list_rep (m : mem) (fl : FreeList) (l : list Z) : Prop :=
  chain m (head fl) l ∧ count fl = length l.

Lemma node_apart p q : node_ok p → node_ok q → p ≠ q → p + PAGE_SIZE ≤ q ∨ q + PAGE_SIZE ≤ p.
Proof.
  intros [_ Hp] [_ Hq] Hne.
  pose proof (Z.div_mod p PAGE_SIZE). pose proof (Z.div_mod q PAGE_SIZE). lia.
Qed.

Lemma block_ok_node o p : block_ok o p → node_ok p.
Proof.
  intros Hp. pose proof (block_ok_page o p Hp) as Hd. destruct Hp as (? & ? & ?).
  pose proof (pow2_pos o). split; [lia|]. rewrite Hd, Z.mul_comm. apply Z.mod_mul. lia.
Qed.

Lemma chain_ext m m' ptr l :
  (∀ p, p ∈ l → load64 m' (p + hhdm_offset) = load64 m (p + hhdm_offset)) →
  chain m ptr l → chain m' ptr l.
Proof.
  revert ptr. induction l as [|p l IH]; intros ptr Hm; simpl; [done|].
  intros [-> Hc]. split; [done|]. rewrite Hm by (by left).
  apply IH; [|done]. intros. apply Hm. by right.
Qed.

Lemma chain_store m ptr l a v :
  node_ok a → Forall node_ok l → a ∉ l →
  chain m ptr l → chain (store64 m (a + hhdm_offset) v) ptr l.
Proof.
  intros Ha Hl Hni. apply chain_ext. intros p Hp.
  rewrite Forall_forall in Hl.
  assert (a ≠ p) by congruence.
  destruct (node_apart a p) as [?|?]; auto; apply load_store64_other; lia.
Qed.

Lemma chain_null m ptr l : Forall node_ok l → chain m ptr l → ptr = 0 ↔ l = [].
Proof.
  intros Hl Hc. destruct l as [|p l]; simpl in Hc; [done|].
  inversion Hl as [|? ? [Hp _] _]. destruct Hc as [-> _]. pose proof hhdm_pos.
  split; [lia|done].
Qed.

(** [push] conses the block. *)
Lemma push_spec m fl l p :
  list_rep m fl l → node_ok p → Forall node_ok l → p ∉ l → length l < U64 - 1 →
  ∃ fl', push m fl p = Ret (store64 m (p + hhdm_offset) (head fl), fl') ∧
    list_rep (store64 m (p + hhdm_offset) (head fl)) fl' (p :: l).
Proof.
  intros [Hc Hn] Hp Hl Hni Hlen. pose proof hhdm_bound. unfold push.
  rewrite phys_to_virt_ok by (destruct Hp; lia). exec_steps.
  eexists. split; [done|]. split; simpl; [|lia]. split; [done|].
  rewrite load_store64.
  - by apply chain_store.
  - destruct l as [|q l]; simpl in Hc.
    + rewrite Hc. unfold is_u64. lia.
    + destruct Hc as [-> _]. inversion Hl as [|? ? [? _] _].
      pose proof hhdm_pos. unfold is_u64. lia.
Qed.

(** [pop] returns the head block, if any. *)
Lemma pop_spec m fl l :
  list_rep m fl l → Forall node_ok l →
  match l with
  | [] => pop m fl = Ret (None, fl)
  | p :: l' => ∃ fl', pop m fl = Ret (Some p, fl') ∧ list_rep m fl' l'
  end.
Proof.
  intros [Hc Hn] Hl. pose proof (chain_null _ _ _ Hl Hc) as Hz. unfold pop.
  destruct l as [|p l]; simpl in *.
  - by rewrite (proj2 Hz).
  - destruct (Z.eqb_spec (head fl) 0) as [E|_]; [by apply Hz in E|].
    destruct Hc as [Hh Hc]. exec_steps. rewrite Hh.
    inversion Hl as [|? ? [? _] _]. rewrite virt_to_phys_ok by lia. simpl.
    eexists. split; [done|]. split; simpl; [by rewrite <- Hh|lia].
Qed.

(** Where the cursor of [remove] may point while [l] is left to visit. *)
Definition link_ok (cur : link) (l : list Z) : Prop :=
  match cur with
  | LHead => True
  | LNext b => ∃ a, b = a + hhdm_offset ∧ node_ok a ∧ a ∉ l
  end.

Definition link_is (cur : link) (a : Z) : Prop := cur = LNext (a + hhdm_offset).

Lemma remove_loop_absent fuel m hd cur l p :
  Forall node_ok l → chain m (read_link m hd cur) l → (length l < fuel)%nat → p ∉ l →
  remove_loop fuel m hd cur (p + hhdm_offset) = Ret None.
Proof.
  revert fuel cur. induction l as [|q l IH]; intros fuel cur Hl Hc Hf Hp;
    (destruct fuel as [|fuel]; [simpl in *; lia|]); cbn [remove_loop].
  - simpl in Hc. by rewrite Hc.
  - pose proof (chain_null _ _ _ Hl Hc) as Hz. simpl in Hc. destruct Hc as [Hq Hc].
    apply not_elem_of_cons in Hp as [Hpq Hp]. inversion Hl; subst.
    destruct (Z.eqb_spec (read_link m hd cur) 0) as [E|_]; [by apply Hz in E|].
    destruct (Z.eqb_spec (read_link m hd cur) (p + hhdm_offset)); [lia|].
    apply IH; simpl in *; try done. lia.
Qed.

Lemma write_link_spec m hd cur l v :
  link_ok cur l → Forall node_ok l → is_u64 v → chain m v l →
  let r := write_link m hd cur v in
  read_link r.1 r.2 cur = v ∧ chain r.1 v l ∧
  (∀ x, (∀ a, link_is cur a → x < a + hhdm_offset ∨ a + hhdm_offset + 8 ≤ x) → r.1 x = m x) ∧
  (cur = LHead ∨ r.2 = hd).
Proof.
  intros Hok Hl Hv Hc. destruct cur as [|b]; simpl; [by repeat split; auto|].
  destruct Hok as (a & -> & Ha & Hni). split; [by apply load_store64|].
  split; [by apply chain_store|]. split; [|by right].
  intros x Hx. apply store64_other. by apply Hx.
Qed.

Lemma remove_loop_present fuel m hd cur l p :
  Forall node_ok l → NoDup l → chain m (read_link m hd cur) l → (length l < fuel)%nat →
  link_ok cur l → p ∈ l →
  ∃ m' hd' l',
    remove_loop fuel m hd cur (p + hhdm_offset) = Ret (Some (m', hd')) ∧
    l ≡ₚ p :: l' ∧ chain m' (read_link m' hd' cur) l' ∧
    (∀ x, (∀ a, a ∈ l ∨ link_is cur a → x < a + hhdm_offset ∨ a + hhdm_offset + 8 ≤ x) →
          m' x = m x) ∧
    (cur = LHead ∨ hd' = hd).
Proof.
  revert fuel cur. induction l as [|q l IH]; intros fuel cur Hl Hnd Hc Hf Hok Hp;
    [by apply not_elem_of_nil in Hp|].
  destruct fuel as [|fuel]; [simpl in *; lia|]. cbn [remove_loop].
  pose proof (chain_null _ _ _ Hl Hc) as Hz. simpl in Hc. destruct Hc as [Hq Hc].
  inversion Hl as [|? ? Hqn Hl']; subst. apply NoDup_cons in Hnd as [Hql Hnd].
  assert (Hokl : link_ok cur l).
  { destruct cur; [done|]. destruct Hok as (a & ? & ? & Ha). exists a.
    apply not_elem_of_cons in Ha as [? ?]. done. }
  destruct (Z.eqb_spec (read_link m hd cur) 0) as [E|_]; [by apply Hz in E|].
  destruct (Z.eqb_spec (read_link m hd cur) (p + hhdm_offset)) as [E|E].
  - assert (q = p) as -> by lia.
    destruct (write_link_spec m hd cur l (load64 m (read_link m hd cur)))
      as (Hr & Hc' & Hm & Hh); auto using load64_bound.
    destruct (write_link m hd cur _) as [m' hd']; simpl in *.
    exists m', hd', l. rewrite Hr. repeat split; auto.
  - apply elem_of_cons in Hp as [->|Hp]; [lia|].
    destruct (IH fuel (LNext (read_link m hd cur))) as (m' & hd' & l' & Hr & Hpl & Hc' & Hm & Hh);
      auto; [simpl in *; lia|by exists q|].
    destruct Hh as [?|Hh]; [done|].
    exists m', hd', (q :: l'). split; [done|].
    split; [rewrite Hpl; apply Permutation_swap|].
    assert (Hcur : read_link m' hd' cur = read_link m hd cur).
    { destruct cur as [|b]; simpl; [done|]. apply load64_ext. intros x Hx. apply Hm.
      destruct Hok as (a & -> & Ha & Hni). apply not_elem_of_cons in Hni as [Haq Hal].
      intros c Hc''. assert (a ≠ c ∧ node_ok c) as [Hac Hcn].
      { destruct Hc'' as [Hcl|Hci]; [rewrite Forall_forall in Hl'; split; [congruence|auto]|].
        unfold link_is in Hci. injection Hci as Hci. simpl in Hq.
        assert (c = q) as -> by lia. done. }
      destruct (node_apart a c); auto; lia. }
    simpl. rewrite Hcur, Hq. split; [split; [done|by rewrite <- Hq]|].
    split; [|by right]. intros x Hx. apply Hm. intros a Ha. apply Hx.
    destruct Ha as [Ha|Ha]; [left; by right|]. left. unfold link_is in Ha.
    injection Ha as Ha. assert (a = q) as -> by lia. by left.
Qed.

(** ** Representation of the allocator *)
Record pmm_rep (s : mm) (Ls : list (list Z)) : Prop := {
  rep_len : length Ls = 13%nat;
  rep_lists_len : length (lists (PMM s)) = 13%nat;
  rep_lists : ∀ o fl l, lists (PMM s) !! o = Some fl → Ls !! o = Some l → list_rep (ram s) fl l;
  rep_ok : ∀ o l p, Ls !! o = Some l → p ∈ l → block_ok o p;
  rep_nodup : NoDup (frames_of Ls)
}.

(** The frame a kernel virtual address of the direct map falls in. *)
Definition vframe (x : Z) : Z := (x - hhdm_offset) / PAGE_SIZE.

(** [m'] agrees with [m] outside the frames [F]. *)
Definition same_outside (F : list Z) (m m' : mem) : Prop :=
  ∀ x, vframe x ∉ F → m' x = m x.

(** The counters of [s'] are those of [s]. *)
Definition same_counters (s s' : mm) : Prop :=
  FREE_PAGES s' = FREE_PAGES s ∧ TOTAL_PAGES s' = TOTAL_PAGES s.

Lemma same_outside_refl F m : same_outside F m m.
Proof. done. Qed.

Lemma same_outside_trans F m1 m2 m3 :
  same_outside F m1 m2 → same_outside F m2 m3 → same_outside F m1 m3.
Proof. intros H12 H23 x Hx. by rewrite H23, H12. Qed.

Lemma same_outside_mono F G m m' :
  F ⊆ G → same_outside F m m' → same_outside G m m'.
Proof. intros HFG HF x Hx. apply HF. set_solver. Qed.

Lemma same_counters_trans s1 s2 s3 :
  same_counters s1 s2 → same_counters s2 s3 → same_counters s1 s3.
Proof. unfold same_counters. intuition congruence. Qed.

Lemma vframe_node p x :
  node_ok p → p + hhdm_offset ≤ x < p + hhdm_offset + PAGE_SIZE → vframe x = p / PAGE_SIZE.
Proof.
  intros [_ Hp] Hx. unfold vframe. pose proof (Z.div_mod p PAGE_SIZE).
  symmetry. apply (Z.div_unique _ _ _ (x - hhdm_offset - p)); lia.
Qed.

Lemma frames_of_elem Ls f :
  f ∈ frames_of Ls ↔ ∃ o l p, Ls !! o = Some l ∧ p ∈ l ∧ f ∈ block_frames o p.
Proof.
  split.
  - unfold frames_of. intros Hf.
    assert (∃ o l p, Ls !! o = Some l ∧ p ∈ l ∧ f ∈ block_frames (0 + o) p); [|done].
    revert Hf. generalize 0%nat. induction Ls as [|l Ls IH]; intros k Hf; simpl in Hf.
    { by apply not_elem_of_nil in Hf. }
    apply elem_of_app in Hf as [Hf|Hf].
    + apply list_elem_of_bind in Hf as (p & Hf & Hp). exists 0%nat, l, p.
      by rewrite Nat.add_0_r.
    + destruct (IH _ Hf) as (o & l' & p & ? & ? & ?). exists (S o), l', p.
      by rewrite Nat.add_succ_r, <- Nat.add_succ_l.
  - intros (o & l & p & Hl & Hp & Hf). by eapply frames_of_node.
Qed.

Lemma block_frame_bound o p f : block_ok o p → f ∈ block_frames o p → 0 ≤ f < 17179869184.
Proof.
  intros Hp Hf. apply block_frames_elem in Hf.
  pose proof (block_ok_page o p Hp). destruct Hp as (? & ? & ?). lia.
Qed.

Lemma rep_frame_bound s Ls f : pmm_rep s Ls → f ∈ frames_of Ls → 0 ≤ f < 17179869184.
Proof.
  intros HR (o & l & p & Hl & Hp & Hf)%frames_of_elem.
  eapply block_frame_bound; [|exact Hf]. by eapply rep_ok.
Qed.

Lemma rep_nodes s Ls o l : pmm_rep s Ls → Ls !! o = Some l → Forall node_ok l.
Proof.
  intros HR Hl. apply Forall_forall. intros p Hp. eapply block_ok_node, rep_ok; eauto.
Qed.

Lemma rep_length s Ls o l : pmm_rep s Ls → Ls !! o = Some l → length l ≤ 17179869184.
Proof.
  intros HR Hl.
  pose proof (frames_of_bound Ls (rep_nodup _ _ HR) (λ f, rep_frame_bound s Ls f HR)) as Hb.
  rewrite (frames_of_lookup Ls o l Hl), length_app in Hb.
  pose proof (length_bind_frames o l). lia.
Qed.

Lemma rep_nodup_list s Ls o l : pmm_rep s Ls → Ls !! o = Some l → NoDup l.
Proof.
  intros HR Hl. pose proof (rep_nodup _ _ HR) as Hnd.
  rewrite (frames_of_lookup Ls o l Hl) in Hnd. apply NoDup_app in Hnd as [Hnd _].
  clear Hl. induction l as [|p l IH]; [constructor|]. rewrite bind_cons in Hnd.
  apply NoDup_app in Hnd as (_ & Hd & Hnd). constructor; [|by apply IH].
  intros Hp. apply (Hd _ (block_frames_first o p)). apply list_elem_of_bind.
  exists p. split; [apply block_frames_first|done].
Qed.

Lemma rep_lookup s Ls o :
  pmm_rep s Ls → (o ≤ MAX_ORDER)%nat →
  ∃ fl l, lists (PMM s) !! o = Some fl ∧ Ls !! o = Some l.
Proof.
  intros HR Ho.
  destruct (lookup_lt_is_Some_2 (lists (PMM s)) o) as [fl Hfl].
  { rewrite (rep_lists_len _ _ HR). lia. }
  destruct (lookup_lt_is_Some_2 Ls o) as [l Hl].
  { rewrite (rep_len _ _ HR). lia. }
  eauto.
Qed.

(** Nodes of different blocks lie in different pages. *)
Lemma rep_node_ne s Ls o l p f o' p' :
  pmm_rep s Ls → Ls !! o = Some l → p ∈ l → f ∉ frames_of Ls →
  block_ok o' p' → p' / PAGE_SIZE = f → p ≠ p'.
Proof.
  intros HR Hl Hp Hf Hp' <- ->. apply Hf. eapply frames_of_node; eauto using block_frames_first.
Qed.

(** Replacing one list, with the memory changed away from the other lists. *)
Lemma rep_update s Ls o fl' l' m' :
  pmm_rep s Ls → (o ≤ MAX_ORDER)%nat →
  list_rep m' fl' l' →
  (∀ p, p ∈ l' → block_ok o p) →
  NoDup (frames_of (<[o := l']> Ls)) →
  (∀ o2 l2 p, o2 ≠ o → Ls !! o2 = Some l2 → p ∈ l2 →
     load64 m' (p + hhdm_offset) = load64 (ram s) (p + hhdm_offset)) →
  pmm_rep (set_list s o m' fl') (<[o := l']> Ls).
Proof.
  intros HR Ho Hl Hok Hnd Hm. split; simpl.
  - rewrite length_insert. apply (rep_len _ _ HR).
  - rewrite length_insert. apply (rep_lists_len _ _ HR).
  - intros o2 fl2 l2 Hfl2 Hl2.
    destruct (decide (o2 = o)) as [->|Hne].
    + rewrite list_lookup_insert_eq in Hfl2 by (rewrite (rep_lists_len _ _ HR); lia).
      rewrite list_lookup_insert_eq in Hl2 by (rewrite (rep_len _ _ HR); lia).
      by simplify_eq.
    + rewrite list_lookup_insert_ne in Hfl2 by done.
      rewrite list_lookup_insert_ne in Hl2 by done.
      destruct (rep_lists _ _ HR _ _ _ Hfl2 Hl2) as [Hc Hn]. split; [|done].
      eapply chain_ext; [|exact Hc]. eauto.
  - intros o2 l2 p Hl2 Hp. destruct (decide (o2 = o)) as [->|Hne].
    + rewrite list_lookup_insert_eq in Hl2 by (rewrite (rep_len _ _ HR); lia).
      simplify_eq. auto.
    + rewrite list_lookup_insert_ne in Hl2 by done. by eapply rep_ok.
  - done.
Qed.

(** ** The operations on one list *)
Lemma store64_same_outside m p v F :
  node_ok p → p / PAGE_SIZE ∈ F → same_outside F m (store64 m (p + hhdm_offset) v).
Proof.
  intros Hp Hf x Hx. apply store64_other.
  destruct (Z.le_gt_cases (p + hhdm_offset) x), (Z.lt_ge_cases x (p + hhdm_offset + 8)); try lia.
  exfalso. apply Hx. rewrite (vframe_node p x) by (auto; lia). done.
Qed.

Lemma push_at_spec s Ls o l p :
  pmm_rep s Ls → Ls !! o = Some l → (o ≤ MAX_ORDER)%nat → block_ok o p →
  NoDup (block_frames o p ++ frames_of Ls) →
  ∃ s', push_at s o p = Ret s' ∧ pmm_rep s' (<[o := p :: l]> Ls) ∧
    same_counters s s' ∧ same_outside (block_frames o p) (ram s) (ram s').
Proof.
  intros HR Hl Ho Hp Hnd.
  destruct (rep_lookup s Ls o HR Ho) as (fl & l0 & Hfl & Hl0). simplify_eq.
  pose proof (block_ok_node o p Hp) as Hpn.
  assert (Hne : ∀ o2 l2 q, Ls !! o2 = Some l2 → q ∈ l2 → q ≠ p).
  { intros o2 l2 q Hl2 Hq. eapply rep_node_ne; eauto.
    apply NoDup_app in Hnd as (_ & Hd & _). apply Hd, block_frames_first. }
  assert (Hni : p ∉ l) by (intros Hin; by apply (Hne o l p)).
  destruct (push_spec (ram s) fl l p) as (fl' & Hpush & Hrep); auto.
  { by eapply rep_lists. }
  { by eapply rep_nodes. }
  { pose proof (rep_length s Ls o l HR Hl). lia. }
  unfold push_at. rewrite Hfl. simpl. rewrite Hpush. simpl.
  eexists. split; [done|]. split; [|split; [done|]].
  - apply rep_update; auto.
    + intros q [->|Hq]%elem_of_cons; [done|]. by eapply rep_ok.
    + rewrite frames_of_cons by (by eapply lookup_lt_Some). by rewrite list_insert_id.
    + intros o2 l2 q _ Hl2 Hq.
      pose proof (block_ok_node _ _ (rep_ok _ _ HR _ _ _ Hl2 Hq)) as Hqn.
      destruct (node_apart p q) as [?|?]; eauto using not_eq_sym;
        apply load_store64_other; lia.
  - apply store64_same_outside; [done|apply block_frames_first].
Qed.

Lemma set_list_id s o fl : lists (PMM s) !! o = Some fl → set_list s o (ram s) fl = s.
Proof.
  intros Hfl. destruct s as [m [ls b t] f tt]; unfold set_list; simpl in *.
  by rewrite list_insert_id.
Qed.

Lemma remove_absent s Ls o l p :
  pmm_rep s Ls → Ls !! o = Some l → (o ≤ MAX_ORDER)%nat → p ≤ PHYS_LIMIT → p ∉ l →
  remove_at s o p = Ret (false, s).
Proof.
  intros HR Hl Ho Hp Hni.
  destruct (rep_lookup s Ls o HR Ho) as (fl & l0 & Hfl & Hl0). simplify_eq.
  destruct (rep_lists _ _ HR _ _ _ Hfl Hl) as [Hc Hn].
  unfold remove_at, remove. rewrite Hfl. exec_simpl. rewrite phys_to_virt_ok by done.
  exec_simpl.
  rewrite (remove_loop_absent _ _ _ LHead l p); simpl; auto.
  - by rewrite set_list_id.
  - by eapply rep_nodes.
  - lia.
Qed.

Lemma remove_present s Ls o l p :
  pmm_rep s Ls → Ls !! o = Some l → (o ≤ MAX_ORDER)%nat → p ∈ l →
  ∃ s' l', remove_at s o p = Ret (true, s') ∧ l ≡ₚ p :: l' ∧
    pmm_rep s' (<[o := l']> Ls) ∧ same_counters s s' ∧
    same_outside (frames_of Ls) (ram s) (ram s').
Proof.
  intros HR Hl Ho Hp.
  destruct (rep_lookup s Ls o HR Ho) as (fl & l0 & Hfl & Hl0). simplify_eq.
  destruct (rep_lists _ _ HR _ _ _ Hfl Hl) as [Hc Hn].
  pose proof (rep_nodes s Ls o l HR Hl) as Hnodes. pose proof Hnodes as Hnodes'.
  rewrite Forall_forall in Hnodes'.
  destruct (remove_loop_present (S (Z.to_nat (count fl))) (ram s) (head fl) LHead l p)
    as (m' & hd' & l' & Hr & Hpl & Hc' & Hm & _); auto.
  { by eapply rep_nodup_list. }
  { lia. }
  { done. }
  unfold remove_at, remove. rewrite Hfl. exec_simpl.
  destruct (Hnodes' p Hp) as [? _]. rewrite phys_to_virt_ok by lia. exec_simpl.
  rewrite Hr. exec_simpl.
  pose proof (Permutation_length Hpl) as Hlen. simpl in Hlen.
  exec_steps. eexists _, l'. split; [done|]. split; [done|].
  assert (Hm' : ∀ x, (∀ q, q ∈ l → x < q + hhdm_offset ∨ q + hhdm_offset + 8 ≤ x) → m' x = ram s x).
  { intros x Hx. apply Hm. intros q [Hq|Hq]; [auto|done]. }
  split; [|split; [done|]]; simpl.
  - apply rep_update; auto.
    + split; simpl; [done|lia].
    + intros q Hq. eapply rep_ok; eauto. rewrite Hpl. by right.
    + pose proof (rep_nodup _ _ HR) as Hnd. rewrite <- (list_insert_id Ls o l Hl) in Hnd.
      rewrite (frames_of_perm Ls o l (p :: l')), frames_of_cons in Hnd;
        try done; try (by eapply lookup_lt_Some).
      by apply NoDup_app in Hnd as (_ & _ & ?).
    + intros o2 l2 q Hne Hl2 Hq. apply load64_ext. intros x Hx. apply Hm'. intros r Hrl.
      assert (q ≠ r).
      { intros ->. destruct (frames_of_unique Ls o2 o l2 l r r (r / PAGE_SIZE)); auto using block_frames_first.
        apply (rep_nodup _ _ HR). }
      pose proof (block_ok_node _ _ (rep_ok _ _ HR _ _ _ Hl2 Hq)).
      destruct (node_apart q r); auto; lia.
  - intros x Hx. apply Hm'. intros q Hq.
    destruct (Z.le_gt_cases (q + hhdm_offset) x), (Z.lt_ge_cases x (q + hhdm_offset + 8)); try lia.
    exfalso. apply Hx. rewrite (vframe_node q x) by (auto; lia).
    eapply frames_of_node; eauto using block_frames_first.
Qed.

(** ** Coalescing

    No two buddies of an order below [MAX_ORDER] are both free. *)
Definition coalesced (Ls : list (list Z)) : Prop :=
  ∀ o l p, (o < MAX_ORDER)%nat → Ls !! o = Some l → p ∈ l → buddy o p ∉ l.

Lemma buddy_involutive o p : buddy o (buddy o p) = p.
Proof. unfold buddy. by rewrite Z.lxor_assoc, Z.lxor_nilpotent, Z.lxor_0_r. Qed.

Lemma buddy_ne o p : buddy o p ≠ p.
Proof.
  unfold buddy. intros E. apply (f_equal (Z.lxor p)) in E.
  rewrite <- Z.lxor_assoc, Z.lxor_nilpotent, Z.lxor_0_l, block_size_eq in E.
  pose proof (pow2_pos o). lia.
Qed.

Lemma coalesced_push Ls o l p :
  coalesced Ls → Ls !! o = Some l → buddy o p ∉ l → coalesced (<[o := p :: l]> Ls).
Proof.
  intros HC Hl Hb o2 l2 q Ho2 Hl2 Hq. destruct (decide (o2 = o)) as [->|Hne].
  - rewrite list_lookup_insert_eq in Hl2 by (by eapply lookup_lt_Some). simplify_eq.
    rewrite not_elem_of_cons. apply elem_of_cons in Hq as [->|Hq].
    + split; [apply buddy_ne|done].
    + split; [|by eapply HC]. intros E. apply Hb. by rewrite <- E, buddy_involutive.
  - rewrite list_lookup_insert_ne in Hl2 by done. by eapply HC.
Qed.

Lemma coalesced_sub Ls o l l' :
  coalesced Ls → Ls !! o = Some l → l' ⊆ l → coalesced (<[o := l']> Ls).
Proof.
  intros HC Hl Hsub o2 l2 q Ho2 Hl2 Hq. destruct (decide (o2 = o)) as [->|Hne].
  - rewrite list_lookup_insert_eq in Hl2 by (by eapply lookup_lt_Some). simplify_eq.
    intros Hb. by apply (HC o l q); auto.
  - rewrite list_lookup_insert_ne in Hl2 by done. by eapply HC.
Qed.

(** ** Allocation *)
Lemma find_order_spec s Ls n o :
  pmm_rep s Ls → (o + n = S MAX_ORDER)%nat →
  ∃ r, find_order n o s = Ret r ∧
    match r with
    | None => ∀ o' l, (o ≤ o')%nat → Ls !! o' = Some l → l = []
    | Some k => (o ≤ k ≤ MAX_ORDER)%nat ∧ ∃ p l, Ls !! k = Some (p :: l)
    end.
Proof.
  intros HR. revert o. induction n as [|n IH]; intros o Hn; cbn [find_order].
  - exists None. split; [done|]. intros o' l Ho' Hl. apply lookup_lt_Some in Hl.
    rewrite (rep_len _ _ HR) in Hl. lia.
  - destruct (rep_lookup s Ls o HR) as (fl & l & Hfl & Hl); [lia|]. rewrite Hfl. exec_simpl.
    destruct (rep_lists _ _ HR _ _ _ Hfl Hl) as [Hc _].
    pose proof (chain_null _ _ _ (rep_nodes s Ls o l HR Hl) Hc) as Hz.
    destruct (Z.eqb_spec (head fl) 0) as [E|E]; simpl.
    + destruct (IH (S o)) as (r & Hr & Hs); [lia|]. exists r. split; [done|].
      destruct r as [k|]; [destruct Hs as [? ?]; split; [lia|done]|].
      intros o' l' Ho' Hl'. destruct (decide (o' = o)) as [->|]; [|apply (Hs o'); auto; lia].
      simplify_eq. by apply Hz.
    + exists (Some o). split; [done|]. split; [lia|].
      destruct l as [|p l]; [by destruct E; apply Hz|]. eauto.
Qed.

Lemma split_loop_spec d order s Ls p :
  pmm_rep s Ls → (order + d ≤ MAX_ORDER)%nat → block_ok (order + d) p →
  NoDup (block_frames (order + d) p ++ frames_of Ls) →
  ∃ s' Ls', split_loop d order s p = Ret s' ∧ pmm_rep s' Ls' ∧ block_ok order p ∧
    block_frames (order + d) p ++ frames_of Ls ≡ₚ block_frames order p ++ frames_of Ls' ∧
    (coalesced Ls → coalesced Ls') ∧ same_counters s s' ∧
    same_outside (block_frames (order + d) p) (ram s) (ram s').
Proof.
  revert s Ls. induction d as [|d IH]; intros s Ls HR Ho Hp Hnd; cbn [split_loop].
  { rewrite Nat.add_0_r in *. exists s, Ls. split_and!; auto; done. }
  rewrite Nat.add_succ_r in *.
  destruct (block_ok_halves _ _ Hp) as [Hp1 Hp2]. rewrite block_frames_split in Hnd.
  pose proof Hp2 as (? & ? & ?). rewrite block_size_eq. exec_steps.
  destruct (rep_lookup s Ls (order + d) HR) as (fl & l & Hfl & Hl); [lia|].
  set (b := p + PAGE_SIZE * 2 ^ (order + d)%nat) in *.
  assert (Hnd2 : NoDup (block_frames (order + d) p ++ block_frames (order + d) b ++ frames_of Ls))
    by (by rewrite app_assoc).
  destruct (push_at_spec s Ls (order + d) l b) as (s1 & Hs1 & HR1 & Hc1 & Hm1); auto.
  { lia. }
  { by apply NoDup_app in Hnd2 as (_ & _ & ?). }
  rewrite Hs1. exec_simpl.
  assert (Hperm : frames_of (<[(order + d)%nat := b :: l]> Ls)
                  ≡ₚ block_frames (order + d) b ++ frames_of Ls).
  { rewrite frames_of_cons by (by eapply lookup_lt_Some). by rewrite list_insert_id. }
  destruct (IH s1 (<[(order + d)%nat := b :: l]> Ls)) as (s2 & Ls2 & Hs2 & HR2 & Hok & Hp2' & Hco & Hc2 & Hm2);
    auto; [lia|by rewrite Hperm|].
  exists s2, Ls2. split; [done|]. split; [done|]. split; [done|].
  split; [by rewrite <- Hp2', Hperm, block_frames_split, <- app_assoc|].
  split; [|split].
  - intros HC. apply Hco, coalesced_push; auto.
    unfold b. rewrite <- (buddy_low _ _ Hp), buddy_involutive. intros Hin.
    apply NoDup_app in Hnd2 as (_ & Hd & _). apply (Hd _ (block_frames_first _ p)).
    apply elem_of_app. right. eapply frames_of_node; eauto using block_frames_first.
  - by eapply same_counters_trans.
  - rewrite block_frames_split. eapply same_outside_trans.
    + eapply same_outside_mono; [|exact Hm1]. fold b. set_solver.
    + eapply same_outside_mono; [|exact Hm2]. set_solver.
Qed.

Lemma shiftl_1 o : Z.shiftl 1 o = 2 ^ o.
Proof. rewrite Z.shiftl_mul_pow2; lia. Qed.

(** The effect of a successful allocation of the block [p] of order [order]. *)
Record allocated (s : mm) (Ls : list (list Z)) (order : nat) (p : Z)
    (s' : mm) (Ls' : list (list Z)) : Prop := {
  al_rep : pmm_rep s' Ls';
  al_order : (order ≤ MAX_ORDER)%nat;
  al_block : block_ok order p;
  al_frames : frames_of Ls ≡ₚ block_frames order p ++ frames_of Ls';
  al_coalesced : coalesced Ls → coalesced Ls';
  al_free : FREE_PAGES s' = u64_wrap (FREE_PAGES s - 2 ^ order);
  al_total : TOTAL_PAGES s' = TOTAL_PAGES s;
  al_ram : same_outside (frames_of Ls) (ram s) (ram s')
}.

Lemma alloc_spec s Ls order :
  pmm_rep s Ls →
  ∃ r s', alloc s order = Ret (r, s') ∧
    match r with
    | None => s' = s ∧ ∀ o l, (order ≤ o)%nat → Ls !! o = Some l → l = []
    | Some p => ∃ Ls', allocated s Ls order p s' Ls'
    end.
Proof.
  intros HR. unfold alloc.
  destruct (decide (order ≤ 13)%nat) as [Ho|Ho]; cycle 1.
  { rewrite (proj2 (Nat.sub_0_le _ _)) by lia. cbn [find_order]. exec_simpl. exists None, s. split_and!; [done..|].
    intros o l Hol Hl. apply lookup_lt_Some in Hl. rewrite (rep_len _ _ HR) in Hl. lia. }
  destruct (find_order_spec s Ls (S MAX_ORDER - order) order HR) as (r & Hr & Hspec); [lia|].
  rewrite Hr. exec_simpl. destruct r as [o|]; [|by exists None, s].
  destruct Hspec as (Hord & p & l & Hl).
  destruct (rep_lookup s Ls o HR) as (fl & l0 & Hfl & Hl0); [lia|]. simplify_eq.
  rewrite Hfl. exec_simpl.
  pose proof (rep_nodes s Ls o _ HR Hl) as Hnodes.
  destruct (pop_spec (ram s) fl (p :: l)) as (fl' & Hpop & Hrep'); [by eapply rep_lists|done|].
  rewrite Hpop. exec_simpl.
  assert (Hperm : frames_of Ls ≡ₚ block_frames o p ++ frames_of (<[o := l]> Ls)).
  { rewrite <- (list_insert_id Ls o (p :: l) Hl) at 1. apply frames_of_cons.
    by eapply lookup_lt_Some. }
  pose proof (rep_nodup _ _ HR) as Hnd. rewrite Hperm in Hnd.
  assert (HR1 : pmm_rep (set_list s o (ram s) fl') (<[o := l]> Ls)).
  { apply rep_update; auto; [lia| |by apply NoDup_app in Hnd as (_ & _ & ?)].
    intros q Hq. eapply rep_ok; eauto. by right. }
  assert (Hbp : block_ok o p) by (apply (rep_ok _ _ HR o (p :: l)); [done|apply list_elem_of_here]).
  destruct (split_loop_spec (o - order) order (set_list s o (ram s) fl') (<[o := l]> Ls) p)
    as (s2 & Ls2 & Hs2 & HR2 & Hok & Hp2 & Hco & [Hf Ht] & Hm2);
    rewrite ?(Nat.add_comm order), ?Nat.sub_add by lia; auto; [lia|].
  rewrite (Nat.add_comm order), Nat.sub_add in * by lia.
  rewrite Hs2. exec_simpl. eexists (Some p), _. split; [done|]. exists Ls2. split; simpl.
  - by destruct HR2.
  - lia.
  - done.
  - by rewrite Hperm.
  - intros HC. apply Hco. eapply coalesced_sub; eauto. intros x Hx. by right.
  - rewrite shiftl_1, Hf. done.
  - done.
  - eapply same_outside_mono; [|exact Hm2]. rewrite Hperm. set_solver.
Qed.

(** ** Freeing *)
Lemma merge_loop_spec n s Ls p o :
  pmm_rep s Ls → (o + n = MAX_ORDER)%nat → block_ok o p →
  NoDup (block_frames o p ++ frames_of Ls) →
  ∃ s' p' o' Ls', merge_loop n s p o = Ret (s', p', o') ∧ pmm_rep s' Ls' ∧
    (o' ≤ MAX_ORDER)%nat ∧ block_ok o' p' ∧
    block_frames o p ++ frames_of Ls ≡ₚ block_frames o' p' ++ frames_of Ls' ∧
    (coalesced Ls → coalesced Ls' ∧
       ((o' < MAX_ORDER)%nat → ∀ l, Ls' !! o' = Some l → buddy o' p' ∉ l)) ∧
    same_counters s s' ∧ same_outside (frames_of Ls) (ram s) (ram s').
Proof.
  revert s Ls p o. induction n as [|n IH]; intros s Ls p o HR Ho Hp Hnd; cbn [merge_loop].
  { exists s, p, o, Ls. split_and!; auto; try done; [lia|]. intros HC. split; [done|lia]. }
  destruct (rep_lookup s Ls o HR) as (fl & l & Hfl & Hl); [lia|].
  fold (buddy o p). destruct (decide (buddy o p ∈ l)) as [Hb|Hb].
  - destruct (remove_present s Ls o l (buddy o p)) as (s1 & l1 & Hr & Hpl & HR1 & Hc1 & Hm1);
      auto; [lia|]. rewrite Hr. exec_simpl.
    assert (Hbok : block_ok o (buddy o p)) by (apply (rep_ok _ _ HR o l); done).
    destruct (block_merge o p Hp Hbok) as [Hqok Hqf].
    assert (Hperm : frames_of Ls ≡ₚ block_frames o (buddy o p) ++ frames_of (<[o := l1]> Ls)).
    { rewrite <- (list_insert_id Ls o l Hl) at 1.
      rewrite (frames_of_perm Ls o l (buddy o p :: l1)), frames_of_cons;
        try done; by eapply lookup_lt_Some. }
    destruct (IH s1 (<[o := l1]> Ls) (Z.min p (buddy o p)) (S o))
      as (s2 & p2 & o2 & Ls2 & Hm & HR2 & Ho2 & Hok2 & Hp2 & Hco & Hc2 & Hm2); auto.
    { lia. }
    { rewrite Hqf, <- app_assoc, <- Hperm. done. }
    exists s2, p2, o2, Ls2. split_and!; auto.
    + by rewrite <- Hp2, Hqf, <- app_assoc, <- Hperm.
    + intros HC. apply Hco. eapply coalesced_sub; eauto. rewrite Hpl. set_solver.
    + by eapply same_counters_trans.
    + eapply same_outside_trans; [exact Hm1|]. eapply same_outside_mono; [|exact Hm2].
      rewrite Hperm. set_solver.
  - rewrite (remove_absent s Ls o l) by
      (auto; try lia; unfold buddy;
       pose proof (buddy_halves o p Hp) as [_ Hh]; cbv zeta in Hh; unfold buddy in Hh;
       destruct Hp as (? & ? & ?); lia).
    exec_simpl. exists s, p, o, Ls. split_and!; auto; try done; [lia|].
    intros HC. split; [done|]. intros _ l' Hl'. by simplify_eq.
Qed.

(** The effect of freeing the block [p] of order [order]. *)
Record freed (s : mm) (Ls : list (list Z)) (order : nat) (p : Z)
    (s' : mm) (Ls' : list (list Z)) : Prop := {
  fr_rep : pmm_rep s' Ls';
  fr_frames : frames_of Ls' ≡ₚ block_frames order p ++ frames_of Ls;
  fr_coalesced : coalesced Ls → coalesced Ls';
  fr_free : FREE_PAGES s' = u64_wrap (FREE_PAGES s + 2 ^ order);
  fr_total : TOTAL_PAGES s' = TOTAL_PAGES s;
  fr_ram : same_outside (block_frames order p ++ frames_of Ls) (ram s) (ram s')
}.

Lemma free_spec s Ls p order :
  pmm_rep s Ls → (order ≤ MAX_ORDER)%nat → block_ok order p →
  NoDup (block_frames order p ++ frames_of Ls) →
  ∃ s' Ls', free s p order = Ret s' ∧ freed s Ls order p s' Ls'.
Proof.
  intros HR Ho Hp Hnd. unfold free.
  destruct (merge_loop_spec (MAX_ORDER - order) s Ls p order)
    as (s1 & p1 & o1 & Ls1 & Hm & HR1 & Ho1 & Hok1 & Hp1 & Hco & [Hf1 Ht1] & Hm1); auto; [lia|].
  rewrite Hm. exec_simpl.
  destruct (rep_lookup s1 Ls1 o1 HR1 Ho1) as (fl & l & Hfl & Hl).
  destruct (push_at_spec s1 Ls1 o1 l p1) as (s2 & Hs2 & HR2 & [Hf2 Ht2] & Hm2); auto.
  { by rewrite <- Hp1. }
  rewrite Hs2. exec_simpl. eexists _, (<[o1 := p1 :: l]> Ls1). split; [done|]. split; simpl.
  - by destruct HR2.
  - rewrite frames_of_cons by (by eapply lookup_lt_Some). rewrite list_insert_id by done.
    by rewrite Hp1.
  - intros HC. destruct (Hco HC) as [HC1 Hb1].
    destruct (decide (o1 < MAX_ORDER)%nat) as [Hlt|Hge]; [by apply coalesced_push; auto|].
    intros o2 l2 q Hlt2 Hl2 Hq. rewrite list_lookup_insert_ne in Hl2 by lia. by eapply HC1.
  - rewrite shiftl_1, Hf2, Hf1. done.
  - by rewrite Ht2.
  - eapply same_outside_trans.
    + eapply same_outside_mono; [|exact Hm1]. set_solver.
    + eapply same_outside_mono; [|exact Hm2]. rewrite Hp1. set_solver.
Qed.

(** ** Completeness of allocation

    Under coalescing, an aligned run of free frames that no block of its own
    order or more meets does not exist. *)
Lemma coalesced_no_run Ls k p :
  coalesced Ls → (k ≤ MAX_ORDER)%nat → block_ok k p →
  (∀ o l q, Ls !! o = Some l → q ∈ l → block_ok o q) →
  (∀ f, f ∈ block_frames k p → f ∈ frames_of Ls) →
  ∃ o l q f, (k ≤ o)%nat ∧ Ls !! o = Some l ∧ q ∈ l ∧
    f ∈ block_frames o q ∧ f ∈ block_frames k p.
Proof.
  intros HC. revert p. induction k as [|k IH]; intros p Hk Hp Hok Hrun.
  { pose proof (block_frames_first 0 p) as Hf. specialize (Hrun _ Hf).
    apply frames_of_elem in Hrun as (o & l & q & ? & ? & ?).
    exists o, l, q, (p / PAGE_SIZE). split_and!; auto. lia. }
  destruct (block_ok_halves k p Hp) as [Hp1 Hp2].
  assert (Hhalf : ∀ h, block_ok k h → (∀ f, f ∈ block_frames k h → f ∈ block_frames (S k) p) →
    (∃ l, Ls !! k = Some l ∧ h ∈ l) ∨
    ∃ o l q f, (S k ≤ o)%nat ∧ Ls !! o = Some l ∧ q ∈ l ∧
      f ∈ block_frames o q ∧ f ∈ block_frames (S k) p).
  { intros h Hh Hsub. destruct (IH h) as (o & l & q & f & Ho & Hl & Hq & Hf & Hfh); auto; [lia|].
    destruct (decide (o = k)) as [->|Hne].
    - left. exists l. split; [done|]. specialize (Hok _ _ _ Hl Hq).
      assert (q = h) as ->; [|done].
      apply block_frames_elem in Hf, Hfh.
      pose proof (block_ok_page k q Hok). pose proof (block_ok_page k h Hh).
      destruct Hok as (_ & Ha & _), Hh as (_ & Hb & _). pose proof (pow2_pos k).
      apply (aligned_blocks_eq q h (PAGE_SIZE * 2 ^ k) (PAGE_SIZE * f)); auto; lia.
    - right. exists o, l, q, f. split_and!; auto. lia. }
  rewrite block_frames_split in Hhalf |- *.
  destruct (Hhalf p Hp1) as [(l1 & Hl1 & Hin1)|?]; [set_solver| |done].
  destruct (Hhalf _ Hp2) as [(l2 & Hl2 & Hin2)|?]; [set_solver| |done].
  exfalso. simplify_eq. rewrite <- (buddy_low k p Hp) in Hin2.
  by apply (HC k l1 p).
Qed.

(** ** Regions *)
Lemma align_up_page v :
  0 ≤ v ≤ 9223372036854775808 → align_up v PAGE_SIZE = Ret (PAGE_SIZE * ((v + 4095) / PAGE_SIZE)).
Proof.
  intros. unfold align_up. exec_steps. f_equal.
  change (PAGE_SIZE - 1) with (2 ^ 12 - 1).
  rewrite land_not_ones by (unfold is_u64; lia). change (2 ^ 12) with PAGE_SIZE.
  pose proof (Z.div_mod (v + PAGE_SIZE - 1) PAGE_SIZE).
  replace (v + 4095) with (v + PAGE_SIZE - 1) by lia. lia.
Qed.

Lemma align_down_page v : is_u64 v → align_down v PAGE_SIZE = Ret (PAGE_SIZE * (v / PAGE_SIZE)).
Proof.
  intros. unfold align_down. exec_steps. f_equal.
  change (PAGE_SIZE - 1) with (2 ^ 12 - 1). rewrite land_not_ones by (done || lia).
  change (2 ^ 12) with PAGE_SIZE. pose proof (Z.div_mod v PAGE_SIZE). lia.
Qed.

(** The block that [add_block] chooses at [addr]: it fits, and no larger block
    does. *)
Record fitting (addr end_ : Z) (order o : nat) : Prop := {
  fit_ok : block_ok o addr;
  fit_end : addr + PAGE_SIZE * 2 ^ o ≤ end_;
  fit_le : (o ≤ order)%nat;
  fit_max : (o < order)%nat →
    addr mod (PAGE_SIZE * 2 ^ S o) = 0 → end_ < addr + PAGE_SIZE * 2 ^ S o
}.

Lemma add_block_spec order s Ls addr end_ :
  pmm_rep s Ls → (order ≤ MAX_ORDER)%nat →
  0 ≤ addr → addr mod PAGE_SIZE = 0 → addr + PAGE_SIZE ≤ end_ ≤ PHYS_LIMIT →
  (∀ f, f ∈ frames_of Ls → ¬ addr ≤ PAGE_SIZE * f < end_) →
  ∃ o l s', fitting addr end_ order o ∧ Ls !! o = Some l ∧
    add_block order s addr end_ = Ret (s', addr + PAGE_SIZE * 2 ^ o) ∧
    pmm_rep s' (<[o := addr :: l]> Ls) ∧
    NoDup (block_frames o addr ++ frames_of Ls) ∧
    FREE_PAGES s' = u64_wrap (FREE_PAGES s + 2 ^ o) ∧
    TOTAL_PAGES s' = u64_wrap (TOTAL_PAGES s + 2 ^ o) ∧
    same_outside (block_frames o addr) (ram s) (ram s').
Proof.
  intros HR Ho Ha0 Ha He Hfree.
  assert (Hdisj : ∀ o, block_ok o addr → addr + PAGE_SIZE * 2 ^ o ≤ end_ →
                       NoDup (block_frames o addr ++ frames_of Ls)).
  { intros o Hok Hend. apply NoDup_app. split; [apply NoDup_seqZ|].
    split; [|apply (rep_nodup _ _ HR)]. intros f Hf Hf2. apply (Hfree f Hf2).
    apply block_frames_elem in Hf. pose proof (block_ok_page o addr Hok). lia. }
  induction order as [|order IH]; cbn [add_block].
  - assert (Hok : block_ok 0 addr) by (split_and!; simpl; auto; lia).
    destruct (rep_lookup s Ls 0 HR) as (fl & l & Hfl & Hl); [lia|].
    destruct (push_at_spec s Ls 0 l addr) as (s' & Hp & HR' & [Hf Ht] & Hm); auto.
    { apply Hdisj; [done|simpl; lia]. }
    rewrite Hp. exec_steps. eexists 0%nat, l, _. split_and!; eauto.
    + split; auto; simpl; lia.
    + by destruct HR'.
    + apply Hdisj; [done|simpl; lia].
    + simpl. by rewrite Hf.
    + simpl. by rewrite Ht.
  - rewrite block_size_eq.
    destruct (Z.eqb_spec (addr mod (PAGE_SIZE * 2 ^ S order)) 0) as [Hm0|Hm0]; cbn [negb]; cycle 1.
    { destruct IH as (o & l & s' & [] & ?); [lia|]. exists o, l, s'. split; [|done].
      split; [done|done|lia|]. intros Hlt. destruct (decide (o = order)) as [->|]; [done|].
      apply fit_max0. lia. }
    assert (2 ^ S order ≤ 4096).
    { change 4096 with (2 ^ 12). apply Z.pow_le_mono_r; lia. }
    exec_steps. destruct (Z.ltb_spec end_ (addr + PAGE_SIZE * 2 ^ S order)) as [Hlt|Hge].
    { destruct IH as (o & l & s' & [] & ?); [lia|]. exists o, l, s'. split; [|done].
      split; [done|done|lia|]. intros Hlt'. destruct (decide (o = order)) as [->|]; [done|].
      apply fit_max0. lia. }
    assert (Hok : block_ok (S order) addr) by (split_and!; auto; lia).
    destruct (rep_lookup s Ls (S order) HR) as (fl & l & Hfl & Hl); [lia|].
    destruct (push_at_spec s Ls (S order) l addr) as (s' & Hp & HR' & [Hf Ht] & Hm); auto.
    rewrite Hp. exec_simpl. eexists (S order), l, _. split_and!; eauto.
    + split; auto; lia.
    + by destruct HR'.
    + simpl. by rewrite shiftl_1, Hf.
    + simpl. by rewrite shiftl_1, Ht.
Qed.

(** Between two turns of [add_region]: a block ending at [addr] could not have
    been larger, and nothing from [addr] up to the frame after the region is
    free. *)
Definition region_edge (Ls : list (list Z)) (addr end_ : Z) : Prop :=
  (∀ o l q, (o < MAX_ORDER)%nat → Ls !! o = Some l → q ∈ l → q + PAGE_SIZE * 2 ^ o = addr →
     q mod (PAGE_SIZE * 2 ^ S o) = 0 → end_ < q + PAGE_SIZE * 2 ^ S o) ∧
  (∀ f, f ∈ frames_of Ls → ¬ addr ≤ PAGE_SIZE * f ≤ end_).

Lemma region_edge_step Ls addr end_ o l :
  (∀ o l p, Ls !! o = Some l → p ∈ l → block_ok o p) →
  Ls !! o = Some l → fitting addr end_ MAX_ORDER o →
  coalesced Ls → region_edge Ls addr end_ →
  coalesced (<[o := addr :: l]> Ls) ∧
  region_edge (<[o := addr :: l]> Ls) (addr + PAGE_SIZE * 2 ^ o) end_.
Proof.
  intros Hoks Hl [Hok Hend Hle Hmax] HC [He1 He2].
  pose proof (pow2_pos o) as Hpos. pose proof (block_ok_page o addr Hok) as Hpg.
  split.
  - destruct (decide (o < MAX_ORDER)%nat) as [Hlt|Hge]; cycle 1.
    { intros o2 l2 q Hlt2 Hl2. rewrite list_lookup_insert_ne in Hl2 by lia. by apply HC. }
    apply coalesced_push; auto. intros Hb.
    destruct (buddy_halves o addr Hok) as [Hq [[Hq1 Hq2]|[Hq1 Hq2]]].
    + rewrite <- Hq1 in Hq2. apply (He2 (buddy o addr / PAGE_SIZE)).
      { eapply frames_of_node; eauto using block_frames_first. }
      pose proof (block_ok_page o _ (Hoks _ _ _ Hl Hb)). lia.
    + rewrite <- Hq1 in Hq, Hq2. pose proof (He1 o l _ Hlt Hl Hb ltac:(lia) Hq) as Hc.
      rewrite pow2_S in Hc. lia.
  - assert (Hfr : ∀ f, f ∈ frames_of (<[o := addr :: l]> Ls) →
                  f ∈ block_frames o addr ∨ f ∈ frames_of Ls).
    { intros f. rewrite frames_of_cons by (by eapply lookup_lt_Some).
      rewrite list_insert_id by done. by rewrite elem_of_app. }
    split.
    + intros o2 l2 q Hlt Hl2 Hq Hqe Hqa. destruct (decide (q = addr ∧ o2 = o)) as [[-> ->]|Hne].
      { by apply Hmax. }
      assert (Hin : ∃ l3, Ls !! o2 = Some l3 ∧ q ∈ l3).
      { destruct (decide (o2 = o)) as [->|]; [|rewrite list_lookup_insert_ne in Hl2 by done; eauto].
        rewrite list_lookup_insert_eq in Hl2 by (by eapply lookup_lt_Some). simplify_eq.
        apply elem_of_cons in Hq as [->|Hq]; [by destruct Hne|eauto]. }
      destruct Hin as (l3 & Hl3 & Hq3). exfalso.
      pose proof (Hoks _ _ _ Hl3 Hq3) as Hqok. pose proof (block_ok_page o2 q Hqok).
      pose proof (pow2_pos o2).
      apply (He2 (q / PAGE_SIZE + 2 ^ o2 - 1)); [|lia].
      eapply frames_of_node; eauto. apply block_frames_elem. lia.
    + intros f Hf Hr. destruct (Hfr f Hf) as [Hb|Hb].
      * apply block_frames_elem in Hb. lia.
      * apply (He2 f Hb). lia.
Qed.

Lemma add_region_loop_spec (fuel : nat) s Ls addr end_ :
  pmm_rep s Ls → 0 ≤ addr → addr mod PAGE_SIZE = 0 → end_ mod PAGE_SIZE = 0 →
  end_ ≤ PHYS_LIMIT → (end_ - addr) / PAGE_SIZE ≤ fuel →
  is_u64 (FREE_PAGES s) → is_u64 (TOTAL_PAGES s) →
  (∀ f, f ∈ frames_of Ls → ¬ addr ≤ PAGE_SIZE * f < end_) →
  let n := Z.max 0 ((end_ - addr) / PAGE_SIZE) in
  ∃ s' Ls', add_region_loop fuel s addr end_ = Ret s' ∧ pmm_rep s' Ls' ∧
    frames_of Ls' ≡ₚ seqZ (addr / PAGE_SIZE) n ++ frames_of Ls ∧
    (coalesced Ls → region_edge Ls addr end_ → coalesced Ls') ∧
    FREE_PAGES s' = u64_wrap (FREE_PAGES s + n) ∧
    TOTAL_PAGES s' = u64_wrap (TOTAL_PAGES s + n) ∧
    same_outside (seqZ (addr / PAGE_SIZE) n) (ram s) (ram s').
Proof.
  revert s Ls addr. induction fuel as [|fuel IH];
    intros s Ls addr HR H0 Ha He Hlim Hfuel HuF HuT Hfree n; cbn [add_region_loop].
  all: pose proof (Z.div_mod addr PAGE_SIZE ltac:(lia)) as Hda.
  all: pose proof (Z.div_mod end_ PAGE_SIZE ltac:(lia)) as Hde.
  all: assert (Hn : (end_ - addr) / PAGE_SIZE = end_ / PAGE_SIZE - addr / PAGE_SIZE)
    by (symmetry; apply (Z.div_unique _ _ _ 0); lia).
  all: destruct (Z.ltb_spec addr end_) as [Hlt|Hge].
  all: try (exists s, Ls; assert (n = 0) as -> by lia; rewrite seqZ_nil, !Z.add_0_r by lia;
    unfold u64_wrap; rewrite !Z.mod_small by done; split_and!; auto; done).
  { lia. }
  destruct (add_block_spec MAX_ORDER s Ls addr end_)
    as (o & l & s1 & Hfit & Hl & Hb & HR1 & Hnd & Hf1 & Ht1 & Hm1); auto; [lia..|].
  rewrite Hb. exec_simpl. pose proof Hfit as [Hok Hend _ _]. pose proof (pow2_pos o) as Hpos.
  assert (Hperm : frames_of (<[o := addr :: l]> Ls) ≡ₚ block_frames o addr ++ frames_of Ls).
  { rewrite frames_of_cons by (by eapply lookup_lt_Some). by rewrite list_insert_id. }
  set (addr' := addr + PAGE_SIZE * 2 ^ o) in *.
  assert (Ha' : addr' / PAGE_SIZE = addr / PAGE_SIZE + 2 ^ o).
  { unfold addr'. rewrite (Z.mul_comm PAGE_SIZE), Z.div_add by lia. done. }
  assert (Hn' : (end_ - addr') / PAGE_SIZE = end_ / PAGE_SIZE - addr' / PAGE_SIZE).
  { rewrite Ha'. symmetry. apply (Z.div_unique _ _ _ 0); unfold addr'; lia. }
  destruct (IH s1 (<[o := addr :: l]> Ls) addr')
    as (s2 & Ls2 & Hs2 & HR2 & Hp2 & Hco & Hf2 & Ht2 & Hm2); auto.
  { unfold addr'. lia. }
  { unfold addr'. rewrite Z.add_mod, Ha, (Z.mul_comm PAGE_SIZE), Z.mod_mul by lia. done. }
  { lia. }
  { rewrite Hf1. apply Z.mod_pos_bound. lia. }
  { rewrite Ht1. apply Z.mod_pos_bound. lia. }
  { intros f. rewrite Hperm, elem_of_app. intros [Hf|Hf] Hr.
    - apply block_frames_elem in Hf. unfold addr' in Hr. lia.
    - apply (Hfree f Hf). unfold addr' in Hr. lia. }
  assert (Hseq : seqZ (addr / PAGE_SIZE) n
    = block_frames o addr ++ seqZ (addr' / PAGE_SIZE) (Z.max 0 ((end_ - addr') / PAGE_SIZE))).
  { unfold block_frames. rewrite Ha', <- seqZ_app by lia. f_equal. unfold n. lia. }
  assert (Hsum : n = 2 ^ o + Z.max 0 ((end_ - addr') / PAGE_SIZE)) by (unfold n; lia).
  exists s2, Ls2. split_and!; auto.
  - rewrite Hp2, Hperm, Hseq. by rewrite Permutation_app_swap_app, app_assoc.
  - intros HC HE. apply Hco; apply (region_edge_step Ls addr end_ o l); auto; apply HR.
  - rewrite Hf2, Hf1, Hsum. unfold u64_wrap. rewrite Z.add_mod_idemp_l by lia. f_equal. lia.
  - rewrite Ht2, Ht1, Hsum. unfold u64_wrap. rewrite Z.add_mod_idemp_l by lia. f_equal. lia.
  - rewrite Hseq. eapply same_outside_trans.
    + eapply same_outside_mono; [|exact Hm1]. apply subseteq_app_l.
    + eapply same_outside_mono; [|exact Hm2]. apply subseteq_app_r.
Qed.

(** ** Abstract specification

    The abstract state of the allocator is the set of free frames. [co] records
    whether the free blocks are also known to be coalesced. *)
Definition block_set (o : nat) (p : Z) : gset Z := list_to_set (block_frames o p).

Definition pmm_inv (co : bool) (s : mm) (F : gset Z) : Prop :=
  ∃ Ls, pmm_rep s Ls ∧ (∀ f, f ∈ F ↔ f ∈ frames_of Ls) ∧
    FREE_PAGES s = size F ∧ is_u64 (TOTAL_PAGES s) ∧ (co = true → coalesced Ls).

(** [m'] agrees with [m] outside the frames [F]. *)
Definition agree_outside (F : gset Z) (m m' : mem) : Prop :=
  ∀ x, vframe x ∉ F → m' x = m x.

Lemma block_set_elem o p f : f ∈ block_set o p ↔ f ∈ block_frames o p.
Proof. apply elem_of_list_to_set. Qed.

Lemma block_set_size o p : size (block_set o p) = Z.to_nat (2 ^ o).
Proof.
  unfold block_set. rewrite size_list_to_set by apply NoDup_seqZ. apply block_frames_length.
Qed.

Lemma free_set_size (F : gset Z) Ls :
  NoDup (frames_of Ls) → (∀ f, f ∈ F ↔ f ∈ frames_of Ls) → size F = length (frames_of Ls).
Proof.
  intros Hnd HF. rewrite <- (size_list_to_set (C := gset Z)) by done. f_equal. apply set_eq. intros f.
  by rewrite HF, elem_of_list_to_set.
Qed.

Lemma pmm_inv_bound co s F f : pmm_inv co s F → f ∈ F → 0 ≤ f < 17179869184.
Proof. intros (Ls & HR & HF & _) Hf. eapply rep_frame_bound; [exact HR|]. by apply HF. Qed.

Lemma pmm_inv_size co s F : pmm_inv co s F → size F ≤ 17179869184.
Proof.
  intros (Ls & HR & HF & _). rewrite (free_set_size F Ls (rep_nodup _ _ HR) HF).
  apply frames_of_bound; [apply (rep_nodup _ _ HR)|]. intros f. by apply (rep_frame_bound s).
Qed.

(** Clients may write to any frame that is not free. *)
Lemma pmm_inv_frame co s F m' :
  pmm_inv co s F → (∀ x, vframe x ∈ F → m' x = ram s x) → pmm_inv co (set_ram s m') F.
Proof.
  intros (Ls & HR & HF & Hrest) Hm. exists Ls. split; [|done]. destruct HR as [H1 H2 H3 H4 H5].
  split; auto. simpl. intros o fl l Hfl Hl. destruct (H3 _ _ _ Hfl Hl) as [Hc Hn].
  split; [|done]. eapply chain_ext; [|exact Hc]. intros p Hp. apply load64_ext.
  intros x Hx. apply Hm. rewrite (vframe_node p x).
  - apply HF. eapply frames_of_node; eauto using block_frames_first.
  - eapply block_ok_node, H4; eauto.
  - lia.
Qed.

(** [alloc] finds a block of the requested order whenever there is one: it
    returns a naturally aligned block of free frames and removes exactly those
    frames, or, when no aligned run of free frames is left, [None]. *)
Lemma alloc_refines co s F order :
  pmm_inv co s F →
  ∃ r s', alloc s order = Ret (r, s') ∧
    match r with
    | Some p =>
        (order ≤ MAX_ORDER)%nat ∧ block_ok order p ∧ block_set order p ⊆ F ∧
        pmm_inv co s' (F ∖ block_set order p) ∧ agree_outside F (ram s) (ram s') ∧
        TOTAL_PAGES s' = TOTAL_PAGES s
    | None =>
        s' = s ∧ ((order ≤ MAX_ORDER)%nat → co = true ∨ order = 0%nat →
                  ∀ p, block_ok order p → ¬ block_set order p ⊆ F)
    end.
Proof.
  intros (Ls & HR & HF & Hfree & Htot & HC).
  destruct (alloc_spec s Ls order HR) as (r & s' & Ha & Hr). exists r, s'. split; [done|].
  destruct r as [p|].
  - destruct Hr as (Ls' & [HR' Ho Hok Hp Hco Hf Ht Hm]).
    assert (Hsub : block_set order p ⊆ F).
    { intros f. rewrite block_set_elem, HF, Hp, elem_of_app. by left. }
    pose proof (rep_nodup _ _ HR) as Hnd. rewrite Hp in Hnd.
    apply NoDup_app in Hnd as (_ & Hd & _).
    split_and!; auto.
    + exists Ls'. split_and!; auto.
      * intros f. rewrite elem_of_difference, block_set_elem, HF, Hp, elem_of_app.
        split; [tauto|]. intros Hf'. split; [by right|]. intros Hf''. by apply (Hd f).
      * rewrite Hf, Hfree, size_difference, block_set_size by done.
        apply subseteq_size in Hsub. rewrite block_set_size in Hsub.
        pose proof (pmm_inv_size co s F) as Hsz. pose proof (pow2_pos order).
        unfold u64_wrap. rewrite Z.mod_small; [lia|].
        specialize (Hsz ltac:(by exists Ls)). lia.
      * by rewrite Ht.
    + intros x Hx. apply Hm. by rewrite <- HF.
  - destruct Hr as [-> Hempty]. split; [done|]. intros Ho Hco p Hp Hsub.
    assert (∃ o l q f, (order ≤ o)%nat ∧ Ls !! o = Some l ∧ q ∈ l ∧
            f ∈ block_frames o q ∧ f ∈ block_frames order p)
      as (o & l & q & f & Ho' & Hl & Hq & _).
    { destruct Hco as [Hco| ->].
      - apply coalesced_no_run; auto; [apply HR|]. intros f. rewrite <- HF, <- block_set_elem. auto.
      - assert (Hf : p / PAGE_SIZE ∈ frames_of Ls).
        { apply HF, Hsub, block_set_elem, block_frames_first. }
        apply frames_of_elem in Hf as (o & l & q & ? & ? & ?).
        exists o, l, q, (p / PAGE_SIZE). split_and!; auto using block_frames_first. lia. }
    rewrite (Hempty o l Ho' Hl) in Hq. by apply not_elem_of_nil in Hq.
Qed.

(** [free] gives back exactly the frames of the block. *)
Lemma free_refines co s F p order :
  pmm_inv co s F → (order ≤ MAX_ORDER)%nat → block_ok order p → block_set order p ## F →
  ∃ s', free s p order = Ret s' ∧ pmm_inv co s' (F ∪ block_set order p) ∧
    agree_outside (F ∪ block_set order p) (ram s) (ram s') ∧
    TOTAL_PAGES s' = TOTAL_PAGES s.
Proof.
  intros (Ls & HR & HF & Hfree & Htot & HC) Ho Hp Hdisj.
  destruct (free_spec s Ls p order HR Ho Hp) as (s' & Ls' & Hs' & [HR' Hfr Hco Hf Ht Hm]).
  { apply NoDup_app. split; [apply NoDup_seqZ|]. split; [|apply (rep_nodup _ _ HR)].
    intros f Hf1 Hf2. apply (Hdisj f); [by apply block_set_elem|by apply HF]. }
  assert (HF' : ∀ f, f ∈ F ∪ block_set order p ↔ f ∈ frames_of Ls').
  { intros f. rewrite Hfr, elem_of_app, elem_of_union, block_set_elem, HF. tauto. }
  exists s'. split_and!; auto.
  - exists Ls'. split_and!; auto.
    + assert (Hsz : size (F ∪ block_set order p) ≤ 17179869184).
      { rewrite (free_set_size _ Ls' (rep_nodup _ _ HR') HF').
        apply frames_of_bound; [apply (rep_nodup _ _ HR')|]. intros f. by apply (rep_frame_bound s'). }
      rewrite Hf, Hfree. rewrite size_union, block_set_size in Hsz |- * by set_solver.
      pose proof (pow2_pos order). unfold u64_wrap. rewrite Z.mod_small; lia.
    + by rewrite Ht.
  - intros x Hx. apply Hm. by rewrite <- Hfr, <- HF'.
Qed.

(** ** What [free] writes

    A word of a frame keeps its value or becomes a link of a free list, which is
    the address of a block or null and so a multiple of the page size. *)
Definition link_word (m m' : mem) (a : Z) : Prop := load64 m' a = load64 m a ∨ load64 m' a mod PAGE_SIZE = 0.
Definition relink (m m' : mem) : Prop := ∀ p i, node_ok p → 0 ≤ i < 512 → link_word m m' (p + hhdm_offset + 8 * i).

Lemma link_word_trans m1 m2 m3 a : link_word m1 m2 a → link_word m2 m3 a → link_word m1 m3 a.
Proof. intros H1 [H2|H2]; [|by right]. unfold link_word in *. by rewrite H2. Qed.

Lemma relink_trans m1 m2 m3 : relink m1 m2 → relink m2 m3 → relink m1 m3.
Proof. intros H1 H2 p i Hp Hi. eapply link_word_trans; [by apply H1|by apply H2]. Qed.

Lemma relink_refl m : relink m m.
Proof. intros p i _ _. by left. Qed.

Lemma relink_store m p v : node_ok p → is_u64 v → v mod PAGE_SIZE = 0 → relink m (store64 m (p + hhdm_offset) v).
Proof.
  intros Hp Hv Ha q i Hq Hi. destruct (decide (q = p ∧ i = 0)) as [[-> ->]|Hne].
  - right. replace (p + hhdm_offset + 8 * 0) with (p + hhdm_offset) by lia. by rewrite load_store64.
  - left. apply load_store64_other. destruct (decide (q = p)) as [->|Hqp]; [lia|]. destruct (node_apart q p); auto; lia.
Qed.

Lemma chain_link m ptr l : Forall node_ok l → chain m ptr l → is_u64 ptr ∧ ptr mod PAGE_SIZE = 0.
Proof.
  intros Hl Hc. destruct l as [|q l]; simpl in Hc; [subst; by split; [unfold is_u64; lia|]|].
  destruct Hc as [-> _]. apply Forall_cons in Hl as [[Hq Ha] _]. pose proof hhdm_bound. pose proof hhdm_pos.
  pose proof hhdm_aligned. split; [unfold is_u64; lia|]. change 4096 with PAGE_SIZE in *. dlia.
Qed.

Lemma remove_loop_links fuel : ∀ m hd cur l t m' hd', Forall node_ok l → chain m (read_link m hd cur) l → link_ok cur [] →
  remove_loop fuel m hd cur t = Ret (Some (m', hd')) → relink m m'.
Proof.
  induction fuel as [|fuel IH]; intros m hd cur l t m' hd' Hl Hc Hok; cbn [remove_loop]; [done|].
  pose proof (chain_null _ _ _ Hl Hc) as Hz. destruct (Z.eqb_spec (read_link m hd cur) 0) as [_|Hne]; [done|].
  destruct l as [|q l]; [by destruct Hne; apply Hz|]. destruct Hc as [Hq Hc]. apply Forall_cons in Hl as [Hqn Hl].
  destruct (_ =? t).
  - destruct (chain_link _ _ _ Hl Hc) as [Hv Ha]. destruct cur as [|b]; simpl; intros [= <- <-]; [apply relink_refl|].
    destruct Hok as (a & -> & Ha' & _). by apply relink_store.
  - apply (IH m hd (LNext (read_link m hd cur)) l); [done|done|]. exists q. split; [done|]. split; [done|apply not_elem_of_nil].
Qed.

Lemma remove_at_links s Ls o p b s' : pmm_rep s Ls → (o ≤ MAX_ORDER)%nat → remove_at s o p = Ret (b, s') → relink (ram s) (ram s').
Proof.
  intros HR Ho. destruct (rep_lookup s Ls o HR Ho) as (fl & l & Hfl & Hl). unfold remove_at, remove. rewrite Hfl. exec_simpl.
  destruct (phys_to_virt p) as [t| |]; exec_simpl; [|done..].
  destruct (remove_loop _ _ _ _ _) as [[[m' hd']|]| |] eqn:E; exec_simpl; try done.
  - destruct (u64_sub _ _); exec_simpl; [|done..]. intros [= _ <-].
    apply (remove_loop_links (S (Z.to_nat (count fl))) (ram s) (head fl) LHead l t m' hd'); [by eapply rep_nodes| |done|done].
    exact (proj1 (rep_lists _ _ HR _ _ _ Hfl Hl)).
  - intros [= _ <-]. apply relink_refl.
Qed.

Lemma push_at_links s Ls o p s' : pmm_rep s Ls → (o ≤ MAX_ORDER)%nat → node_ok p → push_at s o p = Ret s' → relink (ram s) (ram s').
Proof.
  intros HR Ho Hp. destruct (rep_lookup s Ls o HR Ho) as (fl & l & Hfl & Hl). unfold push_at, push. rewrite Hfl. exec_simpl.
  pose proof hhdm_bound. rewrite phys_to_virt_ok by (destruct Hp; lia). exec_simpl.
  destruct (u64_add _ _); exec_simpl; [|done..]. intros [= <-].
  destruct (chain_link _ _ _ (rep_nodes _ _ _ _ HR Hl) (proj1 (rep_lists _ _ HR _ _ _ Hfl Hl))). by apply relink_store.
Qed.

Lemma merge_loop_links n : ∀ s Ls p o s' p' o', pmm_rep s Ls → (o + n = MAX_ORDER)%nat → block_ok o p →
  NoDup (block_frames o p ++ frames_of Ls) → merge_loop n s p o = Ret (s', p', o') → relink (ram s) (ram s').
Proof.
  induction n as [|n IH]; intros s Ls p o s' p' o' HR Ho Hp Hnd; cbn [merge_loop]; [intros [= <- _ _]; apply relink_refl|].
  destruct (rep_lookup s Ls o HR) as (fl & l & Hfl & Hl); [lia|]. fold (buddy o p).
  destruct (remove_at s o (buddy o p)) as [[b s1]| |] eqn:Er; exec_simpl; [|done..].
  pose proof (remove_at_links s Ls o (buddy o p) b s1 HR ltac:(lia) Er) as L1. destruct b; [|by intros [= <- _ _]].
  destruct (decide (buddy o p ∈ l)) as [Hb|Hb]; cycle 1.
  { rewrite (remove_absent s Ls o l) in Er; [done|done|done|lia| |done]. pose proof (buddy_halves o p Hp) as [_ Hh]. cbv zeta in Hh.
    destruct Hp as (? & ? & ?). lia. }
  destruct (remove_present s Ls o l (buddy o p)) as (s2 & l1 & Hr & Hpl & HR1 & _ & _); [done|done|lia|done|].
  rewrite Er in Hr. injection Hr as <-. assert (Hbok : block_ok o (buddy o p)) by (apply (rep_ok _ _ HR o l); done).
  destruct (block_merge o p Hp Hbok) as [Hqok Hqf]. intros E. eapply relink_trans; [exact L1|].
  apply (IH s1 (<[o := l1]> Ls) (Z.min p (buddy o p)) (S o) s' p' o' HR1 ltac:(lia) Hqok); [|done].
  rewrite Hqf, <- app_assoc. assert (Hperm : frames_of Ls ≡ₚ block_frames o (buddy o p) ++ frames_of (<[o := l1]> Ls)).
  { rewrite <- (list_insert_id Ls o l Hl) at 1.
    rewrite (frames_of_perm Ls o l (buddy o p :: l1)), frames_of_cons; try done; by eapply lookup_lt_Some. }
  by rewrite <- Hperm.
Qed.

Lemma free_links co s F p order s' : pmm_inv co s F → (order ≤ MAX_ORDER)%nat → block_ok order p → block_set order p ## F →
  free s p order = Ret s' → relink (ram s) (ram s').
Proof.
  intros (Ls & HR & HF & _) Ho Hp Hdisj. assert (Hnd : NoDup (block_frames order p ++ frames_of Ls)).
  { apply NoDup_app. split; [apply NoDup_seqZ|]. split; [|apply (rep_nodup _ _ HR)].
    intros f Hf1 Hf2. apply (Hdisj f); [by apply block_set_elem|by apply HF]. }
  unfold free. destruct (merge_loop_spec (MAX_ORDER - order) s Ls p order)
    as (s1 & p1 & o1 & Ls1 & Hm & HR1 & Ho1 & Hok1 & _); auto; [lia|].
  pose proof (merge_loop_links (MAX_ORDER - order) s Ls p order s1 p1 o1 HR ltac:(lia) Hp Hnd Hm) as L1. rewrite Hm. exec_simpl.
  destruct (push_at s1 o1 p1) as [s2| |] eqn:E; exec_simpl; [|done..]. intros [= <-].
  eapply relink_trans; [exact L1|]. exact (push_at_links s1 Ls1 o1 p1 s2 HR1 Ho1 (block_ok_node _ _ Hok1) E).
Qed.

(** The frames that lie wholly inside the byte range [b, b + len). *)
Definition region_frames (b len : Z) : gset Z :=
  let a := (b + 4095) / PAGE_SIZE in
  list_to_set (seqZ a (Z.max 0 ((b + len) / PAGE_SIZE - a))).

Lemma region_frames_elem b len f :
  f ∈ region_frames b len ↔ b ≤ PAGE_SIZE * f ∧ PAGE_SIZE * f + PAGE_SIZE ≤ b + len.
Proof.
  unfold region_frames. rewrite elem_of_list_to_set, elem_of_seqZ.
  pose proof (Z.div_mod (b + 4095) PAGE_SIZE). pose proof (Z.div_mod (b + len) PAGE_SIZE).
  pose proof (Z.mod_pos_bound (b + 4095) PAGE_SIZE).
  pose proof (Z.mod_pos_bound (b + len) PAGE_SIZE). lia.
Qed.

Lemma add_region_refines co s F b len :
  pmm_inv co s F → 0 ≤ b → 0 ≤ len → b + len ≤ PHYS_LIMIT →
  (∀ f, f ∈ F → PAGE_SIZE * f + PAGE_SIZE ≤ b) →
  (co = true → ∀ f, f ∈ F → PAGE_SIZE * f + PAGE_SIZE < b) →
  ∃ s', add_region s b len = Ret s' ∧ pmm_inv co s' (F ∪ region_frames b len) ∧
    agree_outside (region_frames b len) (ram s) (ram s') ∧
    TOTAL_PAGES s' = u64_wrap (TOTAL_PAGES s + size (region_frames b len)).
Proof.
  intros HI Hb Hlen Hlim Hbelow Hgap. pose proof (pmm_inv_size co s F HI) as Hsz.
  destruct HI as (Ls & HR & HF & Hfree & Htot & HC).
  set (a := (b + 4095) / PAGE_SIZE). set (e := (b + len) / PAGE_SIZE).
  pose proof (Z.div_mod (b + 4095) PAGE_SIZE ltac:(lia)).
  pose proof (Z.mod_pos_bound (b + 4095) PAGE_SIZE ltac:(lia)).
  pose proof (Z.div_mod (b + len) PAGE_SIZE ltac:(lia)).
  pose proof (Z.mod_pos_bound (b + len) PAGE_SIZE ltac:(lia)).
  assert (Hba : b ≤ PAGE_SIZE * a) by (unfold a; lia).
  unfold add_region. rewrite align_up_page by lia. exec_steps.
  rewrite align_down_page by (unfold is_u64; lia). exec_simpl. fold a e.
  assert (Hae : (PAGE_SIZE * e - PAGE_SIZE * a) / PAGE_SIZE = e - a).
  { symmetry. apply (Z.div_unique _ _ _ 0); lia. }
  assert (Haa : PAGE_SIZE * a / PAGE_SIZE = a) by (symmetry; apply (Z.div_unique _ _ _ 0); lia).
  destruct (add_region_loop_spec (Z.to_nat ((PAGE_SIZE * e - PAGE_SIZE * a) / PAGE_SIZE))
              s Ls (PAGE_SIZE * a) (PAGE_SIZE * e))
    as (s' & Ls' & Hs' & HR' & Hp & Hco & Hf & Ht & Hm); auto.
  { lia. }
  { rewrite Z.mul_comm. apply Z.mod_mul. lia. }
  { rewrite Z.mul_comm. apply Z.mod_mul. lia. }
  { lia. }
  { lia. }
  { rewrite Hfree. unfold is_u64. lia. }
  { intros f Hf. apply HF, Hbelow in Hf. lia. }
  rewrite Hae, Haa in *.
  assert (Hreg : ∀ f, f ∈ region_frames b len ↔ f ∈ seqZ a (Z.max 0 (e - a))).
  { intros f. apply elem_of_list_to_set. }
  assert (Hrsz : size (region_frames b len) = Z.to_nat (Z.max 0 (e - a))).
  { unfold region_frames. rewrite size_list_to_set, length_seqZ by apply NoDup_seqZ. done. }
  assert (HF' : ∀ f, f ∈ F ∪ region_frames b len ↔ f ∈ frames_of Ls').
  { intros f. rewrite Hp, elem_of_app, elem_of_union, Hreg, HF. tauto. }
  exists s'. split_and!; auto.
  - exists Ls'. split_and!; auto.
    + assert (Hsz' : size (F ∪ region_frames b len) ≤ 17179869184).
      { rewrite (free_set_size _ Ls' (rep_nodup _ _ HR') HF').
        apply frames_of_bound; [apply (rep_nodup _ _ HR')|]. intros f. by apply (rep_frame_bound s'). }
      rewrite size_union, Hrsz in Hsz' |- *.
      2,3: intros f Hf1 Hf2; apply Hbelow in Hf1; apply region_frames_elem in Hf2; lia.
      rewrite Hf, Hfree. unfold u64_wrap. rewrite Z.mod_small; lia.
    + rewrite Ht. apply Z.mod_pos_bound. lia.
    + intros Hco'. apply Hco; [by apply HC|]. split.
      * intros o l q Ho Hl Hq Hqe. exfalso.
        pose proof (rep_ok _ _ HR _ _ _ Hl Hq) as Hok. pose proof (block_ok_page o q Hok).
        pose proof (pow2_pos o).
        assert (q / PAGE_SIZE + 2 ^ o - 1 ∈ F).
        { apply HF. eapply frames_of_node; eauto. apply block_frames_elem. lia. }
        pose proof (Hgap Hco' _ ltac:(eassumption)). lia.
      * intros f Hf1. apply HF, Hbelow in Hf1. lia.
  - intros x Hx. apply Hm. by rewrite <- Hreg.
  - rewrite Ht, Hrsz. do 2 f_equal. lia.
Qed.

(** ** Boot *)

(** The allocator's statics before [init]. *)
Definition mm_boot (m : mem) : mm := {|
  ram := m; PMM := BuddyAllocator_new; FREE_PAGES := 0; TOTAL_PAGES := 0 |}.

Lemma pmm_inv_boot co m : pmm_inv co (mm_boot m) ∅.
Proof.
  exists (replicate 13 []). split_and!; try done.
  - split; try done.
    + intros o fl l Hfl Hl. apply lookup_replicate in Hl as [-> _].
      simpl in Hfl. apply (lookup_replicate 13) in Hfl as [-> _]. done.
    + intros o l p Hl Hp. apply lookup_replicate in Hl as [-> _]. by apply not_elem_of_nil in Hp.
    + apply NoDup_nil_2.
  - intros f. change (frames_of (replicate 13 [])) with (@nil Z). set_solver.
  - intros _ o l p _ Hl Hp. apply lookup_replicate in Hl as [-> _]. by apply not_elem_of_nil in Hp.
Qed.

(** What the Limine protocol says of the usable entries: sorted by base and
    not overlapping. With [co] they are moreover not adjacent. *)
Fixpoint memmap_ok (co : bool) (lo : Z) (es : list MemoryMapEntry) : Prop :=
  match es with
  | [] => True
  | e :: es =>
      if is_usable (kind e) then
        lo ≤ base e ∧ (co = true → lo < base e) ∧ 0 ≤ base e ∧ 0 ≤ length_ e ∧
        base e + length_ e ≤ PHYS_LIMIT ∧ memmap_ok co (base e + length_ e) es
      else memmap_ok co lo es
  end.

(** The frames of the usable entries at or above 2 MiB. *)
Fixpoint usable_frames (es : list MemoryMapEntry) : gset Z :=
  match es with
  | [] => ∅
  | e :: es =>
      (if is_usable (kind e)
       then region_frames (Z.max 0x200000 (base e))
              (base e + length_ e - Z.max 0x200000 (base e))
       else ∅) ∪ usable_frames es
  end.

Lemma add_region_total co s F b len s' : pmm_inv co s F → pmm_inv co s' (F ∪ region_frames b len) →
  (∀ f, f ∈ F → PAGE_SIZE * f + PAGE_SIZE ≤ b) → TOTAL_PAGES s' = u64_wrap (TOTAL_PAGES s + size (region_frames b len)) →
  TOTAL_PAGES s = FREE_PAGES s → TOTAL_PAGES s' = FREE_PAGES s'.
Proof.
  intros HI HI' Hb Ht Heq. pose proof (pmm_inv_size _ _ _ HI') as Hsz. destruct HI as (_ & _ & _ & Hf & _), HI' as (_ & _ & _ & Hf' & _).
  rewrite size_union in Hf', Hsz by (intros f Hf1 Hf2; specialize (Hb f Hf1); apply region_frames_elem in Hf2; lia).
  rewrite Ht, Heq, Hf, Hf'. unfold u64_wrap. rewrite Z.mod_small by lia. lia.
Qed.

Lemma agree_outside_union (F1 F2 : gset Z) m1 m2 m3 : agree_outside F1 m1 m2 → agree_outside F2 m2 m3 → agree_outside (F1 ∪ F2) m1 m3.
Proof. intros H1 H2 x Hx. apply not_elem_of_union in Hx as [Hx1 Hx2]. by rewrite H2, H1. Qed.

Lemma init_entries_refines co es s F lo u :
  pmm_inv co s F → memmap_ok co lo es → -1 ≤ lo ≤ PHYS_LIMIT → 0 ≤ u ≤ lo + 1 →
  (∀ f, f ∈ F → PAGE_SIZE * f + PAGE_SIZE ≤ lo) →
  ∃ s' u', init_entries es s u = Ret (s', u') ∧ pmm_inv co s' (F ∪ usable_frames es) ∧
    agree_outside (usable_frames es) (ram s) (ram s') ∧ (TOTAL_PAGES s = FREE_PAGES s → TOTAL_PAGES s' = FREE_PAGES s').
Proof.
  revert s F lo u. induction es as [|e es IH]; intros s F lo u HI Hes Hlo Hu HF; simpl in *.
  { exists s, u. split; [done|]. by rewrite union_empty_r_L. }
  destruct (is_usable (kind e)); simpl.
  2: { rewrite union_empty_l_L. by apply (IH s F lo). }
  destruct Hes as (Hb & Hgap & Hb0 & Hlen & Hlim & Hes).
  assert (Hskip : ∀ R : gset Z, R = ∅ → ∃ s' u',
     init_entries es s u = Ret (s', u') ∧ pmm_inv co s' (F ∪ (R ∪ usable_frames es)) ∧
     agree_outside (R ∪ usable_frames es) (ram s) (ram s') ∧ (TOTAL_PAGES s = FREE_PAGES s → TOTAL_PAGES s' = FREE_PAGES s')).
  { intros R ->. rewrite union_empty_l_L. apply (IH s F (base e + length_ e)); auto; try lia.
    intros f Hf. specialize (HF f Hf). lia. }
  assert (Hempty : base e + length_ e ≤ Z.max 0x200000 (base e) →
    region_frames (Z.max 0x200000 (base e)) (base e + length_ e - Z.max 0x200000 (base e)) = ∅).
  { intros Hle. apply set_eq. intros f. rewrite region_frames_elem.
    split; [lia|]. intros Hf. by apply not_elem_of_empty in Hf. }
  destruct (Z.ltb_spec (base e) 0x200000) as [Hlt|Hge]; simpl.
  - destruct (Z.leb_spec (length_ e) (0x200000 - base e)) as [Hle|Hgt]; [apply Hskip, Hempty; lia|].
    destruct (Z.ltb_spec 0 (Z.max 0 (length_ e - (0x200000 - base e)))); [|lia].
    destruct (add_region_refines co s F 0x200000 (length_ e - (0x200000 - base e)))
      as (s' & Hs' & HI' & HM & HT); auto; try lia.
    { intros f Hf. specialize (HF f Hf). lia. }
    { intros _ f Hf. specialize (HF f Hf). lia. }
    rewrite Z.max_r by lia. rewrite Hs'. exec_steps.
    destruct (IH s' _ (base e + length_ e) (u + (length_ e - (0x200000 - base e))) HI')
      as (s2 & u2 & Hs2 & HI2 & HM2 & HT2); auto; try lia.
    { intros f [Hf|Hf]%elem_of_union; [specialize (HF f Hf); lia|].
      apply region_frames_elem in Hf. lia. }
    exists s2, u2. split; [done|]. rewrite Z.max_l by lia.
    replace (base e + length_ e - 0x200000) with (length_ e - (0x200000 - base e)) by lia.
    rewrite union_assoc_L. split; [done|]. split; [by apply (agree_outside_union _ _ _ (ram s'))|].
    intros Heq. apply HT2. eapply add_region_total; [exact HI|exact HI'| |exact HT|exact Heq]. intros f Hf. specialize (HF f Hf). lia.
  - rewrite Z.sub_diag, Z.sub_0_r, (Z.max_r 0) by lia.
    destruct (Z.ltb_spec 0 (length_ e)); [|apply Hskip, Hempty; lia].
    destruct (add_region_refines co s F (base e) (length_ e)) as (s' & Hs' & HI' & HM & HT); auto; try lia.
    { intros f Hf. specialize (HF f Hf). lia. }
    { intros Hco f Hf. specialize (HF f Hf). specialize (Hgap Hco). lia. }
    rewrite Hs'. exec_steps.
    destruct (IH s' _ (base e + length_ e) (u + length_ e) HI') as (s2 & u2 & Hs2 & HI2 & HM2 & HT2); auto; try lia.
    { intros f [Hf|Hf]%elem_of_union; [specialize (HF f Hf); lia|].
      apply region_frames_elem in Hf. lia. }
    exists s2, u2. split; [done|]. rewrite Z.max_r by lia.
    replace (base e + length_ e - base e) with (length_ e) by lia. rewrite union_assoc_L. split; [done|]. split; [by apply (agree_outside_union _ _ _ (ram s'))|].
    intros Heq. apply HT2. eapply add_region_total; [exact HI|exact HI'| |exact HT|exact Heq]. intros f Hf. specialize (HF f Hf). lia.
Qed.

Lemma init_refines co es m :
  memmap_ok co (-1) es →
  ∃ s, init (Some es) (mm_boot m) = Ret s ∧ pmm_inv co s (usable_frames es) ∧ agree_outside (usable_frames es) m (ram s) ∧
    TOTAL_PAGES s = FREE_PAGES s.
Proof.
  intros Hes. unfold init. exec_simpl.
  destruct (init_entries_refines co es (mm_boot m) ∅ (-1) 0) as (s & u & Hs & HI & HM & HT);
    auto using pmm_inv_boot; try lia.
  { intros f Hf. by apply not_elem_of_empty in Hf. }
  rewrite Hs. exec_simpl. exists s. split; [done|]. rewrite union_empty_l_L in HI. auto.
Qed.

(** ** The promise to the other memory components

    [inv s F] is an invariant under which the frames [F] are free. *)
Class FrameAllocator (inv : mm → gset Z → Prop) := {
  fa_bound : ∀ s F f, inv s F → f ∈ F → 0 ≤ f < 17179869184;
  fa_alloc : ∀ s F, inv s F →
    ∃ r s', alloc_zeroed_frame s = Ret (r, s') ∧
      match r with
      | None => s' = s ∧ F = ∅
      | Some p =>
          node_ok p ∧ p / PAGE_SIZE ∈ F ∧ inv s' (F ∖ {[p / PAGE_SIZE]}) ∧
          (∀ x, vframe x = p / PAGE_SIZE → ram s' x = 0) ∧
          agree_outside F (ram s) (ram s')
      end;
  fa_free : ∀ s F p, inv s F → node_ok p → p / PAGE_SIZE ∉ F →
    ∃ s', free_frame s p = Ret s' ∧ inv s' (F ∪ {[p / PAGE_SIZE]}) ∧
      agree_outside (F ∪ {[p / PAGE_SIZE]}) (ram s) (ram s');
  fa_links : ∀ s F p s', inv s F → node_ok p → p / PAGE_SIZE ∉ F → free_frame s p = Ret s' → relink (ram s) (ram s');
  fa_frame : ∀ s F m', inv s F → (∀ x, vframe x ∈ F → m' x = ram s x) → inv (set_ram s m') F
}.

Lemma block_set_0 p : block_set 0 p = {[p / PAGE_SIZE]}.
Proof.
  apply set_eq. intros f. rewrite block_set_elem, block_frames_elem, elem_of_singleton.
  simpl. change (2 ^ 0%nat) with 1. lia.
Qed.

Lemma block_ok_0 p : block_ok 0 p ↔ node_ok p.
Proof.
  split; [apply block_ok_node|]. intros [Hp Ha]. pose proof (Z.div_mod p PAGE_SIZE).
  split_and!; change (PAGE_SIZE * 2 ^ 0%nat) with PAGE_SIZE; lia.
Qed.

Lemma vframe_inv p x :
  node_ok p → vframe x = p / PAGE_SIZE → p + hhdm_offset ≤ x < p + hhdm_offset + PAGE_SIZE.
Proof.
  intros [_ Ha] Hv. unfold vframe in Hv. pose proof (Z.div_mod p PAGE_SIZE).
  pose proof (Z.div_mod (x - hhdm_offset) PAGE_SIZE).
  pose proof (Z.mod_pos_bound (x - hhdm_offset) PAGE_SIZE). lia.
Qed.

#[global] Instance pmm_FrameAllocator co : FrameAllocator (pmm_inv co).
Proof.
  split.
  - apply pmm_inv_bound.
  - intros s F HI. unfold alloc_zeroed_frame, alloc_frame.
    destruct (alloc_refines co s F 0 HI) as (r & s' & Ha & Hr). rewrite Ha. exec_simpl.
    destruct r as [p|]; cycle 1.
    { exists None, s'. split; [done|]. destruct Hr as [-> Hr]. split; [done|].
      apply set_eq. intros f. split; [|set_solver]. intros Hf. exfalso.
      pose proof (pmm_inv_bound co s F f HI Hf).
      apply (Hr ltac:(lia) ltac:(by right) (f * PAGE_SIZE)).
      - apply block_ok_0. split; [lia|]. by apply Z.mod_mul.
      - rewrite block_set_0, Z.div_mul by lia. set_solver. }
    destruct Hr as (_ & Hok & Hsub & HI' & Hm & _). rewrite block_set_0 in *.
    pose proof (proj1 (block_ok_0 p) Hok) as Hp. rewrite phys_to_virt_ok by (destruct Hp; lia).
    exec_simpl. eexists (Some p), _. split; [done|].
    assert (Hfill : ∀ x, vframe x ≠ p / PAGE_SIZE →
      mem_fill (ram s') (p + hhdm_offset) PAGE_SIZE 0 x = ram s' x).
    { intros x Hx. unfold mem_fill.
      destruct (Z.leb_spec (p + hhdm_offset) x), (Z.ltb_spec x (p + hhdm_offset + PAGE_SIZE)); try done.
      exfalso. apply Hx. by apply vframe_node. }
    split_and!; [done|set_solver|..].
    + apply pmm_inv_frame; [done|]. intros x Hx. apply Hfill. set_solver.
    + intros x Hx. simpl. apply vframe_inv in Hx; [|done]. unfold mem_fill.
      rewrite (proj2 (Z.leb_le _ _)), (proj2 (Z.ltb_lt _ _)) by lia. done.
    + intros x Hx. simpl. rewrite Hfill by set_solver. by apply Hm.
  - intros s F p HI Hp Hf. unfold free_frame.
    destruct (free_refines co s F p 0 HI) as (s' & Hs' & HI' & Hm & _).
    + lia.
    + by apply block_ok_0.
    + rewrite block_set_0. set_solver.
    + rewrite block_set_0 in *. eauto.
  - intros s F p s' HI Hp Hf E. apply (free_links co s F p 0 s' HI); [lia|by apply block_ok_0| |exact E].
    rewrite block_set_0. set_solver.
  - apply pmm_inv_frame.
Qed.

(** ** Client traces

    A client allocates blocks and frees blocks it holds; [live] lists them. *)
Inductive client_op := OpAlloc (order : nat) | OpFree (i : nat).

Fixpoint run_ops (ops : list client_op) (s : mm) (live : list (Z * nat))
    : exec (mm * list (Z * nat)) :=
  match ops with
  | [] => Ret (s, live)
  | OpAlloc order :: ops =>
      '(r, s') ← alloc_frames s order;
      run_ops ops s' (match r with Some p => (p, order) :: live | None => live end)
  | OpFree i :: ops =>
      match live !! i with
      | Some (p, order) =>
          s' ← free_frames s p order;
          run_ops ops s' (delete i live)
      | None => run_ops ops s live
      end
  end.

Definition live_frames (live : list (Z * nat)) : list Z :=
  live ≫= λ '(p, order), block_frames order p.

(** The live blocks are disjoint well-aligned blocks and, with the free frames,
    make up the frames [F0] the allocator started with. *)
Definition trace_inv (co : bool) (F0 : gset Z) (s : mm) (live : list (Z * nat)) : Prop :=
  NoDup (live_frames live) ∧ (∀ f, f ∈ live_frames live → f ∈ F0) ∧
  (∀ p order, (p, order) ∈ live → (order ≤ MAX_ORDER)%nat ∧ block_ok order p) ∧
  pmm_inv co s (F0 ∖ list_to_set (live_frames live)).

Lemma live_frames_delete live i p order :
  live !! i = Some (p, order) →
  live_frames live ≡ₚ block_frames order p ++ live_frames (delete i live).
Proof.
  intros Hi. apply delete_Permutation in Hi. unfold live_frames. by rewrite Hi at 1.
Qed.

Lemma trace_inv_alloc co F0 s live order :
  trace_inv co F0 s live →
  ∃ r s', alloc s order = Ret (r, s') ∧
    trace_inv co F0 s' (match r with Some p => (p, order) :: live | None => live end).
Proof.
  intros (Hnd & Hsub & Hok & HI).
  destruct (alloc_refines _ _ _ order HI) as (r & s' & Ha & Hr). exists r, s'. split; [done|].
  destruct r as [p|]; [|destruct Hr as [-> _]; done].
  destruct Hr as (Ho & Hp & Hbs & HI' & _).
  assert (Hb : ∀ f, f ∈ block_frames order p → f ∈ F0 ∧ f ∉ live_frames live).
  { intros f Hf. apply block_set_elem, Hbs in Hf. set_solver. }
  unfold trace_inv. change (live_frames ((p, order) :: live))
    with (block_frames order p ++ live_frames live). split_and!.
  - apply NoDup_app. split; [apply NoDup_seqZ|]. split; [|done]. intros f Hf. by apply Hb.
  - intros f [Hf|Hf]%elem_of_app; [by apply Hb|by apply Hsub].
  - intros p' order' [Heq|Hin]%elem_of_cons; [by simplify_eq|by apply Hok].
  - assert (Heq : F0 ∖ list_to_set (block_frames order p ++ live_frames live)
            = F0 ∖ list_to_set (live_frames live) ∖ block_set order p); [|by rewrite Heq].
    apply set_eq. intros f. rewrite !elem_of_difference, !elem_of_list_to_set, elem_of_app.
    rewrite block_set_elem. tauto.
Qed.

Lemma trace_inv_free co F0 s live i p order :
  trace_inv co F0 s live → live !! i = Some (p, order) →
  ∃ s', free s p order = Ret s' ∧ trace_inv co F0 s' (delete i live).
Proof.
  intros (Hnd & Hsub & Hok & HI) Hi.
  pose proof (live_frames_delete live i p order Hi) as Hperm.
  destruct (Hok p order) as [Ho Hp]; [by eapply list_elem_of_lookup_2|].
  rewrite Hperm in Hnd. apply NoDup_app in Hnd as (_ & Hd & Hnd).
  assert (Hin : ∀ f, f ∈ block_frames order p → f ∈ live_frames live).
  { intros f Hf. rewrite Hperm, elem_of_app. by left. }
  destruct (free_refines co s _ p order HI Ho Hp) as (s' & Hs' & HI' & _).
  { intros f Hf1%block_set_elem Hf2. apply Hin in Hf1. set_solver. }
  exists s'. split; [done|]. unfold trace_inv. split_and!.
  - done.
  - intros f Hf. apply Hsub. rewrite Hperm, elem_of_app. by right.
  - intros p' order' Hin'. apply Hok. rewrite (delete_Permutation live i _ Hi). by right.
  - assert (Heq : F0 ∖ list_to_set (live_frames (delete i live))
            = F0 ∖ list_to_set (live_frames live) ∪ block_set order p); [|by rewrite Heq].
    apply set_eq. intros f. rewrite elem_of_union, !elem_of_difference, !elem_of_list_to_set.
    rewrite block_set_elem, Hperm, elem_of_app. split.
    + intros [? ?]. destruct (decide (f ∈ block_frames order p)); tauto.
    + intros [[? ?]|Hf]; [tauto|]. split; [by apply Hsub, Hin|]. by apply Hd.
Qed.

Lemma run_ops_spec co F0 ops s live :
  trace_inv co F0 s live →
  ∃ s' live', run_ops ops s live = Ret (s', live') ∧ trace_inv co F0 s' live'.
Proof.
  revert s live. induction ops as [|[order|i] ops IH]; intros s live HT; cbn [run_ops].
  - eauto.
  - unfold alloc_frames. destruct (trace_inv_alloc co F0 s live order HT) as (r & s' & Ha & HT').
    rewrite Ha. exec_simpl. by apply IH.
  - destruct (live !! i) as [[p order]|] eqn:Hi; [|by apply IH]. unfold free_frames.
    destruct (trace_inv_free co F0 s live i p order HT Hi) as (s' & Hs' & HT').
    rewrite Hs'. exec_simpl. by apply IH.
Qed.

(** ** Main theorems *)

(** C2: after a boot from any memory map with sorted, non-overlapping usable
    entries, no sequence of [alloc_frames] and [free_frames] calls by clients
    that free only what they hold panics or loops. The blocks handed out stay
    pairwise disjoint, naturally aligned and inside usable memory at or above
    2 MiB, and [FREE_PAGES] plus the pages held is always the number of usable
    pages, so nothing is lost or handed out twice. *)
Theorem pmm_trace_safe co es m ops :
  memmap_ok co (-1) es →
  ∃ s s' live,
    init (Some es) (mm_boot m) = Ret s ∧ run_ops ops s [] = Ret (s', live) ∧
    NoDup (live_frames live) ∧
    (∀ f, f ∈ live_frames live → f ∈ usable_frames es ∧ 512 ≤ f) ∧
    (∀ p (order : nat), (p, order) ∈ live → p mod (PAGE_SIZE * 2 ^ order) = 0) ∧
    FREE_PAGES s' + length (live_frames live) = size (usable_frames es).
Proof.
  intros Hes. destruct (init_refines co es m Hes) as (s & Hs & HI & _).
  destruct (run_ops_spec co (usable_frames es) ops s []) as (s' & live & Hr & HT).
  { split_and!; try set_solver; [apply NoDup_nil_2|].
    simpl. by rewrite difference_empty_L. }
  exists s, s', live. destruct HT as (Hnd & Hsub & Hok & HI').
  split_and!; auto.
  - intros f Hf. split; [by apply Hsub|]. apply Hsub in Hf. clear -Hf.
    induction es as [|e es IH]; simpl in Hf; [by apply not_elem_of_empty in Hf|].
    apply elem_of_union in Hf as [Hf|Hf]; [|auto].
    destruct (is_usable (kind e)); [|by apply not_elem_of_empty in Hf].
    apply region_frames_elem in Hf. lia.
  - intros p order Hin. by apply Hok.
  - destruct HI' as (_ & _ & _ & -> & _).
    assert (Hls : (list_to_set (live_frames live) : gset Z) ⊆ usable_frames es) by set_solver.
    pose proof (subseteq_size _ _ Hls) as Hle.
    rewrite size_difference by done. rewrite size_list_to_set in Hle |- * by done. lia.
Qed.

(** C4: on a coalesced allocator, [alloc] of an order up to [MAX_ORDER]
    succeeds exactly when some naturally aligned run of [2^order] frames is
    free. *)
Theorem alloc_complete s F order :
  pmm_inv true s F → (order ≤ MAX_ORDER)%nat →
  (∃ p s', alloc s order = Ret (Some p, s')) ↔
  (∃ p, block_ok order p ∧ block_set order p ⊆ F).
Proof.
  intros HI Ho. destruct (alloc_refines true s F order HI) as (r & s' & Ha & Hr).
  rewrite Ha. split.
  - intros (p & s2 & Heq). simplify_eq. destruct Hr as (_ & ? & ? & _). eauto.
  - intros (p & Hp & Hsub). destruct r as [q|]; [eauto|].
    destruct Hr as [_ Hr]. exfalso. eapply Hr; eauto.
Qed.

(** [alloc] removes exactly the frames of the block it returns from the
    free set and writes to no memory outside the frames that were free; when it
    returns [None] the allocator is unchanged. *)
Theorem alloc_correct co s F order :
  pmm_inv co s F →
  ∃ r s', alloc s order = Ret (r, s') ∧
    match r with
    | Some p =>
        block_ok order p ∧ block_set order p ⊆ F ∧
        pmm_inv co s' (F ∖ block_set order p) ∧ agree_outside F (ram s) (ram s')
    | None => s' = s
    end.
Proof.
  intros HI. destruct (alloc_refines co s F order HI) as (r & s' & Ha & Hr).
  exists r, s'. split; [done|]. destruct r; [|by destruct Hr].
  destruct Hr as (? & ? & ? & ? & ? & ?). auto.
Qed.

(** C3: freeing a block that is not free gives back exactly its frames, keeps
    the free blocks coalesced and writes only inside free frames; freeing what
    [alloc] returned restores the free set. *)
Theorem free_correct co s F p order :
  pmm_inv co s F → (order ≤ MAX_ORDER)%nat → block_ok order p → block_set order p ## F →
  (∃ s', free s p order = Ret s' ∧ pmm_inv co s' (F ∪ block_set order p) ∧
    agree_outside (F ∪ block_set order p) (ram s) (ram s')) ∧
  (∀ q s1, alloc s order = Ret (Some q, s1) →
    ∃ s2, free s1 q order = Ret s2 ∧ pmm_inv co s2 F).
Proof.
  intros HI Ho Hp Hd. split.
  - destruct (free_refines co s F p order) as (s' & ? & ? & ? & ?); eauto.
  - intros q s1 Ha. destruct (alloc_refines co s F order HI) as (r & s' & Ha' & Hr).
    rewrite Ha in Ha'. simplify_eq. destruct Hr as (_ & Hq & Hsub & HI1 & _).
    destruct (free_refines co s' _ q order HI1 Ho Hq) as (s2 & Hs2 & HI2 & _); [set_solver|].
    exists s2. split; [done|]. by rewrite difference_union_L, (union_comm_L F), subseteq_union_1_L in HI2.
Qed.

End Pmm.

(** ** Witnesses *)
Section Demo.
#[local] Existing Instance qemu_hhdm.

(** 5 MiB of usable memory from 1 MiB, after a reserved area. *)
Definition demo_map : list MemoryMapEntry :=
  [ {| base := 0; length_ := 0x100000; kind := Reserved |};
    {| base := 0x100000; length_ := 0x500000; kind := Usable |} ].

Lemma demo_map_ok : memmap_ok true (-1) demo_map.
Proof. simpl. lia. Qed.

Definition demo_state : mm :=
  match init (Some demo_map) (mm_boot (λ _, 0)) with
  | Ret s => s
  | _ => mm_boot (λ _, 0)
  end.

Lemma demo_inv : pmm_inv true demo_state (usable_frames demo_map).
Proof.
  destruct (init_refines true demo_map (λ _, 0) demo_map_ok) as (s & Hs & HI & _).
  unfold demo_state. by rewrite Hs.
Qed.

Lemma demo_frames f : f ∈ usable_frames demo_map ↔ 512 ≤ f < 1536.
Proof.
  simpl. rewrite union_empty_l_L, union_empty_r_L, region_frames_elem. lia.
Qed.

Example demo_free : FREE_PAGES demo_state = 1024.
Proof. vm_compute. reflexivity. Qed.

Lemma pmm_trace_safe_witness :
  ∃ s s' live,
    init (Some demo_map) (mm_boot (λ _, 0)) = Ret s ∧
    run_ops [OpAlloc 3; OpAlloc 0; OpFree 1; OpAlloc 10] s [] = Ret (s', live) ∧
    NoDup (live_frames live) ∧
    (∀ f, f ∈ live_frames live → f ∈ usable_frames demo_map ∧ 512 ≤ f) ∧
    (∀ p (order : nat), (p, order) ∈ live → p mod (PAGE_SIZE * 2 ^ order) = 0) ∧
    FREE_PAGES s' + length (live_frames live) = size (usable_frames demo_map).
Proof. exact (pmm_trace_safe true demo_map (λ _, 0) _ demo_map_ok). Defined.

Lemma alloc_complete_witness : ∃ p s', alloc demo_state 9 = Ret (Some p, s').
Proof.
  apply (alloc_complete demo_state (usable_frames demo_map) 9 demo_inv); [lia|].
  exists 0x200000. split; [split_and!; [lia|reflexivity|done]|].
  intros f Hf. apply demo_frames. apply block_set_elem, block_frames_elem in Hf.
  change (0x200000 / PAGE_SIZE) with 512 in Hf. change (2 ^ 9%nat) with 512 in Hf. lia.
Defined.

Lemma alloc_correct_witness :
  ∃ r s', alloc demo_state 2 = Ret (r, s') ∧
    match r with
    | Some p =>
        block_ok 2 p ∧ block_set 2 p ⊆ usable_frames demo_map ∧
        pmm_inv true s' (usable_frames demo_map ∖ block_set 2 p) ∧
        agree_outside (usable_frames demo_map) (ram demo_state) (ram s')
    | None => s' = demo_state
    end.
Proof. exact (alloc_correct true demo_state (usable_frames demo_map) 2 demo_inv). Defined.

Lemma free_correct_witness :
  (∃ s', free demo_state 0x800000 4 = Ret s' ∧
    pmm_inv true s' (usable_frames demo_map ∪ block_set 4 0x800000) ∧
    agree_outside (usable_frames demo_map ∪ block_set 4 0x800000) (ram demo_state) (ram s')) ∧
  (∀ q s1, alloc demo_state 4 = Ret (Some q, s1) →
    ∃ s2, free s1 q 4 = Ret s2 ∧ pmm_inv true s2 (usable_frames demo_map)).
Proof.
  apply (free_correct true demo_state (usable_frames demo_map) 0x800000 4 demo_inv).
  - lia.
  - split_and!; [lia|reflexivity|done].
  - intros f Hf1 Hf2. apply demo_frames in Hf2. apply block_set_elem, block_frames_elem in Hf1.
    change (0x800000 / PAGE_SIZE) with 2048 in Hf1. lia.
Defined.
End Demo.
