(* ===== verification/Limine.v ===== *)
(** What the boot loader leaves in memory ([src/src/arch/x86_64/limine.rs]): the
    requests of the kernel, and the readers of the responses to them that
    [hhdm_offset], [pmm::init] and [vga::init] use. The Limine protocol describes
    the responses as C structures; the predicates [memmap_response],
    [hhdm_response] and [framebuffer_response] state its layout. *)
From S2P Require Import Prelude Machine Vga Pmm.

Implicit Types (m : mem) (req resp p : Z).

(** ** The requests

    A request is six words: the identifier, the revision and the pointer to the
    response, null until the boot loader has filled it in. *)
Definition LIMINE_MAGIC : list Z := [0xc7b1dd30df4c8b88; 0x0a82e883a194f07b].
Definition request (id : list Z) (revision : Z) : list Z := LIMINE_MAGIC ++ id ++ [revision; 0].
Definition MEMMAP_REQUEST : list Z := request [0x67cf3d9d378a806f; 0xe304acdfc50c3c62] 0.
Definition HHDM_REQUEST : list Z := request [0x48dcf1cb8ad2b852; 0x63984e959a98244b] 0.
Definition KERNEL_ADDR_REQUEST : list Z := request [0x71ba76863cc55f63; 0xb2644a48c516a487] 0.
Definition FRAMEBUFFER_REQUEST : list Z := request [0x9d5827dcd881dd75; 0xa3148604f6fab11b] 1.
Definition response m req : Z := load64 m (req + 40).

(** The words of a list at an address; the pointers of a slice. *)
Definition words_at m p (ws : list Z) : Prop := ∀ (i : nat) w, ws !! i = Some w → load64 m (p + 8 * i) = w.
Definition slice m p (n : Z) : list Z := (λ i, load64 m (p + 8 * i)) <$> seqZ 0 n.

(** ** The memory map *)

(** The values of [MemoryMapEntryType]. A value outside the type has no defined
    behaviour; it is a panic here. *)
Definition kinds : list MemoryMapEntryType :=
  [Usable; Reserved; AcpiReclaimable; AcpiNvs; BadMemory; BootloaderReclaimable; KernelAndModules; Pmm.Framebuffer].
Definition read_entry m p : exec MemoryMapEntry :=
  match kinds !! Z.to_nat (load_le 4 m (p + 16)) with
  | Some k => Ret {| Pmm.base := load64 m p; length_ := load64 m (p + 8); kind := k |}
  | None => Panic
  end.
Definition entries m resp : list Z := slice m (load64 m (resp + 16)) (load64 m (resp + 8)).

(** The entries that [pmm::init] goes through; [None] is a null response. *)
Definition memory_map m req : exec (option (list MemoryMapEntry)) :=
  let resp := response m req in
  if resp =? 0 then Ret None else es ← mapM (read_entry m) (entries m resp); Ret (Some es).
Definition pmm_init m req (s : mm) `{Hhdm} : exec mm := es ← memory_map m req; Pmm.init es s.

(** ** The direct map *)
Definition hhdm_offset m req : exec Z :=
  let resp := response m req in
  _ ← assert_ (negb (resp =? 0));
  Ret (load64 m (resp + 8)).

(** ** The framebuffers *)
Definition read_framebuffer m p : Vga.Framebuffer := {|
  fb_address := load64 m p; fb_width := load64 m (p + 8); fb_height := load64 m (p + 16); fb_pitch := load64 m (p + 24);
  fb_bpp := load_le 2 m (p + 32) |}.
Definition framebuffers m resp : list Z := slice m (load64 m (resp + 16)) (load64 m (resp + 8)).

(** [None] is a null response; [vga::init] looks at the first framebuffer only. *)
Definition first_framebuffer m req : option (list Vga.Framebuffer) :=
  let resp := response m req in
  if resp =? 0 then None else Some (read_framebuffer m <$> take 1 (framebuffers m resp)).

(** ** The responses of the protocol

    [struct limine_memmap_entry] is three 64-bit words, the last of which is the
    type; [struct limine_framebuffer] starts with four words and a 16-bit depth. A
    response names the number of its structures and an array of pointers to
    them. *)
Definition kind_number (k : MemoryMapEntryType) : Z :=
  match k with
  | Usable => 0 | Reserved => 1 | AcpiReclaimable => 2 | AcpiNvs => 3
  | BadMemory => 4 | BootloaderReclaimable => 5 | KernelAndModules => 6 | Pmm.Framebuffer => 7
  end.
Definition array_response {A} m resp (holds : Z → A → Prop) (xs : list A) : Prop :=
  resp ≠ 0 ∧ load64 m (resp + 8) = length xs ∧
  ∀ (i : nat) x, xs !! i = Some x → holds (load64 m (load64 m (resp + 16) + 8 * Z.of_nat i)) x.
Definition entry_words (e : MemoryMapEntry) : list Z := [Pmm.base e; length_ e; kind_number (kind e)].
Definition memmap_response m resp (es : list MemoryMapEntry) : Prop := array_response m resp (λ p e, words_at m p (entry_words e)) es.
Definition hhdm_response m resp (off : Z) : Prop := resp ≠ 0 ∧ load64 m (resp + 8) = off.
Definition framebuffer_response m resp (fbs : list Vga.Framebuffer) : Prop :=
  array_response m resp (λ p f, words_at m p [fb_address f; fb_width f; fb_height f; fb_pitch f] ∧ load_le 2 m (p + 32) = fb_bpp f) fbs.

(** ** The readers find what the boot loader described *)
Lemma load_le_split k n m a : load_le (k + n) m a = load_le k m a + 256 ^ k * load_le n m (a + k).
Proof.
  revert a. induction k as [|k IH]; intros a; cbn [Nat.add load_le]; [rewrite Z.pow_0_r, Z.add_0_r; lia|].
  rewrite IH, Nat2Z.inj_succ, Z.pow_succ_r by lia. replace (a + Z.succ k) with (a + 1 + k) by lia. lia.
Qed.
Lemma load32_of_64 m a : load64 m a < U32 → load_le 4 m a = load64 m a.
Proof.
  intros H. unfold load64 in *. rewrite (load_le_split 4 4) in *. pose proof (load_le_bound 4 m a). pose proof (load_le_bound 4 m (a + 4%nat)).
  change (256 ^ 4%nat) with U32 in *. lia.
Qed.

Lemma slice_array {A} m resp (holds : Z → A → Prop) (xs : list A) : array_response m resp holds xs →
  Forall2 holds (slice m (load64 m (resp + 16)) (load64 m (resp + 8))) xs.
Proof.
  intros (_ & Hn & Hx). rewrite Hn. unfold slice. apply Forall2_same_length_lookup_2; [by rewrite length_fmap, length_seqZ, Nat2Z.id|].
  intros i p x Hp Hi. apply list_lookup_fmap_Some in Hp as (j & -> & Hj). apply lookup_seqZ in Hj as [-> Hj].
  rewrite Z.add_0_l. by apply Hx.
Qed.

Lemma read_entry_ok m p e : words_at m p (entry_words e) → read_entry m p = Ret e.
Proof.
  intros Hw. pose proof (Hw 0%nat _ eq_refl) as H0. pose proof (Hw 1%nat _ eq_refl) as H1. pose proof (Hw 2%nat _ eq_refl) as H2.
  change (8 * 0%nat) with 0 in H0. change (8 * 1%nat) with 8 in H1. change (8 * 2%nat) with 16 in H2. rewrite Z.add_0_r in H0.
  unfold read_entry. rewrite load32_of_64 by (rewrite H2; by destruct (kind e)). rewrite H0, H1, H2. destruct e as [b l k]. cbn. by destruct k.
Qed.

Lemma memory_map_ok m req es : memmap_response m (response m req) es → memory_map m req = Ret (Some es).
Proof.
  intros H. unfold memory_map. pose proof (proj1 H) as H0. rewrite (proj2 (Z.eqb_neq _ _) H0).
  assert (mapM (read_entry m) (entries m (response m req)) = Ret es) as ->; [|done].
  unfold entries. apply slice_array in H. induction H as [|p e ps es' Hp _ IH]; [done|]. cbn [mapM]. by rewrite (read_entry_ok m p e Hp), IH.
Qed.

Lemma hhdm_offset_ok m req off : hhdm_response m (response m req) off → hhdm_offset m req = Ret off.
Proof. intros [H0 H]. unfold hhdm_offset. rewrite (proj2 (Z.eqb_neq _ _) H0). cbn [negb assert_]. exec_simpl. by rewrite H. Qed.

Lemma first_framebuffer_ok m req fbs : framebuffer_response m (response m req) fbs → first_framebuffer m req = Some (take 1 fbs).
Proof.
  intros H. unfold first_framebuffer. rewrite (proj2 (Z.eqb_neq _ _) (proj1 H)). apply slice_array in H. fold (framebuffers m (response m req)) in H.
  destruct H as [|p f ps fs [Hw Hb] _]; [done|]. cbn. do 2 f_equal. unfold read_framebuffer. rewrite Hb.
  pose proof (Hw 0%nat _ eq_refl) as H0. pose proof (Hw 1%nat _ eq_refl) as H1. pose proof (Hw 2%nat _ eq_refl) as H2. pose proof (Hw 3%nat _ eq_refl) as H3.
  change (8 * 0%nat) with 0 in H0. change (8 * 1%nat) with 8 in H1. change (8 * 2%nat) with 16 in H2. change (8 * 3%nat) with 24 in H3.
  rewrite Z.add_0_r in H0. rewrite H0, H1, H2, H3. by destruct f.
Qed.
