(* ===== verification/Slab.v ===== *)
(** The slabs and slab caches of the kernel heap ([src/src/mm/heap.rs]): slabs of
    equal objects carved out of single frames, and a cache of slabs per object
    size with its lists of partial and full slabs. *)
From S2P Require Import Prelude Machine Pmm.

(** ** Slabs

    A slab is one page of the direct map. Its header is the struct [Slab], six
    words at the start of the page (in the order of the declaration); the rest
    is objects, and a free object's first word is the [next] of [FreeObj]. *)
Definition SLAB_SIZES : list Z := [8; 16; 32; 64; 128; 256; 512; 1024; 2048].
Abbreviation SIZE_OF_SLAB := 48 (only parsing).

Definition slab_base (m : mem) (slab : Z) : Z := load64 m slab.
Definition slab_obj_size (m : mem) (slab : Z) : Z := load64 m (slab + 8).
Definition slab_free (m : mem) (slab : Z) : Z := load64 m (slab + 16).
Definition slab_used (m : mem) (slab : Z) : Z := load64 m (slab + 24).
Definition slab_capacity (m : mem) (slab : Z) : Z := load64 m (slab + 32).
Definition slab_next (m : mem) (slab : Z) : Z := load64 m (slab + 40).

(** The loop of [Slab::new], from the last object to the first: the memory and
    the head of the list. *)
Fixpoint free_objs (n : nat) (m : mem) (objs_start obj_size prev : Z) : mem * Z :=
  match n with
  | O => (m, prev)
  | S i => let obj := objs_start + i * obj_size in free_objs i (store64 m obj prev) objs_start obj_size obj
  end.

Definition is_empty (m : mem) (slab : Z) : bool := slab_used m slab =? 0.
Definition is_full (m : mem) (slab : Z) : bool := slab_used m slab =? slab_capacity m slab.

Definition Slab_alloc (m : mem) (slab : Z) : exec (option Z * mem) :=
  let obj := slab_free m slab in
  if obj =? 0 then Ret (None, m) else
  let m := store64 m (slab + 16) (load64 m obj) in
  used ← u64_add (slab_used m slab) 1;
  Ret (Some obj, store64 m (slab + 24) used).

Definition Slab_dealloc (m : mem) (slab ptr : Z) : exec mem :=
  let m := store64 m ptr (slab_free m slab) in
  let m := store64 m (slab + 16) ptr in
  used ← u64_sub (slab_used m slab) 1;
  Ret (store64 m (slab + 24) used).

(** ** Caches *)
Record SlabCache := { obj_size : Z; partial : Z; full : Z }.

Definition SlabCache_new (size : Z) : SlabCache := {| obj_size := size; partial := 0; full := 0 |}.

Definition set_partial (c : SlabCache) (p : Z) : SlabCache := {| obj_size := obj_size c; partial := p; full := full c |}.
Definition set_full (c : SlabCache) (p : Z) : SlabCache := {| obj_size := obj_size c; partial := partial c; full := p |}.

(** [remove_from_full] and [remove_from_partial]: [cur] points at the head of
    the list or at a slab's [next]. *)
Fixpoint slab_remove (fuel : nat) (m : mem) (hd : Z) (cur : link) (target : Z) : exec (mem * Z) :=
  match fuel with
  | O => NoFuel
  | S fuel =>
      let p := read_link m hd cur in
      if p =? 0 then Ret (m, hd)
      else if p =? target then Ret (write_link m hd cur (slab_next m target))
      else slab_remove fuel m hd (LNext (p + 40)) target
  end.

(** A slab's address and its free objects. *)
Abbreviation gslab := (Z * list Z)%type.

Section Slab.
Context {hh : Hhdm}.

Definition Slab_new (s : mm) (obj_size : Z) : exec (option Z * mm) :=
  '(r, s) ← alloc_zeroed_frame s;
  match r with
  | None => Ret (None, s)
  | Some phys =>
      base ← phys_to_virt phys;
      let slab := base in
      header_size ← align_up SIZE_OF_SLAB obj_size;
      room ← u64_sub PAGE_SIZE header_size;
      let capacity := room / obj_size in
      let m := store64 (ram s) slab base in
      let m := store64 m (slab + 8) obj_size in
      let m := store64 m (slab + 16) 0 in
      let m := store64 m (slab + 24) 0 in
      let m := store64 m (slab + 32) capacity in
      let m := store64 m (slab + 40) 0 in
      let '(m, prev) := free_objs (Z.to_nat capacity) m (base + header_size) obj_size 0 in
      Ret (Some slab, set_ram s (store64 m (slab + 16) prev))
  end.

(** [SlabCache::alloc] calls itself after it has added a slab. *)
Fixpoint cache_alloc (fuel : nat) (s : mm) (c : SlabCache) : exec (option Z * mm * SlabCache) :=
  match fuel with
  | O => NoFuel
  | S fuel =>
      if negb (partial c =? 0) then
        let slab := partial c in
        '(r, m) ← Slab_alloc (ram s) slab;
        match r with
        | None => Ret (None, set_ram s m, c)
        | Some ptr =>
            if is_full m slab then
              let c := set_partial c (slab_next m slab) in
              let m := store64 m (slab + 40) (full c) in
              Ret (Some ptr, set_ram s m, set_full c slab)
            else Ret (Some ptr, set_ram s m, c)
        end
      else
        '(r, s) ← Slab_new s (obj_size c);
        match r with
        | None => Ret (None, s, c)
        | Some slab =>
            cache_alloc fuel (set_ram s (store64 (ram s) (slab + 40) (partial c))) (set_partial c slab)
        end
  end.

Definition cache_dealloc (fuel : nat) (s : mm) (c : SlabCache) (ptr : Z) : exec (mm * SlabCache) :=
  let slab := Z.land ptr (u64_not (PAGE_SIZE - 1)) in
  let was_full := is_full (ram s) slab in
  m ← Slab_dealloc (ram s) slab ptr;
  if was_full then
    '(m, hd) ← slab_remove fuel m (full c) LHead slab;
    let m := store64 m (slab + 40) (partial c) in
    Ret (set_ram s m, set_partial (set_full c hd) slab)
  else if is_empty m slab then
    '(m, hd) ← slab_remove fuel m (partial c) LHead slab;
    phys ← virt_to_phys (slab_base m slab);
    s ← free_frame (set_ram s m) phys;
    Ret (s, set_partial c hd)
  else Ret (set_ram s m, c).

(** ** Geometry of a slab *)
Definition hdr (z : Z) : Z := (SIZE_OF_SLAB + z - 1) / z * z.
Definition cap (z : Z) : Z := (PAGE_SIZE - hdr z) / z.
Definition slots (z b : Z) : list Z := (λ i, b + hdr z + i * z) <$> seqZ 0 (cap z).

Lemma size_facts z : z ∈ SLAB_SIZES →
  8 ≤ z ≤ 2048 ∧ z mod 8 = 0 ∧ PAGE_SIZE mod z = 0 ∧ SIZE_OF_SLAB ≤ hdr z ∧ hdr z mod z = 0 ∧ 1 ≤ cap z ∧
  hdr z + cap z * z ≤ PAGE_SIZE ∧ align_up SIZE_OF_SLAB z = Ret (hdr z).
Proof.
  intros Hz. unfold SLAB_SIZES in Hz.
  repeat (apply elem_of_cons in Hz as [->|Hz]; [split_and!; done|]). by apply elem_of_nil in Hz.
Qed.

Lemma elem_of_slots z b a : a ∈ slots z b ↔ ∃ i, 0 ≤ i < cap z ∧ a = b + hdr z + i * z.
Proof.
  unfold slots. rewrite list_elem_of_fmap. setoid_rewrite elem_of_seqZ. split; intros (i & H1 & H2); exists i; split; auto; lia.
Qed.

Lemma slot_range z b a : z ∈ SLAB_SIZES → a ∈ slots z b → b + SIZE_OF_SLAB ≤ a ∧ a + z ≤ b + PAGE_SIZE.
Proof.
  intros Hz (i & Hi & ->)%elem_of_slots. destruct (size_facts z Hz) as (? & _ & _ & ? & _ & ? & ? & _). nia.
Qed.

(** Different objects of a slab do not overlap. *)
Lemma slot_apart z b a a' : z ∈ SLAB_SIZES → a ∈ slots z b → a' ∈ slots z b → a ≠ a' → a + z ≤ a' ∨ a' + z ≤ a.
Proof.
  intros Hz (i & Hi & ->)%elem_of_slots (j & Hj & ->)%elem_of_slots Hne. destruct (size_facts z Hz) as (? & _).
  assert (i ≠ j) by congruence. nia.
Qed.

Lemma slot_aligned z b a : z ∈ SLAB_SIZES → b mod PAGE_SIZE = 0 → a ∈ slots z b → a mod z = 0.
Proof.
  intros Hz Hb (i & Hi & ->)%elem_of_slots. destruct (size_facts z Hz) as (? & _ & Hp & _ & Hh & _).
  apply (mod_divide_0 b z) in Hb; [|lia|by apply Z.mod_divide; [lia|]].
  rewrite Z.mod_add by lia. rewrite Z.add_mod, Hb, Hh by lia. by rewrite Z.mod_0_l by lia.
Qed.

(** ** Representation of a slab

    [lchain off m ptr l]: following the word at [off] from [ptr] visits [l]. *)
Fixpoint lchain (off : Z) (m : mem) (ptr : Z) (l : list Z) : Prop :=
  match l with
  | [] => ptr = 0
  | a :: l => ptr = a ∧ lchain off m (load64 m (a + off)) l
  end.

(** [b] is the address of a page of the direct map. *)
Definition page_ok (b : Z) : Prop := node_ok (b - hhdm_offset).

(** The slab at [b] has objects of [z] bytes, and [l] are the free ones. *)
Record slab_rep (m : mem) (z b : Z) (l : list Z) : Prop := {
  sr_base : slab_base m b = b;
  sr_size : slab_obj_size m b = z;
  sr_used : slab_used m b = cap z - length l;
  sr_capacity : slab_capacity m b = cap z;
  sr_free : lchain 0 m (slab_free m b) l;
  sr_nodup : NoDup l;
  sr_slots : ∀ a, a ∈ l → a ∈ slots z b
}.

Lemma lchain_ext off m m' ptr l :
  (∀ a x, a ∈ l → a + off ≤ x < a + off + 8 → m' x = m x) → lchain off m ptr l → lchain off m' ptr l.
Proof.
  revert ptr. induction l as [|a l IH]; intros ptr Hm; [done|]. cbn [lchain]. intros [-> Hc]. split; [done|].
  rewrite (load64_ext m) by (intros x; apply Hm; by left). apply IH; [|done]. intros. eapply Hm; [by right|done].
Qed.

Lemma lchain_null off m ptr l : Forall (λ a, 0 < a) l → lchain off m ptr l → ptr = 0 ↔ l = [].
Proof. destruct l as [|a l]; cbn; [done|]. intros [Ha _]%Forall_cons [-> _]. split; [lia|done]. Qed.

Lemma page_bounds b : page_ok b → 0 < b ∧ b + PAGE_SIZE < U64 ∧ b mod PAGE_SIZE = 0.
Proof.
  intros [Hb Ha]. pose proof hhdm_pos. pose proof hhdm_bound. pose proof hhdm_aligned as Hal.
  pose proof (Z.div_mod (b - hhdm_offset) PAGE_SIZE). pose proof (Z.div_mod hhdm_offset PAGE_SIZE) as Hd. rewrite Hal in Hd.
  split_and!; [lia|lia|]. symmetry. apply (Z.mod_unique _ _ ((b - hhdm_offset) / PAGE_SIZE + hhdm_offset / PAGE_SIZE)); lia.
Qed.

Lemma pages_apart b b' : page_ok b → page_ok b' → b ≠ b' → b + PAGE_SIZE ≤ b' ∨ b' + PAGE_SIZE ≤ b.
Proof. intros Hb Hb' Hne. destruct (node_apart _ _ Hb Hb'); lia. Qed.

Lemma page_vframe b x : page_ok b → vframe x = vframe b ↔ b ≤ x < b + PAGE_SIZE.
Proof.
  intros Hb. split.
  - intros Hx. apply (vframe_inv (b - hhdm_offset)) in Hx; [lia|done].
  - intros Hx. rewrite (vframe_node (b - hhdm_offset) x) by (done || lia). done.
Qed.

(** A slab's page, and nothing else, determines what it holds. *)
Lemma slab_rep_ext m m' z b l : z ∈ SLAB_SIZES →
  (∀ x, b ≤ x < b + 40 → m' x = m x) → (∀ a x, a ∈ l → a ≤ x < a + 8 → m' x = m x) →
  slab_rep m z b l → slab_rep m' z b l.
Proof.
  intros Hz Hh Ho [H1 H2 H3 H4 H5 H6 H7].
  unfold slab_base, slab_obj_size, slab_used, slab_capacity, slab_free in *.
  split; auto; unfold slab_base, slab_obj_size, slab_used, slab_capacity, slab_free;
  rewrite (load64_ext m) by (intros; apply Hh; lia); auto.
  eapply lchain_ext; [|done]. intros a x Ha Hx. apply (Ho a); [done|lia].
Qed.

Lemma free_pos z b l : z ∈ SLAB_SIZES → page_ok b → (∀ a, a ∈ l → a ∈ slots z b) → Forall (λ a, 0 < a) l.
Proof.
  intros Hz Hb Hs. apply Forall_forall. intros a Ha%Hs%slot_range; [|done]. apply page_bounds in Hb. lia.
Qed.

Lemma slots_length z b : z ∈ SLAB_SIZES → Z.of_nat (length (slots z b)) = cap z.
Proof. intros Hz. unfold slots. rewrite length_fmap, length_seqZ. destruct (size_facts z Hz) as (_&_&_&_&_&?&_). lia. Qed.

Lemma free_length z b l : z ∈ SLAB_SIZES → NoDup l → (∀ a, a ∈ l → a ∈ slots z b) → length l ≤ cap z ≤ 512.
Proof.
  intros Hz Hn Hs. rewrite <- (slots_length z b Hz) at 1. destruct (size_facts z Hz) as (?&_&_&?&_&_&?&_).
  split; [|nia]. apply inj_le, submseteq_length, NoDup_submseteq; [done|]. intros a. apply Hs.
Qed.

Lemma Slab_alloc_spec m z b a l : z ∈ SLAB_SIZES → page_ok b → slab_rep m z b (a :: l) →
  ∃ m', Slab_alloc m b = Ret (Some a, m') ∧ slab_rep m' z b l ∧ ∀ x, x < b + 16 ∨ b + 32 ≤ x → m' x = m x.
Proof.
  intros Hz Hb Hr. destruct (Hr) as [H1 H2 H3 H4 [E5 H5] H6 H7]. pose proof (free_length z b _ Hz H6 H7) as Hlen.
  assert (Ha : a ∈ slots z b) by (apply H7; by left). apply slot_range in Ha as Ha'; [|done].
  destruct (page_bounds b Hb) as (? & ? & _). rewrite length_cons in *. unfold Slab_alloc. rewrite E5.
  rewrite (proj2 (Z.eqb_neq a 0)) by lia. set (m1 := store64 m (b + 16) (load64 m a)).
  assert (E : slab_used m1 b = cap z - S (length l)).
  { unfold m1, slab_used. rewrite load_store64_other by lia. exact H3. }
  rewrite E, u64_add_ok by lia. exec_simpl. eexists. split; [done|].
  assert (Hm : ∀ x, x < b + 16 ∨ b + 32 ≤ x → store64 m1 (b + 24) (cap z - S (length l) + 1) x = m x).
  { intros x Hx. unfold m1. rewrite !store64_other by lia. done. }
  split; [|done]. unfold slab_base, slab_obj_size, slab_used, slab_capacity, slab_free in *.
  apply NoDup_cons in H6 as [_ H6].
  split; unfold slab_base, slab_obj_size, slab_used, slab_capacity, slab_free; auto.
  1-2,4: rewrite (load64_ext m) by (intros; apply Hm; lia); auto.
  - rewrite load_store64 by (unfold is_u64; lia). lia.
  - rewrite load_store64_other by lia. unfold m1. rewrite load_store64 by apply load64_bound.
    rewrite Z.add_0_r in H5. eapply lchain_ext; [|exact H5]. intros a' x Ha2 Hx. apply Hm.
    assert (a' ∈ slots z b) as Hs%slot_range by (apply H7; by right); [lia|done].
  - intros a' Ha2. apply H7. by right.
Qed.

Lemma Slab_dealloc_spec m z b a l : z ∈ SLAB_SIZES → page_ok b → slab_rep m z b l → a ∈ slots z b → a ∉ l →
  ∃ m', Slab_dealloc m b a = Ret m' ∧ slab_rep m' z b (a :: l) ∧
    ∀ x, x < b + 16 ∨ b + 32 ≤ x → x < a ∨ a + 8 ≤ x → m' x = m x.
Proof.
  intros Hz Hb Hr Ha Hn. destruct (Hr) as [H1 H2 H3 H4 H5 H6 H7].
  assert (Hnd : NoDup (a :: l)) by by apply NoDup_cons.
  assert (Hsl : ∀ a', a' ∈ a :: l → a' ∈ slots z b) by (intros a' [->|]%elem_of_cons; auto).
  pose proof (free_length z b _ Hz Hnd Hsl) as Hlen. rewrite length_cons in Hlen.
  destruct (slot_range z b a Hz Ha) as [Ha1 Ha2]. destruct (size_facts z Hz) as ([Hz8 _] & _).
  destruct (page_bounds b Hb) as (? & ? & _). unfold Slab_dealloc.
  set (m1 := store64 m a (slab_free m b)). set (m2 := store64 m1 (b + 16) a).
  assert (E : slab_used m2 b = cap z - length l).
  { unfold m2, m1, slab_used. rewrite !load_store64_other by lia. exact H3. }
  rewrite E, u64_sub_ok by lia. exec_simpl. eexists. split; [done|]. set (m3 := store64 m2 _ _).
  assert (Hm : ∀ x, x < b + 16 ∨ b + 32 ≤ x → x < a ∨ a + 8 ≤ x → m3 x = m x).
  { intros x Hx Hx'. unfold m3, m2, m1. rewrite !store64_other by lia. done. }
  split; [|done]. unfold slab_base, slab_obj_size, slab_used, slab_capacity, slab_free in *.
  split; unfold slab_base, slab_obj_size, slab_used, slab_capacity, slab_free; auto.
  1-2,4: rewrite (load64_ext m) by (intros; apply Hm; lia); auto.
  - unfold m3. rewrite load_store64 by (unfold is_u64; lia). rewrite length_cons. lia.
  - cbn [lchain]. unfold m3, m2. rewrite load_store64_other, load_store64 by (unfold is_u64; lia). split; [done|].
    rewrite Z.add_0_r, !load_store64_other by lia. unfold m1. rewrite load_store64 by apply load64_bound.
    eapply lchain_ext; [|exact H5]. fold m1 m2. intros a' x Ha' Hx. apply Hm.
    + assert (a' ∈ slots z b) as Hs%slot_range by auto; [lia|done].
    + destruct (slot_apart z b a a'); auto; [congruence|lia|lia].
Qed.

Lemma free_objs_spec (n : nat) m st z prev rest : 8 ≤ z → 0 < st → st + n * z < U64 → is_u64 prev →
  (∀ a, a ∈ rest → st + n * z ≤ a) → lchain 0 m prev rest →
  ∃ m' p, free_objs n m st z prev = (m', p) ∧ is_u64 p ∧
    lchain 0 m' p (((λ i, st + i * z) <$> seqZ 0 n) ++ rest) ∧ ∀ x, x < st ∨ st + n * z ≤ x → m' x = m x.
Proof.
  intros Hz Hst. revert m prev rest. induction n as [|n IH]; intros m prev rest Hn Hp Hrest Hc; cbn [free_objs].
  { exists m, prev. by split_and!. }
  set (obj := st + n * z). edestruct (IH (store64 m obj prev) obj (obj :: rest)) as (m' & p & E & Hp' & Hc' & Hm).
  - lia.
  - unfold is_u64, obj. lia.
  - intros a [->|Ha%Hrest]%elem_of_cons; unfold obj; lia.
  - cbn [lchain]. split; [done|]. rewrite Z.add_0_r, load_store64 by done. eapply lchain_ext; [|exact Hc].
    intros a x Ha%Hrest Hx. apply store64_other. unfold obj. lia.
  - exists m', p. split_and!; [done|done| |].
    + replace (Z.of_nat (S n)) with (n + 1) by lia. rewrite seqZ_app, fmap_app, <- app_assoc by lia. exact Hc'.
    + intros x Hx. rewrite Hm by lia. apply store64_other. unfold obj. lia.
Qed.

Lemma slots_nodup z b : z ∈ SLAB_SIZES → NoDup (slots z b).
Proof.
  intros Hz. apply NoDup_fmap_2_strong; [|apply NoDup_seqZ]. intros i j _ _ E. destruct (size_facts z Hz) as (?&_). nia.
Qed.

(** The header and the list of free objects that [Slab::new] writes. *)
Lemma slab_init_spec m z b : z ∈ SLAB_SIZES → page_ok b →
  let m1 := store64 (store64 (store64 (store64 (store64 (store64 m b b) (b + 8) z) (b + 16) 0) (b + 24) 0) (b + 32) (cap z)) (b + 40) 0 in
  ∃ m' p, free_objs (Z.to_nat (cap z)) m1 (b + hdr z) z 0 = (m', p) ∧
    slab_rep (store64 m' (b + 16) p) z b (slots z b) ∧
    ∀ x, x < b ∨ b + PAGE_SIZE ≤ x → store64 m' (b + 16) p x = m x.
Proof.
  intros Hz Hb m1. destruct (page_bounds b Hb) as (? & ? & _).
  destruct (size_facts z Hz) as (?&_&_&?&_&?&?&_).
  destruct (free_objs_spec (Z.to_nat (cap z)) m1 (b + hdr z) z 0 []) as (m' & p & E & Hp & Hc & Hm);
    [lia|lia|rewrite Z2Nat.id by lia; lia|done|by intros a ?%elem_of_nil|done|].
  rewrite Z2Nat.id in Hc, Hm by lia. rewrite app_nil_r in Hc. fold (slots z b) in Hc.
  exists m', p. split; [done|].
  assert (Hc8 : cap z ≤ 512) by nia.
  assert (Hhd : ∀ k, 0 ≤ k ≤ 40 → k ≠ 16 → k mod 8 = 0 → load64 (store64 m' (b + 16) p) (b + k) = load64 m1 (b + k)).
  { intros k Hk Hk' Hk8. pose proof (Z.div_mod k 8). rewrite load_store64_other by lia. apply load64_ext.
    intros x Hx. apply Hm. lia. }
  assert (Hc' : lchain 0 (store64 m' (b + 16) p) p (slots z b)).
  { eapply lchain_ext; [|exact Hc]. intros a x Ha%slot_range Hx; [|done]. apply store64_other. lia. }
  split.
  - split; unfold slab_base, slab_obj_size, slab_used, slab_capacity, slab_free.
    + pose proof (Hhd 0) as E0. rewrite Z.add_0_r in E0. rewrite E0 by done. unfold m1. rewrite !load_store64_other by lia.
      apply load_store64. unfold is_u64. lia.
    + rewrite Hhd by done. unfold m1. rewrite !load_store64_other by lia. apply load_store64. unfold is_u64. lia.
    + rewrite Hhd by done. unfold m1. rewrite !load_store64_other by lia. rewrite load_store64 by done.
      rewrite slots_length by done. lia.
    + rewrite Hhd by done. unfold m1. rewrite !load_store64_other by lia. apply load_store64. unfold is_u64. lia.
    + by rewrite load_store64 by done.
    + by apply slots_nodup.
    + done.
  - intros x Hx. rewrite store64_other, Hm by lia. unfold m1. rewrite !store64_other by lia. done.
Qed.

Lemma Slab_new_spec co s F z : z ∈ SLAB_SIZES → pmm_inv co s F →
  ∃ r s', Slab_new s z = Ret (r, s') ∧
    match r with
    | None => s' = s ∧ F = ∅
    | Some b => page_ok b ∧ vframe b ∈ F ∧ pmm_inv co s' (F ∖ {[vframe b]}) ∧
        slab_rep (ram s') z b (slots z b) ∧ agree_outside F (ram s) (ram s')
    end.
Proof.
  intros Hz HI. destruct (fa_alloc s F HI) as (r & s1 & E & Hr). unfold Slab_new. rewrite E. exec_simpl.
  destruct r as [p|]; [|by exists None, s1]. destruct Hr as (Hp & Hf & HI1 & _ & Hm).
  rewrite phys_to_virt_ok by (destruct Hp; lia). destruct (size_facts z Hz) as (?&_&_&?&_&?&?&Eup).
  exec_simpl. rewrite Eup. exec_simpl. rewrite u64_sub_ok by nia. exec_simpl. fold (cap z).
  assert (Hb : page_ok (p + hhdm_offset)) by (unfold page_ok; by rewrite Z.add_simpl_r).
  assert (Hv : vframe (p + hhdm_offset) = p / PAGE_SIZE) by (unfold vframe; by rewrite Z.add_simpl_r).
  destruct (slab_init_spec (ram s1) z _ Hz Hb) as (m' & hd & -> & Hrep & Hm'). eexists (Some _), _. split; [done|].
  rewrite Hv. split_and!; [done|done| |done|].
  - apply pmm_inv_frame; [done|]. intros x Hx. apply Hm'. 
    destruct (decide (p + hhdm_offset ≤ x < p + hhdm_offset + PAGE_SIZE)) as [Hin|]; [|lia].
    exfalso. rewrite (vframe_node p x) in Hx by done. set_solver.
  - intros x Hx. cbn [ram set_ram]. rewrite Hm'; [by apply Hm|].
    destruct (decide (p + hhdm_offset ≤ x < p + hhdm_offset + PAGE_SIZE)) as [Hin|]; [|lia].
    exfalso. by rewrite (vframe_node p x) in Hx by done.
Qed.

(** Unlinking a slab writes one [next] field, that of the slab before it. *)
Lemma slab_remove_spec fuel m hd cur l1 t l2 :
  NoDup (l1 ++ t :: l2) → Forall page_ok (l1 ++ t :: l2) →
  (∀ c, cur = LNext c → page_ok (c - 40) ∧ c - 40 ∉ l1 ++ t :: l2) →
  lchain 40 m (read_link m hd cur) (l1 ++ t :: l2) → (length l1 < fuel)%nat →
  ∃ m' hd', slab_remove fuel m hd cur t = Ret (m', hd') ∧ lchain 40 m' (read_link m' hd' cur) (l1 ++ l2) ∧
    (cur ≠ LHead → hd' = hd) ∧
    ∀ x, (∀ c, cur = LNext (c + 40) ∨ c ∈ l1 → x < c + 40 ∨ c + 48 ≤ x) → m' x = m x.
Proof.
  revert cur l1. induction fuel as [|fuel IH]; intros cur l1 Hnd Hok Hcur Hc Hf; [lia|]. cbn [slab_remove].
  destruct l1 as [|q l1]; cbn [app] in *.
  - destruct Hc as [-> Hc]. apply NoDup_cons in Hnd as [Hnd _]. apply Forall_cons in Hok as [Ht Hok].
    destruct (page_bounds t Ht) as [? _]. rewrite (proj2 (Z.eqb_neq t 0)) by lia. rewrite Z.eqb_refl.
    unfold slab_next. destruct cur as [|c]; cbn [write_link read_link].
    { exists m, (load64 m (t + 40)). by split_and!. }
    destruct (Hcur c eq_refl) as [Hpc Hnc]. exists (store64 m c (load64 m (t + 40))), hd. split_and!; [done| |done|].
    + rewrite load_store64 by apply load64_bound. eapply lchain_ext; [|exact Hc]. intros a x Ha Hx. apply store64_other.
      rewrite Forall_forall in Hok. destruct (pages_apart (c - 40) a); auto; [set_solver|lia|lia].
    + intros x Hx. apply store64_other. specialize (Hx (c - 40)). rewrite Z.sub_add in Hx. specialize (Hx ltac:(by left)). lia.
  - destruct Hc as [Eq Hc]. rewrite Eq. apply NoDup_cons in Hnd as [Hnq Hnd]. apply Forall_cons in Hok as [Hq Hok].
    destruct (page_bounds q Hq) as [? _]. rewrite (proj2 (Z.eqb_neq q 0)) by lia.
    rewrite (proj2 (Z.eqb_neq q t)) by set_solver.
    destruct (IH (LNext (q + 40)) l1) as (m' & hd' & E & Hc' & Hhd & Hm); auto.
    { intros c [= <-]. by rewrite Z.add_simpl_r. } { cbn [length] in Hf. lia. }
    exists m', hd'. split_and!; [done| |by intros _; apply Hhd|].
    + cbn [lchain app]. split; [|exact Hc']. rewrite <- Eq. rewrite Hhd by done.
      destruct cur as [|c]; cbn [read_link]; [done|]. apply load64_ext. intros x Hx. apply Hm.
      destruct (Hcur c eq_refl) as [Hpc Hnc]. rewrite Forall_forall in Hok. intros c' Hc2.
      assert (page_ok c' ∧ c' ∈ q :: l1 ++ t :: l2) as [Hp' Hin'].
      { destruct Hc2 as [[= E2]|Hin]; [replace c' with q by lia; split; [done|by left]|]. split; [apply Hok; set_solver|set_solver]. }
      destruct (pages_apart (c - 40) c'); auto; [set_solver|lia|lia].
    + intros x Hx. apply Hm. intros c Hc2. apply Hx. right. destruct Hc2 as [[= E2]|Hin]; [|by right].
      replace c with q by lia. by left.
Qed.

(** ** Representation of a cache

    [P] are the slabs of the partial list and [Q] those of the full list, each
    with its free objects. *)
Implicit Types (P Q S : list gslab).

Record cache_rep (m : mem) (z : Z) (c : SlabCache) P Q : Prop := {
  cr_size : obj_size c = z;
  cr_partial : lchain 40 m (partial c) P.*1;
  cr_full : lchain 40 m (full c) Q.*1;
  cr_P : ∀ b l, (b, l) ∈ P → slab_rep m z b l ∧ l ≠ [];
  cr_Q : ∀ b l, (b, l) ∈ Q → slab_rep m z b l ∧ l = [];
  cr_nodup : NoDup (P ++ Q).*1;
  cr_pages : ∀ b, b ∈ (P ++ Q).*1 → page_ok b
}.

(** The objects of the slabs [S] that are in use. *)
Definition live (z : Z) S (a : Z) : Prop := ∃ b l, (b, l) ∈ S ∧ a ∈ slots z b ∧ a ∉ l.

Lemma base_in S b l : (b, l) ∈ S → b ∈ S.*1.
Proof. intros H. by apply (list_elem_of_fmap_2 fst) in H. Qed.
#[local] Hint Resolve base_in : core.

Lemma base_unique S b l l' : NoDup S.*1 → (b, l) ∈ S → (b, l') ∈ S → l = l'.
Proof.
  intros Hnd H1 H2. apply list_elem_of_lookup in H1 as [i Hi]. apply list_elem_of_lookup in H2 as [j Hj].
  assert (i = j) as ->; [|congruence].
  apply (NoDup_lookup _ _ _ b Hnd); rewrite list_lookup_fmap; [by rewrite Hi|by rewrite Hj].
Qed.

(** The headers of the slabs and the links of the free objects determine the
    cache: memory of objects in use is not part of it. *)
Lemma cache_rep_ext m m' z c P Q : z ∈ SLAB_SIZES →
  (∀ b l x, (b, l) ∈ P ++ Q → b ≤ x < b + 48 ∨ (∃ a, a ∈ l ∧ a ≤ x < a + 8) → m' x = m x) →
  cache_rep m z c P Q → cache_rep m' z c P Q.
Proof.
  intros Hz Hm [H1 H2 H3 H4 H5 H6 H7].
  assert (Hl : ∀ b x, b ∈ (P ++ Q).*1 → b + 40 ≤ x < b + 40 + 8 → m' x = m x).
  { intros b x ([? l] & -> & Hin)%list_elem_of_fmap Hx. eapply Hm; [done|]. cbn in Hx. lia. }
  assert (Hs : ∀ b l, (b, l) ∈ P ++ Q → slab_rep m z b l → slab_rep m' z b l).
  { intros b l Hin. apply slab_rep_ext; [done| |].
    - intros x Hx. eapply Hm; [done|lia].
    - intros a x Ha Hx. eapply Hm; [done|]. right. by exists a. }
  split; auto.
  - eapply lchain_ext; [|done]. intros a x Ha. apply Hl. rewrite fmap_app. set_solver.
  - eapply lchain_ext; [|done]. intros a x Ha. apply Hl. rewrite fmap_app. set_solver.
  - intros b l Hin. destruct (H4 b l Hin). split; [|done]. apply Hs; [set_solver|done].
  - intros b l Hin. destruct (H5 b l Hin). split; [|done]. apply Hs; [set_solver|done].
Qed.

Lemma cache_slab m z c P Q b l : cache_rep m z c P Q → (b, l) ∈ P ++ Q → slab_rep m z b l ∧ page_ok b.
Proof.
  intros [_ _ _ H4 H5 _ H7] Hin. split; [|by apply H7; eauto].
  apply elem_of_app in Hin as [Hin|Hin]; [by apply H4|by apply H5].
Qed.

(** A change within pages that hold no slab of the cache. *)
Lemma cache_rep_pages m m' z c P Q : z ∈ SLAB_SIZES →
  (∀ b x, b ∈ (P ++ Q).*1 → b ≤ x < b + PAGE_SIZE → m' x = m x) → cache_rep m z c P Q → cache_rep m' z c P Q.
Proof.
  intros Hz Hm Hc. eapply cache_rep_ext; [done| |done]. intros b l x Hin Hx. eapply Hm; [by eauto|].
  destruct Hx as [|(a & Ha & Hx)]; [lia|]. destruct (cache_slab _ _ _ _ _ _ _ Hc Hin) as [Hs _].
  apply (sr_slots _ _ _ _ Hs) in Ha. apply slot_range in Ha; [|done]. destruct (size_facts z Hz) as (?&_). lia.
Qed.

Lemma full_iff m z b l : z ∈ SLAB_SIZES → slab_rep m z b l → is_full m b = true ↔ l = [].
Proof.
  intros Hz Hr. unfold is_full. rewrite (sr_used _ _ _ _ Hr), (sr_capacity _ _ _ _ Hr), Z.eqb_eq.
  destruct l as [|a l]; [cbn; split; [done|lia]|]. cbn [length]. split; [lia|done].
Qed.

Lemma live_take z b a l S S' : z ∈ SLAB_SIZES → NoDup (a :: l) → a ∈ slots z b → NoDup ((b, a :: l) :: S).*1 →
  (∀ b' , b' ∈ ((b, a :: l) :: S).*1 → page_ok b') → (b, l) :: S ≡ₚ S' →
  ¬ live z ((b, a :: l) :: S) a ∧ ∀ a', live z S' a' ↔ a' = a ∨ live z ((b, a :: l) :: S) a'.
Proof.
  intros Hz Hl Ha Hnd Hok Hp. unfold live. split.
  - intros (b' & l' & Hin & Ha' & Hn). assert (b' = b) as ->.
    { destruct (decide (b' = b)) as [->|Hne]; [done|]. destruct (pages_apart b b'); auto; [apply Hok; by left|by apply Hok; eauto|..];
      apply slot_range in Ha, Ha'; auto; destruct (size_facts z Hz) as (?&_); lia. }
    rewrite (base_unique _ _ _ (a :: l) Hnd Hin ltac:(by left)) in Hn. set_solver.
  - intros a'. setoid_rewrite <- Hp. split.
    + intros (b' & l' & [[= -> ->]|Hin]%elem_of_cons & Ha' & Hn); [|right; exists b', l'; split; [by right|done]].
      destruct (decide (a' = a)) as [->|]; [by left|]. right. exists b, (a :: l). split; [by left|]. split; [done|set_solver].
    + intros [->|(b' & l' & [[= -> ->]|Hin]%elem_of_cons & Ha' & Hn)].
      * exists b, l. split; [by left|]. split; [done|]. by apply NoDup_cons in Hl as [].
      * exists b, l. split; [by left|]. split; [done|set_solver].
      * exists b', l'. split; [by right|done].
Qed.

(** Rebuilding a cache after one slab [b] has changed: the other slabs are as
    they were, and their [next] fields too. *)
Lemma other_slab m m' z b b' l : z ∈ SLAB_SIZES → page_ok b → page_ok b' → b ≠ b' →
  (∀ x, x < b ∨ b + PAGE_SIZE ≤ x → m' x = m x) → slab_rep m z b' l → slab_rep m' z b' l.
Proof.
  intros Hz Hb Hb' Hne Hm Hr. destruct (size_facts z Hz) as (?&_).
  pose proof (pages_apart b b' Hb Hb' Hne) as Hap. apply (slab_rep_ext m); [done|..|done].
  - intros x Hx. apply Hm. lia.
  - intros a x Ha Hx. apply (sr_slots _ _ _ _ Hr) in Ha. apply slot_range in Ha; [|done]. apply Hm. lia.
Qed.

Lemma other_links m m' b ptr l : page_ok b → (∀ b', b' ∈ l → page_ok b' ∧ b ≠ b') →
  (∀ x, x < b ∨ b + PAGE_SIZE ≤ x → m' x = m x) → lchain 40 m ptr l → lchain 40 m' ptr l.
Proof.
  intros Hb Hl Hm. apply lchain_ext. intros b' x Hin Hx. apply Hm. destruct (Hl b' Hin) as [Hb' Hne].
  destruct (pages_apart b b' Hb Hb' Hne); lia.
Qed.

(** The branch of [SlabCache::alloc] on a partial slab. *)
Lemma cache_take fuel s z c b a l P Q : z ∈ SLAB_SIZES → cache_rep (ram s) z c ((b, a :: l) :: P) Q →
  ∃ m' c' P' Q', cache_alloc (S fuel) s c = Ret (Some a, set_ram s m', c') ∧ cache_rep m' z c' P' Q' ∧
    (b, l) :: P ++ Q ≡ₚ P' ++ Q' ∧ ∀ x, x < b ∨ b + 48 ≤ x → m' x = ram s x.
Proof.
  intros Hz Hc. destruct (Hc) as [H1 [Ep H2] H3 H4 H5 H6 H7]. cbn [fmap list_fmap fst app] in *. cbn [cache_alloc].
  assert (Hb : page_ok b) by (apply H7; by left). destruct (page_bounds b Hb) as [? _].
  destruct (Slab_alloc_spec (ram s) z b a l) as (m1 & E & Hr1 & Hm1); [done|done|by apply (H4 b); left|].
  rewrite Ep, (proj2 (Z.eqb_neq b 0)) by lia. cbn [negb]. rewrite E. exec_simpl.
  apply NoDup_cons in H6 as [Hnb H6]. rewrite fmap_app in Hnb.
  assert (Hoth : ∀ b', b' ∈ P.*1 ++ Q.*1 → page_ok b' ∧ b ≠ b').
  { intros b' Hin. rewrite <- fmap_app in *. split; [apply H7; by right|]. intros ->. done. }
  assert (Hnext : slab_next m1 b = load64 (ram s) (b + 40)) by (apply load64_ext; intros; apply Hm1; lia).
  destruct l as [|a2 l].
  - rewrite (proj2 (full_iff m1 z b [] Hz Hr1)) by done. rewrite Hnext. cbn [full set_partial].
    set (m2 := store64 m1 (b + 40) (full c)).
    assert (Hm2 : ∀ x, x < b ∨ b + 48 ≤ x → m2 x = ram s x).
    { intros x Hx. unfold m2. rewrite store64_other by lia. apply Hm1. lia. }
    assert (Hpg : ∀ x, x < b ∨ b + PAGE_SIZE ≤ x → m2 x = ram s x) by (intros; apply Hm2; lia).
    eexists m2, _, P, ((b, []) :: Q). split; [done|]. split_and!; [|by rewrite Permutation_middle|done].
    split; cbn [obj_size partial full set_partial set_full].
    + done.
    + apply (other_links (ram s) _ b); [done|intros b' Hin; apply Hoth; set_solver|done|done].
    + cbn [fmap list_fmap fst lchain]. split; [done|]. unfold m2 at 2. rewrite load_store64.
      * apply (other_links (ram s) _ b); [done|intros b' Hin; apply Hoth; set_solver|done|done].
      * destruct Q as [|[q lq] Q]; [cbn in H3; by rewrite H3|]. cbn in H3, Hoth. destruct H3 as [-> _].
        destruct (page_bounds q) as (?&?&_); [apply Hoth; set_solver|]. unfold is_u64. lia.
    + intros b' l' Hin. destruct (H4 b' l') as [Hr' Hne]; [by right|]. split; [|done].
      destruct (Hoth b'); [apply base_in in Hin; set_solver|]. by apply (other_slab (ram s) _ z b).
    + intros b' l' [[= -> ->]|Hin]%elem_of_cons.
      * split; [|done]. eapply slab_rep_ext; [done|..|exact Hr1]; [|by intros ? ? ?%elem_of_nil].
        intros x Hx. apply store64_other. lia.
      * destruct (H5 b' l' Hin) as [Hr' ->]. split; [|done].
        destruct (Hoth b'); [apply base_in in Hin; set_solver|]. by apply (other_slab (ram s) _ z b).
    + rewrite fmap_app. cbn. rewrite <- Permutation_middle. apply NoDup_cons. split; [done|by rewrite <- fmap_app].
    + intros b' Hin. rewrite fmap_app in Hin, H7. cbn in Hin. apply H7. set_solver.
  - assert (is_full m1 b = false) as ->.
    { apply not_true_iff_false. by intros ?%(full_iff m1 z b (a2 :: l) Hz Hr1). }
    assert (Hpg : ∀ x, x < b ∨ b + PAGE_SIZE ≤ x → m1 x = ram s x) by (intros; apply Hm1; lia).
    eexists m1, c, ((b, a2 :: l) :: P), Q. split; [done|]. split_and!; [|done|intros; apply Hm1; lia].
    split; cbn [fmap list_fmap fst app lchain]; auto.
    + split; [done|]. fold (slab_next m1 b). rewrite Hnext.
      apply (other_links (ram s) _ b); [done|intros b' Hin; apply Hoth; set_solver|done|done].
    + apply (other_links (ram s) _ b); [done|intros b' Hin; apply Hoth; set_solver|done|done].
    + intros b' l' [[= -> ->]|Hin]%elem_of_cons; [done|]. destruct (H4 b' l') as [Hr' Hne]; [by right|]. split; [|done].
      destruct (Hoth b'); [apply base_in in Hin; set_solver|]. by apply (other_slab (ram s) _ z b).
    + intros b' l' Hin. destruct (H5 b' l' Hin) as [Hr' ->]. split; [|done].
      destruct (Hoth b'); [apply base_in in Hin; set_solver|]. by apply (other_slab (ram s) _ z b).
    + apply NoDup_cons. rewrite fmap_app at 1. done.
Qed.

(** No slab lies in a free frame. *)
Definition off_free (F : gset Z) S : Prop := ∀ b, b ∈ S.*1 → vframe b ∉ F.

(** What taking the object [a] does to a cache, to the free frames and to
    memory. *)
Record taken co (s s' : mm) (F F' : gset Z) z (c' : SlabCache) S P' Q' a : Prop := {
  tk_inv : pmm_inv co s' F';
  tk_sub : F' ⊆ F;
  tk_rep : cache_rep (ram s') z c' P' Q';
  tk_off : off_free F' (P' ++ Q');
  tk_from : ∀ b, b ∈ (P' ++ Q').*1 → b ∈ S.*1 ∨ vframe b ∈ F;
  tk_new : ¬ live z S a;
  tk_live : ∀ a', live z (P' ++ Q') a' ↔ a' = a ∨ live z S a';
  tk_mem : ∀ x, vframe x ∉ F → (∀ b, b ∈ S.*1 → x < b ∨ b + 48 ≤ x) → ram s' x = ram s x;
  tk_one : ∃ f, F ∖ {[f]} ⊆ F'
}.

Lemma header_not_free co s F m b : pmm_inv co s F → page_ok b → vframe b ∉ F →
  (∀ x, x < b ∨ b + PAGE_SIZE ≤ x → m x = ram s x) → pmm_inv co (set_ram s m) F.
Proof.
  intros HI Hb Hf Hm. apply pmm_inv_frame; [done|]. intros x Hx. apply Hm.
  destruct (decide (b ≤ x < b + PAGE_SIZE)) as [Hin|]; [|lia]. exfalso. by rewrite (proj2 (page_vframe b x Hb) Hin) in Hx.
Qed.

Lemma cache_take_spec co fuel s F z c b a l P Q : z ∈ SLAB_SIZES → pmm_inv co s F →
  cache_rep (ram s) z c ((b, a :: l) :: P) Q → off_free F ((b, a :: l) :: P ++ Q) →
  ∃ s' c' P' Q', cache_alloc (Datatypes.S fuel) s c = Ret (Some a, s', c') ∧
    taken co s s' F F z c' ((b, a :: l) :: P ++ Q) P' Q' a.
Proof.
  intros Hz HI Hc Hoff. destruct (cache_take fuel s z c b a l P Q Hz Hc) as (m' & c' & P' & Q' & E & Hc' & Hp & Hm).
  exists (set_ram s m'), c', P', Q'. split; [done|]. destruct (cache_slab _ _ _ _ _ b (a :: l) Hc) as [Hr Hb]; [by left|].
  destruct (live_take z b a l (P ++ Q) (P' ++ Q') Hz) as [Hnew Hlive]; [apply Hr|apply Hr; by left|apply Hc|apply Hc|done|].
  assert (Hb' : ∀ b', b' ∈ (P' ++ Q').*1 → b' ∈ ((b, a :: l) :: P ++ Q).*1).
  { intros b'. rewrite <- Hp. done. }
  split; auto.
  - apply (header_not_free co s F m' b); [done|done|apply Hoff; by left|]. intros x Hx. apply Hm. lia.
  - intros b' Hin. apply Hoff. by apply Hb'.
  - intros x _ Hx. apply Hm. apply Hx. by left.
  - exists 0. set_solver.
Qed.

Lemma slab_link m z b l v : z ∈ SLAB_SIZES → slab_rep m z b l → slab_rep (store64 m (b + 40) v) z b l.
Proof.
  intros Hz Hr. apply (slab_rep_ext m); [done|..|done]; intros; apply store64_other; [lia|].
  assert (a ∈ slots z b) as Ha by by apply Hr. apply slot_range in Ha; [lia|done].
Qed.

Lemma cache_alloc_grow fuel s c : partial c = 0 →
  cache_alloc (Datatypes.S fuel) s c =
    ('(r, s) ← Slab_new s (obj_size c);
     match r with
     | None => Ret (None, s, c)
     | Some slab => cache_alloc fuel (set_ram s (store64 (ram s) (slab + 40) (partial c))) (set_partial c slab)
     end).
Proof. intros H. cbn [cache_alloc]. by rewrite H. Qed.

(** A new slab becomes the partial list of a cache that had none. *)
Lemma cache_grow co s s1 F z c Q b : z ∈ SLAB_SIZES → cache_rep (ram s) z c [] Q → off_free F Q →
  page_ok b → vframe b ∈ F → pmm_inv co s1 (F ∖ {[vframe b]}) → slab_rep (ram s1) z b (slots z b) →
  agree_outside F (ram s) (ram s1) →
  let s2 := set_ram s1 (store64 (ram s1) (b + 40) 0) in
  pmm_inv co s2 (F ∖ {[vframe b]}) ∧ cache_rep (ram s2) z (set_partial c b) [(b, slots z b)] Q ∧
  off_free (F ∖ {[vframe b]}) ((b, slots z b) :: Q) ∧ agree_outside F (ram s) (ram s2).
Proof.
  intros Hz Hc Hoff Hb Hf HI1 Hr1 Hm1 s2. destruct (Hc) as [_ _ _ _ _ _ H7]. cbn [app] in H7.
  assert (Hs2 : ∀ x, x < b ∨ b + PAGE_SIZE ≤ x → ram s2 x = ram s1 x) by (intros; apply store64_other; lia).
  assert (Hne : ∀ b', b' ∈ Q.*1 → b ≠ b') by (intros b' Hin ->; by apply (Hoff b')).
  assert (Ha2 : agree_outside F (ram s) (ram s2)).
  { intros x Hx. rewrite Hs2; [by apply Hm1|]. destruct (decide (b ≤ x < b + PAGE_SIZE)) as [Hin|]; [|lia].
    apply page_vframe in Hin; [congruence|done]. }
  assert (Hc0 : cache_rep (ram s2) z c [] Q).
  { apply (cache_rep_pages (ram s)); [done| |done]. intros b' x Hin Hx. apply Ha2.
    rewrite (proj2 (page_vframe b' x (H7 b' Hin)) Hx). by apply Hoff. }
  split_and!; [| | |done].
  - apply (header_not_free co s1 _ _ b); auto; set_solver.
  - destruct Hc0 as [K1 K2 K3 _ K5 K6 K7].
    split; cbn [fmap list_fmap fst app lchain obj_size partial full set_partial]; auto.
    + split; [done|]. unfold s2. cbn [ram set_ram]. by rewrite load_store64 by done.
    + intros b' l' [[= -> ->]|?%elem_of_nil]%elem_of_cons; [|done]. split; [by apply slab_link|].
      intros E. pose proof (slots_length z b Hz) as Hl. rewrite E in Hl.
      destruct (size_facts z Hz) as (_&_&_&_&_&?&_). cbn in Hl. lia.
    + apply NoDup_cons. split; [|done]. intros Hin. by apply (Hne b).
    + intros b' [->|Hin]%elem_of_cons; [done|by apply H7].
  - intros b' [->|Hin]%elem_of_cons; [set_solver|]. apply Hoff in Hin. set_solver.
Qed.

(** A new slab has no object in use. *)
Lemma live_fresh z b Q a : live z ((b, slots z b) :: Q) a ↔ live z Q a.
Proof.
  split; intros (b' & l' & Hin & Ha & Hn).
  - apply elem_of_cons in Hin as [[= -> ->]|Hin]; [done|]. by exists b', l'.
  - exists b', l'. split; [by right|done].
Qed.

Lemma taken_fresh co s s2 s' F z c' Q b P' Q' a : vframe b ∈ F → page_ok b → agree_outside F (ram s) (ram s2) →
  taken co s2 s' (F ∖ {[vframe b]}) (F ∖ {[vframe b]}) z c' ((b, slots z b) :: Q) P' Q' a →
  taken co s s' F (F ∖ {[vframe b]}) z c' Q P' Q' a.
Proof.
  intros Hf Hb Hm [H1 H2 H3 H4 H5 H6 H7 H8 _]. split; auto.
  - set_solver.
  - intros b' Hin. apply H5 in Hin as [[->|Hin]%elem_of_cons|Hin]; [by right|by left|]. right. set_solver.
  - by rewrite live_fresh in H6.
  - intros a'. rewrite H7. by rewrite live_fresh.
  - intros x Hx Hx'. rewrite H8, Hm; [done|done|set_solver|].
    intros b' [->|Hin]%elem_of_cons; [|by apply Hx']. cbn [fst].
    destruct (decide (b ≤ x < b + PAGE_SIZE)) as [Hin|]; [|lia]. apply page_vframe in Hin; [congruence|done].
  - by exists (vframe b).
Qed.

Lemma cache_alloc_spec co s F z c P Q : z ∈ SLAB_SIZES → pmm_inv co s F →
  cache_rep (ram s) z c P Q → off_free F (P ++ Q) →
  ∃ r s' c', cache_alloc 2 s c = Ret (r, s', c') ∧
    match r with
    | None => s' = s ∧ c' = c ∧ F = ∅ ∧ P = []
    | Some a => ∃ F' P' Q', taken co s s' F F' z c' (P ++ Q) P' Q' a
    end.
Proof.
  intros Hz HI Hc Hoff. destruct P as [|[b [|a l]] P].
  2:{ destruct (cr_P _ _ _ _ _ Hc b []) as [_ ?]; [by left|done]. }
  2:{ destruct (cache_take_spec co 1 s F z c b a l P Q) as (s' & c' & P' & Q' & E & Ht); auto.
      exists (Some a), s', c'. split; [done|]. by exists F, P', Q'. }
  pose proof (cr_partial _ _ _ _ _ Hc) as H2. cbn [fmap list_fmap lchain] in H2.
  rewrite cache_alloc_grow by done. rewrite (cr_size _ _ _ _ _ Hc), H2.
  destruct (Slab_new_spec co s F z Hz HI) as (r & s1 & E & Hr). rewrite E. exec_simpl.
  destruct r as [b|]; [|exists None, s1, c; by destruct Hr as [-> ->]].
  destruct Hr as (Hb & Hf & HI1 & Hr1 & Hm1). 
  destruct (cache_grow co s s1 F z c Q b) as (HI2 & Hc2 & Hoff2 & Hm2); auto. set (s2 := set_ram s1 _) in *.
  destruct (slots z b) as [|a l] eqn:El.
  { destruct (cr_P _ _ _ _ _ Hc2 b []) as [_ ?]; [by left|done]. }
  destruct (cache_take_spec co 0 s2 (F ∖ {[vframe b]}) z (set_partial c b) b a l [] Q) as (s' & c' & P' & Q' & E' & Ht); auto.
  rewrite E'. exists (Some a), s', c'. split; [done|]. exists (F ∖ {[vframe b]}), P', Q'.
  rewrite <- El in Ht. by eapply taken_fresh.
Qed.

(** ** Giving an object back *)

(** [m'] differs from [m] only in [next] fields of the slabs at [bs]. *)
Definition links_only (bs : list Z) (m m' : mem) : Prop :=
  ∀ x, (∀ b, b ∈ bs → x < b + 40 ∨ b + 48 ≤ x) → m' x = m x.

Lemma links_slab bs m m' z b l : z ∈ SLAB_SIZES → (∀ b', b' ∈ bs → page_ok b') → page_ok b →
  links_only bs m m' → slab_rep m z b l → slab_rep m' z b l.
Proof.
  intros Hz Hok Hb Hm Hr. assert (Hap : ∀ x, b ≤ x < b + 40 ∨ b + 48 ≤ x < b + PAGE_SIZE → m' x = m x).
  { intros x Hx. apply Hm. intros b' Hin. destruct (decide (b = b')) as [<-|Hne]; [lia|].
    destruct (pages_apart b b'); auto; lia. }
  apply (slab_rep_ext m); [done|..|done].
  - intros x Hx. apply Hap. lia.
  - intros a x Ha Hx. apply (sr_slots _ _ _ _ Hr) in Ha. apply slot_range in Ha; [|done].
    destruct (size_facts z Hz) as (?&_). apply Hap. lia.
Qed.

Lemma slab_of z b a : z ∈ SLAB_SIZES → page_ok b → a ∈ slots z b → Z.land a (u64_not (PAGE_SIZE - 1)) = b.
Proof.
  intros Hz Hb Ha. apply slot_range in Ha; [|done]. destruct (page_bounds b Hb) as (? & ? & Hmod).
  destruct (size_facts z Hz) as (?&_). change (PAGE_SIZE - 1) with (2 ^ 12 - 1).
  rewrite land_not_ones by (unfold is_u64; lia). change (2 ^ 12) with PAGE_SIZE.
  pose proof (Z.div_mod b PAGE_SIZE). assert (a mod PAGE_SIZE = a - b); [|lia].
  symmetry. apply (Z.mod_unique _ _ (b / PAGE_SIZE)); lia.
Qed.

(** [Slab::dealloc] on a slab of the cache: the lists and the other slabs stay. *)
Lemma cache_dealloc_slab m z c P Q b l a : z ∈ SLAB_SIZES → cache_rep m z c P Q →
  (b, l) ∈ P ++ Q → a ∈ slots z b → a ∉ l →
  ∃ m1, Slab_dealloc m b a = Ret m1 ∧ slab_rep m1 z b (a :: l) ∧
    lchain 40 m1 (partial c) P.*1 ∧ lchain 40 m1 (full c) Q.*1 ∧
    (∀ b' l', (b', l') ∈ P ++ Q → b' ≠ b → slab_rep m1 z b' l') ∧
    ∀ x, x < b + 16 ∨ b + 32 ≤ x → x < a ∨ a + 8 ≤ x → m1 x = m x.
Proof.
  intros Hz Hc Hin Ha Hn. destruct (cache_slab _ _ _ _ _ _ _ Hc Hin) as [Hr Hb].
  destruct (Slab_dealloc_spec m z b a l Hz Hb Hr Ha Hn) as (m1 & E & Hr1 & Hm). exists m1.
  apply slot_range in Ha as Ha'; [|done]. destruct (size_facts z Hz) as (?&_).
  assert (Hl : ∀ ptr bs, (∀ b', b' ∈ bs → b' ∈ (P ++ Q).*1) → lchain 40 m ptr bs → lchain 40 m1 ptr bs).
  { intros ptr bs Hbs. apply lchain_ext. intros b' x Hb' Hx. apply Hbs, (cr_pages _ _ _ _ _ Hc) in Hb'.
    destruct (decide (b = b')) as [<-|Hne]; [apply Hm; lia|]. destruct (pages_apart b b'); auto; apply Hm; lia. }
  split_and!; auto.
  - apply Hl; [|apply Hc]. intros b' Hb'. rewrite fmap_app. set_solver.
  - apply Hl; [|apply Hc]. intros b' Hb'. rewrite fmap_app. set_solver.
  - intros b' l' Hin' Hne. destruct (cache_slab _ _ _ _ _ _ _ Hc Hin') as [Hr' Hb'].
    apply (other_slab m _ z b); auto. intros x Hx. apply Hm; lia.
Qed.

(** Unlinking the slab [b] from the list [S1 ++ (b, l) :: S2]. *)
Lemma slab_unlink_spec fuel m hd S1 b l S2 : NoDup (S1 ++ (b, l) :: S2).*1 →
  (∀ b', b' ∈ (S1 ++ (b, l) :: S2).*1 → page_ok b') →
  lchain 40 m hd (S1 ++ (b, l) :: S2).*1 → (length S1 < fuel)%nat →
  ∃ m' hd', slab_remove fuel m hd LHead b = Ret (m', hd') ∧
    lchain 40 m' hd' (S1 ++ S2).*1 ∧ links_only S1.*1 m m'.
Proof.
  rewrite !fmap_app. cbn [fmap list_fmap fst]. intros Hnd Hok Hc Hf.
  destruct (slab_remove_spec fuel m hd LHead S1.*1 b S2.*1) as (m' & hd' & E & Hc' & _ & Hm); auto.
  { by apply Forall_forall. } { done. } { by rewrite length_fmap. }
  exists m', hd'. split_and!; [done|done|]. intros x Hx. apply Hm. intros c [[=]|Hin]. by apply Hx.
Qed.

(** What giving the object [a] back does. *)
Record given co (s s' : mm) (F F' : gset Z) z (c' : SlabCache) S P' Q' a : Prop := {
  gv_inv : pmm_inv co s' F';
  gv_sup : F ⊆ F';
  gv_frames : ∀ f, f ∈ F' → f ∈ F ∨ ∃ b, b ∈ S.*1 ∧ f = vframe b;
  gv_rep : cache_rep (ram s') z c' P' Q';
  gv_off : off_free F' (P' ++ Q');
  gv_from : ∀ b, b ∈ (P' ++ Q').*1 → b ∈ S.*1;
  gv_live : ∀ a', live z (P' ++ Q') a' ↔ live z S a' ∧ a' ≠ a;
  gv_mem : ∀ x, vframe x ∉ F' → (∀ b, b ∈ S.*1 → x < b ∨ b + 48 ≤ x) → x < a ∨ a + 8 ≤ x → ram s' x = ram s x
}.

Lemma live_give z b a l S S' : z ∈ SLAB_SIZES → a ∈ slots z b → NoDup ((b, l) :: S).*1 →
  (∀ b', b' ∈ ((b, l) :: S).*1 → page_ok b') → (b, a :: l) :: S ≡ₚ S' →
  ∀ a', live z S' a' ↔ live z ((b, l) :: S) a' ∧ a' ≠ a.
Proof.
  intros Hz Ha Hnd Hok Hp a'. unfold live. setoid_rewrite <- Hp. apply NoDup_cons in Hnd as [Hnb _]. split.
  - intros (b' & l' & [[= -> ->]|Hin]%elem_of_cons & Ha' & Hn).
    + split; [|set_solver]. exists b, l. split; [by left|]. split; [done|set_solver].
    + split; [exists b', l'; split; [by right|done]|]. intros ->.
      destruct (pages_apart b b'); [apply Hok; by left|apply Hok; right; by eauto|intros ->; by apply Hnb; eauto|..];
      apply slot_range in Ha, Ha'; auto; destruct (size_facts z Hz) as (?&_); lia.
  - intros ((b' & l' & [[= -> ->]|Hin]%elem_of_cons & Ha' & Hn) & Hne).
    + exists b, (a :: l). split; [by left|]. split; [done|set_solver].
    + exists b', l'. split; [by right|done].
Qed.

(** A slab all of whose objects are free has none in use. *)
Lemma live_gone z b l S : z ∈ SLAB_SIZES → NoDup l → (∀ a, a ∈ l → a ∈ slots z b) → Z.of_nat (length l) = cap z →
  ∀ a', live z ((b, l) :: S) a' ↔ live z S a'.
Proof.
  intros Hz Hnd Hsub Hlen a'. split.
  - intros (b' & l' & [[= -> ->]|Hin]%elem_of_cons & Ha' & Hn); [|by exists b', l'].
    destruct Hn. assert (Hp : l ≡ₚ slots z b).
    { apply submseteq_length_Permutation; [by apply NoDup_submseteq|]. pose proof (slots_length z b Hz). lia. }
    by rewrite Hp.
  - intros (b' & l' & Hin & Ha'). exists b', l'. split; [by right|done].
Qed.

Lemma links_store m b v : links_only [b] m (store64 m (b + 40) v).
Proof. intros x Hx. apply store64_other. specialize (Hx b ltac:(by left)). lia. Qed.

Lemma links_trans bs bs' m1 m2 m3 : links_only bs m1 m2 → links_only bs' m2 m3 → links_only (bs ++ bs') m1 m3.
Proof. intros H1 H2 x Hx. rewrite H2, H1; [done|..]; intros b Hin; apply Hx; set_solver. Qed.

Lemma links_chain bs m m' ptr l : (∀ b, b ∈ bs → page_ok b) → (∀ b, b ∈ l → page_ok b ∧ b ∉ bs) →
  links_only bs m m' → lchain 40 m ptr l → lchain 40 m' ptr l.
Proof.
  intros Hbs Hl Hm. apply lchain_ext. intros b x Hin Hx. apply Hm. intros b' Hin'. destruct (Hl b Hin) as [Hb Hn].
  destruct (pages_apart b b'); auto; [congruence|lia|lia].
Qed.

(** Writes within the pages of slabs keep the frame allocator. *)
Lemma pages_not_free co s F (bs : list Z) m : pmm_inv co s F → (∀ b, b ∈ bs → page_ok b ∧ vframe b ∉ F) →
  (∀ x, (∀ b, b ∈ bs → x < b ∨ b + PAGE_SIZE ≤ x) → m x = ram s x) → pmm_inv co (set_ram s m) F.
Proof.
  intros HI Hbs Hm. apply pmm_inv_frame; [done|]. intros x Hx. apply Hm. intros b Hin.
  destruct (Hbs b Hin) as [Hb Hf]. destruct (decide (b ≤ x < b + PAGE_SIZE)) as [Hi|]; [|lia].
  exfalso. by rewrite (proj2 (page_vframe b x Hb) Hi) in Hx.
Qed.

(** The cache after an object has been pushed on its slab's list and the slab
    lists have been relinked. *)
Lemma given_build co s m1 m3 F z c c' P Q P' Q' b l a S0 bs : z ∈ SLAB_SIZES → pmm_inv co s F →
  cache_rep (ram s) z c P Q → off_free F (P ++ Q) → P ++ Q ≡ₚ (b, l) :: S0 → (b, a :: l) :: S0 ≡ₚ P' ++ Q' →
  a ∈ slots z b → slab_rep m1 z b (a :: l) → (∀ b' l', (b', l') ∈ P ++ Q → b' ≠ b → slab_rep m1 z b' l') →
  (∀ x, x < b + 16 ∨ b + 32 ≤ x → x < a ∨ a + 8 ≤ x → m1 x = ram s x) →
  (∀ b', b' ∈ bs → b' ∈ (P ++ Q).*1) → links_only bs m1 m3 →
  obj_size c' = z → lchain 40 m3 (partial c') P'.*1 → lchain 40 m3 (full c') Q'.*1 →
  (∀ b' l', (b', l') ∈ P' → l' ≠ []) → (∀ b' l', (b', l') ∈ Q' → l' = []) →
  given co s (set_ram s m3) F F z c' (P ++ Q) P' Q' a.
Proof.
  intros Hz HI Hc Hoff Hp Hp' Ha Hr1 Hoth Hm1 Hbs Hl Hsz Hcp Hcf HneP HnilQ.
  pose proof (cr_nodup _ _ _ _ _ Hc) as Hnd. pose proof (cr_pages _ _ _ _ _ Hc) as Hok.
  destruct (slot_range z b a Hz Ha) as [Ha1 Ha2]. destruct (size_facts z Hz) as (Hz8&_).
  assert (Hbin : b ∈ (P ++ Q).*1) by (rewrite Hp; by left).
  assert (Hb' : ∀ b', b' ∈ (P' ++ Q').*1 ↔ b' ∈ (P ++ Q).*1) by (intros b'; by rewrite <- Hp', Hp).
  assert (Hm3 : ∀ x, (∀ b', b' ∈ (P ++ Q).*1 → x < b' ∨ b' + 48 ≤ x) → x < a ∨ a + 8 ≤ x → m3 x = ram s x).
  { intros x Hx Hxa. pose proof (Hx b Hbin). rewrite Hl; [apply Hm1; lia|]. intros b' Hin. apply Hbs, Hx in Hin. lia. }
  assert (Hrep : ∀ b' l', (b', l') ∈ P' ++ Q' → slab_rep m3 z b' l').
  { intros b' l' Hin. assert (Hbl := Hin). apply base_in, Hb' in Hbl.
    apply (links_slab bs m1); [done|by intros b2 ?%Hbs%Hok|by apply Hok|done|].
    rewrite <- Hp' in Hin. apply elem_of_cons in Hin as [[= -> ->]|Hin]; [done|]. apply Hoth; [rewrite Hp; by right|].
    intros ->. rewrite Hp in Hnd. cbn in Hnd. apply NoDup_cons in Hnd as [Hn _]. apply Hn. eauto. }
  split; auto.
  - apply (pages_not_free co s F (P ++ Q).*1 m3); [done|by intros b' Hin; split; [apply Hok|apply Hoff]|].
    intros x Hx. pose proof (Hx b Hbin). apply Hm3; [|lia]. intros b' Hin. pose proof (Hx b' Hin). lia.
  - split; auto; [intros b' l' Hin; split; [|by eapply HneP]|intros b' l' Hin; split; [|by eapply HnilQ]| |].
    + apply Hrep. set_solver.
    + apply Hrep. set_solver.
    + rewrite <- Hp'. rewrite Hp in Hnd. done.
    + intros b' Hin. by apply Hok, Hb'.
  - intros b' Hin. by apply Hoff, Hb'.
  - by apply Hb'.
  - intros a'. unfold live at 2. setoid_rewrite Hp. fold (live z ((b, l) :: S0) a'). apply live_give; auto.
    + rewrite Hp in Hnd. done.
    + intros b' Hin. apply Hok. by rewrite Hp.
Qed.

(** A slab of the full list gets its first free object and becomes partial. *)
Lemma give_full co fuel s F z c P Q1 b Q2 a : z ∈ SLAB_SIZES → pmm_inv co s F →
  cache_rep (ram s) z c P (Q1 ++ (b, []) :: Q2) → off_free F (P ++ Q1 ++ (b, []) :: Q2) → a ∈ slots z b →
  (length Q1 < fuel)%nat →
  ∃ s' c', cache_dealloc fuel s c a = Ret (s', c') ∧
    given co s s' F F z c' (P ++ Q1 ++ (b, []) :: Q2) ((b, [a]) :: P) (Q1 ++ Q2) a.
Proof.
  intros Hz HI Hc Hoff Ha Hf. set (Q := Q1 ++ (b, []) :: Q2) in *.
  assert (Hin : (b, []) ∈ P ++ Q) by (unfold Q; clear; set_solver). destruct (cache_slab _ _ _ _ _ _ _ Hc Hin) as [Hr Hb].
  assert (Hp : P ++ Q ≡ₚ (b, []) :: P ++ Q1 ++ Q2) by (unfold Q; solve_Permutation).
  pose proof (cr_nodup _ _ _ _ _ Hc) as Hnd. pose proof (cr_pages _ _ _ _ _ Hc) as Hok.
  destruct (cache_dealloc_slab (ram s) z c P Q b [] a Hz Hc Hin Ha) as (m1 & E1 & Hr1 & Hcp & Hcf & Hoth & Hm1);
    [by apply not_elem_of_nil|].
  rewrite fmap_app in Hnd, Hok. apply NoDup_app in Hnd as (_ & Hdis & HndQ).
  destruct (slab_unlink_spec fuel m1 (full c) Q1 b [] Q2) as (m2 & hd & E2 & Hcf2 & Hl2); auto.
  { intros b' Hin'. apply Hok, elem_of_app. by right. }
  set (m3 := store64 m2 (b + 40) (partial c)).
  pose proof (links_trans _ _ _ _ _ Hl2 (links_store m2 b (partial c))) as Hl3. fold m3 in Hl3.
  assert (HbsQ : ∀ b', b' ∈ Q1.*1 ++ [b] → b' ∈ Q.*1) by (intros b' Hb'; unfold Q; rewrite fmap_app; clear -Hb'; set_solver).
  exists (set_ram s m3), (set_partial (set_full c hd) b). split.
  { unfold cache_dealloc. rewrite (slab_of z b a) by done. rewrite (proj2 (full_iff (ram s) z b [] Hz Hr)) by done.
    rewrite E1. exec_simpl. rewrite E2. done. }
  eapply (given_build co s m1 m3 F z c _ P Q _ _ b [] a (P ++ Q1 ++ Q2) (Q1.*1 ++ [b])); auto.
  - intros b' Hb'. rewrite fmap_app. apply elem_of_app. right. by apply HbsQ.
  - apply Hc.
  - cbn [partial set_partial set_full fmap list_fmap fst lchain]. split; [done|]. unfold m3 at 2.
    rewrite load_store64.
    + apply (links_chain (Q1.*1 ++ [b]) m1); auto; intros b' Hb'; [apply Hok, elem_of_app; right; by apply HbsQ|].
      split; [apply Hok, elem_of_app; by left|]. intros Hb2. apply (Hdis b' Hb'), HbsQ, Hb2.
    + destruct P as [|[q lq] P]; [cbn in Hcp; by rewrite Hcp|]. cbn in Hcp, Hok. destruct Hcp as [-> _].
      destruct (page_bounds q) as (?&?&_); [apply Hok; by left|]. unfold is_u64. lia.
  - cbn [full set_partial set_full]. apply (links_chain [b] m2); auto.
    + intros b' ->%list_elem_of_singleton. done.
    + unfold Q in HndQ, Hok. rewrite fmap_app in HndQ, Hok |- *. cbn in HndQ, Hok.
      rewrite <- Permutation_middle in HndQ. apply NoDup_cons in HndQ as [Hnb _]. intros b' Hb'.
      split; [apply Hok; clear -Hb'; set_solver|]. intros ->%list_elem_of_singleton. done.
    + apply links_store.
  - intros b' l' [[= -> ->]|Hin']%elem_of_cons; [done|]. by apply (cr_P _ _ _ _ _ Hc) in Hin' as [_ ?].
  - intros b' l' Hin'. apply (cr_Q _ _ _ _ _ Hc b'). unfold Q. clear -Hin'. set_solver.
Qed.

(** A slab of the partial list gets one more free object and is not yet empty. *)
Lemma give_partial co fuel s F z c P1 b l P2 Q a : z ∈ SLAB_SIZES → pmm_inv co s F →
  cache_rep (ram s) z c (P1 ++ (b, l) :: P2) Q → off_free F ((P1 ++ (b, l) :: P2) ++ Q) →
  a ∈ slots z b → a ∉ l → Z.of_nat (length (a :: l)) ≠ cap z →
  ∃ s' c', cache_dealloc fuel s c a = Ret (s', c') ∧
    given co s s' F F z c' ((P1 ++ (b, l) :: P2) ++ Q) (P1 ++ (b, a :: l) :: P2) Q a.
Proof.
  intros Hz HI Hc Hoff Ha Hn Hlen. set (P := P1 ++ (b, l) :: P2) in *.
  assert (HinP : (b, l) ∈ P) by (unfold P; clear; set_solver).
  assert (Hin : (b, l) ∈ P ++ Q) by (apply elem_of_app; by left). destruct (cache_slab _ _ _ _ _ _ _ Hc Hin) as [Hr Hb].
  destruct (cr_P _ _ _ _ _ Hc b l HinP) as [_ Hne].
  destruct (cache_dealloc_slab (ram s) z c P Q b l a Hz Hc Hin Ha Hn) as (m1 & E1 & Hr1 & Hcp & Hcf & Hoth & Hm1).
  exists (set_ram s m1), c. split.
  { unfold cache_dealloc. rewrite (slab_of z b a) by done.
    assert (is_full (ram s) b = false) as -> by (apply not_true_iff_false; by intros ?%(full_iff _ z b l Hz Hr)).
    rewrite E1. exec_simpl. unfold is_empty. rewrite (sr_used _ _ _ _ Hr1), (proj2 (Z.eqb_neq _ 0)) by lia. done. }
  apply (given_build co s m1 m1 F z c _ P Q _ _ b l a (P1 ++ P2 ++ Q) []); auto.
  - unfold P. solve_Permutation.
  - solve_Permutation.
  - by intros b' ?%elem_of_nil.
  - done.
  - apply Hc.
  - unfold P in Hcp. by rewrite fmap_app in Hcp |- *.
  - intros b' l' Hin'. rewrite <- Permutation_middle in Hin'. apply elem_of_cons in Hin' as [[= -> ->]|Hin']; [done|].
    apply (cr_P _ _ _ _ _ Hc b'). unfold P. rewrite <- Permutation_middle. by right.
  - intros b' l' Hin'. by apply (cr_Q _ _ _ _ _ Hc b').
Qed.

Lemma vframe_inj b b' : page_ok b → page_ok b' → vframe b = vframe b' → b = b'.
Proof.
  intros Hb Hb' E. apply (page_vframe b' b Hb') in E. destruct (decide (b = b')) as [|Hne]; [done|].
  destruct (pages_apart b b' Hb Hb' Hne); lia.
Qed.

(** The cache without the slab [b], whose objects are all free. *)
Lemma drop_slab fuel m m1 z c P1 b l P2 Q : z ∈ SLAB_SIZES → cache_rep m z c (P1 ++ (b, l) :: P2) Q →
  lchain 40 m1 (partial c) (P1 ++ (b, l) :: P2).*1 → lchain 40 m1 (full c) Q.*1 →
  (∀ b' l', (b', l') ∈ (P1 ++ (b, l) :: P2) ++ Q → b' ≠ b → slab_rep m1 z b' l') → (length P1 < fuel)%nat →
  ∃ m2 hd, slab_remove fuel m1 (partial c) LHead b = Ret (m2, hd) ∧ links_only P1.*1 m1 m2 ∧
    cache_rep m2 z (set_partial c hd) (P1 ++ P2) Q.
Proof.
  intros Hz Hc Hcp Hcf Hoth Hf. set (P := P1 ++ (b, l) :: P2) in *.
  assert (Hp : P ++ Q ≡ₚ (b, l) :: (P1 ++ P2) ++ Q) by (unfold P; solve_Permutation).
  pose proof (cr_nodup _ _ _ _ _ Hc) as Hnd. pose proof (cr_pages _ _ _ _ _ Hc) as Hok.
  assert (HP1 : ∀ b', b' ∈ P1.*1 → b' ∈ P.*1) by (intros b' Hb'; unfold P; rewrite fmap_app; apply elem_of_app; by left).
  assert (HndP := Hnd). rewrite fmap_app in HndP. apply NoDup_app in HndP as (HndP & Hdis & _).
  assert (HokP : ∀ b', b' ∈ P.*1 → page_ok b') by (intros b' Hb'; apply Hok; rewrite fmap_app; apply elem_of_app; by left).
  destruct (slab_unlink_spec fuel m1 (partial c) P1 b l P2) as (m2 & hd & E2 & Hcp2 & Hl2); auto.
  exists m2, hd. split; [done|]. split; [done|].
  assert (Hin2 : ∀ x, x ∈ (P1 ++ P2) ++ Q → x ∈ P ++ Q) by (intros x Hx; rewrite Hp; by right).
  assert (Hrep : ∀ b' l', (b', l') ∈ (P1 ++ P2) ++ Q → slab_rep m2 z b' l').
  { intros b' l' Hin. apply (links_slab P1.*1 m1); [done|by intros ? ?%HP1%HokP| |done|].
    - apply Hok. by eapply base_in, Hin2.
    - apply Hoth; [by apply Hin2|]. intros ->. rewrite Hp in Hnd. cbn in Hnd. apply NoDup_cons in Hnd as [Hn _]. apply Hn. eauto. }
  split; cbn [obj_size partial full set_partial].
  - apply Hc.
  - done.
  - apply (links_chain P1.*1 m1); [by intros ? ?%HP1%HokP| |done|done]. intros b' Hb'.
    split; [apply Hok; rewrite fmap_app; apply elem_of_app; by right|]. intros Hb2. by apply (Hdis b'); [apply HP1|].
  - intros b' l' Hin. split; [apply Hrep, elem_of_app; by left|]. apply (cr_P _ _ _ _ _ Hc b').
    unfold P. rewrite <- Permutation_middle. by right.
  - intros b' l' Hin. split; [apply Hrep, elem_of_app; by right|]. by apply (cr_Q _ _ _ _ _ Hc b').
  - rewrite Hp in Hnd. by apply NoDup_cons in Hnd as [_ ?].
  - intros b' Hb'. apply Hok. rewrite Hp. by right.
Qed.

(** Once the frame of an emptied slab [b] has been freed. *)
Lemma given_freed co s m2 s' F z c' P Q b l P' a : z ∈ SLAB_SIZES →
  NoDup (P ++ Q).*1 → (∀ b', b' ∈ (P ++ Q).*1 → page_ok b') → off_free F (P ++ Q) → P ++ Q ≡ₚ (b, l) :: P' ++ Q →
  slab_rep m2 z b (a :: l) → Z.of_nat (length (a :: l)) = cap z → cache_rep m2 z c' P' Q →
  (∀ x, (∀ b', b' ∈ (P ++ Q).*1 → x < b' ∨ b' + 48 ≤ x) → x < a ∨ a + 8 ≤ x → m2 x = ram s x) →
  pmm_inv co s' (F ∪ {[vframe b]}) → agree_outside (F ∪ {[vframe b]}) m2 (ram s') →
  given co s s' F (F ∪ {[vframe b]}) z c' (P ++ Q) P' Q a.
Proof.
  intros Hz Hnd Hok Hoff Hp Hr Hlen Hc Hm2 HI Hm.
  assert (Hb : b ∈ (P ++ Q).*1) by (rewrite Hp; by left).
  assert (Hsub : ∀ b', b' ∈ (P' ++ Q).*1 → b' ∈ (P ++ Q).*1) by (intros b' Hin; rewrite Hp; by right).
  assert (Hnd' := Hnd). rewrite Hp in Hnd'. cbn in Hnd'. apply NoDup_cons in Hnd' as [Hnb _].
  assert (Hoff' : off_free (F ∪ {[vframe b]}) (P' ++ Q)).
  { intros b' Hin [Hf|Hf%elem_of_singleton]%elem_of_union; [by apply Hsub, Hoff in Hin|].
    apply vframe_inj in Hf; [|by apply Hok, Hsub|by apply Hok]. by subst b'. }
  split; auto.
  - clear. set_solver.
  - intros f [?| ->%elem_of_singleton]%elem_of_union; [by left|]. right. by exists b.
  - apply (cache_rep_pages m2); [done| |done]. intros b' x Hin Hx. apply Hm.
    rewrite (proj2 (page_vframe b' x (Hok b' (Hsub b' Hin))) Hx). by apply Hoff'.
  - intros a'. unfold live at 2. setoid_rewrite Hp. fold (live z ((b, l) :: P' ++ Q) a').
    rewrite <- (live_give z b a l (P' ++ Q) ((b, a :: l) :: P' ++ Q)); [|done|apply Hr; by left|by rewrite Hp in Hnd| |done].
    + symmetry. apply live_gone; [done|apply Hr|apply Hr|done].
    + intros b' Hin. apply Hok. by rewrite Hp.
  - intros x Hx Hx1 Hx2. rewrite Hm by done. by apply Hm2.
Qed.

(** A slab of the partial list gets its last object back: its frame is freed. *)
Lemma give_empty co fuel s F z c P1 b l P2 Q a : z ∈ SLAB_SIZES → pmm_inv co s F →
  cache_rep (ram s) z c (P1 ++ (b, l) :: P2) Q → off_free F ((P1 ++ (b, l) :: P2) ++ Q) →
  a ∈ slots z b → a ∉ l → Z.of_nat (length (a :: l)) = cap z → (length P1 < fuel)%nat →
  ∃ s' c', cache_dealloc fuel s c a = Ret (s', c') ∧
    given co s s' F (F ∪ {[vframe b]}) z c' ((P1 ++ (b, l) :: P2) ++ Q) (P1 ++ P2) Q a.
Proof.
  intros Hz HI Hc Hoff Ha Hn Hlen Hf. set (P := P1 ++ (b, l) :: P2) in *.
  assert (HinP : (b, l) ∈ P) by (unfold P; clear; set_solver).
  assert (Hin : (b, l) ∈ P ++ Q) by (apply elem_of_app; by left). destruct (cache_slab _ _ _ _ _ _ _ Hc Hin) as [Hr Hb].
  assert (Hp : P ++ Q ≡ₚ (b, l) :: (P1 ++ P2) ++ Q) by (unfold P; solve_Permutation).
  pose proof (cr_nodup _ _ _ _ _ Hc) as Hnd. pose proof (cr_pages _ _ _ _ _ Hc) as Hok.
  destruct (cr_P _ _ _ _ _ Hc b l HinP) as [_ Hne]. destruct (slot_range z b a Hz Ha) as [Ha1 Ha2]. destruct (size_facts z Hz) as (Hz8&_).
  destruct (cache_dealloc_slab (ram s) z c P Q b l a Hz Hc Hin Ha Hn) as (m1 & E1 & Hr1 & Hcp & Hcf & Hoth & Hm1).
  destruct (drop_slab fuel (ram s) m1 z c P1 b l P2 Q) as (m2 & hd & E2 & Hl2 & Hc2); auto.
  assert (HP1 : ∀ b', b' ∈ P1.*1 → b' ∈ (P ++ Q).*1).
  { intros b' Hb'. unfold P. rewrite !fmap_app, !elem_of_app. by left; left. }
  assert (Hm2 : ∀ x, (∀ b', b' ∈ (P ++ Q).*1 → x < b' ∨ b' + 48 ≤ x) → x < a ∨ a + 8 ≤ x → m2 x = ram s x).
  { intros x Hx Hxa. pose proof (Hx b ltac:(by eapply base_in)). rewrite Hl2; [apply Hm1; lia|]. intros b' Hin'. apply HP1, Hx in Hin'. lia. }
  assert (HI2 : pmm_inv co (set_ram s m2) F).
  { apply (pages_not_free co s F (P ++ Q).*1 m2); [done|by intros b' Hin'; split; [apply Hok|apply Hoff]|].
    intros x Hx. pose proof (Hx b ltac:(by eapply base_in)). apply Hm2; [|lia]. intros b' Hin'. pose proof (Hx b' Hin'). lia. }
  assert (Hb2 : slab_rep m2 z b (a :: l)) by (apply (links_slab P1.*1 m1); auto; intros; by apply Hok, HP1).
  destruct (fa_free (set_ram s m2) F (b - hhdm_offset) HI2 Hb) as (s' & E3 & HI3 & Hm3).
  { apply Hoff. by eapply base_in. }
  change ((b - hhdm_offset) / PAGE_SIZE) with (vframe b) in HI3, Hm3. cbn [ram set_ram] in Hm3.
  exists s', (set_partial c hd). split.
  { unfold cache_dealloc. rewrite (slab_of z b a) by done.
    assert (is_full (ram s) b = false) as -> by (apply not_true_iff_false; by intros ?%(full_iff _ z b l Hz Hr)).
    rewrite E1. exec_simpl. unfold is_empty. rewrite (sr_used _ _ _ _ Hr1), Hlen, Z.sub_diag. cbn [Z.eqb]. rewrite E2. exec_simpl.
    rewrite (sr_base _ _ _ _ Hb2). unfold virt_to_phys. destruct Hb as [Hb _]. rewrite u64_sub_ok by lia. exec_simpl.
    rewrite E3. done. }
  by apply (given_freed co s m2 s' F z _ P Q b l).
Qed.

Lemma cache_dealloc_spec co fuel s F z c P Q a : z ∈ SLAB_SIZES → pmm_inv co s F →
  cache_rep (ram s) z c P Q → off_free F (P ++ Q) → live z (P ++ Q) a → (length (P ++ Q) < fuel)%nat →
  ∃ s' c' F' P' Q', cache_dealloc fuel s c a = Ret (s', c') ∧ given co s s' F F' z c' (P ++ Q) P' Q' a.
Proof.
  intros Hz HI Hc Hoff (b & l & Hin & Ha & Hn) Hf. rewrite length_app in Hf.
  apply elem_of_app in Hin as [Hin|Hin].
  - destruct (list_elem_of_split _ _ Hin) as (P1 & P2 & ->). rewrite length_app in Hf.
    destruct (decide (Z.of_nat (length (a :: l)) = cap z)) as [E|E].
    + destruct (give_empty co fuel s F z c P1 b l P2 Q a) as (s' & c' & H1 & H2); auto; [lia|]. eauto 8.
    + destruct (give_partial co fuel s F z c P1 b l P2 Q a) as (s' & c' & H1 & H2); auto. eauto 8.
  - destruct (cr_Q _ _ _ _ _ Hc b l Hin) as [_ ->]. destruct (list_elem_of_split _ _ Hin) as (Q1 & Q2 & ->).
    rewrite length_app in Hf. destruct (give_full co fuel s F z c P Q1 b Q2 a) as (s' & c' & H1 & H2); auto; [lia|]. eauto 8.
Qed.
End Slab.
#[export] Hint Resolve base_in : core.
