(* ===== verification/Heap.v ===== *)
(** The global allocator of the kernel heap ([src/src/mm/heap.rs]): small layouts
    are served from the slab caches, large ones from the frame allocator. *)
From S2P Require Import Prelude Machine Pmm Slab.

Section Heap.
Context {hh : Hhdm}.

(** ** The global allocator *)
Record heap := { hmm : mm; caches : list SlabCache }.

(** [KernelAllocator::new] *)
Definition KernelAllocator_new : list SlabCache := SlabCache_new <$> SLAB_SIZES.

(** [find_cache]: the index of the cache. *)
Definition find_cache (cs : list SlabCache) (size align : Z) : option nat :=
  let need := Z.max size align in
  fst <$> list_find (λ c, need ≤ obj_size c) cs.

(** [usize::next_power_of_two] and [usize::leading_zeros] *)
Definition next_power_of_two (n : Z) : Z := 2 ^ Z.log2_up n.
Definition leading_zeros (n : Z) : Z := if n =? 0 then 64 else 63 - Z.log2 n.

(** The order of the block for a large layout. *)
Definition large_order (size : Z) : exec Z :=
  up ← align_up size PAGE_SIZE;
  let pages := up / PAGE_SIZE in
  x ← u64_sub 64 (leading_zeros (next_power_of_two pages));
  u64_sub x 1.

(** [core::alloc::Layout] *)
Record Layout := { size_ : Z; align : Z }.

Definition heap_alloc (h : heap) (l : Layout) : exec (Z * heap) :=
  if size_ l =? 0 then Ret (align l, h) else
  let large :=
    order ← large_order (size_ l);
    '(r, s) ← alloc_frames (hmm h) (Z.to_nat order);
    match r with
    | Some phys =>
        virt ← phys_to_virt phys;
        len ← u64_mul (Z.shiftl 1 order) PAGE_SIZE;
        Ret (virt, {| hmm := set_ram s (mem_fill (ram s) virt len 0); caches := caches h |})
    | None => Ret (0, {| hmm := s; caches := caches h |})
    end in
  if (size_ l <=? 2048) && (align l <=? 2048) then
    match find_cache (caches h) (size_ l) (align l) with
    | Some i =>
        c ← expect (caches h !! i);
        '(r, s, c) ← cache_alloc 2 (hmm h) c;
        Ret (default 0 r, {| hmm := s; caches := <[i := c]> (caches h) |})
    | None => large
    end
  else large.

Definition heap_dealloc (fuel : nat) (h : heap) (ptr : Z) (l : Layout) : exec heap :=
  if (ptr =? 0) || (size_ l =? 0) then Ret h else
  let large :=
    order ← large_order (size_ l);
    phys ← virt_to_phys ptr;
    s ← free_frames (hmm h) phys (Z.to_nat order);
    Ret {| hmm := s; caches := caches h |} in
  if (size_ l <=? 2048) && (align l <=? 2048) then
    match find_cache (caches h) (size_ l) (align l) with
    | Some i =>
        c ← expect (caches h !! i);
        '(s, c) ← cache_dealloc fuel (hmm h) c ptr;
        Ret {| hmm := s; caches := <[i := c]> (caches h) |}
    | None => large
    end
  else large.

(** [Layout::from_size_align] refuses a size that passes [isize::MAX] when it is
    rounded up to the alignment. *)
Definition from_size_align (size a : Z) : option Layout :=
  if size <=? 2 ^ 63 - 1 - (a - 1) then Some {| size_ := size; align := a |} else None.

Definition heap_realloc (fuel : nat) (h : heap) (ptr : Z) (l : Layout) (new_size : Z) : exec (Z * heap) :=
  new_layout ← expect (from_size_align new_size (align l));
  '(new_ptr, h) ← heap_alloc h new_layout;
  if new_ptr =? 0 then Ret (new_ptr, h) else
  let copy_size := Z.min (size_ l) new_size in
  let s := hmm h in
  let h := {| hmm := set_ram s (mem_copy (ram s) ptr new_ptr copy_size); caches := caches h |} in
  h ← heap_dealloc fuel h ptr l;
  Ret (new_ptr, h).

(** ** The heap *)

(** [F] are the free frames and [B] frames that others hold, large blocks of the
    heap among them. [G z] are the slabs of each size [z], and [L] the objects in
    use, each with the size of its slab. *)
Definition slabs (G : Z → list gslab * list gslab) (z : Z) : list gslab := (G z).1 ++ (G z).2.

Record heap_rep (co : bool) (h : heap) (F B : gset Z) (L : gset (Z * Z)) (G : Z → list gslab * list gslab) : Prop := {
  hr_pmm : pmm_inv co (hmm h) F;
  hr_sizes : obj_size <$> caches h = SLAB_SIZES;
  hr_cache : ∀ i c, caches h !! i = Some c → cache_rep (ram (hmm h)) (obj_size c) c (G (obj_size c)).1 (G (obj_size c)).2;
  hr_off : ∀ z, z ∈ SLAB_SIZES → off_free F (slabs G z);
  hr_held : ∀ z, z ∈ SLAB_SIZES → off_free B (slabs G z);
  hr_disj : F ## B;
  hr_apart : ∀ z z' b, z ∈ SLAB_SIZES → z' ∈ SLAB_SIZES → b ∈ (slabs G z).*1 → b ∈ (slabs G z').*1 → z = z';
  hr_live : ∀ z a, (z, a) ∈ L ↔ z ∈ SLAB_SIZES ∧ live z (slabs G z) a
}.

Definition heap_inv co h F B L : Prop := ∃ G, heap_rep co h F B L G.

Lemma heap_size co h F B L G i c : heap_rep co h F B L G → caches h !! i = Some c → obj_size c ∈ SLAB_SIZES.
Proof. intros HR Hc. rewrite <- (hr_sizes _ _ _ _ _ _ HR). by apply (list_elem_of_fmap_2 obj_size), (list_elem_of_lookup_2 _ i). Qed.

Lemma heap_cache co h F B L G z : heap_rep co h F B L G → z ∈ SLAB_SIZES →
  ∃ i c, caches h !! i = Some c ∧ obj_size c = z ∧ cache_rep (ram (hmm h)) z c (G z).1 (G z).2.
Proof.
  intros HR Hz. rewrite <- (hr_sizes _ _ _ _ _ _ HR) in Hz. apply list_elem_of_fmap in Hz as (c & -> & Hin).
  apply list_elem_of_lookup in Hin as [i Hi]. exists i, c. split_and!; [done|done|]. by eapply hr_cache.
Qed.

Lemma heap_page co h F B L G z b : heap_rep co h F B L G → z ∈ SLAB_SIZES → b ∈ (slabs G z).*1 → page_ok b.
Proof. intros HR Hz. destruct (heap_cache _ _ _ _ _ _ z HR Hz) as (i & c & _ & _ & Hc). apply Hc. Qed.

(** Objects in use lie in slabs, not in free frames, and do not overlap. *)
Lemma heap_object co h F B L z a : heap_inv co h F B L → (z, a) ∈ L →
  z ∈ SLAB_SIZES ∧ a mod z = 0 ∧ 0 < a ∧ a + z < U64 ∧ ∀ x, a ≤ x < a + z → vframe x ∉ F.
Proof.
  intros [G HR] Hin. apply (hr_live _ _ _ _ _ _ HR) in Hin as [Hz (b & l & Hbl & Ha & _)].
  assert (Hb : page_ok b) by (eapply (heap_page _ _ _ _ _ _ z); eauto).
  destruct (page_bounds b Hb) as (? & ? & Hal). destruct (slot_range z b a Hz Ha). split_and!; [done| |lia|lia|].
  - by apply (slot_aligned z b).
  - intros x Hx. rewrite (proj2 (page_vframe b x Hb)) by lia. apply (hr_off _ _ _ _ _ _ HR z Hz). eauto.
Qed.

Lemma heap_disjoint co h F B L z a z' a' : heap_inv co h F B L → (z, a) ∈ L → (z', a') ∈ L → (z, a) ≠ (z', a') →
  a + z ≤ a' ∨ a' + z' ≤ a.
Proof.
  intros [G HR] Hin Hin' Hne. apply (hr_live _ _ _ _ _ _ HR) in Hin as [Hz (b & l & Hbl & Ha & _)].
  apply (hr_live _ _ _ _ _ _ HR) in Hin' as [Hz' (b' & l' & Hbl' & Ha' & _)].
  destruct (slot_range z b a Hz Ha), (slot_range z' b' a' Hz' Ha').
  destruct (decide (b = b')) as [<-|Hb].
  - assert (z = z') as <- by (eapply (hr_apart _ _ _ _ _ _ HR); eauto). destruct (slot_apart z b a a'); auto. congruence.
  - destruct (pages_apart b b'); [eapply (heap_page _ _ _ _ _ _ z)|eapply (heap_page _ _ _ _ _ _ z')|..]; eauto; lia.
Qed.

Lemma header_apart co h F B L G z a z' b : heap_rep co h F B L G → (z, a) ∈ L → z' ∈ SLAB_SIZES → b ∈ (slabs G z').*1 →
  ∀ x, a ≤ x < a + z → x < b ∨ b + 48 ≤ x.
Proof.
  intros HR Hin Hz' Hb x Hx. apply (hr_live _ _ _ _ _ _ HR) in Hin as [Hz (b' & l & Hbl & Ha & _)].
  destruct (slot_range z b' a Hz Ha). destruct (decide (b = b')) as [<-|Hne]; [lia|].
  destruct (pages_apart b b'); [eapply (heap_page _ _ _ _ _ _ z')|eapply (heap_page _ _ _ _ _ _ z)|..]; eauto; lia.
Qed.

(** The size of the objects that serve a request of [need] bytes. *)
Definition size_class (need : Z) : option Z := snd <$> list_find (λ z, need ≤ z) SLAB_SIZES.

Lemma find_cache_spec co h F B L G size al : heap_rep co h F B L G → Z.max size al ≤ 2048 →
  ∃ i c, find_cache (caches h) size al = Some i ∧ caches h !! i = Some c ∧
    size_class (Z.max size al) = Some (obj_size c) ∧ Z.max size al ≤ obj_size c.
Proof.
  intros HR Hn. set (need := Z.max size al) in *. unfold find_cache, size_class. fold need.
  rewrite <- (hr_sizes _ _ _ _ _ _ HR), list_find_fmap. unfold compose.
  destruct (list_find (λ c, need ≤ obj_size c) (caches h)) as [[i c]|] eqn:E.
  - apply list_find_Some in E as (Hi & Hc & _). by exists i, c.
  - destruct (heap_cache _ _ _ _ _ _ 2048 HR) as (i & c & Hi & Hz & _); [by vm_compute; set_solver|].
    apply list_find_None in E. rewrite Forall_lookup in E. specialize (E i c Hi). cbn in E. lia.
Qed.

Lemma sizes_nodup : NoDup SLAB_SIZES.
Proof. by apply (bool_decide_unpack _). Qed.

Lemma cache_index co h F B L G i j c c' : heap_rep co h F B L G → caches h !! i = Some c → caches h !! j = Some c' →
  obj_size c = obj_size c' → i = j.
Proof.
  intros HR Hi Hj E. apply (NoDup_lookup _ _ _ (obj_size c) sizes_nodup);
  rewrite <- (hr_sizes _ _ _ _ _ _ HR), list_lookup_fmap; [by rewrite Hi|by rewrite Hj, E].
Qed.

(** Replacing one cache and its slabs. *)
Definition set_slabs (G : Z → list gslab * list gslab) z P Q (y : Z) := if decide (y = z) then (P, Q) else G y.

Lemma heap_update co h s' F F' B L L' G i c c' P' Q' : heap_rep co h F B L G → caches h !! i = Some c →
  pmm_inv co s' F' → cache_rep (ram s') (obj_size c) c' P' Q' → off_free F' (P' ++ Q') →
  off_free B (P' ++ Q') → F' ## B →
  (∀ z b, z ∈ SLAB_SIZES → z ≠ obj_size c → b ∈ (slabs G z).*1 →
     vframe b ∉ F' ∧ b ∉ (P' ++ Q').*1 ∧ ∀ x, b ≤ x < b + PAGE_SIZE → ram s' x = ram (hmm h) x) →
  (∀ z a, (z, a) ∈ L' ↔ if decide (z = obj_size c) then live z (P' ++ Q') a else (z, a) ∈ L) →
  heap_rep co {| hmm := s'; caches := <[i := c']> (caches h) |} F' B L' (set_slabs G (obj_size c) P' Q').
Proof.
  intros HR Hi HI Hc Hoff HB HFB Hoth HL. assert (Hz := heap_size _ _ _ _ _ _ _ _ HR Hi).
  assert (Es : ∀ z, slabs (set_slabs G (obj_size c) P' Q') z = if decide (z = obj_size c) then P' ++ Q' else slabs G z).
  { intros z. unfold slabs, set_slabs. by destruct (decide _). }
  pose proof (cr_size _ _ _ _ _ Hc) as Ec. split; cbn [hmm caches]; auto.
  - rewrite list_fmap_insert, Ec, list_insert_id; [apply HR|]. by rewrite list_lookup_fmap, Hi.
  - intros j cj Hj. destruct (decide (i = j)) as [<-|Hne].
    + rewrite list_lookup_insert_eq in Hj by (by eapply lookup_lt_Some). injection Hj as <-.
      unfold set_slabs. by rewrite Ec, decide_True by done.
    + rewrite list_lookup_insert_ne in Hj by done. assert (obj_size cj ≠ obj_size c).
      { intros E. apply Hne. symmetry. by eapply cache_index. }
      unfold set_slabs. rewrite decide_False by done. assert (Hzj := heap_size _ _ _ _ _ _ _ _ HR Hj).
      apply (cache_rep_pages (ram (hmm h))); [done| |by apply (hr_cache _ _ _ _ _ _ HR j)].
      intros b x Hb. by apply (Hoth (obj_size cj)).
  - intros z Hz'. rewrite Es. destruct (decide _); [done|]. intros b Hb. by apply (Hoth z).
  - intros z Hz'. rewrite Es. destruct (decide _); [done|]. by apply (hr_held _ _ _ _ _ _ HR).
  - intros z z' b Hz1 Hz2. rewrite !Es. destruct (decide (z = _)) as [->|Hn], (decide (z' = _)) as [->|Hn']; [done|..].
    + intros Hb Hb'. by destruct (Hoth z' b) as (_ & ? & _).
    + intros Hb Hb'. by destruct (Hoth z b) as (_ & ? & _).
    + by apply (hr_apart _ _ _ _ _ _ HR).
  - intros z a. rewrite HL, Es. destruct (decide _) as [->|]; [tauto|apply HR].
Qed.

(** The bytes of the objects [L] are the same in [m'] as in [m]. *)
Definition same_objects (L : gset (Z * Z)) (m m' : mem) : Prop :=
  ∀ z a x, (z, a) ∈ L → a ≤ x < a + z → m' x = m x.

(** A page of another cache is not touched by what happens to one cache. *)
Lemma other_page co h F B L G z z' b x : heap_rep co h F B L G → z ∈ SLAB_SIZES → z' ∈ SLAB_SIZES → z ≠ z' →
  b ∈ (slabs G z).*1 → b ≤ x < b + PAGE_SIZE → ∀ b', b' ∈ (slabs G z').*1 → x < b' ∨ b' + PAGE_SIZE ≤ x.
Proof.
  intros HR Hz Hz' Hne Hb Hx b' Hb'. destruct (pages_apart b b'); [eapply (heap_page _ _ _ _ _ _ z)|eapply (heap_page _ _ _ _ _ _ z')|..]; eauto; [|lia|lia].
  intros ->. apply Hne. by eapply (hr_apart _ _ _ _ _ _ HR).
Qed.

(** The memory of the frames [B] is the same in [m'] as in [m]. *)
Definition same_frames (B : gset Z) (m m' : mem) : Prop := ∀ x, vframe x ∈ B → m' x = m x.

(** A frame that others hold is not touched by what happens to one cache. *)
Lemma held_page co h F B L G z x : heap_rep co h F B L G → z ∈ SLAB_SIZES → vframe x ∈ B →
  vframe x ∉ F ∧ ∀ b, b ∈ (slabs G z).*1 → x < b ∨ b + PAGE_SIZE ≤ x.
Proof.
  intros HR Hz Hx. split; [intros Hf; by apply (hr_disj _ _ _ _ _ _ HR (vframe x))|]. intros b Hb.
  destruct (decide (b ≤ x < b + PAGE_SIZE)) as [Hin|]; [|lia]. exfalso. apply (hr_held _ _ _ _ _ _ HR z Hz b Hb).
  by rewrite <- (proj2 (page_vframe b x (heap_page _ _ _ _ _ _ _ _ HR Hz Hb)) Hin).
Qed.

Lemma heap_take co h F B L i c : heap_inv co h F B L → caches h !! i = Some c →
  ∃ r s' c', cache_alloc 2 (hmm h) c = Ret (r, s', c') ∧
    match r with
    | None => s' = hmm h ∧ c' = c ∧ F = ∅
    | Some a => ∃ F', F' ⊆ F ∧ (∃ f, F ∖ {[f]} ⊆ F') ∧ (obj_size c, a) ∉ L ∧ same_objects L (ram (hmm h)) (ram s') ∧
        same_frames B (ram (hmm h)) (ram s') ∧ heap_inv co {| hmm := s'; caches := <[i := c']> (caches h) |} F' B ({[(obj_size c, a)]} ∪ L)
    end.
Proof.
  intros [G HR] Hi. assert (Hz := heap_size _ _ _ _ _ _ _ _ HR Hi). set (z := obj_size c) in *.
  destruct (cache_alloc_spec co (hmm h) F z c (G z).1 (G z).2) as (r & s' & c' & E & Hr);
    [done|apply HR|by eapply hr_cache|by apply (hr_off _ _ _ _ _ _ HR)|].
  exists r, s', c'. split; [done|]. destruct r as [a|]; [|by destruct Hr as (?&?&?&_)].
  destruct Hr as (F' & P' & Q' & Ht). fold (slabs G z) in Ht. exists F'. split_and!; [apply Ht|apply Ht| | | |].
  - rewrite (hr_live _ _ _ _ _ _ HR). intros [_ Hl]. by apply (tk_new _ _ _ _ _ _ _ _ _ _ _ Ht).
  - intros z' a' x Hin Hx. apply (tk_mem _ _ _ _ _ _ _ _ _ _ _ Ht).
    + by apply (heap_object co h F B L z' a'); [exists G| |].
    + intros b Hb. by eapply header_apart.
  - intros x Hx. destruct (held_page co h F B L G z x HR Hz Hx) as [Hf Hp].
    apply (tk_mem _ _ _ _ _ _ _ _ _ _ _ Ht); [done|]. intros b Hb. specialize (Hp b Hb). lia.
  - eexists. eapply heap_update; eauto; try apply Ht; fold z.
    + intros b Hb. apply (tk_from _ _ _ _ _ _ _ _ _ _ _ Ht) in Hb as [Hb|Hb]; [by apply (hr_held _ _ _ _ _ _ HR z)|].
      intros Hb'. by apply (hr_disj _ _ _ _ _ _ HR (vframe b)).
    + intros f Hf%(tk_sub _ _ _ _ _ _ _ _ _ _ _ Ht). by apply (hr_disj _ _ _ _ _ _ HR).
    + intros z' b Hz' Hne Hb. split_and!.
      * intros Hf%(tk_sub _ _ _ _ _ _ _ _ _ _ _ Ht). by apply (hr_off _ _ _ _ _ _ HR z' Hz' b).
      * intros Hb'. apply (tk_from _ _ _ _ _ _ _ _ _ _ _ Ht) in Hb' as [Hb'|Hf].
        -- apply Hne. by eapply (hr_apart _ _ _ _ _ _ HR).
        -- by apply (hr_off _ _ _ _ _ _ HR z' Hz' b).
      * intros x Hx. apply (tk_mem _ _ _ _ _ _ _ _ _ _ _ Ht).
        -- rewrite (proj2 (page_vframe b x (heap_page _ _ _ _ _ _ _ _ HR Hz' Hb)) Hx). by apply (hr_off _ _ _ _ _ _ HR z').
        -- intros b' Hb'. destruct (other_page _ _ _ _ _ _ z' z b x HR Hz' Hz Hne Hb Hx b' Hb'); lia.
    + intros z' a'. rewrite elem_of_union, elem_of_singleton. destruct (decide (z' = z)) as [->|Hne]; [|naive_solver].
      rewrite (tk_live _ _ _ _ _ _ _ _ _ _ _ Ht), (hr_live _ _ _ _ _ _ HR). naive_solver.
Qed.

(** There are no more slabs than frames. *)
Definition MAX_SLABS : Z := PHYS_LIMIT / PAGE_SIZE.

Lemma nodup_bound (l : list Z) n : NoDup l → 0 ≤ n → (∀ x, x ∈ l → 0 ≤ x < n) → Z.of_nat (length l) ≤ n.
Proof.
  intros Hl Hn Hx. assert (H : l ⊆+ seqZ 0 n) by (apply NoDup_submseteq; [done|]; intros x Hin; apply elem_of_seqZ; specialize (Hx x Hin); lia).
  apply submseteq_length in H. rewrite length_seqZ in H. lia.
Qed.

Lemma slabs_bound co h F B L G z : heap_rep co h F B L G → z ∈ SLAB_SIZES → Z.of_nat (length (slabs G z)) ≤ MAX_SLABS.
Proof.
  intros HR Hz. destruct (heap_cache _ _ _ _ _ _ z HR Hz) as (i & c & _ & _ & Hc).
  pose proof (cr_nodup _ _ _ _ _ Hc) as Hnd. fold (slabs G z) in Hnd. pose proof (λ b, heap_page co h F B L G z b HR Hz) as Hp.
  rewrite <- (length_fmap fst), <- (length_fmap (λ b, (b - hhdm_offset) / PAGE_SIZE)). apply nodup_bound; [|by vm_compute|].
  - apply NoDup_fmap_2_strong; [|done]. intros b b' Hb Hb' E.
    destruct (Hp b Hb) as [? ?], (Hp b' Hb') as [? ?]. dlia.
  - intros x (b & -> & Hb)%list_elem_of_fmap. destruct (Hp b Hb) as [? ?]. unfold MAX_SLABS. dlia.
Qed.

Lemma heap_give co h F B L i c a : heap_inv co h F B L → caches h !! i = Some c → (obj_size c, a) ∈ L →
  ∃ n, Z.of_nat n ≤ MAX_SLABS + 1 ∧ ∀ fuel, (n ≤ fuel)%nat → ∃ s' c' F', cache_dealloc fuel (hmm h) c a = Ret (s', c') ∧ F ⊆ F' ∧
    same_objects (L ∖ {[(obj_size c, a)]}) (ram (hmm h)) (ram s') ∧ same_frames B (ram (hmm h)) (ram s') ∧
    heap_inv co {| hmm := s'; caches := <[i := c']> (caches h) |} F' B (L ∖ {[(obj_size c, a)]}).
Proof.
  intros [G HR] Hi Ha. assert (Hz := heap_size _ _ _ _ _ _ _ _ HR Hi). set (z := obj_size c) in *.
  exists (S (length (slabs G z))). split; [pose proof (slabs_bound _ _ _ _ _ _ z HR Hz); lia|].
  intros fuel Hf. assert (Hl := Ha). apply (hr_live _ _ _ _ _ _ HR) in Hl as [_ Hl].
  destruct (cache_dealloc_spec co fuel (hmm h) F z c (G z).1 (G z).2 a) as (s' & c' & F' & P' & Q' & E & Hg);
    [done|apply HR|by eapply hr_cache|by apply (hr_off _ _ _ _ _ _ HR)|done|done|].
  fold (slabs G z) in Hg. exists s', c', F'. split; [done|]. split; [apply Hg|].
  assert (HI : heap_inv co {| hmm := s'; caches := <[i := c']> (caches h) |} F' B (L ∖ {[(z, a)]})).
  { eexists. eapply heap_update; eauto; try apply Hg; fold z.
    - intros b Hb%(gv_from _ _ _ _ _ _ _ _ _ _ _ Hg). by apply (hr_held _ _ _ _ _ _ HR z).
    - intros f [Hf'|(b & Hb & ->)]%(gv_frames _ _ _ _ _ _ _ _ _ _ _ Hg); [by apply (hr_disj _ _ _ _ _ _ HR)|].
      by apply (hr_held _ _ _ _ _ _ HR z).
    - intros z' b Hz' Hne Hb. assert (Hf' : vframe b ∉ F').
      { intros [Hf'|(b' & Hb' & Hv)]%(gv_frames _ _ _ _ _ _ _ _ _ _ _ Hg); [by apply (hr_off _ _ _ _ _ _ HR z' Hz' b)|].
        apply vframe_inj in Hv as ->; [|by eapply (heap_page _ _ _ _ _ _ z')|by eapply (heap_page _ _ _ _ _ _ z)].
        apply Hne. by eapply (hr_apart _ _ _ _ _ _ HR). }
      split_and!; [done| |].
      + intros Hb'%(gv_from _ _ _ _ _ _ _ _ _ _ _ Hg). apply Hne. by eapply (hr_apart _ _ _ _ _ _ HR).
      + intros x Hx. pose proof (other_page _ _ _ _ _ _ z' z b x HR Hz' Hz Hne Hb Hx) as Hap.
        apply (gv_mem _ _ _ _ _ _ _ _ _ _ _ Hg).
        * by rewrite (proj2 (page_vframe b x (heap_page _ _ _ _ _ _ _ _ HR Hz' Hb)) Hx).
        * intros b' Hb'. specialize (Hap b' Hb'). lia.
        * destruct Hl as (b' & l' & Hbl & Hs & _). apply slot_range in Hs; [|done]. destruct (size_facts z Hz) as (?&_).
          specialize (Hap b' ltac:(by eauto)). lia.
    - intros z' a'. rewrite elem_of_difference, elem_of_singleton. destruct (decide (z' = z)) as [->|Hne]; [|naive_solver].
      rewrite (gv_live _ _ _ _ _ _ _ _ _ _ _ Hg), (hr_live _ _ _ _ _ _ HR). naive_solver. }
  split_and!; [| |done]; cycle 1.
  { intros x Hx. destruct (held_page co h F B L G z x HR Hz Hx) as [_ Hp]. destruct HI as [G' HR'].
    apply (gv_mem _ _ _ _ _ _ _ _ _ _ _ Hg); [intros Hf'; by apply (hr_disj _ _ _ _ _ _ HR' (vframe x))|intros b Hb; specialize (Hp b Hb); lia|].
    destruct Hl as (b' & l' & Hbl & Hs & _). apply slot_range in Hs; [|done]. destruct (size_facts z Hz) as (?&_).
    specialize (Hp b' ltac:(by eauto)). lia. }
  intros z' a' x Hin Hx. destruct (heap_object _ _ _ _ _ _ _ HI Hin) as (_ & _ & _ & _ & Hfr).
  apply elem_of_difference in Hin as [Hin Hne]. rewrite elem_of_singleton in Hne.
  apply (gv_mem _ _ _ _ _ _ _ _ _ _ _ Hg); [by apply Hfr|by intros b Hb; eapply header_apart|].
  destruct (size_facts z Hz) as (?&_). destruct (heap_disjoint co h F B L z a z' a'); [by exists G|done|done|congruence|lia|lia].
Qed.

(** What happens outside the slabs' pages. *)
Lemma heap_outside co h s' F F' B B' L G : heap_rep co h F B L G → pmm_inv co s' F' → F' ## B' →
  F' ∪ B' ⊆ F ∪ B → (∀ x, vframe x ∉ F → vframe x ∉ B → ram s' x = ram (hmm h) x) →
  heap_rep co {| hmm := s'; caches := caches h |} F' B' L G.
Proof.
  intros HR HI HFB Hsub Hm. destruct (HR) as [_ H2 H3 H4 H5 _ H7 H8].
  assert (Hf : ∀ z b, z ∈ SLAB_SIZES → b ∈ (slabs G z).*1 → vframe b ∉ F' ∪ B').
  { intros z b Hz Hb Hin. apply Hsub, elem_of_union in Hin as [Hin|Hin]; [by apply (H4 z Hz b)|by apply (H5 z Hz b)]. }
  split; auto; cbn [hmm caches].
  - intros i c Hi. assert (Hz := heap_size _ _ _ _ _ _ _ _ HR Hi).
    apply (cache_rep_pages (ram (hmm h))); [done| |by eapply H3]. intros b x Hb Hx.
    pose proof (heap_page _ _ _ _ _ _ _ b HR Hz Hb) as Hp.
    apply Hm; rewrite (proj2 (page_vframe b x Hp) Hx); [by apply (H4 (obj_size c))|by apply (H5 (obj_size c))].
  - intros z Hz b Hb Hin. apply (Hf z b Hz Hb). by apply elem_of_union_l.
  - intros z Hz b Hb Hin. apply (Hf z b Hz Hb). by apply elem_of_union_r.
Qed.

(** Clients may write to the objects they hold. *)
Lemma heap_write co h F B L z a m' : heap_inv co h F B L → (z, a) ∈ L →
  (∀ x, x < a ∨ a + z ≤ x → m' x = ram (hmm h) x) →
  heap_inv co {| hmm := set_ram (hmm h) m'; caches := caches h |} F B L.
Proof.
  intros HI Hin Hm. destruct (heap_object _ _ _ _ _ _ _ HI Hin) as (Hz & _ & _ & _ & Hfr). destruct HI as [G HR]. exists G.
  pose proof (hr_live _ _ _ _ _ _ HR z a) as Hl. apply Hl in Hin as Hl'. destruct Hl' as [_ (b & l & Hbl & Ha & Hn)].
  destruct (HR) as [H1 H2 H3 H4 H5 H6 H7 H8]. split; auto; cbn [hmm caches ram set_ram].
  - apply pmm_inv_frame; [done|]. intros x Hx. apply Hm. destruct (decide (a ≤ x < a + z)); [by apply Hfr in Hx|lia].
  - intros i c Hi. assert (Hz' := heap_size _ _ _ _ _ _ _ _ HR Hi). set (z' := obj_size c) in *.
    apply (cache_rep_ext (ram (hmm h))); [done| |by eapply H3]. fold (slabs G z'). intros b' l' x Hbl' Hx. apply Hm.
    destruct (decide (a ≤ x < a + z)) as [Hax|]; [|lia]. exfalso.
    destruct Hx as [Hx|(a' & Ha' & Hx)]; [by destruct (header_apart _ _ _ _ _ _ _ _ z' b' HR Hin Hz' ltac:(by eauto) x Hax); lia|].
    destruct (cache_slab _ _ _ _ _ b' l' (H3 i c Hi) Hbl') as [Hr' Hp'].
    assert (Hs' : a' ∈ slots z' b') by by apply Hr'. destruct (slot_range z' b' a' Hz' Hs'), (slot_range z b a Hz Ha).
    destruct (size_facts z' Hz') as (?&_).
    destruct (decide (b = b')) as [<-|Hne].
    + assert (z = z') as <- by by apply (H7 z z' b); eauto. 
      destruct (heap_cache _ _ _ _ _ _ z HR Hz) as (j & cj & _ & _ & Hcj).
      assert (l = l') as <- by by apply (base_unique _ b _ _ (cr_nodup _ _ _ _ _ Hcj)).
      destruct (slot_apart z b a a'); auto; [congruence|lia|lia].
    + destruct (pages_apart b b'); [eapply (heap_page _ _ _ _ _ _ z)|..]; eauto; lia.
Qed.

(** ** The global allocator is correct *)

(** The order is the least whose block holds the size. *)
Lemma large_order_spec size : 0 < size < 2 ^ 63 →
  ∃ o, large_order size = Ret o ∧ 0 ≤ o < 64 ∧ size ≤ PAGE_SIZE * 2 ^ o ∧
    ∀ k, 0 ≤ k → size ≤ PAGE_SIZE * 2 ^ k → o ≤ k.
Proof.
  intros Hs. unfold large_order. rewrite align_up_page by (change (2 ^ 63) with 9223372036854775808 in Hs; lia). exec_simpl.
  rewrite (Z.mul_comm PAGE_SIZE), Z.div_mul by done. set (pages := (size + 4095) / PAGE_SIZE).
  assert (Hp : 1 ≤ pages < 2 ^ 52) by (unfold pages; split; [apply Z.div_le_lower_bound; lia|apply Z.div_lt_upper_bound; lia]).
  assert (Hpg : ∀ n, size ≤ PAGE_SIZE * n ↔ pages ≤ n).
  { intros n. unfold pages. pose proof (Z.div_mod (size + 4095) PAGE_SIZE). pose proof (Z.mod_pos_bound (size + 4095) PAGE_SIZE).
    split; intros; [|lia]. apply Z.lt_succ_r, Z.div_lt_upper_bound; lia. }
  unfold next_power_of_two, leading_zeros. set (o := Z.log2_up pages).
  assert (Ho : 0 ≤ o ≤ 52).
  { split; [apply Z.log2_up_nonneg|]. apply Z.log2_up_le_pow2; lia. }
  assert (0 < 2 ^ o) by (apply Z.pow_pos_nonneg; lia).
  rewrite (proj2 (Z.eqb_neq _ 0)) by lia. rewrite Z.log2_pow2, !u64_sub_ok by lia. exec_simpl. rewrite u64_sub_ok by lia.
  exists (64 - (63 - o) - 1). split_and!; [done|lia|lia| |].
  - replace (64 - (63 - o) - 1) with o by lia. apply Hpg, Z.log2_up_le_pow2; [lia|done].
  - intros k Hk Hsk. assert (o ≤ k); [|lia]. apply Z.log2_up_le_pow2; [lia|]. by apply Hpg.
Qed.

Definition is_small (l : Layout) : bool := (size_ l <=? 2048) && (align l <=? 2048).

(** A layout as [core::alloc::Layout] guarantees it. *)
Definition layout_ok (l : Layout) : Prop := 0 ≤ size_ l < 2 ^ 63 ∧ ∃ k : nat, align l = 2 ^ k.

Lemma fill_block s virt o p : block_ok o p → virt = p + hhdm_offset → ∀ x, vframe x ∉ block_set o p →
  mem_fill (ram s) virt (PAGE_SIZE * 2 ^ o) 0 x = ram s x.
Proof.
  intros Hp -> x Hx. unfold mem_fill.
  destruct (Z.leb_spec (p + hhdm_offset) x), (Z.ltb_spec x (p + hhdm_offset + PAGE_SIZE * 2 ^ o)); cbn; try done.
  destruct Hx. rewrite block_set_elem, block_frames_elem. unfold vframe. pose proof (block_ok_page _ _ Hp) as Hpg.
  split; [apply Z.div_le_mono; lia|]. apply Z.div_lt_upper_bound; lia.
Qed.

(** The branch for large layouts: a block of frames, filled with zeros. *)
Lemma heap_large co h F B L order : heap_inv co h F B L → 0 ≤ order < 64 →
  ∃ r s, alloc_frames (hmm h) (Z.to_nat order) = Ret (r, s) ∧
    match r with
    | None => s = hmm h ∧ (co = true → (Z.to_nat order ≤ MAX_ORDER)%nat → ∀ b, block_ok (Z.to_nat order) b → ¬ block_set (Z.to_nat order) b ⊆ F)
    | Some p => ∃ o : nat, order = o ∧ (o ≤ MAX_ORDER)%nat ∧ block_ok o p ∧ block_set o p ⊆ F ∧
        let m := mem_fill (ram s) (p + hhdm_offset) (PAGE_SIZE * 2 ^ o) 0 in
        heap_inv co {| hmm := set_ram s m; caches := caches h |} (F ∖ block_set o p) (B ∪ block_set o p) L ∧
        ∀ x, vframe x ∉ F → m x = ram (hmm h) x
    end.
Proof.
  intros [G HR] Ho. destruct (alloc_refines co (hmm h) F (Z.to_nat order) (hr_pmm _ _ _ _ _ _ HR)) as (r & s & E & Hr).
  exists r, s. split; [done|]. destruct r as [p|]; [|destruct Hr as [-> Hr]; split; [done|]; intros Hco Hmax; apply Hr; [done|by left]].
  destruct Hr as (Hmax & Hok & Hsub & HI & Hm & _).
  exists (Z.to_nat order). set (o := Z.to_nat order) in *. split; [lia|]. split_and!; [done|done|done|].
  intros m. assert (Hfill := fill_block s _ o p Hok eq_refl). fold m in Hfill. split.
  - exists G. eapply (heap_outside co h (set_ram s m) F _ B); [done| | | |].
    + apply pmm_inv_frame; [done|]. intros x Hx. apply Hfill. apply elem_of_difference in Hx. tauto.
    + pose proof (hr_disj _ _ _ _ _ _ HR) as HFB. clear -HFB. set_solver.
    + clear -Hsub. set_solver.
    + intros x Hx _. cbn [ram set_ram]. rewrite Hfill; [by apply Hm|]. intros Hb. by apply Hx, Hsub.
  - intros x Hx. rewrite Hfill; [by apply Hm|]. intros Hb. by apply Hx, Hsub.
Qed.

Lemma size_pow2 z : z ∈ SLAB_SIZES → ∃ j : nat, z = 2 ^ j ∧ (j ≤ 11)%nat.
Proof.
  intros Hz. unfold SLAB_SIZES in Hz. repeat (apply elem_of_cons in Hz as [->|Hz]).
  1: by exists 3%nat; split; [|lia]. 1: by exists 4%nat; split; [|lia]. 1: by exists 5%nat; split; [|lia].
  1: by exists 6%nat; split; [|lia]. 1: by exists 7%nat; split; [|lia]. 1: by exists 8%nat; split; [|lia].
  1: by exists 9%nat; split; [|lia]. 1: by exists 10%nat; split; [|lia]. 1: by exists 11%nat; split; [|lia].
  by apply elem_of_nil in Hz.
Qed.

Lemma class_aligned z p (k : nat) : z ∈ SLAB_SIZES → 2 ^ k ≤ z → p mod z = 0 → p mod 2 ^ k = 0.
Proof.
  intros Hz Hk. destruct (size_pow2 z Hz) as (j & -> & _). apply Z.pow_le_mono_r_iff in Hk; [|lia|lia].
  apply mod_divide_0; [by apply Z.pow_pos_nonneg; lia|]. exists (2 ^ (j - k)). rewrite <- Z.pow_add_r by lia. f_equal. lia.
Qed.

(** The branches for small layouts. *)
Lemma heap_alloc_small co h F B L l : heap_inv co h F B L → layout_ok l → size_ l ≠ 0 → is_small l = true →
  ∃ p h', heap_alloc h l = Ret (p, h') ∧
    ((p = 0 ∧ h' = h ∧ F = ∅) ∨
     (∃ z F', size_class (Z.max (size_ l) (align l)) = Some z ∧ size_ l ≤ z ∧ p mod align l = 0 ∧ 0 < p ∧
        (z, p) ∉ L ∧ F' ⊆ F ∧ heap_inv co h' F' B ({[(z, p)]} ∪ L) ∧ same_objects L (ram (hmm h)) (ram (hmm h')) ∧
        same_frames B (ram (hmm h)) (ram (hmm h')) ∧ ∃ f, F ∖ {[f]} ⊆ F')).
Proof.
  intros HI [Hsz [k Hk]] Hnz Es. unfold heap_alloc. rewrite (proj2 (Z.eqb_neq _ 0)) by done.
  fold (is_small l). rewrite Es. apply andb_prop in Es as [Es1%Z.leb_le Es2%Z.leb_le]. destruct (HI) as [G HR].
  destruct (find_cache_spec co h F B L G (size_ l) (align l) HR) as (i & c & Ef & Hi & Hcl & Hle); [lia|].
  rewrite Ef, Hi. cbn [expect]. exec_simpl. destruct (heap_take co h F B L i c HI Hi) as (r & s' & c' & E & Hr).
  rewrite E. exec_simpl. eexists _, _. split; [done|]. destruct r as [a|]; cbn [default from_option id].
  - right. destruct Hr as (F' & HF & Hone & Hnew & Hsame & HB & HI'). exists (obj_size c), F'.
    destruct (heap_object co _ F' B _ (obj_size c) a HI') as (Hzc & Hal & Hpos & _).
    { apply elem_of_union_l. by apply elem_of_singleton. }
    split_and!; auto; [lia|]. rewrite Hk. apply (class_aligned (obj_size c)); [done|lia|done].
  - left. destruct Hr as (-> & -> & ->). split_and!; [done| |done]. destruct h. cbn in *. by rewrite list_insert_id.
Qed.

Lemma heap_dealloc_small co h F B L l z p : heap_inv co h F B L → size_ l ≠ 0 → is_small l = true →
  size_class (Z.max (size_ l) (align l)) = Some z → (z, p) ∈ L →
  ∃ n, Z.of_nat n ≤ MAX_SLABS + 1 ∧ ∀ fuel, (n ≤ fuel)%nat → ∃ h' F', heap_dealloc fuel h p l = Ret h' ∧ F ⊆ F' ∧
    same_objects (L ∖ {[(z, p)]}) (ram (hmm h)) (ram (hmm h')) ∧ same_frames B (ram (hmm h)) (ram (hmm h')) ∧
    heap_inv co h' F' B (L ∖ {[(z, p)]}).
Proof.
  intros HI Hnz Es Hcl Hin. assert (Es' := Es). apply andb_prop in Es' as [Es1%Z.leb_le Es2%Z.leb_le]. destruct (HI) as [G HR].
  destruct (find_cache_spec co h F B L G (size_ l) (align l) HR) as (i & c & Ef & Hi & Hcl' & Hle); [lia|].
  rewrite Hcl in Hcl'. injection Hcl' as ->. destruct (heap_object _ _ _ _ _ _ _ HI Hin) as (_ & _ & Hpos & _).
  destruct (heap_give co h F B L i c p HI Hi Hin) as (n & Hb & Hn). exists n. split; [done|]. intros fuel Hf.
  destruct (Hn fuel Hf) as (s' & c' & F' & E & HF & Hsame & HB & HI').
  exists {| hmm := s'; caches := <[i := c']> (caches h) |}, F'.
  split; [|by split_and!].
  unfold heap_dealloc. rewrite !(proj2 (Z.eqb_neq _ 0)) by lia. cbn [orb]. fold (is_small l). rewrite Es, Ef, Hi. cbn [expect].
  exec_simpl. by rewrite E.
Qed.

(** The branches for large layouts. *)
Lemma heap_alloc_large co h F B L l : heap_inv co h F B L → layout_ok l → size_ l ≠ 0 → is_small l = false →
  ∃ p h' (o : nat), heap_alloc h l = Ret (p, h') ∧ size_ l ≤ PAGE_SIZE * 2 ^ o ∧ (∀ k, 0 ≤ k → size_ l ≤ PAGE_SIZE * 2 ^ k → o ≤ k) ∧
    ((p = 0 ∧ h' = h ∧ (co = true → (o ≤ MAX_ORDER)%nat → ∀ b, block_ok o b → ¬ block_set o b ⊆ F)) ∨
     (∃ q, p = q + hhdm_offset ∧ (o ≤ MAX_ORDER)%nat ∧ block_ok o q ∧ block_set o q ⊆ F ∧
        heap_inv co h' (F ∖ block_set o q) (B ∪ block_set o q) L ∧
        (∀ x, p ≤ x < p + PAGE_SIZE * 2 ^ o → ram (hmm h') x = 0) ∧ same_objects L (ram (hmm h)) (ram (hmm h')) ∧
        same_frames B (ram (hmm h)) (ram (hmm h')))).
Proof.
  intros HI [Hsz _] Hnz Es. unfold heap_alloc. rewrite (proj2 (Z.eqb_neq _ 0)) by done. fold (is_small l). rewrite Es.
  destruct (large_order_spec (size_ l)) as (order & Eo & Ho & Hfit & Hmin); [lia|]. rewrite Eo. exec_simpl.
  destruct (heap_large co h F B L order HI Ho) as (r & s & E & Hr). rewrite E. exec_simpl. destruct r as [q|].
  - destruct Hr as (o & -> & Hmax & Hok & Hsub & HI' & Hm). pose proof (block_ok_node _ _ Hok) as [Hq _].
    assert (2 ^ o ≤ 2 ^ 12) by (apply Z.pow_le_mono_r; lia).
    rewrite phys_to_virt_ok by lia. exec_simpl. rewrite shiftl_1, u64_mul_ok, (Z.mul_comm (2 ^ o)) by lia. exec_simpl.
    eexists _, _, o. split; [done|]. split; [done|]. split; [done|]. right. exists q.
    split_and!; [done|done|done|done|done| | |]; cbn [hmm ram set_ram].
    + intros x Hx. unfold mem_fill. by rewrite (proj2 (Z.leb_le _ _)), (proj2 (Z.ltb_lt _ _)) by lia.
    + intros z a x Hin Hx. apply Hm. by eapply heap_object.
    + intros x Hx. apply Hm. destruct HI as [G HR]. intros Hf. by apply (hr_disj _ _ _ _ _ _ HR (vframe x)).
  - destruct Hr as [-> Hr]. eexists _, _, (Z.to_nat order). split; [done|]. rewrite Z2Nat.id by lia. split; [done|]. split; [done|].
    left. split; [done|]. split; [by destruct h|done].
Qed.

Lemma heap_dealloc_large co h F B L l q (o : nat) fuel : heap_inv co h F B L → layout_ok l → size_ l ≠ 0 → is_small l = false →
  (o ≤ MAX_ORDER)%nat → size_ l ≤ PAGE_SIZE * 2 ^ o → (∀ k, 0 ≤ k → size_ l ≤ PAGE_SIZE * 2 ^ k → o ≤ k) → block_ok o q → block_set o q ⊆ B →
  ∃ h', heap_dealloc fuel h (q + hhdm_offset) l = Ret h' ∧ same_objects L (ram (hmm h)) (ram (hmm h')) ∧
    heap_inv co h' (F ∪ block_set o q) (B ∖ block_set o q) L ∧ same_frames (B ∖ block_set o q) (ram (hmm h)) (ram (hmm h')).
Proof.
  intros HI [Hsz _] Hnz Es Hmax Hfit Hmin Hok Hsub. pose proof (block_ok_node _ _ Hok) as [Hq _]. pose proof hhdm_pos.
  unfold heap_dealloc. rewrite !(proj2 (Z.eqb_neq _ 0)) by lia. cbn [orb]. fold (is_small l). rewrite Es.
  destruct (large_order_spec (size_ l)) as (order & Eo & Ho & Hfit' & Hmin'); [lia|]. rewrite Eo. exec_simpl.
  assert (order = o) as ->.
  { apply Z.le_antisymm; [apply Hmin'; [lia|done]|apply Hmin; [lia|done]]. }
  rewrite virt_to_phys_ok by lia. exec_simpl. unfold free_frames. rewrite Nat2Z.id. destruct (HI) as [G HR].
  pose proof (hr_disj _ _ _ _ _ _ HR) as HFB.
  destruct (free_refines co (hmm h) F q o) as (s' & E & HI' & Hm & _); [apply HR|done|done|clear -Hsub HFB; set_solver|].
  rewrite E. exec_simpl. eexists. split; [done|]. cbn [hmm].
  assert (HI2 : heap_inv co {| hmm := s'; caches := caches h |} (F ∪ block_set o q) (B ∖ block_set o q) L).
  { exists G. eapply (heap_outside co h s' F _ B); [done|done|clear -HFB; set_solver|clear -Hsub; set_solver|].
    intros x Hx Hx'. apply Hm. clear -Hx Hx' Hsub. set_solver. }
  split_and!; [|done|].
  - intros z a x Hin Hx. apply Hm. by eapply (heap_object _ _ _ _ _ _ _ HI2).
  - intros x Hx. apply Hm. clear -Hx HFB. set_solver.
Qed.

(** C6: [alloc]: a small layout gets an object of its size class, aligned as the
    layout asks, apart from every object and frame in use; a large one gets a
    block of free frames filled with zeros; a null pointer means that nothing
    has changed, and for a small layout that no frame is free. No object in use
    is written. *)
Theorem heap_alloc_correct co h F B L l : heap_inv co h F B L → layout_ok l →
  ∃ p h', heap_alloc h l = Ret (p, h') ∧
    if size_ l =? 0 then p = align l ∧ h' = h
    else if is_small l then
      (p = 0 ∧ h' = h ∧ F = ∅) ∨
      (∃ z F', size_class (Z.max (size_ l) (align l)) = Some z ∧ size_ l ≤ z ∧ p mod align l = 0 ∧ 0 < p ∧
         (z, p) ∉ L ∧ F' ⊆ F ∧ heap_inv co h' F' B ({[(z, p)]} ∪ L) ∧ same_objects L (ram (hmm h)) (ram (hmm h')))
    else
      (p = 0 ∧ h' = h) ∨
      (∃ q (o : nat), p = q + hhdm_offset ∧ block_ok o q ∧ size_ l ≤ PAGE_SIZE * 2 ^ o ∧
         (∀ k, 0 ≤ k → size_ l ≤ PAGE_SIZE * 2 ^ k → o ≤ k) ∧ block_set o q ⊆ F ∧
         heap_inv co h' (F ∖ block_set o q) (B ∪ block_set o q) L ∧
         (∀ x, p ≤ x < p + PAGE_SIZE * 2 ^ o → ram (hmm h') x = 0) ∧ same_objects L (ram (hmm h)) (ram (hmm h'))).
Proof.
  intros HI Hl. destruct (Z.eqb_spec (size_ l) 0) as [Hz|Hnz].
  { unfold heap_alloc. rewrite Hz. by eexists _, _. }
  destruct (is_small l) eqn:Es.
  - destruct (heap_alloc_small co h F B L l HI Hl Hnz Es) as (p & h' & E & H). exists p, h'. split; [done|].
    destruct H as [H|(z & F' & H1 & H2 & H3 & H4 & H5 & H6 & H7 & H8 & _)]; [by left|right]. exists z, F'. by split_and!.
  - destruct (heap_alloc_large co h F B L l HI Hl Hnz Es) as (p & h' & o & E & Hfit & Hmin & H). exists p, h'. split; [done|].
    destruct H as [(-> & -> & _)|(q & H1 & _ & H2 & H3 & H4 & H5 & H6 & _)]; [by left|right]. exists q, o. by split_and!.
Qed.

(** C8: [dealloc]: an object in use becomes free again; a large block that the
    client holds goes back to the frame allocator. No other object is written,
    and a number of turns that depends on the state is enough for the search of
    the slab lists. *)
Theorem heap_dealloc_correct co h F B L l : heap_inv co h F B L → layout_ok l → size_ l ≠ 0 →
  (is_small l = true → ∀ z p, size_class (Z.max (size_ l) (align l)) = Some z → (z, p) ∈ L →
     ∃ n, ∀ fuel, (n ≤ fuel)%nat → ∃ h' F', heap_dealloc fuel h p l = Ret h' ∧ F ⊆ F' ∧
       same_objects (L ∖ {[(z, p)]}) (ram (hmm h)) (ram (hmm h')) ∧ heap_inv co h' F' B (L ∖ {[(z, p)]})) ∧
  (is_small l = false → ∀ q (o : nat) fuel, (o ≤ MAX_ORDER)%nat → size_ l ≤ PAGE_SIZE * 2 ^ o →
     (∀ k, 0 ≤ k → size_ l ≤ PAGE_SIZE * 2 ^ k → o ≤ k) → block_ok o q → block_set o q ⊆ B →
     ∃ h', heap_dealloc fuel h (q + hhdm_offset) l = Ret h' ∧
       same_objects L (ram (hmm h)) (ram (hmm h')) ∧ heap_inv co h' (F ∪ block_set o q) (B ∖ block_set o q) L).
Proof.
  intros HI Hl Hnz. split.
  - intros Es z p Hz Hin. destruct (heap_dealloc_small co h F B L l z p HI Hnz Es Hz Hin) as (n & _ & Hn). exists n. intros fuel Hf.
    destruct (Hn fuel Hf) as (h' & F' & E & HF & Hs & _ & HI'). exists h', F'. by split_and!.
  - intros Es q o fuel Hmax Hfit Hmin Hok Hsub.
    destruct (heap_dealloc_large co h F B L l q o fuel HI Hl Hnz Es Hmax Hfit Hmin Hok Hsub) as (h' & E & Hs & HI' & _). exists h'. by split_and!.
Qed.

(** [realloc] of an object to another small size: the new object starts with the
    bytes of the old one, which is free again; no other object is written. A
    null pointer leaves the heap as it was. *)
Theorem heap_realloc_correct co h F B L l z p new_size : heap_inv co h F B L → layout_ok l →
  size_ l ≠ 0 → is_small l = true → size_class (Z.max (size_ l) (align l)) = Some z → size_ l ≤ z → (z, p) ∈ L →
  0 < new_size ≤ 2048 →
  ∃ n, ∀ fuel, (n ≤ fuel)%nat → ∃ p' h', heap_realloc fuel h p l new_size = Ret (p', h') ∧
    ((p' = 0 ∧ h' = h ∧ F = ∅) ∨
     ∃ z' F', size_class (Z.max new_size (align l)) = Some z' ∧ new_size ≤ z' ∧ p' mod align l = 0 ∧ (z', p') ∉ L ∧
       heap_inv co h' F' B ({[(z', p')]} ∪ L ∖ {[(z, p)]}) ∧
       (∀ i, 0 ≤ i < Z.min (size_ l) new_size → ram (hmm h') (p' + i) = ram (hmm h) (p + i)) ∧
       same_objects (L ∖ {[(z, p)]}) (ram (hmm h)) (ram (hmm h'))).
Proof.
  intros HI Hl Hnz Es Hcl Hzl Hin Hns. destruct (Hl) as [Hsz Hk]. set (nl := {| size_ := new_size; align := align l |}).
  assert (Es' := Es). apply andb_prop in Es' as [_ Ha%Z.leb_le].
  assert (Hnl : layout_ok nl) by (split; [cbn; lia|done]).
  assert (Hns' : is_small nl = true) by (unfold is_small; cbn; rewrite !(proj2 (Z.leb_le _ _)) by lia; done).
  destruct (heap_alloc_small co h F B L nl HI Hnl) as (p' & h1 & E1 & Hpost); [cbn; lia|done|]. cbn [size_ align nl] in Hpost.
  assert (Hfa : from_size_align new_size (align l) = Some nl).
  { unfold from_size_align. by rewrite (proj2 (Z.leb_le _ _)) by lia. }
  unfold heap_realloc. rewrite Hfa. cbn [expect]. exec_simpl. rewrite E1. exec_simpl.
  destruct Hpost as [(-> & -> & HF)|(z' & F1 & Hcl' & Hle & Hal & Hpos & Hnew & HF1 & HI1 & Hs1 & _)].
  { exists 0%nat. intros fuel _. exists 0, h. split; [done|]. by left. }
  rewrite (proj2 (Z.eqb_neq p' 0)) by lia. set (m := mem_copy (ram (hmm h1)) p p' (Z.min (size_ l) new_size)).
  assert (Hin' : (z', p') ∈ {[(z', p')]} ∪ L) by (apply elem_of_union_l; by apply elem_of_singleton).
  assert (Hout : ∀ x, x < p' ∨ p' + z' ≤ x → m x = ram (hmm h1) x).
  { intros x Hx. unfold m, mem_copy. destruct (Z.leb_spec p' x), (Z.ltb_spec x (p' + Z.min (size_ l) new_size)); cbn; [lia|done..]. }
  pose proof (heap_write co h1 F1 B _ z' p' m HI1 Hin' Hout) as HI2. set (h2 := {| hmm := _; caches := _ |}) in HI2.
  assert (Hne : (z, p) ≠ (z', p')) by congruence.
  destruct (heap_dealloc_small co h2 F1 B _ l z p HI2 Hnz Es Hcl) as (n & _ & Hn); [by apply elem_of_union_r|].
  exists n. intros fuel Hf. destruct (Hn fuel Hf) as (h3 & F3 & E3 & _ & Hs3 & _ & HI3). fold h2. rewrite E3. exec_simpl.
  exists p', h3. split; [done|]. right. exists z', F3.
  assert (HL : ({[(z', p')]} ∪ L) ∖ {[(z, p)]} = {[(z', p')]} ∪ L ∖ {[(z, p)]}) by (clear -Hne; set_solver).
  rewrite HL in HI3, Hs3. split_and!; auto.
  - intros i Hi. rewrite (Hs3 z' p') by (by apply elem_of_union_l, elem_of_singleton || lia). cbn [hmm ram set_ram h2].
    unfold m, mem_copy. rewrite (proj2 (Z.leb_le _ _)), (proj2 (Z.ltb_lt _ _)) by lia. cbn [andb].
    replace (p + (p' + i - p')) with (p + i) by lia. apply (Hs1 z p); [done|lia].
  - intros z2 a x Hx Hax. apply elem_of_difference in Hx as [Hx Hx']. rewrite (Hs3 z2 a) by (done || clear -Hx Hx'; set_solver).
    cbn [hmm ram set_ram h2]. rewrite Hout; [by apply (Hs1 z2 a)|].
    destruct (heap_disjoint co h1 F1 B _ z2 a z' p' HI1); [by apply elem_of_union_r|done|congruence|lia|lia].
Qed.

(** The heap at boot: empty caches over the frames of the frame allocator. *)
Lemma heap_boot co s F B : pmm_inv co s F → F ## B → heap_inv co {| hmm := s; caches := KernelAllocator_new |} F B ∅.
Proof.
  intros HI HFB. exists (λ _, ([], [])). unfold slabs. split; cbn [hmm caches].
  - done.
  - done.
  - intros i c Hi. apply list_lookup_fmap_Some in Hi as (z & -> & Hz). cbn [obj_size SlabCache_new].
    split; try done; [by intros ?? ?%elem_of_nil..|constructor|by intros ? ?%elem_of_nil].
  - by intros z _ b ?%elem_of_nil.
  - by intros z _ b ?%elem_of_nil.
  - done.
  - by intros z z' b _ _ ?%elem_of_nil.
  - intros z a. split; [by intros ?%elem_of_empty|]. by intros [_ (b & l & ?%elem_of_nil & _)].
Qed.
End Heap.

(** ** Witnesses *)
Section Demo.
#[local] Existing Instance qemu_hhdm.

Definition demo_heap : heap := {| hmm := demo_state; caches := KernelAllocator_new |}.
Definition demo_layout : Layout := {| size_ := 100; align := 8 |}.

Lemma demo_layout_ok : layout_ok demo_layout.
Proof. split; [cbn; lia|by exists 3%nat]. Qed.

Lemma demo_heap_inv : heap_inv true demo_heap (usable_frames demo_map) ∅ ∅.
Proof. apply heap_boot; [apply demo_inv|apply disjoint_empty_r]. Qed.

(** A heap with one object of 128 bytes in use. *)
Lemma demo_object : ∃ p h F, heap_alloc demo_heap demo_layout = Ret (p, h) ∧ heap_inv true h F ∅ ({[(128, p)]} ∪ ∅).
Proof.
  destruct (heap_alloc_small true demo_heap _ ∅ ∅ demo_layout demo_heap_inv demo_layout_ok)
    as (p & h & E & [(_ & _ & Hn)|(z & F & Hc & _ & _ & _ & _ & _ & HI & _ & _)]); [done|done| |].
  - assert (Hin : 512 ∈ usable_frames demo_map) by (apply demo_frames; lia). rewrite Hn in Hin. destruct (not_elem_of_empty _ Hin).
  - vm_compute in Hc. injection Hc as <-. exists p, h, F. exact (conj E HI).
Qed.

Lemma heap_alloc_correct_witness :
  ∃ p h', heap_alloc demo_heap demo_layout = Ret (p, h') ∧ (p = 0 ∨ p mod 8 = 0).
Proof.
  destruct (heap_alloc_correct true demo_heap _ ∅ ∅ demo_layout demo_heap_inv demo_layout_ok)
    as (p & h' & E & [(Hp & _)|(z & F' & _ & _ & Ha & _)]).
  - exists p, h'. exact (conj E (or_introl Hp)).
  - exists p, h'. exact (conj E (or_intror Ha)).
Defined.

Lemma heap_dealloc_correct_witness :
  ∃ p h n, heap_alloc demo_heap demo_layout = Ret (p, h) ∧
    ∀ fuel, (n ≤ fuel)%nat → ∃ h' F', heap_dealloc fuel h p demo_layout = Ret h' ∧
      heap_inv true h' F' ∅ (({[(128, p)]} ∪ ∅) ∖ {[(128, p)]}).
Proof.
  destruct demo_object as (p & h & F & E & HI).
  destruct (heap_dealloc_correct true h F ∅ _ demo_layout HI demo_layout_ok) as [Hd _]; [done|].
  destruct (Hd eq_refl 128 p eq_refl) as [n Hn]; [apply elem_of_union_l; by apply elem_of_singleton|].
  exists p, h, n. split; [exact E|]. intros fuel Hf. destruct (Hn fuel Hf) as (h' & F' & Ed & _ & _ & HI'). exists h', F'. exact (conj Ed HI').
Defined.

Lemma heap_realloc_correct_witness :
  ∃ p h n, heap_alloc demo_heap demo_layout = Ret (p, h) ∧
    ∀ fuel, (n ≤ fuel)%nat → ∃ p' h', heap_realloc fuel h p demo_layout 1000 = Ret (p', h').
Proof.
  destruct demo_object as (p & h & F & E & HI).
  destruct (heap_realloc_correct true h F ∅ _ demo_layout 128 p 1000 HI demo_layout_ok) as [n Hn];
    [done|done|done|cbn; lia|apply elem_of_union_l; by apply elem_of_singleton|lia|].
  exists p, h, n. split; [exact E|]. intros fuel Hf. destruct (Hn fuel Hf) as (p' & h' & Er & _). exists p', h'. exact Er.
Defined.
End Demo.
