(* ===== verification/HeapUse.v ===== *)
(** The heap as the rest of the kernel uses it: every collection, string and
    reference count of the kernel asks the global allocator for memory, and a null
    pointer ends in [alloc_error] ([src/src/mm/heap.rs]), which panics.

    A client is a list of requests. It holds the objects it was given and writes to
    them as it likes. The layouts and their order are for the compiler and the
    [alloc] library to choose, so the theorems are about any list. *)
From S2P Require Import Prelude Machine Pmm Slab Heap.

(** Objects are numbered from the newest. *)
Inductive request :=
  | Alloc (l : Layout)
  | Dealloc (i : nat)
  | Realloc (i : nat) (new_size : Z)
  | Write (i : nat) (off b : Z).

Section HeapUse.
Context {hh : Hhdm}.
Implicit Types (h : heap) (l : Layout) (F X B : gset Z) (L : gset (Z * Z)) (held : list (Z * Layout)) (rs : list request).

Definition resize l (n : Z) : Layout := {| size_ := n; align := align l |}.

(** [alloc_error] *)
Definition alloc_error {A} (l : Layout) : exec A := Panic.

Definition write_byte h (x b : Z) : heap :=
  {| hmm := set_ram (hmm h) (λ y, if y =? x then b else ram (hmm h) y); caches := caches h |}.

(** [turns] bounds the search of the slab lists. *)
Definition serve (turns : nat) (r : request) h held : exec (heap * list (Z * Layout)) :=
  match r with
  | Alloc l =>
      '(p, h) ← heap_alloc h l;
      if p =? 0 then alloc_error l else Ret (h, (p, l) :: held)
  | Dealloc i =>
      '(p, l) ← expect (held !! i);
      h ← heap_dealloc turns h p l;
      Ret (h, delete i held)
  | Realloc i n =>
      '(p, l) ← expect (held !! i);
      '(q, h) ← heap_realloc turns h p l n;
      if q =? 0 then alloc_error (resize l n) else Ret (h, (q, resize l n) :: delete i held)
  | Write i off b =>
      '(p, _) ← expect (held !! i);
      Ret (write_byte h (p + off) b, held)
  end.

Fixpoint requests (turns : nat) rs h held : exec (heap * list (Z * Layout)) :=
  match rs with
  | [] => Ret (h, held)
  | r :: rs => '(h, held) ← serve turns r h held; requests turns rs h held
  end.

(** ** Well-formed clients

    Layouts of at most [2 ^ m] pages and at most page alignment; indices of objects
    held; writes inside the object. The layouts held after the requests: *)
Definition fits (m : nat) l : bool :=
  bool_decide (0 < size_ l ≤ PAGE_SIZE * 2 ^ m ∧ align l ∈ (λ k, 2 ^ Z.of_nat k) <$> seq 0 13).

Definition after_one (m : nat) (r : request) (ls : list Layout) : option (list Layout) :=
  match r with
  | Alloc l => if fits m l then Some (l :: ls) else None
  | Dealloc i => _ ← ls !! i; Some (delete i ls)
  | Realloc i n => l ← ls !! i; if fits m (resize l n) then Some (resize l n :: delete i ls) else None
  | Write i off _ => l ← ls !! i; if bool_decide (0 ≤ off < size_ l) then Some ls else None
  end%stdpp.

Fixpoint after (m : nat) rs (ls : list Layout) : option (list Layout) :=
  match rs with
  | [] => Some ls
  | r :: rs => ls ← after_one m r ls; after m rs ls
  end%stdpp.

(** How many requests take memory. *)
Definition takes (r : request) : nat := match r with Alloc _ | Realloc _ _ => 1 | _ => 0 end.
Definition cost rs : nat := sum_list_with takes rs.

(** ** Room

    [n] blocks of order [m] are free. An allocation spoils at most one of them, and
    one of them serves any layout that fits. *)
Definition room (m : nat) F (n : nat) : Prop :=
  ∃ bs, NoDup bs ∧ (n ≤ length bs)%nat ∧ ∀ b, b ∈ bs → block_ok m b ∧ block_set m b ⊆ F.

(** The frames of a block lie in one window of [2 ^ m] frames. *)
Lemma block_window (o m : nat) k f : (o ≤ m)%nat → block_ok o k → f ∈ block_set o k → f / 2 ^ m = k / (PAGE_SIZE * 2 ^ m).
Proof.
  intros Hom (Hk & Ha & _) [H1 H2]%block_set_elem%block_frames_elem.
  assert (Hp : 0 < 2 ^ o) by (apply Z.pow_pos_nonneg; lia). assert (Hq : 0 < 2 ^ (m - o)) by (apply Z.pow_pos_nonneg; lia).
  assert (Em : 2 ^ m = 2 ^ o * 2 ^ (m - o)) by (rewrite <- Z.pow_add_r by lia; f_equal; lia).
  apply Z.mod_divide in Ha as [j ->]; [|lia].
  rewrite Em, (Z.mul_assoc PAGE_SIZE), <- (Z.div_div f), <- (Z.div_div _ (PAGE_SIZE * 2 ^ o)), Z.div_mul by lia. f_equal.
  replace (j * (PAGE_SIZE * 2 ^ o)) with (2 ^ o * j * PAGE_SIZE) in * by lia. rewrite Z.div_mul in * by lia.
  symmetry. apply (Z.div_unique _ _ _ (f - 2 ^ o * j)); lia.
Qed.

Lemma room_take m F F' D n w : (∀ f, f ∈ D → f / 2 ^ Z.of_nat m = w) → F ∖ D ⊆ F' → room m F (S n) → room m F' n.
Proof.
  intros HD HF (bs & Hnd & Hn & Hbs). set (x := w * (PAGE_SIZE * 2 ^ m)).
  assert (Hgo : ∀ bs', NoDup bs' → (n ≤ length bs')%nat → x ∉ bs' → bs' ⊆ bs → room m F' n).
  { intros bs' Hnd' Hn' Hx Hsub. exists bs'. split_and!; [done|done|]. intros b Hb. destruct (Hbs b (Hsub b Hb)) as [Hok HbF].
    split; [done|]. intros f Hf. apply HF, elem_of_difference. split; [by apply HbF|]. intros Hd. apply Hx.
    pose proof (block_window m m b f ltac:(lia) Hok Hf) as E. rewrite (HD f Hd) in E. destruct Hok as (_ & Ha & _).
    replace x with b; [done|]. unfold x. rewrite E. pose proof (Z.div_mod b (PAGE_SIZE * 2 ^ m)). pose proof (Z.pow_pos_nonneg 2 m). lia. }
  destruct (decide (x ∈ bs)) as [Hx|Hx]; [|by apply (Hgo bs); [|lia|..]].
  apply elem_of_Permutation in Hx as [bs' Hp]. rewrite Hp in Hnd, Hn. apply NoDup_cons in Hnd as [Hx Hnd].
  apply (Hgo bs'); [done|simpl in Hn; lia|done|]. intros b Hb. rewrite Hp. by right.
Qed.

Lemma room_mono m F F' n n' : (n' ≤ n)%nat → F ⊆ F' → room m F n → room m F' n'.
Proof. intros Hn HF (bs & H1 & H2 & H3). exists bs. split_and!; [done|lia|]. intros b Hb. destruct (H3 b Hb). split; [done|]. by etrans. Qed.

Lemma block_inside (o m : nat) b : (o ≤ m)%nat → block_ok m b → block_ok o b ∧ block_set o b ⊆ block_set m b.
Proof.
  intros Hom (H1 & H2 & H3). assert (Hp : 0 < 2 ^ o ≤ 2 ^ m) by (split; [apply Z.pow_pos_nonneg; lia|apply Z.pow_le_mono_r; lia]).
  split; [split_and!; [done| |lia]|].
  - apply Z.mod_divide; [lia|]. apply Z.mod_divide in H2 as [j ->]; [|lia]. exists (j * 2 ^ (m - o)).
    replace (2 ^ m) with (2 ^ (m - o) * 2 ^ o) by (rewrite <- Z.pow_add_r by lia; f_equal; lia). lia.
  - intros f. rewrite !block_set_elem, !block_frames_elem. lia.
Qed.

Lemma room_block (o m : nat) F n : (o ≤ m)%nat → room m F (S n) → ∃ b, block_ok o b ∧ block_set o b ⊆ F.
Proof.
  intros Hom ([|b bs] & _ & Hn & Hbs); [simpl in Hn; lia|]. destruct (Hbs b) as [Hok Hb]; [by left|].
  destruct (block_inside o m b Hom Hok) as [H1 H2]. exists b. split; [done|]. by etrans.
Qed.

(** ** What a client holds

    Small layouts are objects of slabs, large ones blocks of frames. *)
Inductive ledger : list (Z * Layout) → gset Z → gset (Z * Z) → Prop :=
  | ledger_nil : ledger [] ∅ ∅
  | ledger_small p l z held B L : is_small l = true → size_class (Z.max (size_ l) (align l)) = Some z → size_ l ≤ z →
      (z, p) ∉ L → ledger held B L → ledger ((p, l) :: held) B ({[(z, p)]} ∪ L)
  | ledger_large q l (o : nat) held B L : is_small l = false → size_ l ≤ PAGE_SIZE * 2 ^ o → (∀ k, 0 ≤ k → size_ l ≤ PAGE_SIZE * 2 ^ k → o ≤ k) →
      (o ≤ MAX_ORDER)%nat → block_ok o q → block_set o q ## B → ledger held B L →
      ledger ((q + hhdm_offset, l) :: held) (B ∪ block_set o q) L.

Lemma ledger_perm held held' B L : held ≡ₚ held' → ledger held B L → ledger held' B L.
Proof.
  intros Hp. revert B L. induction Hp as [|x l1 l2 _ IH|x y l1|l1 l2 l3 _ IH1 _ IH2]; intros B L H; [done| | |by apply IH2, IH1].
  - inversion H; subst; econstructor; eauto.
  - inversion H as [|p l z ? ? L1 S1 C1 Z1 N1 H1|q l o ? B1 ? S1 Z1 M1 O1 K1 N1 H1]; subst;
      inversion H1 as [|p2 l2 z2 ? ? L2 S2 C2 Z2 N2 H2|q2 l2 o2 ? B2 ? S2 Z2 M2 O2 K2 N2 H2]; subst.
    + replace ({[(z, p)]} ∪ ({[(z2, p2)]} ∪ L2)) with ({[(z2, p2)]} ∪ ({[(z, p)]} ∪ L2)) by set_solver.
      constructor; [done..|set_solver|]. constructor; [done..|set_solver|done].
    + constructor; [done..|]. by constructor.
    + constructor; [done..|]. by constructor.
    + replace (B2 ∪ block_set o2 q2 ∪ block_set o q) with (B2 ∪ block_set o q ∪ block_set o2 q2) by set_solver.
      constructor; [done..|set_solver|]. constructor; [done..|set_solver|done].
Qed.

(** [X] are the frames that others hold. *)
Definition client_inv h F X held : Prop :=
  Forall (λ x : Z * Layout, layout_ok x.2 ∧ size_ x.2 ≠ 0) held ∧ ∃ B L, ledger held B L ∧ X ## B ∧ heap_inv true h F (X ∪ B) L.

Lemma client_perm h F X held held' : held ≡ₚ held' → client_inv h F X held → client_inv h F X held'.
Proof. intros Hp [Hl (B & L & H1 & H2)]. split; [by rewrite <- Hp|]. exists B, L. split; [by eapply ledger_perm|done]. Qed.

Lemma fits_ok m l : fits m l = true → (m ≤ MAX_ORDER)%nat → layout_ok l ∧ size_ l ≠ 0 ∧ align l ≤ PAGE_SIZE ∧ 0 < align l.
Proof.
  intros [Hs (k & Ek & Hk%elem_of_seq)%list_elem_of_fmap]%bool_decide_eq_true_1 Hm. rewrite Ek.
  assert (2 ^ m ≤ 2 ^ 12) by (apply Z.pow_le_mono_r; lia). assert (2 ^ k ≤ 2 ^ 12) by (apply Z.pow_le_mono_r; lia).
  assert (0 < 2 ^ k) by (apply Z.pow_pos_nonneg; lia). split; [split; [lia|eauto]|]. lia.
Qed.

(** ** The requests succeed *)
Lemma client_alloc h F X held l m n : client_inv h F X held → fits m l = true → (m ≤ MAX_ORDER)%nat → room m F (S n) →
  ∃ p h' F', heap_alloc h l = Ret (p, h') ∧ p ≠ 0 ∧ client_inv h' F' X ((p, l) :: held) ∧ room m F' n ∧
    same_frames X (ram (hmm h)) (ram (hmm h')).
Proof.
  intros [Hall (B & L & Hled & HXB & HI)] Hf Hm Hroom. destruct (fits_ok m l Hf Hm) as (Hl & Hnz & _).
  assert (Hall' : ∀ p : Z, Forall (λ x : Z * Layout, layout_ok x.2 ∧ size_ x.2 ≠ 0) ((p, l) :: held)) by (intros p; by constructor).
  apply bool_decide_eq_true_1 in Hf as [Hsz _]. destruct (is_small l) eqn:Es.
  - destruct (heap_alloc_small true h F (X ∪ B) L l HI Hl Hnz Es) as (p & h' & E & Hr). exists p, h'.
    destruct Hr as [(_ & _ & ->)|(z & F' & Hc & Hz & _ & Hp & Hnew & _ & HI' & _ & Hsame & f & Hone)].
    { destruct (room_block 0 m ∅ n ltac:(lia) Hroom) as (b & Hb & Hsub). rewrite block_set_0 in Hsub. set_solver. }
    exists F'. split_and!; [done|lia| | |intros x Hx; apply Hsame; set_solver].
    + split; [done|]. exists B, ({[(z, p)]} ∪ L). split; [by constructor|done].
    + apply (room_take m F F' {[f]} n (f / 2 ^ m)); [|done|done]. by intros g ->%elem_of_singleton.
  - destruct (heap_alloc_large true h F (X ∪ B) L l HI Hl Hnz Es) as (p & h' & o & E & Hfit & Hmin & Hr). exists p, h'.
    assert (Hom : (o ≤ m)%nat) by (specialize (Hmin m ltac:(lia) ltac:(lia)); lia).
    destruct Hr as [(_ & _ & Hno)|(q & -> & Hmax & Hok & Hsub & HI' & _ & _ & Hsame)].
    { destruct (room_block o m F n Hom Hroom) as (b & Hb & Hsub). destruct (Hno eq_refl ltac:(lia) b Hb Hsub). }
    exists (F ∖ block_set o q). assert (HFB : F ## X ∪ B) by (destruct HI as [G HR]; apply HR).
    split_and!; [done|pose proof hhdm_pos; destruct Hok; lia| | |intros x Hx; apply Hsame; set_solver].
    + split; [done|]. exists (B ∪ block_set o q), L. split; [constructor; try done; set_solver|]. split; [set_solver|]. by rewrite assoc_L by apply _.
    + apply (room_take m F _ (block_set o q) n (q / (PAGE_SIZE * 2 ^ m))); [|done|done]. intros f. by apply block_window.
Qed.

Lemma object_held co h F B L z a x : heap_inv co h F B L → (z, a) ∈ L → a ≤ x < a + z → vframe x ∉ B.
Proof.
  intros [G HR] Hin Hx Hb. apply (hr_live _ _ _ _ _ _ HR) in Hin as [Hz (b & l & Hbl & Ha & _)].
  destruct (held_page co h F B L G z x HR Hz Hb) as [_ Hp]. specialize (Hp b ltac:(by eauto)). apply slot_range in Ha; [lia|done].
Qed.

Lemma block_bytes (o : nat) q x : block_ok o q → q + hhdm_offset ≤ x < q + hhdm_offset + PAGE_SIZE * 2 ^ o → vframe x ∈ block_set o q.
Proof.
  intros Hq Hx. rewrite block_set_elem, block_frames_elem. unfold vframe. pose proof (block_ok_page _ _ Hq).
  split; [apply Z.div_le_mono; lia|]. apply Z.div_lt_upper_bound; lia.
Qed.

Lemma client_write h F X held p l m' : client_inv h F X held → (p, l) ∈ held → (∀ x, x < p ∨ p + size_ l ≤ x → m' x = ram (hmm h) x) →
  client_inv {| hmm := set_ram (hmm h) m'; caches := caches h |} F X held ∧ same_frames X (ram (hmm h)) m'.
Proof.
  intros [Hall (B & L & Hled & HXB & HI)] Hin Hm. apply elem_of_Permutation in Hin as [held' Hp].
  pose proof (ledger_perm _ _ _ _ Hp Hled) as Hl'. inversion Hl' as [|? ? z ? ? L1 S1 C1 Z1 N1 H1|q ? o ? B1 ? S1 Z1 M1 O1 K1 N1 H1]; subst.
  - assert (Hin : (z, p) ∈ {[(z, p)]} ∪ L1) by set_solver. split.
    + split; [done|]. exists B, ({[(z, p)]} ∪ L1). split_and!; [done|done|]. apply (heap_write true h F _ _ z p m' HI Hin). intros x Hx. apply Hm. lia.
    + intros x Hx. apply Hm. destruct (decide (p ≤ x < p + size_ l)); [|lia]. exfalso.
      apply (object_held true h F _ _ z p x HI Hin); [lia|set_solver].
  - assert (Hout : ∀ x, vframe x ∉ block_set o q → m' x = ram (hmm h) x).
    { intros x Hx. apply Hm. destruct (decide (q + hhdm_offset ≤ x < q + hhdm_offset + size_ l)); [|lia]. exfalso. apply Hx, block_bytes; [done|lia]. }
    split; [|intros x Hx; apply Hout; set_solver]. split; [done|]. exists (B1 ∪ block_set o q), L. split_and!; [done|done|].
    destruct HI as [G HR]. exists G. pose proof (hr_disj _ _ _ _ _ _ HR) as HFB.
    apply (heap_outside true h (set_ram (hmm h) m') F F (X ∪ (B1 ∪ block_set o q))); [done| |done|done|].
    + apply pmm_inv_frame; [apply HR|]. intros x Hx. apply Hout. set_solver.
    + intros x _ Hx. apply Hout. set_solver.
Qed.

Lemma client_dealloc turns h F X held held' p l : client_inv h F X held → held ≡ₚ (p, l) :: held' → MAX_SLABS < Z.of_nat turns →
  ∃ h' F', heap_dealloc turns h p l = Ret h' ∧ F ⊆ F' ∧ client_inv h' F' X held' ∧ same_frames X (ram (hmm h)) (ram (hmm h')).
Proof.
  intros [Hall (B & L & Hled & HXB & HI)] Hp Ht. rewrite Hp in Hall. apply Forall_cons in Hall as [[Hl Hnz] Hall].
  pose proof (ledger_perm _ _ _ _ Hp Hled) as Hl'. inversion Hl' as [|? ? z ? ? L1 S1 C1 Z1 N1 H1|q ? o ? B1 ? S1 Z1 M1 O1 K1 N1 H1]; subst.
  - destruct (heap_dealloc_small true h F _ _ l z p HI Hnz S1 C1) as (n & Hn & Hd); [set_solver|].
    destruct (Hd turns) as (h' & F' & E & HF & _ & Hsame & HI'); [lia|]. exists h', F'.
    split_and!; [done|done| |intros x Hx; apply Hsame; set_solver]. split; [done|]. exists B, L1. split_and!; [done|done|].
    by replace (({[(z, p)]} ∪ L1) ∖ {[(z, p)]}) with L1 in HI' by set_solver.
  - destruct (heap_dealloc_large true h F _ L l q o turns HI Hl Hnz S1 O1 Z1 M1 K1) as (h' & E & _ & HI' & Hsame); [set_solver|].
    exists h', (F ∪ block_set o q). split_and!; [done|set_solver| |intros x Hx; apply Hsame; set_solver]. split; [done|].
    exists B1, L. split_and!; [done|set_solver|].
    by replace ((X ∪ (B1 ∪ block_set o q)) ∖ block_set o q) with (X ∪ B1) in HI' by set_solver.
Qed.

Lemma client_realloc turns h F X held held' p l m n k : client_inv h F X held → held ≡ₚ (p, l) :: held' → fits m (resize l k) = true →
  (m ≤ MAX_ORDER)%nat → room m F (S n) → MAX_SLABS < Z.of_nat turns →
  ∃ q h' F', heap_realloc turns h p l k = Ret (q, h') ∧ q ≠ 0 ∧ client_inv h' F' X ((q, resize l k) :: held') ∧ room m F' n ∧
    same_frames X (ram (hmm h)) (ram (hmm h')).
Proof.
  intros HI Hp Hf Hm Hroom Ht. destruct (fits_ok m _ Hf Hm) as (_ & _ & Ha & _). pose proof (bool_decide_eq_true_1 _ Hf) as [Hsz _].
  cbn [resize size_ align] in Ha, Hsz. assert (2 ^ m ≤ 2 ^ 12) by (apply Z.pow_le_mono_r; lia).
  unfold heap_realloc, from_size_align. rewrite (proj2 (Z.leb_le k _)) by lia. cbn [expect]. exec_simpl. fold (resize l k).
  destruct (client_alloc h F X held (resize l k) m n HI Hf Hm Hroom) as (q & h1 & F1 & E1 & Hq & HI1 & R1 & S1). rewrite E1. exec_simpl.
  rewrite (proj2 (Z.eqb_neq q 0)) by done. set (mc := mem_copy _ _ _ _).
  destruct (client_write h1 F1 X _ q (resize l k) mc HI1) as [HI2 S2]; [by left| |].
  { intros x Hx. unfold mc, mem_copy. cbn [resize size_] in Hx. destruct (Z.leb_spec q x), (Z.ltb_spec x (q + Z.min (size_ l) k)); cbn; [lia|done..]. }
  destruct (client_dealloc turns _ F1 X _ ((q, resize l k) :: held') p l HI2) as (h3 & F3 & E3 & HF & HI3 & S3); [rewrite Hp; by constructor|done|].
  rewrite E3. exec_simpl. exists q, h3, F3. split_and!; [done|done|done|by apply (room_mono m F1 F3 n)|].
  intros x Hx. rewrite S3, S2 by done. by apply S1.
Qed.

Lemma held_layout held i ls l : snd <$> held = ls → ls !! i = Some l → ∃ p, held !! i = Some (p, l) ∧ snd <$> delete i held = delete i ls.
Proof.
  intros <- Hi. rewrite list_lookup_fmap in Hi. apply fmap_Some in Hi as ([p l'] & Hi & ->). exists p. split; [done|].
  clear. revert i. induction held as [|x held IH]; intros [|i]; cbn; try done. f_equal. apply IH.
Qed.

Lemma serve_ok turns r h F X held ls m n : client_inv h F X held → after_one m r (snd <$> held) = Some ls → (m ≤ MAX_ORDER)%nat →
  room m F (takes r + n) → MAX_SLABS < Z.of_nat turns →
  ∃ h' held' F', serve turns r h held = Ret (h', held') ∧ snd <$> held' = ls ∧ client_inv h' F' X held' ∧ room m F' n ∧
    same_frames X (ram (hmm h)) (ram (hmm h')).
Proof.
  intros HI Ha Hm Hroom Ht. destruct r as [l|i|i k|i off b]; cbn [serve after_one takes] in *.
  - destruct (fits m l) eqn:Hf; [|done]. injection Ha as <-.
    destruct (client_alloc h F X held l m n HI Hf Hm Hroom) as (p & h' & F' & E & Hp & HI' & R & S). rewrite E. exec_simpl.
    rewrite (proj2 (Z.eqb_neq p 0)) by done. by exists h', ((p, l) :: held), F'.
  - destruct (_ !! i) as [l|] eqn:Hi; [|done]. injection Ha as <-. destruct (held_layout held i _ l eq_refl Hi) as (p & Hh & Hd). rewrite Hh. exec_simpl.
    destruct (client_dealloc turns h F X held (delete i held) p l HI) as (h' & F' & E & HF & HI' & S); [by apply delete_Permutation|done|].
    rewrite E. exec_simpl. exists h', (delete i held), F'. split_and!; [done|done|done|by apply (room_mono m F F' n)|done].
  - destruct (_ !! i) as [l|] eqn:Hi; [|done]. cbn in Ha. destruct (fits m (resize l k)) eqn:Hf; [|done]. injection Ha as <-.
    destruct (held_layout held i _ l eq_refl Hi) as (p & Hh & Hd). rewrite Hh. exec_simpl.
    destruct (client_realloc turns h F X held (delete i held) p l m n k HI) as (q & h' & F' & E & Hq & HI' & R & S); [by apply delete_Permutation|done..|].
    rewrite E. exec_simpl. rewrite (proj2 (Z.eqb_neq q 0)) by done. exists h', ((q, resize l k) :: delete i held), F'.
    split_and!; [done|cbn; by f_equal|done..].
  - destruct (_ !! i) as [l|] eqn:Hi; [|done]. cbn in Ha. case_bool_decide as Ho; [|done]. injection Ha as <-.
    destruct (held_layout held i _ l eq_refl Hi) as (p & Hh & _). rewrite Hh. exec_simpl.
    destruct (client_write h F X held p l (λ y, if y =? p + off then b else ram (hmm h) y) HI) as [HI' S]; [by eapply list_elem_of_lookup_2| |].
    { intros x Hx. by rewrite (proj2 (Z.eqb_neq _ _)) by lia. }
    eexists _, held, F. split; [reflexivity|]. by split_and!.
Qed.

(** A well-formed client never meets [alloc_error] while there is room for each of
    its requests, and the memory of the frames that others hold stays as it is. *)
Lemma requests_ok turns m rs : ∀ h F X held ls n, client_inv h F X held → after m rs (snd <$> held) = Some ls → (m ≤ MAX_ORDER)%nat →
  room m F (cost rs + n) → MAX_SLABS < Z.of_nat turns →
  ∃ h' held' F', requests turns rs h held = Ret (h', held') ∧ snd <$> held' = ls ∧ client_inv h' F' X held' ∧ room m F' n ∧
    same_frames X (ram (hmm h)) (ram (hmm h')).
Proof.
  induction rs as [|r rs IH]; intros h F X held ls n HI Ha Hm Hroom Ht; cbn [requests after cost sum_list_with] in *.
  - injection Ha as <-. by exists h, held, F.
  - destruct (after_one m r (snd <$> held)) as [ls1|] eqn:E1; [|done]. cbn in Ha.
    destruct (serve_ok turns r h F X held ls1 m (cost rs + n) HI E1 Hm) as (h1 & held1 & F1 & Es & <- & HI1 & R1 & S1); [by rewrite Nat.add_assoc|done|].
    destruct (IH h1 F1 X held1 ls n HI1 Ha Hm R1 Ht) as (h2 & held2 & F2 & Er & El & HI2 & R2 & S2). rewrite Es. exec_simpl. rewrite Er.
    exists h2, held2, F2. split_and!; [done..|]. intros x Hx. rewrite S2 by done. by apply S1.
Qed.

Lemma after_app m rs1 rs2 ls : after m (rs1 ++ rs2) ls = (after m rs1 ls ≫= after m rs2).
Proof. revert ls. induction rs1 as [|r rs1 IH]; intros ls; [done|]. cbn [app after]. destruct (after_one m r ls); cbn; [apply IH|done]. Qed.

Lemma cost_app rs1 rs2 : cost (rs1 ++ rs2) = (cost rs1 + cost rs2)%nat.
Proof. apply sum_list_with_app. Qed.

(** ** Frames taken from the allocator itself *)
Lemma client_frames h F X held (o m : nat) n : client_inv h F X held → (o ≤ m)%nat → (m ≤ MAX_ORDER)%nat → room m F (S n) →
  ∃ k s', alloc_frames (hmm h) o = Ret (Some k, s') ∧ block_ok o k ∧ block_set o k ⊆ F ∧ block_set o k ## X ∧
    client_inv {| hmm := s'; caches := caches h |} (F ∖ block_set o k) (X ∪ block_set o k) held ∧ room m (F ∖ block_set o k) n ∧
    same_frames X (ram (hmm h)) (ram s').
Proof.
  intros [Hall (B & L & Hled & HXB & [G HR])] Hom Hm Hroom. pose proof (hr_disj _ _ _ _ _ _ HR) as HFB.
  destruct (alloc_refines true (hmm h) F o (hr_pmm _ _ _ _ _ _ HR)) as (r & s' & E & Hr). destruct r as [k|]; cycle 1.
  { destruct Hr as [_ Hr]. destruct (room_block o m F n Hom Hroom) as (b & Hb & Hsub). destruct (Hr ltac:(lia) ltac:(by left) b Hb Hsub). }
  destruct Hr as (_ & Hk & Hsub & HI & HM & _). exists k, s'. split_and!; [done|done|done|set_solver| | |intros x Hx; apply HM; set_solver].
  - split; [done|]. exists B, L. split_and!; [done|set_solver|]. exists G.
    apply (heap_outside true h s' F _ (X ∪ B)); [done|done|set_solver|set_solver|]. intros x Hx _. by apply HM.
  - apply (room_take m F _ (block_set o k) n (k / (PAGE_SIZE * 2 ^ m))); [|done|done]. intros f. by apply block_window.
Qed.

Lemma client_boot s F X : pmm_inv true s F → F ## X → client_inv {| hmm := s; caches := KernelAllocator_new |} F X [].
Proof.
  intros HI HX. split; [done|]. exists ∅, ∅. split_and!; [constructor|set_solver|]. apply heap_boot; [done|set_solver].
Qed.

Lemma client_less h F X X' held : X' ⊆ X → client_inv h F X held → client_inv h F X' held.
Proof.
  intros HX [Hall (B & L & Hled & HXB & [G HR])]. split; [done|]. exists B, L. split_and!; [done|set_solver|]. exists G.
  pose proof (hr_disj _ _ _ _ _ _ HR) as HFB. destruct h as [s cs].
  apply (heap_outside true {| hmm := s; caches := cs |} s F F (X ∪ B) (X' ∪ B)); [done|apply HR|set_solver|set_solver|done].
Qed.

Lemma client_free h F X held : client_inv h F X held → pmm_inv true (hmm h) F ∧ F ## X.
Proof. intros [_ (B & L & _ & _ & [G HR])]. split; [apply HR|]. pose proof (hr_disj _ _ _ _ _ _ HR). set_solver. Qed.
End HeapUse.
