(* ===== verification/Vmm.v ===== *)
(** Virtual memory ([src/src/mm/vmm.rs]): four-level page tables in byte memory
    over the frame allocator, address spaces, and virtual memory areas.

    The page tables of an address space form a tree, described by a ghost map
    [T] from paths to the physical addresses of tables (Section [Tree]). The
    operations are proved against [FrameAllocator], the promise of the physical
    allocator, and specified by what the processor's page walk [mmu_walk] sees. *)
From S2P Require Import Prelude Machine Pmm.

(** ** Page-table entries *)
Abbreviation PTE_PRESENT := 0x1 (only parsing).
Abbreviation PTE_WRITABLE := 0x2 (only parsing).
Abbreviation PTE_USER := 0x4 (only parsing).
Abbreviation PTE_LARGE := 0x80 (only parsing).
Abbreviation PTE_NO_EXEC := 0x8000000000000000 (only parsing).
Abbreviation PTE_ADDR_MASK := 0x000FFFFFFFFFF000 (only parsing).
Abbreviation LARGE_SIZE := 2097152 (only parsing).

(** The number of the page of an address. *)
Abbreviation page v := (v / PAGE_SIZE) (only parsing).

(** [e & bit != 0] *)
Definition has (e bit : Z) : bool := negb (Z.land e bit =? 0).

Section Vmm.
Context {hh : Hhdm}.
Implicit Types (s : mm) (m : mem) (t p v : Z).

(** ** [PageTable]: 512 entries at the kernel address [t] *)
Definition entry m t (idx : Z) : Z := load64 m (t + 8 * idx).

Definition get_entry m t (idx : Z) : exec Z :=
  if idx <? 512 then Ret (entry m t idx) else Panic.

Definition set_entry s t (idx val : Z) : exec mm :=
  if idx <? 512 then Ret (set_ram s (store64 (ram s) (t + 8 * idx) val)) else Panic.

Definition is_present m t (idx : Z) : exec bool :=
  e ← get_entry m t idx; Ret (has e PTE_PRESENT).

Definition zero s t : exec mm := Ret (set_ram s (mem_fill (ram s) t PAGE_SIZE 0)).

(** The first half of [get_or_alloc_table]: a missing table is allocated. *)
Definition ensure_table s t (idx flags : Z) : exec (bool * mm) :=
  b ← is_present (ram s) t idx;
  if b : bool then Ret (true, s)
  else
    '(r, s) ← alloc_zeroed_frame s;
    match r with
    | None => Ret (false, s)
    | Some phys =>
        s ← set_entry s t idx (Z.lor (Z.lor phys flags) PTE_PRESENT);
        Ret (true, s)
    end.

Definition get_or_alloc_table s t (idx flags : Z) : exec (option Z * mm) :=
  '(ok, s) ← ensure_table s t idx flags;
  if ok : bool then
    e ← get_entry (ram s) t idx;
    virt ← phys_to_virt (Z.land e PTE_ADDR_MASK);
    Ret (Some virt, s)
  else Ret (None, s).

Definition get_table m t (idx : Z) : exec (option Z) :=
  b ← is_present m t idx;
  if b : bool then
    e ← get_entry m t idx;
    virt ← phys_to_virt (Z.land e PTE_ADDR_MASK);
    Ret (Some virt)
  else Ret None.

Definition pml4_idx (vaddr : Z) : Z := Z.land (Z.shiftr vaddr 39) 0x1FF.
Definition pdpt_idx (vaddr : Z) : Z := Z.land (Z.shiftr vaddr 30) 0x1FF.
Definition pd_idx (vaddr : Z) : Z := Z.land (Z.shiftr vaddr 21) 0x1FF.
Definition pt_idx (vaddr : Z) : Z := Z.land (Z.shiftr vaddr 12) 0x1FF.

(** ** [AddressSpace] *)
Record AddressSpace := { pml4_phys : Z }.
Implicit Types (sp : AddressSpace).

(** [init] records the physical address of the boot page tables. *)
Definition init_kernel_pml4 (cr3 : Z) : Z := Z.land cr3 PTE_ADDR_MASK.

Definition kernel (cr3 : Z) : AddressSpace := {| pml4_phys := Z.land cr3 PTE_ADDR_MASK |}.

Definition get_kernel_pml4 (KERNEL_PML4_PHYS : Z) : exec Z :=
  _ ← assert_ (negb (KERNEL_PML4_PHYS =? 0));
  phys_to_virt KERNEL_PML4_PHYS.

Definition new_user (KERNEL_PML4_PHYS : Z) s : exec (option AddressSpace * mm) :=
  '(r, s) ← alloc_zeroed_frame s;
  match r with
  | None => Ret (None, s)
  | Some p =>
      kernel_pml4 ← get_kernel_pml4 KERNEL_PML4_PHYS;
      user_pml4 ← phys_to_virt p;
      s ← for_each (seqZ 256 256) (λ i s,
             e ← get_entry (ram s) kernel_pml4 i;
             set_entry s user_pml4 i e) s;
      Ret (Some {| pml4_phys := p |}, s)
  end.

Abbreviation parent_flags := (Z.lor PTE_WRITABLE PTE_USER) (only parsing).

Definition map s sp (virt phys flags : Z) : exec (bool * mm) :=
  pml4 ← phys_to_virt (pml4_phys sp);
  '(r, s) ← get_or_alloc_table s pml4 (pml4_idx virt) parent_flags;
  match r with
  | None => Ret (false, s)
  | Some pdpt =>
      '(r, s) ← get_or_alloc_table s pdpt (pdpt_idx virt) parent_flags;
      match r with
      | None => Ret (false, s)
      | Some pd =>
          '(r, s) ← get_or_alloc_table s pd (pd_idx virt) parent_flags;
          match r with
          | None => Ret (false, s)
          | Some pt =>
              s ← set_entry s pt (pt_idx virt)
                    (Z.lor (Z.lor (Z.land phys PTE_ADDR_MASK) flags) PTE_PRESENT);
              Ret (true, s)
          end
      end
  end.

Definition map_large s sp (virt phys flags : Z) : exec (bool * mm) :=
  _ ← assert_ (virt mod LARGE_SIZE =? 0);
  _ ← assert_ (phys mod LARGE_SIZE =? 0);
  pml4 ← phys_to_virt (pml4_phys sp);
  '(r, s) ← get_or_alloc_table s pml4 (pml4_idx virt) parent_flags;
  match r with
  | None => Ret (false, s)
  | Some pdpt =>
      '(r, s) ← get_or_alloc_table s pdpt (pdpt_idx virt) parent_flags;
      match r with
      | None => Ret (false, s)
      | Some pd =>
          s ← set_entry s pd (pd_idx virt)
                (Z.lor (Z.lor (Z.lor (Z.land phys PTE_ADDR_MASK) flags) PTE_PRESENT) PTE_LARGE);
          Ret (true, s)
      end
  end.

(** The loop of [map_range]; [fuel] bounds the iterations. *)
Fixpoint map_range_loop (fuel : nat) s sp (virt phys size flags offset : Z) : exec (bool * mm) :=
  match fuel with
  | O => NoFuel
  | S fuel =>
      if offset <? size then
        v ← u64_add virt offset;
        p ← u64_add phys offset;
        if (LARGE_SIZE <=? size - offset) && (v mod LARGE_SIZE =? 0) && (p mod LARGE_SIZE =? 0) then
          '(ok, s) ← map_large s sp v p flags;
          if ok : bool then
            offset ← u64_add offset LARGE_SIZE;
            map_range_loop fuel s sp virt phys size flags offset
          else Ret (false, s)
        else
          '(ok, s) ← map s sp v p flags;
          if ok : bool then
            offset ← u64_add offset PAGE_SIZE;
            map_range_loop fuel s sp virt phys size flags offset
          else Ret (false, s)
      else Ret (true, s)
  end.

(** Every iteration advances by a page at least, so [size / PAGE_SIZE + 2]
    rounds are enough. *)
Definition map_range s sp (virt phys size flags : Z) : exec (bool * mm) :=
  map_range_loop (Z.to_nat (size / PAGE_SIZE + 2)) s sp virt phys size flags 0.

Definition unmap s sp (virt : Z) : exec mm :=
  pml4 ← phys_to_virt (pml4_phys sp);
  r ← get_table (ram s) pml4 (pml4_idx virt);
  match r with
  | None => Ret s
  | Some pdpt =>
      r ← get_table (ram s) pdpt (pdpt_idx virt);
      match r with
      | None => Ret s
      | Some pd =>
          r ← get_table (ram s) pd (pd_idx virt);
          match r with
          | None => Ret s
          | Some pt => set_entry s pt (pt_idx virt) 0
          end
      end
  end.

Definition translate m sp (virt : Z) : exec (option Z) :=
  pml4 ← phys_to_virt (pml4_phys sp);
  r ← get_table m pml4 (pml4_idx virt);
  match r with
  | None => Ret None
  | Some pdpt =>
      r ← get_table m pdpt (pdpt_idx virt);
      match r with
      | None => Ret None
      | Some pd =>
          pd_entry ← get_entry m pd (pd_idx virt);
          if has pd_entry PTE_LARGE then
            phys ← u64_add (Z.land pd_entry PTE_ADDR_MASK) (Z.land virt 0x1FFFFF);
            Ret (Some phys)
          else
            r ← get_table m pd (pd_idx virt);
            match r with
            | None => Ret None
            | Some pt =>
                entry ← get_entry m pt (pt_idx virt);
                if has entry PTE_PRESENT
                then Ret (Some (Z.lor (Z.land entry PTE_ADDR_MASK) (Z.land virt 0xFFF)))
                else Ret None
            end
      end
  end.

(** ** Dropping an address space *)

(** Frees the page tables below one present, non-large entry of a directory. *)
Definition free_pd_tables pd_phys s : exec mm :=
  pd ← phys_to_virt pd_phys;
  for_each (seqZ 0 512) (λ k s,
    b ← is_present (ram s) pd k;
    if b : bool then
      e ← get_entry (ram s) pd k;
      if has e PTE_LARGE then Ret s
      else free_frame s (Z.land e PTE_ADDR_MASK)
    else Ret s) s.

Definition free_pdpt_tables pdpt_phys s : exec mm :=
  pdpt ← phys_to_virt pdpt_phys;
  for_each (seqZ 0 512) (λ j s,
    b ← is_present (ram s) pdpt j;
    if b : bool then
      e ← get_entry (ram s) pdpt j;
      s ← free_pd_tables (Z.land e PTE_ADDR_MASK) s;
      free_frame s (Z.land e PTE_ADDR_MASK)
    else Ret s) s.

Definition free_user_page_tables s (pml4_phys : Z) : exec mm :=
  pml4 ← phys_to_virt pml4_phys;
  s ← for_each (seqZ 0 256) (λ i s,
    b ← is_present (ram s) pml4 i;
    if b : bool then
      e ← get_entry (ram s) pml4 i;
      s ← free_pdpt_tables (Z.land e PTE_ADDR_MASK) s;
      free_frame s (Z.land e PTE_ADDR_MASK)
    else Ret s) s;
  free_frame s pml4_phys.

Definition AddressSpace_drop s sp : exec mm := free_user_page_tables s (pml4_phys sp).

(** ** Bits of entries *)
Lemma has_lor a b bit : has (Z.lor a b) bit = has a bit || has b bit.
Proof.
  unfold has. rewrite Z.land_lor_distr_l.
  destruct (Z.eqb_spec (Z.land a bit) 0) as [Ha|Ha], (Z.eqb_spec (Z.land b bit) 0) as [Hb|Hb],
    (Z.eqb_spec (Z.lor (Z.land a bit) (Z.land b bit)) 0) as [Hc|Hc]; try done; exfalso.
  - apply Hc. by rewrite Ha, Hb.
  - apply Z.lor_eq_0_iff in Hc. by destruct Hc.
  - apply Z.lor_eq_0_iff in Hc. by destruct Hc.
  - apply Z.lor_eq_0_iff in Hc. by destruct Hc.
Qed.

Lemma mask_field x : Z.land x PTE_ADDR_MASK = PAGE_SIZE * ((x / PAGE_SIZE) mod 2 ^ 40).
Proof. apply (land_field x 40 12); lia. Qed.

Lemma mask_node p : node_ok p → Z.land p PTE_ADDR_MASK = p.
Proof.
  intros [Hp Ha]. rewrite mask_field. pose proof (Z.div_mod p PAGE_SIZE).
  rewrite Z.mod_small; [lia|]. change (2 ^ 40) with 1099511627776. lia.
Qed.

Lemma has_mask x bit : Z.land PTE_ADDR_MASK bit = 0 → has (Z.land x PTE_ADDR_MASK) bit = false.
Proof. intros H. unfold has. by rewrite <- Z.land_assoc, H, Z.land_0_r. Qed.

(** An entry built by [map] and [get_or_alloc_table]. *)
Definition flags_ok (flags : Z) : Prop := is_u64 flags ∧ Z.land flags PTE_ADDR_MASK = 0.

Definition make_pte (phys flags : Z) : Z :=
  Z.lor (Z.lor (Z.land phys PTE_ADDR_MASK) flags) PTE_PRESENT.

Lemma make_pte_u64 phys flags : is_u64 phys → flags_ok flags → is_u64 (make_pte phys flags).
Proof. intros ? []. unfold make_pte. apply lor_u64; [auto with saros|]. unfold is_u64. lia. Qed.

Lemma make_pte_present phys flags : has (make_pte phys flags) PTE_PRESENT = true.
Proof. unfold make_pte. rewrite has_lor. by rewrite orb_true_r. Qed.

Lemma make_pte_large phys flags : has (make_pte phys flags) PTE_LARGE = has flags PTE_LARGE.
Proof.
  unfold make_pte. rewrite !has_lor, has_mask by done. by rewrite orb_false_r.
Qed.

Lemma make_pte_addr phys flags :
  flags_ok flags → Z.land (make_pte phys flags) PTE_ADDR_MASK = Z.land phys PTE_ADDR_MASK.
Proof.
  intros [_ Hf]. unfold make_pte. rewrite !Z.land_lor_distr_l, Hf, <- Z.land_assoc.
  rewrite Z.land_diag. change (Z.land PTE_PRESENT PTE_ADDR_MASK) with 0. by rewrite !Z.lor_0_r.
Qed.

(** ** Indices of user addresses *)
Definition is_user (v : Z) : Prop := 0 ≤ v < 2 ^ 47.

Lemma idx_mod v k : 0 ≤ k → Z.land (Z.shiftr v k) 0x1FF = (v / 2 ^ k) mod 512.
Proof. intros. rewrite Z.shiftr_div_pow2 by lia. by rewrite (land_ones_mod _ 9). Qed.

Lemma pml4_idx_mod v : pml4_idx v = (v / 549755813888) mod 512.
Proof. by apply (idx_mod v 39). Qed.
Lemma pdpt_idx_mod v : pdpt_idx v = (v / 1073741824) mod 512.
Proof. by apply (idx_mod v 30). Qed.
Lemma pd_idx_mod v : pd_idx v = (v / 2097152) mod 512.
Proof. by apply (idx_mod v 21). Qed.
Lemma pt_idx_mod v : pt_idx v = (v / 4096) mod 512.
Proof. by apply (idx_mod v 12). Qed.

Lemma idx_range v :
  0 ≤ pml4_idx v < 512 ∧ 0 ≤ pdpt_idx v < 512 ∧ 0 ≤ pd_idx v < 512 ∧ 0 ≤ pt_idx v < 512.
Proof.
  rewrite pml4_idx_mod, pdpt_idx_mod, pd_idx_mod, pt_idx_mod.
  split_and!; apply Z.mod_pos_bound; lia.
Qed.

Lemma pml4_idx_user v : is_user v → 0 ≤ pml4_idx v < 256.
Proof. unfold is_user. intros. rewrite pml4_idx_mod. dlia. Qed.

Lemma user_large_page v w :
  is_user v → is_user w →
  pml4_idx v = pml4_idx w → pdpt_idx v = pdpt_idx w → pd_idx v = pd_idx w →
  v / LARGE_SIZE = w / LARGE_SIZE.
Proof.
  unfold is_user. rewrite !pml4_idx_mod, !pdpt_idx_mod, !pd_idx_mod. dlia.
Qed.

Lemma user_page v w :
  v / LARGE_SIZE = w / LARGE_SIZE → pt_idx v = pt_idx w → page v = page w.
Proof. rewrite !pt_idx_mod. dlia. Qed.

(** ** The page walk of the processor

    What address translation sees in memory from the root table [P]: the entry
    that maps [v], if there is one. *)
Inductive leaf := Small (e : Z) | Large (e : Z).

Definition table_at (p : Z) : Z := p + hhdm_offset.
Definition next_table (e : Z) : Z := table_at (Z.land e PTE_ADDR_MASK).

Definition mmu_walk m (P v : Z) : option leaf :=
  let e4 := entry m (table_at P) (pml4_idx v) in
  if negb (has e4 PTE_PRESENT) then None else
  let e3 := entry m (next_table e4) (pdpt_idx v) in
  if negb (has e3 PTE_PRESENT) then None else
  let e2 := entry m (next_table e3) (pd_idx v) in
  if negb (has e2 PTE_PRESENT) then None else
  if has e2 PTE_LARGE then Some (Large e2) else
  let e1 := entry m (next_table e2) (pt_idx v) in
  if has e1 PTE_PRESENT then Some (Small e1) else None.

(** The physical address a leaf gives to [v]. *)
Definition leaf_phys (v : Z) (l : leaf) : Z :=
  match l with
  | Small e => Z.land e PTE_ADDR_MASK + v mod PAGE_SIZE
  | Large e => Z.land e PTE_ADDR_MASK + v mod LARGE_SIZE
  end.

(** ** The table tree

    A path lists the indices from a table up to the root, last index first.
    Only the user half of the root is part of the tree; the kernel half is
    shared between address spaces. *)
Abbreviation tree_map := (gmap (list Z) Z) (only parsing).
Implicit Types (T : tree_map) (a b : list Z) (F : gset Z).

Definition slot a (i : Z) : Prop := 0 ≤ i < match a with [] => 256 | _ => 512 end.

Definition child_of (e : Z) : option Z :=
  if has e PTE_PRESENT && negb (has e PTE_LARGE) then Some (Z.land e PTE_ADDR_MASK) else None.

(** Only directories (depth 2) hold large entries, and those are present and
    2 MiB aligned. *)
Definition entry_wf (d : nat) (e : Z) : Prop :=
  has e PTE_LARGE = true →
  d = 2%nat ∧ has e PTE_PRESENT = true ∧ Z.land e PTE_ADDR_MASK mod LARGE_SIZE = 0.

Record tree m (P : Z) T : Prop := {
  tree_root : T !! [] = Some P;
  tree_node : ∀ a p, T !! a = Some p → node_ok p;
  tree_inj : ∀ a b p, T !! a = Some p → T !! b = Some p → a = b;
  tree_up : ∀ a i q, T !! (i :: a) = Some q → (length a ≤ 2)%nat ∧ slot a i ∧ is_Some (T !! a);
  tree_down : ∀ a i p, T !! a = Some p → (length a ≤ 2)%nat → slot a i →
    T !! (i :: a) = child_of (entry m (table_at p) i) ∧
    entry_wf (length a) (entry m (table_at p) i)
}.

Definition tables T : gset Z := list_to_set ((λ x : list Z * Z, x.2 / PAGE_SIZE) <$> map_to_list T).

Lemma elem_of_tables T f : f ∈ tables T ↔ ∃ a p, T !! a = Some p ∧ f = p / PAGE_SIZE.
Proof.
  unfold tables. rewrite elem_of_list_to_set, list_elem_of_fmap. split.
  - intros ([a p] & -> & H%elem_of_map_to_list). eauto.
  - intros (a & p & H & ->). exists (a, p). split; [done|]. by apply elem_of_map_to_list.
Qed.

Lemma slot_512 a i : slot a i → 0 ≤ i < 512.
Proof. unfold slot. destruct a; lia. Qed.

Lemma node_frame_inj p q : node_ok p → node_ok q → p / PAGE_SIZE = q / PAGE_SIZE → p = q.
Proof. intros [_ Hp] [_ Hq] H. dlia. Qed.

(** Entries of a table live in its frame. *)
Lemma entry_vframe p i x :
  node_ok p → 0 ≤ i < 512 → table_at p + 8 * i ≤ x < table_at p + 8 * i + 8 →
  vframe x = p / PAGE_SIZE.
Proof. intros Hp Hi Hx. unfold table_at in Hx. apply vframe_node; [done|lia]. Qed.

Lemma entry_ext m m' p i :
  node_ok p → 0 ≤ i < 512 → (∀ x, vframe x = p / PAGE_SIZE → m' x = m x) →
  entry m' (table_at p) i = entry m (table_at p) i.
Proof.
  intros Hp Hi Hm. apply load64_ext. intros x Hx. apply Hm. by eapply entry_vframe.
Qed.

Lemma entry_u64 m t i : is_u64 (entry m t i).
Proof. apply load64_bound. Qed.

Lemma entry_store_eq m p i e : is_u64 e → entry (store64 m (table_at p + 8 * i) e) (table_at p) i = e.
Proof. apply load_store64. Qed.

Lemma entry_store_ne m p i q j e :
  node_ok p → node_ok q → 0 ≤ i < 512 → 0 ≤ j < 512 → (q, j) ≠ (p, i) →
  entry (store64 m (table_at p + 8 * i) e) (table_at q) j = entry m (table_at q) j.
Proof.
  intros Hp Hq Hi Hj Hne. apply load_store64_other. unfold table_at.
  destruct (decide (q = p)) as [->|Hqp].
  - assert (i ≠ j) by congruence. lia.
  - pose proof (node_apart p q Hp Hq ltac:(done)). lia.
Qed.

(** Storing an entry changes the frame of its table only. *)
Lemma store_entry_outside m p i e x :
  node_ok p → 0 ≤ i < 512 → vframe x ≠ p / PAGE_SIZE →
  store64 m (table_at p + 8 * i) e x = m x.
Proof.
  intros Hp Hi Hx. apply store64_other.
  destruct (Z.lt_ge_cases x (table_at p + 8 * i)); [by left|].
  destruct (Z.lt_ge_cases x (table_at p + 8 * i + 8)); [|by right].
  exfalso. apply Hx. eapply entry_vframe; eauto.
Qed.

Lemma tree_ext m m' P T :
  tree m P T → (∀ x, vframe x ∈ tables T → m' x = m x) → tree m' P T.
Proof.
  intros HT Hm. split; try apply HT. intros a i p Ha Hl Hs.
  rewrite (entry_ext m m'); [by apply HT|by eapply tree_node|by eapply slot_512|].
  intros x Hx. apply Hm. apply elem_of_tables. eauto.
Qed.

(** ** The walk through the tree *)
Definition path1 v : list Z := [pml4_idx v].
Definition path2 v : list Z := pdpt_idx v :: path1 v.
Definition path3 v : list Z := pd_idx v :: path2 v.

Definition tree_walk m T v : option leaf :=
  match T !! path2 v with
  | None => None
  | Some pd =>
      let e2 := entry m (table_at pd) (pd_idx v) in
      if has e2 PTE_LARGE then Some (Large e2)
      else
        match T !! path3 v with
        | None => None
        | Some pt =>
            let e1 := entry m (table_at pt) (pt_idx v) in
            if has e1 PTE_PRESENT then Some (Small e1) else None
        end
  end.

Lemma slot_path v :
  is_user v → slot [] (pml4_idx v) ∧ slot (path1 v) (pdpt_idx v) ∧ slot (path2 v) (pd_idx v).
Proof. intros Hv. pose proof (idx_range v). pose proof (pml4_idx_user v Hv). simpl. unfold slot. simpl. lia. Qed.

(** Below depth 2 a present entry always leads to a table of the tree. *)
Lemma tree_child m P T a i p :
  tree m P T → T !! a = Some p → (length a ≤ 1)%nat → slot a i →
  T !! (i :: a) =
    if has (entry m (table_at p) i) PTE_PRESENT
    then Some (Z.land (entry m (table_at p) i) PTE_ADDR_MASK) else None.
Proof.
  intros HT Ha Hl Hs. destruct (tree_down _ _ _ HT a i p Ha ltac:(lia) Hs) as [-> Hwf].
  unfold child_of. unfold entry_wf in Hwf. destruct (has _ PTE_LARGE).
  - destruct Hwf; [done|lia].
  - by rewrite andb_true_r.
Qed.

Lemma mmu_walk_tree m P T v : tree m P T → is_user v → mmu_walk m P v = tree_walk m T v.
Proof.
  intros HT Hv. destruct (slot_path v Hv) as (S1 & S2 & S3). unfold mmu_walk, tree_walk.
  pose proof (tree_child m P T [] (pml4_idx v) P HT (tree_root _ _ _ HT) ltac:(simpl; lia) S1) as E1.
  fold (path1 v) in E1. destruct (has (entry m (table_at P) (pml4_idx v)) PTE_PRESENT) eqn:H4; simpl; cycle 1.
  { destruct (T !! path2 v) eqn:E2; [|done].
    apply (tree_up _ _ _ HT) in E2 as (_ & _ & [? E2]). congruence. }
  pose proof (tree_child m P T (path1 v) (pdpt_idx v) _ HT E1 ltac:(simpl; lia) S2) as E2.
  fold (path2 v) (next_table (entry m (table_at P) (pml4_idx v))) in E2. rewrite E2. clear E2.
  fold (next_table (entry m (table_at P) (pml4_idx v))) in *.
  set (e4 := next_table (entry m (table_at P) (pml4_idx v))) in *.
  destruct (has (entry m e4 (pdpt_idx v)) PTE_PRESENT) eqn:H3; simpl; [|done].
  pose proof (tree_child m P T (path1 v) (pdpt_idx v) _ HT E1 ltac:(simpl; lia) S2) as E2.
  fold (path2 v) (next_table (entry m (table_at P) (pml4_idx v))) in E2. fold e4 in E2. rewrite H3 in E2.
  destruct (tree_down _ _ _ HT (path2 v) (pd_idx v) _ E2 ltac:(simpl; lia) S3) as [E3 Hwf].
  fold (path3 v) (next_table (entry m e4 (pdpt_idx v))) in *. rewrite E3. unfold child_of.
  set (e2 := entry m (next_table (entry m e4 (pdpt_idx v))) (pd_idx v)) in *.
  unfold entry_wf in Hwf. destruct (has e2 PTE_LARGE); simpl.
  - destruct Hwf as (_ & -> & _); done.
  - rewrite andb_true_r. by destruct (has e2 PTE_PRESENT).
Qed.

(** ** Growing the tree *)
Lemma tree_insert m P T a i p q e :
  tree m P T → T !! a = Some p → (length a ≤ 2)%nat → slot a i → T !! (i :: a) = None →
  node_ok q → q / PAGE_SIZE ∉ tables T → (∀ x, vframe x = q / PAGE_SIZE → m x = 0) →
  is_u64 e → child_of e = Some q → has e PTE_LARGE = false →
  tree (store64 m (table_at p + 8 * i) e) P (<[i :: a := q]> T).
Proof.
  intros HT Ha Hl Hs Hnone Hq Hfresh Hz He Hch Hlg.
  pose proof (tree_node _ _ _ HT a p Ha) as Hp. pose proof (slot_512 _ _ Hs) as Hi.
  assert (Hqp : ∀ b p', T !! b = Some p' → p' ≠ q).
  { intros b p' Hb ->. apply Hfresh, elem_of_tables. eauto. }
  split.
  - rewrite lookup_insert_ne by done. apply HT.
  - intros b p'. rewrite lookup_insert_Some. intros [[_ <-]|[_ Hb]]; [done|]. by eapply tree_node.
  - intros b c p'. rewrite !lookup_insert_Some.
    intros [[<- <-]|[_ Hb]] [[<- E]|[_ Hc]]; try done;
      [by destruct (Hqp _ _ Hc)|by destruct (Hqp _ _ Hb)|by eapply tree_inj].
  - intros b j p'. rewrite lookup_insert_Some. intros [[[= <- <-] _]|[_ Hb]].
    + split_and!; [done..|]. rewrite lookup_insert_ne by (intros E; by apply (f_equal length) in E; simpl in E; lia).
      by rewrite Ha.
    + apply (tree_up _ _ _ HT) in Hb as (? & ? & [? Hb]). split_and!; [done..|].
      destruct (decide (i :: a = b)) as [<-|]; [by rewrite lookup_insert_eq|].
      rewrite lookup_insert_ne by done. by rewrite Hb.
  - intros b j p' Hb Hlb Hj. apply lookup_insert_Some in Hb as [[<- <-]|[Hne Hb]].
    + rewrite lookup_insert_ne by (intros E; by apply (f_equal length) in E; simpl in E; lia).
      rewrite entry_store_ne; try done; [|intros [= E _]; by destruct (Hqp _ _ Ha)].
      rewrite (entry_ext (λ _, 0)); [|done|by eapply slot_512|done].
      replace (entry (λ _, 0) _ _) with 0 by (symmetry; by apply load64_zero). split; [|done].
      destruct (T !! (j :: i :: a)) eqn:E; [|done].
      apply (tree_up _ _ _ HT) in E as (_ & _ & [? E]). congruence.
    + destruct (decide (i :: a = j :: b)) as [[= <- <-]|Hne'].
      * rewrite lookup_insert_eq. assert (p' = p) as -> by congruence.
        rewrite entry_store_eq by done. split; [done|]. intros H. congruence.
      * rewrite lookup_insert_ne by done.
        rewrite entry_store_ne; try done; [by apply HT|by eapply tree_node|by eapply slot_512|].
        intros [= -> ->]. apply Hne'. f_equal. by eapply tree_inj.
Qed.

Lemma tables_insert T a q : T !! a = None → tables (<[a := q]> T) = {[q / PAGE_SIZE]} ∪ tables T.
Proof.
  intros Ha. apply set_eq. intros f. rewrite elem_of_union, elem_of_singleton, !elem_of_tables. split.
  - intros (b & p & Hb & ->). apply lookup_insert_Some in Hb as [[_ <-]|[_ Hb]]; [by left|right; eauto].
  - intros [->|(b & p & Hb & ->)].
    + exists a, q. by rewrite lookup_insert_eq.
    + exists b, p. rewrite lookup_insert_ne by congruence. done.
Qed.

(** A new empty table maps nothing. *)
Lemma tree_walk_insert m P T a i p q e v :
  tree m P T → T !! a = Some p → (length a ≤ 2)%nat → slot a i → T !! (i :: a) = None →
  node_ok q → q / PAGE_SIZE ∉ tables T → (∀ x, vframe x = q / PAGE_SIZE → m x = 0) →
  is_u64 e → has e PTE_LARGE = false → has (entry m (table_at p) i) PTE_LARGE = false →
  is_user v →
  tree_walk (store64 m (table_at p + 8 * i) e) (<[i :: a := q]> T) v = tree_walk m T v.
Proof.
  intros HT Ha Hl Hs Hnone Hq Hfresh Hz He Hlg Hlg0 Hv. unfold tree_walk.
  pose proof (tree_node _ _ _ HT a p Ha) as Hp. pose proof (slot_512 _ _ Hs) as Hi.
  pose proof (idx_range v) as (_ & _ & R2 & R1).
  assert (Hqp : ∀ b p', T !! b = Some p' → p' ≠ q).
  { intros b p' Hb ->. apply Hfresh, elem_of_tables. eauto. }
  assert (Hzero : ∀ j, 0 ≤ j < 512 → entry (store64 m (table_at p + 8 * i) e) (table_at q) j = 0).
  { intros j Hj. rewrite entry_store_ne by (done || intros [= E _]; by destruct (Hqp _ _ Ha)).
    rewrite (entry_ext (λ _, 0)) by done. by apply load64_zero. }
  destruct (decide (i :: a = path2 v)) as [E|Hne].
  { rewrite <- E, lookup_insert_eq, Hzero, Hnone by done. simpl.
    rewrite lookup_insert_ne by (intros E'; unfold path3 in E'; rewrite E in E';
      apply (f_equal length) in E'; simpl in E'; lia).
    destruct (T !! path3 v) eqn:E3; [|done].
    apply (tree_up _ _ _ HT) in E3 as (_ & _ & [? E3]). congruence. }
  rewrite lookup_insert_ne by done. destruct (T !! path2 v) as [pd|] eqn:E2; [|done].
  assert (Hpd : node_ok pd) by by eapply tree_node.
  destruct (decide (i :: a = path3 v)) as [[= -> ->]|Hne3].
  - assert (pd = p) as -> by congruence. rewrite entry_store_eq, Hlg, Hlg0 by done.
    change (T !! path3 v = None) in Hnone. rewrite lookup_insert_eq, Hzero, Hnone by done. done.
  - rewrite (entry_store_ne m p i pd); try done; cycle 1.
    { intros [= -> <-]. apply Hne3. unfold path3. f_equal. by eapply tree_inj. }
    destruct (has _ PTE_LARGE); [done|]. rewrite lookup_insert_ne by done.
    destruct (T !! path3 v) as [pt|] eqn:E3; [|done].
    rewrite entry_store_ne; try done; [by eapply tree_node|].
    intros [= -> _]. assert (a = path3 v) as -> by (by eapply tree_inj). simpl in Hl. lia.
Qed.

Lemma tree_walk_ext m m' P T v :
  tree m P T → is_user v → (∀ x, vframe x ∈ tables T → m' x = m x) →
  tree_walk m' T v = tree_walk m T v.
Proof.
  intros HT Hv Hm. unfold tree_walk. pose proof (idx_range v) as (_ & _ & ? & ?).
  destruct (T !! path2 v) as [pd|] eqn:E2; [|done].
  rewrite (entry_ext m m' pd); [|by eapply tree_node|done|intros x Hx; apply Hm, elem_of_tables; eauto].
  destruct (has _ PTE_LARGE); [done|]. destruct (T !! path3 v) as [pt|] eqn:E3; [|done].
  rewrite (entry_ext m m' pt); [done|by eapply tree_node|done|intros x Hx; apply Hm, elem_of_tables; eauto].
Qed.

Lemma page_idx v w :
  page v = page w → path3 v = path3 w ∧ pt_idx v = pt_idx w.
Proof.
  intros H. unfold path3, path2, path1.
  rewrite !pml4_idx_mod, !pdpt_idx_mod, !pd_idx_mod, !pt_idx_mod.
  assert (E : ∀ k, 0 < k → v / (PAGE_SIZE * k) = w / (PAGE_SIZE * k)).
  { intros k Hk. rewrite <- !Z.div_div by lia. by rewrite H. }
  pose proof (E 134217728 ltac:(lia) : v / 549755813888 = w / 549755813888) as E4.
  pose proof (E 262144 ltac:(lia) : v / 1073741824 = w / 1073741824) as E3.
  pose proof (E 512 ltac:(lia) : v / 2097152 = w / 2097152) as E2.
  by rewrite E2, E3, E4, H.
Qed.

Lemma path3_large v w :
  is_user v → is_user w → path3 v = path3 w ↔ v / LARGE_SIZE = w / LARGE_SIZE.
Proof.
  intros Hv Hw. split.
  - unfold path3, path2, path1. intros [= ? ? ?]. by apply user_large_page.
  - intros H. unfold path3, path2, path1. rewrite !pml4_idx_mod, !pdpt_idx_mod, !pd_idx_mod.
    assert (E : ∀ k, 0 < k → v / (LARGE_SIZE * k) = w / (LARGE_SIZE * k)).
    { intros k Hk. rewrite <- !Z.div_div by lia. by rewrite H. }
    pose proof (E 262144 ltac:(lia) : v / 549755813888 = w / 549755813888) as E4.
    pose proof (E 512 ltac:(lia) : v / 1073741824 = w / 1073741824) as E3.
    by rewrite E3, E4, H.
Qed.

Lemma path3_page v w :
  is_user v → is_user w → path3 v = path3 w → pt_idx v = pt_idx w → page v = page w.
Proof. intros Hv Hw E3 E1. apply user_page; [by apply path3_large|done]. Qed.

(** Storing into a leaf table leaves the tree as it is. *)
Lemma tree_store_leaf m P T a i p e :
  tree m P T → T !! a = Some p → length a = 3%nat → 0 ≤ i < 512 →
  tree (store64 m (table_at p + 8 * i) e) P T.
Proof.
  intros HT Ha Hl Hi. split; try apply HT. intros b j q Hb Hlb Hj.
  rewrite entry_store_ne; [by apply HT|by eapply tree_node|by eapply tree_node|done|by eapply slot_512|].
  intros [= -> _]. assert (b = a) as -> by (by eapply tree_inj). lia.
Qed.

Lemma tree_walk_store_leaf m P T v w pt e :
  tree m P T → T !! path3 v = Some pt → is_user v → is_user w → is_u64 e →
  tree_walk (store64 m (table_at pt + 8 * pt_idx v) e) T w =
    if decide (page w = page v) then if has e PTE_PRESENT then Some (Small e) else None
    else tree_walk m T w.
Proof.
  intros HT Hpt Hv Hw He. pose proof (idx_range v) as (_ & _ & _ & Ri).
  pose proof (idx_range w) as (_ & _ & R2 & R1). pose proof (tree_node _ _ _ HT _ _ Hpt) as Hn.
  assert (Hdir : ∀ pd, T !! path2 w = Some pd →
    entry (store64 m (table_at pt + 8 * pt_idx v) e) (table_at pd) (pd_idx w)
    = entry m (table_at pd) (pd_idx w)).
  { intros pd Hpd. apply entry_store_ne; [done|by eapply tree_node|done|done|].
    intros [= -> _]. pose proof (tree_inj _ _ _ HT _ _ _ Hpd Hpt) as E.
    apply (f_equal length) in E. simpl in E. lia. }
  unfold tree_walk. destruct (decide (page w = page v)) as [Hpg|Hpg].
  - apply page_idx in Hpg as [E3 E1]. rewrite <- E3 in Hpt.
    pose proof (tree_up _ _ _ HT _ _ _ Hpt) as (Hl & Hs & [pd Hpd]).
    rewrite Hpd, (Hdir pd Hpd). destruct (tree_down _ _ _ HT _ _ _ Hpd Hl Hs) as [Hch _].
    fold (path3 w) in Hch. rewrite Hpt in *. unfold child_of in Hch.
    destruct (has (entry m (table_at pd) (pd_idx w)) PTE_LARGE).
    { by rewrite andb_false_r in Hch. }
    by rewrite E1, entry_store_eq.
  - destruct (T !! path2 w) as [pd|] eqn:Hpd; [|done]. rewrite (Hdir pd) by done.
    destruct (has _ PTE_LARGE); [done|]. destruct (T !! path3 w) as [pt'|] eqn:Hpt'; [|done].
    rewrite entry_store_ne; try done; [by eapply tree_node|].
    intros [= -> E]. apply Hpg, path3_page; try done. by eapply tree_inj.
Qed.

(** An entry built by [map_large]. *)
Definition make_large (phys flags : Z) : Z := Z.lor (make_pte phys flags) PTE_LARGE.

Lemma make_large_u64 phys flags : is_u64 phys → flags_ok flags → is_u64 (make_large phys flags).
Proof. intros. apply lor_u64; [by apply make_pte_u64|unfold is_u64; lia]. Qed.

Lemma make_large_addr phys flags :
  flags_ok flags → Z.land (make_large phys flags) PTE_ADDR_MASK = Z.land phys PTE_ADDR_MASK.
Proof.
  intros. unfold make_large. rewrite Z.land_lor_distr_l, make_pte_addr by done.
  change (Z.land PTE_LARGE PTE_ADDR_MASK) with 0. apply Z.lor_0_r.
Qed.

Lemma make_large_has phys flags :
  has (make_large phys flags) PTE_LARGE = true ∧ has (make_large phys flags) PTE_PRESENT = true.
Proof.
  unfold make_large. rewrite !has_lor, make_pte_present. by rewrite orb_true_r.
Qed.

Lemma mask_aligned phys : phys mod LARGE_SIZE = 0 → Z.land phys PTE_ADDR_MASK mod LARGE_SIZE = 0.
Proof. intros H. rewrite mask_field. change (2 ^ 40) with 1099511627776. dlia. Qed.

Lemma tree_store_large m P T v pd e :
  tree m P T → T !! path2 v = Some pd → is_user v → is_u64 e →
  has e PTE_LARGE = true → entry_wf 2 e →
  tree (store64 m (table_at pd + 8 * pd_idx v) e) P (delete (path3 v) T).
Proof.
  intros HT Hpd Hv He Hlg Hwf. pose proof (idx_range v) as (_ & _ & Ri & _).
  assert (Hd : ∀ a p, delete (path3 v) T !! a = Some p → T !! a = Some p).
  { intros a p Ha. by apply lookup_delete_Some in Ha as [_ Ha]. }
  split.
  - rewrite lookup_delete_ne by done. apply HT.
  - intros a p Ha. by eapply tree_node, Hd.
  - intros a b p Ha Hb. eapply tree_inj; eauto.
  - intros a i q Hq. apply Hd, (tree_up _ _ _ HT) in Hq as (Hl & Hs & Hq).
    split_and!; [done..|]. rewrite lookup_delete_ne; [done|]. intros <-. simpl in Hl. lia.
  - intros a i p Ha Hl Hs. apply Hd in Ha.
    destruct (tree_down _ _ _ HT a i p Ha Hl Hs) as [Hch Hw].
    destruct (decide (i :: a = path3 v)) as [[= -> ->]|Hne].
    + assert (p = pd) as -> by congruence. change (pd_idx v :: path2 v) with (path3 v).
      rewrite lookup_delete_eq, entry_store_eq by done. split; [|done].
      unfold child_of. by rewrite Hlg, andb_false_r.
    + rewrite lookup_delete_ne by done.
      rewrite entry_store_ne; [done|by eapply tree_node|by eapply tree_node|done|by eapply slot_512|].
      intros [= -> ->]. apply Hne. unfold path3. f_equal. by eapply tree_inj.
Qed.

Lemma tree_walk_store_large m P T v w pd e :
  tree m P T → T !! path2 v = Some pd → is_user v → is_user w → is_u64 e →
  has e PTE_LARGE = true →
  tree_walk (store64 m (table_at pd + 8 * pd_idx v) e) (delete (path3 v) T) w =
    if decide (w / LARGE_SIZE = v / LARGE_SIZE) then Some (Large e) else tree_walk m T w.
Proof.
  intros HT Hpd Hv Hw He Hlg. pose proof (idx_range v) as (_ & _ & Ri & _).
  pose proof (idx_range w) as (_ & _ & R2 & R1). unfold tree_walk.
  rewrite lookup_delete_ne by (intros E; by apply (f_equal length) in E).
  destruct (decide (w / LARGE_SIZE = v / LARGE_SIZE)) as [E|Hne].
  - apply path3_large in E; [|done..]. assert (path2 w = path2 v ∧ pd_idx w = pd_idx v) as [-> ->].
    { split; [exact (f_equal tail E)|exact (f_equal (List.hd 0) E)]. }
    rewrite Hpd, entry_store_eq by done. by rewrite Hlg.
  - destruct (T !! path2 w) as [pd'|] eqn:Hpd'; [|done].
    assert (Hp3 : path3 v ≠ path3 w) by (intros E; apply Hne; symmetry; by apply path3_large).
    rewrite entry_store_ne; [|by eapply tree_node|by eapply tree_node|done|done|]; cycle 1.
    { intros [= -> E]. apply Hp3. unfold path3. rewrite E. f_equal. by eapply tree_inj. }
    destruct (has (entry m _ _) PTE_LARGE); [done|]. rewrite lookup_delete_ne by done.
    destruct (T !! path3 w) as [pt|] eqn:Hpt; [|done].
    rewrite entry_store_ne; [done|by eapply tree_node|by eapply tree_node|done|done|].
    intros [= -> _]. pose proof (tree_inj _ _ _ HT _ _ _ Hpd Hpt) as E. by apply (f_equal length) in E.
Qed.

Lemma tables_delete T a : tables (delete a T) ⊆ tables T.
Proof.
  intros f. rewrite !elem_of_tables. intros (b & p & Hb & ->).
  apply lookup_delete_Some in Hb as [_ Hb]. eauto.
Qed.

Lemma tree_walk_page m T v w : page v = page w → tree_walk m T v = tree_walk m T w.
Proof.
  intros H. apply page_idx in H as [E3 E1]. unfold tree_walk.
  assert (E2 : path2 v = path2 w) by exact (f_equal tail E3).
  assert (Ed : pd_idx v = pd_idx w) by exact (f_equal (List.hd 0) E3).
  by rewrite E2, E3, E1, Ed.
Qed.

Lemma mask_low e v : Z.lor (Z.land e PTE_ADDR_MASK) (Z.land v 0xFFF) = Z.land e PTE_ADDR_MASK + v mod PAGE_SIZE.
Proof.
  change 0xFFF with (2 ^ 12 - 1). change (v mod PAGE_SIZE) with (v mod 2 ^ 12).
  rewrite <- (land_ones_mod v 12) by lia.
  rewrite Z.add_nocarry_lxor, Z.lxor_lor; [done|..].
  all: rewrite <- Z.land_assoc, (Z.land_assoc PTE_ADDR_MASK), (Z.land_comm PTE_ADDR_MASK).
  all: rewrite <- (Z.land_assoc v); change (Z.land PTE_ADDR_MASK (2 ^ 12 - 1)) with 0.
  all: by rewrite !Z.land_0_r.
Qed.

Lemma mask_bound e : 0 ≤ Z.land e PTE_ADDR_MASK < 2 ^ 52.
Proof. rewrite mask_field. change (2 ^ 40) with 1099511627776. change (2 ^ 52) with 4503599627370496. dlia. Qed.

Lemma agree_outside_trans F1 F2 m1 m2 m3 :
  F2 ⊆ F1 → agree_outside F1 m1 m2 → agree_outside F2 m2 m3 → agree_outside F1 m1 m3.
Proof. intros Hs H1 H2 x Hx. rewrite H2, H1; [done..|]. set_solver. Qed.

Lemma agree_outside_mono F1 F2 m1 m2 : F1 ⊆ F2 → agree_outside F1 m1 m2 → agree_outside F2 m1 m2.
Proof. intros Hs H x Hx. apply H. set_solver. Qed.

(** ** Operations against the frame allocator *)
Section Ops.
Context (inv : mm → gset Z → Prop) {FA : FrameAllocator inv}.

(** The tables of the address space rooted at [P] are in use, and [F] is free. *)
Record vmm_inv s F (P : Z) T : Prop := {
  vi_inv : inv s F;
  vi_tree : tree (ram s) P T;
  vi_apart : tables T ## F
}.

(** [s'] has at most [n] more tables than [s] and maps the same pages. *)
Record grows (n : nat) (P : Z) s F T s' F' T' : Prop := {
  gr_inv : vmm_inv s' F' P T';
  gr_sub : T ⊆ T';
  gr_frames : F' ∪ tables T' = F ∪ tables T;
  gr_size : (size F ≤ size F' + n)%nat;
  gr_mem : agree_outside (F ∪ tables T) (ram s) (ram s');
  gr_walk : ∀ v, is_user v → tree_walk (ram s') T' v = tree_walk (ram s) T v
}.

Lemma grows_refl n P s F T : vmm_inv s F P T → grows n P s F T s F T.
Proof. intros. split; try done; lia. Qed.

Lemma grows_trans n1 n2 P s F T s1 F1 T1 s2 F2 T2 :
  grows n1 P s F T s1 F1 T1 → grows n2 P s1 F1 T1 s2 F2 T2 → grows (n1 + n2) P s F T s2 F2 T2.
Proof.
  intros [I1 S1 C1 N1 M1 W1] [I2 S2 C2 N2 M2 W2]. split; try done.
  - by etransitivity.
  - by rewrite C2.
  - lia.
  - rewrite C1 in M2. by eapply agree_outside_trans.
  - intros v Hv. by rewrite W2, W1.
Qed.

Lemma get_entry_ok m t i : i < 512 → get_entry m t i = Ret (entry m t i).
Proof. intros. unfold get_entry. by rewrite (proj2 (Z.ltb_lt _ _)). Qed.

Lemma set_entry_ok s t i e :
  i < 512 → set_entry s t i e = Ret (set_ram s (store64 (ram s) (t + 8 * i) e)).
Proof. intros. unfold set_entry. by rewrite (proj2 (Z.ltb_lt _ _)). Qed.

Lemma is_present_ok m t i : i < 512 → is_present m t i = Ret (has (entry m t i) PTE_PRESENT).
Proof. intros. unfold is_present. by rewrite get_entry_ok. Qed.

Lemma table_virt p : node_ok p → phys_to_virt p = Ret (table_at p).
Proof. intros [? _]. apply phys_to_virt_ok. lia. Qed.

(** The state after a fresh zeroed frame [q] is linked at index [i] of the
    table [p] with path [a]. *)
Lemma link_table s F P T a i p s1 q :
  vmm_inv s F P T → T !! a = Some p → (length a ≤ 2)%nat → slot a i →
  has (entry (ram s) (table_at p) i) PTE_PRESENT = false →
  has (entry (ram s) (table_at p) i) PTE_LARGE = false →
  node_ok q → q / PAGE_SIZE ∈ F → inv s1 (F ∖ {[q / PAGE_SIZE]}) →
  (∀ x, vframe x = q / PAGE_SIZE → ram s1 x = 0) → agree_outside F (ram s) (ram s1) →
  grows 1 P s F T (set_ram s1 (store64 (ram s1) (table_at p + 8 * i) (make_pte q parent_flags)))
    (F ∖ {[q / PAGE_SIZE]}) (<[i :: a := q]> T).
Proof.
  intros [HI HT HD] Ha Hl Hs Hnp Hlg Hq HqF HI1 Hz Hm.
  pose proof (tree_node _ _ _ HT a p Ha) as Hp. pose proof (slot_512 _ _ Hs) as Hi.
  assert (HpT : p / PAGE_SIZE ∈ tables T) by (apply elem_of_tables; eauto).
  assert (Hext : ∀ x, vframe x ∈ tables T → ram s1 x = ram s x) by (intros x Hx; apply Hm; clear -HD Hx; set_solver).
  assert (HpF : p / PAGE_SIZE ∉ F) by (intros E; exact (HD _ HpT E)).
  pose proof (tree_ext _ (ram s1) P T HT Hext) as HT1.
  assert (He : entry (ram s1) (table_at p) i = entry (ram s) (table_at p) i).
  { apply entry_ext; [done..|]. intros x Hx. apply Hext. by rewrite Hx. }
  assert (Hnone : T !! (i :: a) = None).
  { destruct (tree_down _ _ _ HT a i p Ha Hl Hs) as [-> _]. unfold child_of. by rewrite Hnp. }
  assert (Hpte : is_u64 (make_pte q parent_flags)).
  { apply make_pte_u64; [destruct Hq; unfold is_u64; lia|done]. }
  assert (Hl2 : has (make_pte q parent_flags) PTE_LARGE = false) by by rewrite make_pte_large.
  assert (HqT : q / PAGE_SIZE ∉ tables T) by (intros E; exact (HD _ E HqF)).
  split; try split.
  - apply fa_frame; [done|]. intros x Hx. apply store_entry_outside; [done..|].
    intros E. apply elem_of_difference in Hx as [Hx _]. by rewrite E in Hx.
  - eapply tree_insert; eauto. unfold child_of. rewrite make_pte_present, Hl2. simpl.
    by rewrite make_pte_addr, mask_node.
  - rewrite tables_insert by done. clear -HD. set_solver.
  - by apply insert_subseteq.
  - rewrite tables_insert by done. apply set_eq. intros f.
    rewrite !elem_of_union, elem_of_difference, elem_of_singleton.
    destruct (decide (f = q / PAGE_SIZE)) as [->|]; tauto.
  - rewrite size_difference, size_singleton by (by apply singleton_subseteq_l). lia.
  - intros x Hx. apply not_elem_of_union in Hx as [Hx1 Hx2]. simpl.
    rewrite store_entry_outside; [by apply Hm|done..|]. intros E. by rewrite E in Hx2.
  - intros v Hv. simpl. rewrite (tree_walk_insert _ P) by (done || by rewrite He).
    by apply (tree_walk_ext _ _ P).
Qed.

Lemma get_or_alloc_spec s F P T a i p :
  vmm_inv s F P T → T !! a = Some p → (length a ≤ 2)%nat → slot a i →
  has (entry (ram s) (table_at p) i) PTE_LARGE = false →
  ∃ r s', get_or_alloc_table s (table_at p) i parent_flags = Ret (r, s') ∧
    match r with
    | None => s' = s ∧ F = ∅
    | Some t => ∃ q F' T', t = table_at q ∧ T' !! (i :: a) = Some q ∧ grows 1 P s F T s' F' T'
    end.
Proof.
  intros HV Ha Hl Hs Hlg. pose proof HV as [HI HT HD]. pose proof (slot_512 _ _ Hs) as Hi.
  unfold get_or_alloc_table, ensure_table. rewrite is_present_ok by lia. exec_simpl.
  destruct (has (entry (ram s) (table_at p) i) PTE_PRESENT) eqn:Hpr.
  - exec_simpl. rewrite get_entry_ok by lia. exec_simpl.
    destruct (tree_down _ _ _ HT a i p Ha Hl Hs) as [Hch _]. unfold child_of in Hch.
    rewrite Hpr, Hlg in Hch. simpl in Hch.
    rewrite table_virt by by eapply tree_node. exec_simpl. eexists (Some _), s. split; [done|].
    eexists _, F, T. split_and!; [done..|]. by apply grows_refl.
  - destruct (fa_alloc s F HI) as (r & s1 & Hr & Hspec). rewrite Hr. exec_simpl.
    destruct r as [q|]; exec_simpl; [|by exists None, s1].
    destruct Hspec as (Hq & HqF & HI1 & Hz & Hm).
    rewrite set_entry_ok by lia. exec_simpl. rewrite get_entry_ok by lia. cbn [ram set_ram].
    replace (Z.lor (Z.lor q parent_flags) PTE_PRESENT) with (make_pte q parent_flags)
      by (unfold make_pte; by rewrite mask_node).
    rewrite entry_store_eq by (apply make_pte_u64; [destruct Hq; unfold is_u64; lia|done]).
    exec_simpl. rewrite make_pte_addr, mask_node, table_virt by done. exec_simpl.
    eexists (Some _), _. split; [done|]. eexists q, _, _. split_and!; [done| |by eapply link_table].
    apply lookup_insert_eq.
Qed.

(** The space now maps the pages that [W] says and owns the tables [T']. *)
Record remaps (P : Z) s F T s' F' T' (W : Z → option leaf) : Prop := {
  rm_inv : vmm_inv s' F' P T';
  rm_frames : F' ∪ tables T' ⊆ F ∪ tables T;
  rm_mem : agree_outside (F ∪ tables T) (ram s) (ram s');
  rm_walk : ∀ v, is_user v → tree_walk (ram s') T' v = W v
}.

Lemma grows_remaps n P s F T s' F' T' :
  grows n P s F T s' F' T' → remaps P s F T s' F' T' (tree_walk (ram s) T).
Proof. intros []. split; try done. set_solver. Qed.

(** Writing the leaf entry of [v]. *)
Lemma set_leaf_spec s F P T v pt e :
  vmm_inv s F P T → T !! path3 v = Some pt → is_user v → is_u64 e →
  remaps P s F T (set_ram s (store64 (ram s) (table_at pt + 8 * pt_idx v) e)) F T
    (λ w, if decide (page w = page v) then if has e PTE_PRESENT then Some (Small e) else None
          else tree_walk (ram s) T w).
Proof.
  intros [HI HT HD] Hpt Hv He. pose proof (idx_range v) as (_ & _ & _ & Ri).
  pose proof (tree_node _ _ _ HT _ _ Hpt) as Hn.
  assert (HpT : pt / PAGE_SIZE ∈ tables T) by (apply elem_of_tables; eauto).
  split; try split; try done.
  - apply fa_frame; [done|]. intros x Hx. apply store_entry_outside; [done..|].
    intros E. rewrite E in Hx. exact (HD _ HpT Hx).
  - by eapply tree_store_leaf.
  - intros x Hx. apply not_elem_of_union in Hx as [_ Hx]. simpl.
    apply store_entry_outside; [done..|]. intros E. by rewrite E in Hx.
  - intros w Hw. simpl. by eapply tree_walk_store_leaf.
Qed.

Lemma remaps_after n P s F T s1 F1 T1 s2 F2 T2 W :
  grows n P s F T s1 F1 T1 → remaps P s1 F1 T1 s2 F2 T2 W → remaps P s F T s2 F2 T2 W.
Proof.
  intros [I1 S1 C1 N1 M1 W1] [I2 C2 M2 W2]. split; try done.
  - by rewrite <- C1.
  - rewrite C1 in M2. by eapply agree_outside_trans.
Qed.

(** Entries above the directories are never large. *)
Lemma not_large s F P T a i p :
  vmm_inv s F P T → T !! a = Some p → (length a ≤ 1)%nat → slot a i →
  has (entry (ram s) (table_at p) i) PTE_LARGE = false.
Proof.
  intros [_ HT _] Ha Hl Hs. destruct (tree_down _ _ _ HT a i p Ha ltac:(lia) Hs) as [_ Hwf].
  destruct (has _ PTE_LARGE) eqn:E; [|done]. destruct (Hwf E). lia.
Qed.

Lemma dir_not_large s F P T v pd :
  vmm_inv s F P T → T !! path2 v = Some pd → is_user v →
  (∀ e, tree_walk (ram s) T v ≠ Some (Large e)) →
  has (entry (ram s) (table_at pd) (pd_idx v)) PTE_LARGE = false.
Proof.
  intros [_ HT _] Hpd Hv Hnl. unfold tree_walk in Hnl. rewrite Hpd in Hnl.
  destruct (has _ PTE_LARGE); [|done]. by destruct (Hnl (entry (ram s) (table_at pd) (pd_idx v))).
Qed.

(** The first two steps of [map] and [map_large]: down to the directory. *)
Definition to_dir s sp (virt : Z) : exec (option Z * mm) :=
  pml4 ← phys_to_virt (pml4_phys sp);
  '(r, s) ← get_or_alloc_table s pml4 (pml4_idx virt) parent_flags;
  match r with
  | None => Ret (None, s)
  | Some pdpt => get_or_alloc_table s pdpt (pdpt_idx virt) parent_flags
  end.

Lemma map_to_dir s sp virt phys flags :
  map s sp virt phys flags =
    '(r, s) ← to_dir s sp virt;
    match r with
    | None => Ret (false, s)
    | Some pd =>
        '(r, s) ← get_or_alloc_table s pd (pd_idx virt) parent_flags;
        match r with
        | None => Ret (false, s)
        | Some pt => s ← set_entry s pt (pt_idx virt) (make_pte phys flags); Ret (true, s)
        end
    end.
Proof.
  unfold map, to_dir. destruct (phys_to_virt _) as [t| |]; [|done..]. exec_simpl.
  by destruct (get_or_alloc_table s t _ _) as [[[?|] ?]| |].
Qed.

Lemma to_dir_spec s F P T v :
  vmm_inv s F P T → is_user v →
  ∃ r s' F' T', to_dir s {| pml4_phys := P |} v = Ret (r, s') ∧ grows 2 P s F T s' F' T' ∧
    match r with
    | None => F' = ∅ ∧ (size F < 2)%nat
    | Some t => ∃ pd, t = table_at pd ∧ T' !! path2 v = Some pd
    end.
Proof.
  intros HV Hv. destruct (slot_path v Hv) as (S1 & S2 & S3).
  pose proof (tree_root _ _ _ (vi_tree _ _ _ _ HV)) as HP. unfold to_dir. cbn [pml4_phys].
  rewrite table_virt by (eapply tree_node; [apply HV|done]). exec_simpl.
  destruct (get_or_alloc_spec s F P T [] (pml4_idx v) P HV HP ltac:(simpl; lia) S1) as (r & s1 & E & HS).
  { eapply not_large; eauto; simpl; lia. }
  rewrite E. exec_simpl. destruct r as [t|]; cycle 1.
  { destruct HS as [-> ->]. eexists _, s, _, T. split; [done|]. split; [by apply grows_refl|].
    by rewrite size_empty; split; [|lia]. }
  destruct HS as (p3 & F1 & T1 & -> & E1 & G1). clear E.
  destruct (get_or_alloc_spec s1 F1 P T1 (path1 v) (pdpt_idx v) p3 (gr_inv _ _ _ _ _ _ _ _ G1) E1 ltac:(simpl; lia) S2)
    as (r & s2 & E & HS).
  { eapply not_large; eauto; simpl; try lia. apply G1. }
  rewrite E. destruct r as [t|].
  - destruct HS as (p2 & F2 & T2 & -> & E2 & G2). eexists _, s2, F2, T2. split; [done|].
    split; [exact (grows_trans _ _ _ _ _ _ _ _ _ _ _ _ G1 G2)|]. by exists p2.
  - destruct HS as [-> ->]. eexists _, s1, _, T1. split; [done|]. split.
    + exact (grows_trans 1 1 _ _ _ _ _ _ _ _ _ _ G1 (grows_refl _ _ _ _ _ (gr_inv _ _ _ _ _ _ _ _ G1))).
    + pose proof (gr_size _ _ _ _ _ _ _ _ G1) as Hsz. rewrite size_empty in Hsz. split; [done|lia].
Qed.

(** [map] remaps exactly the page of [v]; it fails only when memory runs out. *)
Lemma map_spec s F P T v phys flags :
  vmm_inv s F P T → is_user v → is_u64 phys → flags_ok flags →
  (∀ e, tree_walk (ram s) T v ≠ Some (Large e)) →
  ∃ ok s' F' T', map s {| pml4_phys := P |} v phys flags = Ret (ok, s') ∧
    (ok = false → F' = ∅ ∧ (size F < 3)%nat) ∧ F' ∪ tables T' = F ∪ tables T ∧
    (size F ≤ size F' + 3)%nat ∧
    remaps P s F T s' F' T'
      (λ w, if decide (ok = true ∧ page w = page v) then Some (Small (make_pte phys flags))
            else tree_walk (ram s) T w).
Proof.
  intros HV Hv Hphys Hfl Hnl. destruct (slot_path v Hv) as (_ & _ & S3). rewrite map_to_dir.
  destruct (to_dir_spec s F P T v HV Hv) as (r & s2 & F2 & T2 & -> & G2 & HS). exec_simpl.
  destruct r as [t|]; cycle 1.
  { destruct HS as [-> HF]. exists false, s2, ∅, T2. split_and!; [done| |apply G2|lia|].
    - intros _. split; [done|lia].
    - by apply grows_remaps in G2. }
  destruct HS as (p2 & -> & E2).
  destruct (get_or_alloc_spec s2 F2 P T2 (path2 v) (pd_idx v) p2 (gr_inv _ _ _ _ _ _ _ _ G2) E2 ltac:(simpl; lia) S3)
    as (r & s3 & E & HS).
  { eapply dir_not_large; eauto; [apply G2|]. intros e. by rewrite (gr_walk _ _ _ _ _ _ _ _ G2). }
  rewrite E. exec_simpl. destruct r as [t|]; cycle 1.
  { destruct HS as [-> ->]. exists false, s2, ∅, T2. split_and!; [done| |apply G2|pose proof (gr_size _ _ _ _ _ _ _ _ G2); lia|].
    - intros _. split; [done|]. pose proof (gr_size _ _ _ _ _ _ _ _ G2) as Hsz.
      rewrite size_empty in Hsz. lia.
    - by apply grows_remaps in G2. }
  destruct HS as (p1 & F3 & T3 & -> & E3 & G3). clear E.
  pose proof (grows_trans _ _ _ _ _ _ _ _ _ _ _ _ G2 G3) as G23.
  pose proof (idx_range v) as (_ & _ & _ & Ri). rewrite set_entry_ok by lia. exec_simpl.
  eexists true, _, F3, T3. split_and!; [done|done|apply G23|apply G23|]. eapply remaps_after; [exact G23|].
  destruct (set_leaf_spec s3 F3 P T3 v p1 (make_pte phys flags)) as [R1 R2 R3 R4]; auto using make_pte_u64.
  { apply G3. }
  split; auto. intros w Hw. rewrite R4, make_pte_present by done.
  destruct (decide (page w = page v)), (decide _) as [[]|]; try done; [tauto|].
  by apply G23.
Qed.

Lemma map_large_to_dir s sp virt phys flags :
  virt mod LARGE_SIZE = 0 → phys mod LARGE_SIZE = 0 →
  map_large s sp virt phys flags =
    '(r, s) ← to_dir s sp virt;
    match r with
    | None => Ret (false, s)
    | Some pd => s ← set_entry s pd (pd_idx virt) (make_large phys flags); Ret (true, s)
    end.
Proof.
  intros Hv Hp. unfold map_large, to_dir. rewrite Hv, Hp. exec_simpl.
  destruct (phys_to_virt _) as [t| |]; [|done..]. exec_simpl.
  by destruct (get_or_alloc_table s t _ _) as [[[?|] ?]| |].
Qed.

Lemma map_large_spec s F P T v phys flags :
  vmm_inv s F P T → is_user v → is_u64 phys → flags_ok flags →
  v mod LARGE_SIZE = 0 → phys mod LARGE_SIZE = 0 →
  ∃ ok s' F' T', map_large s {| pml4_phys := P |} v phys flags = Ret (ok, s') ∧
    (ok = false → F' = ∅ ∧ (size F < 2)%nat) ∧
    remaps P s F T s' F' T'
      (λ w, if decide (ok = true ∧ w / LARGE_SIZE = v / LARGE_SIZE)
            then Some (Large (make_large phys flags)) else tree_walk (ram s) T w).
Proof.
  intros HV Hv Hphys Hfl Hva Hpa. rewrite map_large_to_dir by done.
  destruct (to_dir_spec s F P T v HV Hv) as (r & s2 & F2 & T2 & -> & G2 & HS). exec_simpl.
  destruct r as [t|]; cycle 1.
  { destruct HS as [-> HF]. exists false, s2, ∅, T2. split_and!; [done|done|].
    by apply grows_remaps in G2. }
  destruct HS as (pd & -> & E2). pose proof (idx_range v) as (_ & _ & Ri & _).
  rewrite set_entry_ok by lia. exec_simpl. destruct (make_large_has phys flags) as [HL HP].
  pose proof (make_large_u64 phys flags Hphys Hfl) as He.
  destruct (gr_inv _ _ _ _ _ _ _ _ G2) as [HI HT HD].
  pose proof (tree_node _ _ _ HT _ _ E2) as Hn.
  assert (HpT : pd / PAGE_SIZE ∈ tables T2) by (apply elem_of_tables; eauto).
  eexists true, _, F2, (delete (path3 v) T2). split_and!; [done|done|].
  eapply remaps_after; [exact G2|]. pose proof (tables_delete T2 (path3 v)) as Hdel.
  split; try split.
  - apply fa_frame; [done|]. intros x Hx. apply store_entry_outside; [done..|].
    intros E. rewrite E in Hx. exact (HD _ HpT Hx).
  - eapply tree_store_large; eauto. intros _. split_and!; [done..|].
    rewrite make_large_addr by done. by apply mask_aligned.
  - intros f Hf. by apply HD, Hdel.
  - clear -Hdel. set_solver.
  - intros x Hx. apply not_elem_of_union in Hx as [_ Hx]. simpl.
    apply store_entry_outside; [done..|]. intros E. by rewrite E in Hx.
  - intros w Hw. simpl. rewrite (tree_walk_store_large _ P) by done.
    destruct (decide (w / LARGE_SIZE = v / LARGE_SIZE)), (decide _) as [[]|]; try done; [tauto|].
    by apply G2.
Qed.

Lemma get_table_ok m P T a i p :
  tree m P T → T !! a = Some p → (length a ≤ 2)%nat → slot a i →
  has (entry m (table_at p) i) PTE_LARGE = false →
  get_table m (table_at p) i = Ret (table_at <$> T !! (i :: a)).
Proof.
  intros HT Ha Hl Hs Hlg. pose proof (slot_512 _ _ Hs) as Hi. unfold get_table.
  rewrite is_present_ok, get_entry_ok by lia. exec_simpl.
  destruct (tree_down _ _ _ HT a i p Ha Hl Hs) as [Hch _]. unfold child_of in Hch.
  rewrite Hlg, andb_true_r in Hch. destruct (has _ PTE_PRESENT).
  - rewrite table_virt by by eapply tree_node. by rewrite Hch.
  - by rewrite Hch.
Qed.

(** The first two steps of [unmap] and [translate]. *)
Lemma get_dir_ok {A} m P T v (k : option Z → exec A) :
  tree m P T → is_user v →
  (pml4 ← phys_to_virt P;
   r ← get_table m pml4 (pml4_idx v);
   match r with
   | None => k None
   | Some pdpt => r ← get_table m pdpt (pdpt_idx v); k r
   end) = k (table_at <$> T !! path2 v).
Proof.
  intros HT Hv. destruct (slot_path v Hv) as (S1 & S2 & S3).
  pose proof (tree_root _ _ _ HT) as HP. rewrite table_virt by by eapply tree_node. exec_simpl.
  assert (Hnl : ∀ a i p, T !! a = Some p → (length a ≤ 1)%nat → slot a i →
    has (entry m (table_at p) i) PTE_LARGE = false).
  { intros a i p Ha Hl Hs. destruct (tree_down _ _ _ HT a i p Ha ltac:(lia) Hs) as [_ Hwf].
    destruct (has _ PTE_LARGE) eqn:E; [|done]. destruct (Hwf E). lia. }
  rewrite (get_table_ok _ P T []) by (done || (simpl; lia) || (apply (Hnl []); done || simpl; lia)).
  exec_simpl. fold (path1 v). destruct (T !! path1 v) as [p3|] eqn:E1; exec_simpl.
  - rewrite (get_table_ok _ P T (path1 v)) by (done || (simpl; lia) || (apply (Hnl (path1 v)); done || simpl; lia)).
    done.
  - destruct (T !! path2 v) eqn:E2; [|done].
    apply (tree_up _ _ _ HT) in E2 as (_ & _ & [? E2]). unfold path1 in *. congruence.
Qed.

Lemma translate_spec m P T v :
  tree m P T → is_user v →
  translate m {| pml4_phys := P |} v = Ret (leaf_phys v <$> tree_walk m T v).
Proof.
  intros HT Hv. unfold translate. cbn [pml4_phys].
  etransitivity; [exact (get_dir_ok m P T v (λ r, match r with None => Ret None | Some pd => _ end) HT Hv)|].
  unfold tree_walk. destruct (T !! path2 v) as [pd|] eqn:Hpd; exec_simpl; [|done].
  pose proof (idx_range v) as (_ & _ & R2 & R1). rewrite get_entry_ok by lia. exec_simpl.
  destruct (has (entry m (table_at pd) (pd_idx v)) PTE_LARGE) eqn:Hlg.
  - pose proof (mask_bound (entry m (table_at pd) (pd_idx v))) as Hb.
    change (Z.land v 0x1FFFFF) with (Z.land v (2 ^ 21 - 1)). rewrite (land_ones_mod v 21) by lia.
    change (v mod 2 ^ 21) with (v mod LARGE_SIZE). pose proof (Z.mod_pos_bound v LARGE_SIZE). rewrite u64_add_ok by lia. done.
  - destruct (slot_path v Hv) as (_ & _ & S3).
    rewrite (get_table_ok m P T (path2 v)) by (done || simpl; lia). exec_simpl. fold (path3 v).
    destruct (T !! path3 v) as [pt|]; exec_simpl; [|done]. rewrite get_entry_ok by lia. exec_simpl.
    destruct (has _ PTE_PRESENT); [|done]. exec_simpl. by rewrite mask_low.
Qed.

Lemma unmap_spec s F P T v :
  vmm_inv s F P T → is_user v → (∀ e, tree_walk (ram s) T v ≠ Some (Large e)) →
  ∃ s', unmap s {| pml4_phys := P |} v = Ret s' ∧
    remaps P s F T s' F T
      (λ w, if decide (page w = page v) then None else tree_walk (ram s) T w).
Proof.
  intros HV Hv Hnl. destruct (slot_path v Hv) as (_ & _ & S3). pose proof HV as [HI HT HD].
  assert (Hnop : tree_walk (ram s) T v = None → remaps P s F T s F T
      (λ w, if decide (page w = page v) then None else tree_walk (ram s) T w)).
  { intros Hw. split; try done. intros w Hu. destruct (decide _) as [E|]; [|done].
    by rewrite (tree_walk_page _ _ _ _ E). }
  unfold unmap. cbn [pml4_phys].
  rewrite (get_dir_ok (ram s) P T v (λ r, match r with None => Ret s | Some pd => _ end) HT Hv).
  destruct (T !! path2 v) as [pd|] eqn:Hpd; exec_simpl; cycle 1.
  { exists s. split; [done|]. apply Hnop. unfold tree_walk. by rewrite Hpd. }
  pose proof (dir_not_large s F P T v pd HV Hpd Hv Hnl) as Hlg.
  rewrite (get_table_ok (ram s) P T (path2 v)) by (done || simpl; lia). exec_simpl. fold (path3 v).
  destruct (T !! path3 v) as [pt|] eqn:Hpt; exec_simpl; cycle 1.
  { exists s. split; [done|]. apply Hnop. unfold tree_walk. by rewrite Hpd, Hlg, Hpt. }
  pose proof (idx_range v) as (_ & _ & _ & R1). rewrite set_entry_ok by lia.
  eexists. split; [done|]. by apply (set_leaf_spec s F P T v pt 0).
Qed.

Lemma remaps_trans P s F T s1 F1 T1 W1 s2 F2 T2 W2 :
  remaps P s F T s1 F1 T1 W1 → remaps P s1 F1 T1 s2 F2 T2 W2 → remaps P s F T s2 F2 T2 W2.
Proof.
  intros [I1 C1 M1 _] [I2 C2 M2 H2]. split; try done.
  - by etransitivity.
  - by eapply agree_outside_trans.
Qed.

(** The leaf that [map_range] gives to an address of its range. *)
Definition range_leaf (virt phys flags w : Z) (l : leaf) : Prop :=
  l = Small (make_pte (phys + (PAGE_SIZE * (w / PAGE_SIZE) - virt)) flags) ∨
  l = Large (make_large (phys + (LARGE_SIZE * (w / LARGE_SIZE) - virt)) flags) ∧
    (phys + (LARGE_SIZE * (w / LARGE_SIZE) - virt)) mod LARGE_SIZE = 0 ∧
    virt ≤ LARGE_SIZE * (w / LARGE_SIZE).

(** What the loop of [map_range] has still to do from [off] on. *)
Definition range_todo m T (virt off size : Z) : Prop :=
  ∀ w e, virt + off ≤ w < virt + size → tree_walk m T w ≠ Some (Large e).

Definition range_done m m' T T' (virt phys off size flags : Z) (ok : bool) : Prop :=
  ∀ w, is_user w →
    if decide (virt + off ≤ w < virt + size)
    then ok = true → ∃ l, tree_walk m' T' w = Some l ∧ range_leaf virt phys flags w l
    else tree_walk m' T' w = tree_walk m T w.

(** One round maps [[off, off']] with the leaves that [range_leaf] asks for. *)
Lemma range_done_step m m1 m2 T T1 T2 virt phys off off' size flags ok :
  off ≤ off' ≤ size →
  range_done m1 m2 T1 T2 virt phys off' size flags ok →
  (∀ w, is_user w →
    if decide (virt + off ≤ w < virt + off')
    then ∃ l, tree_walk m1 T1 w = Some l ∧ range_leaf virt phys flags w l
    else tree_walk m1 T1 w = tree_walk m T w) →
  range_done m m2 T T2 virt phys off size flags ok.
Proof.
  intros Ho H2 H1 w Hw. specialize (H1 w Hw). specialize (H2 w Hw).
  destruct (decide (virt + off ≤ w < virt + size)) as [Hin|Hout].
  - destruct (decide (virt + off' ≤ w < virt + size)) as [|Hlo]; [done|].
    rewrite decide_True in H1 by lia. rewrite H2. by intros _.
  - rewrite decide_False in H1 by lia. rewrite decide_False in H2 by lia. by rewrite H2.
Qed.

Lemma map_range_loop_spec P virt phys size flags (fuel : nat) : ∀ s F T off,
  vmm_inv s F P T → flags_ok flags → 0 ≤ virt → virt + size ≤ 2 ^ 47 →
  0 ≤ phys → phys + size ≤ 2 ^ 52 → 0 ≤ off ≤ size →
  virt mod PAGE_SIZE = 0 → phys mod PAGE_SIZE = 0 → size mod PAGE_SIZE = 0 → off mod PAGE_SIZE = 0 →
  range_todo (ram s) T virt off size → (size - off) / PAGE_SIZE < fuel →
  ∃ ok s' F' T',
    map_range_loop fuel s {| pml4_phys := P |} virt phys size flags off = Ret (ok, s') ∧
    (ok = false → F' = ∅) ∧ remaps P s F T s' F' T' (tree_walk (ram s') T') ∧
    range_done (ram s) (ram s') T T' virt phys off size flags ok.
Proof.
  induction fuel as [|fuel IH]; intros s F T off HV Hfl Hv0 Hv1 Hp0 Hp1 Hoff Hva Hpa Hsa Hoa Htodo Hfuel.
  { pose proof (Z.div_pos (size - off) PAGE_SIZE). lia. }
  cbn [map_range_loop]. destruct (Z.ltb_spec off size) as [Hlt|Hge]; cycle 1.
  { exists true, s, F, T. split_and!; [done|done|by apply (grows_remaps 0), grows_refl|].
    intros w Hw. rewrite decide_False by lia. done. }
  exec_steps. assert (Huser : is_user (virt + off)) by (unfold is_user; lia).
  destruct ((LARGE_SIZE <=? size - off) && ((virt + off) mod LARGE_SIZE =? 0)
            && ((phys + off) mod LARGE_SIZE =? 0)) eqn:Hc.
  - apply andb_prop in Hc as [[Hc1 Hc2]%andb_prop Hc3].
    apply Z.leb_le in Hc1. apply Z.eqb_eq in Hc2, Hc3.
    destruct (map_large_spec s F P T (virt + off) (phys + off) flags) as (ok & s1 & F1 & T1 & -> & Hf & HR);
      auto; [unfold is_u64; lia|].
    exec_simpl. destruct ok; cycle 1.
    { exists false, s1, F1, T1. destruct (Hf eq_refl). destruct HR as [R1 R2 R3 R4].
      split_and!; [done|done|by split|]. intros w Hw. destruct (decide _); [done|]. by rewrite R4. }
    exec_steps. destruct (IH s1 F1 T1 (off + LARGE_SIZE)) as (ok & s2 & F2 & T2 & E & Hf2 & HR2 & HD); auto; try lia.
    { apply HR. }
    { dlia. }
    { intros w e Hw. rewrite (rm_walk _ _ _ _ _ _ _ _ HR) by (unfold is_user; lia).
      rewrite decide_False by dlia. apply Htodo. lia. }
    { dlia. }
    exists ok, s2, F2, T2. split_and!; [done|done|by eapply remaps_trans|].
    eapply (range_done_step _ (ram s1) _ _ T1 _ _ _ off (off + LARGE_SIZE)); [lia|done|].
    intros w Hw. rewrite (rm_walk _ _ _ _ _ _ _ _ HR w Hw).
    destruct (decide (virt + off ≤ w < virt + (off + LARGE_SIZE))).
    + assert (w / LARGE_SIZE = (virt + off) / LARGE_SIZE) as Hdiv by dlia.
      rewrite decide_True by done. eexists. split; [done|]. right. rewrite Hdiv.
      replace (phys + (LARGE_SIZE * ((virt + off) / LARGE_SIZE) - virt)) with (phys + off) by dlia.
      split_and!; [done|done|dlia].
    + rewrite decide_False; [done|]. dlia.
  - destruct (map_spec s F P T (virt + off) (phys + off) flags) as (ok & s1 & F1 & T1 & -> & Hf & _ & _ & HR);
      auto; [unfold is_u64; lia|intros e; apply Htodo; lia|].
    exec_simpl. destruct ok; cycle 1.
    { exists false, s1, F1, T1. destruct (Hf eq_refl). destruct HR as [R1 R2 R3 R4].
      split_and!; [done|done|by split|]. intros w Hw. destruct (decide _); [done|]. by rewrite R4. }
    exec_steps. destruct (IH s1 F1 T1 (off + PAGE_SIZE)) as (ok & s2 & F2 & T2 & E & Hf2 & HR2 & HD); auto.
    { apply HR. }
    { dlia. }
    { dlia. }
    { intros w e Hw. rewrite (rm_walk _ _ _ _ _ _ _ _ HR) by (unfold is_user; lia).
      rewrite decide_False by dlia. apply Htodo. lia. }
    { dlia. }
    exists ok, s2, F2, T2. split_and!; [done|done|by eapply remaps_trans|].
    eapply (range_done_step _ (ram s1) _ _ T1 _ _ _ off (off + PAGE_SIZE)); [dlia|done|].
    intros w Hw. rewrite (rm_walk _ _ _ _ _ _ _ _ HR w Hw).
    destruct (decide (virt + off ≤ w < virt + (off + PAGE_SIZE))).
    + assert (page w = page (virt + off)) as Hdiv by dlia.
      rewrite decide_True by done. eexists. split; [done|]. left. rewrite Hdiv.
      replace (phys + (PAGE_SIZE * ((virt + off) / PAGE_SIZE) - virt)) with (phys + off) by dlia.
      done.
    + rewrite decide_False; [done|]. dlia.
Qed.

(** ** Dropping an address space

    [frees K op S]: with the frames [K] and [S] in use, [op] frees exactly [S].
    Frames in use keep their contents [m0] meanwhile, so a table can be read
    until it is itself freed. *)
Section Drop.
Context (m0 : mem).

Definition frees (K : Z → Prop) (op : mm → exec mm) (S : Z → Prop) : Prop := ∀ s F,
  inv s F → agree_outside F m0 (ram s) → (∀ f, K f ∨ S f → f ∉ F) →
  ∃ s' F', op s = Ret s' ∧ inv s' F' ∧ agree_outside F' m0 (ram s') ∧
    (∀ f, f ∈ F' ↔ f ∈ F ∨ S f) ∧ relink (ram s) (ram s').

Lemma frees_skip K (S : Z → Prop) : (∀ f, ¬ S f) → frees K Ret S.
Proof. intros HS s F HI Hm _. exists s, F. split_and!; [done..| |apply relink_refl]. intros f. specialize (HS f). tauto. Qed.

Lemma frees_frame K q : node_ok q → frees K (λ s, free_frame s q) (λ f, f = q / PAGE_SIZE).
Proof.
  intros Hq s F HI Hm HF. destruct (fa_free s F q HI Hq) as (s' & E & HI' & Hm').
  { apply HF. by right. }
  exists s', (F ∪ {[q / PAGE_SIZE]}). split_and!; [done..| |set_solver|].
  - intros x Hx. rewrite Hm' by done. apply Hm. set_solver.
  - apply (fa_links s F q s' HI Hq); [|done]. apply HF. by right.
Qed.

Lemma frees_seq K1 K2 K op1 op2 (S1 S2 S : Z → Prop) :
  frees K1 op1 S1 → frees K2 op2 S2 →
  (∀ f, K1 f → K f ∨ S2 f) → (∀ f, K2 f → K f ∧ ¬ S1 f) → (∀ f, S1 f → S2 f → False) →
  (∀ f, S f ↔ S1 f ∨ S2 f) →
  frees K (λ s, s ← op1 s; op2 s) S.
Proof.
  intros H1 H2 HK1 HK2 Hd HS s F HI Hm HF.
  destruct (H1 s F HI Hm) as (s1 & F1 & -> & HI1 & Hm1 & E1 & L1).
  { intros f Hf. apply HF. rewrite HS. destruct Hf as [Hf|Hf]; [destruct (HK1 f Hf)|]; auto. }
  exec_simpl. destruct (H2 s1 F1 HI1 Hm1) as (s2 & F2 & -> & HI2 & Hm2 & E2 & L2).
  { intros f Hf. rewrite E1. intros [Hf'|Hf'].
    - destruct Hf as [Hf|Hf]; [apply HK2 in Hf as [Hf _]|]; eapply HF; try exact Hf'; rewrite HS; auto.
    - destruct Hf as [Hf|Hf]; [apply HK2 in Hf as [_ Hf]; auto|eauto]. }
  exists s2, F2. split_and!; [done..| |by eapply relink_trans]. intros f. rewrite E2, E1, HS. tauto.
Qed.

Lemma frees_for_each K xs (body : Z → mm → exec mm) (S : Z → Z → Prop) :
  NoDup xs → (∀ i, i ∈ xs → frees K (body i) (S i)) →
  (∀ i f, i ∈ xs → S i f → ¬ K f) → (∀ i j f, S i f → S j f → i = j) →
  frees K (for_each xs body) (λ f, ∃ i, i ∈ xs ∧ S i f).
Proof.
  intros Hnd Hb HK Hinj. induction xs as [|x xs IH].
  { apply frees_skip. intros f (i & Hi & _). by apply elem_of_nil in Hi. }
  apply NoDup_cons in Hnd as [Hx Hnd].
  refine (frees_seq K K K (body x) (for_each xs body) (S x) _ _ _ _ _ _ _ _).
  - apply Hb, list_elem_of_here.
  - apply IH; [done|..]; intros; [apply Hb|eapply HK; eauto]; by right.
  - auto.
  - intros f Hf. split; [done|]. intros HS. eapply (HK x); eauto. apply list_elem_of_here.
  - intros f H1 (i & Hi & H2). by rewrite (Hinj _ _ _ H1 H2) in Hx.
  - intros f. split.
    + intros (i & [->|Hi]%elem_of_cons & Hs); eauto.
    + intros [Hs|(i & Hi & Hs)]; [exists x|exists i]; by rewrite elem_of_cons; auto.
Qed.

(** The frames of the subtree at a path. *)
Definition sub T a (f : Z) : Prop := ∃ c q, T !! (c ++ a) = Some q ∧ f = q / PAGE_SIZE.

Lemma sub_split T a f :
  sub T a f ↔ (∃ i, sub T (i :: a) f) ∨ (∃ q, T !! a = Some q ∧ f = q / PAGE_SIZE).
Proof.
  split.
  - intros (c & q & Hc & ->). destruct c as [|i c _] using rev_ind; [right; eauto|].
    left. exists i, c, q. by rewrite <- app_assoc in Hc.
  - intros [(i & c & q & Hc & ->)|(q & Hq & ->)].
    + exists (c ++ [i]), q. by rewrite <- app_assoc.
    + exists [], q. done.
Qed.

Context (P : Z) T (HT : tree m0 P T).

Lemma sub_path a f c q d q' :
  T !! (c ++ a) = Some q → T !! d = Some q' → q / PAGE_SIZE = f → q' / PAGE_SIZE = f → d = c ++ a.
Proof.
  intros Hc Hd <- E. eapply tree_inj; [done..|]. rewrite Hc. f_equal.
  apply node_frame_inj; [by eapply tree_node..|done].
Qed.

Lemma sub_inj a i j f : sub T (i :: a) f → sub T (j :: a) f → i = j.
Proof.
  intros (c & q & Hc & ->) (d & q' & Hd & E). pose proof (sub_path _ _ _ _ _ _ Hc Hd eq_refl (eq_sym E)) as Hp.
  change (d ++ j :: a) with (d ++ [j] ++ a) in Hp. change (c ++ i :: a) with (c ++ [i] ++ a) in Hp.
  rewrite !app_assoc in Hp. apply app_inv_tail, app_inj_tail in Hp as [_ Hp]. done.
Qed.

Lemma sub_root a i p f : T !! a = Some p → sub T (i :: a) f → f ≠ p / PAGE_SIZE.
Proof.
  intros Ha (c & q & Hc & ->) E. pose proof (sub_path _ _ _ _ _ _ Hc Ha eq_refl (eq_sym E)) as Hp.
  apply (f_equal length) in Hp. rewrite length_app in Hp. simpl in Hp. lia.
Qed.

Lemma sub_none a f : T !! a = None → ¬ sub T a f.
Proof.
  intros Ha (c & q & Hc & ->). revert q Hc. induction c as [|i c IH]; intros q Hc.
  - simpl in Hc. congruence.
  - simpl in Hc. apply (tree_up _ _ _ HT) in Hc as (_ & _ & [q' Hc]). eauto.
Qed.

Lemma frees_ext K op (S S' : Z → Prop) : (∀ f, S' f ↔ S f) → frees K op S → frees K op S'.
Proof.
  intros HS H s F HI Hm HF. destruct (H s F HI Hm) as (s' & F' & ? & ? & ? & E & ?).
  { intros f. rewrite <- HS. apply HF. }
  exists s', F'. split_and!; [done..| |done]. intros f. by rewrite E, HS.
Qed.

(** One round of a loop over the table [p] at path [a]. *)
Lemma frees_child a i p (op : Z → mm → exec mm) :
  T !! a = Some p → (length a ≤ 2)%nat → slot a i →
  (has (entry m0 (table_at p) i) PTE_PRESENT = true →
    frees (λ _, False) (op (entry m0 (table_at p) i)) (sub T (i :: a))) →
  frees (λ f, f = p / PAGE_SIZE)
    (λ s, b ← is_present (ram s) (table_at p) i;
          if b : bool then e ← get_entry (ram s) (table_at p) i; op e s else Ret s)
    (sub T (i :: a)).
Proof.
  intros Ha Hl Hs Hop s F HI Hm HF. pose proof (slot_512 _ _ Hs) as Hi.
  rewrite is_present_ok, get_entry_ok by lia. exec_simpl.
  rewrite (entry_ext m0); [|by eapply tree_node|done|]; cycle 1.
  { intros x Hx. apply Hm. rewrite Hx. apply HF. by left. }
  destruct (has (entry m0 (table_at p) i) PTE_PRESENT) eqn:Hpr.
  - apply (Hop eq_refl s F HI Hm). intros f [[]|Hf]. auto.
  - destruct (tree_down _ _ _ HT a i p Ha Hl Hs) as [Hch _]. unfold child_of in Hch.
    rewrite Hpr in Hch. exact (frees_skip _ _ (λ f, sub_none _ f Hch) s F HI Hm HF).
Qed.

(** The loop over all children of [p], and then [p] itself. *)
Lemma frees_table a p n (body : Z → mm → exec mm) :
  T !! a = Some p → (∀ i, slot a i ↔ 0 ≤ i < n) →
  (∀ i, slot a i → frees (λ f, f = p / PAGE_SIZE) (body i) (sub T (i :: a))) →
  frees (λ _, False) (λ s, s ← for_each (seqZ 0 n) body s; free_frame s p) (sub T a).
Proof.
  intros Ha Hn Hb.
  refine (frees_seq (λ f, f = p / PAGE_SIZE) (λ _, False) _ _ _
    (λ f, ∃ i, i ∈ seqZ 0 n ∧ sub T (i :: a) f) _ _ _ (frees_frame _ p _) _ _ _ _).
  - apply frees_for_each; [apply NoDup_seqZ|..].
    + intros i Hi%elem_of_seqZ. apply Hb, Hn. lia.
    + intros i f _. by apply sub_root.
    + apply sub_inj.
  - by eapply tree_node.
  - auto.
  - done.
  - intros f (i & _ & Hs). by eapply sub_root.
  - intros f. rewrite sub_split. split.
    + intros [(i & Hs)|(q & Hq & ->)]; [left|right; congruence].
      exists i. split; [|done]. apply elem_of_seqZ. destruct Hs as (c & q & Hc & _).
      destruct (T !! (i :: a)) as [q'|] eqn:E.
      * apply (tree_up _ _ _ HT) in E as (_ & Hs & _). apply Hn in Hs. lia.
      * exfalso. eapply (sub_none _ (q / PAGE_SIZE) E). eexists _, _. eauto.
    + intros [(i & _ & Hs)|Hf]; eauto.
Qed.

(** A present entry above the directories leads to a table. *)
Lemma child_present a i p :
  T !! a = Some p → (length a ≤ 1)%nat → slot a i →
  has (entry m0 (table_at p) i) PTE_PRESENT = true →
  T !! (i :: a) = Some (Z.land (entry m0 (table_at p) i) PTE_ADDR_MASK).
Proof. intros Ha Hl Hs Hpr. rewrite (tree_child m0 P T a i p) by done. by rewrite Hpr. Qed.

Lemma frees_pd a p :
  T !! a = Some p → length a = 2%nat →
  frees (λ _, False) (λ s, s ← free_pd_tables p s; free_frame s p) (sub T a).
Proof.
  intros Ha Hl. pose proof (tree_node _ _ _ HT _ _ Ha) as Hp. unfold free_pd_tables.
  rewrite table_virt by done. exec_simpl. destruct a as [|x a]; [done|].
  eapply (frees_table _ _ 512); [done|done|]. intros i Hi.
  apply (frees_child _ i p (λ e s, if has e PTE_LARGE then Ret s else free_frame s (Z.land e PTE_ADDR_MASK)));
    [done|lia|done|]. intros Hpr.
  destruct (tree_down _ _ _ HT (x :: a) i p Ha ltac:(lia) Hi) as [Hch _]. unfold child_of in Hch.
  rewrite Hpr in Hch. destruct (has _ PTE_LARGE); simpl in Hch.
  { apply frees_skip. intros f. by apply sub_none. }
  eapply frees_ext; [|apply frees_frame; by eapply tree_node].
  intros f. rewrite sub_split. split; [|by eauto].
  intros [(j & Hj)|(q & Hq & ->)]; [|congruence]. exfalso. revert Hj. apply sub_none.
  destruct (T !! (j :: i :: x :: a)) eqn:E; [|done].
  apply (tree_up _ _ _ HT) in E as (E & _). simpl in *. lia.
Qed.

Lemma frees_pdpt a p :
  T !! a = Some p → length a = 1%nat →
  frees (λ _, False) (λ s, s ← free_pdpt_tables p s; free_frame s p) (sub T a).
Proof.
  intros Ha Hl. pose proof (tree_node _ _ _ HT _ _ Ha) as Hp. unfold free_pdpt_tables.
  rewrite table_virt by done. exec_simpl. destruct a as [|x a]; [done|].
  eapply (frees_table _ _ 512); [done|done|]. intros i Hi.
  apply (frees_child _ i p (λ e s, s ← free_pd_tables (Z.land e PTE_ADDR_MASK) s;
    free_frame s (Z.land e PTE_ADDR_MASK))); [done|lia|done|]. intros Hpr.
  apply frees_pd; [|simpl in *; lia]. apply child_present; [done|lia|done|done].
Qed.

Lemma frees_user_page_tables :
  frees (λ _, False) (λ s, free_user_page_tables s P) (sub T []).
Proof.
  pose proof (tree_root _ _ _ HT) as HP. unfold free_user_page_tables.
  rewrite table_virt by by eapply tree_node. exec_simpl.
  eapply (frees_table _ _ 256); [done|done|]. intros i Hi.
  apply (frees_child _ i P (λ e s, s ← free_pdpt_tables (Z.land e PTE_ADDR_MASK) s;
    free_frame s (Z.land e PTE_ADDR_MASK))); [done|simpl; lia|done|]. intros Hpr.
  apply frees_pdpt; [|simpl in *; lia]. apply child_present; [done|simpl; lia|done|done].
Qed.
End Drop.

Lemma drop_links s F P T :
  vmm_inv s F P T →
  ∃ s', AddressSpace_drop s {| pml4_phys := P |} = Ret s' ∧ inv s' (F ∪ tables T) ∧
    agree_outside (F ∪ tables T) (ram s) (ram s') ∧ relink (ram s) (ram s').
Proof.
  intros [HI HT HD].
  assert (Hsub : ∀ f, sub T [] f ↔ f ∈ tables T).
  { intros f. rewrite elem_of_tables. unfold sub. split.
    - intros (c & q & Hc & ->). rewrite app_nil_r in Hc. eauto.
    - intros (c & q & Hc & ->). exists c, q. by rewrite app_nil_r. }
  destruct (frees_user_page_tables (ram s) P T HT s F HI) as (s' & F' & E & HI' & Hm & HF & HL).
  { done. }
  { intros f [[]|Hf] HfF. apply (HD f); [by apply Hsub|done]. }
  assert (F' = F ∪ tables T) as ->.
  { apply set_eq. intros f. by rewrite HF, Hsub, elem_of_union. }
  eauto.
Qed.

Lemma drop_spec s F P T :
  vmm_inv s F P T →
  ∃ s', AddressSpace_drop s {| pml4_phys := P |} = Ret s' ∧ inv s' (F ∪ tables T) ∧
    agree_outside (F ∪ tables T) (ram s) (ram s').
Proof. intros HV. destruct (drop_links s F P T HV) as (s' & ? & ? & ? & _). eauto. Qed.

(** ** New address spaces *)

(** A root table with an empty user half. *)
Lemma tree_fresh m p :
  node_ok p → (∀ i, 0 ≤ i < 256 → entry m (table_at p) i = 0) → tree m p {[ [] := p ]}.
Proof.
  intros Hp Hz. split.
  - apply lookup_singleton_eq.
  - intros a q [_ <-]%lookup_singleton_Some. done.
  - intros a b q [<- _]%lookup_singleton_Some [<- _]%lookup_singleton_Some. done.
  - intros a i q [? _]%lookup_singleton_Some. done.
  - intros a i q [<- <-]%lookup_singleton_Some _ Hs. rewrite Hz by done.
    by rewrite lookup_singleton_ne.
Qed.

(** A loop over the entries [lo, lo + z) of the table [p] that stores [e] at
    every index [i] with [h i = Some e]. *)
Lemma fill_loop p lo (n : nat) z (h : Z → option Z) (body : Z → mm → exec mm) s F :
  z = Z.of_nat n → 0 ≤ lo → lo + n ≤ 512 → inv s F → node_ok p → p / PAGE_SIZE ∉ F →
  (∀ i e, lo ≤ i < lo + n → h i = Some e → is_u64 e) →
  (∀ i s1, lo ≤ i < lo + n → agree_outside {[p / PAGE_SIZE]} (ram s) (ram s1) →
    entry (ram s1) (table_at p) i = entry (ram s) (table_at p) i →
    body i s1 = match h i with Some e => set_entry s1 (table_at p) i e | None => Ret s1 end) →
  ∃ s', for_each (seqZ lo z) body s = Ret s' ∧ inv s' F ∧
    agree_outside {[p / PAGE_SIZE]} (ram s) (ram s') ∧
    (∀ i, 0 ≤ i < 512 → entry (ram s') (table_at p) i =
      if decide (lo ≤ i < lo + z) then default (entry (ram s) (table_at p) i) (h i)
      else entry (ram s) (table_at p) i).
Proof.
  intros -> Hlo Hn HI Hp HpF Hh Hbody. induction n as [|n IH].
  { exists s. split_and!; [done..|]. intros i Hi. rewrite decide_False by lia. done. }
  destruct IH as (s1 & E1 & HI1 & Hm1 & He1); [lia|intros; eapply Hh; eauto; lia|intros; apply Hbody; auto; lia|].
  replace (Z.of_nat (S n)) with (n + 1) by lia. rewrite seqZ_app, for_each_app, E1 by lia.
  replace (seqZ (lo + n) 1) with [lo + Z.of_nat n] by (unfold seqZ; simpl; f_equal; lia).
  cbn [for_each]. exec_simpl. rewrite (Hbody (lo + n) s1); [|lia|done|]; cycle 1.
  { rewrite He1, decide_False by lia. done. }
  destruct (h (lo + n)) as [e|] eqn:Hhe; cycle 1.
  { exists s1. split_and!; [done..|]. intros i Hi. rewrite He1 by done.
    destruct (decide (i = lo + n)) as [->|Hne].
    - rewrite decide_False, decide_True by lia. by rewrite Hhe.
    - destruct (decide (lo ≤ i < lo + n)), (decide (lo ≤ i < lo + (n + 1))); done || lia. }
  rewrite set_entry_ok by lia. exec_simpl. eexists. split; [done|]. split_and!.
  - apply fa_frame; [done|]. intros x Hx. apply store_entry_outside; [done|lia|]. congruence.
  - intros x Hx. simpl. rewrite store_entry_outside; [by apply Hm1|done|lia|].
    intros E. apply Hx. by rewrite E, elem_of_singleton.
  - intros i Hi. cbn [ram set_ram]. destruct (decide (i = lo + n)) as [->|Hne].
    + rewrite entry_store_eq, decide_True by (lia || (eapply (Hh (lo + n)); eauto; lia)).
      by rewrite Hhe.
    + rewrite entry_store_ne by (done || lia || congruence). rewrite He1 by done.
      destruct (decide (lo ≤ i < lo + n)), (decide (lo ≤ i < lo + (n + 1))); done || lia.
Qed.

(** Copying the kernel half of the root table [k] to [p]. *)
Lemma copy_kernel_half k p s F :
  inv s F → node_ok k → node_ok p → k ≠ p → p / PAGE_SIZE ∉ F →
  ∃ s', for_each (seqZ 256 256) (λ i s,
          e ← get_entry (ram s) (table_at k) i; set_entry s (table_at p) i e) s = Ret s' ∧
    inv s' F ∧ agree_outside {[p / PAGE_SIZE]} (ram s) (ram s') ∧
    (∀ i, 0 ≤ i < 512 → entry (ram s') (table_at p) i =
      if decide (256 ≤ i < 512) then entry (ram s) (table_at k) i
      else entry (ram s) (table_at p) i).
Proof.
  intros HI Hk Hp Hkp HpF.
  apply (fill_loop p 256 256 256 (λ i, Some (entry (ram s) (table_at k) i))); try done; try lia.
  - intros i e _ [= <-]. apply entry_u64.
  - intros i s1 Hi Hm _. rewrite get_entry_ok by lia. exec_simpl. f_equal.
    apply entry_ext; [done|lia|]. intros x Hx. apply Hm. rewrite Hx, elem_of_singleton.
    intros E. by apply Hkp, node_frame_inj.
Qed.

Lemma new_user_spec KP s F :
  inv s F → node_ok KP → KP ≠ 0 → KP / PAGE_SIZE ∉ F →
  ∃ r s', new_user KP s = Ret (r, s') ∧
    match r with
    | None => s' = s ∧ F = ∅
    | Some sp => let p := pml4_phys sp in
        p / PAGE_SIZE ∈ F ∧ vmm_inv s' (F ∖ {[p / PAGE_SIZE]}) p {[ [] := p ]} ∧
        (∀ v, is_user v → mmu_walk (ram s') p v = None) ∧
        (∀ i, 256 ≤ i < 512 →
          entry (ram s') (table_at p) i = entry (ram s) (table_at KP) i) ∧
        agree_outside F (ram s) (ram s')
    end.
Proof.
  intros HI HK HK0 HKF. destruct (fa_alloc s F HI) as (r & s1 & E & HS).
  destruct r as [p|]; cycle 1.
  { destruct HS as [-> ->]. exists None, s. split; [|done]. unfold new_user. by rewrite E. }
  destruct HS as (Hp & HpF & HI1 & Hz & Hm). assert (HKp : KP ≠ p) by (intros ->; done).
  destruct (copy_kernel_half KP p s1 _ HI1 HK Hp HKp) as (s2 & E2 & HI2 & Hm2 & He2); [set_solver|].
  exists (Some {| pml4_phys := p |}), s2. split.
  { unfold new_user. eapply bind_ok; [exact E|]. cbn beta iota.
    eapply bind_ok; [|eapply bind_ok; [by apply table_virt|]; by eapply bind_ok; [exact E2|]].
    unfold get_kernel_pml4, assert_. rewrite (proj2 (Z.eqb_neq _ _) HK0). by apply table_virt. }
  clear E E2. cbn [pml4_phys]. assert (HT : tree (ram s2) p {[ [] := p ]}).
  { apply tree_fresh; [done|]. intros i Hi. rewrite He2, decide_False by lia.
    rewrite (entry_ext (λ _, 0)); [by apply load64_zero|done|lia|exact Hz]. }
  split_and!; [done| | | |].
  - split; [done..|]. intros f (a & q & [_ <-]%lookup_singleton_Some & ->)%elem_of_tables. set_solver.
  - intros v Hv. rewrite (mmu_walk_tree _ _ _ _ HT Hv). unfold tree_walk. by rewrite lookup_singleton_ne.
  - intros i Hi. rewrite He2, decide_True by lia. apply entry_ext; [done|lia|].
    intros x Hx. apply Hm. by rewrite Hx.
  - intros x Hx. rewrite Hm2, Hm; [done..|]. rewrite elem_of_singleton. congruence.
Qed.

(** [remaps] in terms of the processor's walk. *)
Lemma remaps_mmu P s F T s' F' T' W v :
  remaps P s F T s' F' T' W → is_user v → mmu_walk (ram s') P v = W v.
Proof.
  intros [I _ _ HW] Hv. by rewrite (mmu_walk_tree _ _ _ _ (vi_tree _ _ _ _ I) Hv), HW.
Qed.
End Ops.

Lemma range_leaf_phys virt phys size flags w l :
  flags_ok flags → 0 ≤ virt → 0 ≤ phys → phys + size ≤ 2 ^ 52 →
  virt mod PAGE_SIZE = 0 → phys mod PAGE_SIZE = 0 → virt ≤ w < virt + size →
  range_leaf virt phys flags w l → leaf_phys w l = phys + (w - virt).
Proof.
  intros Hfl Hv Hp Hp1 Hva Hpa Hw Hl. change (2 ^ 52) with 4503599627370496 in *.
  destruct Hl as [->|(-> & Hal & Hge)]; unfold leaf_phys.
  - rewrite make_pte_addr, mask_field by done. change (2 ^ 40) with 1099511627776.
    rewrite Z.mod_small by dlia. dlia.
  - rewrite make_large_addr, mask_field by done. change (2 ^ 40) with 1099511627776.
    rewrite Z.mod_small by dlia. dlia.
Qed.

(** The invariant over the buddy allocator. *)
Abbreviation space_inv co := (vmm_inv (pmm_inv co)) (only parsing).

Definition leaf_entry (l : leaf) : Z := match l with Small e | Large e => e end.

Lemma range_leaf_has virt phys flags w l bit :
  Z.land PTE_ADDR_MASK bit = 0 → Z.land PTE_PRESENT bit = 0 → Z.land PTE_LARGE bit = 0 →
  range_leaf virt phys flags w l → has (leaf_entry l) bit = has flags bit.
Proof.
  intros Hm Hp Hl Hr.
  assert (Hpte : ∀ x, has (make_pte x flags) bit = has flags bit).
  { intros x. unfold make_pte. rewrite !has_lor, has_mask by done.
    unfold has at 2. rewrite Hp. simpl. by rewrite orb_false_r. }
  destruct Hr as [->|[-> _]]; simpl; [done|]. unfold make_large. rewrite has_lor, Hpte.
  unfold has at 2. rewrite Hl. simpl. by rewrite orb_false_r.
Qed.

(** ** Main theorems *)

(** C5: [map] of a user page succeeds whenever three frames are free. The
    processor then finds exactly the new entry for that page and what it found
    before for every other page; new tables come from the free frames, and no
    memory outside free frames and the space's own tables changes. *)
Theorem map_correct co s F P T virt phys flags :
  space_inv co s F P T → is_user virt → is_u64 phys → flags_ok flags →
  (∀ e, mmu_walk (ram s) P virt ≠ Some (Large e)) →
  ∃ ok s' F' T', map s {| pml4_phys := P |} virt phys flags = Ret (ok, s') ∧
    space_inv co s' F' P T' ∧ F' ∪ tables T' = F ∪ tables T ∧
    agree_outside (F ∪ tables T) (ram s) (ram s') ∧
    ((3 ≤ size F)%nat → ok = true) ∧
    (∀ w, is_user w → mmu_walk (ram s') P w =
      if decide (ok = true ∧ page w = page virt) then Some (Small (make_pte phys flags))
      else mmu_walk (ram s) P w).
Proof.
  intros HV Hv Hp Hf Hnl. pose proof (vi_tree _ _ _ _ _ HV) as HT.
  destruct (map_spec (pmm_inv co) s F P T virt phys flags) as (ok & s' & F' & T' & E & Hok & HF & _ & HR); auto.
  { intros e. rewrite <- (mmu_walk_tree _ P) by done. auto. }
  exists ok, s', F', T'. split_and!; [done|apply HR|done|apply HR| |].
  - intros Hsz. destruct ok; [done|]. destruct Hok; [done|lia].
  - intros w Hw. rewrite (remaps_mmu _ _ _ _ _ _ _ _ _ _ HR Hw). by rewrite (mmu_walk_tree _ _ _ _ HT Hw).
Qed.

(** [map_range] over page-aligned addresses maps every address of the range
    to the physical address at the same offset with the requested permissions,
    whether it uses 4 KiB or 2 MiB pages, and leaves every other user address as
    it was; it fails only when the frames run out. *)
Theorem map_range_correct co s F P T virt phys size flags :
  space_inv co s F P T → flags_ok flags →
  0 ≤ virt → 0 ≤ size → virt + size ≤ 2 ^ 47 → 0 ≤ phys → phys + size ≤ 2 ^ 52 →
  virt mod PAGE_SIZE = 0 → phys mod PAGE_SIZE = 0 → size mod PAGE_SIZE = 0 →
  (∀ w e, virt ≤ w < virt + size → mmu_walk (ram s) P w ≠ Some (Large e)) →
  ∃ ok s' F' T', map_range s {| pml4_phys := P |} virt phys size flags = Ret (ok, s') ∧
    space_inv co s' F' P T' ∧ (ok = false → F' = ∅) ∧
    (∀ w, is_user w → ¬ (virt ≤ w < virt + size) → mmu_walk (ram s') P w = mmu_walk (ram s) P w) ∧
    (ok = true → ∀ w, virt ≤ w < virt + size →
      ∃ l, mmu_walk (ram s') P w = Some l ∧ leaf_phys w l = phys + (w - virt) ∧
        has (leaf_entry l) PTE_WRITABLE = has flags PTE_WRITABLE ∧
        has (leaf_entry l) PTE_USER = has flags PTE_USER ∧
        has (leaf_entry l) PTE_NO_EXEC = has flags PTE_NO_EXEC).
Proof.
  intros HV Hf Hv0 Hs0 Hv1 Hp0 Hp1 Hva Hpa Hsa Hnl. pose proof (vi_tree _ _ _ _ _ HV) as HT.
  destruct (map_range_loop_spec (pmm_inv co) P virt phys size flags (Z.to_nat (size / PAGE_SIZE + 2)) s F T 0)
    as (ok & s' & F' & T' & E & Hok & HR & HD); auto; try lia.
  { intros w e Hw. rewrite <- (mmu_walk_tree _ P); [apply Hnl; lia|done|]. unfold is_user. lia. }
  { rewrite Z.sub_0_r. pose proof (Z.div_pos size PAGE_SIZE). lia. }
  pose proof (rm_inv _ _ _ _ _ _ _ _ _ HR) as HV'. pose proof (vi_tree _ _ _ _ _ HV') as HT'.
  exists ok, s', F', T'. split_and!; [done|done|done| |].
  - intros w Hw Hout. specialize (HD w Hw). rewrite decide_False in HD by lia.
    by rewrite (mmu_walk_tree _ _ _ _ HT' Hw), (mmu_walk_tree _ _ _ _ HT Hw).
  - intros Hk w Hin. assert (Hw : is_user w) by (unfold is_user; lia).
    specialize (HD w Hw). rewrite decide_True in HD by lia. destruct (HD Hk) as (l & Hl & Hr).
    exists l. rewrite (mmu_walk_tree _ _ _ _ HT' Hw). split_and!; [done| |by eapply range_leaf_has..].
    by eapply (range_leaf_phys virt phys size flags).
Qed.

(** C24: [translate] is the address translation of the processor, for every user
    address and both page sizes. *)
Theorem translate_correct co s F P T virt :
  space_inv co s F P T → is_user virt →
  translate (ram s) {| pml4_phys := P |} virt = Ret (leaf_phys virt <$> mmu_walk (ram s) P virt).
Proof.
  intros [_ HT _] Hv. rewrite (mmu_walk_tree _ _ _ _ HT Hv). by apply (translate_spec _ P T).
Qed.

(** [unmap] of a page not covered by a 2 MiB mapping removes exactly that
    page and allocates and frees nothing. *)
Theorem unmap_correct co s F P T virt :
  space_inv co s F P T → is_user virt → (∀ e, mmu_walk (ram s) P virt ≠ Some (Large e)) →
  ∃ s', unmap s {| pml4_phys := P |} virt = Ret s' ∧ space_inv co s' F P T ∧
    (∀ w, is_user w → mmu_walk (ram s') P w =
      if decide (page w = page virt) then None else mmu_walk (ram s) P w).
Proof.
  intros HV Hv Hnl. pose proof (vi_tree _ _ _ _ _ HV) as HT.
  destruct (unmap_spec (pmm_inv co) s F P T virt HV Hv) as (s' & E & HR).
  { intros e. rewrite <- (mmu_walk_tree _ P) by done. auto. }
  exists s'. split_and!; [done|apply HR|]. intros w Hw.
  rewrite (remaps_mmu _ _ _ _ _ _ _ _ _ _ HR Hw). by rewrite (mmu_walk_tree _ _ _ _ HT Hw).
Qed.

(** C27: dropping an address space gives all its page tables, and nothing else,
    back to the allocator, with no use after free: no table is read after it was
    freed, whose first word [free] overwrites. *)
Theorem drop_correct co s F P T :
  space_inv co s F P T →
  ∃ s', AddressSpace_drop s {| pml4_phys := P |} = Ret s' ∧ pmm_inv co s' (F ∪ tables T) ∧
    agree_outside (F ∪ tables T) (ram s) (ram s').
Proof. apply drop_spec. apply _. Qed.

(** a new user address space maps no user page, shares the kernel half of
    the root table, and takes one frame; creation fails only without free
    frames. *)
Theorem new_user_correct co KP s F :
  pmm_inv co s F → node_ok KP → KP ≠ 0 → KP / PAGE_SIZE ∉ F →
  ∃ r s', new_user KP s = Ret (r, s') ∧
    match r with
    | None => s' = s ∧ F = ∅
    | Some sp => let p := pml4_phys sp in
        p / PAGE_SIZE ∈ F ∧ space_inv co s' (F ∖ {[p / PAGE_SIZE]}) p {[ [] := p ]} ∧
        (∀ v, is_user v → mmu_walk (ram s') p v = None) ∧
        (∀ i, 256 ≤ i < 512 → entry (ram s') (table_at p) i = entry (ram s) (table_at KP) i) ∧
        agree_outside F (ram s) (ram s')
    end.
Proof. apply new_user_spec. apply _. Qed.
End Vmm.

(** ** Witnesses *)
Section Demo.
#[local] Existing Instance qemu_hhdm.

(** A fresh address space on the machine of [demo_map], with the boot page
    tables in frame 1. *)
Definition demo_space : option (AddressSpace * mm) :=
  match new_user 0x1000 demo_state with Ret (Some sp, s) => Some (sp, s) | _ => None end.
Definition demo_P : Z := match demo_space with Some (sp, _) => pml4_phys sp | None => 0 end.
Definition demo_s : mm := match demo_space with Some (_, s) => s | None => demo_state end.
Definition demo_F : gset Z := usable_frames demo_map ∖ {[demo_P / PAGE_SIZE]}.

Lemma demo_frame_1 : 0x1000 / PAGE_SIZE ∉ usable_frames demo_map.
Proof. rewrite demo_frames. change (0x1000 / PAGE_SIZE) with 1. lia. Qed.

Lemma demo_space_inv :
  vmm_inv (pmm_inv true) demo_s demo_F demo_P {[ [] := demo_P ]} ∧
  (∀ v, is_user v → mmu_walk (ram demo_s) demo_P v = None).
Proof.
  destruct (new_user_spec (pmm_inv true) 0x1000 demo_state (usable_frames demo_map)) as (r & s' & E & H).
  { exact demo_inv. }
  { split; [lia|reflexivity]. }
  { lia. }
  { exact demo_frame_1. }
  unfold demo_F, demo_P, demo_s, demo_space. rewrite E. clear E. destruct r as [sp|].
  - destruct H as (_ & H1 & H2 & _). exact (conj H1 H2).
  - exfalso. destruct H as [_ H]. assert (Hf : 600 ∈ usable_frames demo_map) by (apply demo_frames; lia).
    rewrite H in Hf. by apply not_elem_of_empty in Hf.
Qed.

Lemma demo_root_frame : demo_P / PAGE_SIZE ∈ usable_frames demo_map.
Proof.
  destruct (new_user_spec (pmm_inv true) 0x1000 demo_state (usable_frames demo_map)) as (r & s' & E & H).
  { exact demo_inv. } { split; [lia|reflexivity]. } { lia. } { exact demo_frame_1. }
  unfold demo_P, demo_space. rewrite E. clear E. destruct r as [sp|]; [by destruct H as [H _]|].
  exfalso. destruct H as [_ H]. assert (Hf : 600 ∈ usable_frames demo_map) by (apply demo_frames; lia).
  rewrite H in Hf. by apply not_elem_of_empty in Hf.
Qed.

Lemma demo_no_large v e : is_user v → mmu_walk (ram demo_s) demo_P v ≠ Some (Large e).
Proof. intros Hv. rewrite (proj2 demo_space_inv v Hv). discriminate. Qed.

Lemma map_correct_witness :
  ∃ ok s' F' T', map demo_s {| pml4_phys := demo_P |} 0x400123 0x345000 7 = Ret (ok, s') ∧
    vmm_inv (pmm_inv true) s' F' demo_P T' ∧
    F' ∪ tables T' = demo_F ∪ tables {[ [] := demo_P ]} ∧
    agree_outside (demo_F ∪ tables {[ [] := demo_P ]}) (ram demo_s) (ram s') ∧
    ((3 ≤ size demo_F)%nat → ok = true) ∧
    (∀ w, is_user w → mmu_walk (ram s') demo_P w =
      if decide (ok = true ∧ page w = page 0x400123) then Some (Small (make_pte 0x345000 7))
      else mmu_walk (ram demo_s) demo_P w).
Proof.
  apply (map_correct true demo_s demo_F demo_P {[ [] := demo_P ]} 0x400123 0x345000 7).
  - exact (proj1 demo_space_inv).
  - unfold is_user. lia.
  - unfold is_u64. lia.
  - split; [unfold is_u64; lia|reflexivity].
  - intros e. apply demo_no_large. unfold is_user. lia.
Defined.

Lemma map_range_correct_witness :
  ∃ ok s' F' T', map_range demo_s {| pml4_phys := demo_P |} 0x1FF000 0x3FF000 0x202000 3 = Ret (ok, s') ∧
    vmm_inv (pmm_inv true) s' F' demo_P T' ∧ (ok = false → F' = ∅) ∧
    (∀ w, is_user w → ¬ (0x1FF000 ≤ w < 0x1FF000 + 0x202000) →
      mmu_walk (ram s') demo_P w = mmu_walk (ram demo_s) demo_P w) ∧
    (ok = true → ∀ w, 0x1FF000 ≤ w < 0x1FF000 + 0x202000 →
      ∃ l, mmu_walk (ram s') demo_P w = Some l ∧ leaf_phys w l = 0x3FF000 + (w - 0x1FF000) ∧
        has (leaf_entry l) PTE_WRITABLE = has 3 PTE_WRITABLE ∧
        has (leaf_entry l) PTE_USER = has 3 PTE_USER ∧
        has (leaf_entry l) PTE_NO_EXEC = has 3 PTE_NO_EXEC).
Proof.
  apply (map_range_correct true demo_s demo_F demo_P {[ [] := demo_P ]} 0x1FF000 0x3FF000 0x202000 3);
    try lia; try reflexivity.
  - exact (proj1 demo_space_inv).
  - split; [unfold is_u64; lia|reflexivity].
  - intros w e Hw. apply demo_no_large. unfold is_user. lia.
Defined.

Lemma translate_correct_witness :
  translate (ram demo_s) {| pml4_phys := demo_P |} 0x7000 =
    Ret (leaf_phys 0x7000 <$> mmu_walk (ram demo_s) demo_P 0x7000).
Proof.
  apply (translate_correct true demo_s demo_F demo_P {[ [] := demo_P ]} 0x7000).
  - exact (proj1 demo_space_inv).
  - unfold is_user. lia.
Defined.

Lemma unmap_correct_witness :
  ∃ s', unmap demo_s {| pml4_phys := demo_P |} 0x7000 = Ret s' ∧
    vmm_inv (pmm_inv true) s' demo_F demo_P {[ [] := demo_P ]} ∧
    (∀ w, is_user w → mmu_walk (ram s') demo_P w =
      if decide (page w = page 0x7000) then None else mmu_walk (ram demo_s) demo_P w).
Proof.
  apply (unmap_correct true demo_s demo_F demo_P {[ [] := demo_P ]} 0x7000).
  - exact (proj1 demo_space_inv).
  - unfold is_user. lia.
  - intros e. apply demo_no_large. unfold is_user. lia.
Defined.

Lemma drop_correct_witness :
  ∃ s', AddressSpace_drop demo_s {| pml4_phys := demo_P |} = Ret s' ∧
    pmm_inv true s' (demo_F ∪ tables {[ [] := demo_P ]}) ∧
    agree_outside (demo_F ∪ tables {[ [] := demo_P ]}) (ram demo_s) (ram s').
Proof.
  apply (drop_correct true demo_s demo_F demo_P {[ [] := demo_P ]}). exact (proj1 demo_space_inv).
Defined.

Lemma new_user_correct_witness :
  ∃ r s', new_user 0x1000 demo_state = Ret (r, s') ∧
    match r with
    | None => s' = demo_state ∧ usable_frames demo_map = ∅
    | Some sp => let p := pml4_phys sp in
        p / PAGE_SIZE ∈ usable_frames demo_map ∧
        vmm_inv (pmm_inv true) s' (usable_frames demo_map ∖ {[p / PAGE_SIZE]}) p {[ [] := p ]} ∧
        (∀ v, is_user v → mmu_walk (ram s') p v = None) ∧
        (∀ i, 256 ≤ i < 512 → entry (ram s') (table_at p) i = entry (ram demo_state) (table_at 0x1000) i) ∧
        agree_outside (usable_frames demo_map) (ram demo_state) (ram s')
    end.
Proof.
  apply (new_user_correct true 0x1000 demo_state (usable_frames demo_map)).
  - exact demo_inv.
  - split; [lia|reflexivity].
  - lia.
  - exact demo_frame_1.
Defined.
End Demo.
