(* ===== verification/Vma.v ===== *)
(** Virtual memory areas and page faults ([src/src/mm/vmm.rs]): the areas of a
    process, demand paging and copy on write. *)
From stdpp Require Import sorting.
From S2P Require Import Prelude Machine Pmm Vmm.

(** ** [VmaFlags] *)
Abbreviation VMA_READ := 0x1 (only parsing).
Abbreviation VMA_WRITE := 0x2 (only parsing).
Abbreviation VMA_EXEC := 0x4 (only parsing).
Abbreviation VMA_SHARED := 0x8 (only parsing).
Abbreviation VMA_COPY_ON_WRITE := 0x10 (only parsing).
Abbreviation VMA_ANONYMOUS := 0x20 (only parsing).
Abbreviation VMA_GROWS_DOWN := 0x40 (only parsing).

(** [flags.contains(f)] *)
Definition flags_contain (flags f : Z) : bool := Z.land flags f =? f.

(** ** [VmaEntry] and [VmSpace] *)
Record VmaEntry := { start : Z; end_ : Z; vma_flags : Z }.

Definition contains (a : VmaEntry) (addr : Z) : bool := (start a <=? addr) && (addr <? end_ a).

Record VmSpace := { areas : list VmaEntry; brk : Z }.

Definition VmSpace_new : VmSpace := {| areas := []; brk := 0x10000000 |}.

Definition find_vma (vm : VmSpace) (addr : Z) : option VmaEntry :=
  snd <$> list_find (λ a, contains a addr = true) (areas vm).

Definition start_le (a b : VmaEntry) : Prop := start a ≤ start b.
#[global] Instance start_le_dec a b : Decision (start_le a b) := Z_le_dec _ _.
#[global] Instance start_le_trans : Transitive start_le.
Proof. intros a b c. unfold start_le. lia. Qed.
#[global] Instance start_le_total : Total start_le.
Proof. intros a b. unfold start_le. lia. Qed.

(** The sort is unstable, so the order of areas with equal starts is not
    specified; the theorems depend on the contents and the order by start. *)
Definition add_vma (vm : VmSpace) (s e flags : Z) : VmSpace := {|
  areas := merge_sort start_le (areas vm ++ [{| start := s; end_ := e; vma_flags := flags |}]);
  brk := brk vm |}.

Definition remove_vma (vm : VmSpace) (s e : Z) : VmSpace := {|
  areas := filter (λ a, ¬ (s ≤ start a ∧ end_ a ≤ e)) (areas vm);
  brk := brk vm |}.

(** ** Page faults *)
Section Fault.
Context {hh : Hhdm}.
Implicit Types (s : mm) (sp : AddressSpace).

Definition vma_pte_flags (vma : VmaEntry) : Z :=
  let flags := Z.lor PTE_PRESENT PTE_USER in
  let flags := if flags_contain (vma_flags vma) VMA_WRITE then Z.lor flags PTE_WRITABLE else flags in
  if negb (flags_contain (vma_flags vma) VMA_EXEC) then Z.lor flags PTE_NO_EXEC else flags.

Definition handle_demand_page s sp (addr : Z) (vma : VmaEntry) : exec (bool * mm) :=
  page_addr ← align_down addr PAGE_SIZE;
  '(r, s) ← alloc_zeroed_frame s;
  match r with
  | None => Ret (false, s)
  | Some phys => map s sp page_addr phys (vma_pte_flags vma)
  end.

Definition handle_cow s sp (addr : Z) : exec (bool * mm) :=
  page_addr ← align_down addr PAGE_SIZE;
  r ← translate (ram s) sp page_addr;
  match r with
  | None => Ret (false, s)
  | Some old_phys =>
      '(r, s) ← alloc_zeroed_frame s;
      match r with
      | None => Ret (false, s)
      | Some new_phys =>
          src ← phys_to_virt old_phys;
          dst ← phys_to_virt new_phys;
          let s := set_ram s (mem_copy (ram s) src dst PAGE_SIZE) in
          '(_, s) ← map s sp page_addr new_phys (Z.lor (Z.lor PTE_PRESENT PTE_WRITABLE) PTE_USER);
          Ret (true, s)
      end
  end.

(** [cur] is the address space and the areas of the current process. *)
Definition handle_page_fault s (cur : option (AddressSpace * VmSpace)) (addr error : Z)
    : exec (bool * mm) :=
  let present := has error 1 in
  let write := has error 2 in
  match cur with
  | None => Ret (false, s)
  | Some (sp, vm) =>
      match find_vma vm addr with
      | None => Ret (false, s)
      | Some vma =>
          if write && negb (flags_contain (vma_flags vma) VMA_WRITE) then
            if flags_contain (vma_flags vma) VMA_COPY_ON_WRITE then handle_cow s sp addr
            else Ret (false, s)
          else if negb present then handle_demand_page s sp addr vma
          else Ret (false, s)
      end
  end.

(** ** Areas *)
Definition vm_sorted (vm : VmSpace) : Prop := StronglySorted start_le (areas vm).

Lemma add_vma_sorted vm st e fl : vm_sorted (add_vma vm st e fl).
Proof. apply StronglySorted_merge_sort; apply _. Qed.

Lemma add_vma_perm vm st e fl :
  areas (add_vma vm st e fl) ≡ₚ {| start := st; end_ := e; vma_flags := fl |} :: areas vm.
Proof. simpl. rewrite merge_sort_Permutation. by rewrite Permutation_app_comm. Qed.

(** Areas that do not overlap. *)
Definition disjoint_areas (l : list VmaEntry) : Prop :=
  ∀ i j a b x, l !! i = Some a → l !! j = Some b →
    contains a x = true → contains b x = true → i = j.

Lemma find_vma_Some vm addr a :
  find_vma vm addr = Some a → a ∈ areas vm ∧ contains a addr = true.
Proof.
  unfold find_vma. intros ([i b] & H & ->)%fmap_Some_1.
  apply list_find_Some in H as (H & ? & _). split; [|done]. by eapply list_elem_of_lookup_2.
Qed.

Lemma find_vma_None vm addr :
  find_vma vm addr = None ↔ ∀ a, a ∈ areas vm → contains a addr = false.
Proof.
  unfold find_vma. rewrite fmap_None, list_find_None, Forall_forall.
  split; intros H a Ha; specialize (H a Ha); by destruct (contains a addr).
Qed.

Lemma find_vma_disjoint vm addr a :
  disjoint_areas (areas vm) → a ∈ areas vm → contains a addr = true → find_vma vm addr = Some a.
Proof.
  intros Hd Ha Hc. destruct (find_vma vm addr) as [b|] eqn:E.
  - apply find_vma_Some in E as [Hb Hcb]. apply list_elem_of_lookup_1 in Ha as [i Hi], Hb as [j Hj].
    assert (i = j) as -> by (by eapply (Hd i j a b addr)). congruence.
  - rewrite find_vma_None in E. rewrite E in Hc by done. done.
Qed.

(** ** Demand paging *)
Lemma vma_flags_ok vma : flags_ok (vma_pte_flags vma).
Proof.
  unfold vma_pte_flags. destruct (flags_contain (vma_flags vma) VMA_WRITE),
    (flags_contain (vma_flags vma) VMA_EXEC); (split; [split; vm_compute; congruence|reflexivity]).
Qed.

Lemma vma_flags_has vma :
  has (vma_pte_flags vma) PTE_USER = true ∧
  has (vma_pte_flags vma) PTE_WRITABLE = flags_contain (vma_flags vma) VMA_WRITE ∧
  has (vma_pte_flags vma) PTE_NO_EXEC = negb (flags_contain (vma_flags vma) VMA_EXEC).
Proof.
  unfold vma_pte_flags. by destruct (flags_contain (vma_flags vma) VMA_WRITE),
    (flags_contain (vma_flags vma) VMA_EXEC).
Qed.

Lemma page_aligned_user addr : is_user addr →
  align_down addr PAGE_SIZE = Ret (PAGE_SIZE * page addr) ∧ is_user (PAGE_SIZE * page addr) ∧
  page (PAGE_SIZE * page addr) = page addr.
Proof.
  intros Ha. unfold is_user in *. split_and!.
  - apply align_down_page. unfold is_u64. lia.
  - change (2 ^ 47) with 140737488355328 in *. dlia.
  - change (2 ^ 47) with 140737488355328 in *. dlia.
  - dlia.
Qed.

Section Specs.
Context (inv : mm → gset Z → Prop) {FA : FrameAllocator inv}.
Implicit Types (F : gset Z) (T : gmap (list Z) Z).

(** Allocating a frame for data leaves the address space as it was. *)
Lemma alloc_data s F P T :
  vmm_inv inv s F P T →
  ∃ r s', alloc_zeroed_frame s = Ret (r, s') ∧
    match r with
    | None => s' = s ∧ F = ∅
    | Some q =>
        node_ok q ∧ q / PAGE_SIZE ∈ F ∧ vmm_inv inv s' (F ∖ {[q / PAGE_SIZE]}) P T ∧
        (∀ x, vframe x = q / PAGE_SIZE → ram s' x = 0) ∧ agree_outside F (ram s) (ram s') ∧
        (∀ v, is_user v → mmu_walk (ram s') P v = mmu_walk (ram s) P v)
    end.
Proof.
  intros [HI HT HD]. destruct (fa_alloc s F HI) as (r & s' & E & H). exists r, s'. split; [done|].
  destruct r as [q|]; [|done]. destruct H as (Hq & HqF & HI' & Hz & Hm).
  assert (Hext : ∀ x, vframe x ∈ tables T → ram s' x = ram s x).
  { intros x Hx. apply Hm. intros Hf. exact (HD _ Hx Hf). }
  pose proof (tree_ext _ _ P T HT Hext) as HT'. split_and!; [done|done| |done|done|].
  - split; [done|done|]. intros f Hf1 Hf2. apply elem_of_difference in Hf2 as [Hf2 _]. exact (HD _ Hf1 Hf2).
  - intros v Hv. rewrite (mmu_walk_tree _ _ _ _ HT' Hv), (mmu_walk_tree _ _ _ _ HT Hv).
    by apply (tree_walk_ext _ _ P).
Qed.

(** What a fault handler guarantees: the page of [addr] is now backed by a frame
    that was free, through the entry flags [flags], and no other page moved. *)
Definition backed s F T s' F' T' (P addr q flags : Z) : Prop :=
  node_ok q ∧ q / PAGE_SIZE ∈ F ∧ (q / PAGE_SIZE ∉ F' ∪ tables T') ∧
  (∀ w, is_user w → mmu_walk (ram s') P w =
    if decide (page w = page addr) then Some (Small (make_pte q flags)) else mmu_walk (ram s) P w).

Lemma map_data s F P T addr q flags s1 :
  vmm_inv inv s F P T → node_ok q → q / PAGE_SIZE ∈ F →
  vmm_inv inv s1 (F ∖ {[q / PAGE_SIZE]}) P T →
  (∀ v, is_user v → mmu_walk (ram s1) P v = mmu_walk (ram s) P v) →
  is_user addr → flags_ok flags → (∀ e, mmu_walk (ram s) P addr ≠ Some (Large e)) →
  ∃ ok s' F' T', map s1 {| pml4_phys := P |} (PAGE_SIZE * page addr) q flags = Ret (ok, s') ∧
    vmm_inv inv s' F' P T' ∧ ((4 ≤ size F)%nat → ok = true) ∧
    (∀ x, vframe x = q / PAGE_SIZE → ram s' x = ram s1 x) ∧
    if ok then backed s F T s' F' T' P addr q flags
    else ∀ w, is_user w → mmu_walk (ram s') P w = mmu_walk (ram s) P w.
Proof.
  intros HV Hq HqF HV1 Hw1 Ha Hfl Hnl. destruct (page_aligned_user addr Ha) as (_ & Hpu & Hpp).
  pose proof (vi_tree _ _ _ _ _ HV1) as HT1.
  assert (HqT : q / PAGE_SIZE ∉ tables T) by (intros E; exact (vi_apart _ _ _ _ _ HV _ E HqF)).
  destruct (map_spec inv s1 _ P T (PAGE_SIZE * page addr) q flags HV1 Hpu)
    as (ok & s' & F' & T' & E & Hok & HF & _ & HR); [destruct Hq; unfold is_u64; lia|done|..].
  { intros e. rewrite (tree_walk_page _ _ _ addr) by done.
    rewrite <- (mmu_walk_tree _ P) by done. rewrite Hw1 by done. apply Hnl. }
  assert (Hqn : q / PAGE_SIZE ∉ (F ∖ {[q / PAGE_SIZE]}) ∪ tables T) by (clear -HqT; set_solver).
  exists ok, s', F', T'. split_and!; [done|apply HR| | |].
  - intros Hsz. destruct ok; [done|]. destruct Hok as [_ Hok]; [done|].
    rewrite size_difference, size_singleton in Hok by (by apply singleton_subseteq_l). lia.
  - intros x Hx. apply (rm_mem _ _ _ _ _ _ _ _ _ HR). by rewrite Hx.
  - assert (Hwalk : ∀ w, is_user w → mmu_walk (ram s') P w =
      if decide (ok = true ∧ page w = page addr) then Some (Small (make_pte q flags))
      else mmu_walk (ram s) P w).
    { intros w Hw. rewrite (remaps_mmu _ _ _ _ _ _ _ _ _ _ HR Hw), Hpp.
      rewrite <- (mmu_walk_tree _ _ _ _ HT1 Hw). by rewrite Hw1. }
    destruct ok.
    + split_and!; [done|done|by rewrite HF|]. intros w Hw. rewrite Hwalk by done.
      destruct (decide (page w = page addr)), (decide _) as [[]|]; try done. tauto.
    + intros w Hw. by rewrite Hwalk.
Qed.

Lemma handle_demand_spec s F P T addr vma :
  vmm_inv inv s F P T → is_user addr → mmu_walk (ram s) P addr = None →
  ∃ ok s' F' T', handle_demand_page s {| pml4_phys := P |} addr vma = Ret (ok, s') ∧
    vmm_inv inv s' F' P T' ∧ ((4 ≤ size F)%nat → ok = true) ∧
    if ok then ∃ q, backed s F T s' F' T' P addr q (vma_pte_flags vma) ∧
                 (∀ x, vframe x = q / PAGE_SIZE → ram s' x = 0)
    else ∀ w, is_user w → mmu_walk (ram s') P w = mmu_walk (ram s) P w.
Proof.
  intros HV Ha Hnone. destruct (page_aligned_user addr Ha) as (Hal & _). unfold handle_demand_page.
  rewrite Hal. exec_simpl. destruct (alloc_data s F P T HV) as (r & s1 & -> & H). exec_simpl.
  destruct r as [q|]; cycle 1.
  { destruct H as [-> ->]. exists false, s, ∅, T. split_and!; [done|done| |done].
    rewrite size_empty. lia. }
  destruct H as (Hq & HqF & HV1 & Hz & _ & Hw).
  destruct (map_data s F P T addr q (vma_pte_flags vma) s1) as (ok & s' & F' & T' & -> & HV' & Hok & Hm & H);
    auto using vma_flags_ok.
  { intros e. rewrite Hnone. discriminate. }
  exists ok, s', F', T'. split_and!; [done|done|done|]. destruct ok; [|done].
  exists q. split; [done|]. intros x Hx. rewrite Hm by done. auto.
Qed.

Lemma handle_cow_spec s F P T addr e :
  vmm_inv inv s F P T → is_user addr → mmu_walk (ram s) P addr = Some (Small e) →
  let old := Z.land e PTE_ADDR_MASK in
  node_ok old → old / PAGE_SIZE ∉ F → old / PAGE_SIZE ∉ tables T → (4 ≤ size F)%nat →
  ∃ s' F' T' q, handle_cow s {| pml4_phys := P |} addr = Ret (true, s') ∧ vmm_inv inv s' F' P T' ∧
    backed s F T s' F' T' P addr q (Z.lor (Z.lor PTE_PRESENT PTE_WRITABLE) PTE_USER) ∧
    (∀ x, 0 ≤ x < PAGE_SIZE → ram s' (table_at q + x) = ram s (table_at old + x)).
Proof.
  intros HV Ha Hwalk old Hold HoF HoT Hsz. destruct (page_aligned_user addr Ha) as (Hal & Hpu & Hpp).
  pose proof (vi_tree _ _ _ _ _ HV) as HT. unfold handle_cow. rewrite Hal. exec_simpl.
  rewrite (translate_spec _ P T) by done. rewrite (tree_walk_page _ _ _ addr) by done.
  rewrite <- (mmu_walk_tree _ P), Hwalk by done. exec_simpl. unfold leaf_phys. fold old.
  replace (old + (PAGE_SIZE * page addr) mod PAGE_SIZE) with old by dlia.
  destruct (alloc_data s F P T HV) as (r & s1 & -> & H). exec_simpl.
  destruct r as [q|]; [|destruct H as [_ ->]; rewrite size_empty in Hsz; lia].
  destruct H as (Hq & HqF & HV1 & Hz & Hm1 & Hw). rewrite !table_virt by done. exec_simpl.
  set (s2 := set_ram s1 _).
  assert (Hm2 : ∀ x, vframe x ≠ q / PAGE_SIZE → ram s2 x = ram s1 x).
  { intros x Hx. simpl. unfold mem_copy.
    destruct (Z.leb_spec (table_at q) x), (Z.ltb_spec x (table_at q + PAGE_SIZE)); try done.
    exfalso. apply Hx, vframe_node; [done|]. unfold table_at in *. lia. }
  assert (HqT : q / PAGE_SIZE ∉ tables T) by (intros E; exact (vi_apart _ _ _ _ _ HV _ E HqF)).
  assert (HV2 : vmm_inv inv s2 (F ∖ {[q / PAGE_SIZE]}) P T).
  { destruct HV1 as [HI1 HT1 HD1]. split; [|eapply tree_ext; [exact HT1|]|done].
    - apply fa_frame; [done|]. intros x Hx. apply Hm2. clear -Hx. set_solver.
    - intros x Hx. apply Hm2. intros E. by rewrite E in Hx. }
  assert (Hw2 : ∀ v, is_user v → mmu_walk (ram s2) P v = mmu_walk (ram s) P v).
  { intros v Hv. rewrite <- (Hw v Hv). pose proof (vi_tree _ _ _ _ _ HV1) as HT1.
    rewrite (mmu_walk_tree _ _ _ _ HT1 Hv), (mmu_walk_tree _ _ _ _ (vi_tree _ _ _ _ _ HV2) Hv).
    apply (tree_walk_ext _ _ P); [done|done|]. intros x Hx. apply Hm2. intros E. by rewrite E in Hx. }
  destruct (map_data s F P T addr q (Z.lor (Z.lor PTE_PRESENT PTE_WRITABLE) PTE_USER) s2)
    as (ok & s' & F' & T' & E & HV' & Hok & Hm & H); auto.
  { split; [split; vm_compute; congruence|reflexivity]. }
  { intros e'. rewrite Hwalk. discriminate. }
  rewrite E. exec_simpl. rewrite Hok in H by done. exists s', F', T', q. split_and!; [done|done|done|].
  intros x Hx. rewrite Hm by (apply vframe_node; [done|unfold table_at; lia]).
  simpl. unfold mem_copy. rewrite (proj2 (Z.leb_le _ _)), (proj2 (Z.ltb_lt _ _)) by lia. simpl.
  replace (table_at old + (table_at q + x - table_at q)) with (table_at old + x) by lia.
  apply Hm1. rewrite (vframe_node old); [done|done|unfold table_at; lia].
Qed.
End Specs.

(** Areas described by membership: no address lies in two areas. *)
Lemma disjoint_areas_perm l l' : l ≡ₚ l' → disjoint_areas l → disjoint_areas l'.
Proof.
  intros Hp Hd i j a b x Hi Hj Ha Hb.
  symmetry in Hp. apply Permutation_inj in Hp as (_ & f & Hf & Hlk).
  rewrite Hlk in Hi, Hj. apply Hf. by eapply (Hd (f i) (f j) a b x).
Qed.

Lemma disjoint_areas_cons a l :
  disjoint_areas l → (∀ b x, b ∈ l → contains a x = true → contains b x = false) →
  disjoint_areas (a :: l).
Proof.
  intros Hd Ha [|i] [|j] b c x; simpl; intros Hi Hj Hb Hc; simplify_eq; auto.
  - rewrite (Ha c x) in Hc; [done|by eapply list_elem_of_lookup_2|done].
  - rewrite (Ha b x) in Hb; [done|by eapply list_elem_of_lookup_2|done].
  - f_equal. by eapply Hd.
Qed.

(** ** Main theorems *)

(** an access to an unmapped page of an area that allows it is resolved by
    demand paging when four frames are free: the page becomes backed by a zeroed
    frame that was free, with the permissions of the area, and no other user page
    changes. *)
Theorem demand_fault_correct co s F P T vm vma addr error :
  vmm_inv (pmm_inv co) s F P T → is_user addr → mmu_walk (ram s) P addr = None →
  has error 1 = false → find_vma vm addr = Some vma →
  (has error 2 = true → flags_contain (vma_flags vma) VMA_WRITE = true) → (4 ≤ size F)%nat →
  ∃ s' F' T' q,
    handle_page_fault s (Some ({| pml4_phys := P |}, vm)) addr error = Ret (true, s') ∧
    vmm_inv (pmm_inv co) s' F' P T' ∧ backed s F T s' F' T' P addr q (vma_pte_flags vma) ∧
    (∀ x, vframe x = q / PAGE_SIZE → ram s' x = 0) ∧
    has (vma_pte_flags vma) PTE_USER = true ∧
    has (vma_pte_flags vma) PTE_WRITABLE = flags_contain (vma_flags vma) VMA_WRITE ∧
    has (vma_pte_flags vma) PTE_NO_EXEC = negb (flags_contain (vma_flags vma) VMA_EXEC).
Proof.
  intros HV Ha Hw Hp Hvma Hwr Hsz. unfold handle_page_fault. rewrite Hp, Hvma.
  replace (has error 2 && negb (flags_contain (vma_flags vma) VMA_WRITE)) with false; cycle 1.
  { destruct (has error 2); [|done]. by rewrite Hwr. }
  cbn [negb]. destruct (handle_demand_spec (pmm_inv co) s F P T addr vma HV Ha Hw)
    as (ok & s' & F' & T' & -> & HV' & Hok & H).
  rewrite Hok in * by done. destruct H as (q & Hb & Hz). exists s', F', T', q.
  split_and!; [done|done|done|done|apply vma_flags_has..].
Qed.

(** a write to a present page of a copy-on-write area without the [WRITE]
    flag gives the process its own frame: the page becomes writable and backed
    by a frame that was free and holds a copy of the old page, the old frame is
    not written, and no other user page changes. *)
Theorem cow_fault_correct co s F P T vm vma addr error e :
  vmm_inv (pmm_inv co) s F P T → is_user addr → mmu_walk (ram s) P addr = Some (Small e) →
  has error 2 = true → find_vma vm addr = Some vma →
  flags_contain (vma_flags vma) VMA_WRITE = false →
  flags_contain (vma_flags vma) VMA_COPY_ON_WRITE = true →
  let old := Z.land e PTE_ADDR_MASK in
  node_ok old → old / PAGE_SIZE ∉ F → old / PAGE_SIZE ∉ tables T → (4 ≤ size F)%nat →
  ∃ s' F' T' q,
    handle_page_fault s (Some ({| pml4_phys := P |}, vm)) addr error = Ret (true, s') ∧
    vmm_inv (pmm_inv co) s' F' P T' ∧
    backed s F T s' F' T' P addr q (Z.lor (Z.lor PTE_PRESENT PTE_WRITABLE) PTE_USER) ∧
    (∀ x, 0 ≤ x < PAGE_SIZE → ram s' (table_at q + x) = ram s (table_at old + x)).
Proof.
  intros HV Ha Hw Hwr Hvma Hnw Hcow old Ho1 Ho2 Ho3 Hsz. unfold handle_page_fault.
  rewrite Hwr, Hvma, Hnw, Hcow. cbn [negb andb].
  exact (handle_cow_spec (pmm_inv co) s F P T addr e HV Ha Hw Ho1 Ho2 Ho3 Hsz).
Qed.

(** A write fault on a present page of a writable area is refused, also when
    the area is marked copy-on-write. *)
Lemma writable_area_refused s sp vm vma addr error :
  has error 1 = true → find_vma vm addr = Some vma →
  flags_contain (vma_flags vma) VMA_WRITE = true →
  handle_page_fault s (Some (sp, vm)) addr error = Ret (false, s).
Proof.
  intros Hp Hvma Hw. unfold handle_page_fault. rewrite Hp, Hvma, Hw. by rewrite andb_false_r.
Qed.

(** adding an area that overlaps no other keeps the areas sorted by start
    and pairwise disjoint; [find_vma] then finds the new area at exactly its
    addresses and what it found before everywhere else. *)
Theorem add_vma_correct vm st e fl addr :
  disjoint_areas (areas vm) →
  (∀ b x, b ∈ areas vm → st ≤ x < e → contains b x = false) →
  let vm' := add_vma vm st e fl in
  vm_sorted vm' ∧ disjoint_areas (areas vm') ∧
  find_vma vm' addr = if decide (st ≤ addr < e)
    then Some {| start := st; end_ := e; vma_flags := fl |} else find_vma vm addr.
Proof.
  intros Hd Hnew vm'. set (a := {| start := st; end_ := e; vma_flags := fl |}).
  assert (Hca : ∀ x, contains a x = true ↔ st ≤ x < e).
  { intros x. unfold contains. simpl. rewrite andb_true_iff, Z.leb_le, Z.ltb_lt. lia. }
  pose proof (add_vma_perm vm st e fl) as Hperm. fold a vm' in Hperm.
  assert (Hd' : disjoint_areas (areas vm')).
  { eapply disjoint_areas_perm; [symmetry; exact Hperm|]. apply disjoint_areas_cons; [done|].
    intros b x Hb Hx. apply Hnew; [done|]. by apply Hca. }
  split_and!; [apply add_vma_sorted|done|]. destruct (decide (st ≤ addr < e)) as [Hin|Hout].
  - apply find_vma_disjoint; [done| |by apply Hca]. rewrite Hperm. apply list_elem_of_here.
  - destruct (find_vma vm addr) as [b|] eqn:E.
    + apply find_vma_Some in E as [Hb Hc]. apply find_vma_disjoint; [done| |done].
      rewrite Hperm. by apply list_elem_of_further.
    + rewrite find_vma_None in E |- *. intros b Hb. rewrite Hperm in Hb.
      apply elem_of_cons in Hb as [->|Hb]; [|auto]. destruct (contains a addr) eqn:Ec; [|done].
      apply Hca in Ec. lia.
Qed.
End Fault.

(** ** Witnesses *)
Section Demo.
#[local] Existing Instance qemu_hhdm.

(** One anonymous read-write area. *)
Definition demo_vm : VmSpace := add_vma VmSpace_new 0x400000 0x500000 0x23.
Definition demo_vma : VmaEntry := {| start := 0x400000; end_ := 0x500000; vma_flags := 0x23 |}.

Lemma demo_find : find_vma demo_vm 0x400123 = Some demo_vma.
Proof. reflexivity. Qed.

Lemma demo_F_size : (256 ≤ size demo_F)%nat.
Proof.
  assert (H : (257 ≤ size demo_F + 1)%nat); [|lia]. apply (size_run_minus _ 1000).
  intros f Hf. apply demo_frames. lia.
Qed.

Lemma demand_fault_correct_witness :
  ∃ s' F' T' q,
    handle_page_fault demo_s (Some ({| pml4_phys := demo_P |}, demo_vm)) 0x400123 6 = Ret (true, s') ∧
    vmm_inv (pmm_inv true) s' F' demo_P T' ∧
    backed demo_s demo_F {[ [] := demo_P ]} s' F' T' demo_P 0x400123 q (vma_pte_flags demo_vma) ∧
    (∀ x, vframe x = q / PAGE_SIZE → ram s' x = 0) ∧
    has (vma_pte_flags demo_vma) PTE_USER = true ∧
    has (vma_pte_flags demo_vma) PTE_WRITABLE = flags_contain (vma_flags demo_vma) VMA_WRITE ∧
    has (vma_pte_flags demo_vma) PTE_NO_EXEC = negb (flags_contain (vma_flags demo_vma) VMA_EXEC).
Proof.
  apply (demand_fault_correct true demo_s demo_F demo_P {[ [] := demo_P ]} demo_vm demo_vma 0x400123 6).
  - exact (proj1 demo_space_inv).
  - unfold is_user. lia.
  - apply (proj2 demo_space_inv). unfold is_user. lia.
  - reflexivity.
  - exact demo_find.
  - reflexivity.
  - pose proof demo_F_size. lia.
Defined.

Lemma add_vma_correct_witness :
  vm_sorted (add_vma demo_vm 0x1000 0x3000 1) ∧ disjoint_areas (areas (add_vma demo_vm 0x1000 0x3000 1)) ∧
  find_vma (add_vma demo_vm 0x1000 0x3000 1) 0x2000 =
    if decide (0x1000 ≤ 0x2000 < 0x3000)
    then Some {| start := 0x1000; end_ := 0x3000; vma_flags := 1 |} else find_vma demo_vm 0x2000.
Proof.
  apply (add_vma_correct demo_vm 0x1000 0x3000 1 0x2000).
  - intros [|i] [|j] a b x Hi Hj _ _; [done|..]; simpl in *; discriminate.
  - intros b x Hb Hx. apply list_elem_of_singleton in Hb as ->. unfold contains. simpl. lia.
Defined.

(** A copy-on-write page: frame 3 backs the page at 0x400000 of [demo_s]. *)
Definition demo_cow : exec (bool * mm) := map demo_s {| pml4_phys := demo_P |} 0x400000 0x3000 5.
Definition demo_cow_s : mm := match demo_cow with Ret (_, s) => s | _ => demo_s end.
Definition demo_cow_vm : VmSpace := add_vma VmSpace_new 0x400000 0x500000 0x31.
Definition demo_cow_vma : VmaEntry := {| start := 0x400000; end_ := 0x500000; vma_flags := 0x31 |}.

Lemma demo_F_sub f : f ∈ demo_F → 512 ≤ f.
Proof. intros Hf. apply elem_of_difference in Hf as [Hf _]. apply demo_frames in Hf. lia. Qed.

Lemma demo_P_frame : 512 ≤ demo_P / PAGE_SIZE.
Proof. vm_compute. discriminate. Qed.

Lemma demo_cow_inv : ∃ F T,
  vmm_inv (pmm_inv true) demo_cow_s F demo_P T ∧ (4 ≤ size F)%nat ∧
  (∀ f, f ∈ F ∪ tables T → 512 ≤ f) ∧
  mmu_walk (ram demo_cow_s) demo_P 0x400123 = Some (Small (make_pte 0x3000 5)).
Proof.
  destruct (map_spec (pmm_inv true) demo_s demo_F demo_P {[ [] := demo_P ]} 0x400000 0x3000 5)
    as (ok & s' & F' & T' & E & Hok & HF & Hsz & HR).
  { exact (proj1 demo_space_inv). }
  { unfold is_user. lia. }
  { unfold is_u64. lia. }
  { split; [unfold is_u64; lia|reflexivity]. }
  { intros e. rewrite <- (mmu_walk_tree _ demo_P); [apply demo_no_large; unfold is_user; lia| |unfold is_user; lia].
    apply (proj1 demo_space_inv). }
  pose proof demo_F_size. assert (ok = true) as ->.
  { destruct ok; [done|]. destruct Hok; [done|lia]. }
  unfold demo_cow_s, demo_cow. rewrite E. clear E. exists F', T'. split_and!.
  - apply HR.
  - lia.
  - intros f Hf. rewrite HF in Hf. apply elem_of_union in Hf as [Hf|Hf]; [by apply demo_F_sub|].
    apply elem_of_tables in Hf as (a & p & [_ <-]%lookup_singleton_Some & ->). exact demo_P_frame.
  - rewrite (remaps_mmu _ _ _ _ _ _ _ _ _ _ HR) by (unfold is_user; lia). reflexivity.
Qed.

Lemma cow_fault_correct_witness :
  ∃ F T s' F' T' q,
    handle_page_fault demo_cow_s (Some ({| pml4_phys := demo_P |}, demo_cow_vm)) 0x400123 7 = Ret (true, s') ∧
    vmm_inv (pmm_inv true) s' F' demo_P T' ∧
    backed demo_cow_s F T s' F' T' demo_P 0x400123 q (Z.lor (Z.lor PTE_PRESENT PTE_WRITABLE) PTE_USER) ∧
    (∀ x, 0 ≤ x < PAGE_SIZE → ram s' (table_at q + x) = ram demo_cow_s (table_at 0x3000 + x)).
Proof.
  destruct demo_cow_inv as (F & T & HV & Hsz & Hlow & Hw). exists F, T.
  apply (cow_fault_correct true demo_cow_s F demo_P T demo_cow_vm demo_cow_vma 0x400123 7 (make_pte 0x3000 5)).
  - exact HV.
  - unfold is_user. lia.
  - exact Hw.
  - reflexivity.
  - reflexivity.
  - reflexivity.
  - reflexivity.
  - split; [vm_compute; split; congruence|reflexivity].
  - intros Hf. assert (512 ≤ 3) by (apply Hlow, elem_of_union; left; exact Hf). lia.
  - intros Hf. assert (512 ≤ 3) by (apply Hlow, elem_of_union; right; exact Hf). lia.
  - exact Hsz.
Defined.
End Demo.
