(* ===== verification/UserMem.v ===== *)
(** The memory of a user address space as its process sees it: a byte view of
    the mapped pages, and how committing a page and copying bytes through
    [AddressSpace::translate] change that view. The program loader and the
    builder of the initial stack are proved against it. *)
From S2P Require Import Prelude Machine Pmm Vmm Vma.

(** The pages of a space: the frame that backs a page and its entry flags. *)
Abbreviation page_map := (gmap Z (Z * Z)) (only parsing).

Section UserMem.
Context {hh : Hhdm}.
Implicit Types (s : mm) (m : mem) (D : page_map) (F : gset Z) (T : gmap (list Z) Z) (bs : list Z).

(** The byte the process reads at [v]. *)
Definition ubyte m D (v : Z) : option Z :=
  (λ qf, m (table_at qf.1 + v mod PAGE_SIZE)) <$> D !! page v.

(** ** Copying bytes into a space

    The closure [write_at] of [build_user_stack]. *)
Fixpoint write_at_loop (fuel : nat) s (sp : AddressSpace) (virt : Z) bs (offset : Z)
    : exec (option unit * mm) :=
  if negb (offset <? length bs) then Ret (Some (), s) else
  match fuel with
  | O => NoFuel
  | S fuel =>
      v ← u64_add virt offset;
      phys ← translate (ram s) sp v;
      match phys with
      | None => Ret (None, s)
      | Some phys =>
          let page_off := v mod PAGE_SIZE in
          let avail := PAGE_SIZE - page_off in
          let to_copy := Z.min avail (length bs - offset) in
          dst ← phys_to_virt phys;
          let src := take (Z.to_nat to_copy) (drop (Z.to_nat offset) bs) in
          write_at_loop fuel (set_ram s (store_bytes (ram s) dst src)) sp virt bs (offset + to_copy)
      end
  end.

Definition write_at s sp (virt : Z) bs : exec (option unit * mm) :=
  write_at_loop (length bs) s sp virt bs 0.

(** ** Spaces with private pages *)
Section Specs.
Context (inv : mm → gset Z → Prop) {FA : FrameAllocator inv}.

(** Exactly the pages of [D] are mapped, each to a frame of its own that is
    neither free nor a page table. *)
Record uspace s F (P : Z) T D : Prop := {
  us_inv : vmm_inv inv s F P T;
  us_walk : ∀ v, is_user v →
    mmu_walk (ram s) P v = (λ qf : Z * Z, Small (make_pte qf.1 qf.2)) <$> D !! page v;
  us_node : ∀ i q fl, D !! i = Some (q, fl) →
    node_ok q ∧ (q / PAGE_SIZE ∉ F ∪ tables T) ∧ flags_ok fl;
  us_inj : ∀ i j q fl fl', D !! i = Some (q, fl) → D !! j = Some (q, fl') → i = j
}.

(** The frames that back pages. *)
Definition dframes D : gset Z := list_to_set ((λ x : Z * (Z * Z), x.2.1 / PAGE_SIZE) <$> map_to_list D).

Lemma elem_of_dframes D f : f ∈ dframes D ↔ ∃ i q fl, D !! i = Some (q, fl) ∧ f = q / PAGE_SIZE.
Proof.
  unfold dframes. rewrite elem_of_list_to_set, list_elem_of_fmap. split.
  - intros ([i [q fl]] & -> & H%elem_of_map_to_list). eauto.
  - intros (i & q & fl & H & ->). exists (i, (q, fl)). split; [done|]. by apply elem_of_map_to_list.
Qed.

(** The space goes from [s] to [s'] within its own and the free frames. *)
Record extends (P : Z) s F T D s' F' T' D' : Prop := {
  ex_space : uspace s' F' P T' D';
  ex_frames : F' ∪ tables T' ∪ dframes D' ⊆ F ∪ tables T ∪ dframes D;
  ex_mem : agree_outside (F ∪ tables T ∪ dframes D) (ram s) (ram s')
}.

Lemma extends_refl P s F T D : uspace s F P T D → extends P s F T D s F T D.
Proof. by split. Qed.

Lemma extends_trans P s F T D s1 F1 T1 D1 s2 F2 T2 D2 :
  extends P s F T D s1 F1 T1 D1 → extends P s1 F1 T1 D1 s2 F2 T2 D2 → extends P s F T D s2 F2 T2 D2.
Proof.
  intros [_ HF1 Hm1] [HU2 HF2 Hm2]. split; [done|by etransitivity|].
  intros x Hx. rewrite Hm2, Hm1; [done|done|]. intros H. by apply Hx, HF1.
Qed.

(** The bytes of a private page are not in free frames or tables. *)
Lemma ubyte_frame s F P T D i q fl x :
  uspace s F P T D → D !! i = Some (q, fl) → 0 ≤ x < PAGE_SIZE →
  vframe (table_at q + x) = q / PAGE_SIZE ∧ vframe (table_at q + x) ∉ F ∪ tables T.
Proof.
  intros HU Hi Hx. destruct (us_node _ _ _ _ _ HU _ _ _ Hi) as (Hq & Hn & _).
  assert (vframe (table_at q + x) = q / PAGE_SIZE) as E
    by (apply vframe_node; [done|unfold table_at; lia]). by rewrite E.
Qed.

Lemma ubyte_agree s F P T D m' v :
  uspace s F P T D → agree_outside (F ∪ tables T) (ram s) m' → ubyte m' D v = ubyte (ram s) D v.
Proof.
  intros HU Hm. unfold ubyte. destruct (D !! page v) as [[q fl]|] eqn:E; [|done]. simpl. f_equal.
  apply Hm. eapply ubyte_frame; [done..|]. apply Z.mod_pos_bound. lia.
Qed.

Lemma translate_uspace s F P T D v :
  uspace s F P T D → is_user v →
  translate (ram s) {| pml4_phys := P |} v = Ret ((λ qf : Z * Z, qf.1 + v mod PAGE_SIZE) <$> D !! page v).
Proof.
  intros HU Hv. pose proof (us_inv _ _ _ _ _ HU) as [_ HT _].
  rewrite (translate_spec _ P T) by done. rewrite <- (mmu_walk_tree _ P) by done.
  rewrite (us_walk _ _ _ _ _ HU v Hv). destruct (D !! page v) as [[q fl]|] eqn:E; [|done].
  destruct (us_node _ _ _ _ _ HU _ _ _ E) as (Hq & _ & Hf). simpl.
  by rewrite make_pte_addr, mask_node by done.
Qed.

Lemma page_virt q o : node_ok q → 0 ≤ o < PAGE_SIZE → phys_to_virt (q + o) = Ret (table_at q + o).
Proof.
  intros [Hq Ha] Ho. rewrite phys_to_virt_ok by dlia. unfold table_at. f_equal. lia.
Qed.

(** *** Committing a page *)
Lemma commit_alloc s F P T D :
  uspace s F P T D →
  ∃ r s', alloc_zeroed_frame s = Ret (r, s') ∧
    match r with
    | None => s' = s ∧ F = ∅
    | Some q => node_ok q ∧ q / PAGE_SIZE ∈ F ∧ uspace s' (F ∖ {[q / PAGE_SIZE]}) P T D ∧
        (∀ x, vframe x = q / PAGE_SIZE → ram s' x = 0) ∧ agree_outside F (ram s) (ram s')
    end.
Proof.
  intros HU. destruct (alloc_data inv s F P T (us_inv _ _ _ _ _ HU)) as (r & s' & E & H).
  exists r, s'. split; [done|]. destruct r as [q|]; [|done].
  destruct H as (Hq & HqF & HV & Hz & Hm & Hw). split_and!; try done. split; [done|..].
  - intros v Hv. rewrite Hw by done. by apply (us_walk _ _ _ _ _ HU).
  - intros i p fl Hi. destruct (us_node _ _ _ _ _ HU _ _ _ Hi) as (? & ? & ?).
    split_and!; [done| |done]. set_solver.
  - apply (us_inj _ _ _ _ _ HU).
Qed.

Lemma uspace_insert s F P T D i q fl :
  vmm_inv inv s F P T → (∀ v, is_user v →
    mmu_walk (ram s) P v = (λ qf : Z * Z, Small (make_pte qf.1 qf.2)) <$> <[i := (q, fl)]> D !! page v) →
  node_ok q → q / PAGE_SIZE ∉ F ∪ tables T → flags_ok fl →
  (∀ j p f, D !! j = Some (p, f) → node_ok p ∧ (p / PAGE_SIZE ∉ F ∪ tables T) ∧ flags_ok f) →
  (∀ j p f, D !! j = Some (p, f) → p ≠ q) →
  (∀ j k p f f', D !! j = Some (p, f) → D !! k = Some (p, f') → j = k) →
  uspace s F P T (<[i := (q, fl)]> D).
Proof.
  intros HV Hw Hq Hn Hfl HD Hne Hinj. split; [done|done|..].
  - intros j p f [[<- E]|[_ E]]%lookup_insert_Some; [by simplify_eq|eauto].
  - intros j k p f f' [[<- E1]|[_ E1]]%lookup_insert_Some [[<- E2]|[_ E2]]%lookup_insert_Some; simplify_eq.
    + done.
    + by apply Hne in E2.
    + by apply Hne in E1.
    + eauto.
Qed.

Lemma pick_page {A} (v w : Z) (a : A) (x : option A) :
  (if decide (true = true ∧ page w = page v) then Some a else x) =
  if decide (page v = page w) then Some a else x.
Proof. destruct (decide (page v = page w)), (decide _) as [[]|]; naive_solver. Qed.

Lemma commit_map s F P T D v q fl s1 :
  uspace s F P T D → is_user v → flags_ok fl → node_ok q → q / PAGE_SIZE ∈ F →
  uspace s1 (F ∖ {[q / PAGE_SIZE]}) P T D → (∀ x, vframe x = q / PAGE_SIZE → ram s1 x = 0) →
  agree_outside F (ram s) (ram s1) →
  ∃ ok s' F' T', map s1 {| pml4_phys := P |} v q fl = Ret (ok, s') ∧
    ((4 ≤ size F)%nat → ok = true) ∧ (size F ≤ size F' + 4)%nat ∧
    let D' := if ok : bool then <[page v := (q, fl)]> D else D in
    extends P s F T D s' F' T' D' ∧
    ∀ w, ubyte (ram s') D' w =
      if decide (ok = true ∧ page w = page v) then Some 0 else ubyte (ram s) D w.
Proof.
  intros HU Hv Hfl Hq HqF HU1 Hz Hm1. pose proof (us_inv _ _ _ _ _ HU1) as HV1.
  assert (Hfr : ∀ i p f, D !! i = Some (p, f) → p / PAGE_SIZE ∉ F ∪ tables T).
  { intros i p f Hi. by destruct (us_node _ _ _ _ _ HU _ _ _ Hi) as (_ & ? & _). }
  assert (HqT : q / PAGE_SIZE ∉ tables T)
    by (intros E; exact (vi_apart _ _ _ _ _ (us_inv _ _ _ _ _ HU) _ E HqF)).
  destruct (map_spec inv s1 _ P T v q fl HV1 Hv) as (ok & s' & F' & T' & E & Hok & HF & Hsz & HR);
    [destruct Hq; unfold is_u64; lia|done|..].
  { intros e. rewrite <- (mmu_walk_tree _ P) by (done || apply HV1).
    rewrite (us_walk _ _ _ _ _ HU1 v Hv). by destruct (D !! page v). }
  pose proof (size_take_one F _ HqF) as HszF.
  assert (Hm : agree_outside (F ∪ tables T) (ram s) (ram s')).
  { intros x Hx. rewrite (rm_mem _ _ _ _ _ _ _ _ _ HR), Hm1; clear -Hx; set_solver. }
  exists ok, s', F', T'. split_and!; [done| |lia|].
  { intros H4. destruct ok; [done|]. destruct Hok as [_ ?]; [done|lia]. }
  assert (Hw : ∀ w, is_user w → mmu_walk (ram s') P w =
    if decide (ok = true ∧ page w = page v) then Some (Small (make_pte q fl))
    else (λ qf : Z * Z, Small (make_pte qf.1 qf.2)) <$> D !! page w).
  { intros w Hw. rewrite (remaps_mmu _ _ _ _ _ _ _ _ _ _ HR Hw). destruct (decide _); [done|].
    rewrite <- (mmu_walk_tree _ P) by (done || apply HV1). by apply (us_walk _ _ _ _ _ HU1). }
  assert (Hby : ∀ w, ubyte (ram s') D w = ubyte (ram s) D w) by (intros; by eapply ubyte_agree).
  assert (HD : ∀ i p f, D !! i = Some (p, f) → node_ok p ∧ (p / PAGE_SIZE ∉ F' ∪ tables T') ∧ flags_ok f).
  { intros i p f Hi. destruct (us_node _ _ _ _ _ HU _ _ _ Hi) as (? & Hn & ?). split_and!; [done| |done].
    rewrite HF. clear -Hn. set_solver. }
  assert (Hm' : agree_outside (F ∪ tables T ∪ dframes D) (ram s) (ram s'))
    by (intros x Hx; apply Hm; clear -Hx; set_solver).
  destruct ok; cbv zeta.
  - split; [split; [| |exact Hm']|].
    + apply uspace_insert; try done; [apply HR| | | |apply (us_inj _ _ _ _ _ HU)].
      * intros w Hu. rewrite Hw, lookup_insert by done.
        rewrite (pick_page v w). by destruct (decide _).
      * rewrite HF. clear -HqT. set_solver.
      * intros i p f Hi ->. apply Hfr in Hi. clear -Hi HqF. set_solver.
    + rewrite HF. intros f [Hf|(i & p & fl' & [[_ [= <- _]]|[_ Hi]]%lookup_insert_Some & ->)%elem_of_dframes]%elem_of_union.
      * clear -Hf. set_solver.
      * clear -HqF. set_solver.
      * apply elem_of_union. right. apply elem_of_dframes. eauto.
    + intros w. unfold ubyte at 1. rewrite lookup_insert.
      destruct (decide (page v = page w)) as [Ep|Ep]; [rewrite decide_True by done|
        rewrite decide_False by (intros [_ ?]; congruence); apply Hby].
      simpl. f_equal. pose proof (Z.mod_pos_bound w PAGE_SIZE ltac:(lia)).
      assert (vframe (table_at q + w mod PAGE_SIZE) = q / PAGE_SIZE) as Ef
        by (apply vframe_node; [done|unfold table_at; lia]).
      rewrite (rm_mem _ _ _ _ _ _ _ _ _ HR), Hz; [done|done|]. rewrite Ef. clear -HqT. set_solver.
  - split; [|intros w; rewrite Hby; rewrite decide_False by (by intros [? _]); done].
    split; [|rewrite HF; clear; set_solver|exact Hm'].
    split; [apply HR| |done|apply (us_inj _ _ _ _ _ HU)].
    intros w Hu. rewrite Hw, decide_False by (done || by intros [? _]). done.
Qed.

(** *** Writing bytes *)
Definition written (V : Z → option Z) (v : Z) bs (w : Z) : option Z :=
  if decide (v ≤ w < v + length bs) then Some (nth (Z.to_nat (w - v)) bs 0) else V w.

Lemma store_bytes_frame m q o bs x :
  node_ok q → 0 ≤ o → o + length bs ≤ PAGE_SIZE → vframe x ≠ q / PAGE_SIZE →
  store_bytes m (table_at q + o) bs x = m x.
Proof.
  intros Hq Ho Hl Hx. unfold store_bytes.
  destruct (Z.leb_spec (table_at q + o) x), (Z.ltb_spec x (table_at q + o + length bs)); try done.
  exfalso. apply Hx, vframe_node; [done|]. unfold table_at in *. lia.
Qed.

Lemma uspace_store s F P T D i q fl m' :
  uspace s F P T D → D !! i = Some (q, fl) → (∀ x, vframe x ≠ q / PAGE_SIZE → m' x = ram s x) →
  uspace (set_ram s m') F P T D.
Proof.
  intros HU Hi Hm. pose proof (us_inv _ _ _ _ _ HU) as [HI HT HD].
  destruct (us_node _ _ _ _ _ HU _ _ _ Hi) as (Hq & Hn & _).
  assert (Hext : ∀ x, vframe x ∈ tables T → m' x = ram s x).
  { intros x Hx. apply Hm. intros E. rewrite E in Hx. clear -Hx Hn. set_solver. }
  pose proof (tree_ext _ m' P T HT Hext) as HT'.
  split; [split| | |]; try done.
  - apply fa_frame; [done|]. intros x Hx. apply Hm. intros E. rewrite E in Hx. clear -Hx Hn. set_solver.
  - intros v Hv. rewrite <- (us_walk _ _ _ _ _ HU v Hv). cbn [ram set_ram].
    rewrite (mmu_walk_tree _ _ _ _ HT' Hv), (mmu_walk_tree _ _ _ _ HT Hv).
    by apply (tree_walk_ext _ _ P).
  - apply (us_node _ _ _ _ _ HU).
  - apply (us_inj _ _ _ _ _ HU).
Qed.

Lemma write_page s F P T D v q fl bs :
  uspace s F P T D → D !! page v = Some (q, fl) → v mod PAGE_SIZE + length bs ≤ PAGE_SIZE →
  let s' := set_ram s (store_bytes (ram s) (table_at q + v mod PAGE_SIZE) bs) in
  extends P s F T D s' F T D ∧
  ∀ w, ubyte (ram s') D w = written (ubyte (ram s) D) v bs w.
Proof.
  intros HU Hq Hl s'. destruct (us_node _ _ _ _ _ HU _ _ _ Hq) as (Hn & _).
  pose proof (Z.mod_pos_bound v PAGE_SIZE ltac:(lia)) as Hv.
  assert (Hm : ∀ x, vframe x ≠ q / PAGE_SIZE → ram s' x = ram s x).
  { intros x Hx. apply store_bytes_frame; [done|lia|lia|done]. }
  split; [split; [exact (uspace_store _ _ _ _ _ _ _ _ _ HU Hq Hm)|done|]|].
  { intros x Hx. apply Hm. intros E. apply Hx, elem_of_union. right. rewrite E. apply elem_of_dframes. eauto. }
  intros w. unfold written. pose proof (Z.mod_pos_bound w PAGE_SIZE ltac:(lia)) as Hwm.
  pose proof (Z.div_mod v PAGE_SIZE ltac:(lia)). pose proof (Z.div_mod w PAGE_SIZE ltac:(lia)).
  destruct (decide (page w = page v)) as [Ep|Ep].
  - unfold ubyte. rewrite Ep, Hq. simpl. unfold store_bytes.
    assert (w mod PAGE_SIZE - v mod PAGE_SIZE = w - v) as Eo by lia.
    destruct (decide _).
    + rewrite (proj2 (Z.leb_le _ _)), (proj2 (Z.ltb_lt _ _)) by lia. simpl.
      do 2 f_equal. lia.
    + f_equal. destruct (Z.leb_spec (table_at q + v mod PAGE_SIZE) (table_at q + w mod PAGE_SIZE)),
        (Z.ltb_spec (table_at q + w mod PAGE_SIZE) (table_at q + v mod PAGE_SIZE + length bs)); try done. lia.
  - rewrite decide_False by lia. unfold ubyte.
    destruct (D !! page w) as [[p f]|] eqn:Ew; [|done]. simpl. f_equal. apply Hm.
    destruct (us_node _ _ _ _ _ HU _ _ _ Ew) as (Hp & _).
    rewrite (proj1 (ubyte_frame _ _ _ _ _ _ _ _ _ HU Ew Hwm)). intros E.
    apply node_frame_inj in E; [|done..]. subst p. apply Ep. by eapply (us_inj _ _ _ _ _ HU).
Qed.

Lemma written_app V v bs cs w :
  written (written V v bs) (v + length bs) cs w = written V v (bs ++ cs) w.
Proof.
  unfold written. rewrite length_app, Nat2Z.inj_add.
  destruct (decide (v + length bs ≤ w < _)).
  - rewrite decide_True by lia. rewrite app_nth2 by lia. do 2 f_equal. lia.
  - destruct (decide (v ≤ w < v + length bs)).
    + rewrite decide_True by lia. by rewrite app_nth1 by lia.
    + by rewrite decide_False by lia.
Qed.

Lemma write_at_loop_spec P virt bs F T D (fuel : nat) : ∀ s offset,
  uspace s F P T D → 0 ≤ offset ≤ length bs → length bs - offset ≤ fuel →
  0 ≤ virt → virt + length bs ≤ 2 ^ 47 →
  (∀ w, virt ≤ w < virt + length bs → is_Some (D !! page w)) →
  ∃ s', write_at_loop fuel s {| pml4_phys := P |} virt bs offset = Ret (Some (), s') ∧
    extends P s F T D s' F T D ∧
    ∀ w, ubyte (ram s') D w = written (ubyte (ram s) D) (virt + offset) (drop (Z.to_nat offset) bs) w.
Proof.
  change (2 ^ 47) with 140737488355328.
  induction fuel as [|fuel IH]; intros s off HU Ho Hf Hv Hlim HD; cbn [write_at_loop];
    destruct (Z.ltb_spec off (length bs)) as [Hlt|Hge]; cbn [negb]; try lia.
  1,3: exists s; split_and!; [done|by apply extends_refl|]; intros w; unfold written;
       rewrite length_drop, decide_False by lia; done.
  rewrite u64_add_ok by lia. exec_simpl. set (v := virt + off).
  destruct (HD v) as [[q fl] Hq]; [lia|].
  rewrite (translate_uspace _ _ _ _ _ _ HU), Hq by (unfold is_user; change (2 ^ 47) with 140737488355328; lia).
  exec_simpl. destruct (us_node _ _ _ _ _ HU _ _ _ Hq) as (Hn & _).
  pose proof (Z.mod_pos_bound v PAGE_SIZE ltac:(lia)).
  set (n := Z.min (PAGE_SIZE - v mod PAGE_SIZE) (length bs - off)).
  rewrite page_virt by done. exec_simpl. set (src := take _ (drop _ bs)).
  assert (Hsrc : (length src : Z) = n) by (unfold src; rewrite length_take, length_drop; lia).
  destruct (write_page s F P T D v q fl src HU Hq) as (HX1 & Hb1); [lia|].
  destruct (IH _ (off + n) (ex_space _ _ _ _ _ _ _ _ _ HX1)) as (s' & E & HX & Hb); [lia..|done|].
  exists s'. split_and!; [exact E|by eapply extends_trans|].
  intros w. rewrite Hb. unfold written at 1. rewrite Hb1. fold (written (written (ubyte (ram s) D) v src)
    (virt + (off + n)) (drop (Z.to_nat (off + n)) bs) w).
  replace (virt + (off + n)) with (v + length src) by (unfold v; lia). rewrite written_app. f_equal.
  unfold src. rewrite Z2Nat.inj_add, <- drop_drop by lia. apply take_drop.
Qed.

(** [write_at] on mapped pages succeeds and changes exactly the bytes of its
    range. *)
Lemma write_at_spec P virt bs F T D s :
  uspace s F P T D → 0 ≤ virt → virt + length bs ≤ 2 ^ 47 →
  (∀ w, virt ≤ w < virt + length bs → is_Some (D !! page w)) →
  ∃ s', write_at s {| pml4_phys := P |} virt bs = Ret (Some (), s') ∧
    extends P s F T D s' F T D ∧
    ∀ w, ubyte (ram s') D w = written (ubyte (ram s) D) virt bs w.
Proof.
  intros HU Hv Hlim HD. unfold write_at.
  destruct (write_at_loop_spec P virt bs F T D (length bs) s 0 HU) as (s' & E & HX & Hb);
    [lia..|done|]. exists s'. split_and!; [done..|]. intros w. rewrite Hb.
  by rewrite Z.add_0_r, drop_0.
Qed.

(** The free frames may change around a space that does not own them. *)
Lemma uspace_reframe s F P T D s' F' :
  uspace s F P T D → inv s' F' → agree_outside F' (ram s) (ram s') → F' ## tables T ∪ dframes D →
  uspace s' F' P T D ∧ ∀ v, ubyte (ram s') D v = ubyte (ram s) D v.
Proof.
  intros HU HI Hm Hd. pose proof (us_inv _ _ _ _ _ HU) as [_ HT _].
  assert (HdT : ∀ f, f ∈ tables T → f ∉ F') by (clear -Hd; set_solver).
  assert (HdD : ∀ i q fl, D !! i = Some (q, fl) → q / PAGE_SIZE ∉ F').
  { intros i q fl Hi Hf. apply (Hd _ Hf), elem_of_union. right. apply elem_of_dframes. eauto. }
  assert (Hext : ∀ x, vframe x ∈ tables T → ram s' x = ram s x) by (intros; apply Hm; auto).
  pose proof (tree_ext _ _ P T HT Hext) as HT'. split.
  - split; [split; [done|done|clear -HdT; set_solver]| | |apply (us_inj _ _ _ _ _ HU)].
    + intros v Hv. rewrite <- (us_walk _ _ _ _ _ HU v Hv).
      rewrite (mmu_walk_tree _ _ _ _ HT' Hv), (mmu_walk_tree _ _ _ _ HT Hv). by apply (tree_walk_ext _ _ P).
    + intros i q fl Hi. destruct (us_node _ _ _ _ _ HU _ _ _ Hi) as (? & Hn & ?). specialize (HdD _ _ _ Hi).
      split_and!; [done| |done]. clear -Hn HdD. set_solver.
  - intros v. unfold ubyte. destruct (D !! page v) as [[q fl]|] eqn:E; [|done]. simpl. f_equal. apply Hm.
    pose proof (Z.mod_pos_bound v PAGE_SIZE ltac:(lia)).
    rewrite (proj1 (ubyte_frame _ _ _ _ _ _ _ _ _ HU E ltac:(done))). eauto.
Qed.

(** Memory outside the free frames and the space's own frames may change. *)
Lemma uspace_other s F P T D m' :
  uspace s F P T D → (∀ x, vframe x ∈ F ∪ tables T ∪ dframes D → m' x = ram s x) →
  uspace (set_ram s m') F P T D ∧ ∀ v, ubyte m' D v = ubyte (ram s) D v.
Proof.
  intros HU Hm. pose proof (us_inv _ _ _ _ _ HU) as [HI HT HD].
  assert (Hext : ∀ x, vframe x ∈ tables T → m' x = ram s x).
  { intros x Hx. apply Hm. clear -Hx. set_solver. }
  pose proof (tree_ext _ m' P T HT Hext) as HT'. split.
  - split; [split; [|done|done]| |apply HU|apply HU].
    + apply fa_frame; [done|]. intros x Hx. apply Hm. clear -Hx. set_solver.
    + intros v Hv. rewrite <- (us_walk _ _ _ _ _ HU v Hv). cbn [ram set_ram].
      rewrite (mmu_walk_tree _ _ _ _ HT' Hv), (mmu_walk_tree _ _ _ _ HT Hv). by apply (tree_walk_ext _ _ P).
  - intros v. unfold ubyte. destruct (D !! page v) as [[q fl]|] eqn:E; [|done]. simpl. f_equal. apply Hm.
    pose proof (Z.mod_pos_bound v PAGE_SIZE ltac:(lia)).
    rewrite (proj1 (ubyte_frame _ _ _ _ _ _ _ _ _ HU E ltac:(done))).
    apply elem_of_union. right. apply elem_of_dframes. eauto.
Qed.
End Specs.
End UserMem.
