(* ===== verification/Effects.v ===== *)
(** Fallible operations on a state: [Result<A, E>] threaded with the state the
    operation may change, used for file systems and for device drivers. An
    [Err] keeps the changes made before it, as the code does. *)
From S2P Require Import Prelude.

(** [Result<A, E>] *)
Inductive outcome (E A : Type) : Type :=
  | Ok (a : A)
  | Err (e : E).
Arguments Ok {E A} a.
Arguments Err {E A} e.

Definition fallible (E St A : Type) : Type := St → exec (outcome E A * St).

(** The errors of file systems and drivers are numbers: an [Errno], or an index
    for a message string. *)
Definition Errno := Z.
Abbreviation result := (outcome Errno).
Abbreviation op := (fallible Errno).

#[global] Instance op_ret E St : MRet (fallible E St) := λ A a s, Ret (Ok a, s).
#[global] Instance op_bind E St : MBind (fallible E St) := λ A B f e s,
  match e s with
  | Ret (Ok a, s') => f a s'
  | Ret (Err n, s') => Ret (Err n, s')
  | Panic => Panic
  | NoFuel => NoFuel
  end.

(** [Err(e)] *)
Definition err {E St A} (e : E) : fallible E St A := λ s, Ret (Err e, s).

(** [match e { Ok(a) => k(a), Err(n) => h(n) }] *)
Definition try_catch {E St A B} (e : fallible E St A) (k : A → fallible E St B) (h : E → fallible E St B) : fallible E St B :=
  λ s, match e s with
       | Ret (Ok a, s') => k a s'
       | Ret (Err n, s') => h n s'
       | Panic => Panic
       | NoFuel => NoFuel
       end.

(** [e.ok()], the error dropped *)
Definition ignore {E St A} (e : fallible E St A) : fallible E St unit := try_catch e (λ _, mret ()) (λ _, mret ()).

(** A computation that can only panic. *)
Definition check {E St A} (x : exec A) : fallible E St A := λ s, a ← x; Ret (Ok a, s).

(** An operation on one component inside a larger state. *)
Definition lift {E X St A} (e : fallible E St A) : fallible E (X * St) A := λ '(x, s),
  match e s with
  | Ret (r, s') => Ret (r, (x, s'))
  | Panic => Panic
  | NoFuel => NoFuel
  end.
Definition get_fst {E X St} : fallible E (X * St) X := λ s, Ret (Ok s.1, s).
Definition put_fst {E X St} (x : X) : fallible E (X * St) unit := λ s, Ret (Ok (), (x, s.2)).

(** [for x in xs { cur = f(cur, x)?; }] *)
Fixpoint op_fold {E St A B} (f : B → A → fallible E St B) (xs : list A) (b : B) : fallible E St B :=
  match xs with
  | [] => mret b
  | x :: xs => b' ← f b x; op_fold f xs b'
  end.

(** ** Reasoning *)
Lemma op_bind_ok {E St A B} (e : fallible E St A) (f : A → fallible E St B) s a s' :
  e s = Ret (Ok a, s') → (e ≫= f) s = f a s'.
Proof. unfold mbind, op_bind. by intros ->. Qed.

Lemma op_bind_err {E St A B} (e : fallible E St A) (f : A → fallible E St B) s n s' :
  e s = Ret (Err n, s') → (e ≫= f) s = Ret (Err n, s').
Proof. unfold mbind, op_bind. by intros ->. Qed.

Lemma op_bind_inv {E St A B} (e : fallible E St A) (f : A → fallible E St B) s r s' :
  (e ≫= f) s = Ret (r, s') →
  (∃ a s1, e s = Ret (Ok a, s1) ∧ f a s1 = Ret (r, s')) ∨
  (∃ n, e s = Ret (Err n, s') ∧ r = Err n).
Proof.
  unfold mbind, op_bind. destruct (e s) as [[[a|n] s1]| |]; intros H; simplify_eq; eauto 6.
Qed.

Lemma op_bind_ext {E St A B} (e : fallible E St A) (f g : A → fallible E St B) s :
  (∀ a s', f a s' = g a s') → (e ≫= f) s = (e ≫= g) s.
Proof. unfold mbind, op_bind. destruct (e s) as [[[a|n] s1]| |]; auto. Qed.

Lemma op_bind_head {E St A B} (e e' : fallible E St A) (f : A → fallible E St B) s :
  (∀ s, e s = e' s) → (e ≫= f) s = (e' ≫= f) s.
Proof. unfold mbind, op_bind. by intros ->. Qed.

Lemma op_fold_app {E St A B} (f : B → A → fallible E St B) xs ys b s :
  op_fold f (xs ++ ys) b s = (b' ← op_fold f xs b; op_fold f ys b') s.
Proof.
  revert b s. induction xs as [|x xs IH]; intros b s; simpl; [done|].
  unfold mbind, op_bind in *. destruct (f b x s) as [[[b'|n] s1]| |]; auto.
Qed.

(** Unfolds the monad's operations on a goal or hypothesis. *)
Ltac op_unfold := unfold mbind, op_bind, mret, op_ret, err, check, lift, get_fst, put_fst, try_catch in *.
