(* ===== verification/Elf.v ===== *)
(** The ELF program loader ([src/src/proc/elf.rs]).

    Undefined behaviour of the source (a program header table that reaches past
    the file) is a [Panic] of the model. *)
From S2P Require Import Prelude Machine Effects Pmm Vmm Vma UserMem.

(** ** File structures *)
Abbreviation PT_LOAD := 1 (only parsing).
Abbreviation PT_INTERP := 3 (only parsing).
Abbreviation PT_PHDR := 6 (only parsing).
Abbreviation PT_GNU_STACK := 0x6474E551 (only parsing).
Abbreviation PF_X := 1 (only parsing).
Abbreviation PF_W := 2 (only parsing).
Abbreviation PF_R := 4 (only parsing).
Abbreviation EHDR_SIZE := 64 (only parsing).
Abbreviation PHDR_SIZE := 56 (only parsing).

Definition ELFMAG : list Z := [0x7F; 69; 76; 70].

Record Elf64Ehdr := {
  e_ident : list Z; e_type : Z; e_machine : Z; e_version : Z; e_entry : Z; e_phoff : Z; e_shoff : Z;
  e_flags : Z; e_ehsize : Z; e_phentsize : Z; e_phnum : Z; e_shentsize : Z; e_shnum : Z; e_shstrndx : Z
}.

Record Elf64Phdr := {
  p_type : Z; p_flags : Z; p_offset : Z; p_vaddr : Z; p_paddr : Z; p_filesz : Z; p_memsz : Z; p_align : Z
}.

Record LoadedElf := {
  loaded_entry : Z; loaded_brk : Z; phdr_vaddr : Z; phnum : Z; phent : Z; load_base : Z;
  interp_path : option (list Z)
}.

Inductive ElfError :=
  | TooSmall | BadMagic | NotElf64 | NotLittleEndian | BadVersion | NotExecutable | WrongArch
  | BadPhdr | OutOfBounds | MappingFailed | AllocFailed.

(** The built-in program [/bin/hello] ([src/src/fs/mod.rs]). *)
Definition HELLO_ELF : list Z :=
  let half n := take 2 (to_le_bytes n) in
  let word n := take 4 (to_le_bytes n) in
  let xword := to_le_bytes in
  (* the header: magic, class, byte order, version, padding *)
  [0x7F; 0x45; 0x4C; 0x46] ++ [2; 1; 1] ++ replicate 9 0 ++
  half 2 ++ half 0x3E ++ word 1 ++ xword 0x400078 ++ xword 64 ++ xword 0 ++ word 0 ++
  half 64 ++ half 56 ++ half 1 ++ half 64 ++ half 0 ++ half 0 ++
  (* the program header *)
  word 1 ++ word 5 ++ xword 0 ++ xword 0x400000 ++ xword 0x400000 ++ xword 169 ++ xword 169 ++ xword 0x1000 ++
  (* mov rax, 1; mov rdi, 1; lea rsi, [rip + 21]; mov rdx, 7; syscall *)
  [0x48; 0xC7; 0xC0] ++ word 1 ++ [0x48; 0xC7; 0xC7] ++ word 1 ++ [0x48; 0x8D; 0x35] ++ word 21 ++
  [0x48; 0xC7; 0xC2] ++ word 7 ++ [0x0F; 0x05] ++
  (* mov rax, 60; xor rdi, rdi; syscall *)
  [0x48; 0xC7; 0xC0] ++ word 60 ++ [0x48; 0x31; 0xFF] ++ [0x0F; 0x05] ++
  (* Hello!, newline *)
  [72; 101; 108; 108; 111; 33; 10].

Implicit Types (data : list Z) (ph : Elf64Phdr) (phs : list Elf64Phdr).

(** [&*(data.as_ptr() as *const Elf64Ehdr)] *)
Definition read_ehdr data : Elf64Ehdr := {|
  e_ident := take 16 data; e_type := le16 data 16; e_machine := le16 data 18; e_version := le32 data 20;
  e_entry := le64 data 24; e_phoff := le64 data 32; e_shoff := le64 data 40; e_flags := le32 data 48;
  e_ehsize := le16 data 52; e_phentsize := le16 data 54; e_phnum := le16 data 56;
  e_shentsize := le16 data 58; e_shnum := le16 data 60; e_shstrndx := le16 data 62 |}.

Definition read_phdr data (o : nat) : Elf64Phdr := {|
  p_type := le32 data o; p_flags := le32 data (o + 4); p_offset := le64 data (o + 8);
  p_vaddr := le64 data (o + 16); p_paddr := le64 data (o + 24); p_filesz := le64 data (o + 32);
  p_memsz := le64 data (o + 40); p_align := le64 data (o + 48) |}.

(** [slice::from_raw_parts(data.as_ptr().add(phoff), phnum)]: consecutive
    [Elf64Phdr]s, whatever [e_phentsize] says. *)
Definition phdr_table data (phoff phnum : Z) : list Elf64Phdr :=
  (λ i : nat, read_phdr data (Z.to_nat phoff + 56 * i)) <$> seq 0 (Z.to_nat phnum).

Definition read_phdrs data (phoff phnum : Z) : exec (list Elf64Phdr) :=
  if phoff + phnum * PHDR_SIZE <=? length data then Ret (phdr_table data phoff phnum) else Panic.

Definition bytes_eq (a b : list Z) : bool := bool_decide (a = b).

Definition is_valid_elf data : bool :=
  if length data <? EHDR_SIZE then false else
  let ehdr := read_ehdr data in
  bytes_eq (take 4 (e_ident ehdr)) ELFMAG && (byte_at (e_ident ehdr) 4 =? 2) &&
  (byte_at (e_ident ehdr) 5 =? 1) && (e_machine ehdr =? 62).

(** [read_cstr] *)
Definition read_cstr data (offset : Z) : exec (list Z) :=
  if offset <=? length data then
    let slice := drop (Z.to_nat offset) data in
    Ret (match list_find (λ b, b = 0) slice with Some (end_, _) => take end_ slice | None => slice end)
  else Panic.

(** ** The scan over the program headers *)
Record scan := {
  load_min : Z; load_max : Z; sc_phdr_vaddr : Z; sc_interp : option (list Z); stack_exec : bool
}.

Definition scan_phdr data (slide : Z) (sc : scan) ph : exec (outcome ElfError scan) :=
  if p_type ph =? PT_LOAD then
    let lo := if p_vaddr ph <? load_min sc then p_vaddr ph else load_min sc in
    end_ ← u64_add (p_vaddr ph) (p_memsz ph);
    let hi := if load_max sc <? end_ then end_ else load_max sc in
    Ret (Ok {| load_min := lo; load_max := hi; sc_phdr_vaddr := sc_phdr_vaddr sc;
               sc_interp := sc_interp sc; stack_exec := stack_exec sc |})
  else if p_type ph =? PT_PHDR then
    v ← u64_add (p_vaddr ph) slide;
    Ret (Ok {| load_min := load_min sc; load_max := load_max sc; sc_phdr_vaddr := v;
               sc_interp := sc_interp sc; stack_exec := stack_exec sc |})
  else if p_type ph =? PT_INTERP then
    let off := p_offset ph in
    let sz := p_filesz ph in
    e ← u64_add off sz;
    if length data <? e then Ret (Err OutOfBounds)
    else
      let path := take (Z.to_nat sz) (drop (Z.to_nat off) data) in
      Ret (Ok {| load_min := load_min sc; load_max := load_max sc; sc_phdr_vaddr := sc_phdr_vaddr sc;
                 sc_interp := Some path; stack_exec := stack_exec sc |})
  else if p_type ph =? PT_GNU_STACK then
    Ret (Ok {| load_min := load_min sc; load_max := load_max sc; sc_phdr_vaddr := sc_phdr_vaddr sc;
               sc_interp := sc_interp sc; stack_exec := has (p_flags ph) PF_X |})
  else Ret (Ok sc).

Fixpoint scan_phdrs data (slide : Z) (sc : scan) phs : exec (outcome ElfError scan) :=
  match phs with
  | [] => Ret (Ok sc)
  | ph :: phs =>
      r ← scan_phdr data slide sc ph;
      match r with
      | Err e => Ret (Err e)
      | Ok sc => scan_phdrs data slide sc phs
      end
  end.

Definition scan_start : scan :=
  {| load_min := U64_MAX; load_max := 0; sc_phdr_vaddr := 0; sc_interp := None; stack_exec := false |}.

(** ** Loading segments *)
Section Load.
Context {hh : Hhdm}.
Implicit Types (s : mm) (sp : AddressSpace).

(** The state of the loader: memory and the areas of the new process. *)
Abbreviation loader A := (fallible ElfError (mm * VmSpace) A).

(** [alloc_zeroed_frame().ok_or(ElfError::AllocFailed)?] *)
Definition load_frame : loader Z := λ '(s, vm),
  '(r, s) ← alloc_zeroed_frame s;
  Ret (match r with Some p => Ok p | None => Err AllocFailed end, (s, vm)).

Definition load_map sp (virt phys flags : Z) : loader bool := λ '(s, vm),
  '(ok, s) ← map s sp virt phys flags; Ret (Ok ok, (s, vm)).

Definition load_vma (st e flags : Z) : loader unit := λ '(s, vm), Ret (Ok (), (s, add_vma vm st e flags)).

(** [addr_space.translate(v).ok_or(ElfError::MappingFailed)?] *)
Definition load_translate sp (v : Z) : loader Z := λ '(s, vm),
  r ← translate (ram s) sp v;
  Ret (match r with Some p => Ok p | None => Err MappingFailed end, (s, vm)).

Definition load_store (dst : Z) (bs : list Z) : loader unit := λ '(s, vm),
  Ret (Ok (), (set_ram s (store_bytes (ram s) dst bs), vm)).

Definition seg_pte_flags ph : Z :=
  let f := Z.lor PTE_PRESENT PTE_USER in
  let f := if has (p_flags ph) PF_W then Z.lor f PTE_WRITABLE else f in
  if negb (has (p_flags ph) PF_X) then Z.lor f PTE_NO_EXEC else f.

Definition seg_vma_flags ph : Z :=
  let f := 0 in
  let f := if has (p_flags ph) PF_R then Z.lor f VMA_READ else f in
  let f := if has (p_flags ph) PF_W then Z.lor f VMA_WRITE else f in
  if has (p_flags ph) PF_X then Z.lor f VMA_EXEC else f.

(** [while page_offset < page_end - page_vaddr] *)
Fixpoint commit_loop (fuel : nat) sp (page_vaddr size flags page_offset : Z) : loader unit :=
  if negb (page_offset <? size) then mret () else
  match fuel with
  | O => λ _, NoFuel
  | S fuel =>
      frame_phys ← load_frame;
      vaddr ← check (u64_add page_vaddr page_offset);
      ok ← load_map sp vaddr frame_phys flags;
      if negb ok then err MappingFailed else
      page_offset ← check (u64_add page_offset PAGE_SIZE);
      commit_loop fuel sp page_vaddr size flags page_offset
  end.

(** [while bytes_copied < file_size] *)
Fixpoint copy_loop (fuel : nat) sp (seg_vaddr : Z) (src : list Z) (bytes_copied : Z) : loader unit :=
  if negb (bytes_copied <? length src) then mret () else
  match fuel with
  | O => λ _, NoFuel
  | S fuel =>
      vaddr ← check (u64_add seg_vaddr bytes_copied);
      phys ← load_translate sp vaddr;
      let page_remaining := PAGE_SIZE - vaddr mod PAGE_SIZE in
      let to_copy := Z.min (length src - bytes_copied) page_remaining in
      dst_ptr ← check (phys_to_virt phys);
      _ ← load_store dst_ptr (take (Z.to_nat to_copy) (drop (Z.to_nat bytes_copied) src));
      copy_loop fuel sp seg_vaddr src (bytes_copied + to_copy)
  end.

Definition load_segment sp data (slide : Z) ph : loader unit :=
  if negb (p_type ph =? PT_LOAD) then mret () else
  if p_memsz ph =? 0 then mret () else
  seg_vaddr ← check (u64_add (p_vaddr ph) slide);
  page_vaddr ← check (align_down seg_vaddr PAGE_SIZE);
  seg_end ← check (u64_add seg_vaddr (p_memsz ph));
  page_end ← check (align_up seg_end PAGE_SIZE);
  size ← check (u64_sub page_end page_vaddr);
  let page_count := size / PAGE_SIZE in
  _ ← commit_loop (Z.to_nat page_count) sp page_vaddr size (seg_pte_flags ph) 0;
  _ ← load_vma page_vaddr page_end (seg_vma_flags ph);
  let file_offset := p_offset ph in
  let file_size := p_filesz ph in
  if 0 <? file_size then
    file_end ← check (u64_add file_offset file_size);
    if length data <? file_end then err OutOfBounds else
    _ ← check (u64_sub seg_vaddr page_vaddr);
    let src := take (Z.to_nat file_size) (drop (Z.to_nat file_offset) data) in
    copy_loop (length src) sp seg_vaddr src 0
  else mret ().

Fixpoint load_segments sp data (slide : Z) phs : loader unit :=
  match phs with
  | [] => mret ()
  | ph :: phs => _ ← load_segment sp data slide ph; load_segments sp data slide phs
  end.

(** The address of the program headers when no [PT_PHDR] gives it. *)
Fixpoint find_phdr_vaddr (slide phoff : Z) phs : exec Z :=
  match phs with
  | [] => Ret 0
  | ph :: phs =>
      if (p_type ph =? PT_LOAD) && (p_offset ph =? 0) then
        a ← u64_add (p_vaddr ph) slide; u64_add a phoff
      else find_phdr_vaddr slide phoff phs
  end.

Definition set_brk (b : Z) : loader unit := λ '(s, vm), Ret (Ok (), (s, {| areas := areas vm; brk := b |})).

(** The checks of the file header. *)
Definition check_ehdr data : outcome ElfError Elf64Ehdr :=
  if length data <? EHDR_SIZE then Err TooSmall else
  let ehdr := read_ehdr data in
  if negb (bytes_eq (take 4 (e_ident ehdr)) ELFMAG) then Err BadMagic
  else if negb (byte_at (e_ident ehdr) 4 =? 2) then Err NotElf64
  else if negb (byte_at (e_ident ehdr) 5 =? 1) then Err NotLittleEndian
  else if negb (byte_at (e_ident ehdr) 6 =? 1) then Err BadVersion
  else if negb (e_type ehdr =? 2) && negb (e_type ehdr =? 3) then Err NotExecutable
  else if negb (e_machine ehdr =? 62) then Err WrongArch
  else Ok ehdr.

Definition load_elf data sp (pie_base : Z) : loader LoadedElf :=
  match check_ehdr data with
  | Err e => err e
  | Ok ehdr =>
      let is_pie := e_type ehdr =? 3 in
      let slide := if is_pie then pie_base else 0 in
      let phoff := e_phoff ehdr in
      let n := e_phnum ehdr in
      table ← check (u64_mul n (e_phentsize ehdr));
      table_end ← check (u64_add phoff table);
      if length data <? table_end then err OutOfBounds else
      phdrs ← check (read_phdrs data phoff n);
      r ← check (scan_phdrs data slide scan_start phdrs);
      match r with
      | Err e => err e
      | Ok sc =>
          let base := if is_pie then pie_base else load_min sc in
          _ ← load_segments sp data slide phdrs;
          top ← check (u64_add (load_max sc) slide);
          b ← check (align_up top PAGE_SIZE);
          _ ← set_brk b;
          pv ← check (if (sc_phdr_vaddr sc =? 0) && negb (phoff =? 0)
                      then find_phdr_vaddr slide phoff phdrs else Ret (sc_phdr_vaddr sc));
          ent ← check (u64_add (e_entry ehdr) slide);
          mret {| loaded_entry := ent; loaded_brk := b; phdr_vaddr := pv; phnum := n;
                  phent := e_phentsize ehdr; load_base := base; interp_path := sc_interp sc |}
      end
  end.

(** ** What loading promises *)

(** The pages of a segment: from [seg_lo] up to [seg_hi]. *)
Definition seg_start (slide : Z) ph : Z := p_vaddr ph + slide.
Definition seg_lo (slide : Z) ph : Z := page (seg_start slide ph).
Definition seg_hi (slide : Z) ph : Z := (seg_start slide ph + p_memsz ph + 4095) / PAGE_SIZE.
Definition in_seg (slide : Z) ph (i : Z) : Prop := seg_lo slide ph ≤ i < seg_hi slide ph.

(** The bytes of the pages of a segment: those of the file, and zeros around. *)
Definition seg_byte data (slide : Z) ph (v : Z) : Z :=
  if decide (seg_start slide ph ≤ v < seg_start slide ph + p_filesz ph)
  then nth (Z.to_nat (p_offset ph + (v - seg_start slide ph))) data 0 else 0.

(** Segments the loader creates pages for. *)
Definition loads ph : Prop := p_type ph = PT_LOAD ∧ p_memsz ph ≠ 0.
#[global] Instance loads_dec ph : Decision (loads ph) := _.

Record seg_ok data (slide : Z) ph : Prop := {
  so_vaddr : 0 ≤ p_vaddr ph; so_memsz : 0 < p_memsz ph; so_offset : 0 ≤ p_offset ph;
  so_filesz : 0 ≤ p_filesz ph ≤ p_memsz ph;
  so_file : p_offset ph + p_filesz ph ≤ length data < U64;
  so_user : seg_start slide ph + p_memsz ph ≤ 2 ^ 47 - PAGE_SIZE
}.

Section Specs.
Context (inv : mm → gset Z → Prop) {FA : FrameAllocator inv}.
Implicit Types (F : gset Z) (T : gmap (list Z) Z) (D : gmap Z (Z * Z)).

(** [r] is [Ok], or memory ran out with fewer than [n] frames free in [F]. *)
Definition ok_or_oom {A} (r : outcome ElfError A) (n : Z) F (Q : A → Prop) : Prop :=
  match r with
  | Ok a => Q a
  | Err e => (e = AllocFailed ∨ e = MappingFailed) ∧ size F < n
  end.

(** Pages [lo, hi) are now backed with flags [fl] and hold the bytes [B]; the
    others are as before. *)
Record pages_set D m D' m' (lo hi fl : Z) (B : Z → Z) : Prop := {
  ps_new : ∀ i, lo ≤ i < hi → ∃ q, D' !! i = Some (q, fl);
  ps_old : ∀ i, ¬ (lo ≤ i < hi) → D' !! i = D !! i;
  ps_byte : ∀ w, ubyte m' D' w = if decide (lo ≤ page w < hi) then Some (B w) else ubyte m D w
}.

Lemma pages_set_step D m q fl b hi m1 D' m' : b < hi →
  (∀ w, ubyte m1 (<[b := (q, fl)]> D) w =
    if decide (true = true ∧ page w = b) then Some 0 else ubyte m D w) →
  pages_set (<[b := (q, fl)]> D) m1 D' m' (b + 1) hi fl (λ _, 0) →
  pages_set D m D' m' b hi fl (λ _, 0).
Proof.
  intros Hlt Hby [Hn Ho Hb]. split.
  - intros i Hi. destruct (decide (i = b)) as [->|]; [|apply Hn; lia].
    rewrite Ho by lia. rewrite lookup_insert_eq. eauto.
  - intros i Hi. rewrite Ho by lia. apply lookup_insert_ne. lia.
  - intros w. rewrite Hb, Hby. destruct (decide (b + 1 ≤ page w < hi)).
    + by rewrite decide_True by lia.
    + destruct (decide (true = true ∧ page w = b)) as [[_ E]|Hne].
      * by rewrite decide_True by lia.
      * rewrite decide_False; [done|]. intros ?. apply Hne. split; [done|lia].
Qed.

Lemma commit_loop_spec P b (cnt : Z) fl (fuel : nat) vm : flags_ok fl → 0 ≤ b →
  PAGE_SIZE * (b + cnt) ≤ 2 ^ 47 → ∀ k s F T D,
  uspace inv s F P T D → 0 ≤ k ≤ cnt → cnt - k ≤ fuel →
  ∃ r s' F' T' D',
    commit_loop fuel {| pml4_phys := P |} (PAGE_SIZE * b) (PAGE_SIZE * cnt) fl (PAGE_SIZE * k) (s, vm) =
      Ret (r, (s', vm)) ∧ extends inv P s F T D s' F' T' D' ∧
    ok_or_oom r (4 * (cnt - k)) F (λ _, size F ≤ size F' + 4 * (cnt - k) ∧
      pages_set D (ram s) D' (ram s') (b + k) (b + cnt) fl (λ _, 0)).
Proof.
  change (2 ^ 47) with 140737488355328. intros Hfl Hb Hlim.
  induction fuel as [|fuel IH]; intros k s F T D HU Hk Hf; cbn [commit_loop];
    destruct (Z.ltb_spec (PAGE_SIZE * k) (PAGE_SIZE * cnt)) as [Hlt|Hge]; cbn [negb]; try lia.
  1,3: exists (Ok ()), s, F, T, D; split_and!; [done|by apply extends_refl|];
    split; [lia|]; split; [intros; lia|done|]; intros w; by rewrite decide_False by lia.
  op_unfold. unfold load_frame at 1.
  destruct (commit_alloc inv s F P T D HU) as (r & s1 & -> & H). exec_simpl. destruct r as [q|]; cycle 1.
  { destruct H as [-> ->]. exists (Err AllocFailed), s, ∅, T, D. split_and!; [done|by apply extends_refl|].
    split; [by left|]. rewrite size_empty. lia. }
  destruct H as (Hq & HqF & HU1 & Hz & Hm1). rewrite u64_add_ok by lia. exec_simpl.
  replace (PAGE_SIZE * b + PAGE_SIZE * k) with (PAGE_SIZE * (b + k)) by lia.
  destruct (commit_map inv s F P T D (PAGE_SIZE * (b + k)) q fl s1 HU) as (ok & s2 & F2 & T2 & E & H4 & Hsz & HX & Hby);
    try done; [unfold is_user; change (2 ^ 47) with 140737488355328; lia|].
  unfold load_map at 1. rewrite E. exec_simpl. clear E. destruct ok; cbn [negb]; cycle 1.
  { exists (Err MappingFailed), s2, F2, T2, D. split_and!; [done|done|]. split; [by right|].
    destruct (decide (4 ≤ size F)%nat); [by discriminate H4|lia]. }
  cbv zeta in HX, Hby.
  replace (page (PAGE_SIZE * (b + k))) with (b + k) in * by (rewrite Z.mul_comm, Z.div_mul; lia).
  rewrite u64_add_ok by lia. exec_simpl. replace (PAGE_SIZE * k + PAGE_SIZE) with (PAGE_SIZE * (k + 1)) by lia.
  destruct (IH (k + 1) s2 F2 T2 _ (ex_space _ _ _ _ _ _ _ _ _ _ HX)) as (r & s' & F' & T' & D' & E & HX' & Hr);
    [lia..|]. exists r, s', F', T', D'. split_and!; [exact E|by eapply extends_trans|].
  destruct r as [u|e]; cbn [ok_or_oom] in *; [|destruct Hr; split; [done|lia]].
  destruct Hr as [Hs' Hps]. split; [lia|]. rewrite Z.add_assoc in Hps. eapply pages_set_step; [lia|done|done].
Qed.

(** The copy loop is the byte copy of [UserMem]. *)
Lemma copy_loop_write (fuel : nat) : ∀ sp seg src off s vm,
  copy_loop fuel sp seg src off (s, vm) =
    '(r, s') ← write_at_loop fuel s sp seg src off;
    Ret (match r with Some _ => Ok () | None => Err MappingFailed end, (s', vm)).
Proof.
  induction fuel as [|fuel IH]; intros sp seg src off s vm; cbn [copy_loop write_at_loop];
    destruct (off <? length src); try done. cbn [negb]. op_unfold.
  destruct (u64_add seg off) as [v| |]; try done. exec_simpl. unfold load_translate.
  destruct (translate (ram s) sp v) as [[phys|]| |]; try done. exec_simpl.
  destruct (phys_to_virt phys) as [d| |]; try done. exec_simpl. unfold load_store.
  rewrite (Z.min_comm (PAGE_SIZE - _)). apply IH.
Qed.

Lemma page_iff v i j : i ≤ page v < j ↔ PAGE_SIZE * i ≤ v < PAGE_SIZE * j.
Proof. pose proof (Z.div_mod v PAGE_SIZE). pose proof (Z.mod_pos_bound v PAGE_SIZE). lia. Qed.

Lemma seg_bounds data slide ph : seg_ok data slide ph → 0 ≤ slide →
  let a := seg_start slide ph in
  0 ≤ seg_lo slide ph < seg_hi slide ph ∧ PAGE_SIZE * seg_lo slide ph ≤ a ∧
  a + p_memsz ph ≤ PAGE_SIZE * seg_hi slide ph ∧ PAGE_SIZE * seg_hi slide ph ≤ 2 ^ 47.
Proof.
  intros [Hv Hm Ho Hf Hff Hu] Hs a. unfold seg_lo, seg_hi. fold a.
  assert (0 ≤ a) by (unfold a, seg_start; lia).
  fold a in Hu. change (2 ^ 47) with 140737488355328 in *. dlia.
Qed.

Lemma load_segment_unfold sp data slide ph s vm : seg_ok data slide ph → 0 ≤ slide → p_type ph = PT_LOAD →
  load_segment sp data slide ph (s, vm) =
    (_ ← commit_loop (Z.to_nat (seg_hi slide ph - seg_lo slide ph)) sp (PAGE_SIZE * seg_lo slide ph)
           (PAGE_SIZE * (seg_hi slide ph - seg_lo slide ph)) (seg_pte_flags ph) 0;
     _ ← load_vma (PAGE_SIZE * seg_lo slide ph) (PAGE_SIZE * seg_hi slide ph) (seg_vma_flags ph);
     let src := take (Z.to_nat (p_filesz ph)) (drop (Z.to_nat (p_offset ph)) data) in
     copy_loop (length src) sp (seg_start slide ph) src 0) (s, vm).
Proof.
  intros Hok Hs Hty. pose proof (seg_bounds data slide ph Hok Hs) as (H1 & H2 & H3 & H4).
  destruct Hok as [Hv Hm Ho Hf Hff Hu]. change (2 ^ 47) with 140737488355328 in *.
  unfold load_segment. rewrite Hty, Z.eqb_refl, (proj2 (Z.eqb_neq _ _)) by lia. cbn [negb].
  op_unfold. fold (seg_start slide ph) in *. unfold seg_start in *.
  rewrite u64_add_ok by lia. exec_simpl. rewrite align_down_page by (unfold is_u64; lia). exec_simpl.
  fold (seg_start slide ph) in *. fold (seg_lo slide ph) in *.
  rewrite u64_add_ok by lia. exec_simpl. rewrite align_up_page by (unfold seg_start in *; lia). exec_simpl.
  fold (seg_hi slide ph). rewrite u64_sub_ok by lia. exec_simpl.
  replace (PAGE_SIZE * seg_hi slide ph - PAGE_SIZE * seg_lo slide ph)
    with (PAGE_SIZE * (seg_hi slide ph - seg_lo slide ph)) by lia.
  rewrite (Z.mul_comm PAGE_SIZE (seg_hi slide ph - seg_lo slide ph)) at 1. rewrite Z.div_mul by lia.
  destruct (commit_loop _ _ _ _ _ _ _) as [[[u|e] [s1 vm1]]| |]; try done.
  destruct (Z.ltb_spec 0 (p_filesz ph)) as [Hpos|Hz].
  - rewrite u64_add_ok by lia. exec_simpl. rewrite (proj2 (Z.ltb_ge _ _)) by lia.
    rewrite u64_sub_ok by lia. done.
  - replace (p_filesz ph) with 0 by lia. done.
Qed.

Lemma seg_flags_ok ph : flags_ok (seg_pte_flags ph).
Proof.
  unfold seg_pte_flags. destruct (has (p_flags ph) PF_W), (has (p_flags ph) PF_X);
    (split; [split; vm_compute; congruence|reflexivity]).
Qed.

(** Loading one segment maps exactly its pages, with its permissions and bytes,
    and adds its area; it can only run out of memory. *)
Lemma load_segment_spec P data slide ph s F T D vm :
  uspace inv s F P T D → seg_ok data slide ph → 0 ≤ slide → p_type ph = PT_LOAD →
  let n := 4 * (seg_hi slide ph - seg_lo slide ph) in
  ∃ r s' F' T' D' vm',
    load_segment {| pml4_phys := P |} data slide ph (s, vm) = Ret (r, (s', vm')) ∧
    extends inv P s F T D s' F' T' D' ∧
    ok_or_oom r n F (λ _, size F ≤ size F' + n ∧
      vm' = add_vma vm (PAGE_SIZE * seg_lo slide ph) (PAGE_SIZE * seg_hi slide ph) (seg_vma_flags ph) ∧
      pages_set D (ram s) D' (ram s') (seg_lo slide ph) (seg_hi slide ph) (seg_pte_flags ph)
        (seg_byte data slide ph)).
Proof.
  intros HU Hok Hs Hty n. pose proof (seg_bounds data slide ph Hok Hs) as (H1 & H2 & H3 & H4).
  rewrite load_segment_unfold by done. set (lo := seg_lo slide ph) in *. set (hi := seg_hi slide ph) in *.
  destruct (commit_loop_spec P lo (hi - lo) (seg_pte_flags ph) (Z.to_nat (hi - lo)) vm (seg_flags_ok ph)
    ltac:(lia) ltac:(lia) 0 s F T D HU ltac:(lia) ltac:(lia)) as (r & s1 & F1 & T1 & D1 & E & HX1 & Hr).
  rewrite Z.mul_0_r in E. rewrite Z.sub_0_r in Hr. fold n in Hr. destruct r as [[]|e]; cycle 1.
  { rewrite (op_bind_err _ _ _ _ _ E). exists (Err e), s1, F1, T1, D1, vm. done. }
  rewrite (op_bind_ok _ _ _ _ _ E). clear E. destruct Hr as [Hsz [Hn Hold Hb]].
  replace (lo + 0) with lo in * by lia. replace (lo + (hi - lo)) with hi in * by lia.
  erewrite op_bind_ok by reflexivity. cbv zeta. set (src := take _ (drop _ data)).
  destruct Hok as [Hv Hm Ho Hf Hff Hu].
  assert (Hsrc : (length src : Z) = p_filesz ph) by (unfold src; rewrite length_take, length_drop; lia).
  rewrite copy_loop_write. destruct (write_at_spec inv P (seg_start slide ph) src F1 T1 D1 s1) as (s2 & E & HX2 & Hb2).
  { apply HX1. }
  { unfold seg_start. lia. }
  { lia. }
  { intros w Hw. destruct (Hn (page w)) as [q Hq]; [|eauto]. apply page_iff. lia. }
  unfold write_at in E. rewrite E. exec_simpl. clear E.
  eexists (Ok ()), s2, F1, T1, D1, _. split_and!; [done|by eapply extends_trans|].
  split_and!; [lia|done|]. split; [done|done|]. intros w. rewrite Hb2. unfold written, seg_byte. rewrite Hsrc.
  destruct (decide (seg_start slide ph ≤ w < _)) as [Hin|Hin].
  - rewrite decide_True by (apply page_iff; lia). f_equal. unfold src.
    rewrite nth_firstn, (proj2 (Nat.ltb_lt _ _)), nth_skipn by lia. f_equal. lia.
  - rewrite Hb. by destruct (decide _).
Qed.

(** No two segments share a page. *)
Fixpoint segs_disjoint (slide : Z) phs : Prop :=
  match phs with
  | [] => True
  | ph :: phs =>
      (loads ph → ∀ ph', ph' ∈ phs → loads ph' →
        seg_hi slide ph ≤ seg_lo slide ph' ∨ seg_hi slide ph' ≤ seg_lo slide ph) ∧
      segs_disjoint slide phs
  end.

(** A bound on the frames the segments use: each page and up to three tables. *)
Fixpoint segs_frames (slide : Z) phs : Z :=
  match phs with
  | [] => 0
  | ph :: phs =>
      (if decide (loads ph) then 4 * (seg_hi slide ph - seg_lo slide ph) else 0) + segs_frames slide phs
  end.

Definition segs_areas (slide : Z) phs (vm : VmSpace) : VmSpace :=
  foldl (λ vm ph, if decide (loads ph)
    then add_vma vm (PAGE_SIZE * seg_lo slide ph) (PAGE_SIZE * seg_hi slide ph) (seg_vma_flags ph)
    else vm) vm phs.

(** The process sees the segments [phs] of the file over the pages it had. *)
Record image data (slide : Z) phs D m D' m' : Prop := {
  im_perm : ∀ ph i, ph ∈ phs → loads ph → in_seg slide ph i → ∃ q, D' !! i = Some (q, seg_pte_flags ph);
  im_byte : ∀ ph w, ph ∈ phs → loads ph → in_seg slide ph (page w) →
    ubyte m' D' w = Some (seg_byte data slide ph w);
  im_old : ∀ i, (∀ ph, ph ∈ phs → loads ph → ¬ in_seg slide ph i) → D' !! i = D !! i;
  im_old_byte : ∀ w, (∀ ph, ph ∈ phs → loads ph → ¬ in_seg slide ph (page w)) → ubyte m' D' w = ubyte m D w
}.

Lemma image_skip data slide ph phs D m D' m' :
  ¬ loads ph → image data slide phs D m D' m' → image data slide (ph :: phs) D m D' m'.
Proof.
  intros Hn [H1 H2 H3 H4]. split.
  - intros ph' i [->|Hin]%elem_of_cons Hl; [done|eauto].
  - intros ph' w [->|Hin]%elem_of_cons Hl; [done|eauto].
  - intros i Hi. apply H3. intros ph' Hin. apply Hi. by apply list_elem_of_further.
  - intros w Hw. apply H4. intros ph' Hin. apply Hw. by apply list_elem_of_further.
Qed.

Lemma image_cons data slide ph phs D m D1 m1 D' m' :
  loads ph → segs_disjoint slide (ph :: phs) →
  pages_set D m D1 m1 (seg_lo slide ph) (seg_hi slide ph) (seg_pte_flags ph) (seg_byte data slide ph) →
  image data slide phs D1 m1 D' m' → image data slide (ph :: phs) D m D' m'.
Proof.
  intros Hl [Hd _] [Hn Ho Hb] [H1 H2 H3 H4].
  assert (Hap : ∀ i ph', in_seg slide ph i → ph' ∈ phs → loads ph' → ¬ in_seg slide ph' i).
  { unfold in_seg. intros i ph' Hi Hin Hl'. destruct (Hd Hl ph' Hin Hl'); lia. }
  split.
  - intros ph' i [->|Hin]%elem_of_cons Hl' Hi; [|eauto]. rewrite H3 by (intros; by apply Hap). by apply Hn.
  - intros ph' w [->|Hin]%elem_of_cons Hl' Hi; [|eauto]. rewrite H4 by (intros; by apply Hap).
    rewrite Hb. by rewrite decide_True.
  - intros i Hi. rewrite H3 by (intros ph' Hin; apply Hi; by apply list_elem_of_further).
    apply Ho. exact (Hi ph (list_elem_of_here _ _) Hl).
  - intros w Hw. rewrite H4 by (intros ph' Hin; apply Hw; by apply list_elem_of_further).
    rewrite Hb, decide_False; [done|]. exact (Hw ph (list_elem_of_here _ _) Hl).
Qed.

Lemma segs_frames_pos data slide phs : 0 ≤ slide →
  (∀ ph, ph ∈ phs → loads ph → seg_ok data slide ph) → 0 ≤ segs_frames slide phs.
Proof.
  intros Hs. induction phs as [|a phs IH]; intros Hok; cbn [segs_frames]; [lia|].
  assert (0 ≤ segs_frames slide phs) by (apply IH; intros; apply Hok; [by apply list_elem_of_further|done]).
  destruct (decide (loads a)) as [Hl|]; [|lia].
  pose proof (seg_bounds data slide a (Hok _ (list_elem_of_here _ _) Hl) Hs) as (? & _). lia.
Qed.

Lemma load_segments_spec P data slide phs : 0 ≤ slide → segs_disjoint slide phs →
  (∀ ph, ph ∈ phs → loads ph → seg_ok data slide ph) → ∀ s F T D vm,
  uspace inv s F P T D →
  ∃ r s' F' T' D' vm',
    load_segments {| pml4_phys := P |} data slide phs (s, vm) = Ret (r, (s', vm')) ∧
    extends inv P s F T D s' F' T' D' ∧
    ok_or_oom r (segs_frames slide phs) F (λ _, size F ≤ size F' + segs_frames slide phs ∧
      vm' = segs_areas slide phs vm ∧ image data slide phs D (ram s) D' (ram s')).
Proof.
  intros Hs. induction phs as [|ph phs IH]; intros Hd Hok s F T D vm HU; cbn [load_segments].
  { exists (Ok ()), s, F, T, D, vm. split_and!; [done|by apply extends_refl|].
    split; [cbn [segs_frames]; lia|]. split; [done|]. split; try done; by intros ? ? ?%elem_of_nil. }
  assert (Hok' : ∀ ph, ph ∈ phs → loads ph → seg_ok data slide ph).
  { intros. apply Hok; [by apply list_elem_of_further|done]. }
  pose proof (segs_frames_pos data slide phs Hs Hok') as Hpos.
  cbn [segs_frames segs_areas foldl]. destruct (decide (loads ph)) as [Hl|Hl].
  - destruct (load_segment_spec P data slide ph s F T D vm HU (Hok _ (list_elem_of_here _ _) Hl) Hs (proj1 Hl))
      as (r & s1 & F1 & T1 & D1 & vm1 & E & HX & Hr). cbv zeta in Hr. destruct r as [[]|e]; cycle 1.
    { rewrite (op_bind_err _ _ _ _ _ E). exists (Err e), s1, F1, T1, D1, vm1. split_and!; [done..|].
      destruct Hr. split; [done|lia]. }
    rewrite (op_bind_ok _ _ _ _ _ E). destruct Hr as (Hsz & -> & Hps).
    destruct (IH (proj2 Hd) Hok' s1 F1 T1 D1
      (add_vma vm (PAGE_SIZE * seg_lo slide ph) (PAGE_SIZE * seg_hi slide ph) (seg_vma_flags ph))
      (ex_space _ _ _ _ _ _ _ _ _ _ HX)) as (r & s' & F' & T' & D' & vm' & E' & HX' & Hr).
    exists r, s', F', T', D', vm'. split_and!; [done|by eapply extends_trans|].
    destruct r as [u|e]; cbn [ok_or_oom] in *; [|destruct Hr; split; [done|lia]].
    destruct Hr as (? & -> & Him). split_and!; [lia|done|]. by eapply image_cons.
  - assert (E : load_segment {| pml4_phys := P |} data slide ph (s, vm) = Ret (Ok (), (s, vm))).
    { unfold load_segment. destruct (Z.eqb_spec (p_type ph) PT_LOAD); [|done]. cbn [negb].
      destruct (Z.eqb_spec (p_memsz ph) 0); [done|]. by destruct Hl. }
    rewrite (op_bind_ok _ _ _ _ _ E).
    destruct (IH (proj2 Hd) Hok' s F T D vm HU) as (r & s' & F' & T' & D' & vm' & E' & HX' & Hr).
    exists r, s', F', T', D', vm'. split_and!; [done|done|].
    destruct r as [u|e]; cbn [ok_or_oom] in *; [|destruct Hr; split; [done|lia]].
    destruct Hr as (? & -> & Him). split_and!; [lia|done|]. by apply image_skip.
Qed.

(** ** Well-formed files *)
Record ph_ok data (slide : Z) ph : Prop := {
  po_load : p_type ph = PT_LOAD → p_filesz ph ≤ p_memsz ph ∧
    p_offset ph + p_filesz ph ≤ length data ∧ seg_start slide ph + p_memsz ph ≤ 2 ^ 47 - PAGE_SIZE;
  po_phdr : p_type ph = PT_PHDR → p_vaddr ph + slide < U64;
  po_interp : p_type ph = PT_INTERP → p_offset ph + p_filesz ph ≤ length data
}.

Definition elf_slide (eh : Elf64Ehdr) (pie_base : Z) : Z := if e_type eh =? 3 then pie_base else 0.
Definition elf_phdrs data (eh : Elf64Ehdr) : list Elf64Phdr := phdr_table data (e_phoff eh) (e_phnum eh).

Record elf_wf data (pie_base : Z) (eh : Elf64Ehdr) : Prop := {
  ew_hdr : check_ehdr data = Ok eh;
  ew_bytes : Forall is_byte data;
  ew_len : length data < 2 ^ 63;
  ew_phent : e_phentsize eh = PHDR_SIZE;
  ew_table : e_phoff eh + e_phnum eh * PHDR_SIZE ≤ length data;
  ew_phs : ∀ ph, ph ∈ elf_phdrs data eh → ph_ok data (elf_slide eh pie_base) ph;
  ew_disj : segs_disjoint (elf_slide eh pie_base) (elf_phdrs data eh);
  ew_entry : e_entry eh + elf_slide eh pie_base < U64
}.

Lemma phdr_bounds data o : Forall is_byte data → let ph := read_phdr data o in
  is_u64 (p_offset ph) ∧ is_u64 (p_vaddr ph) ∧ is_u64 (p_filesz ph) ∧ is_u64 (p_memsz ph).
Proof. intros Hb ph. split_and!; by apply le_bound. Qed.

Lemma elf_phdrs_bounds data eh ph : Forall is_byte data → ph ∈ elf_phdrs data eh →
  is_u64 (p_offset ph) ∧ is_u64 (p_vaddr ph) ∧ is_u64 (p_filesz ph) ∧ is_u64 (p_memsz ph).
Proof. intros Hb (i & -> & _)%list_elem_of_fmap. by apply phdr_bounds. Qed.

(** What the scan finds. *)
Record scanned phs (sc sc' : scan) : Prop := {
  sn_max : load_max sc ≤ load_max sc';
  sn_ends : ∀ ph, ph ∈ phs → p_type ph = PT_LOAD → p_vaddr ph + p_memsz ph ≤ load_max sc';
  sn_interp : (∀ ph, ph ∈ phs → p_type ph ≠ PT_INTERP) → sc_interp sc' = sc_interp sc
}.

Lemma scanned_cons ph phs sc sc1 sc' :
  scanned [ph] sc sc1 → scanned phs sc1 sc' → scanned (ph :: phs) sc sc'.
Proof.
  intros [M1 E1 I1] [M2 E2 I2]. split.
  - lia.
  - intros ph' [->|Hin]%elem_of_cons Hl; [|auto].
    specialize (E1 ph (list_elem_of_here _ _) Hl). lia.
  - intros H. rewrite I2, I1; [done|..]; intros ph' Hin; apply H.
    + apply list_elem_of_singleton in Hin as ->. apply list_elem_of_here.
    + by apply list_elem_of_further.
Qed.

Lemma scan_phdr_spec data slide sc ph : ph_ok data slide ph → 0 ≤ slide → length data < U64 →
  is_u64 (p_offset ph) → is_u64 (p_vaddr ph) → load_max sc + slide ≤ 2 ^ 47 - PAGE_SIZE →
  ∃ sc', scan_phdr data slide sc ph = Ret (Ok sc') ∧ scanned [ph] sc sc' ∧
    load_max sc' + slide ≤ 2 ^ 47 - PAGE_SIZE ∧
    (is_u64 (sc_phdr_vaddr sc) → is_u64 (sc_phdr_vaddr sc')).
Proof.
  intros [Hl Hp Hi] Hs Hlen Ho Hv Hmax. change (2 ^ 47) with 140737488355328 in *. unfold is_u64, seg_start in *.
  unfold scan_phdr. destruct (Z.eqb_spec (p_type ph) PT_LOAD) as [E|E].
  { destruct (Hl E) as (? & ? & ?). rewrite u64_add_ok by lia. exec_simpl.
    destruct (Z.ltb_spec (load_max sc) (p_vaddr ph + p_memsz ph));
    eexists; (split_and!; [done|split; simpl; [lia|intros ? ->%list_elem_of_singleton _; lia|done]|simpl; lia|done]). }
  destruct (Z.eqb_spec (p_type ph) PT_PHDR) as [E2|E2].
  { rewrite u64_add_ok by auto. exec_simpl. eexists. split_and!; [done|split; simpl; [lia|by intros ? ->%list_elem_of_singleton|done]|done|].
    simpl. specialize (Hp E2). lia. }
  destruct (Z.eqb_spec (p_type ph) PT_INTERP) as [E3|E3].
  { specialize (Hi E3). rewrite u64_add_ok by lia. exec_simpl. rewrite (proj2 (Z.ltb_ge _ _)) by lia.
    eexists. split_and!; [done|split; simpl; [lia|by intros ? ->%list_elem_of_singleton|]|done|done].
    intros H. by destruct (H ph (list_elem_of_here _ _)). }
  destruct (p_type ph =? PT_GNU_STACK); eexists; (split_and!; [done|split; simpl; [lia|by intros ? ->%list_elem_of_singleton|done]|done|done]).
Qed.

Lemma scan_phdrs_spec data slide phs : 0 ≤ slide → length data < U64 →
  (∀ ph, ph ∈ phs → ph_ok data slide ph ∧ is_u64 (p_offset ph) ∧ is_u64 (p_vaddr ph)) → ∀ sc,
  load_max sc + slide ≤ 2 ^ 47 - PAGE_SIZE → is_u64 (sc_phdr_vaddr sc) →
  ∃ sc', scan_phdrs data slide sc phs = Ret (Ok sc') ∧ scanned phs sc sc' ∧
    load_max sc' + slide ≤ 2 ^ 47 - PAGE_SIZE ∧ is_u64 (sc_phdr_vaddr sc').
Proof.
  intros Hs Hlen. induction phs as [|ph phs IH]; intros Hok sc Hmax Hph; cbn [scan_phdrs].
  { exists sc. split_and!; [done|split; [lia|by intros ? ?%elem_of_nil|done]|done|apply Hph..]. }
  destruct (Hok ph (list_elem_of_here _ _)) as (H1 & H2 & H3).
  destruct (scan_phdr_spec data slide sc ph H1 Hs Hlen H2 H3 Hmax) as (sc1 & -> & Hn1 & Hm1 & Hp1). exec_simpl.
  destruct (IH (λ ph Hin, Hok ph (list_elem_of_further _ _ _ Hin)) sc1 Hm1 (Hp1 Hph)) as (sc' & E & Hn & Hm & Hp).
  exists sc'. split_and!; [done|by eapply scanned_cons|done|apply Hp..].
Qed.

Lemma find_phdr_vaddr_total slide phoff phs :
  (∀ ph, ph ∈ phs → p_type ph = PT_LOAD → p_vaddr ph + slide ≤ 2 ^ 47) → 0 ≤ phoff < 2 ^ 63 →
  ∃ a, find_phdr_vaddr slide phoff phs = Ret a.
Proof.
  change (2 ^ 47) with 140737488355328. change (2 ^ 63) with 9223372036854775808.
  intros Hv Ho. induction phs as [|ph phs IH]; cbn [find_phdr_vaddr]; [eauto|].
  destruct (Z.eqb_spec (p_type ph) PT_LOAD) as [E|]; cbn [andb].
  - pose proof (Hv ph (list_elem_of_here _ _) E). destruct (p_offset ph =? 0).
    + rewrite u64_add_ok by lia. exec_simpl. rewrite u64_add_ok by lia. eauto.
    + apply IH. intros. apply Hv; [by apply list_elem_of_further|done].
  - apply IH. intros. apply Hv; [by apply list_elem_of_further|done].
Qed.

Lemma elf_wf_facts data pie_base eh : elf_wf data pie_base eh → 0 ≤ pie_base →
  eh = read_ehdr data ∧ 0 ≤ elf_slide eh pie_base ∧ 0 ≤ e_phoff eh ∧ 0 ≤ e_phnum eh < 65536 ∧
  ∀ ph, ph ∈ elf_phdrs data eh → loads ph → seg_ok data (elf_slide eh pie_base) ph.
Proof.
  intros [Hh Hb Hlen Hpe Ht Hphs Hd He] Hpie. assert (eh = read_ehdr data) as Eh.
  { unfold check_ehdr in Hh. repeat case_match; congruence. }
  split_and!; [done| | | | |].
  - unfold elf_slide. destruct (_ =? _); lia.
  - rewrite Eh. by apply le_bound.
  - rewrite Eh. by apply le_bound.
  - rewrite Eh. by apply le_bound.
  - intros ph Hin [Hty Hm]. destruct (elf_phdrs_bounds data eh ph Hb Hin) as (B1 & B2 & B3 & B4).
    destruct (Hphs ph Hin) as [Hl _ _]. destruct (Hl Hty) as (L1 & L2 & L3).
    unfold is_u64 in *. change (2 ^ 63) with 9223372036854775808 in *. split; try done; lia.
Qed.

(** What a successful load of [data] leaves behind. *)
Record elf_loaded data (pie_base : Z) (eh : Elf64Ehdr) (vm : VmSpace) D m
    (l : LoadedElf) (vm' : VmSpace) D' m' : Prop := {
  el_entry : loaded_entry l = e_entry eh + elf_slide eh pie_base;
  el_image : image data (elf_slide eh pie_base) (elf_phdrs data eh) D m D' m';
  el_areas : areas vm' = areas (segs_areas (elf_slide eh pie_base) (elf_phdrs data eh) vm);
  el_brk : brk vm' = loaded_brk l ∧ loaded_brk l mod PAGE_SIZE = 0 ∧ 0 ≤ loaded_brk l ≤ 2 ^ 47;
  el_brk_above : ∀ ph, ph ∈ elf_phdrs data eh → p_type ph = PT_LOAD →
    seg_start (elf_slide eh pie_base) ph + p_memsz ph ≤ loaded_brk l;
  el_phdrs : phnum l = e_phnum eh ∧ phent l = PHDR_SIZE;
  el_static : (∀ ph, ph ∈ elf_phdrs data eh → p_type ph ≠ PT_INTERP) → interp_path l = None
}.

Lemma load_elf_spec P data pie_base eh s F T D vm :
  uspace inv s F P T D → elf_wf data pie_base eh → 0 ≤ pie_base < 2 ^ 47 - PAGE_SIZE →
  ∃ r s' F' T' D' vm',
    load_elf data {| pml4_phys := P |} pie_base (s, vm) = Ret (r, (s', vm')) ∧
    extends inv P s F T D s' F' T' D' ∧
    ok_or_oom r (segs_frames (elf_slide eh pie_base) (elf_phdrs data eh)) F
      (λ l, size F ≤ size F' + segs_frames (elf_slide eh pie_base) (elf_phdrs data eh) ∧
        elf_loaded data pie_base eh vm D (ram s) l vm' D' (ram s')).
Proof.
  intros HU Hwf Hpie. destruct (elf_wf_facts data pie_base eh Hwf ltac:(lia)) as (Eh & Hsl & Hpo & Hpn & Hsegs).
  destruct Hwf as [Hh Hb Hlen Hpe Ht Hphs Hd He].
  change (2 ^ 47) with 140737488355328 in *. change (2 ^ 63) with 9223372036854775808 in *.
  assert (Hsl2 : elf_slide eh pie_base ≤ pie_base) by (unfold elf_slide; destruct (_ =? _); lia).
  assert (Hok : ∀ ph, ph ∈ elf_phdrs data eh → ph_ok data (elf_slide eh pie_base) ph ∧
    is_u64 (p_offset ph) ∧ is_u64 (p_vaddr ph)).
  { intros ph Hin. destruct (elf_phdrs_bounds data eh ph Hb Hin) as (? & ? & _). auto. }
  destruct (scan_phdrs_spec data (elf_slide eh pie_base) (elf_phdrs data eh) Hsl ltac:(lia) Hok scan_start)
    as (sc & Esc & [Hm0 Hends Hint] & Hmax & Hpv).
  { change (2 ^ 47) with 140737488355328. simpl. lia. }
  { unfold is_u64. simpl. lia. }
  cbn [load_max scan_start] in Hm0.
  change (2 ^ 47) with 140737488355328 in *.
  destruct (load_segments_spec P data (elf_slide eh pie_base) (elf_phdrs data eh) Hsl Hd Hsegs s F T D vm HU)
    as (r & s' & F' & T' & D' & vm' & E & HX & Hr).
  unfold load_elf. rewrite Hh. cbv zeta. fold (elf_slide eh pie_base). rewrite Hpe.
  unfold check at 1 2 3 4. op_unfold. rewrite u64_mul_ok by lia. exec_simpl. rewrite u64_add_ok by lia. exec_simpl.
  rewrite (proj2 (Z.ltb_ge _ _)) by lia. unfold read_phdrs. rewrite (proj2 (Z.leb_le _ _)) by lia. exec_simpl.
  fold (elf_phdrs data eh). rewrite Esc. exec_simpl. rewrite E. destruct r as [[]|e]; cycle 1.
  { exists (Err e), s', F', T', D', vm'. done. }
  destruct Hr as (Hfr & -> & Him). rewrite u64_add_ok by lia. exec_simpl. rewrite align_up_page by lia. exec_simpl.
  unfold set_brk at 1.
  assert (∃ pv, (if (sc_phdr_vaddr sc =? 0) && negb (e_phoff eh =? 0)
                 then find_phdr_vaddr (elf_slide eh pie_base) (e_phoff eh) (elf_phdrs data eh)
                 else Ret (sc_phdr_vaddr sc)) = Ret pv) as [pv ->].
  { destruct (_ && _); [|eauto]. apply find_phdr_vaddr_total; [|change (2 ^ 63) with 9223372036854775808; lia].
    change (2 ^ 47) with 140737488355328. intros ph Hin Hty. destruct (Hphs ph Hin) as [Hl _ _].
    destruct (Hl Hty) as (_ & _ & ?). destruct (elf_phdrs_bounds data eh ph Hb Hin) as (_ & _ & _ & ? & _).
    unfold seg_start in *. change (2 ^ 47) with 140737488355328 in *. lia. }
  exec_simpl. rewrite u64_add_ok by lia. exec_simpl. eexists (Ok _), s', F', T', D', _.
  split_and!; [done|done|]. split; [done|]. split; simpl; try done.
  - split; [done|]. change (2 ^ 47) with 140737488355328. dlia.
  - intros ph Hin Hty. specialize (Hends ph Hin Hty). unfold seg_start. dlia.
Qed.
End Specs.

(** ** Main theorem *)

(** C17: loading a well-formed executable into an address space of private pages
    never panics. When it succeeds the process sees at every address of a
    segment the bytes of the file, and zeros after them, with the permissions of
    the segment; every other page is as before, the areas of the segments are
    registered, and the program break is page aligned above all of them. It
    fails only with an out-of-memory error when fewer frames are free than four
    for each page, and in all cases memory outside the free frames and the
    space's own frames is untouched. *)
Theorem load_elf_correct co P data pie_base eh s F T D vm :
  uspace (pmm_inv co) s F P T D → elf_wf data pie_base eh → 0 ≤ pie_base < 2 ^ 47 - PAGE_SIZE →
  ∃ r s' F' T' D' vm',
    load_elf data {| pml4_phys := P |} pie_base (s, vm) = Ret (r, (s', vm')) ∧
    uspace (pmm_inv co) s' F' P T' D' ∧
    agree_outside (F ∪ tables T ∪ dframes D) (ram s) (ram s') ∧
    match r with
    | Ok l => elf_loaded data pie_base eh vm D (ram s) l vm' D' (ram s')
    | Err e => (e = AllocFailed ∨ e = MappingFailed) ∧
        size F < segs_frames (elf_slide eh pie_base) (elf_phdrs data eh)
    end.
Proof.
  intros HU Hwf Hpie.
  destruct (load_elf_spec (pmm_inv co) P data pie_base eh s F T D vm HU Hwf Hpie)
    as (r & s' & F' & T' & D' & vm' & E & [HU' _ Hm] & Hr).
  exists r, s', F', T', D', vm'. split_and!; [done..|]. destruct r; [apply Hr|done].
Qed.

(** A program header whose end overflows panics the kernel: the additions of
    the scan are not checked. *)
Lemma hostile_phdr_panics data slide sc ph :
  p_type ph = PT_LOAD → U64 ≤ p_vaddr ph + p_memsz ph → scan_phdr data slide sc ph = Panic.
Proof.
  intros Hty Hov. unfold scan_phdr. rewrite Hty, Z.eqb_refl. unfold u64_add.
  by rewrite (proj2 (Z.ltb_ge _ _) Hov).
Qed.
End Load.

(** ** Witness: the kernel's own program in a fresh address space *)
Section Demo.
#[local] Existing Instance qemu_hhdm.

Lemma demo_uspace : uspace (pmm_inv true) demo_s demo_F demo_P {[ [] := demo_P ]} ∅.
Proof.
  destruct demo_space_inv as [HV Hw]. split; [exact HV| |..].
  - intros v Hv. rewrite Hw by done. by rewrite lookup_empty.
  - intros i q fl H. by rewrite lookup_empty in H.
  - intros i j q fl fl' H. by rewrite lookup_empty in H.
Qed.

Lemma hello_wf : elf_wf HELLO_ELF 0 (read_ehdr HELLO_ELF).
Proof.
  split; try (vm_compute; congruence).
  - repeat constructor; vm_compute; congruence.
  - assert (elf_phdrs HELLO_ELF (read_ehdr HELLO_ELF) = [read_phdr HELLO_ELF 64]) as -> by reflexivity.
    intros ph ->%list_elem_of_singleton. split; vm_compute; try congruence. intros _. split_and!; congruence.
  - split; [|done]. by intros _ ph' ?%elem_of_nil.
Qed.

Lemma load_elf_correct_witness :
  ∃ r s' F' T' D' vm',
    load_elf HELLO_ELF {| pml4_phys := demo_P |} 0 (demo_s, VmSpace_new) = Ret (r, (s', vm')) ∧
    uspace (pmm_inv true) s' F' demo_P T' D' ∧
    agree_outside (demo_F ∪ tables {[ [] := demo_P ]} ∪ dframes ∅) (ram demo_s) (ram s') ∧
    match r with
    | Ok l => elf_loaded HELLO_ELF 0 (read_ehdr HELLO_ELF) VmSpace_new ∅ (ram demo_s) l vm' D' (ram s')
    | Err e => (e = AllocFailed ∨ e = MappingFailed) ∧
        size demo_F < segs_frames (elf_slide (read_ehdr HELLO_ELF) 0) (elf_phdrs HELLO_ELF (read_ehdr HELLO_ELF))
    end.
Proof.
  apply (load_elf_correct true demo_P HELLO_ELF 0 (read_ehdr HELLO_ELF) demo_s demo_F {[ [] := demo_P ]} ∅ VmSpace_new).
  - exact demo_uspace.
  - exact hello_wf.
  - lia.
Defined.
End Demo.
