(* ===== verification/UserStack.v ===== *)
(** The initial user stack ([src/src/proc/stack.rs]): argument and environment
    strings, their pointer arrays and the auxiliary vector, as a new program
    finds them. The unused [StackBuilder] is in
    StackBuilder.v. *)
From S2P Require Import Prelude Machine Pmm Vmm Vma UserMem Effects Elf.

Abbreviation AT_NULL := 0 (only parsing).
Abbreviation AT_PHDR := 3 (only parsing).
Abbreviation AT_PHENT := 4 (only parsing).
Abbreviation AT_PHNUM := 5 (only parsing).
Abbreviation AT_PAGESZ := 6 (only parsing).
Abbreviation AT_BASE := 7 (only parsing).
Abbreviation AT_FLAGS := 8 (only parsing).
Abbreviation AT_ENTRY := 9 (only parsing).
Abbreviation AT_UID := 11 (only parsing).
Abbreviation AT_EUID := 12 (only parsing).
Abbreviation AT_GID := 13 (only parsing).
Abbreviation AT_EGID := 14 (only parsing).
Abbreviation AT_RANDOM := 25 (only parsing).
Abbreviation AT_EXECFN := 31 (only parsing).
Abbreviation USER_STACK_TOP := 0x7FFFFFFF0000 (only parsing).
Abbreviation USER_STACK_SIZE := 0x800000 (only parsing).
Abbreviation USER_STACK_BOTTOM := 0x7FFFFF7F0000 (only parsing).

Section Stack.
Context {hh : Hhdm}.
Implicit Types (s : mm) (sp : AddressSpace) (strs : list (list Z)) (vals ptrs : list Z).

(** The builder's state: memory and the areas of the process. [Err ()] is
    [None]. *)
Abbreviation builder A := (fallible unit (mm * VmSpace) A).

Definition stack_frame : builder Z := λ '(s, vm),
  '(r, s) ← alloc_zeroed_frame s;
  Ret (match r with Some p => Ok p | None => Err () end, (s, vm)).

(** [addr_space.map(..)] with its result dropped *)
Definition stack_map sp (virt phys flags : Z) : builder unit := λ '(s, vm),
  '(_, s) ← map s sp virt phys flags; Ret (Ok (), (s, vm)).

Definition stack_vma (st e flags : Z) : builder unit := λ '(s, vm), Ret (Ok (), (s, add_vma vm st e flags)).

(** [write_at(..)?] *)
Definition stack_write sp (virt : Z) (bs : list Z) : builder unit := λ '(s, vm),
  '(r, s) ← write_at s sp virt bs;
  Ret (match r with Some _ => Ok () | None => Err () end, (s, vm)).

Definition STACK_PTE_FLAGS : Z := Z.lor (Z.lor (Z.lor PTE_PRESENT PTE_WRITABLE) PTE_USER) PTE_NO_EXEC.
Definition STACK_VMA_FLAGS : Z := Z.lor (Z.lor (Z.lor VMA_READ VMA_WRITE) VMA_GROWS_DOWN) VMA_ANONYMOUS.

Fixpoint map_stack_loop (fuel : nat) sp (vaddr : Z) : builder unit :=
  if negb (vaddr <? USER_STACK_TOP) then mret () else
  match fuel with
  | O => λ _, NoFuel
  | S fuel =>
      phys ← stack_frame;
      _ ← stack_map sp vaddr phys STACK_PTE_FLAGS;
      vaddr ← check (u64_add vaddr PAGE_SIZE);
      map_stack_loop fuel sp vaddr
  end.

Definition map_user_stack sp : builder unit :=
  _ ← stack_vma USER_STACK_BOTTOM USER_STACK_TOP STACK_VMA_FLAGS;
  let initial_committed := 64 * 1024 in
  commit_start ← check (u64_sub USER_STACK_TOP initial_committed);
  map_stack_loop (Z.to_nat (initial_committed / PAGE_SIZE)) sp commit_start.

Definition random_bytes : list Z :=
  [0xDE; 0xAD; 0xBE; 0xEF; 0xCA; 0xFE; 0xBA; 0xBE; 0x13; 0x37; 0x42; 0x00; 0x11; 0x22; 0x33; 0x44].

(** [cursor -= (str.len() + 1) as u64; write_at(addr_space, cursor, str)?] *)
Definition push_string sp (cursor : Z) (str : list Z) : builder Z :=
  n ← check (u64_add (length str) 1);
  cursor ← check (u64_sub cursor n);
  _ ← stack_write sp cursor str;
  mret cursor.

(** The loops over [argv.iter().rev()] and [envp.iter().rev()]: the pointers are
    pushed to a vector. *)
Definition push_strings sp (cursor : Z) strs : builder (Z * list Z) :=
  op_fold (λ '(cursor, ptrs) str,
    c ← push_string sp cursor str;
    mret (c, ptrs ++ [c])) strs (cursor, []).

(** The macro [push!] *)
Definition push sp (rsp val : Z) : builder Z :=
  rsp ← check (u64_sub rsp 8);
  _ ← stack_write sp rsp (to_le_bytes val);
  mret rsp.

(** The auxiliary vector in the order of the pushes. *)
Definition aux_pushes (loaded : LoadedElf) (execfn_ptr at_random_ptr : Z) : list Z :=
  [0; AT_NULL; execfn_ptr; AT_EXECFN; at_random_ptr; AT_RANDOM; loaded_entry loaded; AT_ENTRY;
   0; AT_FLAGS; load_base loaded; AT_BASE; PAGE_SIZE; AT_PAGESZ; phnum loaded; AT_PHNUM;
   phent loaded; AT_PHENT; phdr_vaddr loaded; AT_PHDR; 0; AT_EGID; 0; AT_GID; 0; AT_EUID; 0; AT_UID].

Definition build_user_stack sp (loaded : LoadedElf) (argv envp : list (list Z)) (execfn : list Z)
    : builder Z :=
  _ ← map_user_stack sp;
  cursor ← check (u64_sub USER_STACK_TOP 16);
  let at_random_ptr := cursor in
  _ ← stack_write sp cursor random_bytes;
  cursor ← push_string sp cursor execfn;
  let execfn_ptr := cursor in
  '(cursor, argv_ptrs) ← push_strings sp cursor (rev argv);
  let argv_ptrs := rev argv_ptrs in
  '(cursor, envp_ptrs) ← push_strings sp cursor (rev envp);
  let envp_ptrs := rev envp_ptrs in
  let rsp := Z.land cursor (u64_not 15) in
  rsp ← op_fold (push sp) (aux_pushes loaded execfn_ptr at_random_ptr) rsp;
  rsp ← push sp rsp 0;
  rsp ← op_fold (push sp) (rev envp_ptrs) rsp;
  rsp ← push sp rsp 0;
  rsp ← op_fold (push sp) (rev argv_ptrs) rsp;
  push sp rsp (length argv).

(** ** The stack the program finds *)
Section Specs.
Context (inv : mm → gset Z → Prop) {FA : FrameAllocator inv}.
Implicit Types (F : gset Z) (T : gmap (list Z) Z) (D : gmap Z (Z * Z)).

Abbreviation COMMIT := 0x7FFFFFFE0000 (only parsing).

(** The 64 KiB below the top are mapped. *)
Definition committed D : Prop := ∀ i, page COMMIT ≤ i < page USER_STACK_TOP →
  ∃ q, D !! i = Some (q, STACK_PTE_FLAGS).

(** The process reads [bs], padded with zeros to [n] bytes, at [p]. *)
Definition holds s D (p : Z) (bs : list Z) (n : Z) : Prop :=
  ∀ k, 0 ≤ k < n → ubyte (ram s) D (p + k) = Some (nth (Z.to_nat k) bs 0).

Section Pushes.
Context (P : Z) F T D (HD : committed D).

(** The stack has been built down to [c]; below, it is still zero. *)
Definition built s (c : Z) : Prop :=
  uspace inv s F P T D ∧ COMMIT ≤ c ≤ USER_STACK_TOP ∧ holds s D COMMIT [] (c - COMMIT).

Record pushed s (c : Z) s' (c' : Z) : Prop := {
  pu_ext : extends inv P s F T D s' F T D;
  pu_built : built s' c';
  pu_le : c' ≤ c;
  pu_above : ∀ w, c ≤ w ∨ w < COMMIT → ubyte (ram s') D w = ubyte (ram s) D w
}.

Lemma pushed_refl s c : built s c → pushed s c s c.
Proof. intros Hb. split; try done; try lia. apply extends_refl, Hb. Qed.

Lemma pushed_trans s c s1 c1 s2 c2 : pushed s c s1 c1 → pushed s1 c1 s2 c2 → pushed s c s2 c2.
Proof.
  intros [X1 B1 L1 A1] [X2 B2 L2 A2]. split; [by eapply extends_trans|done|lia|].
  intros w Hw. rewrite A2 by lia. by apply A1.
Qed.

Lemma holds_pushed s c s' c' p bs n : pushed s c s' c' → c ≤ p → holds s D p bs n → holds s' D p bs n.
Proof. intros [_ _ _ A] Hp Hh k Hk. rewrite A by lia. by apply Hh. Qed.

(** Writing [bs] just below [c], with the zeros up to [c] kept. *)
Lemma write_down s c n bs vm : built s c → length bs ≤ n → COMMIT ≤ c - n →
  ∃ s', stack_write {| pml4_phys := P |} (c - n) bs (s, vm) = Ret (Ok (), (s', vm)) ∧
    pushed s c s' (c - n) ∧ holds s' D (c - n) bs n.
Proof.
  intros (HU & Hc & Hz) Hn Hlo. unfold stack_write.
  destruct (write_at_spec inv P (c - n) bs F T D s HU) as (s' & -> & HX & Hb);
    [lia|change (2 ^ 47) with 140737488355328; lia|..].
  { intros w Hw. destruct (HD (page w)) as [q Hq]; [|by rewrite Hq]. clear -Hw Hc Hn Hlo. dlia. }
  exec_simpl. exists s'. split; [done|].
  assert (Hz' : ∀ w, COMMIT ≤ w < c → ubyte (ram s) D w = Some 0).
  { intros w Hw. specialize (Hz (w - COMMIT) ltac:(lia)). rewrite nth_nil in Hz.
    by replace (COMMIT + (w - COMMIT)) with w in Hz by lia. }
  split; [split; [done| |lia|]|].
  - split_and!; [apply HX|lia|lia|]. intros k Hk. rewrite Hb. unfold written.
    rewrite decide_False, nth_nil by lia. apply Hz'. lia.
  - intros w Hw. rewrite Hb. unfold written. by rewrite decide_False by lia.
  - intros k Hk. rewrite Hb. unfold written. destruct (decide _) as [Hin|Hout].
    + do 2 f_equal. lia.
    + rewrite Hz' by lia. by rewrite nth_overflow by lia.
Qed.

Definition str_size (str : list Z) : Z := length str + 1.
Definition strs_size strs : Z := sum_list_with (λ str, length str + 1)%nat strs.

Lemma push_string_spec s c str vm : built s c → COMMIT ≤ c - str_size str →
  ∃ s', push_string {| pml4_phys := P |} c str (s, vm) = Ret (Ok (c - str_size str), (s', vm)) ∧
    pushed s c s' (c - str_size str) ∧ holds s' D (c - str_size str) str (str_size str).
Proof.
  intros Hb Hlo. unfold str_size in *. assert (c ≤ USER_STACK_TOP) by apply Hb.
  destruct (write_down s c (length str + 1) str vm Hb) as (s' & E & Hp & Hh); [lia..|].
  exists s'. split; [|done]. unfold push_string. op_unfold. rewrite u64_add_ok by lia. exec_simpl.
  rewrite u64_sub_ok by lia. exec_simpl. by rewrite E.
Qed.

(** A string at its pointer with a terminating zero, between [lo] and [hi]. *)
Definition string_at s (lo hi : Z) (str : list Z) (p : Z) : Prop :=
  lo ≤ p ∧ p + str_size str ≤ hi ∧ holds s D p str (str_size str).

Lemma string_at_pushed s c s' c' lo hi str p :
  pushed s c s' c' → c ≤ lo → string_at s lo hi str p → string_at s' c' hi str p.
Proof.
  intros Hp Hc (H1 & H2 & H3). pose proof (pu_le _ _ _ _ Hp).
  split_and!; [lia|done|]. eapply holds_pushed; [done|lia|done].
Qed.

Lemma push_strings_loop strs vm : ∀ s c ptrs, built s c → COMMIT ≤ c - strs_size strs →
  ∃ s' new, op_fold (λ '(cursor, ptrs) str,
      c ← push_string {| pml4_phys := P |} cursor str; mret (c, ptrs ++ [c])) strs (c, ptrs) (s, vm) =
      Ret (Ok (c - strs_size strs, ptrs ++ new), (s', vm)) ∧
    pushed s c s' (c - strs_size strs) ∧
    Forall2 (string_at s' (c - strs_size strs) c) strs new.
Proof.
  induction strs as [|str strs IH]; intros s c ptrs Hb Hlo.
  { exists s, []. cbn. rewrite Z.sub_0_r, app_nil_r. split_and!; [done|by apply pushed_refl|constructor]. }
  assert (Hsz : strs_size (str :: strs) = str_size str + strs_size strs).
  { unfold strs_size, str_size. cbn [sum_list_with]. lia. }
  assert (0 ≤ strs_size strs) by (unfold strs_size; lia). rewrite Hsz in *.
  cbn [op_fold]. destruct (push_string_spec s c str vm Hb) as (s1 & E1 & Hp1 & Hh1); [lia|].
  destruct (IH s1 (c - str_size str) (ptrs ++ [c - str_size str])) as (s' & new & E & Hp & Hn);
    [apply Hp1|lia|].
  exists s', ((c - str_size str) :: new).
  replace (c - (str_size str + strs_size strs)) with (c - str_size str - strs_size strs) by lia.
  split_and!.
  - erewrite op_bind_ok; [|erewrite op_bind_ok; [reflexivity|exact E1]]. rewrite E. by rewrite <- app_assoc.
  - by eapply pushed_trans.
  - constructor.
    + apply (string_at_pushed _ _ _ _ _ _ _ _ Hp ltac:(done)). split_and!; [lia|lia|done].
    + eapply Forall2_impl; [exact Hn|]. intros a p (H1 & H2 & H3). split_and!; [lia|unfold str_size in *; lia|done].
Qed.

Lemma length_to_le_bytes v : length (to_le_bytes v) = 8%nat.
Proof. reflexivity. Qed.

Lemma stack_push_spec s c v vm : built s c → COMMIT ≤ c - 8 →
  ∃ s', push {| pml4_phys := P |} c v (s, vm) = Ret (Ok (c - 8), (s', vm)) ∧
    pushed s c s' (c - 8) ∧ holds s' D (c - 8) (to_le_bytes v) 8.
Proof.
  intros Hb Hlo. destruct (write_down s c 8 (to_le_bytes v) vm Hb) as (s' & E & Hp & Hh);
    [by rewrite length_to_le_bytes|lia|].
  exists s'. split; [|done]. unfold push. op_unfold. rewrite u64_sub_ok by lia. exec_simpl. by rewrite E.
Qed.

(** [vals] lie below [c], the first on top. *)
Definition words_below s (c : Z) vals : Prop :=
  ∀ (i : nat) v, vals !! i = Some v → holds s D (c - 8 * (i + 1)) (to_le_bytes v) 8.

Lemma push_words_spec vm vals : ∀ s c, built s c → COMMIT ≤ c - 8 * length vals →
  ∃ s', op_fold (push {| pml4_phys := P |}) vals c (s, vm) = Ret (Ok (c - 8 * length vals), (s', vm)) ∧
    pushed s c s' (c - 8 * length vals) ∧ words_below s' c vals.
Proof.
  induction vals as [|v vals IH]; intros s c Hb Hlo.
  { exists s. cbn [op_fold length]. replace (c - 8 * 0%nat) with c by lia.
    split_and!; [done|by apply pushed_refl|]. intros i v Hi. done. }
  cbn [length] in *. destruct (stack_push_spec s c v vm Hb) as (s1 & E1 & Hp1 & Hh1); [lia|].
  destruct (IH s1 (c - 8)) as (s' & E & Hp & Hw); [apply Hp1|lia|]. exists s'.
  replace (c - 8 * S (length vals)) with (c - 8 - 8 * length vals) by lia. cbn [op_fold].
  split_and!; [by rewrite (op_bind_ok _ _ _ _ _ E1)|by eapply pushed_trans|].
  intros [|i] v' Hi; simpl in Hi; simplify_eq.
  - replace (c - 8 * (0%nat + 1)) with (c - 8) by lia. eapply holds_pushed; [done|lia|done].
  - replace (c - 8 * (S i + 1)) with (c - 8 - 8 * (i + 1)) by lia. by apply Hw.
Qed.

Lemma words_below_pushed s c s' c' d vals : pushed s c s' c' → c ≤ d - 8 * length vals →
  words_below s d vals → words_below s' d vals.
Proof.
  intros Hp Hd Hw i v Hi. eapply holds_pushed; [done| |by apply Hw].
  apply lookup_lt_Some in Hi. lia.
Qed.
End Pushes.

(** *** Mapping the stack *)
Lemma stack_flags_ok : flags_ok STACK_PTE_FLAGS.
Proof. split; [split; vm_compute; congruence|reflexivity]. Qed.

Lemma map_stack_loop_spec P vm (fuel : nat) : ∀ b s F T D,
  uspace inv s F P T D → 0 ≤ b ≤ page USER_STACK_TOP → page USER_STACK_TOP - b ≤ fuel →
  4 * (page USER_STACK_TOP - b) ≤ size F →
  ∃ s' F' T' D', map_stack_loop fuel {| pml4_phys := P |} (PAGE_SIZE * b) (s, vm) = Ret (Ok (), (s', vm)) ∧
    extends inv P s F T D s' F' T' D' ∧ size F ≤ size F' + 4 * (page USER_STACK_TOP - b) ∧
    pages_set D (ram s) D' (ram s') b (page USER_STACK_TOP) STACK_PTE_FLAGS (λ _, 0).
Proof.
  change (page USER_STACK_TOP) with 0x7FFFFFFF0.
  induction fuel as [|fuel IH]; intros b s F T D HU Hb Hf Hsz; cbn [map_stack_loop];
    destruct (Z.ltb_spec (PAGE_SIZE * b) USER_STACK_TOP) as [Hlt|Hge]; cbn [negb]; try lia.
  1,3: exists s, F, T, D; split_and!; [done|by apply extends_refl|lia|];
    split; [intros; lia|done|]; intros w; by rewrite decide_False by lia.
  op_unfold. unfold stack_frame at 1.
  destruct (commit_alloc inv s F P T D HU) as (r & s1 & -> & H). exec_simpl. destruct r as [q|]; cycle 1.
  { destruct H as [_ ->]. rewrite size_empty in Hsz. lia. }
  destruct H as (Hq & HqF & HU1 & Hz & Hm1). unfold stack_map at 1.
  destruct (commit_map inv s F P T D (PAGE_SIZE * b) q STACK_PTE_FLAGS s1 HU)
    as (ok & s2 & F2 & T2 & -> & H4 & Hsz2 & HX & Hby); try done; try apply stack_flags_ok.
  { unfold is_user. change (2 ^ 47) with 140737488355328. lia. }
  exec_simpl. assert (ok = true) as -> by (apply H4; lia). cbv zeta in HX, Hby.
  replace (page (PAGE_SIZE * b)) with b in * by (rewrite Z.mul_comm, Z.div_mul; lia).
  rewrite u64_add_ok by lia. exec_simpl. replace (PAGE_SIZE * b + PAGE_SIZE) with (PAGE_SIZE * (b + 1)) by lia.
  destruct (IH (b + 1) s2 F2 T2 _ (ex_space _ _ _ _ _ _ _ _ _ _ HX)) as (s' & F' & T' & D' & E & HX' & Hs' & Hps);
    [lia..|]. exists s', F', T', D'. split_and!; [exact E|by eapply extends_trans|lia|].
  eapply pages_set_step; [lia|done|done].
Qed.

Lemma map_user_stack_spec P s F T D vm :
  uspace inv s F P T D → 64 ≤ size F →
  ∃ s' F' T' D', map_user_stack {| pml4_phys := P |} (s, vm) =
      Ret (Ok (), (s', add_vma vm USER_STACK_BOTTOM USER_STACK_TOP STACK_VMA_FLAGS)) ∧
    extends inv P s F T D s' F' T' D' ∧
    pages_set D (ram s) D' (ram s') (page COMMIT) (page USER_STACK_TOP) STACK_PTE_FLAGS (λ _, 0).
Proof.
  intros HU Hsz.
  destruct (map_stack_loop_spec P (add_vma vm USER_STACK_BOTTOM USER_STACK_TOP STACK_VMA_FLAGS) 16
    (page COMMIT) s F T D HU) as (s' & F' & T' & D' & E & HX & _ & Hp).
  { by vm_compute. }
  { by vm_compute. }
  { change (4 * (page USER_STACK_TOP - page COMMIT)) with 64. lia. }
  exists s', F', T', D'. split_and!; [exact E|done|done].
Qed.

Lemma built_start P s F T D m0 D0 :
  uspace inv s F P T D →
  pages_set D0 m0 D (ram s) (page COMMIT) (page USER_STACK_TOP) STACK_PTE_FLAGS (λ _, 0) →
  committed D ∧ built P F T D s USER_STACK_TOP.
Proof.
  intros HU [Hn _ Hb]. split; [done|]. split_and!; [done|lia|lia|].
  intros k Hk. rewrite Hb, nth_nil, decide_True; [done|]. clear -Hk. dlia.
Qed.

Lemma pushed_lower P F T D s c c' : built P F T D s c → COMMIT ≤ c' ≤ c → pushed P F T D s c s c'.
Proof.
  intros (HU & Hc & Hz) Hc'. split; [by apply extends_refl| |lia|done]. split_and!; [done|lia|lia|].
  intros k Hk. apply Hz. lia.
Qed.

Lemma push_one sp b v : ∀ st, op_fold (push sp) [v] b st = push sp b v st.
Proof. intros st. cbn [op_fold]. op_unfold. destruct (push sp b v st) as [[[]]| |]; done. Qed.

(** The words of the initial stack from its top of stack upwards, as the System V
    ABI lays them out. *)
Definition stack_words (loaded : LoadedElf) (argv_ptrs envp_ptrs : list Z) (execfn_ptr at_random_ptr : Z)
    : list Z :=
  Z.of_nat (length argv_ptrs) :: argv_ptrs ++ [0] ++ envp_ptrs ++ [0] ++
  rev (aux_pushes loaded execfn_ptr at_random_ptr).

Definition word_pushes (loaded : LoadedElf) (argv_ptrs envp_ptrs : list Z) (execfn_ptr at_random_ptr : Z)
    : list Z :=
  aux_pushes loaded execfn_ptr at_random_ptr ++ [0] ++ rev envp_ptrs ++ [0] ++ rev argv_ptrs ++
  [Z.of_nat (length argv_ptrs)].

Lemma word_pushes_rev loaded av ev x r :
  stack_words loaded av ev x r = rev (word_pushes loaded av ev x r).
Proof.
  unfold stack_words, word_pushes. rewrite !rev_app_distr, !rev_involutive. cbn [rev app].
  by rewrite <- !app_assoc.
Qed.

Record initial_stack s D (rsp : Z) (loaded : LoadedElf) (argv envp : list (list Z)) (execfn : list Z) : Prop := {
  is_ptrs : ∃ argv_ptrs envp_ptrs execfn_ptr at_random_ptr,
    Forall2 (string_at D s rsp USER_STACK_TOP) argv argv_ptrs ∧
    Forall2 (string_at D s rsp USER_STACK_TOP) envp envp_ptrs ∧
    holds s D execfn_ptr execfn (str_size execfn) ∧ holds s D at_random_ptr random_bytes 16 ∧
    ∀ (i : nat) v, stack_words loaded argv_ptrs envp_ptrs execfn_ptr at_random_ptr !! i = Some v →
      holds s D (rsp + 8 * i) (to_le_bytes v) 8;
  is_range : COMMIT ≤ rsp < USER_STACK_TOP;
  is_align : rsp mod 16 = if Z.odd (length argv + length envp) then 0 else 8
}.

(** The bytes the builder writes at most. *)
Definition stack_need (argv envp : list (list Z)) (execfn : list Z) : Z :=
  16 + str_size execfn + strs_size argv + strs_size envp + 15 + 8 * (31 + length argv + length envp).

Lemma push_words_all sp loaded av ev x r b st :
  (rsp ← op_fold (push sp) (aux_pushes loaded x r) b;
   rsp ← push sp rsp 0;
   rsp ← op_fold (push sp) (rev ev) rsp;
   rsp ← push sp rsp 0;
   rsp ← op_fold (push sp) (rev av) rsp;
   push sp rsp (length av)) st =
  op_fold (push sp) (word_pushes loaded av ev x r) b st.
Proof.
  unfold word_pushes. rewrite op_fold_app. apply op_bind_ext. intros b1 s1.
  rewrite op_fold_app. rewrite (op_bind_head _ _ _ _ (push_one sp b1 0)). apply op_bind_ext. intros b2 s2.
  rewrite op_fold_app. apply op_bind_ext. intros b3 s3.
  rewrite op_fold_app. rewrite (op_bind_head _ _ _ _ (push_one sp b3 0)). apply op_bind_ext. intros b4 s4.
  rewrite op_fold_app. apply op_bind_ext. intros b5 s5. by rewrite push_one.
Qed.

Lemma strs_size_rev strs : strs_size (rev strs) = strs_size strs.
Proof.
  unfold strs_size. induction strs as [|a l IH]; [done|]. cbn [rev sum_list_with].
  rewrite sum_list_with_app. cbn [sum_list_with]. lia.
Qed.

Lemma push_strings_spec P F T D strs s c vm : committed D → built P F T D s c → COMMIT ≤ c - strs_size strs →
  ∃ s' ptrs, push_strings {| pml4_phys := P |} c (rev strs) (s, vm) =
      Ret (Ok (c - strs_size strs, rev ptrs), (s', vm)) ∧
    pushed P F T D s c s' (c - strs_size strs) ∧
    Forall2 (string_at D s' (c - strs_size strs) c) strs ptrs.
Proof.
  intros HD Hb Hlo. rewrite <- (strs_size_rev strs) in *.
  destruct (push_strings_loop P F T D HD (rev strs) vm s c [] Hb Hlo) as (s' & new & E & Hp & Hn).
  exists s', (rev new). rewrite rev_involutive. split_and!; [exact E|done|].
  apply Forall2_reverse in Hn. rewrite <- !rev_reverse, rev_involutive in Hn. done.
Qed.

Lemma align16 c : 0 ≤ c < U64 → Z.land c (u64_not 15) = c - c mod 16.
Proof. intros. change 15 with (2 ^ 4 - 1). rewrite land_not_ones by (unfold is_u64; lia). done. Qed.

Lemma strings_kept P F T D s c s' c' lo hi top strs ptrs :
  pushed P F T D s c s' c' → c ≤ lo → hi ≤ top → Forall2 (string_at D s lo hi) strs ptrs →
  Forall2 (string_at D s' c' top) strs ptrs.
Proof.
  intros Hp Hc Ht Hs. eapply Forall2_impl; [exact Hs|]. intros str p (H1 & H2 & H3).
  pose proof (pu_le _ _ _ _ _ _ _ _ Hp). split_and!; [lia|lia|]. eapply holds_pushed; [done|lia|done].
Qed.

Lemma words_up P F T D s c vals : built P F T D s (c - 8 * length vals) → words_below D s c vals →
  ∀ (i : nat) v, rev vals !! i = Some v → holds s D (c - 8 * length vals + 8 * i) (to_le_bytes v) 8.
Proof.
  intros _ Hw i v Hi. rewrite rev_reverse in Hi. apply reverse_lookup_Some in Hi as [Hi Hl].
  specialize (Hw _ _ Hi). replace (c - 8 * length vals + 8 * i) with (c - 8 * ((length vals - S i)%nat + 1)) by lia.
  done.
Qed.

Lemma length_word_pushes loaded (av ev : list Z) x r :
  (length (word_pushes loaded av ev x r) : Z) = 31 + length av + length ev.
Proof. unfold word_pushes, aux_pushes. rewrite !length_app, !length_rev. cbn [length]. lia. Qed.

Lemma rsp_align c (n : Z) : (c - c mod 16 - 8 * (31 + n)) mod 16 = if Z.odd n then 0 else 8.
Proof. destruct (Z.odd n) eqn:E; [apply Z.odd_spec in E as [k ->]|]; [dlia|].
  rewrite <- Z.negb_even in E. apply negb_false_iff, Z.even_spec in E as [k ->]. dlia.
Qed.

(** Everything after the stack is mapped. *)
Lemma build_strings_spec P F T D loaded argv envp execfn s vm st0 :
  committed D → built P F T D s USER_STACK_TOP → stack_need argv envp execfn ≤ 0x10000 →
  map_user_stack {| pml4_phys := P |} st0 = Ret (Ok (), (s, vm)) →
  ∃ rsp s', build_user_stack {| pml4_phys := P |} loaded argv envp execfn st0 = Ret (Ok rsp, (s', vm)) ∧
    extends inv P s F T D s' F T D ∧ initial_stack s' D rsp loaded argv envp execfn ∧
    ∀ w, USER_STACK_TOP ≤ w ∨ w < COMMIT → ubyte (ram s') D w = ubyte (ram s) D w.
Proof.
  intros HD Hb Hneed E0. unfold stack_need in Hneed.
  assert (Hpos : 0 ≤ strs_size argv ∧ 0 ≤ strs_size envp ∧ 0 < str_size execfn)
    by (unfold strs_size, str_size; lia).
  destruct (write_down P F T D HD s USER_STACK_TOP 16 random_bytes vm Hb) as (s1 & E1 & Hp1 & Hh1); [done|lia|].
  destruct (push_string_spec P F T D HD s1 (USER_STACK_TOP - 16) execfn vm) as (s2 & E2 & Hp2 & Hh2);
    [apply Hp1|lia|].
  set (x := USER_STACK_TOP - 16 - str_size execfn) in *.
  destruct (push_strings_spec P F T D argv s2 x vm HD) as (s3 & av & E3 & Hp3 & Hs3); [apply Hp2|lia|].
  destruct (push_strings_spec P F T D envp s3 (x - strs_size argv) vm HD) as (s4 & ev & E4 & Hp4 & Hs4);
    [apply Hp3|lia|].
  set (c := x - strs_size argv - strs_size envp) in *. pose proof (Z.mod_pos_bound c 16 ltac:(lia)).
  pose proof (Forall2_length _ _ _ Hs3) as L3. pose proof (Forall2_length _ _ _ Hs4) as L4.
  assert (Hp5 : pushed P F T D s4 c s4 (c - c mod 16)) by (apply pushed_lower; [apply Hp4|lia]).
  destruct (push_words_spec P F T D HD vm (word_pushes loaded av ev x (USER_STACK_TOP - 16)) s4 (c - c mod 16))
    as (s5 & E5 & Hp6 & Hw); [apply Hp5|rewrite length_word_pushes; lia|].
  pose proof (pushed_trans _ _ _ _ _ _ _ _ _ _ Hp5 Hp6) as Hp56.
  pose proof (pushed_trans _ _ _ _ _ _ _ _ _ _ Hp4 Hp56) as Hp456.
  pose proof (pushed_trans _ _ _ _ _ _ _ _ _ _ Hp3 Hp456) as Hp3456.
  pose proof (pushed_trans _ _ _ _ _ _ _ _ _ _ Hp2 Hp3456) as Hp23456.
  pose proof (pushed_trans _ _ _ _ _ _ _ _ _ _ Hp1 Hp23456) as Hall.
  eexists _, s5. split_and!; [|exact (pu_ext _ _ _ _ _ _ _ _ Hall)| |exact (pu_above _ _ _ _ _ _ _ _ Hall)].
  - unfold build_user_stack. rewrite (op_bind_ok _ _ _ _ _ E0). unfold check at 1.
    rewrite u64_sub_ok by lia. erewrite op_bind_ok by reflexivity.
    rewrite (op_bind_ok _ _ _ _ _ E1), (op_bind_ok _ _ _ _ _ E2), (op_bind_ok _ _ _ _ _ E3).
    rewrite (op_bind_ok _ _ _ _ _ E4), !rev_involutive, align16, L3 by lia.
    exact (eq_trans (push_words_all _ loaded av ev x _ _ _) E5).
  - split.
    + exists av, ev, x, (USER_STACK_TOP - 16). split_and!.
      * eapply strings_kept; [exact Hp456| | |exact Hs3]; lia.
      * eapply strings_kept; [exact Hp56| | |exact Hs4]; unfold c; lia.
      * eapply holds_pushed; [exact Hp3456|lia|done].
      * eapply holds_pushed; [exact Hp23456|lia|done].
      * rewrite word_pushes_rev. eapply words_up; [apply Hp6|done].
    + rewrite length_word_pushes. lia.
    + rewrite length_word_pushes, <- Z.add_assoc, rsp_align. by rewrite L3, L4.
Qed.

Lemma build_user_stack_spec P loaded argv envp execfn s F T D vm :
  uspace inv s F P T D → 64 ≤ size F → stack_need argv envp execfn ≤ 0x10000 →
  ∃ rsp s' F' T' D',
    build_user_stack {| pml4_phys := P |} loaded argv envp execfn (s, vm) =
      Ret (Ok rsp, (s', add_vma vm USER_STACK_BOTTOM USER_STACK_TOP STACK_VMA_FLAGS)) ∧
    extends inv P s F T D s' F' T' D' ∧ committed D' ∧
    (∀ i, ¬ (page COMMIT ≤ i < page USER_STACK_TOP) → D' !! i = D !! i) ∧
    (∀ w, ¬ (page COMMIT ≤ page w < page USER_STACK_TOP) → ubyte (ram s') D' w = ubyte (ram s) D w) ∧
    initial_stack s' D' rsp loaded argv envp execfn.
Proof.
  intros HU Hsz Hneed.
  destruct (map_user_stack_spec P s F T D vm HU Hsz) as (s1 & F1 & T1 & D1 & E1 & HX1 & Hps).
  destruct (built_start P s1 F1 T1 D1 (ram s) D (ex_space _ _ _ _ _ _ _ _ _ _ HX1) Hps) as [HD Hb].
  destruct (build_strings_spec P F1 T1 D1 loaded argv envp execfn s1 _ (s, vm) HD Hb Hneed E1)
    as (rsp & s' & E & HX & Hst & Hab).
  exists rsp, s', F1, T1, D1. split_and!; [exact E|by eapply extends_trans|done|apply Hps| |done].
  intros w Hw. rewrite Hab by (clear -Hw; dlia). rewrite (ps_byte _ _ _ _ _ _ _ _ Hps).
  by rewrite decide_False.
Qed.
End Specs.

(** ** Main theorem *)

(** C21: with 64 free frames and strings that fit in the committed 64 KiB, the
    builder maps the stack read-write and non-executable and lays it out as the
    System V ABI says: upwards from the stack pointer the argument count, the
    argument and environment pointers, each array ended by a null word, and the
    auxiliary vector, all pointing to zero-terminated copies of the strings. The
    stack pointer is 16-byte aligned only when the number of arguments and
    environment strings is odd. *)
Theorem build_user_stack_correct co P loaded argv envp execfn s F T D vm :
  uspace (pmm_inv co) s F P T D → 64 ≤ size F → stack_need argv envp execfn ≤ 0x10000 →
  ∃ rsp s' F' T' D',
    build_user_stack {| pml4_phys := P |} loaded argv envp execfn (s, vm) =
      Ret (Ok rsp, (s', add_vma vm USER_STACK_BOTTOM USER_STACK_TOP STACK_VMA_FLAGS)) ∧
    uspace (pmm_inv co) s' F' P T' D' ∧ committed D' ∧
    (∀ i, ¬ (page 0x7FFFFFFE0000 ≤ i < page USER_STACK_TOP) → D' !! i = D !! i) ∧
    (∀ w, ¬ (page 0x7FFFFFFE0000 ≤ page w < page USER_STACK_TOP) → ubyte (ram s') D' w = ubyte (ram s) D w) ∧
    initial_stack s' D' rsp loaded argv envp execfn.
Proof.
  intros HU Hsz Hneed.
  destruct (build_user_stack_spec (pmm_inv co) P loaded argv envp execfn s F T D vm HU Hsz Hneed)
    as (rsp & s' & F' & T' & D' & E & HX & H1 & H2 & H3 & H4).
  exists rsp, s', F', T', D'. split_and!; [exact E|apply HX|done..].
Qed.
End Stack.

(** ** Witness *)
Section Demo.
#[local] Existing Instance qemu_hhdm.

Definition demo_loaded : LoadedElf := {|
  loaded_entry := 0x400078; loaded_brk := 0x401000; phdr_vaddr := 0x400040; phnum := 1; phent := 56;
  load_base := 0x400000; interp_path := None |}.

(** [hello world] with one environment string. *)
Lemma build_user_stack_correct_witness :
  ∃ rsp s' F' T' D',
    build_user_stack {| pml4_phys := demo_P |} demo_loaded
      [[104; 101; 108; 108; 111]; [119; 111; 114; 108; 100]] [[65; 61; 49]] [47; 104; 105] (demo_s, VmSpace_new) =
      Ret (Ok rsp, (s', add_vma VmSpace_new USER_STACK_BOTTOM USER_STACK_TOP STACK_VMA_FLAGS)) ∧
    uspace (pmm_inv true) s' F' demo_P T' D' ∧ committed D' ∧
    (∀ i, ¬ (page 0x7FFFFFFE0000 ≤ i < page USER_STACK_TOP) → D' !! i = (∅ : gmap Z (Z * Z)) !! i) ∧
    (∀ w, ¬ (page 0x7FFFFFFE0000 ≤ page w < page USER_STACK_TOP) → ubyte (ram s') D' w = ubyte (ram demo_s) ∅ w) ∧
    initial_stack s' D' rsp demo_loaded
      [[104; 101; 108; 108; 111]; [119; 111; 114; 108; 100]] [[65; 61; 49]] [47; 104; 105].
Proof.
  apply (build_user_stack_correct true demo_P demo_loaded
    [[104; 101; 108; 108; 111]; [119; 111; 114; 108; 100]] [[65; 61; 49]] [47; 104; 105]
    demo_s demo_F {[ [] := demo_P ]} ∅ VmSpace_new).
  - exact demo_uspace.
  - pose proof demo_F_size. lia.
  - by vm_compute.
Defined.
End Demo.
