(* ===== verification/StackBuilder.v ===== *)
(** [StackBuilder] of [src/src/proc/stack.rs], the older builder of user stacks,
    which nothing in the kernel calls. It takes one frame for a stack of 8 MiB
    and writes above it, and its [align] moves the stack pointer by the
    complement of what is missing. *)
From S2P Require Import Prelude Machine Pmm Vmm Vma UserMem Effects Elf UserStack.

Record StackBuilder := { kernel_ptr : Z; user_ptr : Z; size_ : Z; phys_base : Z }.

Section Builder.
Context {hh : Hhdm}.
Implicit Types (s : mm) (b : StackBuilder) (m : mem).

Definition alloc_stack_frames (_ : Z) s : exec (option Z * mm) := alloc_zeroed_frame s.

Definition StackBuilder_new s : exec (option StackBuilder * mm) :=
  let size := USER_STACK_SIZE in
  '(r, s) ← alloc_zeroed_frame s;
  match r with
  | None => Ret (None, s)
  | Some _ =>
      '(r, s) ← alloc_stack_frames size s;
      match r with
      | None => Ret (None, s)
      | Some p =>
          kernel_base ← phys_to_virt p;
          kp ← u64_add kernel_base size;
          Ret (Some {| kernel_ptr := kp; user_ptr := USER_STACK_TOP; size_ := size; phys_base := p |}, s)
      end
  end.

(** Both pointers go down together. *)
Definition down b (n : Z) : exec StackBuilder :=
  kp ← u64_sub (kernel_ptr b) n;
  up ← u64_sub (user_ptr b) n;
  Ret {| kernel_ptr := kp; user_ptr := up; size_ := size_ b; phys_base := phys_base b |}.

Definition push_bytes b m (bytes : list Z) : exec (Z * StackBuilder * mem) :=
  b ← down b (length bytes);
  Ret (user_ptr b, b, store_bytes m (kernel_ptr b) bytes).

Definition push_str b m (str : list Z) : exec (Z * StackBuilder * mem) :=
  '(_, b, m) ← push_bytes b m [0];
  push_bytes b m str.

Definition align b (a : Z) : exec StackBuilder :=
  let misalign := user_ptr b mod a in
  if negb (misalign =? 0) then down b (a - misalign) else Ret b.

Definition push_u64 b m (val : Z) : exec (Z * StackBuilder * mem) :=
  b ← down b 8;
  Ret (user_ptr b, b, store64 m (kernel_ptr b) val).

(** A push stores its bytes just below the old pointers, and returns their user
    address. *)
Lemma push_bytes_spec b m bytes : length bytes ≤ kernel_ptr b → length bytes ≤ user_ptr b →
  push_bytes b m bytes = Ret (user_ptr b - length bytes,
    {| kernel_ptr := kernel_ptr b - length bytes; user_ptr := user_ptr b - length bytes; size_ := size_ b; phys_base := phys_base b |},
    store_bytes m (kernel_ptr b - length bytes) bytes).
Proof. intros. unfold push_bytes, down. rewrite !u64_sub_ok by done. done. Qed.

(** A string is stored with its terminating zero after it. *)
Lemma push_str_spec b m str : length str + 1 ≤ kernel_ptr b → length str + 1 ≤ user_ptr b →
  ∃ b', push_str b m str = Ret (user_ptr b - 1 - length str, b', store_bytes (store_bytes m (kernel_ptr b - 1) [0]) (kernel_ptr b - 1 - length str) str) ∧
    user_ptr b' = user_ptr b - 1 - length str ∧ kernel_ptr b' = kernel_ptr b - 1 - length str.
Proof.
  intros Hk Hu. unfold push_str. rewrite push_bytes_spec by (cbn; lia). exec_simpl.
  rewrite push_bytes_spec by (cbn; lia). by eexists.
Qed.

(** The builder owns one frame; a push writes none of it until almost 8 MiB have
    been pushed. *)
Lemma builder_writes_outside co s F b s' n m bytes x : pmm_inv co s F → StackBuilder_new s = Ret (Some b, s') →
  0 ≤ n → n + length bytes ≤ USER_STACK_SIZE - PAGE_SIZE →
  vframe x = phys_base b / PAGE_SIZE → store_bytes m (kernel_ptr b - n - length bytes) bytes x = m x.
Proof.
  intros HI E Hn Hl Hx. unfold StackBuilder_new in E.
  destruct (fa_alloc (inv := pmm_inv co) s F HI) as (r & s1 & E1 & H1). rewrite E1 in E. exec_simpl_in E. destruct r as [p1|]; [|done].
  destruct H1 as (_ & _ & HI1 & _). unfold alloc_stack_frames in E.
  destruct (fa_alloc (inv := pmm_inv co) s1 _ HI1) as (r & s2 & E2 & H2). rewrite E2 in E. exec_simpl_in E. destruct r as [p|]; [|done].
  destruct H2 as ([Hp Ha] & _). pose proof hhdm_bound. rewrite phys_to_virt_ok in E by lia. exec_simpl_in E.
  unfold u64_add in E. destruct (_ <? U64); [|done]. exec_simpl_in E. injection E as <- _. cbn [kernel_ptr phys_base] in *.
  unfold store_bytes. rewrite (proj2 (Z.leb_gt _ _)); [done|]. unfold vframe in Hx. dlia.
Qed.

(** [align] is exact only when twice the misalignment is a multiple of the
    alignment. *)
Lemma align_spec b a : 0 < a → a ≤ kernel_ptr b → a ≤ user_ptr b →
  ∃ b', align b a = Ret b' ∧ user_ptr b' mod a = (2 * (user_ptr b mod a)) mod a.
Proof.
  intros Ha Hk Hu. unfold align. pose proof (Z.mod_pos_bound (user_ptr b) a Ha). destruct (Z.eqb_spec (user_ptr b mod a) 0) as [E|E]; cbn [negb].
  - exists b. split; [done|]. by rewrite E.
  - unfold down. rewrite !u64_sub_ok by lia. eexists. split; [reflexivity|]. cbn [user_ptr].
    rewrite (Z.div_mod (user_ptr b) a) at 1 by lia.
    replace (a * (user_ptr b / a) + user_ptr b mod a - (a - user_ptr b mod a)) with (2 * (user_ptr b mod a) + (user_ptr b / a - 1) * a) by lia.
    by rewrite Z.mod_add by lia.
Qed.

Example align_misaligns : ∃ b', align {| kernel_ptr := 0x100000; user_ptr := 0x7FFFFFFEFFFC; size_ := USER_STACK_SIZE; phys_base := 0 |} 16 = Ret b' ∧
  user_ptr b' mod 16 = 8.
Proof. eexists. split; [reflexivity|]. reflexivity. Qed.
End Builder.
