(* ===== verification/Clone.v ===== *)
(** Copy-on-write cloning of an address space ([src/src/proc/fork.rs], lines
    13-188): the page tables of the child, the write protection of the parent
    and the copied areas. *)
From S2P Require Import Prelude Machine Pmm Vmm Vma.

Section Clone.
Context {hh : Hhdm}.
Implicit Types (s : mm) (m : mem) (e : Z).

(** [e & !PTE_WRITABLE] and [e & !PTE_ADDR_MASK] *)
Definition clear_writable e : Z := Z.land e (u64_not PTE_WRITABLE).
Definition entry_flags e : Z := Z.land e (u64_not PTE_ADDR_MASK).

(** ** The tables of the child *)
Definition clone_pt s (parent_entry : Z) : exec (option Z * mm) :=
  parent_pt ← phys_to_virt (Z.land parent_entry PTE_ADDR_MASK);
  '(r, s) ← alloc_zeroed_frame s;
  match r with
  | None => Ret (None, s)
  | Some child_phys =>
      child_pt ← phys_to_virt child_phys;
      s ← for_each (seqZ 0 512) (λ i s,
        b ← is_present (ram s) parent_pt i;
        if b : bool then
          pte ← get_entry (ram s) parent_pt i;
          set_entry s child_pt i (if has pte PTE_USER then clear_writable pte else pte)
        else Ret s) s;
      Ret (Some (Z.lor child_phys (entry_flags parent_entry)), s)
  end.

(** The loop that [clone_pd], [clone_pdpt] and [clone_address_space] share:
    clone every present entry of [parent] into [child]. *)
Definition clone_entries (n : Z) (clone : mm → Z → exec (option Z * mm)) (parent child : Z) s
    : exec (option unit * mm) :=
  for_try (seqZ 0 n) (λ i s,
    b ← is_present (ram s) parent i;
    if b : bool then
      e ← get_entry (ram s) parent i;
      '(r, s) ← clone s e;
      match r with
      | None => Ret (None, s)
      | Some phys => s ← set_entry s child i phys; Ret (Some (), s)
      end
    else Ret (Some (), s)) s.

Definition clone_pd s (parent_entry : Z) : exec (option Z * mm) :=
  if has parent_entry PTE_LARGE then Ret (Some (clear_writable parent_entry), s)
  else
    parent_pd ← phys_to_virt (Z.land parent_entry PTE_ADDR_MASK);
    '(r, s) ← alloc_zeroed_frame s;
    match r with
    | None => Ret (None, s)
    | Some child_phys =>
        child_pd ← phys_to_virt child_phys;
        '(r, s) ← clone_entries 512 clone_pt parent_pd child_pd s;
        match r with
        | None => Ret (None, s)
        | Some () => Ret (Some (Z.lor child_phys (entry_flags parent_entry)), s)
        end
    end.

Definition clone_pdpt s (parent_entry : Z) : exec (option Z * mm) :=
  parent_pdpt ← phys_to_virt (Z.land parent_entry PTE_ADDR_MASK);
  '(r, s) ← alloc_zeroed_frame s;
  match r with
  | None => Ret (None, s)
  | Some child_phys =>
      child_pdpt ← phys_to_virt child_phys;
      '(r, s) ← clone_entries 512 clone_pd parent_pdpt child_pdpt s;
      match r with
      | None => Ret (None, s)
      | Some () => Ret (Some (Z.lor child_phys (entry_flags parent_entry)), s)
      end
  end.

(** ** Write-protecting the parent *)
Definition make_cow_pt s (pt_phys : Z) : exec mm :=
  pt ← phys_to_virt pt_phys;
  for_each (seqZ 0 512) (λ i s,
    b ← is_present (ram s) pt i;
    if b : bool then
      e ← get_entry (ram s) pt i;
      if has e PTE_USER then set_entry s pt i (clear_writable e) else Ret s
    else Ret s) s.

Definition make_cow_pd s (pd_phys : Z) : exec mm :=
  pd ← phys_to_virt pd_phys;
  for_each (seqZ 0 512) (λ i s,
    b ← is_present (ram s) pd i;
    if b : bool then
      e ← get_entry (ram s) pd i;
      if has e PTE_LARGE then set_entry s pd i (clear_writable e)
      else make_cow_pt s (Z.land e PTE_ADDR_MASK)
    else Ret s) s.

Definition make_cow_pdpt s (pdpt_phys : Z) : exec mm :=
  pdpt ← phys_to_virt pdpt_phys;
  for_each (seqZ 0 512) (λ i s,
    b ← is_present (ram s) pdpt i;
    if b : bool then
      e ← get_entry (ram s) pdpt i;
      make_cow_pd s (Z.land e PTE_ADDR_MASK)
    else Ret s) s.

Definition make_cow_pml4 s (pml4_phys : Z) : exec mm :=
  pml4 ← phys_to_virt pml4_phys;
  for_each (seqZ 0 256) (λ i s,
    b ← is_present (ram s) pml4 i;
    if b : bool then
      e ← get_entry (ram s) pml4 i;
      make_cow_pdpt s (Z.land e PTE_ADDR_MASK)
    else Ret s) s.

(** ** The areas of the child *)
Definition clone_vma (vma : VmaEntry) : VmaEntry := {|
  start := start vma; end_ := end_ vma;
  vma_flags :=
    if flags_contain (vma_flags vma) VMA_WRITE && flags_contain (vma_flags vma) VMA_ANONYMOUS
    then Z.lor (vma_flags vma) VMA_COPY_ON_WRITE else vma_flags vma |}.

Definition clone_vmspace (parent : VmSpace) : VmSpace :=
  {| areas := clone_vma <$> areas parent; brk := brk parent |}.

Definition clone_address_space s (parent_space : AddressSpace) (parent_vm : VmSpace)
    : exec (option (AddressSpace * VmSpace) * mm) :=
  '(r, s) ← alloc_zeroed_frame s;
  match r with
  | None => Ret (None, s)
  | Some child_pml4_phys =>
      parent_pml4 ← phys_to_virt (pml4_phys parent_space);
      child_pml4 ← phys_to_virt child_pml4_phys;
      '(r, s) ← clone_entries 256 clone_pdpt parent_pml4 child_pml4 s;
      match r with
      | None => Ret (None, s)
      | Some () =>
          s ← for_each (seqZ 256 256) (λ i s,
            e ← get_entry (ram s) parent_pml4 i;
            set_entry s child_pml4 i e) s;
          s ← make_cow_pml4 s (pml4_phys parent_space);
          Ret (Some ({| pml4_phys := child_pml4_phys |}, clone_vmspace parent_vm), s)
      end
  end.


(** ** What a clone looks like *)
Definition cow_pte e : Z := if has e PTE_USER then clear_writable e else e.

Lemma u64_not_land_u64 e x : is_u64 e → is_u64 (Z.land e (u64_not x)).
Proof. apply land_u64. Qed.

(** [!mask] keeps the bits outside [mask]. *)
Lemma land_not_ldiff e mask :
  is_u64 e → is_u64 mask → Z.land e (u64_not mask) = Z.ldiff e mask.
Proof.
  intros He Hm. assert (Hn : u64_not mask = Z.ldiff (Z.ones 64) mask).
  { unfold u64_not. rewrite <- Z.sub_nocarry_ldiff; [done|].
    apply Z.bits_inj'. intros i Hi. rewrite Z.ldiff_spec, Z.bits_0.
    rewrite (u64_land_ones mask Hm), Z.land_spec. by destruct (Z.testbit mask i), (Z.testbit (Z.ones 64) i). }
  rewrite Hn, !Z.ldiff_land, Z.land_assoc. by rewrite <- (u64_land_ones e He).
Qed.

Lemma has_clear e mask bit :
  is_u64 e → is_u64 mask → Z.land mask bit = 0 → has (Z.land e (u64_not mask)) bit = has e bit.
Proof.
  intros He Hm Hb. rewrite land_not_ldiff by done. unfold has. do 2 f_equal.
  apply Z.bits_inj'. intros i Hi. rewrite !Z.land_spec, Z.ldiff_spec.
  assert (Hi0 : Z.testbit (Z.land mask bit) i = false) by (by rewrite Hb, Z.bits_0).
  rewrite Z.land_spec in Hi0. by destruct (Z.testbit e i), (Z.testbit mask i), (Z.testbit bit i).
Qed.

Lemma mask_clear_writable e : is_u64 e → Z.land (clear_writable e) PTE_ADDR_MASK = Z.land e PTE_ADDR_MASK.
Proof.
  intros He. unfold clear_writable. rewrite <- !Z.land_assoc. f_equal.
Qed.

Lemma mask_entry_flags q e : node_ok q → is_u64 e → Z.land (Z.lor q (entry_flags e)) PTE_ADDR_MASK = q.
Proof.
  intros Hq He. rewrite Z.land_lor_distr_l, mask_node by done. unfold entry_flags.
  rewrite <- Z.land_assoc. change (Z.land (u64_not PTE_ADDR_MASK) PTE_ADDR_MASK) with 0.
  by rewrite Z.land_0_r, Z.lor_0_r.
Qed.

Lemma node_has q bit : node_ok q → Z.land PTE_ADDR_MASK bit = 0 → has q bit = false.
Proof. intros Hq Hb. rewrite <- (mask_node q Hq). by apply has_mask. Qed.

Lemma entry_flags_has q e bit :
  node_ok q → is_u64 e → Z.land PTE_ADDR_MASK bit = 0 → has (Z.lor q (entry_flags e)) bit = has e bit.
Proof.
  intros Hq He Hb. rewrite has_lor, node_has by done. simpl. apply has_clear; [done| |done].
  unfold is_u64. lia.
Qed.

Lemma cow_pte_present e : is_u64 e → has (cow_pte e) PTE_PRESENT = has e PTE_PRESENT.
Proof. intros. unfold cow_pte. destruct (has e PTE_USER); [|done]. apply has_clear; [done|unfold is_u64; lia|done]. Qed.

Lemma cow_pte_u64 e : is_u64 e → is_u64 (cow_pte e).
Proof. intros. unfold cow_pte, clear_writable. destruct (has e PTE_USER); auto with saros. Qed.

Section Spec.
Context (inv : mm → gset Z → Prop) {FA : FrameAllocator inv}.
Implicit Types (T C : gmap (list Z) Z) (a c : list Z) (F G : gset Z) (B : list Z → Prop).
Context (m0 : mem) (P : Z) (T : gmap (list Z) Z) (HT : tree m0 P T).

(** The user half of the parent has no 2 MiB pages. *)
Context (Hnl : ∀ a p i, T !! a = Some p → length a = 2%nat → slot a i →
  has (entry m0 (table_at p) i) PTE_LARGE = false).

(** The entry that the clone [C] has where the parent's table at [c] has [e]. *)
Definition clone_entry C c (i e : Z) : Z :=
  if has e PTE_PRESENT then
    if decide (length c = 3%nat) then cow_pte e
    else match C !! (i :: c) with Some q => Z.lor q (entry_flags e) | None => 0 end
  else 0.

(** The step from [s] to [s'] took the tables [C] from the free frames [F], for
    paths in [B], and wrote only to them and to the frames [G]. *)
Record used B G s F s' F' C : Prop := {
  us_inv : inv s' F';
  us_free : F' ∪ tables C = F;
  us_apart : F' ## tables C;
  us_mem : agree_outside (F ∪ G) (ram s) (ram s');
  us_dom : ∀ c q, C !! c = Some q → B c ∧ is_Some (T !! c) ∧ node_ok q;
  us_inj : ∀ c d q, C !! c = Some q → C !! d = Some q → c = d
}.

(** Every table of the parent in [B] has its copy. *)
Definition filled B s C : Prop := ∀ c p, B c → T !! c = Some p →
  ∃ q, C !! c = Some q ∧
    ∀ i, 0 ≤ i < 512 → entry (ram s) (table_at q) i = clone_entry C c i (entry m0 (table_at p) i).

(** The frames ran out before every table had its copy. *)
Definition short B F C : Prop := F = ∅ ∧ ∃ c, B c ∧ is_Some (T !! c) ∧ C !! c = None.

Definition parent_ok s F : Prop := tables T ## F ∧ ∀ x, vframe x ∈ tables T → ram s x = m0 x.

(** Paths strictly below [a]. *)
Definition below a (xs : list Z) c : Prop := ∃ i, i ∈ xs ∧ (i :: a) `suffix_of` c.

Lemma tables_union C1 C2 : C1 ##ₘ C2 → tables (C1 ∪ C2) = tables C1 ∪ tables C2.
Proof.
  intros Hd. apply set_eq. intros f. rewrite elem_of_union, !elem_of_tables. split.
  - intros (c & q & [Hc|Hc]%lookup_union_Some & ->); eauto.
  - intros [(c & q & Hc & ->)|(c & q & Hc & ->)]; exists c, q; rewrite lookup_union_Some by done; auto.
Qed.

Lemma used_refl B G s F : inv s F → used B G s F s F ∅.
Proof.
  intros HI. assert (He : tables ∅ = ∅) by done.
  split; try done; rewrite He; [apply union_empty_r_L|apply disjoint_empty_r..].
Qed.

Lemma parent_ok_used B G s F s' F' C :
  parent_ok s F → used B G s F s' F' C → tables T ## G → parent_ok s' F'.
Proof.
  intros [Hd Hm] HU HG. split.
  - intros f Hf Hf'. apply (Hd f Hf). rewrite <- (us_free _ _ _ _ _ _ _ HU). by apply elem_of_union_l.
  - intros x Hx. rewrite (us_mem _ _ _ _ _ _ _ HU); [by apply Hm|].
    intros [Hx'|Hx']%elem_of_union; [exact (Hd _ Hx Hx')|exact (HG _ Hx Hx')].
Qed.

Lemma used_disj B1 B2 G1 G2 s F s1 F1 C1 s2 F2 C2 :
  used B1 G1 s F s1 F1 C1 → used B2 G2 s1 F1 s2 F2 C2 → (∀ c, B1 c → B2 c → False) → C1 ##ₘ C2.
Proof.
  intros H1 H2 HB. apply map_disjoint_spec. intros c q1 q2 Hq1 Hq2.
  apply (HB c); [by eapply (us_dom _ _ _ _ _ _ _ H1)|by eapply (us_dom _ _ _ _ _ _ _ H2)].
Qed.

Lemma used_union B1 B2 G s F s1 F1 C1 s2 F2 C2 :
  used B1 G s F s1 F1 C1 → used B2 G s1 F1 s2 F2 C2 → (∀ c, B1 c → B2 c → False) →
  used (λ c, B1 c ∨ B2 c) G s F s2 F2 (C1 ∪ C2).
Proof.
  intros H1 H2 HB. pose proof (used_disj _ _ _ _ _ _ _ _ _ _ _ _ H1 H2 HB) as Hd.
  destruct H1 as [I1 E1 A1 M1 D1 J1], H2 as [I2 E2 A2 M2 D2 J2].
  assert (Hx : ∀ c d q, C1 !! c = Some q → C2 !! d = Some q → False).
  { intros c d q Hc Hd'. apply (A1 (q / PAGE_SIZE)); [|apply elem_of_tables; eauto].
    rewrite <- E2. apply elem_of_union_r, elem_of_tables. eauto. }
  split; [done| | | | |].
  - rewrite tables_union, <- E1, <- E2 by done. clear. set_solver.
  - rewrite tables_union by done. clear -A1 A2 E2. set_solver.
  - refine (agree_outside_trans _ _ _ _ _ _ M1 M2). clear -E1. set_solver.
  - intros c q [Hc|Hc]%lookup_union_Some; [|..|done].
    + destruct (D1 c q Hc) as (? & ? & ?). auto.
    + destruct (D2 c q Hc) as (? & ? & ?). auto.
  - intros c d q [Hc|Hc]%lookup_union_Some [Hd'|Hd']%lookup_union_Some; try done;
      [by eapply J1|exfalso; eauto..|by eapply J2].
Qed.

(** Below the root, a present entry of a parent table leads to a table. *)
Lemma parent_child a p i :
  T !! a = Some p → (length a ≤ 2)%nat → slot a i → has (entry m0 (table_at p) i) PTE_PRESENT = true →
  T !! (i :: a) = Some (Z.land (entry m0 (table_at p) i) PTE_ADDR_MASK) ∧
  has (entry m0 (table_at p) i) PTE_LARGE = false.
Proof.
  intros Ha Hl Hs Hpr. destruct (tree_down _ _ _ HT a i p Ha Hl Hs) as [Hch Hwf].
  assert (Hlg : has (entry m0 (table_at p) i) PTE_LARGE = false).
  { destruct (has (entry m0 (table_at p) i) PTE_LARGE) eqn:E; [|done].
    destruct (Hwf E) as [Hd _]. by rewrite (Hnl a p i) in E. }
  unfold child_of in Hch. by rewrite Hpr, Hlg in Hch.
Qed.

(** A copy stays good while other frames change and the clone grows. *)
Lemma filled_mono B s1 s2 C1 C :
  filled B s1 C1 → C1 ⊆ C → (∀ c i, B c → B (i :: c)) → (∀ c, B c → c ≠ []) →
  (∀ c q, C1 !! c = Some q → node_ok q) →
  (∀ x, vframe x ∈ tables C1 → ram s2 x = ram s1 x) →
  filled B s2 C.
Proof.
  intros HF Hsub Hup Hnr Hn Hm c p HB Hp. destruct (HF c p HB Hp) as (q & Hq & He).
  exists q. split; [by eapply lookup_weaken|]. intros i Hi.
  rewrite (entry_ext (ram s1)); [|by eapply Hn|done|]; cycle 1.
  { intros x Hx. apply Hm. rewrite Hx. apply elem_of_tables. eauto. }
  rewrite He by done. unfold clone_entry.
  destruct (has (entry m0 (table_at p) i) PTE_PRESENT) eqn:Hpr; [|done].
  destruct (decide (length c = 3%nat)) as [|Hl3]; [done|].
  assert (Hs : slot c i).
  { unfold slot. destruct c; [by destruct (Hnr [] HB)|done]. }
  assert (Hl : (length c ≤ 2)%nat).
  { destruct c as [|x c]; [simpl; lia|]. apply (tree_up _ _ _ HT) in Hp as (Hl & _). simpl in *. lia. }
  destruct (parent_child c p i Hp Hl Hs Hpr) as [Hch _].
  destruct (HF (i :: c) _ (Hup c i HB) Hch) as (q' & Hq' & _).
  by rewrite Hq', (lookup_weaken _ _ _ _ Hq' Hsub).
Qed.

Lemma suffix_refl a : a `suffix_of` a.
Proof. by exists []. Qed.

Lemma suffix_cons_inj (i j : Z) a c : (i :: a) `suffix_of` c → (j :: a) `suffix_of` c → i = j.
Proof.
  intros [k1 ->] [k2 E]. change (i :: a) with ([i] ++ a) in E. change (j :: a) with ([j] ++ a) in E.
  rewrite !app_assoc in E. apply app_inv_tail, app_inj_tail in E. tauto.
Qed.

Lemma below_up a xs c i : below a xs c → below a xs (i :: c).
Proof. intros (j & Hj & k & ->). exists j. split; [done|]. by exists (i :: k). Qed.

Lemma below_nonroot a xs c : below a xs c → c ≠ [].
Proof. intros (j & _ & k & ->). by destruct k. Qed.

(** What cloning the subtree at [a] promises; [e] is the parent's entry for it. *)
Definition clones a (clone : mm → Z → exec (option Z * mm)) : Prop := ∀ p e s F,
  T !! a = Some p → Z.land e PTE_ADDR_MASK = p → has e PTE_LARGE = false →
  inv s F → parent_ok s F →
  ∃ r s' F' C, clone s e = Ret (r, s') ∧ used (suffix a) ∅ s F s' F' C ∧
    match r with
    | Some e' => filled (suffix a) s' C ∧ ∃ q, C !! a = Some q ∧ e' = Z.lor q (entry_flags e)
    | None => short (suffix a) F' C
    end.

(** The effect of a finished loop on the child's table [q]. *)
Definition loop_filled a p q (xs : list Z) s s' C : Prop := ∀ i, 0 ≤ i < 512 →
  entry (ram s') (table_at q) i =
    if decide (i ∈ xs ∧ has (entry m0 (table_at p) i) PTE_PRESENT = true)
    then clone_entry C a i (entry m0 (table_at p) i) else entry (ram s) (table_at q) i.

(** Storing the entry of a finished child. *)
Lemma used_store B s F s1 F1 C q i e :
  used B ∅ s F s1 F1 C → node_ok q → q / PAGE_SIZE ∉ F → 0 ≤ i < 512 →
  used B {[q / PAGE_SIZE]} s F (set_ram s1 (store64 (ram s1) (table_at q + 8 * i) e)) F1 C.
Proof.
  intros [I E A M D J] Hq HqF Hi. split; try done.
  - apply fa_frame; [done|]. intros x Hx. apply store_entry_outside; [done..|].
    intros Ex. apply HqF. rewrite <- E, <- Ex. by apply elem_of_union_l.
  - intros x Hx. apply not_elem_of_union in Hx as [Hx1 Hx2]. rewrite elem_of_singleton in Hx2.
    cbn [ram set_ram]. rewrite store_entry_outside by done. apply M. by rewrite union_empty_r_L.
Qed.

Lemma used_widen B B' G G' s F s' F' C :
  used B G s F s' F' C → (∀ c, B c → B' c) → G ⊆ G' → used B' G' s F s' F' C.
Proof.
  intros [I E A M D J] HB HG. split; try done.
  - eapply agree_outside_mono; [|exact M]. clear -HG. set_solver.
  - intros c q Hc. destruct (D c q Hc) as (? & ? & ?). auto.
Qed.

Lemma used_frame_outside B G s F s' F' C q :
  used B G s F s' F' C → q ∉ F → (q ∉ F') ∧ (q ∉ tables C).
Proof.
  intros HU Hq. rewrite <- (us_free _ _ _ _ _ _ _ HU) in Hq. by apply not_elem_of_union in Hq.
Qed.

Lemma suffix_none a c : T !! a = None → a `suffix_of` c → T !! c = None.
Proof.
  intros Ha [k ->]. induction k as [|i k IH]; [done|]. destruct (T !! ((i :: k) ++ a)) eqn:E; [|done].
  apply (tree_up _ _ _ HT) in E as (_ & _ & [q E]). exfalso.
  assert (Some q = None) by (rewrite <- E; exact IH). done.
Qed.

Lemma below_cons a x xs c : below a (x :: xs) c ↔ (x :: a) `suffix_of` c ∨ below a xs c.
Proof.
  unfold below. split.
  - intros (i & [->|Hi]%elem_of_cons & Hs); eauto.
  - intros [Hs|(i & Hi & Hs)]; [exists x|exists i]; rewrite elem_of_cons; auto.
Qed.

Lemma suffix_below a x xs c : x ∉ xs → (x :: a) `suffix_of` c → below a xs c → False.
Proof. intros Hx Hs (i & Hi & Hs'). by rewrite (suffix_cons_inj x i a c) in Hx. Qed.

(** Joining a finished child with the rest of the loop. *)
Lemma filled_join a x xs s1 s2 s3 F F1 F3 G C1 C2 :
  x ∉ xs → used (suffix (x :: a)) G s1 F s2 F1 C1 → used (below a xs) G s2 F1 s3 F3 C2 →
  tables C1 ## G → filled (suffix (x :: a)) s2 C1 → filled (below a xs) s3 C2 →
  filled (below a (x :: xs)) s3 (C1 ∪ C2).
Proof.
  intros Hx H1 H2 HG HF1 HF2 c p [HB|HB]%below_cons Hp.
  - eapply (filled_mono (suffix (x :: a)) s2 s3 C1); eauto.
    + apply map_union_subseteq_l.
    + intros c' i [k ->]. by exists (i :: k).
    + intros c' [k ->]. by destruct k.
    + intros c' q Hq. by apply (us_dom _ _ _ _ _ _ _ H1) in Hq as (_ & _ & ?).
    + intros y Hy. apply (us_mem _ _ _ _ _ _ _ H2). intros [Hy'|Hy']%elem_of_union.
      * exact (us_apart _ _ _ _ _ _ _ H1 _ Hy' Hy).
      * exact (HG _ Hy Hy').
  - eapply (filled_mono (below a xs) s3 s3 C2); eauto using below_up, below_nonroot.
    + apply map_union_subseteq_r. eapply used_disj; [exact H1|exact H2|]. intros c'. by apply suffix_below.
    + intros c' q Hq. by apply (us_dom _ _ _ _ _ _ _ H2) in Hq as (_ & _ & ?).
Qed.

Lemma parent_entry s F a p i :
  parent_ok s F → T !! a = Some p → 0 ≤ i < 512 →
  entry (ram s) (table_at p) i = entry m0 (table_at p) i.
Proof.
  intros [_ Hm] Ha Hi. apply entry_ext; [by eapply tree_node|done|].
  intros x Hx. apply Hm. rewrite Hx. apply elem_of_tables. eauto.
Qed.

Definition clone_body (clone : mm → Z → exec (option Z * mm)) (parent child i : Z) s
    : exec (option unit * mm) :=
  b ← is_present (ram s) parent i;
  if b : bool then
    e ← get_entry (ram s) parent i;
    '(r, s) ← clone s e;
    match r with
    | None => Ret (None, s)
    | Some phys => s ← set_entry s child i phys; Ret (Some (), s)
    end
  else Ret (Some (), s).

(** One round of the loop. *)
Lemma clone_body_spec a p q clone x s F :
  T !! a = Some p → (length a ≤ 2)%nat → slot a x → clones (x :: a) clone →
  node_ok q → q / PAGE_SIZE ∉ tables T → inv s F → parent_ok s F → q / PAGE_SIZE ∉ F →
  ∃ r s' F' C, clone_body clone (table_at p) (table_at q) x s = Ret (r, s') ∧
    used (suffix (x :: a)) {[q / PAGE_SIZE]} s F s' F' C ∧
    match r with
    | Some _ => filled (suffix (x :: a)) s' C ∧ loop_filled a p q [x] s s' C
    | None => short (suffix (x :: a)) F' C
    end.
Proof.
  intros Ha Hl Hs Hcl Hq HqT HI HP HqF. pose proof (slot_512 _ _ Hs) as Hi. unfold clone_body.
  rewrite is_present_ok, get_entry_ok, (parent_entry s F a p x) by (done || lia). exec_simpl.
  destruct (has (entry m0 (table_at p) x) PTE_PRESENT) eqn:Hpr; cycle 1.
  { eexists (Some _), s, F, ∅. split; [done|]. split; [by apply used_refl|]. split.
    - intros c p' Hc Hp'. destruct (tree_down _ _ _ HT a x p Ha Hl Hs) as [Hch _].
      unfold child_of in Hch. rewrite Hpr in Hch. by rewrite (suffix_none _ _ Hch Hc) in Hp'.
    - intros i Hi'. rewrite decide_False; [done|]. intros [->%list_elem_of_singleton ?]. congruence. }
  destruct (parent_child a p x Ha Hl Hs Hpr) as [Hch Hlg].
  destruct (Hcl _ (entry m0 (table_at p) x) s F Hch eq_refl Hlg HI HP) as (r & s1 & F1 & C & -> & HU & HR).
  exec_simpl. destruct r as [e'|]; cycle 1.
  { exists None, s1, F1, C. split; [done|]. split; [|done]. eapply used_widen; [exact HU|done|apply empty_subseteq]. }
  rewrite set_entry_ok by lia. exec_simpl. destruct HR as [HF (q1 & Hq1 & ->)].
  destruct (us_dom _ _ _ _ _ _ _ HU _ _ Hq1) as (_ & _ & Hn1).
  destruct (used_frame_outside _ _ _ _ _ _ _ _ HU HqF) as [HqF1 HqC].
  eexists (Some _), _, F1, C. split; [done|]. split; [by apply used_store|]. split.
  - eapply filled_mono; [exact HF|done| | | |].
    + intros c' i [k ->]. by exists (i :: k).
    + intros c' [k ->]. by destruct k.
    + intros c' q' Hq'. by apply (us_dom _ _ _ _ _ _ _ HU) in Hq' as (_ & _ & ?).
    + intros y Hy. cbn [ram set_ram]. apply store_entry_outside; [done..|]. intros E. by rewrite E in Hy.
  - intros i Hi'. cbn [ram set_ram]. destruct (decide (i = x)) as [->|Hne].
    + rewrite decide_True by (split; [by apply list_elem_of_singleton|done]).
      unfold clone_entry. rewrite Hpr, decide_False, Hq1 by lia. apply entry_store_eq.
      apply lor_u64; [destruct Hn1; unfold is_u64; lia|]. apply land_u64, entry_u64.
    + rewrite decide_False by (intros [?%list_elem_of_singleton _]; done).
      rewrite entry_store_ne by (done || congruence). apply entry_ext; [done..|].
      intros y Hy. apply (us_mem _ _ _ _ _ _ _ HU). by rewrite union_empty_r_L, Hy.
Qed.

Lemma clone_loop_spec a p q clone xs :
  T !! a = Some p → (length a ≤ 2)%nat → NoDup xs → (∀ x, x ∈ xs → slot a x ∧ clones (x :: a) clone) →
  node_ok q → q / PAGE_SIZE ∉ tables T → ∀ s F, inv s F → parent_ok s F → q / PAGE_SIZE ∉ F →
  ∃ r s' F' C, for_try xs (clone_body clone (table_at p) (table_at q)) s = Ret (r, s') ∧
    used (below a xs) {[q / PAGE_SIZE]} s F s' F' C ∧
    match r with
    | Some _ => filled (below a xs) s' C ∧ loop_filled a p q xs s s' C
    | None => short (below a xs) F' C
    end.
Proof.
  intros Ha Hl Hnd Hxs Hq HqT. induction xs as [|x xs IH]; intros s F HI HP HqF; cbn [for_try].
  { eexists (Some _), s, F, ∅. split; [done|]. split; [by apply used_refl|]. split.
    - intros c p' (i & Hi & _). by apply elem_of_nil in Hi.
    - intros i Hi. rewrite decide_False; [done|]. intros [Hi' _]. by apply elem_of_nil in Hi'. }
  apply NoDup_cons in Hnd as [Hx Hnd].
  destruct (Hxs x (list_elem_of_here _ _)) as [Hs Hcl].
  destruct (clone_body_spec a p q clone x s F) as (r & s1 & F1 & C1 & E & HU1 & HR1); auto.
  rewrite E. exec_simpl. clear E. destruct r as [[]|]; cycle 1.
  { exists None, s1, F1, C1. split; [done|]. split.
    - eapply used_widen; [exact HU1| |done]. intros c Hc. apply below_cons. by left.
    - destruct HR1 as [-> (c & Hc & ? & ?)]. split; [done|]. exists c. split; [apply below_cons; by left|done]. }
  destruct HR1 as [HF1 HL1]. destruct (used_frame_outside _ _ _ _ _ _ _ _ HU1 HqF) as [HqF1 HqC1].
  assert (HTq : tables T ## {[q / PAGE_SIZE]}).
  { intros f Hf Hf'. apply elem_of_singleton in Hf'. by subst f. }
  destruct (IH Hnd) with (s := s1) (F := F1) as (r & s2 & F2 & C2 & E & HU2 & HR2); auto.
  { intros y Hy. apply Hxs. by right. }
  { apply HU1. }
  { by eapply parent_ok_used. }
  rewrite E. clear E IH. assert (Hdisj : ∀ c, (x :: a) `suffix_of` c → below a xs c → False).
  { intros c. by apply suffix_below. }
  exists r, s2, F2, (C1 ∪ C2). split; [done|]. split.
  { eapply used_widen; [exact (used_union _ _ _ _ _ _ _ _ _ _ _ HU1 HU2 Hdisj)| |done].
    intros c. by rewrite below_cons. }
  assert (HC1 : ∀ c, below a xs c → C1 !! c = None).
  { intros c Hc. destruct (C1 !! c) as [q'|] eqn:E; [|done].
    apply (us_dom _ _ _ _ _ _ _ HU1) in E as (E & _). by destruct (Hdisj c). }
  destruct r as [[]|]; cycle 1.
  { destruct HR2 as [-> (c & Hc & ? & ?)]. split; [done|]. exists c.
    split_and!; [apply below_cons; by right|done|]. by rewrite lookup_union_r by auto. }
  destruct HR2 as [HF2 HL2]. split.
  { eapply filled_join; eauto. intros f Hf Hf'. apply elem_of_singleton in Hf'. by subst f. }
  intros i Hi. rewrite HL2 by done. destruct (decide (i = x)) as [->|Hne].
  - rewrite decide_False by tauto. rewrite HL1 by done.
    destruct (decide (x ∈ [x] ∧ _)) as [[_ Hpr]|Hno].
    + rewrite decide_True by (split; [apply list_elem_of_here|done]).
      destruct (parent_child a p x Ha Hl Hs Hpr) as [Hch _].
      destruct (HF1 (x :: a) _ (suffix_refl _) Hch) as (q1 & Hq1 & _).
      unfold clone_entry. by rewrite (lookup_union_Some_l _ _ _ _ Hq1), Hq1.
    + rewrite decide_False; [done|]. intros [_ Hpr]. apply Hno. split; [apply list_elem_of_here|done].
  - destruct (decide (i ∈ xs ∧ _)) as [[Hin Hpr]|Hno].
    + rewrite decide_True by (split; [by apply list_elem_of_further|done]). unfold clone_entry.
      rewrite lookup_union_r; [done|]. apply HC1. exists i. split; [done|apply suffix_refl].
    + rewrite decide_False by (intros [[?|?]%elem_of_cons ?]; tauto).
      rewrite HL1 by done. rewrite decide_False; [done|]. intros [?%list_elem_of_singleton _]. done.
Qed.

Lemma below_longer a xs c : below a xs c → (length a < length c)%nat.
Proof. intros (i & _ & k & ->). rewrite length_app. simpl. lia. Qed.

Lemma below_suffix a xs c : below a xs c → a `suffix_of` c.
Proof. intros (i & _ & k & ->). exists (k ++ [i]). by rewrite <- app_assoc. Qed.

(** A fresh table [q] for path [a] together with the tables [C] below it. *)
Lemma used_alloc a xs s F q s1 s' F' C :
  is_Some (T !! a) → node_ok q → q / PAGE_SIZE ∈ F → agree_outside F (ram s) (ram s1) →
  used (below a xs) {[q / PAGE_SIZE]} s1 (F ∖ {[q / PAGE_SIZE]}) s' F' C →
  C !! a = None ∧ used (suffix a) ∅ s F s' F' (<[a := q]> C).
Proof.
  intros Ha Hq HqF Hm [I E A M D J].
  assert (HCa : C !! a = None).
  { destruct (C !! a) as [q'|] eqn:Eq; [|done]. apply D in Eq as (Hb & _). apply below_longer in Hb. lia. }
  assert (HqC : q / PAGE_SIZE ∉ F' ∪ tables C) by (rewrite E; clear; set_solver).
  apply not_elem_of_union in HqC as [HqF' HqC]. split; [done|]. split; [done|..].
  - rewrite tables_insert by done. apply set_eq. intros f.
    rewrite !elem_of_union, elem_of_singleton. pose proof (f_equal (λ X, f ∈ X) E) as Ef. simpl in Ef.
    assert (Hf : f ∈ F' ∨ f ∈ tables C ↔ f ∈ F ∧ f ≠ q / PAGE_SIZE).
    { rewrite <- elem_of_union, E, elem_of_difference, elem_of_singleton. done. }
    destruct (decide (f = q / PAGE_SIZE)) as [->|]; tauto.
  - rewrite tables_insert by done. intros f Hf [->%elem_of_singleton|Hf']%elem_of_union; [done|].
    exact (A f Hf Hf').
  - rewrite union_empty_r_L. refine (agree_outside_trans _ _ _ _ _ _ Hm M).
    intros f [Hf|Hf]%elem_of_union; [by apply elem_of_difference in Hf as [? _]|].
    apply elem_of_singleton in Hf. by subst f.
  - intros c q' [[<- <-]|[_ Hc]]%lookup_insert_Some; [split_and!; [apply suffix_refl|done|done]|].
    apply D in Hc as (Hb & ? & ?). split_and!; [by eapply below_suffix|done|done].
  - assert (Hne : ∀ c, C !! c = Some q → False).
    { intros c Hc. apply HqC, elem_of_tables. eauto. }
    intros c d q' [[<- <-]|[_ Hc]]%lookup_insert_Some [[<- E']|[_ Hd]]%lookup_insert_Some; try done;
      [by destruct (Hne d)|by subst; destruct (Hne c)|by eapply J].
Qed.

(** Allocating a table and filling it with [loop] clones the subtree at [a]. *)
Lemma clone_table a p xs (loop : Z → mm → exec (option unit * mm)) (k : Z → Z) s F :
  T !! a = Some p → a ≠ [] → (∀ c, is_Some (T !! c) → a `suffix_of` c → c = a ∨ below a xs c) →
  (∀ q s F, node_ok q → q / PAGE_SIZE ∉ tables T → inv s F → parent_ok s F → q / PAGE_SIZE ∉ F →
    (∀ i, 0 ≤ i < 512 → entry (ram s) (table_at q) i = 0) →
    ∃ r s' F' C, loop (table_at q) s = Ret (r, s') ∧
      used (below a xs) {[q / PAGE_SIZE]} s F s' F' C ∧
      match r with
      | Some _ => filled (below a xs) s' C ∧
          ∀ i, 0 ≤ i < 512 → entry (ram s') (table_at q) i = clone_entry C a i (entry m0 (table_at p) i)
      | None => short (below a xs) F' C
      end) →
  inv s F → parent_ok s F →
  ∃ r s' F' C,
    ('(r, s) ← alloc_zeroed_frame s;
     match r with
     | None => Ret (None, s)
     | Some q =>
         child ← phys_to_virt q;
         '(r, s) ← loop child s;
         match r with
         | None => Ret (None, s)
         | Some () => Ret (Some (k q), s)
         end
     end) = Ret (r, s') ∧ used (suffix a) ∅ s F s' F' C ∧
    match r with
    | Some e' => filled (suffix a) s' C ∧ ∃ q, C !! a = Some q ∧ e' = k q
    | None => short (suffix a) F' C
    end.
Proof.
  intros Ha Hroot Hcov Hloop HI [HPd HPm]. destruct (fa_alloc s F HI) as (r & s1 & -> & HS). exec_simpl.
  destruct r as [q|]; cycle 1.
  { destruct HS as [-> ->]. exists None, s, ∅, ∅. split; [done|]. split; [by apply used_refl|].
    split; [done|]. exists a. split_and!; [apply suffix_refl|by rewrite Ha|done]. }
  destruct HS as (Hq & HqF & HI1 & Hz & Hm). rewrite table_virt by done. exec_simpl.
  assert (HqT : q / PAGE_SIZE ∉ tables T) by (intros E; exact (HPd _ E HqF)).
  destruct (Hloop q s1 (F ∖ {[q / PAGE_SIZE]})) as (r & s' & F' & C & -> & HU & HR); auto.
  { split; [intros f Hf Hf'; apply elem_of_difference in Hf' as [Hf' _]; exact (HPd _ Hf Hf')|].
    intros x Hx. rewrite Hm; [by apply HPm|]. intros Hf. exact (HPd _ Hx Hf). }
  { clear. set_solver. }
  { intros i Hi. rewrite (entry_ext (λ _, 0)); [by apply load64_zero|done|done|exact Hz]. }
  exec_simpl. destruct (used_alloc a xs s F q s1 s' F' C (ex_intro _ p Ha) Hq HqF Hm HU) as [HCa HU'].
  destruct r as [[]|].
  - destruct HR as [HF HE]. eexists (Some _), s', F', _. split; [done|]. split; [exact HU'|]. split.
    + intros c p' Hc Hp'. destruct (Hcov c) as [->|Hb]; [by rewrite Hp'|done|..].
      * exists q. rewrite lookup_insert_eq. split; [done|]. intros i Hi.
        assert (p' = p) as -> by congruence. rewrite HE by done. unfold clone_entry.
        rewrite lookup_insert_ne; [done|]. intros E. apply (f_equal length) in E. simpl in E. lia.
      * eapply (filled_mono (below a xs) s' s' C); eauto using below_up, below_nonroot.
        -- by apply insert_subseteq.
        -- intros c' q' Hq'. by apply (us_dom _ _ _ _ _ _ _ HU) in Hq' as (_ & _ & ?).
    + exists q. split; [apply lookup_insert_eq|done].
  - destruct HR as [-> (c & Hb & Hc & HCc)]. eexists None, s', ∅, _. split; [done|]. split; [exact HU'|].
    split; [done|]. exists c. split_and!; [by eapply below_suffix|done|].
    rewrite lookup_insert_ne; [done|]. intros <-. apply below_longer in Hb. lia.
Qed.

Lemma cover a n c :
  (∀ i, slot a i → 0 ≤ i < n) → is_Some (T !! c) → a `suffix_of` c → c = a ∨ below a (seqZ 0 n) c.
Proof.
  intros Hn [q Hc] [k ->]. destruct k as [|i k _] using rev_ind; [by left|]. right.
  rewrite <- app_assoc in *. simpl in *. exists i. split; [|by exists k].
  destruct (T !! (i :: a)) as [q'|] eqn:E.
  - apply (tree_up _ _ _ HT) in E as (_ & Hs & _). apply elem_of_seqZ. apply Hn in Hs. lia.
  - rewrite (suffix_none (i :: a)) in Hc; [done|done|by exists k].
Qed.

Lemma cover_leaf a c : length a = 3%nat → is_Some (T !! c) → a `suffix_of` c → c = a.
Proof.
  intros Hl [q Hc] [[|i k] ->]; [done|]. simpl in Hc.
  apply (tree_up _ _ _ HT) in Hc as (Hl' & _). rewrite length_app in Hl'. lia.
Qed.

Lemma parent_not_child s F a p q i :
  parent_ok s F → T !! a = Some p → q / PAGE_SIZE ∉ tables T → 0 ≤ i < 512 →
  ∀ m, agree_outside {[q / PAGE_SIZE]} (ram s) m → entry m (table_at p) i = entry m0 (table_at p) i.
Proof.
  intros HP Ha HqT Hi m Hm. rewrite <- (parent_entry s F a p i) by done.
  apply entry_ext; [by eapply tree_node|done|]. intros x Hx. apply Hm. rewrite Hx, elem_of_singleton.
  intros E. apply HqT. rewrite <- E. apply elem_of_tables. eauto.
Qed.

Lemma clones_pt a : length a = 3%nat → clones a clone_pt.
Proof.
  intros Hl p e s F Ha He _ HI HP. unfold clone_pt.
  rewrite He, table_virt by (by eapply tree_node). rewrite bind_Ret.
  set (body := λ child i s, b ← is_present (ram s) (table_at p) i;
        if b : bool then
          pte ← get_entry (ram s) (table_at p) i;
          set_entry s child i (if has pte PTE_USER then clear_writable pte else pte)
        else Ret s).
  destruct (clone_table a p [] (λ child s, s ← for_each (seqZ 0 512) (body child) s; Ret (Some (), s))
    (λ q, Z.lor q (entry_flags e)) s F) as (r & s' & F' & C & E & HU & HR); try done.
  { intros ->. done. }
  { intros c Hc Hs. left. by apply cover_leaf. }
  { clear s F HI HP. intros q s F Hq HqT HI HP HqF Hz.
    destruct (fill_loop inv q 0 512 512
      (λ i, if has (entry m0 (table_at p) i) PTE_PRESENT then Some (cow_pte (entry m0 (table_at p) i)) else None)
      (body (table_at q)) s F) as (s' & E & HI' & Hm & He'); try done; try lia.
    - intros i e' _ Hh. destruct (has _ PTE_PRESENT); [|done]. injection Hh as <-. apply cow_pte_u64, entry_u64.
    - intros i s1 Hi Hm1 _. unfold body. rewrite is_present_ok, get_entry_ok by lia. exec_simpl.
      rewrite (parent_not_child s F a p q i HP Ha HqT ltac:(lia) _ Hm1).
      by destruct (has (entry m0 (table_at p) i) PTE_PRESENT).
    - rewrite E. exec_simpl. eexists (Some _), s', F, ∅. split; [done|]. clear E. split; [|split].
      + split; try done; [apply union_empty_r_L|].
        eapply agree_outside_mono; [|exact Hm]. apply union_subseteq_r.
      + intros c p' (i & Hi & _). by apply elem_of_nil in Hi.
      + intros i Hi. rewrite He', decide_True, Hz by lia. unfold clone_entry.
        destruct (has _ PTE_PRESENT); [|done]. by rewrite decide_True. }
  exists r, s', F', C. split; [|done]. rewrite <- E. clear E.
  destruct (alloc_zeroed_frame s) as [[[q|] s1]| |]; try done. exec_simpl.
  destruct (phys_to_virt q) as [t| |]; try done. exec_simpl.
  by destruct (for_each _ _ _).
Qed.

Lemma loop_spec a p n clone q s F :
  T !! a = Some p → (length a ≤ 2)%nat → (∀ i, slot a i ↔ 0 ≤ i < n) →
  (∀ i, clones (i :: a) clone) →
  node_ok q → q / PAGE_SIZE ∉ tables T → inv s F → parent_ok s F → q / PAGE_SIZE ∉ F →
  (∀ i, 0 ≤ i < 512 → entry (ram s) (table_at q) i = 0) →
  ∃ r s' F' C, clone_entries n clone (table_at p) (table_at q) s = Ret (r, s') ∧
    used (below a (seqZ 0 n)) {[q / PAGE_SIZE]} s F s' F' C ∧
    match r with
    | Some _ => filled (below a (seqZ 0 n)) s' C ∧
        ∀ i, 0 ≤ i < 512 → entry (ram s') (table_at q) i =
          if decide (i < n) then clone_entry C a i (entry m0 (table_at p) i) else 0
    | None => short (below a (seqZ 0 n)) F' C
    end.
Proof.
  intros Ha Hl Hn Hcl Hq HqT HI HP HqF Hz.
  destruct (clone_loop_spec a p q clone (seqZ 0 n) Ha Hl) with (s := s) (F := F)
    as (r & s' & F' & C & E & HU & HR); auto.
  { apply NoDup_seqZ. }
  { intros x Hx%elem_of_seqZ. split; [apply Hn; lia|done]. }
  exists r, s', F', C. split; [exact E|]. split; [done|]. destruct r as [[]|]; [|done].
  destruct HR as [HF HL]. split; [done|]. intros i Hi. rewrite HL, Hz by done.
  destruct (decide (i < n)) as [Hin|Hout].
  - destruct (decide _) as [|Hno]; [done|]. unfold clone_entry.
    destruct (has _ PTE_PRESENT) eqn:Hpr; [|done]. destruct Hno. split; [apply elem_of_seqZ; lia|done].
  - rewrite decide_False; [done|]. intros [Hin%elem_of_seqZ _]. lia.
Qed.

Lemma clones_inner a clone op :
  a ≠ [] → (length a ≤ 2)%nat → (∀ i, clones (i :: a) clone) →
  (∀ s e p, has e PTE_LARGE = false → Z.land e PTE_ADDR_MASK = p → node_ok p →
    op s e =
      '(r, s) ← alloc_zeroed_frame s;
      match r with
      | None => Ret (None, s)
      | Some q =>
          child ← phys_to_virt q;
          '(r, s) ← clone_entries 512 clone (table_at p) child s;
          match r with
          | None => Ret (None, s)
          | Some () => Ret (Some (Z.lor q (entry_flags e)), s)
          end
      end) →
  clones a op.
Proof.
  intros Hroot Hl Hcl Hop p e s F Ha He Hlg HI HP.
  rewrite (Hop s e p) by (done || by eapply tree_node).
  assert (Hn : ∀ i, slot a i ↔ 0 ≤ i < 512) by (intros i; unfold slot; by destruct a).
  apply (clone_table a p (seqZ 0 512) (clone_entries 512 clone (table_at p)) (λ q, Z.lor q (entry_flags e)));
    try done.
  { intros c. apply cover. intros i. apply Hn. }
  clear s F HI HP. intros q s F Hq HqT HI HP HqF Hz.
  destruct (loop_spec a p 512 clone q s F) as (r & s' & F' & C & E & HU & HR); auto.
  exists r, s', F', C. split; [exact E|]. split; [done|]. destruct r as [[]|]; [|done].
  destruct HR as [HF HE]. split; [done|]. intros i Hi. by rewrite HE, decide_True by lia.
Qed.

Lemma clones_pd a : length a = 2%nat → clones a clone_pd.
Proof.
  intros Hl. apply (clones_inner a clone_pt); [by intros ->|lia|intros i; apply clones_pt; simpl; lia|].
  intros s e p Hlg <- Hp. unfold clone_pd. by rewrite Hlg, table_virt.
Qed.

Lemma clones_pdpt a : length a = 1%nat → clones a clone_pdpt.
Proof.
  intros Hl. apply (clones_inner a clone_pd); [by intros ->|lia|intros i; apply clones_pd; simpl; lia|].
  intros s e p Hlg <- Hp. unfold clone_pdpt. by rewrite table_virt.
Qed.

(** ** Write-protecting the parent

    [cow_state D s]: the leaf entries whose path satisfies [D] are protected and
    every other entry is the one of [m0]. *)
Definition cow_entry e : Z := if has e PTE_PRESENT then cow_pte e else e.

Lemma has_clear_false e mask bit :
  is_u64 e → is_u64 mask → Z.land mask bit = bit → has (Z.land e (u64_not mask)) bit = false.
Proof.
  intros He Hm Hb. rewrite land_not_ldiff by done. unfold has. apply negb_false_iff, Z.eqb_eq.
  apply Z.bits_inj'. intros i Hi. rewrite !Z.land_spec, Z.ldiff_spec, Z.bits_0.
  rewrite <- Hb, Z.land_spec. by destruct (Z.testbit e i), (Z.testbit mask i), (Z.testbit bit i).
Qed.

Lemma clear_writable_idem e : is_u64 e → clear_writable (clear_writable e) = clear_writable e.
Proof. intros. unfold clear_writable. by rewrite <- Z.land_assoc, Z.land_diag. Qed.

Lemma cow_pte_user e : is_u64 e → has (cow_pte e) PTE_USER = has e PTE_USER.
Proof. intros. unfold cow_pte. destruct (has e PTE_USER) eqn:E; [|done]. rewrite <- E. apply has_clear; [done|unfold is_u64; lia|done]. Qed.

Lemma cow_pte_idem e : is_u64 e → cow_pte (cow_pte e) = cow_pte e.
Proof.
  intros He. unfold cow_pte at 1. rewrite cow_pte_user by done. unfold cow_pte.
  destruct (has e PTE_USER); [by apply clear_writable_idem|done].
Qed.

Lemma cow_entry_idem e : is_u64 e → cow_entry (cow_entry e) = cow_entry e.
Proof.
  intros He. unfold cow_entry. destruct (has e PTE_PRESENT) eqn:E.
  - by rewrite cow_pte_present, E, cow_pte_idem.
  - by rewrite E.
Qed.

Implicit Types (D : list Z → bool).

Definition cow_state D s : Prop := ∀ c p i, T !! c = Some p → 0 ≤ i < 512 →
  entry (ram s) (table_at p) i =
    if bool_decide (length c = 3%nat) && D (i :: c) then cow_entry (entry m0 (table_at p) i)
    else entry m0 (table_at p) i.

Definition cows (op : mm → exec mm) D : Prop := ∀ D0 s F,
  inv s F → tables T ## F → cow_state D0 s →
  ∃ s', op s = Ret s' ∧ inv s' F ∧ agree_outside (tables T) (ram s) (ram s') ∧
    cow_state (λ c, D0 c || D c) s'.

Definition under a c : bool := bool_decide (a `suffix_of` c).

Lemma cow_state_ext D D' s :
  (∀ c p i, T !! c = Some p → length c = 3%nat → D (i :: c) = D' (i :: c)) →
  cow_state D s → cow_state D' s.
Proof.
  intros HD Hs c p i Hc Hi. rewrite (Hs c p i Hc Hi). case_bool_decide; [|done].
  by rewrite (HD c p i Hc).
Qed.

Lemma cows_skip D :
  (∀ c p i, T !! c = Some p → length c = 3%nat → D (i :: c) = false) → cows Ret D.
Proof.
  intros HD D0 s F HI Hd Hs. exists s. split_and!; [done..|].
  eapply cow_state_ext; [|exact Hs]. intros c p i Hc Hl. simpl. by rewrite (HD c p i), orb_false_r.
Qed.

Lemma cows_ext op D D' :
  (∀ c p i, T !! c = Some p → length c = 3%nat → D (i :: c) = D' (i :: c)) → cows op D → cows op D'.
Proof.
  intros HD Hop D0 s F HI Hd Hs. destruct (Hop D0 s F HI Hd Hs) as (s' & ? & ? & ? & Hs').
  exists s'. split_and!; [done..|]. eapply cow_state_ext; [|exact Hs']. intros c p i Hc Hl. simpl.
  by rewrite (HD c p i).
Qed.

Lemma cows_for_each xs (body : Z → mm → exec mm) (D : Z → list Z → bool) :
  (∀ x, x ∈ xs → cows (body x) (D x)) → cows (for_each xs body) (λ c, existsb (λ x, D x c) xs).
Proof.
  induction xs as [|x xs IH]; intros Hb; [by apply cows_skip|].
  intros D0 s F HI Hd Hs. cbn [for_each].
  destruct (Hb x (list_elem_of_here _ _) D0 s F HI Hd Hs) as (s1 & E1 & HI1 & Hm1 & Hs1).
  destruct (IH ltac:(intros y Hy; apply Hb; by right) _ s1 F HI1 Hd Hs1) as (s2 & E2 & HI2 & Hm2 & Hs2).
  exists s2. split; [by eapply bind_ok|]. split_and!; [done|by eapply agree_outside_trans|].
  eapply cow_state_ext; [|exact Hs2]. intros. simpl. by rewrite orb_assoc.
Qed.

Lemma cows_pt a p : T !! a = Some p → length a = 3%nat → cows (λ s, make_cow_pt s p) (under a).
Proof.
  intros Ha Hl D0 s F HI Hd Hs. pose proof (tree_node _ _ _ HT _ _ Ha) as Hp. unfold make_cow_pt.
  assert (HpT : p / PAGE_SIZE ∈ tables T) by (apply elem_of_tables; eauto).
  set (old i := entry (ram s) (table_at p) i).
  set (body := λ i s, b ← is_present (ram s) (table_at p) i;
    if b : bool then
      e ← get_entry (ram s) (table_at p) i;
      if has e PTE_USER then set_entry s (table_at p) i (clear_writable e) else Ret s
    else Ret s).
  destruct (fill_loop inv p 0 512 512
    (λ i, if has (old i) PTE_PRESENT && has (old i) PTE_USER then Some (clear_writable (old i)) else None)
    body s F) as (s' & E & HI' & Hm & He); try done; try lia.
  - intros Hf. exact (Hd _ HpT Hf).
  - intros i e _ Hh. destruct (_ && _); [|done]. injection Hh as <-. apply land_u64, entry_u64.
  - intros i s1 Hi Hm1 Heq. unfold body. rewrite is_present_ok, get_entry_ok by lia. exec_simpl.
    rewrite Heq. fold (old i). by destruct (has (old i) PTE_PRESENT), (has (old i) PTE_USER).
  - exists s'. split; [eapply bind_ok; [by apply table_virt|exact E]|]. clear E. split_and!; [done| |].
    { eapply agree_outside_mono; [|exact Hm]. by apply singleton_subseteq_l. }
    intros c q i Hc Hi. destruct (decide (c = a)) as [->|Hne].
    + assert (q = p) as -> by congruence. rewrite He, decide_True by lia. rewrite bool_decide_true by done.
      unfold under. rewrite (bool_decide_true (a `suffix_of` i :: a)) by (by exists [i]).
      rewrite orb_true_r. cbn [andb]. pose proof (entry_u64 m0 (table_at p) i) as Hu.
      transitivity (cow_entry (old i)).
      { unfold cow_entry, cow_pte. by destruct (has (old i) PTE_PRESENT), (has (old i) PTE_USER). }
      unfold old. rewrite (Hs a p i Ha Hi), bool_decide_true by done. cbn [andb].
      destruct (D0 (i :: a)); [by apply cow_entry_idem|done].
    + rewrite (entry_ext (ram s)); [|by eapply tree_node|done|]; cycle 1.
      { intros x Hx. apply Hm. rewrite Hx, elem_of_singleton. intros Eq. apply Hne.
        eapply (tree_inj _ _ _ HT); [exact Hc|]. rewrite Ha. f_equal. symmetry.
        apply node_frame_inj; [by eapply tree_node|done|done]. }
      rewrite (Hs c q i Hc Hi). case_bool_decide as Hl3; [|done]. cbn [andb].
      unfold under. rewrite (bool_decide_false (a `suffix_of` i :: c)), orb_false_r; [done|].
      intros [k Ek]. destruct k as [|j k]; simpl in Ek.
      * apply (f_equal length) in Ek. simpl in Ek. lia.
      * injection Ek as _ Ek. apply Hne. rewrite Ek. destruct k; [done|].
        apply (f_equal length) in Ek. rewrite length_app in Ek. simpl in Ek. lia.
Qed.

(** A path of a leaf entry below [i :: a] lies below the table at [i :: a]. *)
Lemma under_table a i c (j : Z) :
  (length a ≤ 2)%nat → length c = 3%nat → (i :: a) `suffix_of` (j :: c) → (i :: a) `suffix_of` c.
Proof.
  intros Hl Hc [k E]. destruct k as [|x k]; simpl in E.
  - injection E as _ ->. lia.
  - injection E as _ ->. by exists k.
Qed.

Lemma cows_child a p i (op : Z → mm → exec mm) :
  T !! a = Some p → (length a ≤ 2)%nat → slot a i →
  (has (entry m0 (table_at p) i) PTE_PRESENT = true → cows (op (entry m0 (table_at p) i)) (under (i :: a))) →
  cows (λ s, b ← is_present (ram s) (table_at p) i;
             if b : bool then e ← get_entry (ram s) (table_at p) i; op e s else Ret s)
    (under (i :: a)).
Proof.
  intros Ha Hl Hs Hop D0 s F HI Hd Hst. pose proof (slot_512 _ _ Hs) as Hi.
  rewrite is_present_ok, get_entry_ok by lia. exec_simpl.
  assert (He : entry (ram s) (table_at p) i = entry m0 (table_at p) i).
  { rewrite (Hst a p i Ha Hi), bool_decide_false by lia. done. }
  rewrite He. destruct (has (entry m0 (table_at p) i) PTE_PRESENT) eqn:Hpr; [by apply Hop|].
  destruct (tree_down _ _ _ HT a i p Ha Hl Hs) as [Hch _]. unfold child_of in Hch. rewrite Hpr in Hch.
  apply (cows_skip (under (i :: a))) with (s := s) (F := F); [|done..].
  intros c q j Hc Hlc. apply bool_decide_false. intros Hsuf.
  apply under_table in Hsuf; [|done..]. by rewrite (suffix_none (i :: a) c) in Hc.
Qed.

Lemma cows_inner a n (body : Z → mm → exec mm) :
  (length a ≤ 2)%nat → (∀ i, slot a i ↔ 0 ≤ i < n) →
  (∀ i, slot a i → cows (body i) (under (i :: a))) → cows (for_each (seqZ 0 n) body) (under a).
Proof.
  intros Hl Hn Hb. eapply cows_ext; [|apply (cows_for_each _ _ (λ i, under (i :: a)))]; cycle 1.
  { intros x Hx%elem_of_seqZ. apply Hb, Hn. lia. }
  intros c p j Hc Hlc. apply eq_bool_prop_intro. rewrite !Is_true_true. unfold under.
  rewrite bool_decide_eq_true, existsb_exists. setoid_rewrite bool_decide_eq_true. split.
  - intros (i & _ & k & ->). exists (k ++ [i]). by rewrite <- app_assoc.
  - intros [k E]. destruct k as [|x k]; simpl in E.
    { apply (f_equal length) in E. simpl in E. lia. }
    injection E as <- E. destruct (cover a n c) as [->|(i & Hi & Hs)]; [intros; by apply Hn|by rewrite Hc|by exists k|..].
    + lia.
    + exists i. split; [by apply list_elem_of_In|]. destruct Hs as [k' ->]. by exists (j :: k').
Qed.

Lemma cows_pd a p : T !! a = Some p → length a = 2%nat → cows (λ s, make_cow_pd s p) (under a).
Proof.
  intros Ha Hl. unfold make_cow_pd. rewrite table_virt by by eapply tree_node. exec_simpl.
  destruct a as [|x a]; [done|]. apply cows_inner; [lia|done|]. intros i Hi.
  apply (cows_child _ p i (λ e s, if has e PTE_LARGE then set_entry s (table_at p) i (clear_writable e)
    else make_cow_pt s (Z.land e PTE_ADDR_MASK))); [done|lia|done|]. intros Hpr.
  destruct (parent_child _ p i Ha ltac:(lia) Hi Hpr) as [Hch ->]. apply cows_pt; [done|]. simpl in *. lia.
Qed.

Lemma cows_pdpt a p : T !! a = Some p → length a = 1%nat → cows (λ s, make_cow_pdpt s p) (under a).
Proof.
  intros Ha Hl. unfold make_cow_pdpt. rewrite table_virt by by eapply tree_node. exec_simpl.
  destruct a as [|x a]; [done|]. apply cows_inner; [lia|done|]. intros i Hi.
  apply (cows_child _ p i (λ e s, make_cow_pd s (Z.land e PTE_ADDR_MASK))); [done|lia|done|]. intros Hpr.
  destruct (parent_child _ p i Ha ltac:(lia) Hi Hpr) as [Hch _]. apply cows_pd; [done|]. simpl in *. lia.
Qed.

Lemma cows_pml4 : cows (λ s, make_cow_pml4 s P) (under []).
Proof.
  pose proof (tree_root _ _ _ HT) as HP. unfold make_cow_pml4.
  rewrite table_virt by by eapply tree_node. exec_simpl.
  apply cows_inner; [simpl; lia|done|]. intros i Hi.
  apply (cows_child _ P i (λ e s, make_cow_pdpt s (Z.land e PTE_ADDR_MASK))); [done|simpl; lia|done|]. intros Hpr.
  destruct (parent_child _ P i HP ltac:(simpl; lia) Hi Hpr) as [Hch _]. by apply cows_pdpt.
Qed.

(** ** Parent and child afterwards *)
Definition cow_leaf (l : leaf) : leaf :=
  match l with Small e => Small (cow_pte e) | Large e => Large e end.

Lemma dir_entry_small v pd :
  is_user v → T !! path2 v = Some pd → has (entry m0 (table_at pd) (pd_idx v)) PTE_LARGE = false.
Proof. intros Hv Hpd. apply (Hnl (path2 v)); [done|done|]. by apply slot_path. Qed.

Lemma tree_cow D s : cow_state D s → tree (ram s) P T.
Proof.
  intros Hs. split; try apply HT. intros a i p Ha Hl Hsl. pose proof (slot_512 _ _ Hsl) as Hi.
  rewrite (Hs a p i Ha Hi), bool_decide_false by lia. by apply HT.
Qed.

(** The parent's pages once all its leaf entries are protected. *)
Lemma walk_cow s v :
  cow_state (λ c, false || under [] c) s → is_user v →
  tree_walk (ram s) T v = cow_leaf <$> tree_walk m0 T v.
Proof.
  intros Hs Hv. pose proof (idx_range v) as (_ & _ & R2 & R1). unfold tree_walk.
  destruct (T !! path2 v) as [pd|] eqn:Hpd; [|done].
  rewrite (Hs (path2 v) pd) by done. rewrite bool_decide_false by (simpl; lia). cbn [andb].
  rewrite dir_entry_small by done. destruct (T !! path3 v) as [pt|] eqn:Hpt; [|done].
  rewrite (Hs (path3 v) pt) by done. rewrite bool_decide_true by done.
  unfold under. rewrite bool_decide_true by (by exists (pt_idx v :: path3 v); rewrite app_nil_r).
  cbn [orb andb]. unfold cow_entry.
  destruct (has (entry m0 (table_at pt) (pt_idx v)) PTE_PRESENT) eqn:Hpr; rewrite ?Hpr; [|done].
  by rewrite cow_pte_present, Hpr by apply entry_u64.
Qed.

(** [C] is a full copy of the tree under the root table [q]. *)
Record copied q s C : Prop := {
  cp_root : C !! [] = Some q;
  cp_dom : ∀ c, is_Some (C !! c) ↔ is_Some (T !! c);
  cp_node : ∀ c q, C !! c = Some q → node_ok q;
  cp_inj : ∀ c d q, C !! c = Some q → C !! d = Some q → c = d;
  cp_entry : ∀ c p q' i, T !! c = Some p → C !! c = Some q' → slot c i →
    entry (ram s) (table_at q') i = clone_entry C c i (entry m0 (table_at p) i)
}.

Lemma copied_tree q s C : copied q s C → tree (ram s) q C.
Proof.
  intros [HR HD HN HJ HE]. split; try done.
  - intros a i q' Hc. destruct (proj1 (HD (i :: a)) (ex_intro _ _ Hc)) as [p Hp].
    apply (tree_up _ _ _ HT) in Hp as (? & ? & Hp). split_and!; [done|done|]. by apply HD.
  - intros a i q' Hc Hl Hs. destruct (proj1 (HD a) (ex_intro _ _ Hc)) as [p Hp].
    rewrite (HE a p q' i Hp Hc Hs). unfold clone_entry.
    pose proof (entry_u64 m0 (table_at p) i) as Hu.
    destruct (has (entry m0 (table_at p) i) PTE_PRESENT) eqn:Hpr.
    + rewrite decide_False by lia. destruct (parent_child a p i Hp Hl Hs Hpr) as [Hch Hlg].
      destruct (proj2 (HD (i :: a)) (ex_intro _ _ Hch)) as [q1 Hq1]. rewrite Hq1.
      pose proof (HN _ _ Hq1) as Hn. unfold child_of.
      assert (Hlg' : has (Z.lor q1 (entry_flags (entry m0 (table_at p) i))) PTE_LARGE = false)
        by (by rewrite entry_flags_has).
      rewrite entry_flags_has, Hpr, Hlg', mask_entry_flags by done. split; [done|]. intros E. congruence.
    + split; [|done]. destruct (C !! (i :: a)) as [q1|] eqn:Hq1; [|done].
      destruct (proj1 (HD (i :: a)) (ex_intro _ _ Hq1)) as [p1 Hp1].
      destruct (tree_down _ _ _ HT a i p Hp Hl Hs) as [Hch _]. unfold child_of in Hch.
      rewrite Hpr, Hp1 in Hch. done.
Qed.

Lemma copied_walk q s C v :
  copied q s C → is_user v → tree_walk (ram s) C v = cow_leaf <$> tree_walk m0 T v.
Proof.
  intros HC Hv. pose proof (copied_tree q s C HC) as HTC. destruct HC as [HR HD HN HJ HE].
  destruct (slot_path v Hv) as (_ & _ & S3). pose proof (idx_range v) as (_ & _ & R2 & R1). unfold tree_walk.
  destruct (T !! path2 v) as [pd|] eqn:Hpd; cycle 1.
  { destruct (C !! path2 v) eqn:E; [|done]. destruct (proj1 (HD (path2 v)) (ex_intro _ _ E)). congruence. }
  destruct (proj2 (HD (path2 v)) (ex_intro _ _ Hpd)) as [pd' Hpd']. rewrite Hpd'.
  rewrite dir_entry_small by done.
  assert (Hlg : has (entry (ram s) (table_at pd') (pd_idx v)) PTE_LARGE = false).
  { rewrite (HE _ _ _ _ Hpd Hpd' S3). unfold clone_entry.
    destruct (has (entry m0 (table_at pd) (pd_idx v)) PTE_PRESENT) eqn:Hpr; [|done].
    rewrite decide_False by (simpl; lia). destruct (C !! (pd_idx v :: path2 v)) as [q1|] eqn:Hq1; [|done].
    rewrite entry_flags_has; [by apply dir_entry_small|by eapply HN|apply entry_u64|done]. }
  rewrite Hlg. destruct (T !! path3 v) as [pt|] eqn:Hpt; cycle 1.
  { destruct (C !! path3 v) eqn:E; [|done]. destruct (proj1 (HD (path3 v)) (ex_intro _ _ E)). congruence. }
  destruct (proj2 (HD (path3 v)) (ex_intro _ _ Hpt)) as [pt' Hpt']. rewrite Hpt'.
  rewrite (HE _ _ _ _ Hpt Hpt' R1). unfold clone_entry. rewrite decide_True by done.
  destruct (has (entry m0 (table_at pt) (pt_idx v)) PTE_PRESENT) eqn:Hpr; [|done].
  by rewrite cow_pte_present, Hpr by apply entry_u64.
Qed.

(** The loop over the user half, the kernel half and the write protection
    together make the root [q] and the tables [C] a copy. *)
Lemma copied_intro q s2 s3 s4 F F2 C :
  node_ok q → q / PAGE_SIZE ∉ tables T → q / PAGE_SIZE ∉ tables C → tables T ## tables C →
  used (below [] (seqZ 0 256)) {[q / PAGE_SIZE]} s2 F s3 F2 C → q / PAGE_SIZE ∉ F →
  used (suffix []) ∅ s2 (F ∪ {[q / PAGE_SIZE]}) s3 F2 (<[[] := q]> C) →
  C !! [] = None → filled (below [] (seqZ 0 256)) s3 C →
  (∀ i, 0 ≤ i < 512 → entry (ram s3) (table_at q) i =
    if decide (i < 256) then clone_entry C [] i (entry m0 (table_at P) i) else 0) →
  (∀ i, 0 ≤ i < 256 → entry (ram s4) (table_at q) i = entry (ram s3) (table_at q) i) →
  (∀ x, vframe x ∈ tables C → ram s4 x = ram s3 x) →
  copied q s4 (<[[] := q]> C).
Proof.
  intros Hq HqT HqC HTC HU HqF HU' HC0 HF HL H4 Hm.
  assert (HFm : filled (below [] (seqZ 0 256)) s4 (<[[] := q]> C)).
  { eapply (filled_mono _ s3 s4 C); eauto using below_up, below_nonroot.
    - by apply insert_subseteq.
    - intros c' q' Hq'. by apply (us_dom _ _ _ _ _ _ _ HU) in Hq' as (_ & _ & ?). }
  assert (Hcov : ∀ c, is_Some (T !! c) → c = [] ∨ below [] (seqZ 0 256) c).
  { intros c Hc. apply cover; [done|done|]. exists c. by rewrite app_nil_r. }
  split.
  - apply lookup_insert_eq.
  - intros c. split.
    + intros [q' Hc]. by apply (us_dom _ _ _ _ _ _ _ HU') in Hc as (_ & ? & _).
    + intros [p Hp]. destruct (Hcov c) as [->|Hb]; [by rewrite Hp|by rewrite lookup_insert_eq|].
      destruct (HFm c p Hb Hp) as (q' & -> & _). done.
  - intros c q' Hc. by apply (us_dom _ _ _ _ _ _ _ HU') in Hc as (_ & _ & ?).
  - apply (us_inj _ _ _ _ _ _ _ HU').
  - intros c p q' i Hp Hc Hs. destruct (Hcov c) as [->|Hb]; [by rewrite Hp|..].
    + rewrite lookup_insert_eq in Hc. injection Hc as <-.
      rewrite (tree_root _ _ _ HT) in Hp. injection Hp as <-.
      rewrite H4, HL, decide_True by (unfold slot in Hs; lia). unfold clone_entry.
      by rewrite lookup_insert_ne.
    + destruct (HFm c p Hb Hp) as (q1 & Hq1 & He). assert (q' = q1) as -> by congruence.
      apply He. by eapply slot_512.
Qed.

Lemma clone_address_space_spec vm s F :
  inv s F → parent_ok s F →
  ∃ r s' F' C, clone_address_space s {| pml4_phys := P |} vm = Ret (r, s') ∧
    used (suffix []) (tables T) s F s' F' C ∧
    match r with
    | Some (sp, vm') => vm' = clone_vmspace vm ∧ copied (pml4_phys sp) s' C ∧
        cow_state (λ c, false || under [] c) s' ∧
        ∀ i, 256 ≤ i < 512 → entry (ram s') (table_at (pml4_phys sp)) i = entry (ram s) (table_at P) i
    | None => short (suffix []) F' C ∧ parent_ok s' F'
    end.
Proof.
  intros HI [HPd HPm]. pose proof (tree_root _ _ _ HT) as HP0. pose proof (tree_node _ _ _ HT _ _ HP0) as HPn.
  assert (HPT : P / PAGE_SIZE ∈ tables T) by (apply elem_of_tables; eauto).
  unfold clone_address_space. destruct (fa_alloc s F HI) as (r & s1 & -> & HS). exec_simpl.
  destruct r as [q|]; cycle 1.
  { destruct HS as [-> ->]. exists None, s, ∅, ∅. split; [done|]. split; [by apply used_refl|].
    split; [|done]. split; [done|]. exists []. split_and!; [apply suffix_refl|by rewrite HP0|done]. }
  destruct HS as (Hq & HqF & HI1 & Hz & Hm). cbn [pml4_phys]. rewrite !table_virt by done. exec_simpl.
  assert (HqT : q / PAGE_SIZE ∉ tables T) by (intros E; exact (HPd _ E HqF)).
  assert (HP1 : parent_ok s1 (F ∖ {[q / PAGE_SIZE]})).
  { split; [intros f Hf Hf'; apply elem_of_difference in Hf' as [Hf' _]; exact (HPd _ Hf Hf')|].
    intros x Hx. rewrite Hm; [by apply HPm|]. intros Hf. exact (HPd _ Hx Hf). }
  assert (HqF1 : q / PAGE_SIZE ∉ F ∖ {[q / PAGE_SIZE]}) by (clear; set_solver).
  destruct (loop_spec [] P 256 clone_pdpt q s1 (F ∖ {[q / PAGE_SIZE]}))
    as (r & s2 & F2 & C & -> & HU & HR);
    [done|simpl; lia|done|intros i; by apply clones_pdpt|done..| |].
  { intros i Hi. rewrite (entry_ext (λ _, 0)); [by apply load64_zero|done|done|exact Hz]. }
  exec_simpl. destruct (used_alloc [] _ s F q s1 s2 F2 C (ex_intro _ P HP0) Hq HqF Hm HU) as [HC0 HU'].
  assert (HTq : tables T ## {[q / PAGE_SIZE]}) by (intros f Hf ->%elem_of_singleton; done).
  pose proof (parent_ok_used _ _ _ _ _ _ _ HP1 HU HTq) as HP2.
  destruct r as [[]|]; cycle 1.
  { eexists None, s2, F2, _. split; [done|]. split; [eapply used_widen; [exact HU'|done|apply empty_subseteq]|].
    split; [|done]. destruct HR as [-> (c & Hb & Hc & HCc)]. split; [done|]. exists c.
    split_and!; [by eapply below_suffix|done|]. rewrite lookup_insert_ne; [done|]. intros <-.
    apply below_longer in Hb. simpl in Hb. lia. }
  destruct HR as [HF HL]. destruct (used_frame_outside _ _ _ _ _ _ _ _ HU HqF1) as [HqF2 HqC].
  assert (HPq : P ≠ q) by (intros ->; done).
  destruct (copy_kernel_half inv P q s2 F2 (us_inv _ _ _ _ _ _ _ HU) HPn Hq HPq HqF2) as (s3 & E3 & HI3 & Hm3 & He3).
  assert (Hst : cow_state (λ _, false) s3).
  { intros c p i Hc Hi. rewrite andb_false_r. by eapply parent_not_child. }
  destruct (cows_pml4 _ s3 F2 HI3 (proj1 HP2) Hst) as (s4 & E4 & HI4 & Hm4 & Hs4). clear Hst.
  exists (Some ({| pml4_phys := q |}, clone_vmspace vm)), s4, F2, (<[[] := q]> C).
  split; [rewrite E3; exec_simpl; by rewrite E4|]. clear E3 E4.
  assert (HTC : tables T ## tables C).
  { intros f Hf Hf'. apply (proj1 HP1 f Hf). rewrite <- (us_free _ _ _ _ _ _ _ HU). by apply elem_of_union_r. }
  split; [|split_and!; [done| |done|]].
  - destruct HU' as [I E A M D J]. split; try done.
    intros x Hx. apply not_elem_of_union in Hx as [Hx1 Hx2]. rewrite Hm4, Hm3 by (done || (rewrite elem_of_singleton; congruence)).
    apply M. by rewrite union_empty_r_L.
  - cbn [pml4_phys]. apply (copied_intro q s1 s2 s4 (F ∖ {[q / PAGE_SIZE]}) F2 C); try done.
    + destruct HU' as [I E A M D J]. split; try done.
      * rewrite E. clear -HqF. apply set_eq. intros f. destruct (decide (f = q / PAGE_SIZE)) as [->|]; set_solver.
      * intros x Hx. rewrite union_empty_r_L in Hx. apply (us_mem _ _ _ _ _ _ _ HU).
        clear -Hx. set_solver.
    + intros i Hi. rewrite (entry_ext (ram s3)); [|done|lia|]; cycle 1.
      { intros x Hx. apply Hm4. by rewrite Hx. }
      rewrite He3, decide_False by lia. done.
    + intros x Hx. rewrite Hm4, Hm3; [done| |].
      * intros Ex%elem_of_singleton. by rewrite Ex in Hx.
      * intros Hx'. exact (HTC _ Hx' Hx).
  - cbn [pml4_phys]. intros i Hi. rewrite (entry_ext (ram s3)); [|done|lia|]; cycle 1.
    { intros x Hx. apply Hm4. by rewrite Hx. }
    rewrite He3, decide_True by lia. rewrite (parent_entry s2 F2 []) by (done || lia).
    symmetry. apply (parent_entry s F []); [by split|done|lia].
Qed.

Lemma tables_size C :
  (∀ c q, C !! c = Some q → node_ok q) → (∀ c d q, C !! c = Some q → C !! d = Some q → c = d) →
  size (tables C) = size C.
Proof.
  intros HN HJ. unfold tables. rewrite size_list_to_set.
  { by rewrite length_fmap, length_map_to_list. }
  apply NoDup_fmap_2_strong; [|apply NoDup_map_to_list].
  intros [c q] [d q'] Hc%elem_of_map_to_list Hd%elem_of_map_to_list E. simpl in E.
  apply node_frame_inj in E; [|by eapply HN|by eapply HN]. subst q'. f_equal. by eapply HJ.
Qed.

Lemma short_size s F s' F' G C B : used B G s F s' F' C → short B F' C → (size F < size T)%nat.
Proof.
  intros [I E A M D J] [-> (c & _ & [p Hc] & HCc)]. rewrite union_empty_l_L in E. subst F.
  rewrite tables_size; [|intros c' q Hq; by destruct (D c' q Hq) as (_ & _ & ?)|exact J].
  rewrite <- !size_dom. apply subset_size. split.
  - intros d Hd. apply elem_of_dom in Hd as [q Hd]. apply elem_of_dom. by destruct (D d q Hd) as (_ & ? & _).
  - intros Hsub. assert (Hd : c ∈ dom T) by (apply elem_of_dom; by rewrite Hc).
    apply Hsub, elem_of_dom in Hd as [q Hd]. congruence.
Qed.
End Spec.

(** No user address lies in a 2 MiB page. *)
Lemma no_large_tree m P T :
  tree m P T → (∀ v e, is_user v → mmu_walk m P v ≠ Some (Large e)) →
  ∀ a p i, T !! a = Some p → length a = 2%nat → slot a i → has (entry m (table_at p) i) PTE_LARGE = false.
Proof.
  intros HT Hnl a p k Ha Hl Hk. destruct a as [|j [|i [|]]]; try done.
  pose proof (tree_up _ _ _ HT _ _ _ Ha) as (_ & Hj & [p' Ha']).
  pose proof (tree_up _ _ _ HT _ _ _ Ha') as (_ & Hi & _). unfold slot in Hi, Hj, Hk.
  set (v := i * 549755813888 + j * 1073741824 + k * 2097152).
  assert (Hv : is_user v) by (unfold is_user, v; change (2 ^ 47) with 140737488355328; lia).
  assert (path2 v = [j; i] ∧ pd_idx v = k) as [Hp2 Hpd].
  { unfold path2, path1. rewrite pml4_idx_mod, pdpt_idx_mod, pd_idx_mod. unfold v. split; [f_equal; [|f_equal]|]; dlia. }
  destruct (has (entry m (table_at p) k) PTE_LARGE) eqn:E; [|done]. exfalso.
  apply (Hnl v (entry m (table_at p) k) Hv). rewrite (mmu_walk_tree _ _ _ _ HT Hv).
  unfold tree_walk. by rewrite Hp2, Ha, Hpd, E.
Qed.

(** The pages of parent and child after a clone. *)
Lemma clone_refines co s F P T vm :
  vmm_inv (pmm_inv co) s F P T → (∀ v e, is_user v → mmu_walk (ram s) P v ≠ Some (Large e)) →
  ∃ r s', clone_address_space s {| pml4_phys := P |} vm = Ret (r, s') ∧
    match r with
    | Some (sp, vm') => ∃ F' C,
        vm' = clone_vmspace vm ∧ F' ∪ tables C = F ∧ tables T ## tables C ∧
        vmm_inv (pmm_inv co) s' F' P T ∧ vmm_inv (pmm_inv co) s' F' (pml4_phys sp) C ∧
        (∀ v, is_user v →
          mmu_walk (ram s') P v = cow_leaf <$> mmu_walk (ram s) P v ∧
          mmu_walk (ram s') (pml4_phys sp) v = cow_leaf <$> mmu_walk (ram s) P v) ∧
        (∀ i, 256 ≤ i < 512 →
          entry (ram s') (table_at (pml4_phys sp)) i = entry (ram s) (table_at P) i) ∧
        size (tables C) = size T
    | None => (size F < size T)%nat ∧
        ∀ v, is_user v → mmu_walk (ram s') P v = mmu_walk (ram s) P v
    end.
Proof.
  intros [HI HT HD] Hnl0. pose proof (no_large_tree _ _ _ HT Hnl0) as Hnl.
  destruct (clone_address_space_spec (pmm_inv co) (ram s) P T HT Hnl vm s F HI)
    as (r & s' & F' & C & E & HU & HR); [by split|].
  exists r, s'. split; [done|]. clear E. destruct r as [[sp vm']|].
  - destruct HR as (-> & HC & Hs & Hk). exists F', C.
    pose proof (copied_tree _ _ _ HT Hnl _ _ _ HC) as HTC. pose proof (tree_cow _ _ _ HT _ _ Hs) as HTP.
    pose proof (us_free _ _ _ _ _ _ _ _ _ HU) as HFr.
    split_and!; [done|done| | | | |done|].
    + intros f Hf Hf'. apply (HD f Hf). rewrite <- HFr. by apply elem_of_union_r.
    + split; [apply HU|done|]. intros f Hf Hf'. apply (HD f Hf). rewrite <- HFr. by apply elem_of_union_l.
    + split; [apply HU|done|]. intros f Hf Hf'. exact (us_apart _ _ _ _ _ _ _ _ _ HU f Hf' Hf).
    + intros v Hv. rewrite (mmu_walk_tree _ _ _ _ HTP Hv), (mmu_walk_tree _ _ _ _ HTC Hv), (mmu_walk_tree _ _ _ _ HT Hv).
      split; [by apply (walk_cow _ T Hnl)|by apply (copied_walk _ P T HT Hnl (pml4_phys sp))].
    + rewrite (tables_size C (cp_node _ _ _ _ _ HC) (cp_inj _ _ _ _ _ HC)), <- !size_dom. f_equal.
      apply set_eq. intros c. rewrite !elem_of_dom. apply (cp_dom _ _ _ _ _ HC).
  - destruct HR as [Hsh [_ Hm]]. split; [by eapply short_size|]. intros v Hv.
    pose proof (tree_ext _ _ _ _ HT Hm) as HT'.
    rewrite (mmu_walk_tree _ _ _ _ HT' Hv), (mmu_walk_tree _ _ _ _ HT Hv). by apply (tree_walk_ext _ _ P).
Qed.

(** Whatever its outcome, a clone takes its tables from the free frames and writes
    to nothing but them and the tables of the parent. *)
Lemma clone_frame co s F P T vm r s' :
  vmm_inv (pmm_inv co) s F P T → (∀ v e, is_user v → mmu_walk (ram s) P v ≠ Some (Large e)) →
  clone_address_space s {| pml4_phys := P |} vm = Ret (r, s') →
  agree_outside (F ∪ tables T) (ram s) (ram s') ∧
  (r = None → (∃ F', F' ⊆ F ∧ pmm_inv co s' F') ∧ ∀ x, vframe x ∈ tables T → ram s' x = ram s x).
Proof.
  intros [HI HT HD] Hnl0 E. pose proof (no_large_tree _ _ _ HT Hnl0) as Hnl.
  destruct (clone_address_space_spec (pmm_inv co) (ram s) P T HT Hnl vm s F HI)
    as (r0 & s0 & F' & C & E0 & HU & HR); [by split|]. rewrite E in E0. injection E0 as <- <-. split; [apply HU|].
  intros ->. destruct HR as [_ [_ Hm]]. split; [|exact Hm]. exists F'. split; [|apply HU].
  rewrite <- (us_free _ _ _ _ _ _ _ _ _ HU). set_solver.
Qed.

(** ** Main theorems *)

(** C7: cloning an address space for [fork] gives the child its own page tables
    from free frames. Parent and child then map every user page to the frame the
    parent had, with the write permission of user pages removed in both, and
    share the kernel half. It fails only with fewer free frames than the parent
    has tables, and then leaves the pages of the parent as they were. *)
Theorem clone_address_space_correct co s F P T vm :
  vmm_inv (pmm_inv co) s F P T → (∀ v e, is_user v → mmu_walk (ram s) P v ≠ Some (Large e)) →
  ∃ r s', clone_address_space s {| pml4_phys := P |} vm = Ret (r, s') ∧
    match r with
    | Some (sp, vm') => ∃ F' C,
        vm' = clone_vmspace vm ∧ F' ∪ tables C = F ∧ tables T ## tables C ∧
        vmm_inv (pmm_inv co) s' F' P T ∧ vmm_inv (pmm_inv co) s' F' (pml4_phys sp) C ∧
        (∀ v, is_user v →
          mmu_walk (ram s') P v = cow_leaf <$> mmu_walk (ram s) P v ∧
          mmu_walk (ram s') (pml4_phys sp) v = cow_leaf <$> mmu_walk (ram s) P v) ∧
        (∀ i, 256 ≤ i < 512 →
          entry (ram s') (table_at (pml4_phys sp)) i = entry (ram s) (table_at P) i)
    | None => (size F < size T)%nat ∧
        ∀ v, is_user v → mmu_walk (ram s') P v = mmu_walk (ram s) P v
    end.
Proof.
  intros HV Hnl. destruct (clone_refines co s F P T vm HV Hnl) as (r & s' & E & HR). exists r, s'. split; [done|].
  destruct r as [[sp vm']|]; [|done]. destruct HR as (F' & C & ?). exists F', C. tauto.
Qed.

(** protecting an entry for copy on write keeps its frame and every
    permission but one: a user page is no longer writable. *)
Theorem cow_pte_correct e :
  is_u64 e →
  Z.land (cow_pte e) PTE_ADDR_MASK = Z.land e PTE_ADDR_MASK ∧
  has (cow_pte e) PTE_PRESENT = has e PTE_PRESENT ∧ has (cow_pte e) PTE_USER = has e PTE_USER ∧
  has (cow_pte e) PTE_NO_EXEC = has e PTE_NO_EXEC ∧
  has (cow_pte e) PTE_WRITABLE = has e PTE_WRITABLE && negb (has e PTE_USER).
Proof.
  intros He. split_and!; [|by apply cow_pte_present|by apply cow_pte_user|..];
    unfold cow_pte; destruct (has e PTE_USER); rewrite ?andb_true_r, ?andb_false_r; try done.
  - by apply mask_clear_writable.
  - apply has_clear; [done|unfold is_u64; lia|done].
  - apply has_clear_false; [done|unfold is_u64; lia|done].
Qed.

Lemma find_vma_clone vm addr : find_vma (clone_vmspace vm) addr = clone_vma <$> find_vma vm addr.
Proof.
  unfold find_vma, clone_vmspace. simpl. induction (areas vm) as [|a l IH]; [done|]. simpl.
  change (contains (clone_vma a) addr) with (contains a addr).
  destruct (decide (contains a addr = true)); [done|].
  revert IH. change (list_fmap _ _ clone_vma l) with (clone_vma <$> l).
  destruct (list_find (λ a, contains a addr = true) l) as [[]|],
    (list_find (λ a, contains a addr = true) (clone_vma <$> l)) as [[]|]; simpl; congruence.
Qed.

Lemma clone_vma_writable a :
  flags_contain (vma_flags (clone_vma a)) VMA_WRITE = flags_contain (vma_flags a) VMA_WRITE.
Proof.
  unfold clone_vma. simpl. destruct (_ && _) eqn:E; [|done]. apply andb_prop in E as [E _].
  unfold flags_contain. rewrite Z.land_lor_distr_l. change (Z.land VMA_COPY_ON_WRITE VMA_WRITE) with 0.
  by rewrite Z.lor_0_r.
Qed.

(** C31: after [fork] the first write to a writable private page is not copied.
    The page is present and write-protected in parent and child, the area keeps
    [WRITE] (and gains [COPY_ON_WRITE] in the child), and the page fault handler
    refuses the access in both processes, which kills the process. *)
Theorem forked_write_fault_refused s sp vm vma addr error :
  has error 1 = true → find_vma vm addr = Some vma →
  flags_contain (vma_flags vma) VMA_WRITE = true →
  handle_page_fault s (Some (sp, vm)) addr error = Ret (false, s) ∧
  handle_page_fault s (Some (sp, clone_vmspace vm)) addr error = Ret (false, s).
Proof.
  intros Hp Hv Hw. split; [by apply (writable_area_refused s sp vm vma)|].
  apply (writable_area_refused s sp _ (clone_vma vma)); [done| |by rewrite clone_vma_writable].
  by rewrite find_vma_clone, Hv.
Qed.
End Clone.

(** ** Witnesses *)
Section Demo.
#[local] Existing Instance qemu_hhdm.

Lemma clone_address_space_correct_witness :
  ∃ r s', clone_address_space demo_s {| pml4_phys := demo_P |} demo_vm = Ret (r, s') ∧
    match r with
    | Some (sp, vm') => ∃ F' C,
        vm' = clone_vmspace demo_vm ∧ F' ∪ tables C = demo_F ∧ tables {[ [] := demo_P ]} ## tables C ∧
        vmm_inv (pmm_inv true) s' F' demo_P {[ [] := demo_P ]} ∧
        vmm_inv (pmm_inv true) s' F' (pml4_phys sp) C ∧
        (∀ v, is_user v →
          mmu_walk (ram s') demo_P v = cow_leaf <$> mmu_walk (ram demo_s) demo_P v ∧
          mmu_walk (ram s') (pml4_phys sp) v = cow_leaf <$> mmu_walk (ram demo_s) demo_P v) ∧
        (∀ i, 256 ≤ i < 512 →
          entry (ram s') (table_at (pml4_phys sp)) i = entry (ram demo_s) (table_at demo_P) i)
    | None => (size demo_F < size ({[ [] := demo_P ]} : gmap (list Z) Z))%nat ∧
        ∀ v, is_user v → mmu_walk (ram s') demo_P v = mmu_walk (ram demo_s) demo_P v
    end.
Proof.
  apply (clone_address_space_correct true demo_s demo_F demo_P {[ [] := demo_P ]} demo_vm).
  - exact (proj1 demo_space_inv).
  - intros v e. apply demo_no_large.
Defined.

Lemma cow_pte_correct_witness :
  Z.land (cow_pte 0x3007) PTE_ADDR_MASK = Z.land 0x3007 PTE_ADDR_MASK ∧
  has (cow_pte 0x3007) PTE_PRESENT = has 0x3007 PTE_PRESENT ∧
  has (cow_pte 0x3007) PTE_USER = has 0x3007 PTE_USER ∧
  has (cow_pte 0x3007) PTE_NO_EXEC = has 0x3007 PTE_NO_EXEC ∧
  has (cow_pte 0x3007) PTE_WRITABLE = has 0x3007 PTE_WRITABLE && negb (has 0x3007 PTE_USER).
Proof. apply (cow_pte_correct 0x3007). unfold is_u64. lia. Defined.

Lemma forked_write_fault_refused_witness :
  handle_page_fault demo_s (Some ({| pml4_phys := demo_P |}, demo_vm)) 0x400123 7 = Ret (false, demo_s) ∧
  handle_page_fault demo_s (Some ({| pml4_phys := demo_P |}, clone_vmspace demo_vm)) 0x400123 7
    = Ret (false, demo_s).
Proof.
  apply (forked_write_fault_refused demo_s {| pml4_phys := demo_P |} demo_vm demo_vma 0x400123 7).
  - reflexivity.
  - exact demo_find.
  - reflexivity.
Defined.
End Demo.
