(* ===== verification/Tlb.v ===== *)
(** The translation cache of the processor and the code that keeps it up to date:
    the [invlpg] of [map] and [unmap] and the load of [cr3] in [activate]
    ([src/src/mm/vmm.rs]), the [flush_tlb_all] of [clone_address_space]
    ([src/src/proc/fork.rs]), and the instructions themselves
    ([src/src/arch/x86_64/io.rs]).

    The processor may keep any translation of the page tables it uses, and drop
    any. A load of [cr3] drops all but the global ones, since [CR4.PGE] is set at
    boot. [execve] ([src/src/proc/exec.rs]) drops the address space in use before it
    activates the new one, so the processor may walk freed tables; the links of the
    free lists that are then in them are not present entries. *)
From S2P Require Import Prelude Machine Pmm Vmm Vma Clone.

Definition PTE_GLOBAL : Z := 0x100.

Section Tlb.
Context {hh : Hhdm}.
Implicit Types (s : mm) (v P : Z) (l : leaf) (F : gset Z) (T : gmap (list Z) Z).

(** Cached translations by page number. *)
Record mmu := { memory : mm; cr3 : Z; tlb : gmap Z leaf }.
Implicit Types (u : mmu).

Definition set_memory u s : mmu := {| memory := s; cr3 := cr3 u; tlb := tlb u |}.
Definition set_tlb u (t : gmap Z leaf) : mmu := {| memory := memory u; cr3 := cr3 u; tlb := t |}.

(** ** The instructions *)
Definition invlpg v u : mmu := set_tlb u (delete (page v) (tlb u)).
Definition is_global l : bool := has (leaf_entry l) PTE_GLOBAL.
Definition read_cr3 u : Z := cr3 u.
Definition write_cr3 (P : Z) u : mmu := {| memory := memory u; cr3 := P; tlb := filter (λ x, is_global x.2 = true) (tlb u) |}.
Definition flush_tlb_all u : mmu := write_cr3 (read_cr3 u) u.

(** ** The operations of the kernel with their effect on the cache *)
Definition map_ (sp : AddressSpace) v (phys flags : Z) u : exec (bool * mmu) :=
  '(ok, s) ← map (memory u) sp v phys flags;
  Ret (ok, if ok : bool then invlpg v (set_memory u s) else set_memory u s).

(** [unmap] reaches its [invlpg] when the three levels above the page exist. *)
Definition unmap_ (sp : AddressSpace) v u : exec mmu :=
  let s := memory u in
  pml4 ← phys_to_virt (pml4_phys sp);
  r ← get_table (ram s) pml4 (pml4_idx v);
  match r with
  | None => Ret u
  | Some pdpt =>
      r ← get_table (ram s) pdpt (pdpt_idx v);
      match r with
      | None => Ret u
      | Some pd =>
          r ← get_table (ram s) pd (pd_idx v);
          match r with
          | None => Ret u
          | Some pt => s ← set_entry s pt (pt_idx v) 0; Ret (invlpg v (set_memory u s))
          end
      end
  end.

Definition activate (sp : AddressSpace) u : mmu := write_cr3 (pml4_phys sp) u.

(** [clone_address_space]: the flush follows the write protection of the parent. *)
Definition clone_address_space_ (sp : AddressSpace) (vm : VmSpace) u : exec (option (AddressSpace * VmSpace) * mmu) :=
  '(r, s) ← clone_address_space (memory u) sp vm;
  Ret (r, match r with Some _ => flush_tlb_all (set_memory u s) | None => set_memory u s end).

(** What the processor uses for an access: the cache, or else a walk. *)
Definition cpu_walk u v : option leaf :=
  match tlb u !! page v with Some l => Some l | None => mmu_walk (ram (memory u)) (cr3 u) v end.

(** ** The system

    [live] are the roots of the address spaces, [data] the frames in use for
    anything else. [K] is the root of the kernel, with the tables [KT], which
    nobody changes. *)
Context (K : Z) (KT : gset Z).
Record world := { w_mmu : mmu; live : gset Z; data : gset Z }.
Implicit Types (w : world).

(** The page tables the processor uses are those of the kernel or of a live space.
    [execve] drops the space it runs on before it activates the new one; in
    between the processor walks tables that are free, and the kernel takes no
    frame and makes no mapping. *)
Definition in_use w : Prop := cr3 (w_mmu w) ∈ {[K]} ∪ live w.

Definition plain (flags : Z) : Prop := flags_ok flags ∧ has flags PTE_GLOBAL = false.

Inductive step : world → world → Prop :=
  | Fill w v l : is_user v → mmu_walk (ram (memory (w_mmu w))) (cr3 (w_mmu w)) v = Some l →
      step w {| w_mmu := set_tlb (w_mmu w) (<[page v := l]> (tlb (w_mmu w))); live := live w; data := data w |}
  | Evict w t : t ⊆ tlb (w_mmu w) → step w {| w_mmu := set_tlb (w_mmu w) t; live := live w; data := data w |}
  | Map w P v phys flags ok u : in_use w → P ∈ live w → is_user v → is_u64 phys → plain flags →
      map_ {| pml4_phys := P |} v phys flags (w_mmu w) = Ret (ok, u) →
      step w {| w_mmu := u; live := live w; data := data w |}
  | Unmap w P v u : in_use w → P ∈ live w → is_user v → unmap_ {| pml4_phys := P |} v (w_mmu w) = Ret u →
      step w {| w_mmu := u; live := live w; data := data w |}
  | NewUser w sp s : in_use w → new_user K (memory (w_mmu w)) = Ret (Some sp, s) →
      step w {| w_mmu := set_memory (w_mmu w) s; live := {[pml4_phys sp]} ∪ live w; data := data w |}
  | Activate w P : P ∈ {[K]} ∪ live w →
      step w {| w_mmu := activate {| pml4_phys := P |} (w_mmu w); live := live w; data := data w |}
  | Fork w P vm r u : in_use w → P ∈ live w → clone_address_space_ {| pml4_phys := P |} vm (w_mmu w) = Ret (r, u) →
      step w {| w_mmu := u; live := match r with Some (sp, _) => {[pml4_phys sp]} ∪ live w | None => live w end; data := data w |}
  | Drop w P s : P ∈ live w → AddressSpace_drop (memory (w_mmu w)) {| pml4_phys := P |} = Ret s →
      step w {| w_mmu := set_memory (w_mmu w) s; live := live w ∖ {[P]}; data := data w |}
  | AllocFrame w p s : in_use w → alloc_zeroed_frame (memory (w_mmu w)) = Ret (Some p, s) →
      step w {| w_mmu := set_memory (w_mmu w) s; live := live w; data := {[p / PAGE_SIZE]} ∪ data w |}
  | FreeFrame w p s : node_ok p → p / PAGE_SIZE ∈ data w → free_frame (memory (w_mmu w)) p = Ret s →
      step w {| w_mmu := set_memory (w_mmu w) s; live := live w; data := data w ∖ {[p / PAGE_SIZE]} |}
  | StoreByte w x b : vframe x ∈ data w →
      step w {| w_mmu := set_memory (w_mmu w) (set_ram (memory (w_mmu w)) (λ y, if y =? x then b else ram (memory (w_mmu w)) y));
                live := live w; data := data w |}.

Abbreviation mem_of w := (ram (memory (w_mmu w))) (only parsing).
Abbreviation spaces := (gmap Z (gmap (list Z) Z)) (only parsing).
Implicit Types (S : spaces).

(** The cache holds what the tables in use say. *)
Definition coherent w : Prop :=
  ∀ v l, is_user v → tlb (w_mmu w) !! page v = Some l → mmu_walk (mem_of w) (cr3 (w_mmu w)) v = Some l.

(** The words of the frames [G] keep their value or become links of free lists. *)
Definition relinked (G : gset Z) (m m' : mem) : Prop :=
  ∀ p i, node_ok p → p / PAGE_SIZE ∈ G → 0 ≤ i < 512 → link_word m m' (table_at p + 8 * i).

(** The space in use has been dropped: its tables, as they were in [m0], are free,
    and no cached translation is global. *)
Definition dropped w F : Prop := ∃ m0 T, tree m0 (cr3 (w_mmu w)) T ∧ tables T ⊆ F ∧ relinked (tables T) m0 (mem_of w) ∧
  (∀ v l, is_user v → mmu_walk m0 (cr3 (w_mmu w)) v = Some l → is_global l = false) ∧
  ∀ v l, is_user v → tlb (w_mmu w) !! page v = Some l → is_global l = false.

(** ** The invariant: [S] gives the tables of each space, [F] the free frames. *)
Record mmu_inv w F S : Prop := {
  mi_free : pmm_inv true (memory (w_mmu w)) F;
  mi_live : live w = dom S;
  mi_tree : ∀ P T, S !! P = Some T → tree (ram (memory (w_mmu w))) P T;
  mi_tables : ∀ P T, S !! P = Some T → tables T ## F ∪ data w ∪ KT;
  mi_apart : ∀ P Q T U, S !! P = Some T → S !! Q = Some U → P ≠ Q → tables T ## tables U;
  mi_data : data w ## F ∪ KT;
  mi_kernel : node_ok K ∧ K ≠ 0 ∧ K / PAGE_SIZE ∈ KT ∧ KT ## F ∧ K ∉ dom S;
  mi_kernel_walk : ∀ m', (∀ x, vframe x ∈ KT → m' x = ram (memory (w_mmu w)) x) →
    ∀ v, is_user v → mmu_walk m' K v = mmu_walk (ram (memory (w_mmu w))) K v;
  mi_small : ∀ P v l, P ∈ dom S → is_user v → mmu_walk (ram (memory (w_mmu w))) P v = Some l → ∃ e, l = Small e;
  mi_local : ∀ P v l, P ∈ {[K]} ∪ dom S → is_user v → mmu_walk (ram (memory (w_mmu w))) P v = Some l → is_global l = false;
  mi_cache : (cr3 (w_mmu w) ∈ {[K]} ∪ dom S ∧ coherent w) ∨ dropped w F
}.

(** The frames that hold page tables. *)
Definition is_table S (f : Z) : Prop := f ∈ KT ∨ ∃ P T, S !! P = Some T ∧ f ∈ tables T.

Lemma table_not_free w F S f : mmu_inv w F S → is_table S f → f ∉ F ∧ f ∉ data w.
Proof.
  intros HW [Hf|(P & T & HP & Hf)].
  - destruct (mi_kernel _ _ _ HW) as (_ & _ & _ & HK & _). pose proof (mi_data _ _ _ HW). set_solver.
  - pose proof (mi_tables _ _ _ HW P T HP). set_solver.
Qed.

(** Memory that agrees on the tables of a space gives the same walk. *)
Lemma walk_same w F S m' P v : mmu_inv w F S → P ∈ {[K]} ∪ dom S → is_user v →
  (∀ x, (P = K ∧ vframe x ∈ KT) ∨ (∃ T, S !! P = Some T ∧ vframe x ∈ tables T) → m' x = mem_of w x) →
  mmu_walk m' P v = mmu_walk (mem_of w) P v.
Proof.
  intros HW HP Hv Hm. destruct (decide (P = K)) as [-> | Hne].
  { apply (mi_kernel_walk _ _ _ HW); [|done]. intros x Hx. apply Hm. by left. }
  assert (is_Some (S !! P)) as [T HT] by (apply elem_of_dom; set_solver). pose proof (mi_tree _ _ _ HW P T HT) as Ht.
  assert (Hx : ∀ x, vframe x ∈ tables T → m' x = mem_of w x) by (intros x Hx; apply Hm; right; eauto).
  rewrite (mmu_walk_tree _ _ _ _ (tree_ext _ _ _ _ Ht Hx) Hv), (mmu_walk_tree _ _ _ _ Ht Hv). by eapply tree_walk_ext.
Qed.

(** A frame that was free is the root of no space. *)
Lemma free_root w F S q : mmu_inv w F S → q / PAGE_SIZE ∈ F → q ∉ {[K]} ∪ dom S.
Proof.
  intros HW Hq [->%elem_of_singleton|[T HT]%elem_of_dom]%elem_of_union.
  - destruct (mi_kernel _ _ _ HW) as (_ & _ & H1 & H2 & _). clear -H1 H2 Hq. set_solver.
  - apply (mi_tables _ _ _ HW q T HT (q / PAGE_SIZE)); [|by do 2 apply elem_of_union_l].
    apply elem_of_tables. exists [], q. split; [|done]. apply (mi_tree _ _ _ HW q T HT).
Qed.

Lemma mi_coherent w F S : mmu_inv w F S → in_use w → cr3 (w_mmu w) ∈ {[K]} ∪ dom S ∧ coherent w.
Proof.
  intros HW Hu. destruct (mi_cache _ _ _ HW) as [H|(m0 & T & HT & HF & _)]; [done|]. exfalso.
  unfold in_use in Hu. rewrite (mi_live _ _ _ HW) in Hu. revert Hu. apply (free_root w F S _ HW), HF, elem_of_tables.
  exists [], (cr3 (w_mmu w)). split; [apply HT|done].
Qed.

(** ** Walks through freed tables *)
Lemma link_entry m m' p i : link_word m m' (table_at p + 8 * i) → has (entry m' (table_at p) i) PTE_PRESENT = true →
  entry m' (table_at p) i = entry m (table_at p) i.
Proof.
  unfold entry. intros [H|H] Hp; [done|]. exfalso. unfold has in Hp. apply negb_true_iff, Z.eqb_neq in Hp. apply Hp.
  change PTE_PRESENT with (Z.ones 1). rewrite Z.land_ones by lia. dlia.
Qed.

Lemma node_tables T a p : T !! a = Some p → p / PAGE_SIZE ∈ tables T.
Proof. intros H. apply elem_of_tables. eauto. Qed.

Lemma relinked_walk m m' P T v l : tree m P T → relinked (tables T) m m' → is_user v →
  mmu_walk m' P v = Some l → mmu_walk m P v = Some l.
Proof.
  intros HT Hr Hv. destruct (slot_path v Hv) as (S1 & S2 & S3). pose proof (idx_range v) as Hi.
  assert (Hl : ∀ a p i, T !! a = Some p → 0 ≤ i < 512 → has (entry m' (table_at p) i) PTE_PRESENT = true →
    entry m' (table_at p) i = entry m (table_at p) i).
  { intros a p i Ha Hi' Hp. apply link_entry; [|done]. apply Hr; [by eapply tree_node|by eapply node_tables|done]. }
  pose proof (tree_root _ _ _ HT) as E0. unfold mmu_walk, next_table.
  destruct (has (entry m' (table_at P) (pml4_idx v)) PTE_PRESENT) eqn:H4; cbn [negb]; [|done].
  rewrite (Hl [] P) in H4 |- * by (done || lia). rewrite H4. cbn [negb].
  pose proof (tree_child m P T [] (pml4_idx v) P HT E0 ltac:(simpl; lia) S1) as E1. rewrite H4 in E1.
  set (p3 := Z.land (entry m (table_at P) (pml4_idx v)) PTE_ADDR_MASK) in *.
  destruct (has (entry m' (table_at p3) (pdpt_idx v)) PTE_PRESENT) eqn:H3; cbn [negb]; [|done].
  rewrite (Hl (path1 v) p3) in H3 |- * by (done || lia). rewrite H3. cbn [negb].
  pose proof (tree_child m P T (path1 v) (pdpt_idx v) p3 HT E1 ltac:(simpl; lia) S2) as E2. rewrite H3 in E2.
  set (p2 := Z.land (entry m (table_at p3) (pdpt_idx v)) PTE_ADDR_MASK) in *.
  destruct (has (entry m' (table_at p2) (pd_idx v)) PTE_PRESENT) eqn:H2; cbn [negb]; [|done].
  rewrite (Hl (path2 v) p2) in H2 |- * by (done || lia). rewrite H2. cbn [negb].
  destruct (has (entry m (table_at p2) (pd_idx v)) PTE_LARGE) eqn:HL; [done|].
  destruct (tree_down _ _ _ HT (path2 v) (pd_idx v) p2 E2 ltac:(simpl; lia) S3) as [E3 _]. unfold child_of in E3. rewrite H2, HL in E3.
  cbn [andb negb] in E3. set (p1 := Z.land (entry m (table_at p2) (pd_idx v)) PTE_ADDR_MASK) in *.
  destruct (has (entry m' (table_at p1) (pt_idx v)) PTE_PRESENT) eqn:H1; [|done].
  rewrite (Hl (path3 v) p1) in H1 |- * by (done || lia). by rewrite H1.
Qed.

(** ** Steps that leave every table alone *)
Lemma inv_other w F S s' F' D' : mmu_inv w F S → in_use w ∨ F ⊆ F' ∧ relinked F (mem_of w) (ram s') → pmm_inv true s' F' →
  (∀ x, is_table S (vframe x) → ram s' x = mem_of w x) → (∀ f, f ∈ F' ∨ f ∈ D' → f ∈ F ∨ f ∈ data w) → D' ## F' →
  mmu_inv {| w_mmu := set_memory (w_mmu w) s'; live := live w; data := D' |} F' S.
Proof.
  intros HW Hcase HI Hm Hsub HD. assert (Hwalk : ∀ P v, P ∈ {[K]} ∪ dom S → is_user v → mmu_walk (ram s') P v = mmu_walk (mem_of w) P v).
  { intros P v HP Hv. apply (walk_same w F S); [done..|]. intros x [[_ Hx]|(T & HT & Hx)]; apply Hm; [by left|right; eauto]. }
  pose proof (mi_coherent w F S HW) as Hin.
  destruct HW as [_ Hlv Htr Htb Hap Hda Hk Hkw Hsm Hlo Hca]; split; cbn [w_mmu memory set_memory live data cr3 tlb]; try done.
  - intros P T HP. apply (tree_ext (mem_of w)); [by apply Htr|]. intros x Hx. apply Hm. right. eauto.
  - intros P T HP f Hf Hf'. pose proof (Htb P T HP f Hf). set_solver.
  - intros f Hf Hf'. pose proof (Hsub f ltac:(by right)). destruct Hk as (_ & _ & _ & Hk & _). set_solver.
  - destruct Hk as (H1 & H2 & H3 & H4 & H5). split_and!; try done. intros f Hf Hf'. pose proof (Hsub f ltac:(by left)). set_solver.
  - intros m' Hm' v Hv. rewrite Hwalk by set_solver. apply Hkw; [|done]. intros x Hx. rewrite Hm' by done. apply Hm. by left.
  - intros P v l HP Hv. rewrite Hwalk by set_solver. by apply Hsm.
  - intros P v l HP Hv. rewrite Hwalk by done. by apply Hlo.
  - assert (Hcur : cr3 (w_mmu w) ∈ {[K]} ∪ dom S ∧ coherent w → cr3 (w_mmu w) ∈ {[K]} ∪ dom S ∧
      coherent {| w_mmu := set_memory (w_mmu w) s'; live := live w; data := D' |}).
    { intros [Hc Hco]. split; [done|]. intros v l Hv Hl. cbn. rewrite Hwalk by done. by apply Hco. }
    destruct Hcase as [Hu|[HF Hr]]; [left; by apply Hcur, Hin|]. destruct Hca as [Hc|(m0 & T & HT & HTF & Hrl & Hg)]; [left; by apply Hcur|right].
    exists m0, T. split_and!; [done|by etrans| |apply Hg..]. intros p i Hp Hf Hi. eapply link_word_trans; [by apply Hrl|]. apply Hr; auto.
Qed.

(** ** Steps on one space *)
Lemma other_space w F S P T m' Q v : mmu_inv w F S → S !! P = Some T → agree_outside (F ∪ tables T) (mem_of w) m' →
  Q ∈ {[K]} ∪ dom S → Q ≠ P → is_user v → mmu_walk m' Q v = mmu_walk (mem_of w) Q v.
Proof.
  intros HW HP Hm HQ Hne Hv. apply (walk_same w F S); [done..|]. intros x Hx. apply Hm. intros [Hf|Hf]%elem_of_union.
  - destruct (table_not_free w F S (vframe x) HW) as [Hn _]; [|by apply Hn]. destruct Hx as [[_ Hx]|(U & HU & Hx)]; [by left|right; eauto].
  - destruct Hx as [[_ Hx]|(U & HU & Hx)]; [pose proof (mi_tables _ _ _ HW P T HP)|pose proof (mi_apart _ _ _ HW P Q T U HP HU)]; set_solver.
Qed.

Lemma inv_update w F S P T s' F' T' t' : mmu_inv w F S → in_use w → S !! P = Some T → vmm_inv (pmm_inv true) s' F' P T' →
  F' ∪ tables T' ⊆ F ∪ tables T → agree_outside (F ∪ tables T) (mem_of w) (ram s') →
  (∀ v l, is_user v → mmu_walk (ram s') P v = Some l → (∃ e, l = Small e) ∧ is_global l = false) →
  (∀ v l, is_user v → t' !! page v = Some l → mmu_walk (ram s') (cr3 (w_mmu w)) v = Some l) →
  mmu_inv {| w_mmu := {| memory := s'; cr3 := cr3 (w_mmu w); tlb := t' |}; live := live w; data := data w |} F' (<[P := T']> S).
Proof.
  intros HW Hu HP [HI HT HD] Hsub Hm HPw Hco'. pose proof (mi_coherent w F S HW Hu) as [Hcu _].
  pose proof (λ Q v, other_space w F S P T (ram s') Q v HW HP Hm) as Hwalk. pose proof (mi_tables _ _ _ HW P T HP) as HPT.
  assert (Hdom : dom (<[P := T']> S) = dom S) by (apply dom_insert_lookup_L; eauto).
  assert (HPK : P ≠ K). { destruct (mi_kernel _ _ _ HW) as (_ & _ & _ & _ & HK). intros ->. apply HK, elem_of_dom. eauto. }
  pose proof (mi_tables _ _ _ HW) as Htb. pose proof (mi_apart _ _ _ HW) as Hap.
  pose proof HW as [_ Hlv Htr _ _ Hda Hk Hkw Hsm Hlo _]; split; cbn [w_mmu memory live data cr3 tlb]; rewrite ?Hdom; [done..| | | | | | | | |by left].
  - intros Q U [[<- <-]|[Hne HQ]]%lookup_insert_Some; [done|]. apply (tree_ext (mem_of w)); [by apply Htr|].
    intros x Hx. apply Hm. pose proof (Htb Q U HQ) as H1. pose proof (Hap P Q T U HP HQ Hne) as H2. clear -H1 H2 Hx. set_solver.
  - destruct Hk as (_ & _ & _ & Hk & _). intros Q U [[<- <-]|[Hne HQ]]%lookup_insert_Some.
    + clear -Hsub HD HPT Hda Hk. set_solver.
    + pose proof (Htb Q U HQ) as H1. pose proof (Hap P Q T U HP HQ Hne) as H2. clear -Hsub H1 H2. set_solver.
  - intros Q R U V [[<- <-]|[HneQ HQ]]%lookup_insert_Some [[<- <-]|[HneR HR]]%lookup_insert_Some HQR; [done|..].
    + pose proof (Htb R V HR) as H1. pose proof (Hap P R T V HP HR HneR) as H2. clear -Hsub H1 H2. set_solver.
    + pose proof (Htb Q U HQ) as H1. pose proof (Hap P Q T U HP HQ HneQ) as H2. clear -Hsub H1 H2. set_solver.
    + by apply (Hap Q R U V).
  - clear -Hsub HPT Hda. set_solver.
  - destruct Hk as (H1 & H2 & H3 & H4 & H5). split_and!; try done. clear -Hsub HPT H4. set_solver.
  - intros m' Hm' v Hv. rewrite (Hwalk K v) by first [done|apply elem_of_union_l, elem_of_singleton; done|exact (not_eq_sym HPK)].
    apply Hkw; [|done]. intros x Hx. rewrite Hm' by done. apply Hm.
    destruct Hk as (_ & _ & _ & Hk & _). clear -Hk HPT Hx. set_solver.
  - intros Q v l HQ Hv. destruct (decide (Q = P)) as [-> | Hne]; [intros Hl; by apply (HPw v)|].
    rewrite Hwalk by first [done|by apply elem_of_union_r]. by apply Hsm.
  - intros Q v l HQ Hv. destruct (decide (Q = P)) as [-> | Hne]; [intros Hl; by apply (HPw v)|].
    rewrite Hwalk by done. by apply Hlo.
Qed.

Lemma inv_add w F S Q U : mmu_inv w F S → tree (mem_of w) Q U → tables U ## F ∪ data w ∪ KT → Q ∉ {[K]} ∪ dom S →
  (∀ P T, S !! P = Some T → tables T ## tables U) →
  (∀ v l, is_user v → mmu_walk (mem_of w) Q v = Some l → (∃ e, l = Small e) ∧ is_global l = false) →
  mmu_inv {| w_mmu := w_mmu w; live := {[Q]} ∪ live w; data := data w |} F (<[Q := U]> S).
Proof.
  intros HW HU HUd HQ Hap' HQw. apply not_elem_of_union in HQ as [HQK HQ]. rewrite elem_of_singleton in HQK.
  destruct HW as [Hi Hlv Htr Htb Hap Hda Hk Hkw Hsm Hlo Hca]; split; cbn [w_mmu live data]; rewrite ?dom_insert_L; try done.
  - by rewrite Hlv.
  - intros P T [[<- <-]|[_ HP]]%lookup_insert_Some; [done|]. by apply Htr.
  - intros P T [[<- <-]|[_ HP]]%lookup_insert_Some; [done|]. by apply (Htb P).
  - intros P R T V [[<- <-]|[HnP HP]]%lookup_insert_Some [[<- <-]|[HnR HR]]%lookup_insert_Some HPR; [done|..].
    + symmetry. by apply (Hap' R). + by apply (Hap' P). + by apply (Hap P R).
  - destruct Hk as (H1 & H2 & H3 & H4 & H5). split_and!; try done. clear -H5 HQK. set_solver.
  - intros P v l [->%elem_of_singleton|HP]%elem_of_union Hv Hl; [by apply (HQw v)|]. by apply (Hsm P v).
  - intros P v l HP Hv Hl. destruct (decide (P = Q)) as [-> | Hne]; [by apply (HQw v)|]. apply (Hlo P v); [clear -HP Hne; set_solver|done..].
  - destruct Hca as [[Hc Hco]|Hd]; [left; split; [clear -Hc; set_solver|done]|by right].
Qed.

(** ** The cache *)
Lemma mmu_walk_page m P v v' : page v = page v' → mmu_walk m P v = mmu_walk m P v'.
Proof. intros E. unfold mmu_walk. destruct (page_idx v v' E) as [[= -> -> ->] ->]. done. Qed.

(** No user translation survives a load of [cr3]. *)
Lemma flushed w F S v l : mmu_inv w F S → is_user v → filter (λ x, is_global x.2 = true) (tlb (w_mmu w)) !! page v = Some l → False.
Proof.
  intros HW Hv [Hl Hg]%map_lookup_filter_Some. cbn in Hg. destruct (mi_cache _ _ _ HW) as [[Hc Hco]|(m0 & T & _ & _ & _ & _ & Hn)].
  - pose proof (mi_local _ _ _ HW _ v l Hc Hv (Hco v l Hv Hl)). congruence.
  - rewrite (Hn v l Hv Hl) in Hg. done.
Qed.

Lemma inv_tlb w F S t : mmu_inv w F S →
  (∀ v l, is_user v → t !! page v = Some l → tlb (w_mmu w) !! page v = Some l ∨ mmu_walk (mem_of w) (cr3 (w_mmu w)) v = Some l) →
  mmu_inv {| w_mmu := set_tlb (w_mmu w) t; live := live w; data := data w |} F S.
Proof.
  intros [? ? ? ? ? ? ? ? ? ? Hca] Ht. split; try done. destruct Hca as [[Hc Hco]|(m0 & T & HT & HF & Hr & Hw & Hn)]; [left|right].
  - split; [done|]. intros v l Hv Hl. destruct (Ht v l Hv Hl) as [H|H]; [by apply Hco|done].
  - exists m0, T. split_and!; try done. intros v l Hv Hl. destruct (Ht v l Hv Hl) as [H|H]; [by apply (Hn v)|].
    apply (Hw v l Hv). by apply (relinked_walk m0 (mem_of w) _ T).
Qed.

Lemma inv_activate w F S P : mmu_inv w F S → P ∈ {[K]} ∪ live w →
  mmu_inv {| w_mmu := write_cr3 P (w_mmu w); live := live w; data := data w |} F S.
Proof.
  intros HW HP. pose proof (flushed w F S) as Hf. pose proof (mi_live _ _ _ HW) as Hl. rewrite Hl in HP.
  pose proof HW as [? ? ? ? ? ? ? ? ? ? _]. split; try done. left. split; [done|].
  cbn. intros v l Hv Hvl. exfalso. by eapply Hf.
Qed.

(** ** Changing one page of a space *)
Lemma inv_one_page w F S P T s' F' T' v (W : Z → option leaf) (b : bool) : mmu_inv w F S → in_use w → S !! P = Some T → is_user v →
  remaps (pmm_inv true) P (memory (w_mmu w)) F T s' F' T' W →
  (∀ v' l, is_user v' → W v' = Some l → (∃ e, l = Small e) ∧ is_global l = false) →
  (∀ v', is_user v' → page v' ≠ page v ∨ b = false → W v' = mmu_walk (mem_of w) P v') →
  let t := if b then delete (page v) (tlb (w_mmu w)) else tlb (w_mmu w) in
  ∃ F' S', mmu_inv {| w_mmu := {| memory := s'; cr3 := cr3 (w_mmu w); tlb := t |}; live := live w; data := data w |} F' S'.
Proof.
  intros HW Hu HP Hv HR HWl HWs t. pose proof (mi_coherent w F S HW Hu) as [Hcur Hcoh]. pose proof (λ v', remaps_mmu _ P _ F T _ F' T' W v' HR) as Hmmu. destruct HR as [RV RF RM _].
  exists F', (<[P := T']> S). apply (inv_update w F S P T); try done.
  { intros v' l Hv' Hl. rewrite Hmmu in Hl by done. by apply (HWl v'). }
  intros v' l Hv' Hl. assert (Hold : tlb (w_mmu w) !! page v' = Some l ∧ (page v' ≠ page v ∨ b = false)).
  { unfold t in Hl. destruct b; [|by split; [|right]]. apply lookup_delete_Some in Hl as [Hne Hl]. split; [done|]. left. by apply not_eq_sym. }
  destruct Hold as [Hold Hpg]. pose proof (Hcoh v' l Hv' Hold) as Hco.
  destruct (decide (cr3 (w_mmu w) = P)) as [E|Hne]; [rewrite E, Hmmu, HWs by done; by rewrite <- E|].
  rewrite (other_space w F S P T); [done..|exact Hcur|done|done].
Qed.

Lemma make_pte_local phys flags : plain flags → is_global (Small (make_pte phys flags)) = false.
Proof.
  intros [_ Hg]. unfold is_global, leaf_entry, make_pte. rewrite !has_lor, Hg, has_mask by done. done.
Qed.

Lemma live_tables w F S P : mmu_inv w F S → P ∈ live w →
  ∃ T, S !! P = Some T ∧ vmm_inv (pmm_inv true) (memory (w_mmu w)) F P T ∧
    (∀ v e, is_user v → mmu_walk (mem_of w) P v ≠ Some (Large e)) ∧
    (∀ v, is_user v → tree_walk (mem_of w) T v = mmu_walk (mem_of w) P v).
Proof.
  intros HW HP. rewrite (mi_live _ _ _ HW) in HP. pose proof HP as [T HT]%elem_of_dom. exists T. pose proof (mi_tree _ _ _ HW P T HT) as Ht.
  split_and!; [done| | |].
  - split; [apply HW|done|]. pose proof (mi_tables _ _ _ HW P T HT) as H1. clear -H1. set_solver.
  - intros v e Hv Hw. destruct (mi_small _ _ _ HW P v _ HP Hv Hw) as [? ?]. done.
  - intros v Hv. symmetry. by apply mmu_walk_tree.
Qed.

Lemma inv_map w F S P v phys flags ok u : mmu_inv w F S → in_use w → P ∈ live w → is_user v → is_u64 phys → plain flags →
  map_ {| pml4_phys := P |} v phys flags (w_mmu w) = Ret (ok, u) →
  ∃ F' S', mmu_inv {| w_mmu := u; live := live w; data := data w |} F' S'.
Proof.
  intros HW Hu HP Hv Hph Hfl E. destruct (live_tables w F S P HW HP) as (T & HT & HV & Hnl & Hw).
  destruct (map_spec (pmm_inv true) (memory (w_mmu w)) F P T v phys flags HV Hv Hph (proj1 Hfl))
    as (ok' & s' & F' & T' & E' & _ & _ & _ & HR); [intros e; rewrite Hw by done; by apply Hnl|].
  unfold map_ in E. rewrite E' in E. cbn in E. injection E as <- <-.
  destruct (inv_one_page w F S P T s' F' T' v _ ok' HW Hu HT Hv HR) as (F2 & S2 & HI).
  - intros v' l Hv' Hl. case_decide; [simplify_eq; split; [eauto|by apply make_pte_local]|]. rewrite Hw in Hl by done.
    rewrite (mi_live _ _ _ HW) in HP. split; [by apply (mi_small _ _ _ HW P v')|]. apply (mi_local _ _ _ HW P v'); [by apply elem_of_union_r|done..].
  - intros v' Hv' Hor. rewrite decide_False; [by apply Hw|]. intros [-> Hp]. by destruct Hor.
  - exists F2, S2. destruct ok'; exact HI.
Qed.

Lemma unmap_cases sp v u u' : unmap_ sp v u = Ret u' →
  u' = u ∨ ∃ s', unmap (memory u) sp v = Ret s' ∧ u' = invlpg v (set_memory u s').
Proof.
  unfold unmap_, unmap. intros H. destruct (phys_to_virt _) as [pml4| |]; [|done..]. exec_simpl.
  revert H. exec_simpl. destruct (get_table _ pml4 _) as [[pdpt|]| |]; exec_simpl; try done; [|by intros [= <-]; left].
  destruct (get_table _ pdpt _) as [[pd|]| |]; exec_simpl; try done; [|by intros [= <-]; left].
  destruct (get_table _ pd _) as [[pt|]| |]; exec_simpl; try done; [|by intros [= <-]; left].
  destruct (set_entry _ pt _ _) as [s'| |]; exec_simpl; try done. intros [= <-]. right. eauto.
Qed.

Lemma inv_unmap w F S P v u : mmu_inv w F S → in_use w → P ∈ live w → is_user v → unmap_ {| pml4_phys := P |} v (w_mmu w) = Ret u →
  ∃ F' S', mmu_inv {| w_mmu := u; live := live w; data := data w |} F' S'.
Proof.
  intros HW Hu HP Hv [-> | (s' & E & ->)]%unmap_cases; [exists F, S; by destruct HW|].
  destruct (live_tables w F S P HW HP) as (T & HT & HV & Hnl & Hw).
  destruct (unmap_spec (pmm_inv true) (memory (w_mmu w)) F P T v HV Hv) as (s2 & E2 & HR); [intros e; rewrite Hw by done; by apply Hnl|].
  rewrite E in E2. injection E2 as <-. apply (inv_one_page w F S P T s' F T v _ true HW Hu HT Hv HR).
  - intros v' l Hv' Hl. case_decide; [done|]. rewrite Hw in Hl by done.
    rewrite (mi_live _ _ _ HW) in HP. split; [by apply (mi_small _ _ _ HW P v')|]. apply (mi_local _ _ _ HW P v'); [by apply elem_of_union_r|done..].
  - intros v' Hv' Hor. rewrite decide_False; [by apply Hw|]. intros Hp. by destruct Hor.
Qed.

(** ** Making and dropping spaces *)
Lemma inv_new_user w F S sp s : mmu_inv w F S → in_use w → new_user K (memory (w_mmu w)) = Ret (Some sp, s) →
  ∃ F' S', mmu_inv {| w_mmu := set_memory (w_mmu w) s; live := {[pml4_phys sp]} ∪ live w; data := data w |} F' S'.
Proof.
  intros HW Hu E. destruct (mi_kernel _ _ _ HW) as (K1 & K2 & K3 & K4 & _).
  destruct (new_user_spec (pmm_inv true) K (memory (w_mmu w)) F (mi_free _ _ _ HW) K1 K2) as (r & s' & E' & Hr); [clear -K3 K4; set_solver|].
  rewrite E in E'. injection E' as <- <-. destruct Hr as (Hq & [HI HT HD] & Hnone & _ & Hm). set (q := pml4_phys sp) in *.
  assert (Htq : tables {[ [] := q ]} = {[q / PAGE_SIZE]}).
  { apply set_eq. intros f. rewrite elem_of_tables, elem_of_singleton. split.
    - intros (a & p & [_ <-]%lookup_singleton_Some & ->). done. - intros ->. exists [], q. by rewrite lookup_singleton_eq. }
  exists (F ∖ {[q / PAGE_SIZE]}), (<[q := {[ [] := q ]}]> S).
  assert (HW' : mmu_inv {| w_mmu := set_memory (w_mmu w) s; live := live w; data := data w |} (F ∖ {[q / PAGE_SIZE]}) S).
  { apply (inv_other w F S); [done|by left|done| | |].
    - intros x Hx. apply Hm. by destruct (table_not_free w F S _ HW Hx).
    - clear. set_solver.
    - pose proof (mi_data _ _ _ HW) as H1. clear -H1. set_solver. }
  apply (inv_add _ _ S q _ HW'); [exact HT| |by apply (free_root w F)| |].
  - rewrite Htq. pose proof (mi_data _ _ _ HW) as H1. clear -H1 K4 Hq. set_solver.
  - intros P T HP. rewrite Htq. pose proof (mi_tables _ _ _ HW P T HP) as H1. clear -H1 Hq. set_solver.
  - intros v l Hv Hl. cbn [w_mmu set_memory memory] in Hl. by rewrite Hnone in Hl.
Qed.

(** The space in use may itself be dropped. *)
Lemma drop_cache w F S P T s : mmu_inv w F S → S !! P = Some T → agree_outside (F ∪ tables T) (mem_of w) (ram s) → relink (mem_of w) (ram s) →
  let w' := {| w_mmu := set_memory (w_mmu w) s; live := live w ∖ {[P]}; data := data w |} in
  (cr3 (w_mmu w') ∈ {[K]} ∪ (dom S ∖ {[P]}) ∧ coherent w') ∨ dropped w' (F ∪ tables T).
Proof.
  intros HW HT Hm HL w'. assert (HP : P ∈ dom S) by (apply elem_of_dom; eauto).
  destruct (mi_cache _ _ _ HW) as [[Hc Hco]|(m0 & U & HU & HF & Hr & Hg)]; cycle 1.
  { right. exists m0, U. split_and!; [done|clear -HF; set_solver| |apply Hg..]. intros p i Hp Hf Hi. eapply link_word_trans; [by apply Hr|by apply HL]. }
  destruct (decide (cr3 (w_mmu w) = P)) as [E|Hne]; [right|left].
  - exists (mem_of w), T. cbn. rewrite E. split_and!; [by apply (mi_tree _ _ _ HW)|clear; set_solver| | |].
    + intros p i Hp _ Hi. by apply HL.
    + intros v l Hv. apply (mi_local _ _ _ HW); [by apply elem_of_union_r|done].
    + intros v l Hv Hl. apply (mi_local _ _ _ HW _ v l Hc Hv). by apply Hco.
  - split; [cbn; clear -Hc Hne; set_solver|]. intros v l Hv Hl. cbn. rewrite (other_space w F S P T); [by apply Hco|done..].
Qed.

Lemma inv_drop w F S P s : mmu_inv w F S → P ∈ live w → AddressSpace_drop (memory (w_mmu w)) {| pml4_phys := P |} = Ret s →
  ∃ F' S', mmu_inv {| w_mmu := set_memory (w_mmu w) s; live := live w ∖ {[P]}; data := data w |} F' S'.
Proof.
  intros HW HP E. destruct (live_tables w F S P HW HP) as (T & HT & HV & _ & _).
  destruct (drop_links (pmm_inv true) (memory (w_mmu w)) F P T HV) as (s' & E' & HI & Hm & HL). rewrite E in E'. injection E' as <-.
  pose proof (λ Q v, other_space w F S P T (ram s) Q v HW HT Hm) as Hwalk. exists (F ∪ tables T), (delete P S).
  pose proof (mi_tables _ _ _ HW P T HT) as HPT. pose proof (mi_apart _ _ _ HW) as Hap. pose proof (mi_tables _ _ _ HW) as Htb.
  pose proof HW as [_ Hlv Htr _ _ Hda Hk Hkw Hsm Hlo Hca]; split; cbn [w_mmu set_memory memory live data cr3 tlb]; rewrite ?dom_delete_L; try done.
  - by rewrite Hlv.
  - intros Q U [Hne HQ]%lookup_delete_Some. apply (tree_ext (mem_of w)); [by apply Htr|]. intros x Hx. apply Hm.
    pose proof (Htb Q U HQ) as H1. pose proof (Hap P Q T U HT HQ Hne) as H2. clear -H1 H2 Hx. set_solver.
  - intros Q U [Hne HQ]%lookup_delete_Some. pose proof (Htb Q U HQ) as H1. pose proof (Hap P Q T U HT HQ Hne) as H2. clear -H1 H2. set_solver.
  - intros Q R U V [_ HQ]%lookup_delete_Some [_ HR]%lookup_delete_Some. by apply (Hap Q R).
  - clear -Hda HPT. set_solver.
  - destruct Hk as (H1 & H2 & H3 & H4 & H5). split_and!; try done; [clear -H4 HPT|clear -H5]; set_solver.
  - assert (HPK : K ≠ P). { destruct Hk as (_ & _ & _ & _ & HK). intros ->. apply HK, elem_of_dom. eauto. }
    intros m' Hm' v Hv. rewrite (Hwalk K v) by first [done|apply elem_of_union_l, elem_of_singleton; done].
    apply Hkw; [|done]. intros x Hx. rewrite Hm' by done. apply Hm. destruct Hk as (_ & _ & _ & Hk & _). clear -Hk HPT Hx. set_solver.
  - intros Q v l [HQ Hne]%elem_of_difference Hv. rewrite elem_of_singleton in Hne.
    rewrite Hwalk by first [done|by apply elem_of_union_r]. by apply Hsm.
  - intros Q v l HQ Hv. assert (Q ∈ {[K]} ∪ dom S ∧ Q ≠ P) as [H1 H2].
    { destruct Hk as (_ & _ & _ & _ & HK). rewrite Hlv in HP. clear -HQ HK HP. set_solver. }
    rewrite Hwalk by done. by apply Hlo.
  - by apply (drop_cache w F S P T s).
Qed.

(** ** [fork] *)
Lemma has_land_l e x bit : has e bit = false → has (Z.land e x) bit = false.
Proof.
  unfold has. rewrite !negb_false_iff, !Z.eqb_eq. intros H.
  by rewrite <- Z.land_assoc, (Z.land_comm x), Z.land_assoc, H, Z.land_0_l.
Qed.
Lemma cow_local l : is_global l = false → is_global (cow_leaf l) = false.
Proof.
  unfold is_global, cow_leaf, cow_pte, clear_writable. destruct l as [e|e]; cbn [leaf_entry]; intros H; [|done].
  destruct (has e PTE_USER); [by apply has_land_l|done].
Qed.

Lemma inv_fork w F S P vm r u : mmu_inv w F S → in_use w → P ∈ live w → clone_address_space_ {| pml4_phys := P |} vm (w_mmu w) = Ret (r, u) →
  ∃ F' S', mmu_inv {| w_mmu := u; live := match r with Some (sp, _) => {[pml4_phys sp]} ∪ live w | None => live w end; data := data w |} F' S'.
Proof.
  intros HW Hu HP E. destruct (live_tables w F S P HW HP) as (T & HT & HV & Hnl & _).
  destruct (clone_refines true (memory (w_mmu w)) F P T vm HV Hnl) as (r' & s' & E' & HR).
  destruct (clone_frame true _ F P T vm r' s' HV Hnl E') as [Hm Hfail].
  unfold clone_address_space_ in E. rewrite E' in E. cbn in E. injection E as <- <-. destruct r' as [[sp vm']|]; cycle 1.
  { destruct (Hfail eq_refl) as [(F' & HF & HI) HmT]. exists F', S. apply (inv_other w F S); [done|by left|done| | |].
    - intros x Hx. destruct (decide (vframe x ∈ tables T)) as [Hin|Hin]; [by apply HmT|]. apply Hm.
      apply not_elem_of_union. split; [|done]. by destruct (table_not_free w F S _ HW Hx).
    - clear -HF. set_solver.
    - pose proof (mi_data _ _ _ HW) as H1. clear -H1 HF. set_solver. }
  destruct HR as (F' & C & _ & HF & _ & HV1 & HV2 & Hw & _). set (q := pml4_phys sp) in *.
  assert (Hcow : ∀ Q v l, is_user v → cow_leaf <$> mmu_walk (mem_of w) P v = mmu_walk (ram s') Q v → mmu_walk (ram s') Q v = Some l → (∃ e, l = Small e) ∧ is_global l = false).
  { rewrite (mi_live _ _ _ HW) in HP. intros Q v l Hv <- (l0 & Hl0 & ->)%fmap_Some_1. destruct (mi_small _ _ _ HW P v l0 HP Hv Hl0) as [e ->].
    split; [by eexists|]. apply cow_local. apply (mi_local _ _ _ HW P v); [by apply elem_of_union_r|done..]. }
  assert (HW1 : mmu_inv {| w_mmu := flush_tlb_all (set_memory (w_mmu w) s'); live := live w; data := data w |} F' (<[P := T]> S)).
  { apply (inv_update w F S P T); try done.
    - clear -HF. set_solver.
    - intros v l Hv. apply (Hcow P v l Hv). symmetry. by apply Hw.
    - intros v l Hv Hl. exfalso. by apply (flushed w F S v l HW Hv). }
  assert (HqF : q / PAGE_SIZE ∈ F).
  { rewrite <- HF. apply elem_of_union_r, elem_of_tables. exists [], q. split; [|done]. apply HV2. }
  assert (HCF : tables C ⊆ F) by (clear -HF; set_solver).
  exists F', (<[q := C]> (<[P := T]> S)). apply (inv_add _ _ _ q C HW1); [apply HV2| | | |].
  - pose proof (vi_apart _ _ _ _ _ HV2) as H1. pose proof (mi_data _ _ _ HW) as H2. destruct (mi_kernel _ _ _ HW) as (_ & _ & _ & H3 & _).
    cbn [data]. clear -H1 H2 H3 HCF. set_solver.
  - rewrite dom_insert_lookup_L by eauto. by apply (free_root w F).
  - intros Q U [[<- <-]|[_ HQ]]%lookup_insert_Some; [pose proof (mi_tables _ _ _ HW P T HT) as H1|pose proof (mi_tables _ _ _ HW Q U HQ) as H1];
      clear -H1 HCF; set_solver.
  - intros v l Hv. apply (Hcow q v l Hv). symmetry. by apply Hw.
Qed.

Lemma step_inv_mmu w w' : step w w' → (∃ F S, mmu_inv w F S) → ∃ F S, mmu_inv w' F S.
Proof.
  intros Hst (F & S & HW). destruct Hst as [w v l Hv Hl|w t Ht|w P v phys flags ok u|w P v u|w sp s|w P HP|w P vm r u|w P s|w p s Hu E|w p s Hp Hd E|w x b Hx].
  - exists F, S. apply inv_tlb; [done|]. intros v' l' Hv' [[Hp <-]|[_ Hl']]%lookup_insert_Some; [right|by left].
    by rewrite <- (mmu_walk_page _ _ _ _ Hp).
  - exists F, S. apply inv_tlb; [done|]. intros v' l' Hv' Hl'. left. by eapply lookup_weaken.
  - intros. by eapply inv_map. - intros. by eapply inv_unmap. - intros. by eapply inv_new_user.
  - exists F, S. by apply inv_activate.
  - intros. by eapply inv_fork. - intros. by eapply inv_drop.
  - destruct (fa_alloc _ _ (mi_free _ _ _ HW)) as (r & s' & E' & Hr). rewrite E in E'. injection E' as <- <-.
    destruct Hr as (_ & HpF & HI & _ & Hm). exists (F ∖ {[p / PAGE_SIZE]}), S. apply (inv_other w F S); [done|by left|done| | |].
    + intros y Hy. apply Hm. by destruct (table_not_free w F S _ HW Hy).
    + clear -HpF. set_solver.
    + pose proof (mi_data _ _ _ HW) as H1. clear -H1. set_solver.
  - pose proof (mi_data _ _ _ HW) as H1. destruct (fa_free _ _ p (mi_free _ _ _ HW) Hp) as (s' & E' & HI & Hm); [clear -H1 Hd; set_solver|].
    rewrite E in E'. injection E' as <-. exists (F ∪ {[p / PAGE_SIZE]}), S.
    assert (HpF : p / PAGE_SIZE ∉ F) by (clear -H1 Hd; set_solver). pose proof (fa_links _ F p s (mi_free _ _ _ HW) Hp HpF E) as HL.
    apply (inv_other w F S); [done|right|done| | |].
    + split; [clear; set_solver|]. intros q i Hq _ Hi. by apply HL.
    + intros y Hy. apply Hm. destruct (table_not_free w F S _ HW Hy) as [H2 H3].
      intros [Hf|Hf%elem_of_singleton]%elem_of_union; [by apply H2|]. by rewrite Hf in H3.
    + clear -Hd. set_solver.
    + clear -H1. set_solver.
  - exists F, S. pose proof (mi_data _ _ _ HW) as H1. apply (inv_other w F S); [done|right| | | |].
    + split; [done|]. intros q i Hq Hf Hi. left. apply load64_ext. intros y Hy. cbn. destruct (Z.eqb_spec y x) as [-> |]; [|done].
      exfalso. rewrite (vframe_node q x Hq) in Hx by (unfold table_at in Hy; lia). clear -H1 Hf Hx. set_solver.
    + apply fa_frame; [apply HW|]. intros y Hy. destruct (Z.eqb_spec y x) as [-> |]; [|done]. clear -H1 Hx Hy. set_solver.
    + intros y Hy. cbn. destruct (Z.eqb_spec y x) as [-> |]; [|done]. by destruct (table_not_free w F S _ HW Hy).
    + clear. set_solver.
    + clear -H1. set_solver.
Qed.

(** C9: The processor never uses a stale translation. The kernel maps and unmaps
    pages of any live address space, makes, clones, activates and drops address
    spaces, takes and returns single frames and writes to them, and the processor
    caches and forgets translations of user addresses in between as it likes. A
    space may be dropped while the processor runs on it, as [execve] does, until
    the next activation; in that window the kernel may also return frames, write
    to its own and drop further spaces. In every state reached this way in which
    the processor runs on the tables of the kernel or of a live space, an access to
    a user address goes where those tables say. *)
Theorem tlb_coherent w0 w F S v : mmu_inv w0 F S → rtc step w0 w → in_use w → is_user v →
  cpu_walk (w_mmu w) v = mmu_walk (ram (memory (w_mmu w))) (cr3 (w_mmu w)) v.
Proof.
  intros H0 Hrun Hu Hv. assert (∃ F S, mmu_inv w F S) as (F' & S' & HW).
  { clear Hv Hu. assert (H1 : ∃ F S, mmu_inv w0 F S) by eauto. clear H0. induction Hrun as [|w1 w2 w3 Hst _ IH]; [done|]. by apply IH, (step_inv_mmu w1). }
  destruct (mi_coherent w F' S' HW Hu) as [_ Hco].
  unfold cpu_walk. destruct (tlb (w_mmu w) !! page v) as [l|] eqn:E; [|done]. symmetry. by apply Hco.
Qed.
End Tlb.

(** ** The demo machine *)
Section Demo.
#[local] Existing Instance qemu_hhdm.

(** The boot page tables in frame 1 have an empty user half. *)
Definition demo_ram : mem := λ x, if vframe x =? 1 then 0 else ram demo_s x.
Definition demo_mmu : world :=
  {| w_mmu := {| memory := set_ram demo_s demo_ram; cr3 := demo_P; tlb := ∅ |}; live := {[demo_P]}; data := ∅ |}.
Abbreviation demo_spaces := ({[demo_P := {[ [] := demo_P ]}]} : gmap Z (gmap (list Z) Z)) (only parsing).

#[local] Opaque demo_s demo_P.

Lemma demo_tables : tables {[ [] := demo_P ]} = {[demo_P / PAGE_SIZE]}.
Proof.
  apply set_eq. intros f. rewrite elem_of_tables, elem_of_singleton. split.
  - intros (a & p & [_ <-]%lookup_singleton_Some & ->). done. - intros ->. exists [], demo_P. by rewrite lookup_singleton_eq.
Qed.
Lemma demo_root_not_1 : demo_P / PAGE_SIZE ≠ 1.
Proof. intros E. pose proof demo_root_frame as H. rewrite E in H. exact (demo_frame_1 H). Qed.
Lemma demo_F_usable f : f ∈ demo_F → f ≠ 1 ∧ f ≠ demo_P / PAGE_SIZE.
Proof.
  intros Hf. split.
  - intros ->. apply demo_frame_1. change (0x1000 / PAGE_SIZE) with 1. revert Hf. unfold demo_F. by intros [? _]%elem_of_difference.
  - intros ->. revert Hf. unfold demo_F. rewrite elem_of_difference, elem_of_singleton. naive_solver.
Qed.
#[local] Opaque demo_F.
Lemma demo_ram_same x : vframe x ≠ 1 → demo_ram x = ram demo_s x.
Proof. intros Hx. unfold demo_ram. by rewrite (proj2 (Z.eqb_neq _ _) Hx). Qed.

(** A root whose frame is zero maps nothing. *)
Lemma zero_root m v : (∀ x, vframe x ∈ ({[1]} : gset Z) → m x = demo_ram x) → is_user v → mmu_walk m 0x1000 v = None.
Proof.
  intros Hm Hv. unfold mmu_walk. pose proof (pml4_idx_user v Hv).
  rewrite (entry_ext (λ _, 0) m 0x1000); [done|split; [lia|reflexivity]|lia|].
  intros x Hx. change (0x1000 / PAGE_SIZE) with 1 in Hx. rewrite Hm by by apply elem_of_singleton. unfold demo_ram. by rewrite Hx.
Qed.

Lemma demo_mmu_inv : mmu_inv 0x1000 {[1]} demo_mmu demo_F demo_spaces.
Proof.
  destruct demo_space_inv as [[HI HT HD] Hnone]. rewrite demo_tables in HD.
  assert (HT' : tree demo_ram demo_P {[ [] := demo_P ]}).
  { apply (tree_ext (ram demo_s)); [done|]. intros x Hx. rewrite demo_tables, elem_of_singleton in Hx. apply demo_ram_same. rewrite Hx. apply demo_root_not_1. }
  assert (Hnone' : ∀ P v, P ∈ ({[0x1000]} ∪ dom demo_spaces : gset Z) → is_user v → mmu_walk demo_ram P v = None).
  { intros P v [->%elem_of_singleton|HP]%elem_of_union Hv; [by apply zero_root|]. rewrite dom_singleton_L, elem_of_singleton in HP. subst P.
    rewrite <- (Hnone v Hv), (mmu_walk_tree _ _ _ _ HT' Hv), (mmu_walk_tree _ _ _ _ HT Hv). apply (tree_walk_ext _ _ demo_P); [done..|].
    intros x Hx. rewrite demo_tables, elem_of_singleton in Hx. apply demo_ram_same. rewrite Hx. apply demo_root_not_1. }
  assert (HP1 : (0x1000 : Z) ∉ (dom demo_spaces : gset Z)).
  { rewrite dom_singleton_L, elem_of_singleton. intros E. apply demo_root_not_1. by rewrite <- E. }
  split; cbn [demo_mmu w_mmu memory live data cr3 tlb].
  - apply fa_frame; [done|]. intros x Hx. apply demo_ram_same, (demo_F_usable _ Hx).
  - by rewrite dom_singleton_L.
  - by intros P T [<- <-]%lookup_singleton_Some.
  - intros P T [<- <-]%lookup_singleton_Some. rewrite demo_tables. intros f ->%elem_of_singleton.
    rewrite !elem_of_union, elem_of_singleton. intros [[Hf|Hf]|Hf]; [by apply demo_F_usable in Hf as [_ ?]|by apply not_elem_of_empty in Hf|by apply demo_root_not_1].
  - intros P Q T U [<- <-]%lookup_singleton_Some [<- <-]%lookup_singleton_Some Hne. destruct (Hne eq_refl).
  - intros f Hf. destruct (not_elem_of_empty _ Hf).
  - split_and!; [split; [lia|reflexivity]|lia|by apply elem_of_singleton| |done]. intros f ->%elem_of_singleton Hf. by apply demo_F_usable in Hf as [? _].
  - intros m' Hm v Hv. by rewrite !zero_root.
  - intros P v l HP Hv. cbn [ram set_ram]. rewrite Hnone'; [done|by apply elem_of_union_r|done].
  - intros P v l HP Hv. cbn [ram set_ram]. by rewrite Hnone'.
  - left. split; [rewrite dom_singleton_L; apply elem_of_union_r; by apply elem_of_singleton|].
    intros v l Hv Hl. cbn [demo_mmu w_mmu tlb] in Hl. by rewrite lookup_empty in Hl.
Qed.

Lemma demo_live : demo_P ∈ live demo_mmu.
Proof. cbn [demo_mmu live]. by apply elem_of_singleton. Qed.

Lemma tlb_coherent_witness : ∃ ok u, map_ {| pml4_phys := demo_P |} 0x400123 0x345000 7 (w_mmu demo_mmu) = Ret (ok, u) ∧
  cpu_walk (activate {| pml4_phys := demo_P |} u) 0x400123 = mmu_walk (ram (memory u)) demo_P 0x400123.
Proof.
  assert (HV : vmm_inv (pmm_inv true) (memory (w_mmu demo_mmu)) demo_F demo_P {[ [] := demo_P ]} ∧ ∀ e, tree_walk (ram (memory (w_mmu demo_mmu))) {[ [] := demo_P ]} 0x400123 ≠ Some (Large e)).
  { destruct (live_tables 0x1000 {[1]} demo_mmu demo_F demo_spaces demo_P demo_mmu_inv) as (T & HT & HV & Hnl & Hw); [exact demo_live|].
    rewrite lookup_singleton_eq in HT. injection HT as <-. split; [done|]. intros e. rewrite Hw by (unfold is_user; lia). apply Hnl. unfold is_user; lia. }
  destruct (map_spec (pmm_inv true) _ demo_F demo_P _ 0x400123 0x345000 7 (proj1 HV)) as (ok & s' & F' & T' & E & _);
    [unfold is_user; lia|unfold is_u64; lia|split; [unfold is_u64; lia|reflexivity]|exact (proj2 HV)|].
  eexists ok, _. split; [unfold map_; rewrite E; reflexivity|].
  set (u := if ok then _ else _).
  apply (tlb_coherent 0x1000 {[1]} demo_mmu {| w_mmu := activate {| pml4_phys := demo_P |} u; live := {[demo_P]}; data := ∅ |} demo_F demo_spaces 0x400123).
  - exact demo_mmu_inv.
  - eapply rtc_l; [apply (Map _ demo_mmu demo_P 0x400123 0x345000 7 ok u); [unfold in_use; apply elem_of_union_r; exact demo_live|exact demo_live|unfold is_user; lia|unfold is_u64; lia|by split; [split; [unfold is_u64; lia|]|]|unfold map_; rewrite E; reflexivity]|].
    apply rtc_once. apply (Activate 0x1000 {| w_mmu := u; live := live demo_mmu; data := data demo_mmu |} demo_P).
    apply elem_of_union_r. exact demo_live.
  - unfold in_use. apply elem_of_union_r. exact demo_live.
  - unfold is_user. lia.
Defined.
End Demo.

