(* ===== verification/Proc.v ===== *)
(** Processes and the scheduler ([src/src/proc.rs]).

    A process is shared through [Arc<SpinLock<Process>>]: the model has a store
    of processes indexed by handles, and the run queue holds handles. [schedule]
    returns, with the new state, the transfer of control it ends in. *)
From S2P Require Import Prelude Machine Pmm Vmm Vma.

(** ** [Process] *)
Inductive ProcessState := Running | Runnable | Sleeping | Zombie | Dead.
#[global] Instance ProcessState_eq_dec : EqDecision ProcessState.
Proof. solve_decision. Defined.

Record CpuContext := {
  r15 : Z; r14 : Z; r13 : Z; r12 : Z; rbp : Z; rbx : Z; rsp : Z; rip : Z; rflags : Z; cs : Z; ss : Z
}.

Record Process := {
  pid : Z; ppid : Z; state : ProcessState; context : CpuContext;
  address_space : AddressSpace; vm : VmSpace;
  kernel_stack : Z; kernel_stack_size : Z; priority : Z;
  time_slice : Z; base_slice : Z; exit_code : Z; name : list Z;
  pending_signals : Z; signal_mask : Z
}.

Abbreviation KERNEL_STACK_SIZE := 16384 (only parsing).
Abbreviation DEFAULT_TIME_SLICE := 10 (only parsing).

Definition set_state (st : ProcessState) (p : Process) : Process := {|
  pid := pid p; ppid := ppid p; state := st; context := context p;
  address_space := address_space p; vm := vm p;
  kernel_stack := kernel_stack p; kernel_stack_size := kernel_stack_size p; priority := priority p;
  time_slice := time_slice p; base_slice := base_slice p; exit_code := exit_code p; name := name p;
  pending_signals := pending_signals p; signal_mask := signal_mask p |}.

Definition set_slice (n : Z) (p : Process) : Process := {|
  pid := pid p; ppid := ppid p; state := state p; context := context p;
  address_space := address_space p; vm := vm p;
  kernel_stack := kernel_stack p; kernel_stack_size := kernel_stack_size p; priority := priority p;
  time_slice := n; base_slice := base_slice p; exit_code := exit_code p; name := name p;
  pending_signals := pending_signals p; signal_mask := signal_mask p |}.

Definition set_exit_code (n : Z) (p : Process) : Process := {|
  pid := pid p; ppid := ppid p; state := state p; context := context p;
  address_space := address_space p; vm := vm p;
  kernel_stack := kernel_stack p; kernel_stack_size := kernel_stack_size p; priority := priority p;
  time_slice := time_slice p; base_slice := base_slice p; exit_code := n; name := name p;
  pending_signals := pending_signals p; signal_mask := signal_mask p |}.

(** ** [RunQueue] *)
Record sched := {
  procs : gmap positive Process;
  queue : list positive;
  current : option positive;
  NEXT_PID : Z
}.
Implicit Types (rq : sched) (h : positive) (q : list positive).

Definition set_procs rq (ps : gmap positive Process) : sched :=
  {| procs := ps; queue := queue rq; current := current rq; NEXT_PID := NEXT_PID rq |}.
Definition set_queue rq q : sched :=
  {| procs := procs rq; queue := q; current := current rq; NEXT_PID := NEXT_PID rq |}.
Definition set_current rq (c : option positive) : sched :=
  {| procs := procs rq; queue := queue rq; current := c; NEXT_PID := NEXT_PID rq |}.

(** [p.lock()] on a handle; an [Arc] always points to a process. *)
Definition with_proc (f : Process → Process) h rq : sched := set_procs rq (alter f h (procs rq)).

(** [NEXT_PID.fetch_add(1)] on an [AtomicU32] *)
Definition alloc_pid rq : Z * sched :=
  (NEXT_PID rq,
   {| procs := procs rq; queue := queue rq; current := current rq; NEXT_PID := (NEXT_PID rq + 1) mod U32 |}).

Definition is_state (st : ProcessState) (ps : gmap positive Process) h : bool :=
  match ps !! h with Some p => bool_decide (state p = st) | None => false end.
Definition prio (ps : gmap positive Process) h : Z :=
  match ps !! h with Some p => priority p | None => 0 end.

(** [iter().enumerate().filter(Runnable).min_by_key(priority)]: the index of the
    first runnable process among those with the least priority value. *)
Fixpoint best (ps : gmap positive Process) q : option (nat * Z) :=
  match q with
  | [] => None
  | h :: q =>
      let rest := prod_map S id <$> best ps q in
      if is_state Runnable ps h then
        match rest with
        | Some (i, k) => if prio ps h <=? k then Some (0%nat, prio ps h) else Some (i, k)
        | None => Some (0%nat, prio ps h)
        end
      else rest
  end.

Definition pick_next rq : option positive * sched :=
  match best (procs rq) (queue rq) with
  | Some (i, _) => (queue rq !! i, set_queue rq (delete i (queue rq)))
  | None => (None, rq)
  end.

Definition spawn rq h : sched := set_queue rq (queue rq ++ [h]).

Definition current_process rq : option positive := current rq.

(** How [schedule] ends: it returns; it saves the registers in the old process,
    sets the kernel stack of the TSS and continues the new process, with its page
    tables if they differ; or it continues the new process without saving. *)
Inductive transfer :=
  | Return_
  | ContextSwitch (old new : positive) (kst : Z) (activate : option Z)
  | JumpTo (new : positive).

Definition schedule rq : exec (sched * transfer) :=
  let old := current rq in
  let rq := set_current rq None in
  let rq :=
    match old with
    | None => rq
    | Some h =>
        let rq := if is_state Running (procs rq) h
                 then with_proc (λ p, set_slice (base_slice p) (set_state Runnable p)) h rq else rq in
        if is_state Dead (procs rq) h || is_state Zombie (procs rq) h then rq
        else set_queue rq (queue rq ++ [h])
    end in
  let '(next, rq) := pick_next rq in
  let rq := match next with Some h => with_proc (set_state Running) h rq | None => rq end in
  let rq := set_current rq next in
  match old, next with
  | Some o, Some n =>
      if decide (o = n) then Ret (rq, Return_)
      else
        np ← expect (procs rq !! n);
        op ← expect (procs rq !! o);
        kst ← u64_add (kernel_stack np) KERNEL_STACK_SIZE;
        let act := if pml4_phys (address_space op) =? pml4_phys (address_space np) then None
                   else Some (pml4_phys (address_space np)) in
        Ret (rq, ContextSwitch o n kst act)
  | _, Some n => Ret (rq, JumpTo n)
  | _, None => Ret (rq, Return_)
  end.

Definition tick rq : exec (sched * transfer) :=
  match current rq with
  | None => Ret (rq, Return_)
  | Some h =>
      let rq := with_proc (λ p, if 0 <? time_slice p then set_slice (time_slice p - 1) p else p) h rq in
      match procs rq !! h with
      | Some p => if time_slice p =? 0 then schedule rq else Ret (rq, Return_)
      | None => Ret (rq, Return_)
      end
  end.

Definition sleep_current rq : exec (sched * transfer) :=
  schedule (match current rq with Some h => with_proc (set_state Sleeping) h rq | None => rq end).

(** The loop of [wake_up]: the first match is woken, and the loop ends. *)
Fixpoint wake_first (pd : Z) (ps : gmap positive Process) q : gmap positive Process :=
  match q with
  | [] => ps
  | h :: q =>
      match ps !! h with
      | Some p =>
          if bool_decide (pid p = pd ∧ state p = Sleeping) then <[h := set_state Runnable p]> ps
          else wake_first pd ps q
      | None => wake_first pd ps q
      end
  end.
Definition wake_up rq (pd : Z) : sched := set_procs rq (wake_first pd (procs rq) (queue rq)).

Definition wake (p : Process) : Process := if decide (state p = Sleeping) then set_state Runnable p else p.

Definition wake_up_all_sleeping rq : sched :=
  let ps := foldl (λ ps h, alter wake h ps) (procs rq) (queue rq) in
  set_procs rq (match current rq with Some h => alter wake h ps | None => ps end).

(** [SYS_EXIT] ([src/src/syscall.rs]), up to the final halt loop. *)
Definition sys_exit rq (a0 : Z) : exec (sched * transfer) :=
  schedule (match current_process rq with
            | Some h => with_proc (λ p, set_exit_code a0 (set_state Dead p)) h rq
            | None => rq
            end).

(** ** Switching registers

    The registers that [context_switch] and [jump_to_context] touch. *)
Record cpu := {
  c_r15 : Z; c_r14 : Z; c_r13 : Z; c_r12 : Z; c_rbp : Z; c_rbx : Z; c_rsp : Z; c_rip : Z; c_rflags : Z
}.

(** The address of the local label [1:], where a saved context resumes. *)
Section Switch.
Context (label_1 : Z).

Definition save_context (c : cpu) (old : CpuContext) : CpuContext := {|
  r15 := c_r15 c; r14 := c_r14 c; r13 := c_r13 c; r12 := c_r12 c; rbp := c_rbp c; rbx := c_rbx c;
  rsp := c_rsp c; rip := label_1; rflags := c_rflags c; cs := cs old; ss := ss old |}.

Definition jump_to_context (ctx : CpuContext) : cpu := {|
  c_r15 := r15 ctx; c_r14 := r14 ctx; c_r13 := r13 ctx; c_r12 := r12 ctx; c_rbp := rbp ctx;
  c_rbx := rbx ctx; c_rsp := rsp ctx; c_rip := rip ctx; c_rflags := Z.lor (rflags ctx) 0x200 |}.

Definition context_switch (c : cpu) (old new : CpuContext) : cpu * CpuContext :=
  (jump_to_context new, save_context c old).
End Switch.

(** ** Choosing the next process *)
Implicit Types (ps : gmap positive Process) (p : Process) (i j n : nat) (k : Z).

(** [i] is the first of the runnable processes of [q] with the least priority
    value [k]. *)
Definition is_best ps q i k : Prop :=
  ∃ h, q !! i = Some h ∧ is_state Runnable ps h = true ∧ prio ps h = k ∧
    ∀ j h', q !! j = Some h' → is_state Runnable ps h' = true →
      k < prio ps h' ∨ k = prio ps h' ∧ (i ≤ j)%nat.

Lemma best_spec ps q :
  match best ps q with
  | Some (i, k) => is_best ps q i k
  | None => ∀ h, h ∈ q → is_state Runnable ps h = false
  end.
Proof.
  induction q as [|h q IH]; simpl; [intros h Hh; by apply elem_of_nil in Hh|].
  destruct (is_state Runnable ps h) eqn:Hr, (best ps q) as [[i k]|]; simpl.
  - destruct IH as (h' & Hi & Hr' & Hk & Hmin). destruct (Z.leb_spec (prio ps h) k) as [Hle|Hlt].
    + exists h. split_and!; [done..|]. intros [|j] g Hg Hgr; simpl in Hg; simplify_eq; [right; lia|].
      destruct (Hmin j g Hg Hgr) as [|[]]; lia.
    + exists h'. split_and!; [done..|]. intros [|j] g Hg Hgr; simpl in Hg; simplify_eq; [lia|].
      destruct (Hmin j g Hg Hgr) as [|[]]; [by left|right]. lia.
  - exists h. split_and!; [done..|]. intros [|j] g Hg Hgr; simpl in Hg; simplify_eq; [right; lia|].
    rewrite IH in Hgr; [done|]. by eapply list_elem_of_lookup_2.
  - destruct IH as (h' & Hi & Hr' & Hk & Hmin). exists h'. split_and!; [done..|].
    intros [|j] g Hg Hgr; simpl in Hg; [congruence|]. destruct (Hmin j g Hg Hgr) as [|[]]; [by left|right]. lia.
  - intros g [->|Hg]%elem_of_cons; auto.
Qed.

Lemma best_unique ps q i k : is_best ps q i k → best ps q = Some (i, k).
Proof.
  intros (h & Hi & Hr & Hk & Hmin). pose proof (best_spec ps q) as Hb.
  destruct (best ps q) as [[i' k']|].
  - destruct Hb as (h' & Hi' & Hr' & Hk' & Hmin').
    destruct (Hmin _ _ Hi' Hr') as [|[]], (Hmin' _ _ Hi Hr) as [|[]]; try lia.
    f_equal. f_equal; lia.
  - rewrite Hb in Hr; [done|]. by eapply list_elem_of_lookup_2.
Qed.

Lemma is_state_lookup st ps h p : ps !! h = Some p → is_state st ps h = bool_decide (state p = st).
Proof. unfold is_state. by intros ->. Qed.

(** ** What [schedule] does *)

(** The store and the queue after the old process was put back. *)
Definition requeue rq : gmap positive Process * list positive :=
  match current rq with
  | None => (procs rq, queue rq)
  | Some h =>
      let ps := if is_state Running (procs rq) h
                then alter (λ p, set_slice (base_slice p) (set_state Runnable p)) h (procs rq)
                else procs rq in
      (ps, if is_state Dead ps h || is_state Zombie ps h then queue rq else queue rq ++ [h])
  end.

(** All handles of the scheduler, the current process first. *)
Definition members rq : list positive := option_list (current rq) ++ queue rq.

(** A process whose kernel stack fits in the address space. *)
Definition stack_ok p : Prop := kernel_stack p + KERNEL_STACK_SIZE < U64.

Record sched_wf rq : Prop := {
  wf_nodup : NoDup (members rq);
  wf_live : ∀ h, h ∈ members rq → is_Some (procs rq !! h);
  wf_stack : ∀ h p, procs rq !! h = Some p → stack_ok p
}.

Definition after_pick rq (ps : gmap positive Process) q : sched :=
  match best ps q with
  | Some (i, _) =>
      {| procs := match q !! i with Some h => alter (set_state Running) h ps | None => ps end;
         queue := delete i q; current := q !! i; NEXT_PID := NEXT_PID rq |}
  | None => {| procs := ps; queue := q; current := None; NEXT_PID := NEXT_PID rq |}
  end.

Lemma requeue_lookup rq h :
  (requeue rq).1 !! h =
    (λ p, if decide (current rq = Some h ∧ state p = Running)
          then set_slice (base_slice p) (set_state Runnable p) else p) <$> procs rq !! h.
Proof.
  unfold requeue. destruct (current rq) as [c|] eqn:Hc; cbn [fst]; cycle 1.
  { destruct (procs rq !! h) as [p|]; [|done]. exec_simpl. by rewrite decide_False by (intros []; done). }
  unfold is_state. destruct (decide (c = h)) as [->|Hne].
  - destruct (procs rq !! h) as [p|] eqn:Hp; [|by rewrite Hp].
    case_bool_decide.
    + rewrite lookup_alter_eq, Hp. exec_simpl. by rewrite decide_True.
    + rewrite Hp. exec_simpl. by rewrite decide_False by (intros []; done).
  - destruct (procs rq !! c) as [p|]; [case_bool_decide|]; rewrite ?lookup_alter_ne by done;
      (destruct (procs rq !! h); [|done]); exec_simpl; rewrite decide_False by (intros []; congruence); done.
Qed.


Lemma requeue_perm rq :
  sched_wf rq → NoDup (requeue rq).2 ∧ ∀ h, h ∈ (requeue rq).2 → h ∈ members rq.
Proof.
  intros [Hnd _ _]. unfold requeue, members in *. destruct (current rq) as [c|]; simpl in *; [|done].
  apply NoDup_cons in Hnd as [Hc Hnd]. destruct (_ || _).
  - split; [done|]. intros h Hh. by right.
  - split; [|intros h [Hh| ->%list_elem_of_singleton]%elem_of_app; [by right|by left]].
    apply NoDup_app. split_and!; [done| |apply NoDup_singleton].
    intros x Hx ->%list_elem_of_singleton. done.
Qed.

(** The transfer of control to [n]: nothing if it is the process that called;
    otherwise the registers are exchanged, with the kernel stack of [n] in the TSS
    and its page tables if they are others; a jump if there was no process. *)
Definition switches_to rq (n : positive) (t : transfer) : Prop :=
  match current rq with
  | None => t = JumpTo n
  | Some o =>
      if decide (o = n) then t = Return_ else
      ∃ op np, procs rq !! o = Some op ∧ procs rq !! n = Some np ∧
        t = ContextSwitch o n (kernel_stack np + KERNEL_STACK_SIZE)
              (if pml4_phys (address_space op) =? pml4_phys (address_space np) then None
               else Some (pml4_phys (address_space np)))
  end.

(** [schedule] changes only the state and the slice of a process. *)
Lemma requeue_rest rq h p : (requeue rq).1 !! h = Some p →
  ∃ p0, procs rq !! h = Some p0 ∧ kernel_stack p = kernel_stack p0 ∧ address_space p = address_space p0.
Proof. rewrite requeue_lookup. intros (p0 & Hp & ->)%fmap_Some_1. exists p0. by case_decide. Qed.

Lemma schedule_spec rq :
  sched_wf rq →
  ∃ t, schedule rq = Ret (after_pick rq (requeue rq).1 (requeue rq).2, t) ∧
    match current (after_pick rq (requeue rq).1 (requeue rq).2) with Some n => switches_to rq n t | None => t = Return_ end.
Proof.
  intros Hwf. destruct (requeue_perm rq Hwf) as [Hnd Hin]. destruct Hwf as [_ Hlive Hstk].
  assert (Hold : ∀ h, is_Some ((requeue rq).1 !! h) ↔ is_Some (procs rq !! h)).
  { intros h. rewrite requeue_lookup. by rewrite fmap_is_Some. }
  assert (Hok : ∀ h p, (requeue rq).1 !! h = Some p → stack_ok p).
  { intros h p. rewrite requeue_lookup. intros (p' & Hp' & ->)%fmap_Some_1.
    destruct (decide _); exact (Hstk h p' Hp'). }
  unfold schedule, pick_next, after_pick, switches_to.
  assert (Hrq : (match current rq with
    | Some h => let rq0 := if is_state Running (procs (set_current rq None)) h
        then with_proc (λ p, set_slice (base_slice p) (set_state Runnable p)) h (set_current rq None)
        else set_current rq None in
        if is_state Dead (procs rq0) h || is_state Zombie (procs rq0) h then rq0
        else set_queue rq0 (queue rq0 ++ [h])
    | None => set_current rq None end) =
    {| procs := (requeue rq).1; queue := (requeue rq).2; current := None; NEXT_PID := NEXT_PID rq |}).
  { unfold requeue, with_proc, set_procs, set_queue, set_current. destruct (current rq) as [h|]; simpl; [|done].
    destruct (is_state Running (procs rq) h); simpl; by destruct (_ || _). }
  simpl in Hrq |- *. rewrite Hrq. cbn [procs queue]. clear Hrq.
  pose proof (best_spec (requeue rq).1 (requeue rq).2) as Hb.
  destruct (best _ _) as [[i k]|]; cycle 1.
  { destruct (current rq); eexists; done. }
  destruct Hb as (n & Hi & _). rewrite Hi. unfold with_proc, set_procs, set_queue, set_current. simpl.
  assert (Hn : is_Some ((requeue rq).1 !! n)).
  { apply Hold, Hlive, Hin. by eapply list_elem_of_lookup_2. }
  destruct (current rq) as [o|] eqn:Ho; [|eauto]. destruct (decide (o = n)) as [->|Hne]; [eauto|].
  destruct Hn as [np Hn]. destruct (requeue_rest rq n np Hn) as (np0 & Hn0 & Ek & Ea). rewrite lookup_alter_eq, lookup_alter_ne, Hn by done. simpl.
  destruct (proj2 (Hold o)) as [op Hop].
  { apply Hlive. unfold members. rewrite Ho. by left. }
  destruct (requeue_rest rq o op Hop) as (op0 & Ho0 & _ & Eo).
  rewrite Hop. simpl. pose proof (Hok n np Hn) as Hs. unfold stack_ok in Hs. rewrite u64_add_ok by done.
  eexists. split; [done|]. exists op0, np0. split; [done|]. split; [done|]. by rewrite Ek, Ea, Eo.
Qed.

(** ** The invariant of the scheduler *)
Definition queued_ok rq : Prop := ∀ h p,
  h ∈ queue rq → procs rq !! h = Some p → state p = Runnable ∨ state p = Sleeping.
Definition no_zombie rq : Prop := ∀ h p, procs rq !! h = Some p → state p ≠ Zombie.
Definition current_ok rq : Prop := ∀ h p,
  current rq = Some h → procs rq !! h = Some p → state p = Running.

Record sched_inv rq : Prop := {
  si_wf : sched_wf rq;
  si_queue : queued_ok rq;
  si_current : current_ok rq;
  si_zombie : no_zombie rq
}.

Lemma requeue_queued rq :
  sched_wf rq → queued_ok rq → ∀ h p, h ∈ (requeue rq).2 → (requeue rq).1 !! h = Some p →
  state p = Runnable ∨ state p = Sleeping.
Proof.
  intros Hwf Hq h p Hh Hp. pose proof Hp as Hp0. rewrite requeue_lookup in Hp. apply fmap_Some_1 in Hp as (p' & Hp' & ->).
  destruct (decide (current rq = Some h ∧ state p' = Running)) as [[Hc Hs]|Hno]; [by left|].
  destruct (current rq) as [c|] eqn:Hc; unfold requeue in Hh, Hp0; rewrite Hc in Hh, Hp0; cbn [fst snd] in *;
    [|by eapply Hq].
  destruct (decide (h = c)) as [->|Hne].
  - destruct (is_state Dead _ c || is_state Zombie _ c) eqn:Hd in Hh.
    { exfalso. destruct Hwf as [Hnd _ _]. unfold members in Hnd. rewrite Hc in Hnd.
      apply NoDup_cons in Hnd as [Hnin _]. done. }
    apply orb_false_elim in Hd as [Hd Hz]. rewrite (is_state_lookup _ _ _ _ Hp0) in Hd. rewrite (is_state_lookup _ _ _ _ Hp0) in Hz.
    apply bool_decide_eq_false in Hd, Hz. destruct (state p') eqn:Es; auto; try done. by destruct Hno.
  - eapply Hq; [|done]. destruct (_ || _); [done|].
    by apply elem_of_app in Hh as [Hh|Hh%list_elem_of_singleton].
Qed.

Lemma after_pick_members rq ps q : members (after_pick rq ps q) ≡ₚ q.
Proof.
  unfold after_pick, members. pose proof (best_spec ps q) as Hb.
  destruct (best ps q) as [[i k]|]; [|done]. destruct Hb as (h & Hi & _). simpl. rewrite Hi. simpl.
  symmetry. by apply delete_Permutation.
Qed.

Lemma after_pick_lookup rq ps q h :
  procs (after_pick rq ps q) !! h =
    if decide (current (after_pick rq ps q) = Some h) then set_state Running <$> ps !! h else ps !! h.
Proof.
  unfold after_pick. pose proof (best_spec ps q) as Hb. destruct (best ps q) as [[i k]|]; [|done].
  destruct Hb as (n & Hi & _). cbn [procs current]. rewrite Hi.
  destruct (decide (Some n = Some h)) as [[= ->]|Hne]; [apply lookup_alter_eq|].
  apply lookup_alter_ne. congruence.
Qed.

Lemma after_pick_queue rq ps q h : NoDup q → h ∈ queue (after_pick rq ps q) →
  h ∈ q ∧ current (after_pick rq ps q) ≠ Some h.
Proof.
  intros Hnd Hh. pose proof (after_pick_members rq ps q) as Hp. unfold members in Hp. split.
  - rewrite <- Hp. apply elem_of_app. by right.
  - intros Hc. rewrite <- Hp, Hc in Hnd. apply NoDup_cons in Hnd as [Hnd _]. done.
Qed.

Lemma after_pick_current rq ps q h :
  current (after_pick rq ps q) = Some h → h ∈ q ∧ is_state Runnable ps h = true.
Proof.
  unfold after_pick. pose proof (best_spec ps q) as Hb. destruct (best ps q) as [[i k]|]; [|done].
  destruct Hb as (n & Hi & Hr & _). simpl. rewrite Hi. intros [= <-].
  split; [by eapply list_elem_of_lookup_2|done].
Qed.

Lemma schedule_inv rq :
  sched_wf rq → queued_ok rq → no_zombie rq →
  ∃ rq' t, schedule rq = Ret (rq', t) ∧ sched_inv rq' ∧ rq' = after_pick rq (requeue rq).1 (requeue rq).2 ∧
    match current rq' with Some n => switches_to rq n t | None => t = Return_ end.
Proof.
  intros Hwf Hq Hz. destruct (schedule_spec rq Hwf) as (t & Ht & Hsw). destruct (requeue_perm rq Hwf) as [Hnd Hin].
  eexists _, t. split; [exact Ht|]. split; [|split; [done|exact Hsw]].
  pose proof (after_pick_members rq (requeue rq).1 (requeue rq).2) as Hp.
  assert (Hlk : ∀ h p, procs (after_pick rq (requeue rq).1 (requeue rq).2) !! h = Some p →
    ∃ p0, procs rq !! h = Some p0 ∧ kernel_stack p = kernel_stack p0 ∧
      (state p = Running ∨ state p = Runnable ∨ state p = state p0)).
  { intros h p. rewrite after_pick_lookup, requeue_lookup. intros Hlk. exists (default p (procs rq !! h)).
    destruct (procs rq !! h) as [p0|]; simpl in *; [|by destruct (decide _)].
    split; [done|]. destruct (decide (current (after_pick _ _ _) = _)), (decide (current rq = Some h ∧ _));
      simplify_eq; simpl; auto. }
  split; [split|..].
  - by rewrite Hp.
  - intros h Hh. rewrite Hp in Hh. apply Hin, (wf_live _ Hwf) in Hh as [p0 Hp0].
    rewrite after_pick_lookup, requeue_lookup, Hp0. by destruct (decide _).
  - intros h p Hh. destruct (Hlk h p Hh) as (p0 & Hp0 & Hk & _). unfold stack_ok. rewrite Hk.
    by eapply (wf_stack _ Hwf).
  - intros h p Hh Hhp. apply after_pick_queue in Hh as [Hh Hne]; [|done].
    rewrite after_pick_lookup, decide_False in Hhp by done. by eapply requeue_queued.
  - intros h p Hc Hhp. rewrite after_pick_lookup, decide_True in Hhp by done.
    apply fmap_Some_1 in Hhp as (p' & _ & ->). done.
  - intros h p Hh. destruct (Hlk h p Hh) as (p0 & Hp0 & _ & [->|[->| ->]]); [done|done|by eapply Hz].
Qed.

(** ** Steps of the system *)
Definition boot : sched := {| procs := ∅; queue := []; current := None; NEXT_PID := 1 |}.

Inductive step : sched → sched → Prop :=
  | StepSpawn rq h p :
      procs rq !! h = None → state p = Runnable → stack_ok p →
      step rq (spawn (set_procs rq (<[h := p]> (procs rq))) h)
  | StepPid rq : step rq (alloc_pid rq).2
  | StepTick rq rq' t : tick rq = Ret (rq', t) → step rq rq'
  | StepSchedule rq rq' t : schedule rq = Ret (rq', t) → step rq rq'
  | StepSleep rq rq' t : sleep_current rq = Ret (rq', t) → step rq rq'
  | StepExit rq rq' t code : sys_exit rq code = Ret (rq', t) → step rq rq'
  | StepWake rq pd : step rq (wake_up rq pd)
  | StepWakeAll rq : step rq (wake_up_all_sleeping rq).

Lemma with_current_pre f rq :
  sched_inv rq → (∀ p, kernel_stack (f p) = kernel_stack p) → (∀ p, state p ≠ Zombie → state (f p) ≠ Zombie) →
  let rq' := match current rq with Some h => with_proc f h rq | None => rq end in
  sched_wf rq' ∧ queued_ok rq' ∧ no_zombie rq'.
Proof.
  intros [[Hnd Hl Hs] Hq Hc Hz] Hk Hf. destruct (current rq) as [c|] eqn:Ec; simpl; [|done].
  assert (Hcq : c ∉ queue rq).
  { unfold members in Hnd. rewrite Ec in Hnd. by apply NoDup_cons in Hnd as [? _]. }
  unfold with_proc, set_procs. split; [split; cbn [procs queue]|split].
  - done.
  - intros h Hh. destruct (decide (c = h)) as [->|]; [rewrite lookup_alter_eq|rewrite lookup_alter_ne by done];
      destruct (Hl h Hh) as [p Hp]; rewrite Hp; eauto.
  - intros h p. destruct (decide (c = h)) as [->|]; [rewrite lookup_alter_eq|rewrite lookup_alter_ne by done];
      [intros (p0 & Hp0 & ->)%fmap_Some_1; unfold stack_ok; rewrite Hk|]; by eapply Hs.
  - intros h p Hh. cbn [procs queue] in *. rewrite lookup_alter_ne by congruence. by apply Hq.
  - intros h p. cbn [procs queue]. destruct (decide (c = h)) as [->|];
      [rewrite lookup_alter_eq|rewrite lookup_alter_ne by done];
      [intros (p0 & Hp0 & ->)%fmap_Some_1; apply Hf|]; by eapply Hz.
Qed.

(** [ps'] differs from [ps] in sleeping processes made runnable. *)
Definition woken ps ps' : Prop := ∀ h,
  ps' !! h = ps !! h ∨ ∃ p, ps !! h = Some p ∧ state p = Sleeping ∧ ps' !! h = Some (set_state Runnable p).

Lemma woken_refl ps : woken ps ps.
Proof. by left. Qed.

Lemma woken_trans ps1 ps2 ps3 : woken ps1 ps2 → woken ps2 ps3 → woken ps1 ps3.
Proof.
  intros H1 H2 h. destruct (H1 h) as [E1|(p & Hp & Hs & E1)], (H2 h) as [E2|(p' & Hp' & Hs' & E2)].
  - left. congruence.
  - right. exists p'. split_and!; congruence.
  - right. exists p. split_and!; congruence.
  - rewrite E1 in Hp'. by simplify_eq.
Qed.

Lemma woken_alter ps h : woken ps (alter wake h ps).
Proof.
  intros h'. destruct (decide (h = h')) as [->|Hne]; [|left; by rewrite lookup_alter_ne].
  rewrite lookup_alter_eq. destruct (ps !! h') as [p|] eqn:Hp; [|by left]. simpl. unfold wake.
  destruct (decide (state p = Sleeping)); [right|by left]. exists p. auto.
Qed.

Lemma woken_first pd ps q : woken ps (wake_first pd ps q).
Proof.
  induction q as [|h q IH]; simpl; [apply woken_refl|]. destruct (ps !! h) as [p|] eqn:Hp; [|done].
  case_bool_decide as Hs; [|done]. intros h'. destruct (decide (h = h')) as [->|Hne].
  - right. exists p. rewrite lookup_insert_eq. tauto.
  - left. by rewrite lookup_insert_ne.
Qed.

Lemma woken_all ps q : woken ps (foldl (λ ps h, alter wake h ps) ps q).
Proof.
  revert ps. induction q as [|h q IH]; intros ps; simpl; [apply woken_refl|].
  eapply woken_trans; [apply woken_alter|apply IH].
Qed.

Lemma sched_inv_woken rq ps' : sched_inv rq → woken (procs rq) ps' → sched_inv (set_procs rq ps').
Proof.
  intros [[Hnd Hl Hs] Hq Hc Hz] HW. split; [split|..].
  - done.
  - intros h Hh. destruct (HW h) as [E|(p & _ & _ & E)]; simpl; rewrite E; [by apply Hl|done].
  - intros h p. simpl. destruct (HW h) as [E|(p0 & Hp0 & _ & E)]; rewrite E; [by apply Hs|].
    intros [= <-]. exact (Hs h p0 Hp0).
  - intros h p Hh. simpl. destruct (HW h) as [E|(p0 & Hp0 & _ & E)]; rewrite E; [by apply Hq|].
    intros [= <-]. by left.
  - intros h p Hh. simpl. destruct (HW h) as [E|(p0 & Hp0 & Hsl & E)]; rewrite E; [by apply Hc|].
    rewrite (Hc h p0 Hh Hp0) in Hsl. done.
  - intros h p. simpl. destruct (HW h) as [E|(p0 & Hp0 & _ & E)]; rewrite E; [by apply Hz|].
    by intros [= <-].
Qed.

Lemma tick_inv rq : sched_inv rq → ∃ rq' t, tick rq = Ret (rq', t) ∧ sched_inv rq'.
Proof.
  intros HI. unfold tick. destruct (current rq) as [c|] eqn:Ec; [|by eexists _, _].
  set (f p := if 0 <? time_slice p then set_slice (time_slice p - 1) p else p).
  destruct (with_current_pre f rq HI) as (Hwf & Hq & Hz).
  { intros p. unfold f. by destruct (0 <? time_slice p). }
  { intros p. unfold f. by destruct (0 <? time_slice p). }
  rewrite Ec in *. assert (HI' : sched_inv (with_proc f c rq)).
  { split; [done..| |done]. intros h p Hc Hp. simpl in *. assert (h = c) as -> by congruence.
    rewrite lookup_alter_eq in Hp. apply fmap_Some_1 in Hp as (p0 & Hp0 & ->).
    pose proof (si_current _ HI c p0 Ec Hp0). unfold f. by destruct (0 <? time_slice p0). }
  destruct (procs (with_proc f c rq) !! c) as [p|]; [|by eexists _, _].
  destruct (time_slice p =? 0); [|by eexists _, _].
  destruct (schedule_inv _ Hwf Hq Hz) as (rq' & t & ? & ? & _). eauto.
Qed.

Lemma sleep_inv rq : sched_inv rq → ∃ rq' t, sleep_current rq = Ret (rq', t) ∧ sched_inv rq'.
Proof.
  intros HI. destruct (with_current_pre (set_state Sleeping) rq HI) as (Hwf & Hq & Hz); [done..|].
  destruct (schedule_inv _ Hwf Hq Hz) as (rq' & t & ? & ? & _). eauto.
Qed.

Lemma exit_inv rq code : sched_inv rq → ∃ rq' t, sys_exit rq code = Ret (rq', t) ∧ sched_inv rq'.
Proof.
  intros HI. destruct (with_current_pre (λ p, set_exit_code code (set_state Dead p)) rq HI) as (Hwf & Hq & Hz); [done..|].
  destruct (schedule_inv _ Hwf Hq Hz) as (rq' & t & ? & ? & _). eauto.
Qed.

Lemma spawn_inv rq h p :
  sched_inv rq → procs rq !! h = None → state p = Runnable → stack_ok p →
  sched_inv (spawn (set_procs rq (<[h := p]> (procs rq))) h).
Proof.
  intros [[Hnd Hl Hs] Hq Hc Hz] Hh Hst Hsk.
  assert (Hm : h ∉ members rq) by (intros Hin; destruct (Hl h Hin); congruence).
  split; [split|..]; unfold members, queued_ok, current_ok, no_zombie; simpl.
  - rewrite app_assoc. apply NoDup_app. split_and!; [done| |apply NoDup_singleton].
    intros x Hx ->%list_elem_of_singleton. done.
  - intros x Hx. rewrite app_assoc in Hx. destruct (decide (h = x)) as [->|]; [by rewrite lookup_insert_eq|].
    rewrite lookup_insert_ne by done. apply elem_of_app in Hx as [Hx| ->%list_elem_of_singleton]; [by apply Hl|done].
  - intros x px [[<- <-]|[_ Hx]]%lookup_insert_Some; [done|by eapply Hs].
  - intros x px Hx [[<- <-]|[Hne Hpx]]%lookup_insert_Some; [by left|].
    apply elem_of_app in Hx as [Hx| ->%list_elem_of_singleton]; [by eapply Hq|done].
  - intros x px Hx [[<- <-]|[Hne Hpx]]%lookup_insert_Some; [|by eapply Hc].
    destruct Hm. unfold members. simpl in Hx. rewrite Hx. by left.
  - intros x px [[<- <-]|[_ Hx]]%lookup_insert_Some; [congruence|by eapply Hz].
Qed.

Lemma step_inv rq rq' : sched_inv rq → step rq rq' → sched_inv rq'.
Proof.
  intros HI Hs. destruct Hs.
  - by apply spawn_inv.
  - destruct HI as [[] ? ? ?]. split; [split|..]; done.
  - destruct (tick_inv rq HI) as (? & ? & ? & ?). congruence.
  - destruct HI as [Hwf Hq _ Hz]. destruct (schedule_inv rq Hwf Hq Hz) as (? & ? & ? & ? & _). congruence.
  - destruct (sleep_inv rq HI) as (? & ? & ? & ?). congruence.
  - destruct (exit_inv rq code HI) as (? & ? & ? & ?). congruence.
  - apply sched_inv_woken; [done|]. apply woken_first.
  - unfold wake_up_all_sleeping. apply sched_inv_woken; [done|].
    destruct (current rq); [|apply woken_all]. eapply woken_trans; [apply woken_all|apply woken_alter].
Qed.

Lemma boot_inv : sched_inv boot.
Proof.
  split; [split|..]; [apply NoDup_nil_2|..]; try done.
  intros h Hh. by apply elem_of_nil in Hh.
Qed.

Lemma steps_inv rq rq' : rtc step rq rq' → sched_inv rq → sched_inv rq'.
Proof. induction 1; eauto using step_inv. Qed.

Lemma reachable_inv rq : rtc step boot rq → sched_inv rq.
Proof. intros Hr. by eapply steps_inv, boot_inv. Qed.

(** ** Round robin among equals *)

(** The runnable processes of [q] with priority value [k], in queue order. *)
Definition peer ps k h : Prop := is_state Runnable ps h = true ∧ prio ps h = k.
#[global] Instance peer_dec ps k h : Decision (peer ps k h).
Proof. unfold peer. apply _. Defined.
Definition peers ps k q : list positive := filter (peer ps k) q.

(** No runnable process comes before priority value [k]. *)
Definition top_priority ps k q : Prop := ∀ h, h ∈ q → is_state Runnable ps h = true → k ≤ prio ps h.

(** The number of ticks a process has left, and those the processes of [q] have
    together: the tick that finds the slice used up takes the processor away. *)
Definition slice (ps : gmap positive Process) h : Z := from_option time_slice 0 (ps !! h).
Definition turns ps q : nat := sum_list_with (λ h, Z.to_nat (Z.max 1 (slice ps h))) q.

Lemma filter_first (P : positive → Prop) `{∀ x, Decision (P x)} (q : list positive) g gs :
  filter P q = g :: gs → ∃ pre post, q = pre ++ g :: post ∧ filter P pre = [] ∧ P g ∧ filter P post = gs.
Proof.
  induction q as [|x q IH]; simpl; intros E; [done|]. rewrite filter_cons in E.
  destruct (decide (P x)) as [Hx|Hx].
  - injection E as -> E. exists [], q. done.
  - destruct (IH E) as (pre & post & -> & Hpre & Hg & Hpost). exists (x :: pre), post.
    split_and!; [done| |done|done]. by rewrite filter_cons_False.
Qed.

Lemma filter_ext_in (P Q : positive → Prop) `{∀ x, Decision (P x), ∀ x, Decision (Q x)} (q : list positive) :
  (∀ x, x ∈ q → P x ↔ Q x) → filter P q = filter Q q.
Proof.
  induction q as [|x q IH]; intros Hq; [done|]. rewrite !filter_cons.
  rewrite IH by (intros y Hy; apply Hq; by right). specialize (Hq x (list_elem_of_here _ _)).
  destruct (decide (P x)), (decide (Q x)); tauto || done.
Qed.

Lemma requeue_running rq c p :
  current rq = Some c → procs rq !! c = Some p → state p = Running →
  requeue rq = (<[c := set_slice (base_slice p) (set_state Runnable p)]> (procs rq), queue rq ++ [c]).
Proof.
  intros Hc Hp Hs. unfold requeue. rewrite Hc.
  rewrite (is_state_lookup _ _ _ _ Hp), bool_decide_true by done.
  assert (E : alter (λ p, set_slice (base_slice p) (set_state Runnable p)) c (procs rq)
    = <[c := set_slice (base_slice p) (set_state Runnable p)]> (procs rq)).
  { apply map_eq. intros h. destruct (decide (c = h)) as [->|].
    - by rewrite lookup_alter_eq, lookup_insert_eq, Hp.
    - by rewrite lookup_alter_ne, lookup_insert_ne. }
  rewrite E. rewrite !(is_state_lookup _ _ _ _ (lookup_insert_eq _ _ _)). done.
Qed.

Lemma is_state_ne st ps h g p : h ≠ g → is_state st (<[g := p]> ps) h = is_state st ps h.
Proof. intros. unfold is_state. by rewrite lookup_insert_ne. Qed.
Lemma prio_ne ps h g p : h ≠ g → prio (<[g := p]> ps) h = prio ps h.
Proof. intros. unfold prio. by rewrite lookup_insert_ne. Qed.

Lemma round_robin_step rq c k g gs :
  sched_inv rq → current rq = Some c → k ≤ prio (procs rq) c →
  top_priority (procs rq) k (queue rq) → peers (procs rq) k (queue rq) = g :: gs →
  ∃ rq' t, schedule rq = Ret (rq', t) ∧ sched_inv rq' ∧ current rq' = Some g ∧ k ≤ prio (procs rq') g ∧
    top_priority (procs rq') k (queue rq') ∧
    (∃ tl, peers (procs rq') k (queue rq') = gs ++ tl) ∧ ∀ h, h ≠ c → slice (procs rq') h = slice (procs rq) h.
Proof.
  intros HI Hc Hkc Htop Hpeers. pose proof HI as [Hwf Hq Hcur Hz].
  destruct (wf_live _ Hwf c) as [p Hp]; [unfold members; rewrite Hc; by left|].
  pose proof (Hcur c p Hc Hp) as Hrun. pose proof (requeue_running rq c p Hc Hp Hrun) as Hrq.
  destruct (schedule_inv rq Hwf Hq Hz) as (rq' & t & Hs & HI' & -> & _). rewrite Hrq in *. cbn [fst snd] in *.
  eexists _, t. split; [done|]. split; [done|]. clear Hs HI'.
  set (p' := set_slice (base_slice p) (set_state Runnable p)) in *. set (ps := <[c := p']> (procs rq)) in *.
  pose proof (wf_nodup _ Hwf) as Hnd. unfold members in Hnd. rewrite Hc in Hnd. simpl in Hnd.
  apply NoDup_cons in Hnd as [Hcq Hnd].
  assert (Hsame : ∀ h, h ∈ queue rq → is_state Runnable ps h = is_state Runnable (procs rq) h ∧ prio ps h = prio (procs rq) h).
  { intros h Hh. assert (h ≠ c) by congruence. unfold ps. by rewrite is_state_ne, prio_ne. }
  destruct (filter_first _ _ _ _ Hpeers) as (pre & post & Eq & Hpre & [Hgr Hgk] & Hpost).
  assert (Hgq : g ∈ queue rq) by (rewrite Eq; apply elem_of_app; right; apply list_elem_of_here).
  destruct (Hsame g Hgq) as [Hgr' Hgk'].
  assert (Hall : ∀ h, h ∈ queue rq ++ [c] → is_state Runnable ps h = true → k ≤ prio ps h).
  { intros h [Hh| ->%list_elem_of_singleton]%elem_of_app Hr.
    - destruct (Hsame h Hh) as [E1 E2]. rewrite E2. apply Htop; [done|congruence].
    - unfold ps, prio. rewrite lookup_insert_eq. unfold prio in Hkc. by rewrite Hp in Hkc. }
  assert (Hbest : best ps (queue rq ++ [c]) = Some (length pre, k)).
  { apply best_unique. exists g. rewrite Eq, <- app_assoc. split_and!.
    - by apply list_lookup_middle.
    - congruence.
    - congruence.
    - intros j h Hj Hr. destruct (decide (j < length pre)%nat) as [Hlt|Hge].
      + left. rewrite lookup_app_l in Hj by done. assert (Hhp : h ∈ pre) by (by eapply list_elem_of_lookup_2).
        assert (Hhq : h ∈ queue rq) by (rewrite Eq; apply elem_of_app; by left).
        destruct (Hsame h Hhq) as [E1 E2]. assert (k ≤ prio ps h) by (apply Hall; [apply elem_of_app; by left|done]).
        assert (prio ps h ≠ k); [|lia]. intros Ek. assert (Hf : h ∈ filter (peer (procs rq) k) pre).
        { apply list_elem_of_filter. split; [|done]. split; congruence. }
        rewrite Hpre in Hf. by apply elem_of_nil in Hf.
      + assert (Hh : h ∈ queue rq ++ [c]) by (rewrite Eq, <- app_assoc; by eapply list_elem_of_lookup_2).
        specialize (Hall h Hh Hr). destruct (Z.eq_dec k (prio ps h)); [right|left]; lia. }
  assert (Hdel : delete (length pre) (queue rq ++ [c]) = pre ++ post ++ [c]).
  { rewrite Eq, <- app_assoc. by apply delete_middle. }
  assert (Hlk : (queue rq ++ [c]) !! length pre = Some g).
  { rewrite Eq, <- app_assoc. by apply list_lookup_middle. }
  unfold after_pick. rewrite Hbest, Hlk, Hdel. cbn [procs queue current].
  assert (Hgc : g ≠ c) by congruence.
  assert (Hg_out : g ∉ pre ++ post ++ [c]).
  { rewrite Eq in Hnd. apply NoDup_app in Hnd as (_ & H1 & H2). apply NoDup_cons in H2 as [H2 _].
    intros [Hin|[Hin| ->%list_elem_of_singleton]%elem_of_app]%elem_of_app; [|done..].
    apply (H1 g Hin), list_elem_of_here. }
  destruct (ps !! g) as [pg|] eqn:Hpg; cycle 1.
  { rewrite Hgr in Hgr'. unfold is_state in Hgr'. by rewrite Hpg in Hgr'. }
  assert (Halt : alter (set_state Running) g ps = <[g := set_state Running pg]> ps).
  { apply map_eq. intros h. destruct (decide (g = h)) as [->|].
    - by rewrite lookup_alter_eq, lookup_insert_eq, Hpg.
    - by rewrite lookup_alter_ne, lookup_insert_ne. }
  rewrite Halt. split_and!; [done| | | |].
  - rewrite Hgk in Hgk'. unfold prio in *. rewrite lookup_insert_eq. rewrite Hpg in Hgk'. simpl. lia.
  - intros h Hh Hr. assert (h ≠ g) by congruence. rewrite is_state_ne in Hr by done. rewrite prio_ne by done.
    apply Hall; [|done]. rewrite Eq, <- app_assoc. set_solver.
  - exists (peers ps k [c]). unfold peers. rewrite app_assoc, filter_app.
    rewrite (filter_ext_in _ (peer ps k) [c]); cycle 1.
    { intros x Hx%list_elem_of_singleton. subst x. unfold peer. by rewrite is_state_ne, prio_ne by done. }
    f_equal. rewrite filter_app, <- Hpost.
    assert (Hext : ∀ l : list positive, (∀ x, x ∈ l → x ∈ queue rq ∧ x ≠ g) →
      filter (peer (<[g := set_state Running pg]> ps) k) l = filter (peer (procs rq) k) l).
    { intros l Hl. apply filter_ext_in. intros x Hx. destruct (Hl x Hx) as [Hxq Hxg].
      destruct (Hsame x Hxq) as [E1 E2]. unfold peer. by rewrite is_state_ne, prio_ne, E1, E2 by done. }
    rewrite (Hext pre), (Hext post), Hpre; [done|..].
    + intros x Hx. split; [rewrite Eq; set_solver|]. intros ->. set_solver.
    + intros x Hx. split; [rewrite Eq; set_solver|]. intros ->. set_solver.
  - intros h Hh. unfold slice. unfold ps in Hpg. rewrite lookup_insert_ne in Hpg by done.
    destruct (decide (g = h)) as [<-|]; [by rewrite lookup_insert_eq, Hpg|].
    unfold ps. by rewrite !lookup_insert_ne.
Qed.

(** ** Time slices *)
Fixpoint tick_n n rq : exec sched :=
  match n with
  | O => Ret rq
  | S n => '(rq, _) ← tick rq; tick_n n rq
  end.

Lemma tick_count rq c p :
  current rq = Some c → procs rq !! c = Some p → 1 < time_slice p →
  tick rq = Ret (set_procs rq (<[c := set_slice (time_slice p - 1) p]> (procs rq)), Return_).
Proof.
  intros Hc Hp Hts. unfold tick, with_proc. rewrite Hc. cbn [procs set_procs].
  set (f p := if 0 <? time_slice p then set_slice (time_slice p - 1) p else p).
  assert (E : alter f c (procs rq) = <[c := set_slice (time_slice p - 1) p]> (procs rq)).
  { apply map_eq. intros h. destruct (decide (c = h)) as [->|].
    - rewrite lookup_alter_eq, lookup_insert_eq, Hp. simpl. unfold f.
      by rewrite (proj2 (Z.ltb_lt 0 (time_slice p))) by lia.
    - by rewrite lookup_alter_ne, lookup_insert_ne. }
  rewrite E, lookup_insert_eq. cbn [time_slice set_slice].
  by rewrite (proj2 (Z.eqb_neq (time_slice p - 1) 0)) by lia.
Qed.

Lemma tick_last rq c p :
  current rq = Some c → procs rq !! c = Some p → 0 ≤ time_slice p ≤ 1 →
  tick rq = schedule (set_procs rq (<[c := set_slice 0 p]> (procs rq))).
Proof.
  intros Hc Hp Hts. unfold tick, with_proc. rewrite Hc. cbn [procs set_procs].
  set (f p := if 0 <? time_slice p then set_slice (time_slice p - 1) p else p).
  assert (E : alter f c (procs rq) = <[c := set_slice 0 p]> (procs rq)).
  { apply map_eq. intros h. destruct (decide (c = h)) as [->|].
    - rewrite lookup_alter_eq, lookup_insert_eq, Hp. simpl. unfold f. f_equal.
      destruct (Z.ltb_spec 0 (time_slice p)); destruct p; unfold set_slice; simpl in *; f_equal; lia.
    - by rewrite lookup_alter_ne, lookup_insert_ne. }
  by rewrite E, lookup_insert_eq.
Qed.

Lemma tick_n_count n : ∀ rq c p,
  current rq = Some c → procs rq !! c = Some p → Z.of_nat n < time_slice p →
  tick_n n rq = Ret (set_procs rq (<[c := set_slice (time_slice p - n) p]> (procs rq))).
Proof.
  induction n as [|n IH]; intros rq c p Hc Hp Hn; cbn [tick_n].
  - destruct rq. simpl in *. unfold set_procs. simpl. do 2 f_equal. rewrite insert_id; [done|].
    rewrite Hp. f_equal. destruct p. unfold set_slice. simpl. f_equal. lia.
  - rewrite (tick_count rq c p) by (done || lia). exec_simpl.
    rewrite (IH _ c (set_slice (time_slice p - 1) p)); [|done|by cbn [procs set_procs]; rewrite lookup_insert_eq|simpl; lia].
    unfold set_procs. simpl. do 2 f_equal. rewrite insert_insert_eq. f_equal.
    unfold set_slice. simpl. f_equal. lia.
Qed.

Lemma tick_n_add n m rq rq1 : tick_n n rq = Ret rq1 → tick_n (n + m) rq = tick_n m rq1.
Proof.
  revert rq. induction n as [|n IH]; intros rq; cbn [tick_n Nat.add]; [by intros [= ->]|].
  destruct (tick rq) as [[rq2 t]| |]; exec_simpl; [apply IH|done..].
Qed.

(** Only the slice of the running process changes. *)
Lemma sched_inv_slice rq c p z : sched_inv rq → procs rq !! c = Some p →
  sched_inv (set_procs rq (<[c := set_slice z p]> (procs rq))).
Proof.
  intros [[Hnd Hl Hs] Hq Hc Hz] Hp. split; [split|..]; unfold queued_ok, current_ok, no_zombie; cbn [procs queue current set_procs]; [done|..].
  - intros h Hh. destruct (decide (c = h)) as [->|]; [by rewrite lookup_insert_eq|rewrite lookup_insert_ne by done; by apply Hl].
  - intros h q [[<- <-]|[_ Hh]]%lookup_insert_Some; [exact (Hs c p Hp)|by eapply Hs].
  - intros h q Hh [[<- <-]|[_ Hq']]%lookup_insert_Some; [exact (Hq c p Hh Hp)|by eapply Hq].
  - intros h q Hh [[<- <-]|[_ Hq']]%lookup_insert_Some; [exact (Hc c p Hh Hp)|by eapply Hc].
  - intros h q [[<- <-]|[_ Hh]]%lookup_insert_Some; [exact (Hz c p Hp)|by eapply Hz].
Qed.

(** A whole turn of the running process. *)
Lemma turn_ticks rq c p : sched_inv rq → current rq = Some c → procs rq !! c = Some p → 0 ≤ time_slice p →
  tick_n (Z.to_nat (Z.max 1 (time_slice p))) rq =
    ('(rq', _) ← schedule (set_procs rq (<[c := set_slice 0 p]> (procs rq))); Ret rq').
Proof.
  intros HI Hc Hp H0. destruct (decide (time_slice p ≤ 1)).
  { replace (Z.to_nat _) with 1%nat by lia. cbn [tick_n]. by rewrite (tick_last rq c p) by (done || lia). }
  set (m := Z.to_nat (time_slice p - 1)). replace (Z.to_nat _) with (m + 1)%nat by lia.
  erewrite tick_n_add; [|apply (tick_n_count m rq c p); [done..|lia]]. cbn [tick_n].
  rewrite (tick_last _ c (set_slice (time_slice p - m) p)).
  - unfold set_procs. simpl. rewrite insert_insert_eq. done.
  - done.
  - cbn [procs set_procs]. by rewrite lookup_insert_eq.
  - cbn [time_slice set_slice]. lia.
Qed.

Lemma round_robin_turn rq c k g gs :
  sched_inv rq → current rq = Some c → k ≤ prio (procs rq) c → 0 ≤ slice (procs rq) c →
  top_priority (procs rq) k (queue rq) → peers (procs rq) k (queue rq) = g :: gs →
  ∃ rq', tick_n (Z.to_nat (Z.max 1 (slice (procs rq) c))) rq = Ret rq' ∧ sched_inv rq' ∧ current rq' = Some g ∧
    k ≤ prio (procs rq') g ∧ top_priority (procs rq') k (queue rq') ∧
    (∃ tl, peers (procs rq') k (queue rq') = gs ++ tl) ∧ ∀ h, h ≠ c → slice (procs rq') h = slice (procs rq) h.
Proof.
  intros HI Hc Hk H0 Htop Hp. pose proof (si_wf _ HI) as [Hnd Hl _]. unfold members in Hnd, Hl. rewrite Hc in Hnd, Hl.
  simpl in Hnd. apply NoDup_cons in Hnd as [Hcq _]. destruct (Hl c) as [p Hpc]; [by left|].
  unfold slice in H0 |- *. rewrite Hpc in *. cbn [from_option] in *. rewrite (turn_ticks rq c p) by done.
  assert (Hsame : ∀ h, h ∈ queue rq → is_state Runnable (<[c := set_slice 0 p]> (procs rq)) h = is_state Runnable (procs rq) h ∧
    prio (<[c := set_slice 0 p]> (procs rq)) h = prio (procs rq) h).
  { intros h Hh. assert (h ≠ c) by congruence. by rewrite is_state_ne, prio_ne. }
  destruct (round_robin_step (set_procs rq (<[c := set_slice 0 p]> (procs rq))) c k g gs)
    as (rq' & t & E & HI' & Hc' & Hk' & Htop' & Htl & Hsl); cbn [current procs queue set_procs] in *.
  - by apply sched_inv_slice.
  - done.
  - unfold prio in Hk |- *. rewrite lookup_insert_eq. rewrite Hpc in Hk. exact Hk.
  - intros h Hh Hr. destruct (Hsame h Hh) as [E1 ->]. apply Htop; [done|congruence].
  - rewrite <- Hp. apply filter_ext_in. intros h Hh. destruct (Hsame h Hh) as [E1 E2]. unfold peer. by rewrite E1, E2.
  - rewrite E. exec_simpl. exists rq'. split_and!; try done. intros h Hh. fold (slice (procs rq') h). rewrite Hsl by done.
    unfold slice. by rewrite lookup_insert_ne.
Qed.

Lemma turns_cons ps h l : turns ps (h :: l) = (Z.to_nat (Z.max 1 (slice ps h)) + turns ps l)%nat.
Proof. done. Qed.

Lemma turns_ext ps ps' l : (∀ x, x ∈ l → slice ps' x = slice ps x) → turns ps l = turns ps' l.
Proof.
  intros Hl. induction l as [|x l IH]; [done|]. cbn [turns sum_list_with]. rewrite Hl by apply list_elem_of_here.
  f_equal. apply IH. intros y Hy. apply Hl. by right.
Qed.

Lemma round_robin_ticks n : ∀ rq c k h,
  sched_inv rq → current rq = Some c → k ≤ prio (procs rq) c → top_priority (procs rq) k (queue rq) →
  peers (procs rq) k (queue rq) !! n = Some h →
  (∀ x, x ∈ c :: take n (peers (procs rq) k (queue rq)) → 0 ≤ slice (procs rq) x) →
  ∃ rq', tick_n (turns (procs rq) (c :: take n (peers (procs rq) k (queue rq)))) rq = Ret rq' ∧
    sched_inv rq' ∧ current rq' = Some h.
Proof.
  induction n as [|n IH]; intros rq c k h HI Hc Hk Htop Hh H0;
    destruct (peers (procs rq) k (queue rq)) as [|g gs] eqn:Hp; try done;
    destruct (round_robin_turn rq c k g gs HI Hc Hk) as (rq' & E & HI' & Hc' & Hk' & Htop' & (tl & Hp') & Hsl);
    try done; try (apply H0; by left); rewrite turns_cons.
  - simpl in Hh. simplify_eq. cbn [take]. rewrite Nat.add_0_r. eauto.
  - simpl in Hh. rewrite (tick_n_add _ _ _ _ E).
    assert (Hlen : (n < length gs)%nat) by (by eapply lookup_lt_Some).
    assert (Et : take n (peers (procs rq') k (queue rq')) = take n gs) by (rewrite Hp', take_app_le by lia; done).
    pose proof (wf_nodup _ (si_wf _ HI)) as Hnd. unfold members in Hnd. rewrite Hc in Hnd.
    simpl in Hnd. apply NoDup_cons in Hnd as [Hcq _].
    assert (Hne : ∀ x, x ∈ take (S n) (g :: gs) → x ≠ c).
    { intros x Hx ->. apply Hcq. assert (Hin : c ∈ peers (procs rq) k (queue rq)) by (rewrite Hp; rewrite list_elem_of_lookup; apply list_elem_of_lookup in Hx as [i Hx]; exists i; by apply lookup_take_Some in Hx as [??]).
      by apply list_elem_of_filter in Hin as [_ ?]. }
    assert (Es : turns (procs rq) (take (S n) (g :: gs)) = turns (procs rq') (g :: take n (peers (procs rq') k (queue rq')))).
    { rewrite Et. apply turns_ext. intros x Hx. by apply Hsl, Hne. }
    rewrite Es. apply (IH rq' g k h HI' Hc' Hk' Htop').
    + rewrite Hp'. by apply lookup_app_l_Some.
    + intros x Hx. rewrite Et in Hx. rewrite Hsl by (by apply Hne). apply H0. by right.
Qed.

(** The queue that [schedule] chooses from. *)
Lemma caller_first rq c p : let ps := <[c := set_slice (base_slice p) (set_state Runnable p)]> (procs rq) in
  sched_wf rq → current rq = Some c → procs rq !! c = Some p →
  (∀ h, prio ps h = prio (procs rq) h) ∧
  (∀ h, h ∈ queue rq ++ [c] → h = c ∨ is_state Runnable (procs rq) h = true → is_state Runnable ps h = true).
Proof.
  intros ps Hwf Hc Hp. split.
  - intros h. unfold prio, ps. destruct (decide (c = h)) as [->|]; [by rewrite lookup_insert_eq, Hp|by rewrite lookup_insert_ne].
  - intros h _ Hh. unfold ps. destruct (decide (h = c)) as [->|Hne]; [by rewrite (is_state_lookup _ _ _ _ (lookup_insert_eq _ _ _))|].
    rewrite is_state_ne by done. by destruct Hh.
Qed.

(** ** Main theorems *)

(** C10: in every state that spawning, ticking, yielding, sleeping, waking and
    exiting can reach from boot, no process is queued twice or both queued and
    running, the current process is the one marked running, queued ones are
    runnable or sleeping, and none of the operations panics. *)
Theorem sched_reachable rq code :
  rtc step boot rq →
  sched_inv rq ∧ (∃ rq' t, schedule rq = Ret (rq', t)) ∧ (∃ rq' t, tick rq = Ret (rq', t)) ∧
  (∃ rq' t, sleep_current rq = Ret (rq', t)) ∧ (∃ rq' t, sys_exit rq code = Ret (rq', t)).
Proof.
  intros Hr. apply reachable_inv in Hr as HI. split; [done|]. split_and!.
  - destruct HI as [Hwf Hq _ Hz]. destruct (schedule_inv rq Hwf Hq Hz) as (? & ? & ? & _). eauto.
  - destruct (tick_inv rq HI) as (? & ? & ? & _). eauto.
  - destruct (sleep_inv rq HI) as (? & ? & ? & _). eauto.
  - destruct (exit_inv rq code HI) as (? & ? & ? & _). eauto.
Qed.


(** C16: processes of the best priority are served in turn. If no runnable
    process of the queue comes before priority value [k], and neither does the
    running one, then the timer alone hands the processor to the [n]-th queued
    process of priority [k] when the running process and the [n] ones before it
    have used up their slices, and not a tick later: after as many ticks as they
    have left together (one for a slice that is already used up). *)
Theorem round_robin rq c k n h :
  sched_inv rq → current rq = Some c → k ≤ prio (procs rq) c → top_priority (procs rq) k (queue rq) →
  peers (procs rq) k (queue rq) !! n = Some h →
  (∀ x, x ∈ c :: take n (peers (procs rq) k (queue rq)) → 0 ≤ slice (procs rq) x) →
  ∃ rq', tick_n (turns (procs rq) (c :: take n (peers (procs rq) k (queue rq)))) rq = Ret rq' ∧
    sched_inv rq' ∧ current rq' = Some h.
Proof. apply round_robin_ticks. Qed.

(** a process keeps the processor for exactly its time slice: the ticks
    before the last only count down, and the last one calls [schedule]. *)
Theorem tick_preempts rq c p n :
  current rq = Some c → procs rq !! c = Some p → time_slice p = Z.of_nat (S n) →
  ∃ rq1, tick_n n rq = Ret rq1 ∧ queue rq1 = queue rq ∧ current rq1 = Some c ∧
    procs rq1 = <[c := set_slice 1 p]> (procs rq) ∧
    tick rq1 = schedule (set_procs rq (<[c := set_slice 0 p]> (procs rq))).
Proof.
  intros Hc Hp Hn. eexists. split; [by apply (tick_n_count n rq c p); [..|lia]|].
  replace (time_slice p - n) with 1 by lia. split_and!; [done|done|done|].
  rewrite (tick_last _ c (set_slice 1 p)); [|done|by cbn [procs set_procs]; rewrite lookup_insert_eq|done].
  unfold set_procs. simpl. by rewrite insert_insert_eq.
Qed.

(** Three processes, two of them with the same priority. *)
Definition demo_ctx : CpuContext :=
  {| r15 := 0; r14 := 0; r13 := 0; r12 := 0; rbp := 0; rbx := 0; rsp := 0; rip := 0; rflags := 0x202; cs := 8; ss := 16 |}.
Definition demo_proc (n pr : Z) : Process := {|
  pid := n; ppid := 0; state := Runnable; context := demo_ctx; address_space := {| pml4_phys := 0x1000 * n |};
  vm := VmSpace_new; kernel_stack := 0xFFFF800000000000; kernel_stack_size := KERNEL_STACK_SIZE; priority := pr;
  time_slice := DEFAULT_TIME_SLICE; base_slice := DEFAULT_TIME_SLICE; exit_code := 0; name := [];
  pending_signals := 0; signal_mask := 0 |}.

Definition spawn_new rq h p : sched := spawn (set_procs rq (<[h := p]> (procs rq))) h.
Definition demo_ready : sched :=
  spawn_new (spawn_new (spawn_new boot 1 (demo_proc 1 10)) 2 (demo_proc 2 10)) 3 (demo_proc 3 20).
Definition sched_of (r : exec (sched * transfer)) : sched := match r with Ret (rq, _) => rq | _ => boot end.
Definition demo_sched : sched := sched_of (schedule demo_ready).

Lemma demo_ready_reachable : rtc step boot demo_ready.
Proof.
  eapply rtc_l; [apply (StepSpawn boot 1 (demo_proc 1 10)); done|].
  eapply rtc_l; [apply (StepSpawn _ 2 (demo_proc 2 10)); done|].
  eapply rtc_l; [apply (StepSpawn _ 3 (demo_proc 3 20)); done|]. apply rtc_refl.
Qed.

Lemma demo_sched_reachable : rtc step boot demo_sched.
Proof.
  eapply rtc_r; [exact demo_ready_reachable|]. apply (StepSchedule _ _ (JumpTo 1)). reflexivity.
Qed.

Lemma demo_sched_inv : sched_inv demo_sched.
Proof. exact (reachable_inv _ demo_sched_reachable). Qed.

(** once no process was runnable, timer ticks never start one again: [tick]
    reschedules only when there is a current process. A state with a runnable
    process is reachable in which no number of ticks changes anything. *)
Theorem idle_tick_stuck :
  ∃ rq, rtc step boot rq ∧ current rq = None ∧
    (∃ h, h ∈ queue rq ∧ is_state Runnable (procs rq) h = true) ∧ ∀ n, tick_n n rq = Ret rq.
Proof.
  set (r1 := spawn_new boot 1 (demo_proc 1 10)). set (r2 := sched_of (schedule r1)).
  set (r3 := sched_of (sleep_current r2)). exists (wake_up_all_sleeping r3). split_and!.
  - eapply rtc_l; [apply (StepSpawn boot 1 (demo_proc 1 10)); done|].
    eapply rtc_l; [apply (StepSchedule _ r2 (JumpTo 1)); reflexivity|].
    eapply rtc_l; [apply (StepSleep _ r3 Return_); reflexivity|].
    eapply rtc_l; [apply StepWakeAll|apply rtc_refl].
  - reflexivity.
  - exists 1%positive. split; [apply list_elem_of_here|reflexivity].
  - intros n. induction n as [|n IH]; [done|]. cbn [tick_n]. exact IH.
Qed.

(** ** Witnesses *)
Lemma sched_reachable_witness :
  sched_inv demo_sched ∧ (∃ rq' t, schedule demo_sched = Ret (rq', t)) ∧
  (∃ rq' t, tick demo_sched = Ret (rq', t)) ∧ (∃ rq' t, sleep_current demo_sched = Ret (rq', t)) ∧
  (∃ rq' t, sys_exit demo_sched 7 = Ret (rq', t)).
Proof. exact (sched_reachable demo_sched 7 demo_sched_reachable). Defined.


(** The second process runs when the ten ticks of the first have passed. *)
Lemma round_robin_witness :
  ∃ rq', tick_n 10 demo_sched = Ret rq' ∧ sched_inv rq' ∧ current rq' = Some 2%positive.
Proof.
  apply (round_robin demo_sched 1 10 0 2).
  - exact demo_sched_inv.
  - reflexivity.
  - vm_compute. discriminate.
  - intros h Hh _. change (queue demo_sched) with [2; 3]%positive in Hh.
    apply elem_of_cons in Hh as [->|Hh]; [vm_compute; discriminate|].
    apply list_elem_of_singleton in Hh as ->. vm_compute. discriminate.
  - vm_compute. reflexivity.
  - intros x Hx. apply list_elem_of_singleton in Hx as ->. vm_compute. discriminate.
Defined.

Lemma tick_preempts_witness :
  let p := set_state Running (demo_proc 1 10) in
  ∃ rq1, tick_n 9 demo_sched = Ret rq1 ∧ queue rq1 = queue demo_sched ∧ current rq1 = Some 1%positive ∧
    procs rq1 = <[1%positive := set_slice 1 p]> (procs demo_sched) ∧
    tick rq1 = schedule (set_procs demo_sched (<[1%positive := set_slice 0 p]> (procs demo_sched))).
Proof.
  apply (tick_preempts demo_sched 1 (set_state Running (demo_proc 1 10)) 9); vm_compute; reflexivity.
Defined.
