(* ===== verification/Fork.v ===== *)
(** [fork] and [waitpid] ([src/src/proc/fork.rs], from line 190) over the memory
    and the scheduler. *)
From S2P Require Import Prelude Machine Pmm Vmm Vma Clone Proc.

Abbreviation EINVAL := 22 (only parsing).
Abbreviation ENOMEM := 12 (only parsing).

Section Fork.
Context {hh : Hhdm}.
(** The address of the assembly routine a forked child starts in. *)
Context (fork_child_return : Z).
Implicit Types (s : mm) (rq : sched) (h : positive).

(** [Arc::new(SpinLock::new(p))] followed by [spawn] *)
Definition spawn_process rq (p : Process) : sched :=
  let h := fresh (dom (procs rq)) in
  spawn (set_procs rq (<[h := p]> (procs rq))) h.

Definition child_context (c : CpuContext) (kstack_top : Z) : CpuContext := {|
  r15 := r15 c; r14 := r14 c; r13 := r13 c; r12 := r12 c; rbp := rbp c; rbx := rbx c;
  rsp := kstack_top; rip := fork_child_return; rflags := rflags c; cs := cs c; ss := ss c |}.

(** The process [sys_fork_simple] and [sys_fork] build; they differ in the signal
    mask. *)
Definition child_process (parent : Process) (child_pid mask : Z) (space : AddressSpace) (v : VmSpace)
    (kstack_virt kstack_top : Z) : Process := {|
  pid := child_pid; ppid := pid parent; state := Runnable;
  context := child_context (context parent) kstack_top;
  address_space := space; vm := v;
  kernel_stack := kstack_virt; kernel_stack_size := KERNEL_STACK_SIZE;
  priority := priority parent; time_slice := base_slice parent; base_slice := base_slice parent;
  exit_code := 0; name := name parent; pending_signals := 0; signal_mask := mask |}.

(** The common course of both; when the kernel stack cannot be allocated, the
    child's address space is dropped by the early return. *)
Definition fork_with (mask : Process → Z) s rq : exec (Z * mm * sched) :=
  match current_process rq with
  | None => Ret (- EINVAL, s, rq)
  | Some h =>
      let '(child_pid, rq) := alloc_pid rq in
      parent ← expect (procs rq !! h);
      '(r, s) ← clone_address_space s (address_space parent) (vm parent);
      match r with
      | None => Ret (- ENOMEM, s, rq)
      | Some (space, v) =>
          '(r, s) ← alloc_frames s 2;
          match r with
          | None => s ← AddressSpace_drop s space; Ret (- ENOMEM, s, rq)
          | Some kstack_phys =>
              kstack_virt ← phys_to_virt kstack_phys;
              kstack_top ← u64_add kstack_virt KERNEL_STACK_SIZE;
              let child := child_process parent child_pid (mask parent) space v kstack_virt kstack_top in
              Ret (child_pid, s, spawn_process rq child)
          end
      end
  end.

Definition sys_fork_simple s rq : exec (Z * mm * sched) := fork_with signal_mask s rq.
Definition sys_fork s rq : exec (Z * mm * sched) := fork_with (λ _, 0) s rq.

(** ** [waitpid] *)
Fixpoint find_zombie (ps : gmap positive Process) (current_pid target_pid : Z) (q : list positive)
    : option (Z * Z) :=
  match q with
  | [] => None
  | h :: q =>
      match ps !! h with
      | None => find_zombie ps current_pid target_pid q
      | Some p =>
          if negb (ppid p =? current_pid) then find_zombie ps current_pid target_pid q
          else if negb (target_pid =? -1) && negb (pid p =? target_pid mod U32)
          then find_zombie ps current_pid target_pid q
          else if decide (state p = Zombie) then Some (pid p, exit_code p)
          else find_zombie ps current_pid target_pid q
      end
  end.

Definition find_zombie_child rq (target_pid : Z) : option (Z * Z) :=
  match current rq with
  | None => None
  | Some c =>
      match procs rq !! c with
      | None => None
      | Some p => find_zombie (procs rq) (pid p) target_pid (queue rq)
      end
  end.

Definition has_pid (ps : gmap positive Process) (pd : Z) (h : positive) : Prop :=
  match ps !! h with Some p => pid p = pd | None => False end.
#[global] Instance has_pid_dec ps pd h : Decision (has_pid ps pd h).
Proof. unfold has_pid. destruct (ps !! h); apply _. Defined.

Definition reap_zombie rq (pd : Z) : sched :=
  set_queue rq (filter (λ h, ¬ has_pid (procs rq) pd h) (queue rq)).

(** The status word goes to the physical address of [wstatus_ptr]. *)
Definition write_wstatus s rq (wstatus_ptr code : Z) : exec mm :=
  if wstatus_ptr =? 0 then Ret s
  else
    let wstatus := Z.shiftl (Z.land code 0xFF) 8 in
    match current rq with
    | None => Ret s
    | Some c =>
        p ← expect (procs rq !! c);
        r ← translate (ram s) (address_space p) wstatus_ptr;
        match r with
        | None => Ret s
        | Some phys => virt ← phys_to_virt phys; Ret (set_ram s (store_le 4 (ram s) virt wstatus))
        end
    end.

(** One round of the loop of [sys_waitpid]: a result, or the processor is given
    up until the caller is woken. *)
Inductive wait_outcome :=
  | Waited (ret : Z) (s : mm) (rq : sched)
  | Slept (rq : sched) (t : transfer).

Definition waitpid_round s rq (pd wstatus_ptr options : Z) : exec wait_outcome :=
  match find_zombie_child rq pd with
  | Some (child_pid, code) =>
      s ← write_wstatus s rq wstatus_ptr code;
      Ret (Waited child_pid s (reap_zombie rq child_pid))
  | None =>
      if has options 1 then Ret (Waited 0 s rq)
      else '(rq, t) ← sleep_current rq; Ret (Slept rq t)
  end.


(** ** [fork] *)

(** Allocating a block for something else leaves an address space alone. *)
Lemma vmm_inv_alloc co s F P T order k s' :
  vmm_inv (pmm_inv co) s F P T → block_set order k ⊆ F →
  pmm_inv co s' (F ∖ block_set order k) → agree_outside F (ram s) (ram s') →
  vmm_inv (pmm_inv co) s' (F ∖ block_set order k) P T ∧
  ∀ v, is_user v → mmu_walk (ram s') P v = mmu_walk (ram s) P v.
Proof.
  intros [HI HT HD] Hsub HI' Hm.
  assert (Hext : ∀ x, vframe x ∈ tables T → ram s' x = ram s x).
  { intros x Hx. apply Hm. intros Hf. exact (HD _ Hx Hf). }
  pose proof (tree_ext _ _ P T HT Hext) as HT'. split.
  - split; [done|done|]. intros f Hf [Hf' _]%elem_of_difference. exact (HD _ Hf Hf').
  - intros v Hv. rewrite (mmu_walk_tree _ _ _ _ HT' Hv), (mmu_walk_tree _ _ _ _ HT Hv).
    by apply (tree_walk_ext _ _ P).
Qed.

(** What a successful [fork] leaves: the new process [child] under handle [c]
    and, in memory, the two address spaces and the kernel stack at [k]; nothing
    else is written but free frames. *)
Record forked co s F P T rq h parent (mask : Z) s' rq' : Prop := {
  fk_sched : ∃ c child, procs rq !! c = None ∧ procs rq' = <[c := child]> (procs rq) ∧
    queue rq' = queue rq ++ [c] ∧ current rq' = Some h ∧
    pid child = NEXT_PID rq ∧ ppid child = pid parent ∧ state child = Runnable ∧
    priority child = priority parent ∧ time_slice child = base_slice parent ∧ base_slice child = base_slice parent ∧
    name child = name parent ∧ exit_code child = 0 ∧ pending_signals child = 0 ∧
    signal_mask child = mask ∧ vm child = clone_vmspace (vm parent) ∧
    ∃ F' C k, kernel_stack child = table_at k ∧ kernel_stack_size child = KERNEL_STACK_SIZE ∧
      context child =
        {| r15 := r15 (context parent); r14 := r14 (context parent); r13 := r13 (context parent);
           r12 := r12 (context parent); rbp := rbp (context parent); rbx := rbx (context parent);
           rsp := table_at k + KERNEL_STACK_SIZE; rip := fork_child_return;
           rflags := rflags (context parent); cs := cs (context parent); ss := ss (context parent) |} ∧
      vmm_inv (pmm_inv co) s' F' P T ∧ vmm_inv (pmm_inv co) s' F' (pml4_phys (address_space child)) C ∧
      block_ok 2 k ∧ F = F' ∪ block_set 2 k ∪ tables C ∧
      block_set 2 k ## F' ∪ tables T ∪ tables C ∧ tables T ## tables C ∧
      ∀ v, is_user v →
        mmu_walk (ram s') P v = cow_leaf <$> mmu_walk (ram s) P v ∧
        mmu_walk (ram s') (pml4_phys (address_space child)) v = cow_leaf <$> mmu_walk (ram s) P v;
  fk_memory : agree_outside (F ∪ tables T) (ram s) (ram s')
}.

(** The free frames [F] cannot hold a copy of the tables [T], or there is one after
    which no aligned block of four frames is left for a kernel stack. *)
Definition short_of_memory (F : gset Z) (T : gmap (list Z) Z) : Prop :=
  (size F < size T)%nat ∨
  ∃ C : gset Z, C ⊆ F ∧ size C = size T ∧ ∀ p, block_ok 2 p → ¬ block_set 2 p ⊆ F ∖ C.

Lemma fork_refines mask co s F P T rq h parent :
  sched_inv rq → current rq = Some h → procs rq !! h = Some parent →
  address_space parent = {| pml4_phys := P |} →
  vmm_inv (pmm_inv co) s F P T → (∀ v e, is_user v → mmu_walk (ram s) P v ≠ Some (Large e)) →
  ∃ ret s' rq', fork_with mask s rq = Ret (ret, s', rq') ∧ sched_inv rq' ∧
    (ret = - ENOMEM ∧ procs rq' = procs rq ∧ queue rq' = queue rq ∧ current rq' = current rq ∧
       (co = true → short_of_memory F T) ∨
     ret = NEXT_PID rq ∧ forked co s F P T rq h parent (mask parent) s' rq').
Proof.
  intros HS Hc Hp Hsp HV Hnl. unfold fork_with, current_process. rewrite Hc. cbn [alloc_pid procs].
  set (rq1 := {| procs := _ |}). assert (HS1 : sched_inv rq1) by (apply (step_inv rq); [done|constructor]).
  rewrite Hp. exec_simpl. rewrite Hsp.
  destruct (clone_refines co s F P T (vm parent) HV Hnl) as (r & s1 & Ecl & HR).
  pose proof (proj1 (clone_frame co s F P T (vm parent) r s1 HV Hnl Ecl)) as Hfr. rewrite Ecl. exec_simpl.
  destruct r as [[sp v]|]; 
    [|eexists _, _, rq1; split; [done|]; split; [done|]; left; split_and!; try done; intros _; left; apply HR].
  destruct HR as (F1 & C & -> & HF & HTC & HV1 & HVC & Hw & _ & HCs). unfold alloc_frames.
  pose proof (vi_inv _ _ _ _ _ HV1) as HI1.
  destruct (alloc_refines co s1 F1 2 HI1) as (r & s2 & -> & HR). exec_simpl. destruct r as [k|]; cycle 1.
  { destruct HR as [-> Hno]. destruct sp as [P']. cbn [pml4_phys] in HVC.
    destruct (drop_spec (pmm_inv co) s1 F1 P' C HVC) as (s3 & -> & _). exec_simpl.
    eexists _, _, rq1. split; [done|]. split; [done|]. left. split_and!; try done. intros ->. right. exists (tables C).
    split_and!; [set_solver|done|]. intros p Hp2 Hsub. apply (Hno ltac:(lia) ltac:(by left) p Hp2).
    intros f Hf. specialize (Hsub f Hf). set_solver. }
  destruct HR as (_ & Hk & Hsub & HI2 & Hm & _).
  pose proof (proj1 (block_ok_node _ _ Hk)) as Hkb. assert (Hkn : node_ok k) by by apply (block_ok_node 2).
  rewrite table_virt by done. exec_simpl. pose proof hhdm_bound as Hb. pose proof hhdm_pos.
  assert (Hks : table_at k + KERNEL_STACK_SIZE < U64).
  { destruct Hk as (_ & _ & Hk). change (PAGE_SIZE * 2 ^ 2%nat) with 16384 in Hk. unfold table_at. lia. }
  rewrite u64_add_ok by done. exec_simpl. set (child := child_process _ _ _ _ _ _ _).
  eexists _, s2, _. split; [done|].
  assert (Hfresh : procs rq1 !! fresh (dom (procs rq1)) = None) by apply not_elem_of_dom, is_fresh.
  split; [by apply spawn_inv|]. right. split; [done|]. split; cycle 1.
  { replace (F ∪ tables T) with ((F ∪ tables T) ∪ F1) by set_solver. by apply (agree_outside_union _ _ _ (ram s1)). }
  exists (fresh (dom (procs rq1))), child. split_and!; try done.
  destruct (vmm_inv_alloc co s1 F1 P T 2 k s2 HV1 Hsub HI2 Hm) as [HV2 Hw2].
  destruct (vmm_inv_alloc co s1 F1 (pml4_phys sp) C 2 k s2 HVC Hsub HI2 Hm) as [HVC2 HwC2].
  exists (F1 ∖ block_set 2 k), C, k. split_and!; try done.
  - rewrite <- HF. apply set_eq. intros f. rewrite !elem_of_union, elem_of_difference.
    destruct (decide (f ∈ block_set 2 k)) as [Hf|Hf]; [pose proof (Hsub f Hf)|]; tauto.
  - pose proof (vi_apart _ _ _ _ _ HV1) as D1. pose proof (vi_apart _ _ _ _ _ HVC) as D2.
    intros f Hf Hf'. pose proof (Hsub f Hf) as HfF.
    apply elem_of_union in Hf' as [[[_ Hf']%elem_of_difference|Hf']%elem_of_union|Hf'];
      [done|exact (D1 f Hf' HfF)|exact (D2 f Hf' HfF)].
  - intros v Hv. cbn [address_space child_process child]. rewrite Hw2, HwC2 by done. by apply Hw.
Qed.

Lemma no_zombie_found ps q cpid target :
  (∀ h p, ps !! h = Some p → state p ≠ Zombie) → find_zombie ps cpid target q = None.
Proof.
  intros Hz. induction q as [|h q IH]; simpl; [done|]. destruct (ps !! h) as [p|] eqn:Hp; [|done].
  destruct (negb (ppid p =? cpid)), (negb (target =? -1) && negb (pid p =? target mod U32)); try done.
  rewrite decide_False by by eapply Hz. done.
Qed.

(** ** Main theorems *)


(** [waitpid] never finds a child: no reachable state has a process in state
    [Zombie], since exiting sets [Dead] and drops the process from the run queue.
    With [WNOHANG] the call returns 0; without, it gives up the processor, every
    time it is woken. *)
Theorem waitpid_never_reaps s rq pd wstatus_ptr options :
  rtc step boot rq →
  find_zombie_child rq pd = None ∧
  (has options 1 = true → waitpid_round s rq pd wstatus_ptr options = Ret (Waited 0 s rq)) ∧
  (has options 1 = false →
    ∃ rq' t, waitpid_round s rq pd wstatus_ptr options = Ret (Slept rq' t) ∧ rtc step boot rq').
Proof.
  intros Hr. pose proof (reachable_inv _ Hr) as HI.
  assert (Hf : find_zombie_child rq pd = None).
  { unfold find_zombie_child. destruct (current rq) as [c|]; [|done]. destruct (procs rq !! c); [|done].
    apply no_zombie_found. apply HI. }
  split; [done|]. unfold waitpid_round. rewrite Hf. split; intros Ho; rewrite Ho; [done|].
  destruct (sleep_inv rq HI) as (rq' & t & Hs & _). rewrite Hs. exec_simpl. exists rq', t.
  split; [done|]. eapply rtc_r; [done|]. by eapply StepSleep.
Qed.
End Fork.

(** ** Witnesses *)
Section Demo.
#[local] Existing Instance qemu_hhdm.

(** A process running in the address space of [demo_s]. *)
Definition demo_parent : Process := {|
  pid := 1; ppid := 0; state := Runnable; context := demo_ctx; address_space := {| pml4_phys := demo_P |};
  vm := demo_vm; kernel_stack := 0xFFFF800000000000; kernel_stack_size := KERNEL_STACK_SIZE; priority := 10;
  time_slice := DEFAULT_TIME_SLICE; base_slice := DEFAULT_TIME_SLICE; exit_code := 0; name := [];
  pending_signals := 0; signal_mask := 0 |}.
Definition demo_rq : sched := sched_of (schedule (spawn_new boot 1 demo_parent)).

Lemma demo_rq_reachable : rtc step boot demo_rq.
Proof.
  eapply rtc_l; [apply (StepSpawn boot 1 demo_parent); done|].
  eapply rtc_l; [apply (StepSchedule _ demo_rq (JumpTo 1)); reflexivity|]. apply rtc_refl.
Qed.


Lemma waitpid_never_reaps_witness :
  find_zombie_child demo_rq (-1) = None ∧
  (has 1 1 = true → waitpid_round demo_s demo_rq (-1) 0 1 = Ret (Waited 0 demo_s demo_rq)) ∧
  (has 1 1 = false → ∃ rq' t, waitpid_round demo_s demo_rq (-1) 0 1 = Ret (Slept rq' t) ∧ rtc step boot rq').
Proof. exact (waitpid_never_reaps demo_s demo_rq (-1) 0 1 demo_rq_reachable). Defined.
End Demo.
