(* ===== verification/Exec.v ===== *)
(** Replacing the image of a process ([exec_] is [exec] of [src/src/proc/exec.rs]), reading
    strings from user memory, and new processes ([src/src/proc.rs]). *)
From S2P Require Import Prelude Machine Pmm Vmm Vma UserMem Effects Elf UserStack Proc Fork.

Definition PIE_BASE : Z := 0x555555550000.
Definition INTERP_BASE : Z := 0x7FFF00000000.
Abbreviation SEG_KERNEL_CODE := 0x08 (only parsing).
Abbreviation SEG_KERNEL_DATA := 0x10 (only parsing).
Abbreviation SEG_USER_CODE := 0x23 (only parsing).
Abbreviation SEG_USER_DATA := 0x1B (only parsing).

Inductive ExecError :=
  | NotFound | Permission | NoMemory | ElfErr (e : ElfError) | StackError | NameTooLong.

Definition is_pie (data : list Z) : bool :=
  if length data <? 18 then false else le16 data 16 =? 3.

(** [load_file_from_initrd] is a stub in the source. *)
Definition load_file_from_initrd (path : list Z) : option (list Z) := None.

(** The name of a process: at most 31 bytes, padded with zeros to 32. *)
Definition proc_name (path : list Z) : list Z :=
  let n := Nat.min (length path) 31 in take n path ++ replicate (32 - n) 0.

(** [proc.address_space = new_space; proc.vm = new_vm; proc.name = ..] *)
Definition set_image (sp : AddressSpace) (v : VmSpace) (nm : list Z) (p : Process) : Process := {|
  pid := pid p; ppid := ppid p; state := state p; context := context p;
  address_space := sp; vm := v; kernel_stack := kernel_stack p; kernel_stack_size := kernel_stack_size p;
  priority := priority p; time_slice := time_slice p; base_slice := base_slice p; exit_code := exit_code p;
  name := nm; pending_signals := pending_signals p; signal_mask := signal_mask p |}.

(** ** Reading user memory *)
Section User.
Context {hh : Hhdm}.
Implicit Types (m : mem) (sp : AddressSpace).

(** [result] holds the bytes so far; each turn adds one, so [max_len] turns are
    enough. *)
Fixpoint read_string_loop (fuel : nat) m sp (max_len addr : Z) (result : list Z) : exec (option (list Z)) :=
  if max_len <=? length result then Ret None else
  match fuel with
  | O => NoFuel
  | S fuel =>
      phys ← translate m sp addr;
      match phys with
      | None => Ret None
      | Some phys =>
          p ← phys_to_virt phys;
          let byte := load8 m p in
          if byte =? 0 then Ret (Some (result ++ [0]))
          else
            addr ← u64_add addr 1;
            read_string_loop fuel m sp max_len addr (result ++ [byte])
      end
  end.

Definition read_user_string m sp (ptr max_len : Z) : exec (option (list Z)) :=
  if ptr =? 0 then Ret None else read_string_loop (Z.to_nat max_len) m sp max_len ptr [].

(** [read_user_string_from] repeats the body of [read_user_string]. *)
Definition read_user_string_from m sp (ptr max : Z) : exec (option (list Z)) := read_user_string m sp ptr max.

Fixpoint read_array_loop (fuel : nat) m sp (max_count addr : Z) (result : list (list Z))
    : exec (option (list (list Z))) :=
  if max_count <=? length result then Ret None else
  match fuel with
  | O => NoFuel
  | S fuel =>
      phys ← translate m sp addr;
      match phys with
      | None => Ret None
      | Some phys =>
          p ← phys_to_virt phys;
          let str_ptr := load64 m p in
          if str_ptr =? 0 then Ret (Some result)
          else
            r ← read_user_string m sp str_ptr 65536;
            match r with
            | None => Ret None
            | Some str =>
                addr ← u64_add addr 8;
                read_array_loop fuel m sp max_count addr (result ++ [str])
            end
      end
  end.

Definition read_user_string_array m sp (ptr max_count : Z) : exec (option (list (list Z))) :=
  if ptr =? 0 then Ret (Some []) else read_array_loop (Z.to_nat max_count) m sp max_count ptr [].

(** [read_string_array] repeats the body of [read_user_string_array]. *)
Definition read_string_array m sp (ptr max : Z) : exec (option (list (list Z))) :=
  read_user_string_array m sp ptr max.
End User.

(** ** [exec] *)
Section Exec.
Context {hh : Hhdm}.
(** The root table of the kernel, a static of [vmm.rs]. *)
Context (KERNEL_PML4_PHYS : Z).
Implicit Types (s : mm) (rq : sched) (sp : AddressSpace) (v : VmSpace).

(** [exec] returns an error, or enters user mode at [ent] with stack [rsp], the
    kernel stack [kst] in the TSS and the page tables [cr3]. *)
Inductive exec_outcome :=
  | ExecErr (e : ExecError) (s : mm) (rq : sched)
  | ExecJump (ent rsp kst cr3 : Z) (s : mm) (rq : sched).

(** An early return drops the new address space. *)
Definition exec_fail sp (e : ExecError) s rq : exec exec_outcome :=
  s ← AddressSpace_drop s sp; Ret (ExecErr e s rq).

(** From [build_user_stack] on. The assignment of the new address space drops
    the old one. *)
Definition exec_finish sp v (loaded : LoadedElf) (actual_entry : Z) (argv envp : list (list Z)) (path : list Z)
    s rq : exec exec_outcome :=
  '(r, (s, v)) ← build_user_stack sp loaded argv envp path (s, v);
  match r with
  | Err _ => exec_fail sp StackError s rq
  | Ok initial_rsp =>
      match current_process rq with
      | None => exec_fail sp NoMemory s rq
      | Some h =>
          p ← expect (procs rq !! h);
          s ← AddressSpace_drop s (address_space p);
          let rq := with_proc (set_image sp v (proc_name path)) h rq in
          kstack_top ← u64_add (kernel_stack p) (kernel_stack_size p);
          Ret (ExecJump actual_entry initial_rsp kstack_top (pml4_phys sp) s rq)
      end
  end.

Definition exec_ (elf_data : list Z) (argv envp : list (list Z)) (path : list Z) s rq : exec exec_outcome :=
  '(r, s) ← new_user KERNEL_PML4_PHYS s;
  match r with
  | None => Ret (ExecErr NoMemory s rq)
  | Some sp =>
      let pie_base := if is_pie elf_data then PIE_BASE else 0 in
      '(r, (s, v)) ← load_elf elf_data sp pie_base (s, VmSpace_new);
      match r with
      | Err e => exec_fail sp (ElfErr e) s rq
      | Ok loaded =>
          match interp_path loaded with
          | None => exec_finish sp v loaded (loaded_entry loaded) argv envp path s rq
          | Some ip =>
              match load_file_from_initrd ip with
              | None => exec_fail sp NotFound s rq
              | Some interp_data =>
                  '(r, (s, v)) ← load_elf interp_data sp INTERP_BASE (s, v);
                  match r with
                  | Err e => exec_fail sp (ElfErr e) s rq
                  | Ok il => exec_finish sp v loaded (loaded_entry il) argv envp path s rq
                  end
              end
          end
      end
  end.

(** The registers [jump_to_user] enters user mode with; all general registers
    are zero. *)
Record user_regs := { u_rip : Z; u_cs : Z; u_rflags : Z; u_rsp : Z; u_ss : Z }.

Definition jump_to_user (ent user_rsp user_cs user_ss flags : Z) : user_regs := {|
  u_rip := ent; u_cs := user_cs;
  u_rflags := Z.land (Z.lor flags 0x200) (u64_not 0x3000);
  u_rsp := user_rsp; u_ss := user_ss |}.

(** ** New processes ([Process::new_kernel], [Process::new_user])

    [iretq_trampoline] is the address of an assembly routine. *)
Context (iretq_trampoline : Z).

Definition fresh_context (rip_ rsp_ : Z) : CpuContext := {|
  r15 := 0; r14 := 0; r13 := 0; r12 := 0; rbp := 0; rbx := 0; rsp := rsp_; rip := rip_;
  rflags := 0x0202; cs := SEG_KERNEL_CODE; ss := SEG_KERNEL_DATA |}.

Definition fresh_process (pd : Z) (ctx : CpuContext) sp v (kst prio_ : Z) (nm : list Z) : Process := {|
  pid := pd; ppid := 0; state := Runnable; context := ctx; address_space := sp; vm := v;
  kernel_stack := kst; kernel_stack_size := KERNEL_STACK_SIZE; priority := prio_;
  time_slice := DEFAULT_TIME_SLICE; base_slice := DEFAULT_TIME_SLICE; exit_code := 0;
  name := proc_name nm; pending_signals := 0; signal_mask := 0 |}.

(** [cr3] is the register [AddressSpace::kernel] reads. *)
Definition new_kernel (nm : list Z) (entry_ prio_ cr3 : Z) s rq : exec (option Process * mm * sched) :=
  let '(pd, rq) := alloc_pid rq in
  '(r, s) ← alloc_frames s 2;
  match r with
  | None => Ret (None, s, rq)
  | Some stack_phys =>
      stack_virt ← phys_to_virt stack_phys;
      stack_top ← u64_add stack_virt KERNEL_STACK_SIZE;
      let ctx := fresh_context entry_ stack_top in
      Ret (Some (fresh_process pd ctx (kernel cr3) VmSpace_new stack_virt prio_ nm), s, rq)
  end.

(** The frame [iretq] pops, written below the top of the kernel stack. *)
Definition write_iret_frame s (p entry_ rsp_ : Z) : mm :=
  let m := store64 (ram s) p entry_ in
  let m := store64 m (p + 8) SEG_USER_CODE in
  let m := store64 m (p + 16) 0x0202 in
  let m := store64 m (p + 24) rsp_ in
  let m := store64 m (p + 32) SEG_USER_DATA in
  set_ram s m.

(** The messages of [Process::new_user]. *)
Inductive SpawnError := OOM_kernel_stack | OOM_address_space | ELF_load_failed | user_stack_build_failed.

(** Early returns drop the address space; the kernel stack is not freed. *)
Definition new_user_process (nm elf_data : list Z) (argv envp : list (list Z)) (prio_ : Z) s rq
    : exec (outcome SpawnError Process * mm * sched) :=
  let '(pd, rq) := alloc_pid rq in
  '(r, s) ← alloc_frames s 2;
  match r with
  | None => Ret (Err OOM_kernel_stack, s, rq)
  | Some kstack_phys =>
      kstack_virt ← phys_to_virt kstack_phys;
      kstack_top ← u64_add kstack_virt KERNEL_STACK_SIZE;
      '(r, s) ← new_user KERNEL_PML4_PHYS s;
      match r with
      | None => Ret (Err OOM_address_space, s, rq)
      | Some sp =>
          let pie_base := if is_pie elf_data then PIE_BASE else 0 in
          '(r, (s, v)) ← load_elf elf_data sp pie_base (s, VmSpace_new);
          match r with
          | Err _ => s ← AddressSpace_drop s sp; Ret (Err ELF_load_failed, s, rq)
          | Ok loaded =>
              '(r, (s, v)) ← build_user_stack sp loaded argv envp nm (s, v);
              match r with
              | Err _ => s ← AddressSpace_drop s sp; Ret (Err user_stack_build_failed, s, rq)
              | Ok initial_rsp =>
                  let frame := kstack_top - 40 in
                  let s := write_iret_frame s frame (loaded_entry loaded) initial_rsp in
                  let ctx := fresh_context iretq_trampoline frame in
                  Ret (Ok (fresh_process pd ctx sp v kstack_virt prio_ nm), s, rq)
              end
          end
      end
  end.

(** ** Specifications *)
Section Specs.
Context (inv : mm → gset Z → Prop) {FA : FrameAllocator inv}.
Implicit Types (F : gset Z) (T : gmap (list Z) Z) (D : gmap Z (Z * Z)).

Definition text_byte (b : Z) : Prop := 0 < b < 256.

Lemma read_string_loop_spec s F P T D p str (fuel : nat) : ∀ (k : nat) max,
  uspace inv s F P T D → holds s D p str (length str + 1) → Forall text_byte str →
  0 ≤ p → p + length str + 1 ≤ 2 ^ 47 → (k ≤ length str)%nat → length str < max → max - k ≤ fuel →
  read_string_loop fuel (ram s) {| pml4_phys := P |} max (p + k) (take k str) = Ret (Some (str ++ [0])).
Proof.
  change (2 ^ 47) with 140737488355328.
  induction fuel as [|fuel IH]; intros k max HU Hh Ht Hp Hlim Hk Hmax Hf; cbn [read_string_loop];
    rewrite length_take, (proj2 (Z.leb_gt _ _)) by lia; [lia|].
  rewrite (translate_uspace inv _ _ _ _ _ _ HU) by (unfold is_user; change (2 ^ 47) with 140737488355328; lia).
  exec_simpl. specialize (Hh k ltac:(lia)) as Hb. unfold ubyte in Hb.
  destruct (D !! page (p + k)) as [[q fl]|] eqn:E; [|done]. cbn in Hb. injection Hb as Hb.
  destruct (us_node _ _ _ _ _ _ HU _ _ _ E) as (Hq & _). exec_simpl.
  rewrite page_virt by (done || apply Z.mod_pos_bound; lia). exec_simpl.
  unfold load8. rewrite Hb, Nat2Z.id. destruct (decide (k = length str)) as [->|Hne].
  - rewrite nth_overflow by lia. by rewrite firstn_all.
  - destruct (lookup_lt_is_Some_2 str k ltac:(lia)) as [b Hbk]. rewrite (nth_lookup_Some _ _ _ _ Hbk).
    pose proof (Forall_lookup_1 _ _ _ _ Ht Hbk) as [? ?]. rewrite Z.mod_small by lia.
    rewrite (proj2 (Z.eqb_neq _ _)) by lia. rewrite u64_add_ok by lia. exec_simpl.
    replace (p + k + 1) with (p + S k) by lia. rewrite <- (take_S_r _ _ _ Hbk). apply IH; try done; lia.
Qed.

(** A zero-terminated string of the process is read back with its terminator. *)
Lemma read_user_string_spec s F P T D p str max :
  uspace inv s F P T D → holds s D p str (length str + 1) → Forall text_byte str →
  0 < p → p + length str + 1 ≤ 2 ^ 47 → length str < max →
  read_user_string (ram s) {| pml4_phys := P |} p max = Ret (Some (str ++ [0])).
Proof.
  intros HU Hh Ht Hp Hlim Hmax. unfold read_user_string. rewrite (proj2 (Z.eqb_neq _ _)) by lia.
  pose proof (read_string_loop_spec s F P T D p str (Z.to_nat max) 0 max HU Hh Ht) as H.
  rewrite Z.add_0_r in H. apply H; lia.
Qed.

(** A string without terminator within [max_len] bytes is refused. *)
Lemma read_string_loop_total s F P T D (fuel : nat) : ∀ max addr acc,
  uspace inv s F P T D → 0 ≤ addr → addr + fuel ≤ 2 ^ 47 → max - length acc ≤ fuel →
  ∃ r, read_string_loop fuel (ram s) {| pml4_phys := P |} max addr acc = Ret r.
Proof.
  change (2 ^ 47) with 140737488355328.
  induction fuel as [|fuel IH]; intros max addr acc HU Ha Hlim Hf; cbn [read_string_loop];
    destruct (Z.leb_spec max (length acc)); try lia; eauto.
  rewrite (translate_uspace inv _ _ _ _ _ _ HU) by (unfold is_user; change (2 ^ 47) with 140737488355328; lia).
  exec_simpl. destruct (D !! page addr) as [[q fl]|] eqn:E; [|eauto]. exec_simpl.
  destruct (us_node _ _ _ _ _ _ HU _ _ _ E) as (Hq & _).
  rewrite page_virt by (done || apply Z.mod_pos_bound; lia). exec_simpl.
  destruct (_ =? 0); [eauto|]. rewrite u64_add_ok by lia. exec_simpl.
  apply IH; [done|lia|lia|]. rewrite length_app. simpl. lia.
Qed.

Lemma load64_bytes (m : mem) (a v : Z) :
  is_u64 v → (∀ k, 0 ≤ k < 8 → m (a + k) = nth (Z.to_nat k) (to_le_bytes v) 0) → load64 m a = v.
Proof.
  intros Hv Hm. etransitivity; [|exact (load_store64 m a v Hv)]. apply load64_ext. intros x Hx.
  unfold store64, store_le. rewrite (proj2 (Z.leb_le _ _)), (proj2 (Z.ltb_lt _ _)) by lia. simpl.
  replace x with (a + (x - a)) at 1 by lia. rewrite Hm by lia. unfold to_le_bytes.
  assert (Hk : (Z.to_nat (x - a) < 8)%nat) by lia.
  rewrite (nth_lookup_Some _ _ _ (Z.shiftr v (8 * Z.to_nat (x - a)) mod 256)).
  - do 2 f_equal. lia.
  - rewrite list_lookup_fmap, lookup_seq_lt by lia. done.
Qed.

(** An aligned word of the process is found through its translation. *)
Lemma user_word s F P T D (a v : Z) :
  uspace inv s F P T D → holds s D a (to_le_bytes v) 8 → is_u64 v → a mod 8 = 0 → is_user a →
  ∃ phys p, translate (ram s) {| pml4_phys := P |} a = Ret (Some phys) ∧ phys_to_virt phys = Ret p ∧
    load64 (ram s) p = v.
Proof.
  intros HU Hh Hv Ha Hu. assert (Hoff : a mod PAGE_SIZE + 8 ≤ PAGE_SIZE) by (clear -Ha; dlia).
  pose proof (Z.mod_pos_bound a PAGE_SIZE ltac:(lia)) as Hm.
  pose proof (Hh 0 ltac:(lia)) as H0. unfold ubyte in H0. rewrite Z.add_0_r in H0.
  destruct (D !! page a) as [[q fl]|] eqn:E; [|done]. destruct (us_node _ _ _ _ _ _ HU _ _ _ E) as (Hq & _).
  eexists _, _. rewrite (translate_uspace inv _ _ _ _ _ _ HU Hu), E. split; [done|].
  split; [by apply page_virt|]. apply load64_bytes; [done|]. intros k Hk. specialize (Hh k Hk).
  unfold ubyte in Hh. assert (page (a + k) = page a ∧ (a + k) mod PAGE_SIZE = a mod PAGE_SIZE + k) as [E1 E2]
    by (clear -Hoff Hk Hm; dlia).
  rewrite E1, E2, E in Hh. exec_simpl_in Hh. apply (inj Some) in Hh. rewrite <- Hh. cbn [fst]. f_equal. lia.
Qed.

Lemma read_array_loop_spec s F P T D a max strs ptrs (fuel : nat) : ∀ acc b,
  uspace inv s F P T D → b = a + 8 * length acc → a mod 8 = 0 → 0 ≤ a →
  b + 8 * (length strs + 1) ≤ 2 ^ 47 →
  (∀ (i : nat) w, (ptrs ++ [0]) !! i = Some w → holds s D (b + 8 * i) (to_le_bytes w) 8) →
  Forall2 (λ str p, holds s D p str (length str + 1) ∧ Forall text_byte str ∧ 0 < p ∧
    p + length str + 1 ≤ 2 ^ 47 ∧ length str < 65536) strs ptrs →
  length acc + length strs < max → max - length acc ≤ fuel →
  read_array_loop fuel (ram s) {| pml4_phys := P |} max b acc =
    Ret (Some (acc ++ ((λ str, str ++ [0]) <$> strs))).
Proof.
  change (2 ^ 47) with 140737488355328. revert strs ptrs.
  induction fuel as [|fuel IH]; intros strs ptrs acc b HU Hb Ha Ha0 Hlim Hw Hs Hmax Hf;
    cbn [read_array_loop]; rewrite (proj2 (Z.leb_gt _ _)) by lia; [lia|].
  assert (Hword : ∀ w, (ptrs ++ [0]) !! 0%nat = Some w → is_u64 w →
    ∃ phys p, translate (ram s) {| pml4_phys := P |} b = Ret (Some phys) ∧ phys_to_virt phys = Ret p ∧
      load64 (ram s) p = w).
  { intros w H0 Hw0. apply (user_word s F P T D); try done.
    - specialize (Hw _ _ H0). by rewrite Z.add_0_r in Hw.
    - clear -Ha Hb. subst b. dlia.
    - unfold is_user. change (2 ^ 47) with 140737488355328. lia. }
  destruct Hs as [|str p strs ptrs (H1 & H2 & H3 & H4 & H5) Hs].
  - destruct (Hword 0) as (phys & p & -> & E2 & E3); [done|unfold is_u64; lia|]. exec_simpl. rewrite E2. exec_simpl.
    rewrite E3. cbn. by rewrite app_nil_r.
  - destruct (Hword p) as (phys & x & -> & E2 & E3); [done|unfold is_u64; change (2 ^ 47) with 140737488355328 in *; lia|].
    exec_simpl. rewrite E2. exec_simpl. rewrite E3, (proj2 (Z.eqb_neq _ _)) by lia.
    rewrite (read_user_string_spec s F P T D p str 65536) by done. exec_simpl.
    cbn [length] in *. rewrite u64_add_ok by lia. exec_simpl.
    rewrite (IH strs ptrs (acc ++ [str ++ [0]]) (b + 8)); rewrite ?length_app; cbn [length]; try done; try lia.
    + by rewrite <- app_assoc.
    + intros i w Hi. replace (b + 8 + 8 * i) with (b + 8 * S i) by lia. by apply Hw.
Qed.

(** *** The new image *)
Lemma new_user_uspace s F : inv s F → node_ok KERNEL_PML4_PHYS → KERNEL_PML4_PHYS ≠ 0 →
  KERNEL_PML4_PHYS / PAGE_SIZE ∉ F → (1 ≤ size F)%nat →
  ∃ p s', new_user KERNEL_PML4_PHYS s = Ret (Some {| pml4_phys := p |}, s') ∧ p / PAGE_SIZE ∈ F ∧
    uspace inv s' (F ∖ {[p / PAGE_SIZE]}) p {[ [] := p ]} ∅ ∧ agree_outside F (ram s) (ram s').
Proof.
  intros HI Hk Hk0 HkF Hsz.
  destruct (new_user_spec inv KERNEL_PML4_PHYS s F HI Hk Hk0 HkF) as (r & s' & E & H).
  destruct r as [[p]|]; [|destruct H as [_ ->]; rewrite size_empty in Hsz; lia].
  cbn [pml4_phys] in H. destruct H as (HpF & HV & Hw & _ & Hm). exists p, s'. by split_and!.
Qed.

Lemma tables_root p : tables {[ [] := p ]} = {[p / PAGE_SIZE]}.
Proof.
  apply set_eq. intros f. rewrite elem_of_tables, elem_of_singleton. split.
  - by intros (a & q & [_ <-]%lookup_singleton_Some & ->).
  - intros ->. exists [], p. by rewrite lookup_singleton_eq.
Qed.

Lemma dframes_empty : dframes ∅ = ∅.
Proof.
  apply set_eq. intros f. rewrite elem_of_dframes. split; [|by intros ?%not_elem_of_empty].
  intros (i & q & fl & H & _). by rewrite lookup_empty in H.
Qed.

(** What the program finds when it starts. *)
Record started data eh (pie_base : Z) (argv envp : list (list Z)) (path : list Z) (rsp : Z) s D : Prop := {
  st_perm : ∀ ph i, ph ∈ elf_phdrs data eh → loads ph → in_seg (elf_slide eh pie_base) ph i →
    ∃ q, D !! i = Some (q, seg_pte_flags ph);
  st_byte : ∀ ph w, ph ∈ elf_phdrs data eh → loads ph → in_seg (elf_slide eh pie_base) ph (page w) →
    ubyte (ram s) D w = Some (seg_byte data (elf_slide eh pie_base) ph w);
  st_stack : ∃ loaded, loaded_entry loaded = e_entry eh + elf_slide eh pie_base ∧
    initial_stack s D rsp loaded argv envp path
}.

Definition exec_frames data eh (pie_base : Z) : Z := 65 + segs_frames (elf_slide eh pie_base) (elf_phdrs data eh).

(** Executables [exec] can start: static, below the stack. *)
Record startable data (pie_base : Z) (eh : Elf64Ehdr) : Prop := {
  sb_wf : elf_wf data pie_base eh;
  sb_static : ∀ ph, ph ∈ elf_phdrs data eh → p_type ph ≠ PT_INTERP;
  sb_below : ∀ ph, ph ∈ elf_phdrs data eh → loads ph →
    seg_hi (elf_slide eh pie_base) ph ≤ page 0x7FFFFFFE0000
}.

Lemma load_and_stack p data pie_base eh argv envp path s F T D :
  uspace inv s F p T D → startable data pie_base eh → 0 ≤ pie_base < 2 ^ 47 - PAGE_SIZE →
  stack_need argv envp path ≤ 0x10000 → exec_frames data eh pie_base ≤ size F + 1 →
  ∃ loaded v1 s1 rsp v2 s2 F2 T2 D2,
    load_elf data {| pml4_phys := p |} pie_base (s, VmSpace_new) = Ret (Ok loaded, (s1, v1)) ∧
    interp_path loaded = None ∧ loaded_entry loaded = e_entry eh + elf_slide eh pie_base ∧
    build_user_stack {| pml4_phys := p |} loaded argv envp path (s1, v1) = Ret (Ok rsp, (s2, v2)) ∧
    extends inv p s F T D s2 F2 T2 D2 ∧ started data eh pie_base argv envp path rsp s2 D2.
Proof.
  intros HU [Hwf Hst Hbelow] Hpie Hneed Hfr. unfold exec_frames in Hfr.
  destruct (load_elf_spec inv p data pie_base eh s F T D VmSpace_new HU Hwf Hpie)
    as (r & s1 & F1 & T1 & D1 & v1 & E1 & HX1 & Hr).
  destruct r as [loaded|e]; cbn [ok_or_oom] in Hr; [|lia]. destruct Hr as (Hsz & [He Him _ _ _ _ Hstatic]).
  destruct (build_user_stack_spec inv p loaded argv envp path s1 F1 T1 D1 v1) as
    (rsp & s2 & F2 & T2 & D2 & E2 & HX2 & HC & HD & Hby & His); [apply HX1|lia|done|].
  eexists loaded, v1, s1, rsp, _, s2, F2, T2, D2. split_and!; [done|auto|done|exact E2|by eapply extends_trans|].
  split; [| |by exists loaded].
  - intros ph i Hin Hl Hi. rewrite HD by (specialize (Hbelow ph Hin Hl); unfold in_seg in Hi; lia).
    by eapply im_perm.
  - intros ph w Hin Hl Hi. rewrite Hby by (specialize (Hbelow ph Hin Hl); unfold in_seg in Hi; lia).
    by eapply im_byte.
Qed.

Lemma is_pie_slide data pie_base eh : elf_wf data pie_base eh → is_pie data = (e_type eh =? 3).
Proof.
  intros Hwf. destruct Hwf as [Hh _ _ _ _ _ _ _].
  assert (64 ≤ length data ∧ eh = read_ehdr data) as [Hl ->].
  { unfold check_ehdr in Hh. destruct (Z.ltb_spec (length data) 64); [done|].
    split; [done|]. repeat case_match; congruence. }
  unfold is_pie. by rewrite (proj2 (Z.ltb_ge _ _)) by lia.
Qed.

(** Dropping the old space after the new one is complete. *)
Lemma drop_old s F P T s2 F2 q T2 D2 :
  vmm_inv inv s F P T → uspace inv s2 F2 q T2 D2 → agree_outside F (ram s) (ram s2) →
  F2 ∪ tables T2 ∪ dframes D2 ⊆ F →
  ∃ s3, AddressSpace_drop s2 {| pml4_phys := P |} = Ret s3 ∧
    uspace inv s3 (F2 ∪ tables T) q T2 D2 ∧ agree_outside (F ∪ tables T) (ram s) (ram s3) ∧
    ∀ w, ubyte (ram s3) D2 w = ubyte (ram s2) D2 w.
Proof.
  intros [HI HT Hap] HU Hm HF.
  assert (HV2 : vmm_inv inv s2 F2 P T).
  { split; [apply HU| |clear -Hap HF; set_solver]. eapply tree_ext; [exact HT|].
    intros x Hx. apply Hm. intros Hf. exact (Hap _ Hx Hf). }
  destruct (drop_spec inv s2 F2 P T HV2) as (s3 & E & HI3 & Hm3). exists s3. split; [done|].
  pose proof (vi_apart _ _ _ _ _ (us_inv _ _ _ _ _ _ HU)) as Ht2.
  assert (Hd : F2 ∪ tables T ## tables T2 ∪ dframes D2).
  { intros f Hf Hf'. assert (f ∈ F) as HfF by (apply HF; clear -Hf'; set_solver).
    apply elem_of_union in Hf as [Hf|Hf]; [|exact (Hap _ Hf HfF)].
    apply elem_of_union in Hf' as [Hf'|(i & r & fl & Hi & ->)%elem_of_dframes]; [exact (Ht2 _ Hf' Hf)|].
    destruct (us_node _ _ _ _ _ _ HU _ _ _ Hi) as (_ & Hn & _). clear -Hn Hf. set_solver. }
  destruct (uspace_reframe inv s2 F2 q T2 D2 s3 (F2 ∪ tables T) HU HI3 Hm3 Hd) as [HU3 Hb].
  split_and!; [done| |done]. intros x Hx. rewrite Hm3, Hm; [done|clear -Hx; set_solver|].
  clear -Hx HF. set_solver.
Qed.

Lemma started_mono data eh pie argv envp path rsp s D s' :
  started data eh pie argv envp path rsp s D → (∀ w, ubyte (ram s') D w = ubyte (ram s) D w) →
  started data eh pie argv envp path rsp s' D.
Proof.
  intros [H1 H2 (l & H3 & [(av & ev & x & r & A1 & A2 & A3 & A4 & A5) R L])] Hb.
  assert (Hh : ∀ p bs n, holds s D p bs n → holds s' D p bs n).
  { intros p bs n H k Hk. rewrite Hb. by apply H. }
  split; [done|intros; rewrite Hb; eauto|]. exists l. split; [done|]. split; [|done..].
  exists av, ev, x, r. split_and!; [eapply Forall2_impl; [done|]; intros ? ? (? & ? & ?); split_and!; auto..|auto|auto|auto].
Qed.
End Specs.

(** A new address space with the program in it. *)
Lemma start_image co s F data eh argv envp path :
  let base := if is_pie data then PIE_BASE else 0 in
  pmm_inv co s F → node_ok KERNEL_PML4_PHYS → KERNEL_PML4_PHYS ≠ 0 → KERNEL_PML4_PHYS / PAGE_SIZE ∉ F →
  startable data base eh → stack_need argv envp path ≤ 0x10000 → exec_frames data eh base ≤ size F →
  ∃ l v1 s1 q s2 rsp v2 s3 F3 T3 D3,
    new_user KERNEL_PML4_PHYS s = Ret (Some {| pml4_phys := q |}, s1) ∧
    load_elf data {| pml4_phys := q |} base (s1, VmSpace_new) = Ret (Ok l, (s2, v1)) ∧
    build_user_stack {| pml4_phys := q |} l argv envp path (s2, v1) = Ret (Ok rsp, (s3, v2)) ∧
    loaded_entry l = e_entry eh + elf_slide eh base ∧ F3 ∪ tables T3 ∪ dframes D3 ⊆ F ∧
    uspace (pmm_inv co) s3 F3 q T3 D3 ∧ started data eh base argv envp path rsp s3 D3 ∧
    interp_path l = None ∧ agree_outside F (ram s) (ram s3).
Proof.
  intros base HI HK HK0 HKF Hsb Hneed Hfr.
  assert (Hpos : 0 ≤ segs_frames (elf_slide eh base) (elf_phdrs data eh)).
  { destruct (elf_wf_facts data base eh (sb_wf _ _ _ Hsb)) as (_ & ? & _ & _ & ?);
      [by unfold base, PIE_BASE; case_match|]. by apply (segs_frames_pos data). }
  unfold exec_frames in Hfr.
  destruct (new_user_uspace (pmm_inv co) s F HI HK HK0 HKF) as (q & s1 & E1 & HqF & HU1 & Hm1); [lia|].
  pose proof (size_take_one F _ HqF) as Hsz.
  destruct (load_and_stack (pmm_inv co) q data base eh argv envp path s1 _ _ _ HU1 Hsb)
    as (l & v1 & s2 & rsp & v2 & s3 & F3 & T3 & D3 & E2 & Hint & Hent & E3 & HX & Hst);
    [by unfold base, PIE_BASE; case_match|done|unfold exec_frames; lia|].
  destruct HX as [HU3 HF3 Hm3]. rewrite tables_root, dframes_empty in HF3, Hm3.
  assert (Hback : F ∖ {[q / PAGE_SIZE]} ∪ {[q / PAGE_SIZE]} ∪ ∅ ⊆ F).
  { intros f. rewrite !elem_of_union, elem_of_difference, elem_of_singleton. intros [[[Hf _]| ->]|Hf]; [done..|].
    by apply not_elem_of_empty in Hf. }
  exists l, v1, s1, q, s2, rsp, v2, s3, F3, T3, D3. split_and!; try done; [by etransitivity|].
  intros x Hx. rewrite Hm3, Hm1; [done|done|]. intros Hf. by apply Hx, Hback.
Qed.

(** ** Main theorems *)

(** [exec] on a static well-formed executable that lies below the stack, with
    enough free frames, enters user mode at the program's entry point. The
    process then runs in a new address space that holds the segments of the file
    and the initial stack with its arguments, the page tables of the old space
    are free again, and memory outside the free frames and the old tables is
    untouched. *)
Lemma exec_spec co s F P T rq h p data eh argv envp path :
  let base := if is_pie data then PIE_BASE else 0 in
  vmm_inv (pmm_inv co) s F P T → current rq = Some h → procs rq !! h = Some p →
  address_space p = {| pml4_phys := P |} → kernel_stack p + kernel_stack_size p < U64 →
  node_ok KERNEL_PML4_PHYS → KERNEL_PML4_PHYS ≠ 0 → KERNEL_PML4_PHYS / PAGE_SIZE ∉ F →
  startable data base eh → stack_need argv envp path ≤ 0x10000 → exec_frames data eh base ≤ size F →
  ∃ rsp q v s' F' T' D',
    exec_ data argv envp path s rq =
      Ret (ExecJump (e_entry eh + elf_slide eh base) rsp (kernel_stack p + kernel_stack_size p) q s'
        (with_proc (set_image {| pml4_phys := q |} v (proc_name path)) h rq)) ∧
    uspace (pmm_inv co) s' F' q T' D' ∧ started data eh base argv envp path rsp s' D' ∧
    tables T ⊆ F' ∧ agree_outside (F ∪ tables T) (ram s) (ram s').
Proof.
  intros base HV Hc Hp Hsp Hk HK HK0 HKF Hsb Hneed Hfr.
  destruct (start_image co s F data eh argv envp path (vi_inv _ _ _ _ _ HV) HK HK0 HKF Hsb Hneed Hfr)
    as (l & v1 & s1 & q & s2 & rsp & v2 & s3 & F3 & T3 & D3 & E1 & E2 & E3 & Hent & HF & HU3 & Hst & Hint & Hm).
  fold base in E2, Hst, Hent.
  destruct (drop_old (pmm_inv co) s F P T s3 F3 q T3 D3 HV HU3 Hm HF) as (s4 & E4 & HU4 & Hm4 & Hb4).
  exists rsp, q, v2, s4, (F3 ∪ tables T), T3, D3.
  split_and!; [|done|by eapply started_mono|clear; set_solver|done].
  unfold exec_. rewrite E1. exec_simpl. fold base. rewrite E2. exec_simpl. rewrite Hint. unfold exec_finish.
  rewrite E3. exec_simpl. unfold current_process. rewrite Hc, Hp. exec_simpl. rewrite Hsp, E4. exec_simpl.
  rewrite u64_add_ok by done. exec_simpl. by rewrite Hent.
Qed.

(** the arguments [exec] puts on a stack are those a program hands on: reading
    the argument vector of the initial stack with [execve]'s
    [read_user_string_array] gives back every string with its terminator. *)
Theorem argv_roundtrip co s F P T D rsp loaded argv envp path :
  uspace (pmm_inv co) s F P T D → initial_stack s D rsp loaded argv envp path →
  Forall (λ str, Forall text_byte str ∧ length str < 65536) argv → length argv < 256 →
  read_user_string_array (ram s) {| pml4_phys := P |} (rsp + 8) 256 =
    Ret (Some ((λ str, str ++ [0]) <$> argv)).
Proof.
  intros HU [(av & ev & x & r & Ha & He & _ & _ & Hw) Hr Hal] Ht Hn.
  assert (rsp mod 8 = 0) as Hal8 by (clear -Hal; destruct (Z.odd _); dlia).
  pose proof (Forall2_length _ _ _ Ha) as Hlen.
  unfold read_user_string_array. rewrite (proj2 (Z.eqb_neq _ _)) by lia.
  apply (read_array_loop_spec (pmm_inv co) s F P T D (rsp + 8) 256 argv av); cbn [length]; try done; try lia.
  - clear -Hal8. dlia.
  - intros i w Hi. replace (rsp + 8 + 8 * i) with (rsp + 8 * S i) by lia. apply Hw.
    unfold stack_words. change ((av ++ [0] ++ ev ++ [0] ++ rev (aux_pushes loaded x r)) !! i = Some w). rewrite app_assoc. by apply lookup_app_l_Some.
  - apply Forall2_same_length_lookup_2; [done|]. intros i str p Hi Hp.
    destruct (Forall2_lookup_lr _ _ _ _ _ _ Ha Hi Hp) as (H1 & H2 & H3). unfold str_size in *.
    destruct (Forall_lookup_1 _ _ _ _ Ht Hi). split_and!; [done|done|lia| |done].
    change (2 ^ 47) with 140737488355328. lia.
Qed.

(** *** New user processes *)
Lemma iret_frame_words s p e r : is_u64 e → is_u64 r →
  let m := ram (write_iret_frame s p e r) in
  load64 m p = e ∧ load64 m (p + 8) = SEG_USER_CODE ∧ load64 m (p + 16) = 0x0202 ∧
  load64 m (p + 24) = r ∧ load64 m (p + 32) = SEG_USER_DATA ∧
  ∀ x, x < p ∨ p + 40 ≤ x → m x = ram s x.
Proof.
  intros He Hr m. assert (∀ n, 0 ≤ n < 1024 → is_u64 n) by (unfold is_u64; lia).
  unfold m, write_iret_frame. cbn [ram set_ram].
  split_and!; try (by repeat (rewrite load_store64_other by lia); apply load_store64; auto).
  intros x Hx. by rewrite !store64_other by lia.
Qed.

(** a new user process, if an aligned block of four frames for its kernel
    stack is free besides those the program needs, is runnable with the next
    pid. Its kernel stack ends with the frame from which [iretq] enters the
    program at its entry point on its initial stack in user mode, and its context
    points the trampoline at that frame; its address space holds the segments of
    the file and the initial stack. *)
Theorem new_user_process_correct co s F rq data eh argv envp nm prio_ :
  let base := if is_pie data then PIE_BASE else 0 in
  pmm_inv co s F → node_ok KERNEL_PML4_PHYS → KERNEL_PML4_PHYS ≠ 0 → KERNEL_PML4_PHYS / PAGE_SIZE ∉ F →
  startable data base eh → stack_need argv envp nm ≤ 0x10000 → exec_frames data eh base + 4 ≤ size F →
  ∃ r s' rq', new_user_process nm data argv envp prio_ s rq = Ret (r, s', rq') ∧
    procs rq' = procs rq ∧ queue rq' = queue rq ∧ current rq' = current rq ∧
    match r with
    | Err e => e = OOM_kernel_stack ∧ s' = s ∧ (co = true → ∀ b, block_ok 2 b → ¬ block_set 2 b ⊆ F)
    | Ok p => ∃ F' T' D' rsp_,
        pid p = NEXT_PID rq ∧ state p = Runnable ∧ stack_ok p ∧
        uspace (pmm_inv co) s' F' (pml4_phys (address_space p)) T' D' ∧
        started data eh base argv envp nm rsp_ s' D' ∧
        rip (context p) = iretq_trampoline ∧
        rsp (context p) = kernel_stack p + KERNEL_STACK_SIZE - 40 ∧
        load64 (ram s') (rsp (context p)) = e_entry eh + elf_slide eh base ∧
        load64 (ram s') (rsp (context p) + 8) = SEG_USER_CODE ∧
        load64 (ram s') (rsp (context p) + 16) = 0x0202 ∧
        load64 (ram s') (rsp (context p) + 24) = rsp_ ∧
        load64 (ram s') (rsp (context p) + 32) = SEG_USER_DATA
    end.
Proof.
  intros base HI HK HK0 HKF Hsb Hneed Hfr. unfold new_user_process. cbn [alloc_pid].
  set (rq1 := {| procs := _ |}). unfold alloc_frames.
  destruct (alloc_refines co s F 2 HI) as (r & s1 & E & H). rewrite E. exec_simpl. clear E.
  destruct r as [k|]; cycle 1.
  { destruct H as [-> H]. exists (Err OOM_kernel_stack), s, rq1. split_and!; try done. intros ->. apply H; [lia|by left]. }
  destruct H as (_ & Hk & Hsub & HI1 & Hm1 & _).
  assert (Hkn : node_ok k) by by apply (block_ok_node 2). pose proof hhdm_bound as Hhb. pose proof hhdm_pos.
  assert (Hkb : k + 16384 ≤ PHYS_LIMIT).
  { destruct Hk as (_ & _ & Hk). by change (PAGE_SIZE * 2 ^ 2%nat) with 16384 in Hk. }
  rewrite table_virt by done. exec_simpl. rewrite u64_add_ok by (unfold table_at; lia). exec_simpl.
  assert (Hsz : (size F = size (F ∖ block_set 2 k) + 4)%nat).
  { rewrite size_difference, block_set_size by done. change (Z.to_nat (2 ^ 2%nat)) with 4%nat.
    pose proof (subseteq_size _ _ Hsub) as Hs4. rewrite block_set_size in Hs4.
    change (Z.to_nat (2 ^ 2%nat)) with 4%nat in Hs4. lia. }
  destruct (start_image co s1 (F ∖ block_set 2 k) data eh argv envp nm)
    as (l & v1 & s2 & q & s3 & rsp_ & v2 & s4 & F4 & T4 & D4 & E1 & E2 & E3 & Hent & HF4 & HU4 & Hst & _);
    try done; [clear -HKF; set_solver|fold base; lia|].
  fold base in E2, Hst, Hent. rewrite E1. exec_simpl. fold base. rewrite E2. exec_simpl. rewrite E3. exec_simpl.
  set (top := table_at k + KERNEL_STACK_SIZE).
  assert (He : is_u64 (loaded_entry l)).
  { rewrite Hent. destruct (sb_wf _ _ _ Hsb) as [_ _ _ _ _ _ _ Hee]. split; [|done].
    destruct (elf_wf_facts data base eh (sb_wf _ _ _ Hsb)) as (-> & ? & _); [by unfold base, PIE_BASE; case_match|].
    assert (0 ≤ e_entry (read_ehdr data)) by (apply le_bound, (sb_wf _ _ _ Hsb)). lia. }
  assert (Hr : is_u64 rsp_). { destruct Hst as [_ _ (? & _ & [_ ? _])]. unfold is_u64. lia. }
  destruct (iret_frame_words s4 (top - 40) (loaded_entry l) rsp_ He Hr) as (W1 & W2 & W3 & W4 & W5 & Wo).
  destruct (uspace_other (pmm_inv co) s4 F4 q T4 D4 (ram (write_iret_frame s4 (top - 40) (loaded_entry l) rsp_)) HU4)
    as [HU5 Hb5].
  { intros x Hx. apply Wo. destruct (decide (top - 40 ≤ x < top)) as [Hin|]; [exfalso|lia].
    apply HF4 in Hx. apply elem_of_difference in Hx as [_ Hx]. apply Hx, block_set_elem, block_frames_elem.
    clear -Hin Hkn. unfold top, table_at, vframe in *. destruct Hkn as [_ Ha]. change (2 ^ 2%nat) with 4. dlia. }
  eexists (Ok _), _, rq1. split; [done|]. split_and!; [done..|]. exists F4, T4, D4, rsp_. cbn.
  split_and!; try done.
  - unfold stack_ok. cbn. unfold table_at. lia.
  - by eapply started_mono.
  - by rewrite <- Hent.
Qed.

(** The callee-saved registers of a new process are zero. *)
Lemma new_user_context nm data argv envp prio_ s rq p s' rq' :
  new_user_process nm data argv envp prio_ s rq = Ret (Ok p, s', rq') →
  [rbx (context p); rbp (context p); r12 (context p); r13 (context p); r14 (context p); r15 (context p)] = replicate 6 0.
Proof.
  unfold new_user_process. cbn [alloc_pid]. intros H.
  repeat (exec_inv; repeat case_match; simplify_eq/=); exec_inv; by simplify_eq/=.
Qed.
End Exec.

(** ** Witnesses: [/bin/hello] on the demo machine *)
Section Demo.
#[local] Existing Instance qemu_hhdm.

Lemma hello_startable : startable HELLO_ELF (if is_pie HELLO_ELF then PIE_BASE else 0) (read_ehdr HELLO_ELF).
Proof.
  assert (elf_phdrs HELLO_ELF (read_ehdr HELLO_ELF) = [read_phdr HELLO_ELF 64]) as E by reflexivity.
  split; [exact hello_wf|rewrite E..].
  - intros ph ->%list_elem_of_singleton. vm_compute. congruence.
  - intros ph ->%list_elem_of_singleton _. by vm_compute.
Qed.

Lemma kernel_root_free : 0x1000 / PAGE_SIZE ∉ demo_F.
Proof. unfold demo_F. intros [H _]%elem_of_difference. by apply demo_frame_1. Qed.

Definition demo_argv : list (list Z) := [[104; 101; 108; 108; 111]].

Lemma argv_roundtrip_witness :
  ∃ s rsp, build_user_stack {| pml4_phys := demo_P |} demo_loaded demo_argv [] [47; 104; 105] (demo_s, VmSpace_new) =
      Ret (Ok rsp, (s, add_vma VmSpace_new USER_STACK_BOTTOM USER_STACK_TOP STACK_VMA_FLAGS)) ∧
    read_user_string_array (ram s) {| pml4_phys := demo_P |} (rsp + 8) 256 =
      Ret (Some [[104; 101; 108; 108; 111; 0]]).
Proof.
  destruct (build_user_stack_spec (pmm_inv true) demo_P demo_loaded demo_argv [] [47; 104; 105]
    demo_s demo_F {[ [] := demo_P ]} ∅ VmSpace_new demo_uspace) as (rsp & s & F & T & D & E & HX & _ & _ & _ & Hst).
  - pose proof demo_F_size. lia.
  - by vm_compute.
  - exists s, rsp. split; [exact E|].
    apply (argv_roundtrip true s F demo_P T D rsp demo_loaded demo_argv [] [47; 104; 105]).
    + apply HX.
    + exact Hst.
    + repeat constructor; lia.
    + by vm_compute.
Defined.

Lemma demo_usable_size : 256 ≤ size (usable_frames demo_map).
Proof.
  pose proof demo_F_size as H. unfold demo_F in H.
  pose proof (subseteq_size (usable_frames demo_map ∖ {[demo_P / PAGE_SIZE]}) (usable_frames demo_map)) as H'.
  specialize (H' ltac:(by intros f [Hf _]%elem_of_difference)). lia.
Qed.

Lemma new_user_process_correct_witness :
  ∃ r s' rq', new_user_process 0x1000 0xFFFFFFFF80002000 [104; 105] HELLO_ELF demo_argv [] 10 demo_state boot =
      Ret (r, s', rq') ∧
    procs rq' = procs boot ∧ queue rq' = queue boot ∧ current rq' = current boot ∧
    match r with
    | Err e => e = OOM_kernel_stack ∧ s' = demo_state ∧ (true = true → ∀ b, block_ok 2 b → ¬ block_set 2 b ⊆ usable_frames demo_map)
    | Ok p => ∃ F' T' D' rsp_,
        pid p = NEXT_PID boot ∧ state p = Runnable ∧ stack_ok p ∧
        uspace (pmm_inv true) s' F' (pml4_phys (address_space p)) T' D' ∧
        started HELLO_ELF (read_ehdr HELLO_ELF) 0 demo_argv [] [104; 105] rsp_ s' D' ∧
        rip (context p) = 0xFFFFFFFF80002000 ∧
        rsp (context p) = kernel_stack p + KERNEL_STACK_SIZE - 40 ∧
        load64 (ram s') (rsp (context p)) = 0x400078 + 0 ∧
        load64 (ram s') (rsp (context p) + 8) = SEG_USER_CODE ∧
        load64 (ram s') (rsp (context p) + 16) = 0x0202 ∧
        load64 (ram s') (rsp (context p) + 24) = rsp_ ∧
        load64 (ram s') (rsp (context p) + 32) = SEG_USER_DATA
    end.
Proof.
  apply (new_user_process_correct 0x1000 0xFFFFFFFF80002000 true demo_state (usable_frames demo_map) boot
    HELLO_ELF (read_ehdr HELLO_ELF) demo_argv [] [104; 105] 10).
  - exact demo_inv.
  - split; [lia|reflexivity].
  - lia.
  - exact demo_frame_1.
  - exact hello_startable.
  - by vm_compute.
  - pose proof demo_usable_size. change (exec_frames _ _ _) with 69. lia.
Defined.
End Demo.
