(* ===== verification/Text.v ===== *)
(** The parts of [core::str] and [alloc::collections::BTreeMap] that the file
    system uses. A [&str] is the list of its bytes; the code only ever cuts
    strings at the ASCII byte ['/'], so byte positions are the positions the
    code computes. *)
From S2P Require Import Prelude.
From Stdlib Require Import Sorted.
From Stdlib Require String Ascii.

Abbreviation str := (list Z) (only parsing).

(** A string literal as bytes. *)
Fixpoint lit (s : String.string) : str :=
  match s with
  | String.EmptyString => []
  | String.String c s => Z.of_N (Ascii.N_of_ascii c) :: lit s
  end.

(** The byte of ['/'] *)
Abbreviation SLASH := 47 (only parsing).

(** ** [str::split], [trim_end_matches], [rfind], [starts_with], [ends_with] *)
Fixpoint split (c : Z) (s : str) : list str :=
  match s with
  | [] => [[]]
  | x :: s =>
      if x =? c then [] :: split c s
      else match split c s with
           | [] => [[x]]
           | w :: ws => (x :: w) :: ws
           end
  end.

Fixpoint trim_start (c : Z) (s : str) : str :=
  match s with
  | [] => []
  | x :: s' => if x =? c then trim_start c s' else s
  end.
Definition trim_end (c : Z) (s : str) : str := reverse (trim_start c (reverse s)).

Fixpoint rfind (c : Z) (s : str) : option nat :=
  match s with
  | [] => None
  | x :: s =>
      match rfind c s with
      | Some i => Some (S i)
      | None => if x =? c then Some O else None
      end
  end.

Fixpoint starts_with (p s : str) : bool :=
  match p, s with
  | [], _ => true
  | x :: p, y :: s => (x =? y) && starts_with p s
  | _ :: _, [] => false
  end.
Definition ends_with (c : Z) (s : str) : bool :=
  match last s with Some x => x =? c | None => false end.

(** The non-empty pieces of a path, in order. *)
Definition components (path : str) : list str :=
  filter (λ w, w ≠ []) (split SLASH path).

(** ** [core::str::from_utf8]

    The well-formed byte sequences of the Unicode standard. *)
Definition between (lo hi b : Z) : bool := (lo <=? b) && (b <=? hi).
Definition continuation (b : Z) : bool := between 0x80 0xBF b.

Fixpoint utf8_valid (s : str) : bool :=
  match s with
  | [] => true
  | b :: s =>
      if b <? 0x80 then utf8_valid s else
      match s with
      | [] => false
      | c1 :: s =>
          if between 0xC2 0xDF b && continuation c1 then utf8_valid s else
          match s with
          | [] => false
          | c2 :: s =>
              if ((b =? 0xE0) && between 0xA0 0xBF c1 || between 0xE1 0xEC b && continuation c1 ||
                  (b =? 0xED) && between 0x80 0x9F c1 || between 0xEE 0xEF b && continuation c1) &&
                 continuation c2 then utf8_valid s else
              match s with
              | [] => false
              | c3 :: s =>
                  if ((b =? 0xF0) && between 0x90 0xBF c1 || between 0xF1 0xF3 b && continuation c1 ||
                      (b =? 0xF4) && between 0x80 0x8F c1) && continuation c2 && continuation c3
                  then utf8_valid s else false
              end
          end
      end
  end.

Lemma utf8_valid_ascii (s t : str) : Forall (λ b, b < 128) s → utf8_valid (s ++ t) = utf8_valid t.
Proof.
  induction 1 as [|b s Hb _ IH]; [done|]. cbn [app utf8_valid]. by rewrite (proj2 (Z.ltb_lt _ _)).
Qed.

(** ** Byte-wise lexicographic order, the [Ord] of [String] *)
Fixpoint str_lt (a b : str) : bool :=
  match a, b with
  | [], [] => false
  | [], _ :: _ => true
  | _ :: _, [] => false
  | x :: a, y :: b => (x <? y) || (x =? y) && str_lt a b
  end.

(** ** [BTreeMap<String, A>]: the entries in key order *)
Section BTreeMap.
Context {A : Type}.
Implicit Types (l : list (str * A)) (k : str).

Fixpoint bt_get k l : option A :=
  match l with
  | [] => None
  | (k', v) :: l => if decide (k = k') then Some v else bt_get k l
  end.

(** Inserts or overwrites. *)
Fixpoint bt_insert k (v : A) l : list (str * A) :=
  match l with
  | [] => [(k, v)]
  | (k', v') :: l' =>
      if str_lt k k' then (k, v) :: l
      else if decide (k = k') then (k, v) :: l'
      else (k', v') :: bt_insert k v l'
  end.

Fixpoint bt_remove k l : list (str * A) :=
  match l with
  | [] => []
  | (k', v') :: l' => if decide (k = k') then l' else (k', v') :: bt_remove k l'
  end.

(** Strictly increasing keys. *)
Definition bt_sorted l : Prop := StronglySorted (λ x y, str_lt x.1 y.1) l.
End BTreeMap.

(** ** The order *)
Lemma str_lt_irrefl a : str_lt a a = false.
Proof. induction a as [|x a IH]; simpl; [done|]. by rewrite IH, Z.ltb_irrefl, andb_false_r. Qed.

Lemma str_lt_trans a b c : str_lt a b → str_lt b c → str_lt a c.
Proof.
  revert b c. induction a as [|x a IH]; intros [|y b] [|z c]; simpl; try done.
  rewrite !Is_true_true, !orb_true_iff, !andb_true_iff, !Z.ltb_lt, !Z.eqb_eq.
  specialize (IH b c). rewrite !Is_true_true in IH. naive_solver lia.
Qed.

Lemma str_lt_total a b : str_lt a b = false → a ≠ b → str_lt b a.
Proof.
  revert b. induction a as [|x a IH]; intros [|y b]; simpl; try done.
  rewrite Is_true_true, orb_false_iff, orb_true_iff, andb_true_iff, andb_false_iff.
  rewrite Z.ltb_lt, Z.eqb_eq, Z.ltb_ge, Z.eqb_neq. intros [H1 H2] Hne.
  destruct (Z.eq_dec x y) as [->|]; [|left; lia].
  right. split; [done|]. destruct H2 as [|H2]; [done|].
  apply Is_true_true, IH; [done|]. congruence.
Qed.

Section BTreeMap_facts.
Context {A : Type}.
Implicit Types (l : list (str * A)) (k : str) (v : A).

(** The abstract map an entry list stands for. *)
Definition bt_map l : gmap str A := list_to_map l.

Lemma bt_get_map k l : bt_get k l = bt_map l !! k.
Proof.
  induction l as [|[k' v'] l IH]; simpl; [done|]. unfold bt_map in *. simpl.
  case_decide as E; [subst; by rewrite lookup_insert_eq|].
  by rewrite lookup_insert_ne.
Qed.

Lemma bt_sorted_notin k v l : bt_sorted ((k, v) :: l) → bt_map l !! k = None.
Proof.
  intros H. inversion_clear H as [|?? Hs Hf]. apply not_elem_of_list_to_map_1.
  intros ([k' v'] & -> & Hin)%list_elem_of_fmap.
  rewrite Forall_forall in Hf. specialize (Hf _ Hin). simpl in Hf.
  by rewrite str_lt_irrefl in Hf.
Qed.

Lemma bt_insert_Forall (P : str * A → Prop) k v l :
  P (k, v) → Forall P l → Forall P (bt_insert k v l).
Proof.
  intros Hk Hl. induction Hl as [|[k' v'] l Hx Hl IH]; simpl; [by constructor|].
  destruct (str_lt k k'); [by repeat constructor|]. case_decide; by constructor.
Qed.

Lemma bt_remove_Forall (P : str * A → Prop) k l : Forall P l → Forall P (bt_remove k l).
Proof.
  intros Hl. induction Hl as [|[k' v'] l Hx Hl IH]; simpl; [by constructor|].
  case_decide; by try constructor.
Qed.

Lemma bt_insert_map k v l :
  bt_sorted l → bt_map (bt_insert k v l) = <[k := v]> (bt_map l).
Proof.
  induction l as [|[k' v'] l IH]; intros Hs; simpl; [done|].
  destruct (str_lt k k') eqn:E; [done|].
  case_decide as Ek; [subst; unfold bt_map; simpl; by rewrite insert_insert_eq|].
  inversion_clear Hs as [|?? Hs' ?]. unfold bt_map in *. simpl. rewrite IH by done.
  by rewrite insert_insert_ne.
Qed.

Lemma bt_remove_map k l : bt_sorted l → bt_map (bt_remove k l) = delete k (bt_map l).
Proof.
  induction l as [|[k' v'] l IH]; intros Hs; simpl; [by rewrite delete_empty|].
  pose proof (bt_sorted_notin _ _ _ Hs) as Hn. inversion_clear Hs as [|?? Hs' ?].
  unfold bt_map in *. case_decide as Ek; simpl.
  - subst. by rewrite delete_insert_id.
  - rewrite IH by done. by rewrite delete_insert_ne.
Qed.

Lemma bt_insert_sorted k v l : bt_sorted l → bt_sorted (bt_insert k v l).
Proof.
  intros Hs. induction Hs as [|[k' v'] l Hs IH Hf]; simpl; [by repeat constructor|].
  destruct (str_lt k k') eqn:E.
  - constructor; [by constructor|]. apply Is_true_eq_left in E. constructor; [done|].
    eapply Forall_impl; [exact Hf|]. intros [k2 v2]. simpl. by apply str_lt_trans.
  - case_decide as Ek; [by subst; constructor|]. constructor; [done|].
    apply bt_insert_Forall; [by apply str_lt_total|done].
Qed.

Lemma bt_remove_sorted k l : bt_sorted l → bt_sorted (bt_remove k l).
Proof.
  intros Hs. induction Hs as [|[k' v'] l Hs IH Hf]; simpl; [by constructor|].
  case_decide; [done|]. constructor; [done|]. by apply bt_remove_Forall.
Qed.
End BTreeMap_facts.

(** ** Formatting of numbers *)
Definition digit (d : Z) : Z := if d <? 10 then 48 + d else 87 + d.
Fixpoint digits (fuel : nat) (radix n : Z) (acc : str) : str :=
  match fuel with
  | O => acc
  | S fuel => if n <? radix then digit n :: acc else digits fuel radix (n / radix) (digit (n mod radix) :: acc)
  end.
(** A 64-bit number has at most 64 digits. *)
Definition fmt (radix n : Z) : str := digits 64 radix n [].
Definition dec (n : Z) : str := if n <? 0 then 45 :: fmt 10 (- n) else fmt 10 n.
Definition octal (n : Z) : str := fmt 8 n.
(** [{:w$}] right-aligns a number, [{:0wx}] fills with zeros *)
Definition pad (c : Z) (w : nat) (s : str) : str := replicate (w - length s) c ++ s.
Definition hex (w : nat) (n : Z) : str := pad 48 w (fmt 16 n).
