(* ===== verification/Vfs.v ===== *)
(** The virtual file system layer, [src/src/fs/vfs.rs]: error numbers, file
    metadata, the operations an inode provides (the trait [InodeOps], a class
    here) and open files with their offset. File systems are instances of the
    class; path resolution and the mount table are written against it. *)
From S2P Require Import Prelude Effects Text.

Definition ENOENT : Errno := 2.
Definition EIO : Errno := 5.
Definition EEXIST : Errno := 17.
Definition ENOTDIR : Errno := 20.
Definition EISDIR : Errno := 21.
Definition EINVAL : Errno := 22.
Definition ENOTEMPTY : Errno := 39.
Definition ENOTSUP : Errno := 95.
Definition ELOOP : Errno := 40.

Definition O_WRONLY : Z := 1.
(** [0o100], [0o1000] and [0o2000] *)
Definition O_CREAT : Z := 0x40.
Definition O_TRUNC : Z := 0x200.
Definition O_APPEND : Z := 0x400.

(** The largest allocation [Vec] accepts, [isize::MAX]. *)
Abbreviation ISIZE_MAX := 9223372036854775807 (only parsing).

Inductive FileType : Set :=
  | Regular
  | Directory
  | Symlink
  | CharDevice.
#[global] Instance FileType_eq_dec : EqDecision FileType.
Proof. solve_decision. Defined.

Record Stat : Type := {
  st_ino : Z;
  kind : FileType;
  size : Z;
  mode : Z;
  nlink : Z;
  uid : Z;
  gid : Z
}.

Record DirEntry : Type := { de_name : str; de_ino : Z; de_kind : FileType }.

(** ** [InodeOps]

    [I] is the type of inode references ([Arc<Inode>]). [i_read i off len] is
    [read(off, buf)] with [buf.len() = len]; it returns the bytes the code
    copies to the front of [buf], whose number is the value [read] returns. *)
Class InodeOps (St I : Type) := {
  i_stat : I → op St Stat;
  i_read : I → Z → Z → op St (list Z);
  i_write : I → Z → list Z → op St Z;
  i_truncate : I → Z → op St unit;
  i_lookup : I → str → op St I;
  i_readdir : I → Z → op St (option DirEntry);
  i_create : I → str → Z → op St I;
  i_mkdir : I → str → Z → op St I;
  i_unlink : I → str → op St unit;
  i_rmdir : I → str → op St unit;
  i_symlink : I → str → str → op St I;
  i_readlink : I → op St str;
  i_rename : I → str → I → str → op St unit;
  i_insert_child : I → str → I → op St unit
}.

Section Vfs.
Context {St I : Type} {ops : InodeOps St I}.

Definition is_kind (k : FileType) (i : I) : op St bool :=
  st ← i_stat i; mret (bool_decide (kind st = k)).
Definition is_dir : I → op St bool := is_kind Directory.
Definition is_symlink : I → op St bool := is_kind Symlink.

(** ** Open files: an inode, an offset behind a lock, and flags *)
Record File : Type := { f_inode : I; f_offset : Z; f_flags : Z }.

Definition File_new (inode : I) (flags : Z) : File :=
  {| f_inode := inode; f_offset := 0; f_flags := flags |}.

Definition set_offset (f : File) (o : Z) : File :=
  {| f_inode := f_inode f; f_offset := o; f_flags := f_flags f |}.

Definition File_read (len : Z) : op (File * St) (list Z) :=
  f ← get_fst;
  bs ← lift (i_read (f_inode f) (f_offset f) len);
  o ← check (u64_add (f_offset f) (length bs));
  _ ← put_fst (set_offset f o);
  mret bs.

Definition File_write (buf : list Z) : op (File * St) Z :=
  f0 ← get_fst;
  f ← (if negb (Z.land (f_flags f0) O_APPEND =? 0)
       then st ← lift (i_stat (f_inode f0));
            _ ← put_fst (set_offset f0 (size st));
            get_fst
       else get_fst);
  n ← lift (i_write (f_inode f) (f_offset f) buf);
  o ← check (u64_add (f_offset f) n);
  _ ← put_fst (set_offset f o);
  mret n.

Definition readdir_next : op (File * St) (option DirEntry) :=
  f ← get_fst;
  e ← lift (i_readdir (f_inode f) (f_offset f));
  match e with
  | Some _ =>
      o ← check (u64_add (f_offset f) 1);
      _ ← put_fst (set_offset f o);
      mret e
  | None => mret e
  end.

(** Runs code on a file of its own; the file is dropped afterwards. *)
Definition with_file {A} (f : File) (e : op (File * St) A) : op St A := λ s,
  match e (f, s) with
  | Ret (r, (_, s')) => Ret (r, s')
  | Panic => Panic
  | NoFuel => NoFuel
  end.
End Vfs.
Arguments File : clear implicits.
