(* ===== verification/Ramfs.v ===== *)
(** The in-memory file system, [src/src/fs/ramfs.rs]. Inodes live in a store
    indexed by the [Arc] that refers to them, so two directory entries, an open
    file and the working directory can share one inode. *)
From S2P Require Import Prelude Effects Text Vfs.
From Stdlib Require Import Sorted.

Inductive node : Type :=
  | RamDir (ino mode : Z) (children : list (str * positive))
  | RamFile (ino mode : Z) (data : list Z)
  | RamSymlink (ino : Z) (target : str).

(** The inodes and the global counter [NEXT_INO] of [vfs.rs]. *)
Record ramfs : Type := { nodes : gmap positive node; NEXT_INO : Z }.

Implicit Types (s : ramfs) (i : positive) (name : str).

(** ** Access to the store *)

(** An [Arc<Inode>] always points to its inode. *)
Definition get_node i : op ramfs node := λ s,
  match nodes s !! i with Some nd => Ret (Ok nd, s) | None => Panic end.

Definition set_node i (nd : node) : op ramfs unit := λ s,
  Ret (Ok (), {| nodes := <[i := nd]> (nodes s); NEXT_INO := NEXT_INO s |}).

Definition alloc_ino : op ramfs Z := λ s,
  Ret (Ok (NEXT_INO s), {| nodes := nodes s; NEXT_INO := u64_wrap (NEXT_INO s + 1) |}).

(** [Inode::new(ino, Arc::new(ops))] *)
Definition new_node (nd : node) : op ramfs positive := λ s,
  let i := fresh (dom (nodes s)) in
  Ret (Ok i, {| nodes := <[i := nd]> (nodes s); NEXT_INO := NEXT_INO s |}).

(** Waiting for a lock the caller itself holds: the code spins for ever. *)
Definition deadlock {A} : op ramfs A := λ _, NoFuel.

Definition ino_of (nd : node) : Z :=
  match nd with RamDir ino _ _ | RamFile ino _ _ | RamSymlink ino _ => ino end.

Definition stat_of (nd : node) : Stat :=
  match nd with
  | RamDir ino mode _ =>
      {| st_ino := ino; kind := Directory; size := 0; mode := mode; nlink := 2; uid := 0; gid := 0 |}
  | RamFile ino mode data =>
      {| st_ino := ino; kind := Regular; size := length data; mode := mode; nlink := 1;
         uid := 0; gid := 0 |}
  | RamSymlink ino target =>
      {| st_ino := ino; kind := Symlink; size := length target; mode := 511; nlink := 1;
         uid := 0; gid := 0 |}
  end.

(** ** The operations; [511], [493] and [420] are [0o777], [0o755], [0o644]. *)
Definition ram_stat i : op ramfs Stat := nd ← get_node i; mret (stat_of nd).

Definition ram_read i (offset len : Z) : op ramfs (list Z) :=
  nd ← get_node i;
  match nd with
  | RamDir _ _ _ => err EISDIR
  | RamSymlink _ _ => err EINVAL
  | RamFile _ _ data =>
      if length data <=? offset then mret []
      else let n := Z.min (length data - offset) len in
           mret (take (Z.to_nat n) (drop (Z.to_nat offset) data))
  end.

(** [data.resize(n, 0)] *)
Definition vec_resize (data : list Z) (n : Z) : exec (list Z) :=
  if (length data <? n) && (ISIZE_MAX <? n) then Panic
  else Ret (take (Z.to_nat n) data ++ replicate (Z.to_nat n - length data) 0).

Definition ram_write i (offset : Z) (buf : list Z) : op ramfs Z :=
  nd ← get_node i;
  match nd with
  | RamDir _ _ _ => err EISDIR
  | RamSymlink _ _ => err EINVAL
  | RamFile ino mode data =>
      e ← check (u64_add offset (length buf));
      data' ← check (if length data <? e then vec_resize data e else Ret data);
      _ ← set_node i (RamFile ino mode
            (take (Z.to_nat offset) data' ++ buf ++ drop (Z.to_nat e) data'));
      mret (Z.of_nat (length buf))
  end.

Definition ram_truncate i (size : Z) : op ramfs unit :=
  nd ← get_node i;
  match nd with
  | RamDir _ _ _ => err EISDIR
  | RamSymlink _ _ => err EINVAL
  | RamFile ino mode data =>
      data' ← check (vec_resize data size);
      set_node i (RamFile ino mode data')
  end.

Definition ram_lookup i name : op ramfs positive :=
  nd ← get_node i;
  match nd with
  | RamDir _ _ ch => match bt_get name ch with Some c => mret c | None => err ENOENT end
  | _ => err ENOTDIR
  end.

Definition ram_readdir i (offset : Z) : op ramfs (option DirEntry) :=
  nd ← get_node i;
  match nd with
  | RamDir _ _ ch =>
      match ch !! Z.to_nat offset with
      | None => mret None
      | Some (n, c) =>
          cn ← get_node c;
          mret (Some {| de_name := n; de_ino := ino_of cn; de_kind := kind (stat_of cn) |})
      end
  | _ => err ENOTDIR
  end.

Definition ram_create i name (mode : Z) : op ramfs positive :=
  nd ← get_node i;
  match nd with
  | RamDir ino m ch =>
      match bt_get name ch with
      | Some _ => err EEXIST
      | None =>
          n ← alloc_ino;
          c ← new_node (RamFile n mode []);
          _ ← set_node i (RamDir ino m (bt_insert name c ch));
          mret c
      end
  | _ => err ENOTDIR
  end.

(** [RamDir::new_inode] *)
Definition new_inode (mode : Z) : op ramfs positive :=
  n ← alloc_ino; new_node (RamDir n mode []).

Definition ram_mkdir i name (mode : Z) : op ramfs positive :=
  nd ← get_node i;
  match nd with
  | RamDir ino m ch =>
      match bt_get name ch with
      | Some _ => err EEXIST
      | None =>
          c ← new_inode mode;
          _ ← set_node i (RamDir ino m (bt_insert name c ch));
          mret c
      end
  | _ => err ENOTDIR
  end.

Definition ram_unlink i name : op ramfs unit :=
  nd ← get_node i;
  match nd with
  | RamDir ino m ch =>
      match bt_get name ch with
      | None => err ENOENT
      | Some c =>
          cn ← get_node c;
          match cn with
          | RamDir _ _ _ => err EISDIR
          | _ => set_node i (RamDir ino m (bt_remove name ch))
          end
      end
  | _ => err ENOTDIR
  end.

(** The directory's lock is held while the child's [readdir] takes the lock of
    the child, so a directory that is its own child never gets past it. *)
Definition ram_rmdir i name : op ramfs unit :=
  nd ← get_node i;
  match nd with
  | RamDir ino m ch =>
      match bt_get name ch with
      | None => err ENOENT
      | Some c =>
          cn ← get_node c;
          match cn with
          | RamDir _ _ _ =>
              e ← (if decide (c = i) then deadlock else ram_readdir c 0);
              match e with
              | Some _ => err ENOTEMPTY
              | None => set_node i (RamDir ino m (bt_remove name ch))
              end
          | _ => err ENOTDIR
          end
      end
  | _ => err ENOTDIR
  end.

Definition ram_symlink i name (target : str) : op ramfs positive :=
  nd ← get_node i;
  match nd with
  | RamDir ino m ch =>
      match bt_get name ch with
      | Some _ => err EEXIST
      | None =>
          n ← alloc_ino;
          c ← new_node (RamSymlink n target);
          _ ← set_node i (RamDir ino m (bt_insert name c ch));
          mret c
      end
  | _ => err ENOTDIR
  end.

Definition ram_readlink i : op ramfs str :=
  nd ← get_node i;
  match nd with RamSymlink _ target => mret target | _ => err EINVAL end.

Definition ram_insert_child i name (child : positive) : op ramfs unit :=
  nd ← get_node i;
  match nd with
  | RamDir ino m ch => set_node i (RamDir ino m (bt_insert name child ch))
  | _ => err ENOTDIR
  end.

Definition ram_rename i (old : str) (new_dir : positive) (new : str) : op ramfs unit :=
  nd ← get_node i;
  match nd with
  | RamDir ino m ch =>
      match bt_get old ch with
      | None => err ENOENT
      | Some c =>
          _ ← set_node i (RamDir ino m (bt_remove old ch));
          ram_insert_child new_dir new c
      end
  | _ => err ENOTDIR
  end.

#[global] Instance ram_ops : InodeOps ramfs positive := {
  i_stat := ram_stat;
  i_read := ram_read;
  i_write := ram_write;
  i_truncate := ram_truncate;
  i_lookup := ram_lookup;
  i_readdir := ram_readdir;
  i_create := ram_create;
  i_mkdir := ram_mkdir;
  i_unlink := ram_unlink;
  i_rmdir := ram_rmdir;
  i_symlink := ram_symlink;
  i_readlink := ram_readlink;
  i_rename := ram_rename;
  i_insert_child := ram_insert_child
}.

(** [new_ramfs], on the state before any inode exists; the result is the root. *)
Definition new_ramfs : op ramfs positive := new_inode 493.
Definition no_inodes : ramfs := {| nodes := ∅; NEXT_INO := 1 |}.

(** ** Well-formed stores

    Directory entries are in key order and point to inodes of the store; a
    file fits an allocation. *)
Definition node_ok (ns : gmap positive node) (nd : node) : Prop :=
  match nd with
  | RamDir _ _ ch => bt_sorted ch ∧ Forall (λ e, is_Some (ns !! e.2)) ch
  | RamFile _ _ data => length data ≤ ISIZE_MAX
  | RamSymlink _ _ => True
  end.

Definition ram_wf s : Prop := map_Forall (λ _ nd, node_ok (nodes s) nd) (nodes s).

(** The finite map a directory stands for. *)
Definition dir_at s i : option (gmap str positive) :=
  match nodes s !! i with Some (RamDir _ _ ch) => Some (bt_map ch) | _ => None end.

Lemma get_node_ok s i nd : nodes s !! i = Some nd → get_node i s = Ret (Ok nd, s).
Proof. unfold get_node. by intros ->. Qed.

Lemma get_node_bind {B} s i nd (f : node → op ramfs B) :
  nodes s !! i = Some nd → (get_node i ≫= f) s = f nd s.
Proof. intros. by apply op_bind_ok, get_node_ok. Qed.

Lemma ram_wf_lookup s i nd : ram_wf s → nodes s !! i = Some nd → node_ok (nodes s) nd.
Proof. intros H ?. by eapply H. Qed.

Lemma node_ok_mono ns ns' nd : dom ns ⊆ dom ns' → node_ok ns nd → node_ok ns' nd.
Proof.
  intros Hd. destruct nd; simpl; auto. intros [? Hf]. split; [done|].
  eapply Forall_impl; [exact Hf|]. intros [k c]. simpl. rewrite <- !elem_of_dom. auto.
Qed.

(** Replacing or adding one well-formed inode. *)
Lemma ram_wf_insert s i nd n :
  ram_wf s → node_ok (<[i := nd]> (nodes s)) nd →
  ram_wf {| nodes := <[i := nd]> (nodes s); NEXT_INO := n |}.
Proof.
  intros Hw Hn. unfold ram_wf. simpl. apply map_Forall_insert_2; [done|].
  intros j nd' Hj. eapply node_ok_mono; [|by eapply Hw]. rewrite dom_insert_L. set_solver.
Qed.

Lemma dir_ok s i ino m ch name c :
  ram_wf s → nodes s !! i = Some (RamDir ino m ch) → bt_map ch !! name = Some c →
  ∃ cn, nodes s !! c = Some cn.
Proof.
  intros Hw Hi Hc. destruct (ram_wf_lookup _ _ _ Hw Hi) as [_ Hf].
  apply elem_of_list_to_map_2 in Hc. rewrite Forall_forall in Hf. apply (Hf _ Hc).
Qed.

(** ** Entering a new inode in a directory *)
Inductive entry : Type :=
  | EFile (mode : Z)
  | EDir (mode : Z)
  | ELink (target : str).
Definition entry_op i name (e : entry) : op ramfs positive :=
  match e with
  | EFile mode => ram_create i name mode
  | EDir mode => ram_mkdir i name mode
  | ELink target => ram_symlink i name target
  end.
Definition entry_node (ino : Z) (e : entry) : node :=
  match e with
  | EFile mode => RamFile ino mode []
  | EDir mode => RamDir ino mode []
  | ELink target => RamSymlink ino target
  end.

Lemma entry_op_exists s i ino m ch name e c :
  nodes s !! i = Some (RamDir ino m ch) → bt_get name ch = Some c →
  entry_op i name e s = Ret (Err EEXIST, s).
Proof.
  intros Hi Hc. destruct e; unfold entry_op, ram_create, ram_mkdir, ram_symlink;
    by rewrite (get_node_bind _ _ _ _ Hi), Hc.
Qed.

Lemma entry_op_new s i ino m ch name e :
  nodes s !! i = Some (RamDir ino m ch) → bt_get name ch = None →
  let c := fresh (dom (nodes s)) in
  entry_op i name e s = Ret (Ok c,
    {| nodes := <[i := RamDir ino m (bt_insert name c ch)]>
                  (<[c := entry_node (NEXT_INO s) e]> (nodes s));
       NEXT_INO := u64_wrap (NEXT_INO s + 1) |}).
Proof.
  intros Hi Hc. destruct e; unfold entry_op, ram_create, ram_mkdir, ram_symlink;
    by rewrite (get_node_bind _ _ _ _ Hi), Hc.
Qed.

Lemma fresh_notin s : nodes s !! fresh (dom (nodes s)) = None.
Proof. apply not_elem_of_dom, is_fresh. Qed.

Lemma entry_new_wf s i ino m ch name nd n c :
  ram_wf s → nodes s !! i = Some (RamDir ino m ch) → nodes s !! c = None →
  node_ok (nodes s) nd →
  ram_wf {| nodes := <[i := RamDir ino m (bt_insert name c ch)]> (<[c := nd]> (nodes s));
            NEXT_INO := n |}.
Proof.
  intros Hw Hi Hc Hn. destruct (ram_wf_lookup _ _ _ Hw Hi) as [Hs Hf].
  pose (s1 := {| nodes := <[c := nd]> (nodes s); NEXT_INO := n |}).
  assert (ram_wf s1).
  { apply ram_wf_insert; [done|]. eapply node_ok_mono; [|done]. rewrite dom_insert_L. set_solver. }
  apply (ram_wf_insert s1); [done|]. split; [by apply bt_insert_sorted|]. simpl.
  apply bt_insert_Forall; simpl.
  - apply elem_of_dom. rewrite !dom_insert_L. set_solver.
  - eapply Forall_impl; [exact Hf|]. intros [k c']. simpl. rewrite <- !elem_of_dom, !dom_insert_L.
    set_solver.
Qed.

(** The effect of entering inode [c] holding [nd] under [name]. *)
Definition entered s i name c (nd : node) s' : Prop :=
  nodes s !! c = None ∧ nodes s' !! c = Some nd ∧
  dir_at s' i = (λ M, <[name := c]> M) <$> dir_at s i ∧
  ∀ j, j ≠ i → j ≠ c → nodes s' !! j = nodes s !! j.

Lemma entry_op_spec s i ino m ch name e :
  ram_wf s → nodes s !! i = Some (RamDir ino m ch) → bt_get name ch = None →
  ∃ c s', entry_op i name e s = Ret (Ok c, s') ∧ ram_wf s' ∧
          entered s i name c (entry_node (NEXT_INO s) e) s'.
Proof.
  intros Hw Hi Hc. rewrite (entry_op_new _ _ _ _ _ _ _ Hi Hc).
  pose proof (fresh_notin s) as Hn. set (c := fresh (dom (nodes s))) in *.
  assert (c ≠ i) by congruence. destruct (ram_wf_lookup _ _ _ Hw Hi) as [Hs _].
  do 2 eexists. split; [done|]. split.
  { apply entry_new_wf; try done. destruct e; simpl; [lia|by repeat constructor|done]. }
  unfold entered, dir_at. simpl. rewrite lookup_insert_eq, Hi. simpl.
  rewrite lookup_insert_ne, lookup_insert_eq, bt_insert_map by done.
  repeat split; auto. intros j ??. by rewrite !lookup_insert_ne.
Qed.

(** ** Removing an entry *)
Definition removed s i name s' : Prop :=
  dir_at s' i = (λ M, delete name M) <$> dir_at s i ∧
  ∀ j, j ≠ i → nodes s' !! j = nodes s !! j.

Lemma remove_spec s i ino m ch name s' :
  ram_wf s → nodes s !! i = Some (RamDir ino m ch) →
  s' = {| nodes := <[i := RamDir ino m (bt_remove name ch)]> (nodes s); NEXT_INO := NEXT_INO s |} →
  ram_wf s' ∧ removed s i name s'.
Proof.
  intros Hw Hi ->. destruct (ram_wf_lookup _ _ _ Hw Hi) as [Hs Hf]. split.
  - apply ram_wf_insert; [done|]. split; [by apply bt_remove_sorted|].
    apply bt_remove_Forall. eapply Forall_impl; [exact Hf|]. intros [k c]. simpl.
    rewrite <- !elem_of_dom, dom_insert_L. set_solver.
  - unfold removed, dir_at. simpl. rewrite lookup_insert_eq, Hi, bt_remove_map by done.
    split; [done|]. intros. by rewrite lookup_insert_ne.
Qed.

(** What [unlink] and [rmdir] answer for the inode an entry points to. *)
Definition is_ram_dir (nd : node) : bool := match nd with RamDir _ _ _ => true | _ => false end.
Definition empty_dir (nd : node) : bool := match nd with RamDir _ _ [] => true | _ => false end.

Lemma unlink_spec s i ino m ch name :
  ram_wf s → nodes s !! i = Some (RamDir ino m ch) →
  match bt_map ch !! name with
  | None => ram_unlink i name s = Ret (Err ENOENT, s)
  | Some c => ∃ cn, nodes s !! c = Some cn ∧
      if is_ram_dir cn then ram_unlink i name s = Ret (Err EISDIR, s)
      else ∃ s', ram_unlink i name s = Ret (Ok (), s') ∧ ram_wf s' ∧ removed s i name s'
  end.
Proof.
  intros Hw Hi. unfold ram_unlink. rewrite (get_node_bind _ _ _ _ Hi), bt_get_map.
  destruct (bt_map ch !! name) as [c|] eqn:Hc; [|done].
  destruct (dir_ok _ _ _ _ _ _ _ Hw Hi Hc) as [cn Hcn]. exists cn. split; [done|].
  rewrite (get_node_bind _ _ _ _ Hcn). unfold set_node.
  destruct cn; simpl; [done|..]; (eexists; split; [done|]; by eapply remove_spec).
Qed.

Lemma rmdir_spec s i ino m ch name :
  ram_wf s → nodes s !! i = Some (RamDir ino m ch) →
  match bt_map ch !! name with
  | None => ram_rmdir i name s = Ret (Err ENOENT, s)
  | Some c => c ≠ i → ∃ cn, nodes s !! c = Some cn ∧
      if negb (is_ram_dir cn) then ram_rmdir i name s = Ret (Err ENOTDIR, s)
      else if negb (empty_dir cn) then ram_rmdir i name s = Ret (Err ENOTEMPTY, s)
      else ∃ s', ram_rmdir i name s = Ret (Ok (), s') ∧ ram_wf s' ∧ removed s i name s'
  end.
Proof.
  intros Hw Hi. unfold ram_rmdir. rewrite (get_node_bind _ _ _ _ Hi), bt_get_map.
  destruct (bt_map ch !! name) as [c|] eqn:Hc; [|done]. intros Hne.
  destruct (dir_ok _ _ _ _ _ _ _ Hw Hi Hc) as [cn Hcn]. exists cn. split; [done|].
  rewrite (get_node_bind _ _ _ _ Hcn). destruct cn as [ino' m' [|[k c'] l]| |]; simpl; try done.
  - rewrite decide_False by done. unfold ram_readdir, mbind at 1, op_bind at 1.
    rewrite (get_node_bind _ _ _ _ Hcn). simpl. unfold set_node.
    eexists; split; [done|]. by eapply remove_spec.
  - rewrite decide_False by done. unfold ram_readdir, mbind at 1, op_bind at 1.
    rewrite (get_node_bind _ _ _ _ Hcn). simpl.
    destruct (ram_wf_lookup _ _ _ Hw Hcn) as [_ Hf]. inversion_clear Hf as [|?? [dn Hd] _].
    simpl in Hd. by rewrite (get_node_bind _ _ _ _ Hd).
Qed.

(** ** Moving an entry *)
Lemma insert_child_spec s i name c :
  ram_wf s → is_Some (nodes s !! c) →
  match nodes s !! i with
  | None => True
  | Some (RamDir ino m ch) => ∃ s', ram_insert_child i name c s = Ret (Ok (), s') ∧ ram_wf s' ∧
      dir_at s' i = Some (<[name := c]> (bt_map ch)) ∧ ∀ j, j ≠ i → nodes s' !! j = nodes s !! j
  | Some _ => ram_insert_child i name c s = Ret (Err ENOTDIR, s)
  end.
Proof.
  intros Hw Hc. destruct (nodes s !! i) as [[ino m ch|ino m d|ino t]|] eqn:Hi; [|..|done];
    unfold ram_insert_child; rewrite (get_node_bind _ _ _ _ Hi); [|done..].
  destruct (ram_wf_lookup _ _ _ Hw Hi) as [Hs Hf]. eexists. split; [done|]. split.
  - apply ram_wf_insert; [done|]. split; [by apply bt_insert_sorted|].
    assert (Hm : ∀ x, is_Some (nodes s !! x) →
              is_Some (<[i:=RamDir ino m (bt_insert name c ch)]> (nodes s) !! x)).
    { intros x. rewrite <- !elem_of_dom, dom_insert_L. set_solver. }
    apply bt_insert_Forall; [by apply Hm|]. eapply Forall_impl; [exact Hf|]. auto.
  - unfold dir_at. simpl. rewrite lookup_insert_eq, bt_insert_map by done. split; [done|].
    intros. by rewrite lookup_insert_ne.
Qed.

Definition moved s i (old : str) j (new : str) c s' : Prop :=
  dir_at s' j = <[new := c]> <$> (if decide (i = j) then delete old <$> dir_at s j else dir_at s j) ∧
  (i ≠ j → dir_at s' i = (λ M, delete old M) <$> dir_at s i) ∧
  ∀ k, k ≠ i → k ≠ j → nodes s' !! k = nodes s !! k.

Lemma rename_spec s i ino m ch old j nj new :
  ram_wf s → nodes s !! i = Some (RamDir ino m ch) → nodes s !! j = Some nj →
  match bt_map ch !! old with
  | None => ram_rename i old j new s = Ret (Err ENOENT, s)
  | Some c => ∃ s', ram_wf s' ∧
      if is_ram_dir nj then ram_rename i old j new s = Ret (Ok (), s') ∧ moved s i old j new c s'
      else ram_rename i old j new s = Ret (Err ENOTDIR, s') ∧ removed s i old s'
  end.
Proof.
  intros Hw Hi Hj. unfold ram_rename. rewrite (get_node_bind _ _ _ _ Hi), bt_get_map.
  destruct (bt_map ch !! old) as [c|] eqn:Hc; [|done].
  destruct (dir_ok _ _ _ _ _ _ _ Hw Hi Hc) as [cn Hcn].
  unfold mbind, op_bind, set_node at 1.
  set (s1 := {| nodes := _; NEXT_INO := _ |}).
  destruct (remove_spec s i ino m ch old s1 Hw Hi eq_refl) as [Hw1 [Hr1 Hr2]].
  assert (Hcs : is_Some (nodes s1 !! c)).
  { simpl. rewrite <- elem_of_dom, dom_insert_L. apply elem_of_dom_2 in Hcn. set_solver. }
  pose proof (insert_child_spec s1 j new c Hw1 Hcs) as Hins.
  destruct (decide (i = j)) as [<-|Hij].
  - rewrite Hi in Hj. injection Hj as <-. simpl in Hins. rewrite lookup_insert_eq in Hins.
    destruct Hins as (s' & E & Hw' & Hd & Ho). exists s'. split; [done|]. simpl. split; [done|].
    unfold moved, dir_at at 2. rewrite Hi, decide_True by done. simpl.
    destruct (ram_wf_lookup _ _ _ Hw Hi) as [Hs _]. rewrite bt_remove_map in Hd by done.
    repeat split; [done..|]. intros k ??. rewrite Ho by done. by apply Hr2.
  - rewrite (Hr2 j) in Hins by done. rewrite Hj in Hins. destruct nj as [ino' m' ch'|ino' m' d|ino' t].
    2,3: by exists s1.
    destruct Hins as (s' & E & Hw' & Hd & Ho). exists s'. split; [done|]. simpl. split; [done|].
    unfold moved. rewrite decide_False by done. repeat split.
    + rewrite Hd. unfold dir_at. by rewrite Hj.
    + intros _. rewrite <- Hr1. unfold dir_at. by rewrite Ho.
    + intros k ??. rewrite Ho by done. by apply Hr2.
Qed.

(** ** File contents *)
Lemma vec_resize_ok data n :
  0 ≤ n ≤ ISIZE_MAX →
  vec_resize data n = Ret (take (Z.to_nat n) data ++ replicate (Z.to_nat n - length data) 0).
Proof.
  intros. unfold vec_resize. destruct (Z.ltb_spec ISIZE_MAX n); [lia|]. by rewrite andb_false_r.
Qed.

(** The bytes of [data] after a write of [buf] at [off]: a gap past the old end
    reads as zeros. *)
Definition written (data : list Z) (off : nat) (buf data' : list Z) : Prop :=
  length data' = max (length data) (off + length buf) ∧
  ∀ k, (k < length data')%nat →
    data' !! k = if decide (off ≤ k < off + length buf)%nat then buf !! (k - off)%nat
                 else if decide (k < length data)%nat then data !! k else Some 0.

Lemma written_intro data off buf data1 :
  (∀ k, (k < length data1)%nat →
     data1 !! k = if decide (k < length data)%nat then data !! k else Some 0) →
  length data1 = max (length data) (off + length buf) →
  written data off buf (take off data1 ++ buf ++ drop (off + length buf) data1).
Proof.
  intros H Hl. split; [rewrite !length_app, length_take, length_drop; lia|]. intros k.
  rewrite !length_app, length_take, length_drop. intros Hk.
  destruct (decide (k < off)%nat).
  - rewrite lookup_app_l by (rewrite length_take; lia). rewrite lookup_take_lt by lia.
    rewrite H by lia. by rewrite (decide_False (P := (off ≤ k < _)%nat)) by lia.
  - rewrite lookup_app_r by (rewrite length_take; lia). rewrite length_take, Nat.min_l by lia.
    case_decide.
    + by rewrite lookup_app_l by lia.
    + rewrite lookup_app_r by lia. rewrite lookup_drop, H by lia. by replace (off + length buf + (k - off - length buf))%nat with k by lia.
Qed.

Lemma written_fits data off buf data' :
  written data off buf data' → length data ≤ ISIZE_MAX → off + length buf ≤ ISIZE_MAX →
  written data off buf data' ∧ length data' ≤ ISIZE_MAX.
Proof. intros [Hl H]. split; [done|]. rewrite Hl. lia. Qed.

Lemma write_spec s i ino m data off buf :
  ram_wf s → nodes s !! i = Some (RamFile ino m data) →
  0 ≤ off → off + length buf ≤ ISIZE_MAX →
  ∃ data', ram_write i off buf s =
             Ret (Ok (Z.of_nat (length buf)),
                  {| nodes := <[i := RamFile ino m data']> (nodes s); NEXT_INO := NEXT_INO s |}) ∧
           written data (Z.to_nat off) buf data' ∧ length data' ≤ ISIZE_MAX.
Proof.
  intros Hw Hi Ho He. pose proof (ram_wf_lookup _ _ _ Hw Hi) as Hd. simpl in Hd.
  unfold ram_write. rewrite (get_node_bind _ _ _ _ Hi), u64_add_ok by lia. op_unfold. exec_simpl.
  replace (Z.to_nat (off + length buf)) with (Z.to_nat off + length buf)%nat by lia.
  destruct (Z.ltb_spec (length data) (off + length buf)).
  - rewrite vec_resize_ok by lia. unfold set_node. eexists. split; [done|].
    apply written_fits; [|lia..].
    apply written_intro; [|rewrite length_app, length_take, length_replicate; lia].
    intros k. rewrite length_app, length_take, length_replicate. intros Hk. case_decide.
    + rewrite lookup_app_l, lookup_take_lt by (rewrite ?length_take; lia). done.
    + rewrite lookup_app_r by (rewrite length_take; lia).
      apply lookup_replicate_2. rewrite length_take. lia.
  - unfold set_node. eexists. split; [done|].
    apply written_fits; [|lia..].
    apply written_intro; [|lia]. intros k Hk. by rewrite decide_True.
Qed.

Lemma written_drop data off buf data' :
  written data off buf data' → take (length buf) (drop off data') = buf.
Proof.
  intros [Hl H]. apply list_eq_same_length with (length buf); [done| |].
  { rewrite length_take, length_drop. lia. }
  intros k x y Hk. rewrite lookup_take_lt, lookup_drop, H, decide_True by lia.
  replace (off + k - off)%nat with k by lia. congruence.
Qed.

Lemma read_spec s i ino m data off len :
  nodes s !! i = Some (RamFile ino m data) → 0 ≤ off → 0 ≤ len →
  ram_read i off len s = Ret (Ok (take (Z.to_nat len) (drop (Z.to_nat off) data)), s).
Proof.
  intros Hi Ho Hl. unfold ram_read. rewrite (get_node_bind _ _ _ _ Hi).
  destruct (Z.leb_spec (length data) off).
  - rewrite drop_ge by lia. by rewrite take_nil.
  - unfold mret, op_ret. do 3 f_equal. destruct (Z.min_spec (length data - off) len) as [[? ->]|[? ->]]; [|done].
    rewrite !take_ge; [done|rewrite length_drop; lia..].
Qed.

(** ** The directory and file operations *)

(** [create], [mkdir] and [symlink] on a directory of a well-formed store
    treat it as a finite map: a name already present gives [EEXIST] and changes
    nothing; otherwise a fresh inode with the requested contents and the next
    inode number is bound to the name, every other inode is untouched and the
    store stays well formed. On anything but a directory they give [ENOTDIR]. *)
Theorem ramfs_entry_correct s i nd name e :
  ram_wf s → nodes s !! i = Some nd →
  match nd with
  | RamDir _ _ ch =>
      match bt_map ch !! name with
      | Some _ => entry_op i name e s = Ret (Err EEXIST, s)
      | None => ∃ c s', entry_op i name e s = Ret (Ok c, s') ∧ ram_wf s' ∧
                        entered s i name c (entry_node (NEXT_INO s) e) s'
      end
  | _ => entry_op i name e s = Ret (Err ENOTDIR, s)
  end.
Proof.
  intros Hw Hi. destruct nd as [ino m ch|ino m d|ino t].
  - destruct (bt_map ch !! name) as [c|] eqn:Hc; rewrite <- bt_get_map in Hc.
    + by eapply entry_op_exists.
    + by eapply entry_op_spec.
  - destruct e; unfold entry_op, ram_create, ram_mkdir, ram_symlink; by rewrite (get_node_bind _ _ _ _ Hi).
  - destruct e; unfold entry_op, ram_create, ram_mkdir, ram_symlink; by rewrite (get_node_bind _ _ _ _ Hi).
Qed.

(** [unlink] removes exactly the named entry when it is not a directory,
    and [rmdir] when it is an empty directory other than the one it is in;
    every other case gives the error of its cause ([ENOENT], [EISDIR],
    [ENOTDIR], [ENOTEMPTY]) and leaves the store as it was. *)
Theorem ramfs_remove_correct s i ino m ch name :
  ram_wf s → nodes s !! i = Some (RamDir ino m ch) →
  match bt_map ch !! name with
  | None => ram_unlink i name s = Ret (Err ENOENT, s) ∧ ram_rmdir i name s = Ret (Err ENOENT, s)
  | Some c => c ≠ i → ∃ cn s', nodes s !! c = Some cn ∧ ram_wf s' ∧ removed s i name s' ∧
      ram_unlink i name s = (if is_ram_dir cn then Ret (Err EISDIR, s) else Ret (Ok (), s')) ∧
      ram_rmdir i name s = (if empty_dir cn then Ret (Ok (), s')
                            else if is_ram_dir cn then Ret (Err ENOTEMPTY, s)
                            else Ret (Err ENOTDIR, s))
  end.
Proof.
  intros Hw Hi. pose proof (unlink_spec _ _ _ _ _ name Hw Hi) as Hu.
  pose proof (rmdir_spec _ _ _ _ _ name Hw Hi) as Hr.
  destruct (bt_map ch !! name) as [c|]; [|done]. intros Hne.
  destruct Hu as (cn & Hcn & Hu), (Hr Hne) as (cn' & Hcn' & Hr'). rewrite Hcn in Hcn'.
  injection Hcn' as <-. destruct cn as [ino' m' [|]|? ? ?|? ?]; simpl in *.
  - destruct Hr' as (s' & ? & ? & ?). exists (RamDir ino' m' []), s'. auto.
  - destruct (remove_spec _ _ _ _ _ name _ Hw Hi eq_refl). eauto 8.
  - destruct Hu as (s' & ? & ? & ?). eauto 8.
  - destruct Hu as (s' & ? & ? & ?). eauto 8.
Qed.

(** [rename] moves the entry: the old name is gone from its directory and
    the new name is bound to the same inode, also when both directories are
    one. A missing source gives [ENOENT]. When the target parent is not a
    directory the call fails with [ENOTDIR] after the source entry has been
    removed: the file is lost. *)
Theorem ramfs_rename_correct s i ino m ch old j nj new :
  ram_wf s → nodes s !! i = Some (RamDir ino m ch) → nodes s !! j = Some nj →
  match bt_map ch !! old with
  | None => ram_rename i old j new s = Ret (Err ENOENT, s)
  | Some c => ∃ s', ram_wf s' ∧
      if is_ram_dir nj then ram_rename i old j new s = Ret (Ok (), s') ∧ moved s i old j new c s'
      else ram_rename i old j new s = Ret (Err ENOTDIR, s') ∧ removed s i old s'
  end.
Proof. apply rename_spec. Qed.

(** A write at any offset that fits an allocation succeeds, changes the
    bytes it covers and no others, and fills a gap past the old end with
    zeros; reading the same range back gives the bytes written, and a read
    past the end gives nothing. *)
Theorem ramfs_write_read s i ino m data off buf :
  ram_wf s → nodes s !! i = Some (RamFile ino m data) →
  0 ≤ off → off + length buf ≤ ISIZE_MAX →
  ∃ s' data', ram_write i off buf s = Ret (Ok (Z.of_nat (length buf)), s') ∧ ram_wf s' ∧
    nodes s' !! i = Some (RamFile ino m data') ∧
    written data (Z.to_nat off) buf data' ∧
    (∀ j, j ≠ i → nodes s' !! j = nodes s !! j) ∧
    ram_read i off (length buf) s' = Ret (Ok buf, s') ∧
    ∀ off' len, length data' ≤ off' → 0 ≤ len → ram_read i off' len s' = Ret (Ok [], s').
Proof.
  intros Hw Hi Ho He. destruct (write_spec _ _ _ _ _ _ _ Hw Hi Ho He) as (data' & -> & Hwr & Hl).
  do 2 eexists. split; [done|]. split; [by apply ram_wf_insert|]. simpl.
  rewrite lookup_insert_eq. split; [done|]. split; [done|].
  split; [intros; by rewrite lookup_insert_ne|]. split.
  - erewrite read_spec; [|by simpl; rewrite lookup_insert_eq|lia..].
    rewrite Nat2Z.id. by erewrite written_drop.
  - intros off' len ??. erewrite read_spec; [|by simpl; rewrite lookup_insert_eq|lia..].
    rewrite drop_ge by lia. by rewrite take_nil.
Qed.

(** ** A concrete store: [/a] holding three bytes and the empty directory [/d] *)
Section Demo.
Definition demo_fs : ramfs :=
  {| nodes := <[1%positive := RamDir 1 493 [([97], 2%positive); ([100], 3%positive)]]>
              (<[2%positive := RamFile 2 420 [1; 2; 3]]> {[3%positive := RamDir 3 493 []]});
     NEXT_INO := 4 |}.

Lemma demo_fs_wf : ram_wf demo_fs.
Proof.
  unfold ram_wf, demo_fs. simpl. repeat apply map_Forall_insert_2; [..|apply map_Forall_empty].
  - split; [by repeat constructor|]. repeat constructor; by eexists.
  - simpl. lia.
  - split; constructor.
Qed.

Lemma ramfs_entry_correct_witness :
  ∃ c s', entry_op 1 [98] (EFile 420) demo_fs = Ret (Ok c, s') ∧ ram_wf s' ∧
          entered demo_fs 1 [98] c (RamFile 4 420 []) s'.
Proof. apply (ramfs_entry_correct demo_fs 1 _ [98] (EFile 420) demo_fs_wf eq_refl). Defined.

Lemma ramfs_remove_correct_witness :
  ∃ s', ram_unlink 1 [97] demo_fs = Ret (Ok (), s') ∧ removed demo_fs 1 [97] s'.
Proof.
  destruct (ramfs_remove_correct demo_fs 1 1 493 _ [97] demo_fs_wf eq_refl ltac:(done))
    as (cn & s' & Hcn & _ & ? & Hu & _).
  exists s'. split; [|done]. rewrite Hu. injection Hcn as <-. reflexivity.
Defined.

Lemma ramfs_rename_correct_witness :
  (∃ s', ram_rename 1 [97] 3 [98] demo_fs = Ret (Ok (), s') ∧ moved demo_fs 1 [97] 3 [98] 2 s') ∧
  (∃ s', ram_rename 1 [100] 2 [98] demo_fs = Ret (Err ENOTDIR, s') ∧ removed demo_fs 1 [100] s').
Proof.
  split.
  - destruct (ramfs_rename_correct demo_fs 1 1 493 _ [97] 3 _ [98] demo_fs_wf eq_refl eq_refl)
      as (s' & _ & ? & ?). by exists s'.
  - destruct (ramfs_rename_correct demo_fs 1 1 493 _ [100] 2 _ [98] demo_fs_wf eq_refl eq_refl)
      as (s' & _ & ? & ?). by exists s'.
Defined.

Lemma ramfs_write_read_witness :
  ∃ s', ram_write 2 5 [7; 8] demo_fs = Ret (Ok 2, s') ∧ ram_read 2 5 2 s' = Ret (Ok [7; 8], s').
Proof.
  destruct (ramfs_write_read demo_fs 2 2 420 [1; 2; 3] 5 [7; 8] demo_fs_wf eq_refl ltac:(done) ltac:(done))
    as (s' & d & ? & _ & _ & _ & _ & ? & _). by exists s'.
Defined.
End Demo.
