(* ===== verification/Path.v ===== *)
(** Path resolution, [src/src/fs/path.rs], over any file system. *)
From S2P Require Import Prelude Effects Text Vfs.

Definition DOT : str := [46].
Definition DOTDOT : str := [46; 46].

Definition split_last (path0 : str) : str * str :=
  let path := trim_end SLASH path0 in
  match rfind SLASH path with
  | None => ([], path)
  | Some O => ([SLASH], drop 1 path)
  | Some i => (take i path, drop (S i) path)
  end.

Section Path.
Context {St I : Type} {ops : InodeOps St I}.

(** One turn of the loop over the components; [follow] resolves the target of
    a symbolic link. *)
Definition walk_step (follow : I → str → op St I) (root current : I) (component : str) : op St I :=
  if decide (component = DOT) then mret current
  else if decide (component = DOTDOT) then
    try_catch (i_lookup current DOTDOT) mret (λ _, mret root)
  else
    d ← is_dir current;
    if negb d then err ENOTDIR else
    next ← i_lookup current component;
    l ← is_symlink next;
    if l : bool then target ← i_readlink next; follow current target
    else mret next.

(** [resolve_inner] at [depth = 41 - n]: [n = 0] is [depth > 40]. *)
Fixpoint resolve_inner (n : nat) (root cwd : I) (path : str) : op St I :=
  match n with
  | O => err ELOOP
  | S n =>
      op_fold (walk_step (resolve_inner n root) root) (components path)
        (if starts_with [SLASH] path then root else cwd)
  end.

Definition resolve (root cwd : I) (path : str) : op St I := resolve_inner 41 root cwd path.

Definition resolve_parent (root cwd : I) (path : str) : op St (I * str) :=
  let '(parent_path, name) := split_last path in
  parent ← (if decide (parent_path = []) then mret cwd else resolve root cwd parent_path);
  mret (parent, name).
End Path.

(** ** Components of a path *)
Lemma split_nonempty c s : split c s ≠ [].
Proof. destruct s as [|x s]; simpl; [done|]. destruct (x =? c); [done|]. by destruct (split c s). Qed.

Lemma split_app c a b : split c (a ++ c :: b) = split c a ++ split c b.
Proof.
  induction a as [|x a IH]; simpl; [by rewrite Z.eqb_refl|].
  destruct (x =? c); [by rewrite IH|]. rewrite IH.
  pose proof (split_nonempty c a). by destruct (split c a).
Qed.

Lemma split_plain c s : c ∉ s → split c s = [s].
Proof.
  induction s as [|x s IH]; intros H; simpl; [done|]. apply not_elem_of_cons in H as [Hx Hs].
  rewrite (proj2 (Z.eqb_neq _ _)) by done. by rewrite IH.
Qed.

Lemma components_app a b : components (a ++ SLASH :: b) = components a ++ components b.
Proof. unfold components. by rewrite split_app, filter_app. Qed.

Lemma components_plain s : SLASH ∉ s → s ≠ [] → components s = [s].
Proof. intros. unfold components. rewrite split_plain by done. by rewrite filter_cons_True. Qed.

Lemma components_snoc_slash s : components (s ++ [SLASH]) = components s.
Proof. rewrite components_app. by rewrite app_nil_r. Qed.

Lemma trim_start_app c s : ∃ k, s = replicate k c ++ trim_start c s ∧ head (trim_start c s) ≠ Some c.
Proof.
  induction s as [|x s (k & IH & Hh)]; simpl; [by exists O|].
  destruct (Z.eqb_spec x c) as [->|Hx].
  - exists (S k). simpl. by rewrite <- IH.
  - exists O. simpl. split; congruence.
Qed.

Lemma trim_end_app c s : ∃ k, s = trim_end c s ++ replicate k c ∧ last (trim_end c s) ≠ Some c.
Proof.
  destruct (trim_start_app c (reverse s)) as (k & E & Hh). exists k. unfold trim_end. split.
  - rewrite <- (reverse_involutive s) at 1. rewrite E at 1. rewrite reverse_app. f_equal.
    by rewrite reverse_replicate.
  - by rewrite last_reverse.
Qed.

Lemma components_slashes s k : components (s ++ replicate k SLASH) = components s.
Proof.
  induction k as [|k IH]; [by rewrite app_nil_r|].
  rewrite <- IH, replicate_S_end, app_assoc. apply components_snoc_slash.
Qed.

Lemma components_trim s : components (trim_end SLASH s) = components s.
Proof. destruct (trim_end_app SLASH s) as (k & E & _). by rewrite E at 2; rewrite components_slashes. Qed.

Lemma rfind_spec c s :
  match rfind c s with
  | None => c ∉ s
  | Some i => ∃ a b, s = a ++ c :: b ∧ (c ∉ b) ∧ i = length a
  end.
Proof.
  induction s as [|x s IH]; simpl; [apply not_elem_of_nil|].
  destruct (rfind c s) as [i|].
  - destruct IH as (a & b & -> & Hb & ->). by exists (x :: a), b.
  - destruct (Z.eqb_spec x c) as [->|]; [by exists [], s|]. apply not_elem_of_cons. split; [congruence|done].
Qed.

Lemma starts_slash p : starts_with [SLASH] p ↔ ∃ q, p = SLASH :: q.
Proof.
  unfold starts_with. destruct p as [|x p]; [split; [done|by intros []]|].
  rewrite andb_true_r. split.
  - intros H. apply Is_true_true, Z.eqb_eq in H. subst. by exists p.
  - intros [q [= -> _]]. by rewrite Z.eqb_refl.
Qed.

(** For an absolute path with a last component, [split_last] separates it from
    the rest. *)
Lemma split_last_spec path parent name :
  starts_with [SLASH] path → components path ≠ [] → split_last path = (parent, name) →
  components path = components parent ++ [name] ∧ starts_with [SLASH] parent ∧ name ≠ [] ∧
  SLASH ∉ name.
Proof.
  intros Hs Hc. unfold split_last. rewrite <- components_trim in Hc |- *.
  destruct (trim_end_app SLASH path) as (k & E & Hl). set (p := trim_end SLASH path) in *.
  assert (Hp : p ≠ []) by (intros Hp; by rewrite Hp in Hc).
  assert (Hsp : starts_with [SLASH] p).
  { rewrite E in Hs. apply starts_slash in Hs as [q Hq]. apply starts_slash.
    destruct p as [|x p']; [done|]. simpl in Hq. injection Hq as -> _. by exists p'. }
  clearbody p. pose proof (rfind_spec SLASH p) as Hr. destruct (rfind SLASH p) as [i|].
  2: { apply starts_slash in Hsp as [q ->]. exfalso. apply Hr. constructor. }
  destruct Hr as (a & b & -> & Hb & ->).
  assert (b ≠ []) by (intros ->; rewrite last_snoc in Hl; done).
  rewrite components_app, (components_plain b) by done.
  destruct a as [|x a]; simpl length; cbv iota; intros [= <- <-].
  - simpl. rewrite drop_0. done.
  - simpl. rewrite take_app_length.
    replace (drop (S (length a)) (a ++ SLASH :: b)) with b.
    2: { rewrite cons_middle, app_assoc, drop_app_length'; [done|]. rewrite length_app. simpl. lia. }
    simpl in Hsp. repeat split; auto.
Qed.
