(* ===== verification/Mount.v ===== *)
(** The mount table and the operations of the virtual file system,
    [src/src/fs/mount.rs], over any file system. *)
From S2P Require Import Prelude Effects Text Vfs Path.

Section Mount.
Context {St I : Type} {ops : InodeOps St I}.

Record VfsContext : Type := {
  root : I;
  cwd : I;
  cwd_path : str;
  mounts : list (str * I)
}.

Definition VfsContext_new (r : I) : VfsContext :=
  {| root := r; cwd := r; cwd_path := [SLASH]; mounts := [] |}.

Implicit Types (v : VfsContext) (path mp : str).

Definition make_absolute v path : str :=
  if starts_with [SLASH] path then path
  else if decide (cwd_path v = [SLASH]) then SLASH :: path
  else cwd_path v ++ SLASH :: path.

(** The loop over the mount table of [resolve_abs]. *)
Fixpoint resolve_mounts (ms : list (str * I)) (abs : str) : option (op St I) :=
  match ms with
  | [] => None
  | (mp, fs_root) :: ms =>
      if decide (abs = mp) then Some (mret fs_root)
      else if starts_with (mp ++ [SLASH]) abs
      then Some (resolve fs_root fs_root (drop (length mp) abs))
      else resolve_mounts ms abs
  end.

Definition resolve_abs v (abs : str) : op St I :=
  match resolve_mounts (mounts v) abs with
  | Some r => r
  | None => resolve (root v) (cwd v) abs
  end.

Definition vfs_resolve v path : op St I := resolve_abs v (make_absolute v path).

(** ** Operations on files and directories; [420] is [0o644] and [493] [0o755] *)
Definition vfs_open v path (flags : Z) : op St (File I) :=
  let creat := negb (Z.land flags O_CREAT =? 0) in
  let trunc := negb (Z.land flags O_TRUNC =? 0) in
  inode ← try_catch (vfs_resolve v path)
    (λ i, if creat && trunc then _ ← i_truncate i 0; mret i else mret i)
    (λ e, if (e =? ENOENT) && creat then
            '(parent, name) ← resolve_parent (root v) (cwd v) (make_absolute v path);
            i_create parent name 420
          else err e);
  mret (File_new inode flags).

Definition vfs_mkdir v path : op St unit :=
  '(parent, name) ← resolve_parent (root v) (cwd v) (make_absolute v path);
  _ ← i_mkdir parent name 493;
  mret ().

Definition mkdir_p_step (current : I) (component : str) : op St I :=
  try_catch (i_lookup current component)
    (λ next, d ← is_dir next; if negb d then err ENOTDIR else mret next)
    (λ e, if e =? ENOENT then i_mkdir current component 493 else err e).

Definition mkdir_p v path : op St unit :=
  _ ← op_fold mkdir_p_step (components path)
        (if starts_with [SLASH] path then root v else cwd v);
  mret ().

Definition vfs_unlink v path : op St unit :=
  '(parent, name) ← resolve_parent (root v) (cwd v) (make_absolute v path);
  i_unlink parent name.

Definition vfs_rmdir v path : op St unit :=
  '(parent, name) ← resolve_parent (root v) (cwd v) (make_absolute v path);
  i_rmdir parent name.

Definition vfs_rename v (old new : str) : op St unit :=
  '(old_parent, old_name) ← resolve_parent (root v) (cwd v) old;
  '(new_parent, new_name) ← resolve_parent (root v) (cwd v) new;
  i_rename old_parent old_name new_parent new_name.

Definition vfs_symlink v (target link_path : str) : op St unit :=
  '(parent, name) ← resolve_parent (root v) (cwd v) link_path;
  _ ← i_symlink parent name target;
  mret ().

Definition vfs_stat v path : op St Stat := i ← vfs_resolve v path; i_stat i.

(** The loop of [readdir_all]. *)
Fixpoint readdir_loop (fuel : nat) (entries : list DirEntry) : op (File I * St) (list DirEntry) :=
  match fuel with
  | O => λ _, NoFuel
  | S fuel =>
      e ← readdir_next;
      match e with
      | Some e => readdir_loop fuel (entries ++ [e])
      | None => mret entries
      end
  end.

Definition readdir_all (fuel : nat) v path : op St (list DirEntry) :=
  inode ← vfs_resolve v path;
  d ← is_dir inode;
  if negb d then err ENOTDIR else with_file (File_new inode 0) (readdir_loop fuel []).

Definition write_file v path (data : list Z) : op St unit :=
  file ← vfs_open v path (Z.lor (Z.lor O_WRONLY O_CREAT) O_TRUNC);
  _ ← with_file file (File_write data);
  mret ().

(** The loop of [read_file]; [buf] holds the [total] bytes read so far. *)
Fixpoint read_loop (fuel : nat) (sz : Z) (buf : list Z) : op (File I * St) (list Z) :=
  match fuel with
  | O => λ _, NoFuel
  | S fuel =>
      if length buf <? sz then
        bs ← File_read (sz - length buf);
        match bs with
        | [] => mret buf
        | _ => read_loop fuel sz (buf ++ bs)
        end
      else mret buf
  end.

(** Each turn reads at least one byte, so [size + 1] turns are enough. *)
Definition read_file v path : op St (list Z) :=
  file ← vfs_open v path 0;
  st ← i_stat (f_inode file);
  _ ← check (assert_ (size st <=? ISIZE_MAX));
  with_file file (read_loop (S (Z.to_nat (size st))) (size st) []).

(** ** Mounting: these change the context itself *)
Definition set_mounts v (ms : list (str * I)) : VfsContext :=
  {| root := root v; cwd := cwd v; cwd_path := cwd_path v; mounts := ms |}.

(** [mounts.insert(pos, (mp, fs_root))], [pos] the first entry shorter than [mp] *)
Fixpoint insert_mount mp (fs_root : I) (ms : list (str * I)) : list (str * I) :=
  match ms with
  | [] => [(mp, fs_root)]
  | (mp', r) :: ms' =>
      if (length mp' <? length mp)%nat then (mp, fs_root) :: ms
      else (mp', r) :: insert_mount mp fs_root ms'
  end.

Definition mount_point (mountpoint : str) : str :=
  if ends_with SLASH mountpoint && negb (bool_decide (mountpoint = [SLASH]))
  then trim_end SLASH mountpoint else mountpoint.

Definition mount (mountpoint : str) (fs_root : I) : op (VfsContext * St) unit :=
  let mp := mount_point mountpoint in
  v ← get_fst;
  _ ← lift (ignore (mkdir_p v mp));
  put_fst (set_mounts v (insert_mount mp fs_root (mounts v))).

Definition umount (mountpoint : str) : op (VfsContext * St) unit :=
  v ← get_fst;
  let ms := filter (λ e, e.1 ≠ mountpoint) (mounts v) in
  _ ← put_fst (set_mounts v ms);
  if (length ms =? length (mounts v))%nat then err ENOENT else mret ().

Definition list_mounts v : list str := (mounts v).*1.

Definition cd path : op (VfsContext * St) unit :=
  v ← get_fst;
  inode ← lift (vfs_resolve v path);
  d ← lift (is_dir inode);
  if negb d then err ENOTDIR else
  let abs := make_absolute v path in
  put_fst {| root := root v; cwd := inode;
             cwd_path := if decide (abs = [SLASH]) then abs else trim_end SLASH abs;
             mounts := mounts v |}.
End Mount.
Arguments VfsContext : clear implicits.
