(* ===== verification/VfsProofs.v ===== *)
(** The virtual file system over the in-memory one: resolution is stable under
    the creation of files, what is written to a path is read back from it,
    directory listings are complete, the mount table prefers the longest
    mount point. *)
From S2P Require Import Prelude Effects Text Vfs Ramfs Path Mount.
From Stdlib Require Import Sorted.

Implicit Types (s : ramfs) (i : positive) (v : VfsContext positive).

(** ** Stores that agree with an earlier one on every resolution

    Entries may be added, but none named [..]; files may change their data. *)
Definition node_ext (nd nd' : node) : Prop :=
  match nd, nd' with
  | RamDir _ _ ch, RamDir _ _ ch' =>
      (∀ k c, bt_get k ch = Some c → bt_get k ch' = Some c) ∧
      (bt_get DOTDOT ch = None → bt_get DOTDOT ch' = None)
  | RamFile _ _ _, RamFile _ _ _ => True
  | RamSymlink _ t, RamSymlink _ t' => t = t'
  | _, _ => False
  end.

Definition fs_ext s s' : Prop :=
  ∀ i nd, nodes s !! i = Some nd → ∃ nd', nodes s' !! i = Some nd' ∧ node_ext nd nd'.

Lemma node_ext_refl nd : node_ext nd nd.
Proof. by destruct nd. Qed.

Lemma node_ext_trans a b c : node_ext a b → node_ext b c → node_ext a c.
Proof. destruct a, b, c; simpl; naive_solver. Qed.

#[global] Instance fs_ext_preorder : PreOrder fs_ext.
Proof.
  split.
  - intros s i nd H. exists nd. split; [done|apply node_ext_refl].
  - intros a b c Hab Hbc i nd Hi. destruct (Hab i nd Hi) as (nd' & Hb & ?).
    destruct (Hbc i nd' Hb) as (nd'' & ? & ?). exists nd''. split; [done|by eapply node_ext_trans].
Qed.

(** Operations that only look: they keep the store, and what they find they
    also find in an extended store. *)
Definition stable {A} (e : op ramfs A) : Prop :=
  ∀ s r s1, e s = Ret (r, s1) →
    s1 = s ∧ ∀ a s', r = Ok a → fs_ext s s' → e s' = Ret (Ok a, s').

Lemma stable_ret {A} (a : A) : stable (mret a).
Proof. intros s r s1 [= <- <-]. split; [done|]. by intros a' s' [= <-] _. Qed.

Lemma stable_err {A} n : stable (err (A := A) n).
Proof. by intros s r s1 [= <- <-]. Qed.

Lemma stable_bind {A B} (e : op ramfs A) (f : A → op ramfs B) :
  stable e → (∀ a, stable (f a)) → stable (e ≫= f).
Proof.
  intros He Hf s r s1 H. apply op_bind_inv in H as [(a & s2 & E & H)|(n & E & ->)].
  - destruct (He _ _ _ E) as [-> E']. destruct (Hf _ _ _ _ H) as [-> H']. split; [done|].
    intros b s' -> Hs. rewrite (op_bind_ok _ _ _ _ _ (E' a s' eq_refl Hs)). by apply H'.
  - destruct (He _ _ _ E) as [-> _]. by split.
Qed.

Lemma stable_lookup i name : stable (ram_lookup i name).
Proof.
  intros s r s1. unfold ram_lookup, mbind, op_bind, get_node.
  destruct (nodes s !! i) as [nd|] eqn:Hi; [|done]. destruct nd as [ino m ch| |]; [|by intros [= <- <-]..].
  destruct (bt_get name ch) as [c|] eqn:Hc; intros [= <- <-]; split; try done.
  intros a s' [= <-] Hs. destruct (Hs _ _ Hi) as ([ino' m' ch'| |] & -> & Hx); try done.
  destruct Hx as [Hx _]. by rewrite (Hx _ _ Hc).
Qed.

Lemma stable_kind k i : stable (is_kind k i).
Proof.
  intros s r s1. unfold is_kind, i_stat. simpl. unfold ram_stat. op_unfold. unfold get_node.
  destruct (nodes s !! i) as [nd|] eqn:Hi; [|done]. intros [= <- <-]. split; [done|].
  intros a s' [= <-] Hs. destruct (Hs _ _ Hi) as (nd' & -> & Hx). by destruct nd, nd'.
Qed.

Lemma stable_readlink i : stable (ram_readlink i).
Proof.
  intros s r s1. unfold ram_readlink, mbind, op_bind, get_node.
  destruct (nodes s !! i) as [nd|] eqn:Hi; [|done]. destruct nd as [| |ino t]; intros [= <- <-]; split; try done.
  intros a s' [= <-] Hs. destruct (Hs _ _ Hi) as ([| |ino' t'] & -> & Hx); try done. by simpl in Hx; subst.
Qed.

Lemma stable_dotdot i root :
  stable (try_catch (ram_lookup i DOTDOT) mret (λ _, mret root)).
Proof.
  intros s r s1. unfold try_catch, ram_lookup, mbind, op_bind, get_node.
  destruct (nodes s !! i) as [nd|] eqn:Hi; [|done].
  destruct nd as [ino m ch|ino m d|ino t]; [|intros [= <- <-]; split; [done|]..].
  - destruct (bt_get DOTDOT ch) as [c|] eqn:Hc; intros [= <- <-]; (split; [done|]);
      intros a s' [= <-] Hs; destruct (Hs _ _ Hi) as ([ino' m' ch'| |] & -> & Hx); try done;
      destruct Hx as [Hx Hy].
    + by rewrite (Hx _ _ Hc).
    + by rewrite (Hy Hc).
  - intros a s' [= <-] Hs. by destruct (Hs _ _ Hi) as ([| |] & -> & Hx).
  - intros a s' [= <-] Hs. by destruct (Hs _ _ Hi) as ([| |] & -> & Hx).
Qed.

Lemma stable_walk follow root i c :
  (∀ d p, stable (follow d p)) → stable (walk_step follow root i c).
Proof.
  intros Hf. unfold walk_step. case_decide; [apply stable_ret|].
  case_decide; [apply stable_dotdot|]. apply stable_bind; [apply stable_kind|]. intros [|]; simpl.
  2: apply stable_err. apply stable_bind; [apply stable_lookup|]. intros next.
  apply stable_bind; [apply stable_kind|]. intros [|]; [|apply stable_ret].
  apply stable_bind; [apply stable_readlink|auto].
Qed.

Lemma stable_fold {A B} (f : B → A → op ramfs B) xs b :
  (∀ b x, stable (f b x)) → stable (op_fold f xs b).
Proof.
  intros Hf. revert b. induction xs as [|x xs IH]; intros b; simpl; [apply stable_ret|].
  by apply stable_bind.
Qed.

Lemma stable_resolve_inner n root cwd path : stable (resolve_inner n root cwd path).
Proof.
  revert cwd path. induction n as [|n IH]; intros cwd path; simpl; [apply stable_err|].
  apply stable_fold. intros. by apply stable_walk.
Qed.

Lemma stable_resolve_parent root cwd path : stable (resolve_parent root cwd path).
Proof.
  unfold resolve_parent. destruct (split_last path) as [p n]. apply stable_bind; [|intros; apply stable_ret].
  case_decide; [apply stable_ret|apply stable_resolve_inner].
Qed.

(** ** Absolute paths *)

(** The recorded working directory is absolute, or empty after [cd "//"]. *)
Definition cwd_ok v : Prop := cwd_path v = [] ∨ starts_with [SLASH] (cwd_path v).

Lemma make_absolute_abs v path : cwd_ok v → starts_with [SLASH] (make_absolute v path).
Proof.
  intros Hv. unfold make_absolute. destruct (starts_with [SLASH] path) eqn:E; [by rewrite E|].
  apply starts_slash. case_decide; [eauto|].
  destruct Hv as [->|[q ->]%starts_slash]; simpl; eauto.
Qed.

Lemma kind_ok k s i nd :
  nodes s !! i = Some nd →
  is_kind (ops := ram_ops) k i s = Ret (Ok (bool_decide (kind (stat_of nd) = k)), s).
Proof.
  intros Hi. unfold is_kind. simpl. unfold ram_stat, mbind, op_bind. by rewrite (get_node_ok _ _ _ Hi).
Qed.

Lemma resolve_walk root cwd path :
  resolve (ops := ram_ops) root cwd path =
    op_fold (walk_step (resolve_inner 40 root) root) (components path)
      (if starts_with [SLASH] path then root else cwd).
Proof. reflexivity. Qed.

(** Resolving an absolute path walks its last component from its parent. *)
Lemma resolve_last root cwd path s parent name :
  starts_with [SLASH] path → components path ≠ [] → split_last path = (parent, name) →
  resolve (ops := ram_ops) root cwd path s =
    (d ← resolve root cwd parent; walk_step (resolve_inner 40 root) root d name) s.
Proof.
  intros Hs Hc Hl. destruct (split_last_spec _ _ _ Hs Hc Hl) as (Hp & Hsp & _).
  rewrite !resolve_walk. apply Is_true_true in Hs, Hsp. rewrite Hs, Hsp, Hp, op_fold_app.
  unfold mbind, op_bind. destruct (op_fold _ (components parent) _ s) as [[[d|e] s1]| |]; try done.
  cbn [op_fold]. unfold mbind, op_bind.
  by destruct (walk_step (resolve_inner 40 root) root d name s1) as [[[] ]| |].
Qed.

Lemma resolve_parent_abs root cwd path parent name :
  starts_with [SLASH] path → components path ≠ [] → split_last path = (parent, name) →
  resolve_parent (ops := ram_ops) root cwd path =
    (d ← resolve root cwd parent; mret (d, name)).
Proof.
  intros Hs Hc Hl. destruct (split_last_spec _ _ _ Hs Hc Hl) as (_ & [q ->]%starts_slash & _).
  unfold resolve_parent. rewrite Hl. by rewrite decide_False.
Qed.

(** A name missing from its directory is found there once it is entered. *)
Lemma resolve_entered root cwd path s s' d name ino m ch c nd :
  starts_with [SLASH] path →
  resolve root cwd path s = Ret (Err ENOENT, s) →
  resolve_parent root cwd path s = Ret (Ok (d, name), s) →
  nodes s !! d = Some (RamDir ino m ch) →
  (name ≠ DOTDOT → fs_ext s s') →
  nodes s' !! d = Some (RamDir ino m (bt_insert name c ch)) → bt_sorted ch →
  nodes s' !! c = Some nd → (∀ n t, nd ≠ RamSymlink n t) →
  resolve root cwd path s' = Ret (Ok c, s') ∧ name ≠ DOTDOT.
Proof.
  intros Hs Hr Hp Hd Hext Hd' Hso Hc Hnl.
  assert (Hcs : components path ≠ []).
  { intros E. rewrite resolve_walk, E in Hr. discriminate Hr. }
  destruct (split_last path) as [parent n'] eqn:Hl.
  rewrite (resolve_parent_abs _ _ _ _ _ Hs Hcs Hl) in Hp.
  apply op_bind_inv in Hp as [(d' & s1 & Ed & [= -> -> ->])|(? & _ & ?)]; [|done].
  rewrite (resolve_last _ _ _ _ _ _ Hs Hcs Hl), (op_bind_ok _ _ _ _ _ Ed) in Hr.
  unfold walk_step in Hr. case_decide as Hdot; [done|].
  case_decide as Hdd; [|].
  { exfalso. revert Hr. simpl. unfold try_catch, ram_lookup.
    rewrite (get_node_bind _ _ _ _ Hd). by destruct (bt_get DOTDOT ch). }
  split; [|done]. specialize (Hext Hdd).
  rewrite (resolve_last _ _ _ _ _ _ Hs Hcs Hl).
  destruct (stable_resolve_inner 41 root cwd parent _ _ _ Ed) as [_ Hst].
  rewrite (op_bind_ok _ _ _ _ _ (Hst d s' eq_refl Hext)).
  unfold walk_step. rewrite !decide_False by done.
  erewrite op_bind_ok by apply (kind_ok _ _ _ _ Hd'). rewrite bool_decide_eq_true_2 by done. cbn [negb].
  erewrite op_bind_ok.
  2: { simpl. unfold ram_lookup. rewrite (get_node_bind _ _ _ _ Hd').
       by rewrite bt_get_map, bt_insert_map, lookup_insert_eq by done. }
  erewrite op_bind_ok by apply (kind_ok _ _ _ _ Hc).
  destruct nd; try done. by edestruct Hnl.
Qed.

(** ** Extensions the write path makes *)
Lemma fs_ext_insert s i nd nd' n :
  nodes s !! i = Some nd → node_ext nd nd' →
  fs_ext s {| nodes := <[i := nd']> (nodes s); NEXT_INO := n |}.
Proof.
  intros Hi Hx j ndj Hj. simpl. destruct (decide (j = i)) as [->|].
  - rewrite lookup_insert_eq. rewrite Hi in Hj. injection Hj as <-. eauto.
  - rewrite lookup_insert_ne by done. exists ndj. split; [done|apply node_ext_refl].
Qed.

Lemma fs_ext_new s c nd n :
  nodes s !! c = None → fs_ext s {| nodes := <[c := nd]> (nodes s); NEXT_INO := n |}.
Proof.
  intros Hc j ndj Hj. simpl. rewrite lookup_insert_ne by congruence.
  exists ndj. split; [done|apply node_ext_refl].
Qed.

Lemma node_ext_entered ino m ch name c :
  bt_sorted ch → bt_get name ch = None → name ≠ DOTDOT →
  node_ext (RamDir ino m ch) (RamDir ino m (bt_insert name c ch)).
Proof.
  intros Hs Hn Hd. simpl. split; intros *; rewrite !bt_get_map, bt_insert_map by done.
  - intros Hk. rewrite lookup_insert_ne; [done|]. intros ->. by rewrite bt_get_map, Hk in Hn.
  - intros. by rewrite lookup_insert_ne.
Qed.

(** ** Writing and reading whole files *)
Section Files.
Implicit Types (data : list Z) (ino m : Z).

Lemma written_nil data data' : written [] 0 data data' → data' = data.
Proof.
  intros Hw. pose proof (written_drop _ _ _ _ Hw) as Hd. destruct Hw as [Hl _]. simpl in Hl.
  rewrite drop_0, take_ge in Hd; [done|lia].
Qed.

Lemma file_write_spec s i ino m data flags :
  ram_wf s → nodes s !! i = Some (RamFile ino m []) → length data ≤ ISIZE_MAX →
  Z.land flags O_APPEND = 0 →
  with_file (File_new i flags) (File_write data) s =
    Ret (Ok (Z.of_nat (length data)),
         {| nodes := <[i := RamFile ino m data]> (nodes s); NEXT_INO := NEXT_INO s |}).
Proof.
  intros Hw Hi Hl Hf. destruct (write_spec s i ino m [] 0 data Hw Hi) as (d' & E & Hd & _); [lia..|].
  apply written_nil in Hd as ->. unfold with_file, File_write, File_new. op_unfold. simpl.
  rewrite Hf. simpl. rewrite E. unfold u64_add.
  destruct (Z.ltb_spec (0 + length data) U64); [done|lia].
Qed.

Lemma file_read_spec s i ino m data :
  nodes s !! i = Some (RamFile ino m data) → length data ≤ ISIZE_MAX →
  with_file (File_new i 0) (read_loop (S (length data)) (length data) []) s = Ret (Ok data, s).
Proof.
  intros Hi Hl. unfold with_file, File_new.
  destruct (decide (data = [])) as [->|Hne]; [done|].
  assert (Hp : 0 < length data) by (destruct data; simpl; [done|lia]).
  cbn [read_loop length]. rewrite (proj2 (Z.ltb_lt _ _)) by lia.
  erewrite op_bind_ok.
  2: { unfold File_read. op_unfold. simpl. rewrite (read_spec _ _ _ _ _ 0 _ Hi) by lia.
       rewrite drop_0, take_ge by lia. rewrite u64_add_ok by lia. done. }
  destruct data as [|x data]; [done|]. cbn [length read_loop app].
  destruct (Z.ltb_spec (S (length data)) (S (length data))); [lia|done].
Qed.

Lemma open_existing v path s i flags :
  vfs_resolve v path s = Ret (Ok i, s) → Z.land flags O_CREAT = 0 →
  vfs_open v path flags s = Ret (Ok (File_new i flags), s).
Proof.
  intros Hr Hf. unfold vfs_open. rewrite Hf. simpl. unfold mbind, op_bind, try_catch. by rewrite Hr.
Qed.

Lemma read_file_spec v path s i ino m data :
  ram_wf s → vfs_resolve v path s = Ret (Ok i, s) → nodes s !! i = Some (RamFile ino m data) →
  read_file v path s = Ret (Ok data, s).
Proof.
  intros Hw Hr Hi. pose proof (ram_wf_lookup _ _ _ Hw Hi) as Hl. simpl in Hl.
  unfold read_file. erewrite op_bind_ok by (by apply open_existing).
  erewrite op_bind_ok.
  2: { simpl. unfold ram_stat. rewrite (get_node_bind _ _ _ _ Hi). done. }
  simpl stat_of. cbn [size]. erewrite op_bind_ok.
  2: { unfold check, assert_. by rewrite (proj2 (Z.leb_le _ _)). }
  rewrite Nat2Z.id. by eapply file_read_spec.
Qed.

(** What [write_file] can write: a path, inside a mounted file system or not, that
    names a regular file, or a path outside the mounts that names nothing but a new
    entry of an existing directory. *)
Definition writable_target v path s : Prop :=
  (∃ i ino m d, vfs_resolve v path s = Ret (Ok i, s) ∧ nodes s !! i = Some (RamFile ino m d)) ∨
  (∃ d name ino m ch, resolve_mounts (ops := ram_ops) (mounts v) (make_absolute v path) = None ∧
     vfs_resolve v path s = Ret (Err ENOENT, s) ∧
     resolve_parent (root v) (cwd v) (make_absolute v path) s = Ret (Ok (d, name), s) ∧
     nodes s !! d = Some (RamDir ino m ch) ∧ bt_get name ch = None).

Definition WRITE_FLAGS : Z := Z.lor (Z.lor O_WRONLY O_CREAT) O_TRUNC.

(** A path that resolves goes on resolving to the same inode. *)
Lemma stable_vfs_resolve v path : stable (vfs_resolve (ops := ram_ops) v path).
Proof.
  unfold vfs_resolve, resolve_abs. set (abs := make_absolute v path). clearbody abs.
  destruct (resolve_mounts (mounts v) abs) as [e|] eqn:E; [|apply stable_resolve_inner].
  revert E. induction (mounts v) as [|[mp r] ms IH]; [done|]. cbn [resolve_mounts].
  case_decide; [intros [= <-]; apply stable_ret|].
  destruct (starts_with _ _); [intros [= <-]; apply stable_resolve_inner|exact IH].
Qed.

(** Opening for writing leaves an empty file at the path. *)
Lemma open_write v path s :
  ram_wf s → cwd_ok v → writable_target v path s →
  ∃ i ino m s1, vfs_open v path WRITE_FLAGS s = Ret (Ok (File_new i WRITE_FLAGS), s1) ∧
    ram_wf s1 ∧ fs_ext s s1 ∧ vfs_resolve v path s1 = Ret (Ok i, s1) ∧
    nodes s1 !! i = Some (RamFile ino m []) ∧
    (∀ j ino' m' d, j ≠ i → nodes s !! j = Some (RamFile ino' m' d) → nodes s1 !! j = nodes s !! j) ∧
    (∀ e, vfs_resolve v path s = Ret (Err e, s) → nodes s !! i = None).
Proof.
  intros Hw Hv [(i & ino & m & d & Hr & Hi)|(d & name & ino & m & ch & Hm & Hr & Hp & Hd & Hn)].
  - set (s1 := {| nodes := <[i := RamFile ino m []]> (nodes s); NEXT_INO := NEXT_INO s |}).
    assert (Hx : fs_ext s s1) by by eapply fs_ext_insert.
    exists i, ino, m, s1. split.
    { unfold vfs_open. erewrite op_bind_ok; [done|]. unfold try_catch. rewrite Hr.
      simpl (_ && _). cbv iota. erewrite op_bind_ok; [done|]. simpl. unfold ram_truncate.
      rewrite (get_node_bind _ _ _ _ Hi), vec_resize_ok by lia. done. }
    split; [apply ram_wf_insert; simpl; [done|lia]|]. split; [done|]. split.
    { by apply (stable_vfs_resolve _ _ _ _ _ Hr). }
    simpl. rewrite lookup_insert_eq. split; [done|]. split; [intros; by rewrite lookup_insert_ne|]. intros e He. by rewrite Hr in He.
  - destruct (ram_wf_lookup _ _ _ Hw Hd) as [Hso _].
    pose proof (fresh_notin s) as Hfr. set (c := fresh (dom (nodes s))) in *.
    assert (Hcd : c ≠ d) by congruence.
    set (s1 := {| nodes := <[d := RamDir ino m (bt_insert name c ch)]>
                    (<[c := RamFile (NEXT_INO s) 420 []]> (nodes s));
                  NEXT_INO := u64_wrap (NEXT_INO s + 1) |}).
    assert (Hx : name ≠ DOTDOT → fs_ext s s1).
    { intros. etransitivity; [by apply (fs_ext_new s c (RamFile (NEXT_INO s) 420 []) 0)|].
      eapply (fs_ext_insert {| nodes := _ |}); [|by apply node_ext_entered].
      simpl. by rewrite lookup_insert_ne. }
    assert (Hc1 : nodes s1 !! c = Some (RamFile (NEXT_INO s) 420 [])).
    { simpl. by rewrite lookup_insert_ne, lookup_insert_eq. }
    pose proof Hr as Hr'. unfold vfs_resolve, resolve_abs in Hr'. rewrite Hm in Hr'.
    destruct (resolve_entered _ _ _ _ s1 _ _ _ _ _ c _ (make_absolute_abs _ _ Hv) Hr' Hp Hd Hx
                ltac:(by simpl; rewrite lookup_insert_eq) Hso Hc1 ltac:(done)) as [Hr1 Hdd].
    exists c, (NEXT_INO s), 420, s1. split.
    { unfold vfs_open. erewrite op_bind_ok; [done|]. unfold try_catch. rewrite Hr. simpl.
      rewrite (op_bind_ok _ _ _ _ _ Hp). apply (entry_op_new s d ino m ch name (EFile 420) Hd Hn). }
    split; [apply entry_new_wf; simpl; [done..|lia]|]. split; [auto|]. split.
    { unfold vfs_resolve, resolve_abs. by rewrite Hm. }
    split; [done|]. split; [intros j ino' m' d' Hj Hjs; simpl; rewrite !lookup_insert_ne; congruence|done].
Qed.
End Files.

(** ** Listing a directory *)
Definition listed s (e : DirEntry) (x : str * positive) : Prop :=
  ∃ cn, nodes s !! x.2 = Some cn ∧
        e = {| de_name := x.1; de_ino := ino_of cn; de_kind := kind (stat_of cn) |}.

Lemma readdir_loop_spec s i ino m ch fuel k es flags :
  ram_wf s → nodes s !! i = Some (RamDir ino m ch) → length ch < U64 →
  (k ≤ length ch)%nat → (length ch - k < fuel)%nat → Forall2 (listed s) es (take k ch) →
  ∃ es' f, readdir_loop (ops := ram_ops) fuel es ({| f_inode := i; f_offset := k; f_flags := flags |}, s) =
           Ret (Ok es', (f, s)) ∧ Forall2 (listed s) es' ch.
Proof.
  intros Hw Hi Hl. revert k es. induction fuel as [|fuel IH]; intros k es Hk Hf Hes; [lia|].
  destruct (ram_wf_lookup _ _ _ Hw Hi) as [_ Hch]. cbn [readdir_loop].
  destruct (ch !! k) as [[n c]|] eqn:Hx.
  - assert (Hc : is_Some (nodes s !! c)) by apply (Forall_lookup_1 _ _ _ _ Hch Hx).
    destruct Hc as [cn Hc]. pose proof (lookup_lt_Some _ _ _ Hx).
    erewrite op_bind_ok.
    2: { unfold readdir_next. op_unfold. simpl. unfold ram_readdir. rewrite (get_node_bind _ _ _ _ Hi).
         rewrite Nat2Z.id, Hx. rewrite (get_node_bind _ _ _ _ Hc). unfold mret, op_ret.
         rewrite u64_add_ok by lia. exec_simpl. unfold set_offset. simpl.
         replace (k + 1) with (Z.of_nat (S k)) by lia. reflexivity. }
    cbv beta iota. apply IH; [lia..|]. rewrite (take_S_r _ _ _ Hx). apply Forall2_app; [done|].
    constructor; [|done]. by exists cn.
  - apply lookup_ge_None in Hx. rewrite take_ge in Hes by lia. exists es. eexists.
    split; [|done]. erewrite op_bind_ok.
    2: { unfold readdir_next. op_unfold. simpl. unfold ram_readdir. rewrite (get_node_bind _ _ _ _ Hi).
         rewrite Nat2Z.id, lookup_ge_None_2 by lia. reflexivity. }
    reflexivity.
Qed.

(** ** The mount table *)
Section Mounts.
Implicit Types (ms : list (str * positive)) (mp abs : str).

Definition longest_first ms : Prop :=
  StronglySorted (λ a b, (length b.1 ≤ length a.1)%nat) ms.

Lemma insert_mount_Forall (P : str * positive → Prop) mp r ms :
  P (mp, r) → Forall P ms → Forall P (insert_mount mp r ms).
Proof.
  intros H Hs. induction Hs as [|[mp' r'] ms ? Hs IH]; simpl; [by constructor|].
  destruct (_ <? _)%nat; by repeat constructor.
Qed.

Lemma insert_mount_longest mp r ms : longest_first ms → longest_first (insert_mount mp r ms).
Proof.
  intros Hs. induction Hs as [|[mp' r'] ms Hs IH Hf]; simpl; [by repeat constructor|].
  destruct (Nat.ltb_spec (length mp') (length mp)).
  - constructor; [by constructor|]. constructor; [simpl; lia|].
    eapply Forall_impl; [exact Hf|]. intros [] ?. simpl in *. lia.
  - constructor; [done|]. by apply insert_mount_Forall.
Qed.

Lemma filter_longest (P : str * positive → Prop) `{!∀ x, Decision (P x)} ms :
  longest_first ms → longest_first (filter P ms).
Proof.
  intros Hs. induction Hs as [|x ms Hs IH Hf]; [constructor|]. rewrite filter_cons. case_decide; [|done].
  constructor; [done|]. rewrite Forall_forall in *. intros y Hy. apply list_elem_of_filter in Hy as [_ Hy]. auto.
Qed.

(** [abs] is the mount point or a path inside it. *)
Definition covers mp abs : Prop := abs = mp ∨ starts_with (mp ++ [SLASH]) abs.

Definition inside (r : positive) mp abs : op ramfs positive :=
  if decide (abs = mp) then mret r else resolve r r (drop (length mp) abs).

Lemma resolve_mounts_spec ms abs :
  longest_first ms →
  match resolve_mounts (ops := ram_ops) ms abs with
  | None => ∀ x, x ∈ ms → ¬ covers x.1 abs
  | Some e => ∃ mp r, (mp, r) ∈ ms ∧ covers mp abs ∧ e = inside r mp abs ∧
      ∀ x, x ∈ ms → covers x.1 abs → (length x.1 ≤ length mp)%nat
  end.
Proof.
  unfold covers, inside. intros Hs. induction Hs as [|[mp r] ms Hs IH Hf]; simpl; [by intros x ?%elem_of_nil|].
  assert (Hmax : ∀ x, x ∈ (mp, r) :: ms → (length x.1 ≤ length mp)%nat).
  { intros x [->|Hx]%elem_of_cons; [done|]. rewrite Forall_forall in Hf. by apply (Hf x Hx). }
  case_decide as E.
  { exists mp, r. rewrite decide_True by done. split; [left|]. split; [auto|]. split; [done|]. auto. }
  destruct (starts_with (mp ++ [SLASH]) abs) eqn:Ep.
  { exists mp, r. rewrite decide_False by done. split; [left|]. split; [rewrite Ep; auto|]. split; [done|]. auto. }
  assert (Hno : ¬ (abs = mp ∨ starts_with (mp ++ [SLASH]) abs)) by (rewrite Ep; naive_solver).
  destruct (resolve_mounts ms abs) as [e|].
  - destruct IH as (mp' & r' & Hin & Hc & He & Hm). exists mp', r'. split; [by right|].
    split; [done|]. split; [done|]. intros x [->|Hx]%elem_of_cons; [done|auto].
  - intros x [->|Hx]%elem_of_cons; [done|auto].
Qed.

(** The contexts the kernel can reach: a fresh one, then any calls that change
    the context, whatever they answer. *)
Inductive reached : VfsContext positive → Prop :=
  | reached_new r : reached (VfsContext_new r)
  | reached_mount v s mp r res v' s' :
      reached v → mount mp r (v, s) = Ret (res, (v', s')) → reached v'
  | reached_umount v s mp res v' s' :
      reached v → umount mp (v, s) = Ret (res, (v', s')) → reached v'
  | reached_cd v s path res v' s' :
      reached v → cd path (v, s) = Ret (res, (v', s')) → reached v'.

Lemma cd_mounts v s path res v' s' :
  cd (ops := ram_ops) path (v, s) = Ret (res, (v', s')) → mounts v' = mounts v.
Proof.
  unfold cd. op_unfold. simpl. destruct (vfs_resolve v path s) as [[[i|e] s1]| |]; intros H; simplify_eq; [|done].
  destruct (is_dir i s1) as [[[d|e] s2]| |]; simplify_eq; [|done]. destruct d; simpl in *; by simplify_eq.
Qed.

Lemma reached_longest v : reached v → longest_first (mounts v).
Proof.
  induction 1 as [r|v s mp r res v' s' _ IH H|v s mp res v' s' _ IH H|v s path res v' s' _ IH H].
  - constructor.
  - revert H. unfold mount. op_unfold. simpl. destruct (ignore _ s) as [[[|] ?]| |]; intros H; simplify_eq;
      [|done]. by apply insert_mount_longest.
  - revert H. unfold umount. op_unfold. simpl. destruct (_ =? _)%nat; intros H; simplify_eq; by apply filter_longest.
  - by rewrite (cd_mounts _ _ _ _ _ _ H).
Qed.
End Mounts.

(** ** The file system as a whole *)

(** Writing a file and reading it back. *)
Lemma write_file_spec v path data s :
  ram_wf s → cwd_ok v → length data ≤ ISIZE_MAX → writable_target v path s →
  ∃ i s', write_file v path data s = Ret (Ok (), s') ∧ ram_wf s' ∧
    vfs_resolve v path s' = Ret (Ok i, s') ∧ read_file v path s' = Ret (Ok data, s') ∧
    (∀ r c p j, resolve r c p s = Ret (Ok j, s) → resolve r c p s' = Ret (Ok j, s')) ∧
    (∀ j ino m d, j ≠ i → nodes s !! j = Some (RamFile ino m d) → nodes s' !! j = nodes s !! j) ∧
    fs_ext s s' ∧ (∀ e, vfs_resolve v path s = Ret (Err e, s) → nodes s !! i = None) ∧
    (∃ ino m, nodes s' !! i = Some (RamFile ino m data)).
Proof.
  intros Hw Hv Hl Ht.
  destruct (open_write _ _ _ Hw Hv Ht) as (i & ino & m & s1 & Ho & Hw1 & Hx1 & Hr1 & Hi1 & Hoth & Hnew).
  set (s2 := {| nodes := <[i := RamFile ino m data]> (nodes s1); NEXT_INO := NEXT_INO s1 |}).
  assert (Hw2 : ram_wf s2) by by apply ram_wf_insert.
  assert (Hx2 : fs_ext s1 s2) by by eapply fs_ext_insert.
  assert (Hr2 : vfs_resolve v path s2 = Ret (Ok i, s2)).
  { by apply (stable_vfs_resolve _ _ _ _ _ Hr1). }
  exists i, s2. split.
  { unfold write_file. rewrite (op_bind_ok _ _ _ _ _ Ho).
    by rewrite (op_bind_ok _ _ _ _ _ (file_write_spec s1 i ino m data WRITE_FLAGS Hw1 Hi1 Hl eq_refl)). }
  split; [done|]. split; [done|]. split.
  { eapply read_file_spec; [done..|]. simpl. by rewrite lookup_insert_eq. }
  split.
  - intros r c p j Hj. apply (stable_resolve_inner _ _ _ _ _ _ _ Hj); [done|]. by etransitivity.
  - split; [intros j ino' m' d Hj Hjs; simpl; rewrite lookup_insert_ne by done; by eapply Hoth|].
    split; [by etransitivity|]. split; [done|]. exists ino, m. simpl. by rewrite lookup_insert_eq.
Qed.

(** C22: Writing [data] to a path that names a regular file, in a mounted file
    system or not, or to a path outside the mounts that is a new name in an existing
    directory, succeeds; reading the path back gives exactly [data], every path that
    resolved before resolves to the same inode, and no other file changes. *)
Theorem write_read_file v path data s :
  ram_wf s → cwd_ok v → length data ≤ ISIZE_MAX → writable_target v path s →
  ∃ i s', write_file v path data s = Ret (Ok (), s') ∧ ram_wf s' ∧
    vfs_resolve v path s' = Ret (Ok i, s') ∧ read_file v path s' = Ret (Ok data, s') ∧
    (∀ v' p j, vfs_resolve v' p s = Ret (Ok j, s) → vfs_resolve v' p s' = Ret (Ok j, s')) ∧
    (∀ r c p j, resolve r c p s = Ret (Ok j, s) → resolve r c p s' = Ret (Ok j, s')) ∧
    (∀ j ino m d, j ≠ i → nodes s !! j = Some (RamFile ino m d) → nodes s' !! j = nodes s !! j).
Proof.
  intros Hw Hv Hl Ht. destruct (write_file_spec v path data s Hw Hv Hl Ht) as (i & s' & ? & ? & ? & ? & ? & ? & Hx & _).
  exists i, s'. split_and!; try done. intros v' p j Hj. by apply (stable_vfs_resolve _ _ _ _ _ Hj).
Qed.

(** Listing a directory with any number of turns above its number of entries
    ends, changes nothing, and returns one entry per child in key order, with
    the child's name, inode number and type. *)
Theorem readdir_all_complete v path s i ino m ch fuel :
  ram_wf s → vfs_resolve v path s = Ret (Ok i, s) → nodes s !! i = Some (RamDir ino m ch) →
  length ch < U64 → (length ch < fuel)%nat →
  ∃ es, readdir_all fuel v path s = Ret (Ok es, s) ∧ Forall2 (listed s) es ch ∧
        NoDup (de_name <$> es).
Proof.
  intros Hw Hr Hi Hl Hf.
  destruct (readdir_loop_spec s i ino m ch fuel 0 [] 0 Hw Hi Hl) as (es & f & E & Hes); [lia|lia|constructor|].
  exists es. split.
  { unfold readdir_all. rewrite (op_bind_ok _ _ _ _ _ Hr).
    erewrite op_bind_ok by apply (kind_ok _ _ _ _ Hi). rewrite bool_decide_eq_true_2 by done. cbn [negb].
    unfold with_file, File_new. change (Z.of_nat 0) with 0 in E. by rewrite E. }
  split; [done|]. destruct (ram_wf_lookup _ _ _ Hw Hi) as [Hs _].
  replace (de_name <$> es) with (ch.*1).
  2: { clear -Hes. induction Hes as [|e x es ch (cn & _ & ->) Hes IH]; [done|]. csimpl. by rewrite IH. }
  clear -Hs. induction Hs as [|[k c] ch Hs IH Hk]; csimpl; constructor; [|done].
  intros ([k' c'] & -> & Hin)%list_elem_of_fmap. rewrite Forall_forall in Hk.
  specialize (Hk _ Hin). simpl in Hk. by rewrite str_lt_irrefl in Hk.
Qed.

(** In the in-memory file system a path ending in [..] resolves to the root
    of the resolution and not to the parent: no directory has an entry [..],
    and the failed lookup falls back to the root. *)
Theorem dotdot_is_root root cwd p d nd s :
  resolve root cwd p s = Ret (Ok d, s) → nodes s !! d = Some nd →
  (∀ ino m ch, nd = RamDir ino m ch → bt_get DOTDOT ch = None) →
  starts_with [SLASH] p →
  resolve root cwd (p ++ SLASH :: DOTDOT) s = Ret (Ok root, s).
Proof.
  intros Hr Hd Hn Hs. rewrite resolve_walk, components_app in *. apply starts_slash in Hs as [q ->].
  replace (starts_with [SLASH] ((SLASH :: q) ++ SLASH :: DOTDOT)) with true by done.
  rewrite op_fold_app. erewrite op_bind_ok by exact Hr.
  rewrite components_plain; [|compute_done|done]. cbn [op_fold].
  erewrite op_bind_ok; [done|]. unfold walk_step. rewrite decide_False, decide_True by done.
  unfold try_catch. simpl. unfold ram_lookup. rewrite (get_node_bind _ _ _ _ Hd).
  destruct nd as [ino m ch| |]; try done. by rewrite (Hn ino m ch eq_refl).
Qed.

(** In every context the kernel can reach, an absolute path inside at least
    one mount is resolved in the mount with the longest mount point that
    covers it, relative to that file system's root; a path inside none is
    resolved from the root. *)
Theorem mount_longest_prefix v abs :
  reached v →
  (∃ mp r, (mp, r) ∈ mounts v ∧ covers mp abs ∧ resolve_abs v abs = inside r mp abs ∧
     ∀ x, x ∈ mounts v → covers x.1 abs → (length x.1 ≤ length mp)%nat) ∨
  ((∀ x, x ∈ mounts v → ¬ covers x.1 abs) ∧ resolve_abs v abs = resolve (root v) (cwd v) abs).
Proof.
  intros Hv. pose proof (resolve_mounts_spec _ abs (reached_longest _ Hv)) as H. unfold resolve_abs.
  destruct (resolve_mounts (mounts v) abs) as [e|].
  - left. destruct H as (mp & r & ? & ? & -> & ?). by exists mp, r.
  - by right.
Qed.

Section Demo.
(** A context at the root of [demo_fs], and the path [/d]. *)
Definition demo_ctx : VfsContext positive := VfsContext_new 1%positive.

Definition slash_d : str := [47; 100].

Lemma write_read_file_witness :
  ∃ s', write_file demo_ctx [98] [5; 6] demo_fs = Ret (Ok (), s') ∧
        read_file demo_ctx [98] s' = Ret (Ok [5; 6], s').
Proof.
  destruct (write_read_file demo_ctx [98] [5; 6] demo_fs demo_fs_wf ltac:(by right) ltac:(done))
    as (i & s' & ? & _ & _ & ? & _); [|by exists s'].
  right. exists 1%positive, [98]. do 3 eexists. repeat split; reflexivity.
Defined.

Lemma readdir_all_complete_witness :
  ∃ es, readdir_all 3 demo_ctx [SLASH] demo_fs = Ret (Ok es, demo_fs) ∧ de_name <$> es = [[97]; [100]].
Proof.
  destruct (readdir_all_complete demo_ctx [SLASH] demo_fs 1 1 493 _ 3 demo_fs_wf eq_refl eq_refl)
    as (es & E & Hes & _); [done|simpl; lia|].
  exists es. split; [exact E|]. inversion_clear Hes as [|? ? ? ? (? & _ & ->) Hes'].
  inversion_clear Hes' as [|? ? ? ? (? & _ & ->) Hes]. inversion_clear Hes. reflexivity.
Defined.

Lemma dotdot_is_root_witness :
  resolve 1%positive 1%positive (slash_d ++ SLASH :: DOTDOT) demo_fs = Ret (Ok 1%positive, demo_fs).
Proof.
  apply (dotdot_is_root 1 1 slash_d 3 (RamDir 3 493 []) demo_fs); try reflexivity.
  by intros ? ? ? [= <- <- <-].
Defined.

Definition demo_mounted : VfsContext positive := set_mounts demo_ctx [(slash_d, 3%positive)].

(** A new file under a mount point is not made in the mounted file system: [open]
    looks for the parent from the root. If the root has a directory where the other
    file system is mounted, the write is said to have succeeded, but the file is in
    that directory and cannot be read back, since reading looks in the mounted file
    system. *)
Definition demo_apart : ramfs :=
  {| nodes := <[9%positive := RamDir 9 493 []]> (nodes demo_fs); NEXT_INO := NEXT_INO demo_fs |}.

Definition demo_over : VfsContext positive := set_mounts demo_ctx [(slash_d, 9%positive)].
Definition demo_lost : ramfs := match write_file demo_over (slash_d ++ [47; 120]) [5; 6] demo_apart with Ret (_, s) => s | _ => demo_apart end.

Example write_under_mount_lost :
  write_file demo_over (slash_d ++ [47; 120]) [5; 6] demo_apart = Ret (Ok (), demo_lost) ∧
  read_file demo_over (slash_d ++ [47; 120]) demo_lost = Ret (Err ENOENT, demo_lost) ∧
  read_file demo_ctx (slash_d ++ [47; 120]) demo_lost = Ret (Ok [5; 6], demo_lost).
Proof. split_and!; vm_compute; reflexivity. Qed.

Lemma mount_longest_prefix_witness :
  reached demo_mounted ∧ resolve_abs demo_mounted slash_d = mret 3%positive.
Proof.
  assert (Hr : reached demo_mounted).
  { apply (reached_mount demo_ctx demo_fs ([47; 100; 47]) 3%positive (Ok ()) _ demo_fs); [constructor|].
    vm_compute. reflexivity. }
  split; [exact Hr|].
  destruct (mount_longest_prefix demo_mounted slash_d Hr) as [(mp & r & Hin & Hc & -> & _)|[Hn _]].
  - apply list_elem_of_singleton in Hin. injection Hin as -> ->. reflexivity.
  - destruct (Hn (slash_d, 3%positive)); [left|by left].
Defined.
End Demo.
