(* ===== verification/Rootfs.v ===== *)
(** The root file system that the kernel builds at boot ([init_rootfs] of
    [src/src/fs/mod.rs]). *)
From Stdlib Require Import String Sorted.
From S2P Require Import Prelude Machine Pmm Effects Elf UserStack Exec Text Vfs Ramfs Path Mount VfsProofs.
Arguments lit s%_string.

Definition rootfs_dirs : list str := lit <$> ["/bin"; "/etc"; "/tmp"; "/home"; "/home/root"; "/dev"; "/proc"; "/var"; "/var/log"]%string.
Definition rootfs_texts : list (str * list Z) := [
  (lit "/etc/hostname", lit "saros" ++ [10]);
  (lit "/etc/os-release", lit "NAME=SarOS" ++ [10] ++ lit "VERSION=0.1" ++ [10]);
  (lit "/etc/motd", lit "Welcome to SarOS!" ++ [10] ++ lit "Type 'help' for available commands." ++ [10]);
  (lit "/bin/hello", HELLO_ELF)].
Definition IMAGE_PATH : str := lit "/images/image.bmp".

(** The operations on the mounted root, their results dropped; [image] is the
    file [drivers/image.bmp]. *)
Definition fill_rootfs (v : VfsContext positive) : op ramfs unit :=
  _ ← op_fold (λ _ d, ignore (vfs_mkdir v d)) rootfs_dirs ();
  _ ← op_fold (λ _ '(p, data), ignore (write_file v p data)) rootfs_texts ();
  ignore (vfs_mkdir v (lit "/images")).

Definition init_rootfs (image : list Z) : op ramfs (VfsContext positive) :=
  fs ← new_ramfs;
  let v := VfsContext_new fs in
  _ ← fill_rootfs v;
  _ ← ignore (write_file v IMAGE_PATH image);
  mret v.

(** ** Checking a store that has been computed *)
Fixpoint sorted_keys {A} (l : list (str * A)) : bool :=
  match l with
  | (k, _) :: ((k', _) :: _) as l' => str_lt k k' && sorted_keys l'
  | _ => true
  end.
Definition node_check (ns : gmap positive node) (nd : node) : bool :=
  match nd with
  | RamDir _ _ ch => sorted_keys ch && forallb (λ e, bool_decide (is_Some (ns !! e.2))) ch
  | RamFile _ _ data => length data <=? ISIZE_MAX
  | RamSymlink _ _ => true
  end.
Definition store_check (s : ramfs) : bool := forallb (λ e, node_check (nodes s) e.2) (map_to_list (nodes s)).

Lemma sorted_keys_ok {A} (l : list (str * A)) : sorted_keys l = true → bt_sorted l.
Proof.
  intros H. apply Sorted_StronglySorted; [intros x y z; apply str_lt_trans|].
  induction l as [|[k a] [|[k' a'] l] IH]; [constructor|repeat constructor|].
  cbn [sorted_keys] in H. apply andb_true_iff in H as [H1 H2]. constructor; [by apply IH|]. constructor. cbn. by rewrite H1.
Qed.

Lemma store_check_ok s : store_check s = true → ram_wf s.
Proof.
  intros H i nd Hi. assert (Hn : node_check (nodes s) nd = true).
  { unfold store_check in H. rewrite forallb_forall in H. apply (H (i, nd)), list_elem_of_In. by apply elem_of_map_to_list. }
  destruct nd as [ino m ch|ino m data|ino tg]; cbn in *; [|by apply Z.leb_le|done].
  apply andb_true_iff in Hn as [H1 H2]. split; [by apply sorted_keys_ok|]. apply Forall_forall. intros e He%list_elem_of_In.
  rewrite forallb_forall in H2. by apply (bool_decide_eq_true _), H2.
Qed.

(** ** The tree without the image *)
Definition root_ctx : VfsContext positive := VfsContext_new 1%positive.
Definition rootfs0 : ramfs :=
  match (fs ← new_ramfs; fill_rootfs (VfsContext_new fs)) no_inodes with Ret (_, s) => s | _ => no_inodes end.

Lemma rootfs0_wf : ram_wf rootfs0.
Proof. apply store_check_ok. vm_compute. reflexivity. Qed.

Lemma fill_ok : (fs ← new_ramfs; fill_rootfs (VfsContext_new fs)) no_inodes = Ret (Ok (), rootfs0).
Proof. vm_compute. reflexivity. Qed.

Lemma init_split image : init_rootfs image no_inodes = (_ ← ignore (write_file root_ctx IMAGE_PATH image); mret root_ctx) rootfs0.
Proof.
  unfold init_rootfs. pose proof fill_ok as E. destruct (op_bind_inv _ _ _ _ _ E) as [(fs & s1 & E1 & E2)|(n & _ & [=])].
  rewrite (op_bind_ok _ _ _ _ _ E1). assert (fs = 1%positive) as -> by (vm_compute in E1; congruence).
  by rewrite (op_bind_ok _ _ _ _ _ E2).
Qed.

(** A directory, and a file with its contents, of a store *)
Definition has_dir (s : ramfs) (d : str) : Prop :=
  ∃ i ino m ch, vfs_resolve root_ctx d s = Ret (Ok i, s) ∧ nodes s !! i = Some (RamDir ino m ch).
Definition has_file (s : ramfs) (f : str * list Z) : Prop :=
  ∃ i ino m, vfs_resolve root_ctx f.1 s = Ret (Ok i, s) ∧ nodes s !! i = Some (RamFile ino m f.2).

Lemma rootfs0_dirs : Forall (has_dir rootfs0) (rootfs_dirs ++ [lit "/images"]).
Proof. repeat (constructor; [do 4 eexists; split; vm_compute; reflexivity|]). constructor. Qed.

Lemma rootfs0_files : Forall (has_file rootfs0) rootfs_texts.
Proof. repeat (constructor; [do 3 eexists; split; vm_compute; reflexivity|]). constructor. Qed.

Lemma image_target : writable_target root_ctx IMAGE_PATH rootfs0.
Proof. right. do 5 eexists. split_and!; vm_compute; reflexivity. Qed.

Lemma image_absent : vfs_resolve root_ctx IMAGE_PATH rootfs0 = Ret (Err ENOENT, rootfs0).
Proof. vm_compute. reflexivity. Qed.

(** The home directory that [run] gives to programs is not one of them. *)
Example home_missing : vfs_resolve root_ctx (lit "/root") rootfs0 = Ret (Err ENOENT, rootfs0).
Proof. vm_compute. reflexivity. Qed.

#[local] Opaque rootfs0.

(** Booting builds the root file system without error: the store is well
    formed, every directory of the list exists, and every file reads back with
    its contents, the image included. The program [/bin/hello] is one that the
    kernel can start. *)
Theorem rootfs_correct image : length image ≤ ISIZE_MAX → ∃ s, init_rootfs image no_inodes = Ret (Ok root_ctx, s) ∧ ram_wf s ∧
  Forall (has_dir s) (rootfs_dirs ++ [lit "/images"]) ∧
  Forall (λ f, read_file root_ctx f.1 s = Ret (Ok f.2, s)) (rootfs_texts ++ [(IMAGE_PATH, image)]) ∧
  (lit "/bin/hello", HELLO_ELF) ∈ rootfs_texts ∧
  startable HELLO_ELF (if is_pie HELLO_ELF then PIE_BASE else 0) (read_ehdr HELLO_ELF).
Proof.
  intros Hl. destruct (write_file_spec root_ctx IMAGE_PATH image rootfs0 rootfs0_wf) as (i & s & E & Hw & Hr & Hrd & Hres & Hoth & Hx & Hnew & _);
    [right; reflexivity|exact Hl|exact image_target|].
  exists s. split; [rewrite init_split; unfold ignore, try_catch; op_unfold; rewrite E; reflexivity|]. split; [exact Hw|]. split; [|split; [|split]].
  - eapply Forall_impl; [exact rootfs0_dirs|]. intros d (j & ino & m & ch & Hj & Hn).
    destruct (Hx j _ Hn) as ([ino' m' ch'| |] & Hn' & He); try destruct He. exists j, ino', m', ch'. split; [exact (Hres _ _ _ _ Hj)|exact Hn'].
  - apply Forall_app. split; [|constructor; [exact Hrd|constructor]].
    eapply Forall_impl; [exact rootfs0_files|]. intros [f data] (j & ino & m & Hj & Hn). cbn [fst snd] in *.
    assert (Hji : j ≠ i). { intros ->. rewrite (Hnew ENOENT image_absent) in Hn. discriminate Hn. }
    apply (read_file_spec _ _ _ j ino m); [exact Hw|exact (Hres _ _ _ _ Hj)|]. rewrite (Hoth j ino m data Hji Hn). exact Hn.
  - vm_compute. repeat constructor.
  - exact hello_startable.
Qed.

Lemma rootfs_correct_witness : ∃ s, init_rootfs [66; 77] no_inodes = Ret (Ok root_ctx, s) ∧
  read_file root_ctx IMAGE_PATH s = Ret (Ok [66; 77], s).
Proof.
  destruct (rootfs_correct [66; 77]) as (s & E & _ & _ & Hf & _); [cbn; lia|]. exists s. split; [exact E|].
  apply Forall_app in Hf as [_ Hf]. exact (Forall_inv Hf).
Defined.
