(* ===== verification/Initrd.v ===== *)
(** The initial ramdisk ([src/src/proc/exec.rs]): the search for a file in a cpio
    archive. *)
From S2P Require Import Prelude Machine Effects Text.

(** ** Hexadecimal fields *)
Definition hex_val (c : Z) : option Z :=
  if between 48 57 c then Some (c - 48)
  else if between 97 102 c then Some (c - 87)
  else if between 65 70 c then Some (c - 55)
  else None.

Fixpoint hex_digits (acc : Z) (l : list Z) : option Z :=
  match l with
  | [] => Some acc
  | c :: l => match hex_val c with Some d => hex_digits (16 * acc + d) l | None => None end
  end.

(** [u32::from_str_radix(s, 16)] on at most eight characters: an optional plus
    sign and at least one digit. *)
Definition from_hex (l : list Z) : option Z :=
  match l with
  | [] => None
  | c :: r => if (c =? 43) && negb (bool_decide (r = [])) then hex_digits 0 r else hex_digits 0 l
  end.

Definition parse_hex8 (bytes : list Z) : option Z :=
  if length bytes <? 8 then None else
  let s := take 8 bytes in
  if utf8_valid s then from_hex s else None.

Definition align4 (v : Z) : exec Z := a ← u64_add v 3; Ret (Z.land a (u64_not 3)).

(** ** [find_in_cpio] *)
Definition MAGIC_1 : str := [48; 55; 48; 55; 48; 49].
Definition MAGIC_2 : str := [48; 55; 48; 55; 48; 50].
Definition TRAILER : str := [84; 82; 65; 73; 76; 69; 82; 33; 33; 33].

(** [&l[a..a + n]] within bounds *)
Definition slice (l : list Z) (a n : Z) : list Z := take (Z.to_nat n) (drop (Z.to_nat a) l).

(** Each turn moves past a header of 110 bytes. *)
Fixpoint cpio_loop (fuel : nat) (cpio path_str : list Z) (offset : Z) : exec (option (list Z)) :=
  header_end ← u64_add offset 110;
  if length cpio <? header_end then Ret None else
  match fuel with
  | O => NoFuel
  | S fuel =>
      let magic := slice cpio offset 6 in
      if negb (bool_decide (magic = MAGIC_1)) && negb (bool_decide (magic = MAGIC_2)) then Ret None else
      match parse_hex8 (slice cpio (offset + 94) 8) with
      | None => Ret None
      | Some namesize =>
          match parse_hex8 (slice cpio (offset + 54) 8) with
          | None => Ret None
          | Some filesize =>
              let name_start := offset + 110 in
              name_end ← u64_add name_start namesize;
              if length cpio <? name_end then Ret None else
              let stop := Z.max 0 (name_end - 1) in
              _ ← assert_ (name_start <=? stop);
              let nm := slice cpio name_start (stop - name_start) in
              let name_str := if utf8_valid nm then nm else [] in
              data_start ← align4 name_end;
              data_end ← u64_add data_start filesize;
              if bool_decide (name_str = TRAILER) then Ret None else
              if (bool_decide (name_str = path_str) || bool_decide (name_str = trim_start SLASH path_str)) &&
                 (data_end <=? length cpio)
              then Ret (Some (slice cpio data_start (data_end - data_start)))
              else
                offset ← align4 data_end;
                cpio_loop fuel cpio path_str offset
          end
      end
  end.

Definition find_in_cpio (cpio path : list Z) : exec (option (list Z)) :=
  if utf8_valid path then cpio_loop (length cpio) cpio (trim_start SLASH path) 0 else Ret None.

(** ** Archives *)
Fixpoint hex_encode (n : nat) (v : Z) : list Z :=
  match n with
  | O => []
  | S n => hex_encode n (v / 16) ++ [if v mod 16 <? 10 then 48 + v mod 16 else 87 + v mod 16]
  end.

Definition pad4 (n : nat) : list Z := replicate (Z.to_nat ((- n) mod 4)) 0.

(** An entry; [h1], [h2] and [h3] are the fields the kernel does not read. *)
Definition cpio_entry (h1 h2 h3 nm data : list Z) : list Z :=
  let hd := MAGIC_1 ++ h1 ++ hex_encode 8 (length data) ++ h2 ++ hex_encode 8 (length nm + 1) ++ h3 in
  let nd := hd ++ nm ++ [0] in
  nd ++ pad4 (length nd) ++ data ++ pad4 (length data).

Record cpio_file := { c_h1 : list Z; c_h2 : list Z; c_h3 : list Z; c_name : list Z; c_data : list Z }.

Definition file_ok (f : cpio_file) : Prop :=
  length (c_h1 f) = 48%nat ∧ length (c_h2 f) = 32%nat ∧ length (c_h3 f) = 8%nat ∧
  length (c_name f) + 1 < U32 ∧ length (c_data f) < U32 ∧ utf8_valid (c_name f) = true.

Definition entry_bytes (f : cpio_file) : list Z := cpio_entry (c_h1 f) (c_h2 f) (c_h3 f) (c_name f) (c_data f).

(** The files followed by the trailer. *)
Definition archive (fs : list cpio_file) (trailer : cpio_file) : list Z := concat (entry_bytes <$> fs) ++ entry_bytes trailer.

(** The data of the first file with a name. *)
Definition cpio_lookup (fs : list cpio_file) (nm : list Z) : option (list Z) :=
  (λ x : nat * cpio_file, c_data x.2) <$> list_find (λ f, c_name f = nm) fs.

Lemma hex_encode_length n v : length (hex_encode n v) = n.
Proof. revert v. induction n as [|n IH]; intros v; simpl; [done|]. rewrite length_app, IH. simpl. lia. Qed.

Lemma hex_digits_app acc l l' : hex_digits acc (l ++ l') =
  match hex_digits acc l with Some a => hex_digits a l' | None => None end.
Proof.
  revert acc. induction l as [|c l IH]; intros acc; simpl; [done|]. by destruct (hex_val c).
Qed.

Lemma hex_char d : 0 ≤ d < 16 →
  let c := if d <? 10 then 48 + d else 87 + d in hex_val c = Some d ∧ 48 ≤ c < 128.
Proof.
  intros Hd. unfold hex_val, between. destruct (Z.ltb_spec d 10); cbn zeta.
  - rewrite !(proj2 (Z.leb_le _ _)) by lia. simpl. split; [f_equal; lia|lia].
  - rewrite (proj2 (Z.leb_gt (87 + d) 57)) by lia. rewrite andb_false_r.
    rewrite !(proj2 (Z.leb_le _ _)) by lia. simpl. split; [f_equal; lia|lia].
Qed.

Lemma hex_roundtrip (n : nat) v acc : 0 ≤ v < 16 ^ n →
  hex_digits acc (hex_encode n v) = Some (16 ^ n * acc + v) ∧ Forall (λ c, 48 ≤ c < 128) (hex_encode n v).
Proof.
  revert v. induction n as [|n IH]; intros v Hv; cbn [hex_encode].
  { change (16 ^ 0%nat) with 1 in *. split; [simpl; f_equal; lia|constructor]. }
  rewrite Nat2Z.inj_succ, Z.pow_succ_r in * by lia.
  destruct (IH (v / 16)) as [E HF]; [dlia|].
  destruct (hex_char (v mod 16)) as [Ec Hc]; [apply Z.mod_pos_bound; lia|]. cbn zeta in Ec, Hc. split.
  - rewrite hex_digits_app, E. cbn [hex_digits]. rewrite Ec. f_equal. pose proof (Z.div_mod v 16). lia.
  - apply Forall_app. split; [done|]. by constructor.
Qed.

Lemma parse_hex8_encode v rest : 0 ≤ v < U32 → parse_hex8 (hex_encode 8 v ++ rest) = Some v.
Proof.
  intros Hv. destruct (hex_roundtrip 8 v 0 Hv) as [E HF]. pose proof (hex_encode_length 8 v) as HL.
  unfold parse_hex8. rewrite length_app, HL, (proj2 (Z.ltb_ge _ _)) by lia.
  rewrite take_app_length' by done.
  assert (utf8_valid (hex_encode 8 v) = true) as ->.
  { rewrite <- (app_nil_r (hex_encode 8 v)). rewrite utf8_valid_ascii; [done|].
    eapply Forall_impl; [exact HF|]. intros c [_ Hc]. exact Hc. }
  destruct (hex_encode 8 v) as [|c r] eqn:El; [done|]. unfold from_hex.
  apply Forall_cons in HF as [[Hc _] _]. rewrite (proj2 (Z.eqb_neq _ _)) by lia. exact E.
Qed.

(** ** Finding files in archives *)
Lemma align4_spec v : 0 ≤ v < 2 ^ 63 → align4 v = Ret (v + (- v) mod 4).
Proof.
  change (2 ^ 63) with 9223372036854775808. intros Hv. unfold align4. rewrite u64_add_ok by lia. exec_simpl.
  change 3 with (2 ^ 2 - 1) at 2. rewrite land_not_ones by (unfold is_u64; lia). f_equal.
  change (2 ^ 2) with 4. dlia.
Qed.

Lemma slice_app (pre l : list Z) a n : 0 ≤ a → slice (pre ++ l) (length pre + a) n = slice l a n.
Proof.
  intros Ha. unfold slice. f_equal. replace (Z.to_nat (length pre + a)) with (length pre + Z.to_nat a)%nat by lia.
  rewrite <- drop_drop. by rewrite drop_app_length.
Qed.

(** The field after the bytes [a] in [a ++ x ++ r]. *)
Lemma slice_field (a x r : list Z) n k : (length a : Z) = n → (length x : Z) = k → slice (a ++ x ++ r) n k = x.
Proof.
  intros <- <-. unfold slice. rewrite !Nat2Z.id, drop_app_length. by rewrite take_app_length.
Qed.

Definition header (f : cpio_file) : list Z :=
  MAGIC_1 ++ c_h1 f ++ hex_encode 8 (length (c_data f)) ++ c_h2 f ++ hex_encode 8 (length (c_name f) + 1) ++ c_h3 f.

Lemma header_length f : file_ok f → length (header f) = 110%nat.
Proof. intros (H1 & H2 & H3 & _). unfold header. rewrite !length_app, !hex_encode_length, H1, H2, H3. reflexivity. Qed.

Lemma entry_split f : entry_bytes f =
  header f ++ c_name f ++ [0] ++ pad4 (110 + length (c_name f) + 1) ++ c_data f ++ pad4 (length (c_data f)) ∨ ¬ file_ok f.
Proof.
  destruct (decide (length (header f) = 110%nat)) as [E|E]; [|right; intros H; by apply E, header_length].
  left. unfold entry_bytes, cpio_entry. fold (header f). rewrite !length_app, E. cbn [length].
  rewrite <- !app_assoc. by rewrite Nat.add_assoc.
Qed.

Lemma entry_length f : file_ok f →
  (length (entry_bytes f) : Z) = 111 + length (c_name f) + (- (111 + length (c_name f))) mod 4 +
    length (c_data f) + (- length (c_data f)) mod 4.
Proof.
  intros Hf. destruct (entry_split f) as [->|]; [|done]. unfold pad4.
  rewrite !length_app, !length_replicate, header_length by done. cbn [length].
  replace (- (110 + length (c_name f) + 1)%nat) with (- (111 + length (c_name f))) by lia.
  pose proof (Z.mod_pos_bound (- (111 + length (c_name f))) 4). pose proof (Z.mod_pos_bound (- length (c_data f)) 4).
  lia.
Qed.

Lemma entry_aligned f : file_ok f → (length (entry_bytes f) : Z) mod 4 = 0.
Proof. intros Hf. rewrite entry_length by done. dlia. Qed.

(** One turn of the loop at an entry. *)
Lemma cpio_step fuel pre f rest path : file_ok f → (length pre : Z) mod 4 = 0 →
  length (pre ++ entry_bytes f ++ rest) < 2 ^ 62 →
  cpio_loop (S fuel) (pre ++ entry_bytes f ++ rest) path (length pre) =
    if bool_decide (c_name f = TRAILER) then Ret None
    else if bool_decide (c_name f = path) || bool_decide (c_name f = trim_start SLASH path) then Ret (Some (c_data f))
    else cpio_loop fuel (pre ++ entry_bytes f ++ rest) path (length (pre ++ entry_bytes f)).
Proof.
  change (2 ^ 62) with 4611686018427387904. intros Hf Hal Hlen. pose proof (entry_length f Hf) as HE.
  pose proof (Z.mod_pos_bound (- (111 + length (c_name f))) 4). pose proof (Z.mod_pos_bound (- length (c_data f)) 4).
  pose proof (header_length f Hf) as HH.
  pose proof Hf as (H1 & H2 & H3 & H4 & H5 & H6). rewrite !length_app in Hlen. cbn [cpio_loop].
  rewrite u64_add_ok by lia. exec_simpl. rewrite (proj2 (Z.ltb_ge _ _)) by (rewrite !length_app; lia).
  destruct (entry_split f) as [Es|]; [|done].
  assert (Hsl : ∀ a n, 0 ≤ a → slice (pre ++ entry_bytes f ++ rest) (length pre + a) n = slice (entry_bytes f ++ rest) a n)
    by (intros; by apply slice_app).
  assert (slice (pre ++ entry_bytes f ++ rest) (length pre) 6 = MAGIC_1) as ->.
  { rewrite <- (Z.add_0_r (length pre)), Hsl, Es by lia. unfold header. rewrite <- !app_assoc. by apply (slice_field []). }
  rewrite (bool_decide_true (MAGIC_1 = MAGIC_1)) by done. cbn [negb andb]. rewrite !Hsl by lia.
  assert (∃ t, slice (entry_bytes f ++ rest) 94 8 = hex_encode 8 (length (c_name f) + 1) ++ t) as [t1 ->].
  { exists []. rewrite app_nil_r, Es. unfold header. rewrite <- !app_assoc.
    rewrite (app_assoc MAGIC_1), (app_assoc (MAGIC_1 ++ _)), (app_assoc ((MAGIC_1 ++ _) ++ _)).
    apply slice_field; rewrite ?length_app, ?hex_encode_length, ?H1, ?H2; done. }
  assert (∃ t, slice (entry_bytes f ++ rest) 54 8 = hex_encode 8 (length (c_data f)) ++ t) as [t2 ->].
  { exists []. rewrite app_nil_r, Es. unfold header. rewrite <- !app_assoc. rewrite (app_assoc MAGIC_1).
    apply slice_field; rewrite ?length_app, ?hex_encode_length, ?H1; done. }
  rewrite !parse_hex8_encode by lia. rewrite u64_add_ok by lia. exec_simpl.
  rewrite (proj2 (Z.ltb_ge _ _)) by (rewrite !length_app; lia).
  replace (Z.max 0 (length pre + 110 + (length (c_name f) + 1) - 1)) with (length pre + 110 + length (c_name f)) by lia.
  unfold assert_. rewrite (proj2 (Z.leb_le _ _)) by lia. exec_simpl.
  replace (length pre + 110 + length (c_name f) - (length pre + 110)) with (length (c_name f) : Z) by lia.
  assert (slice (entry_bytes f ++ rest) 110 (length (c_name f)) = c_name f) as Hnm.
  { rewrite Es, <- !app_assoc. apply slice_field; [by rewrite HH|done]. }
  rewrite Hsl, Hnm, H6 by lia.
  rewrite align4_spec by (change (2 ^ 63) with 9223372036854775808; lia). exec_simpl.
  replace ((- (length pre + 110 + (length (c_name f) + 1))) mod 4) with ((- (111 + length (c_name f))) mod 4)
    by (clear -Hal; dlia).
  set (p1 := (- (111 + length (c_name f))) mod 4) in *. rewrite u64_add_ok by lia. exec_simpl.
  destruct (bool_decide (c_name f = TRAILER)); [done|].
  rewrite (proj2 (Z.leb_le _ _)) by (rewrite !length_app; lia). rewrite andb_true_r.
  destruct (_ || _).
  - do 2 f_equal. rewrite <- !Z.add_assoc. rewrite Hsl by lia. rewrite Es, <- !app_assoc.
    rewrite (app_assoc (header f)), (app_assoc (header f ++ _)), (app_assoc ((header f ++ _) ++ _)).
    apply slice_field; [|lia]. rewrite !length_app, HH. unfold pad4. rewrite length_replicate. cbn [length].
    replace (- (110 + length (c_name f) + 1)%nat) with (- (111 + length (c_name f))) by lia. fold p1. lia.
  - rewrite align4_spec by (change (2 ^ 63) with 9223372036854775808; lia). exec_simpl. f_equal.
    rewrite length_app, Nat2Z.inj_add, HE. fold p1.
    replace ((- (length pre + 110 + (length (c_name f) + 1) + p1 + length (c_data f))) mod 4)
      with ((- length (c_data f)) mod 4) by (unfold p1; clear -Hal; dlia). lia.
Qed.

Lemma trim_start_idem (c : Z) (l : str) : trim_start c (trim_start c l) = trim_start c l.
Proof.
  induction l as [|x l IH]; [done|]. simpl. destruct (x =? c) eqn:E; [done|]. simpl. by rewrite E.
Qed.

Lemma cpio_loop_archive tr p fs : file_ok tr → c_name tr = TRAILER → trim_start SLASH p = p →
  Forall (λ f, file_ok f ∧ c_name f ≠ TRAILER) fs → ∀ pre fuel,
  (length pre : Z) mod 4 = 0 → length (pre ++ archive fs tr) < 2 ^ 62 → (length fs < fuel)%nat →
  cpio_loop fuel (pre ++ archive fs tr) p (length pre) = Ret (cpio_lookup fs p).
Proof.
  intros Htr Ht Hp. induction 1 as [|f fs [Hf Hn] _ IH]; intros pre fuel Hal Hlen Hfu;
    (destruct fuel as [|fuel]; [simpl in Hfu; lia|]); unfold archive in *; cbn [fmap list_fmap concat app] in *.
  - rewrite <- (app_nil_r (entry_bytes tr)) in *. rewrite cpio_step by done. by rewrite bool_decide_true.
  - rewrite <- app_assoc in *. rewrite cpio_step by done. rewrite bool_decide_false, Hp, orb_diag by done.
    unfold cpio_lookup in *. cbn [list_find]. destruct (decide (c_name f = p)) as [->|Hne].
    + by rewrite bool_decide_true.
    + rewrite bool_decide_false by done. rewrite app_assoc.
      rewrite (IH (pre ++ entry_bytes f)).
      * by destruct (list_find _ fs) as [[]|].
      * rewrite length_app, Nat2Z.inj_add. pose proof (entry_aligned f Hf). clear -Hal H. dlia.
      * by rewrite <- app_assoc.
      * simpl in Hfu. lia.
Qed.

Lemma archive_length fs tr : Forall (λ f, file_ok f ∧ c_name f ≠ TRAILER) fs → file_ok tr →
  (length fs < length (archive fs tr))%nat.
Proof.
  intros Hfs Htr. unfold archive. rewrite length_app.
  assert (Hpos : ∀ f, file_ok f → (0 < length (entry_bytes f))%nat).
  { intros f Hf. pose proof (entry_length f Hf) as E. pose proof (Z.mod_pos_bound (- (111 + length (c_name f))) 4).
    pose proof (Z.mod_pos_bound (- length (c_data f)) 4). lia. }
  enough (length fs ≤ length (concat (entry_bytes <$> fs)))%nat by (pose proof (Hpos tr Htr); lia).
  clear Htr. induction Hfs as [|f fs [Hf _] _ IH]; [done|]. cbn [fmap list_fmap concat length].
  rewrite length_app. pose proof (Hpos f Hf). lia.
Qed.

(** ** Main theorem *)

(** looking a path up in a well-formed archive gives the data of the first
    file whose name is the path without its leading slashes, and nothing when
    the archive has no such file. *)
Theorem find_in_cpio_correct fs tr path :
  Forall (λ f, file_ok f ∧ c_name f ≠ TRAILER) fs → file_ok tr → c_name tr = TRAILER →
  utf8_valid path = true → length (archive fs tr) < 2 ^ 62 →
  find_in_cpio (archive fs tr) path = Ret (cpio_lookup fs (trim_start SLASH path)).
Proof.
  intros Hfs Htr Ht Hu Hlen. unfold find_in_cpio. rewrite Hu.
  apply (cpio_loop_archive tr (trim_start SLASH path) fs Htr Ht (trim_start_idem _ _) Hfs []); [done|done|].
  by apply archive_length.
Qed.

(** The path [execve] reads from user memory keeps its terminating zero, so the
    archive is searched for a name that no file has. *)
Lemma execve_path_not_found fs tr path :
  Forall (λ f, file_ok f ∧ c_name f ≠ TRAILER) fs → file_ok tr → c_name tr = TRAILER →
  utf8_valid (path ++ [0]) = true → length (archive fs tr) < 2 ^ 62 →
  Forall (λ f, (0 : Z) ∉ c_name f) fs →
  find_in_cpio (archive fs tr) (path ++ [0]) = Ret None.
Proof.
  intros Hfs Htr Ht Hu Hlen Hz. unfold find_in_cpio. rewrite Hu.
  assert (Hin : (0 : Z) ∈ trim_start SLASH (path ++ [0])).
  { clear. induction path as [|x l IH]; simpl; [by apply list_elem_of_singleton|].
    destruct (x =? SLASH); [done|]. apply list_elem_of_further, elem_of_app. right. by apply list_elem_of_singleton. }
  rewrite (cpio_loop_archive tr (trim_start SLASH (path ++ [0])) fs Htr Ht (trim_start_idem _ _) Hfs []); [|done|done|].
  - unfold cpio_lookup. destruct (list_find _ fs) as [[i f]|] eqn:E; [|done].
    apply list_find_Some in E as (Hi & E & _). apply (Forall_lookup_1 _ _ _ _ Hz) in Hi. by rewrite <- E in Hin.
  - by apply archive_length.
Qed.

(** ** Witness: an archive with [init] and [bin/sh] *)
Definition demo_file (nm data : list Z) : cpio_file := {|
  c_h1 := replicate 48 48; c_h2 := replicate 32 48; c_h3 := replicate 8 48; c_name := nm; c_data := data |}.

Lemma demo_file_ok nm data : (length nm < 100)%nat → (length data < 100)%nat → utf8_valid nm = true →
  file_ok (demo_file nm data).
Proof. intros. unfold file_ok. simpl. split_and!; try done; lia. Qed.

Definition demo_files : list cpio_file :=
  [demo_file [105; 110; 105; 116] [1; 2; 3]; demo_file [98; 105; 110; 47; 115; 104] [9; 8]].

Lemma demo_files_ok : Forall (λ f, file_ok f ∧ c_name f ≠ TRAILER) demo_files.
Proof.
  repeat apply Forall_cons_2; [..|apply Forall_nil_2]; (split; [apply demo_file_ok; simpl; (lia || done)|done]).
Qed.

Lemma find_in_cpio_correct_witness :
  find_in_cpio (archive demo_files (demo_file TRAILER [])) [47; 98; 105; 110; 47; 115; 104] =
    Ret (cpio_lookup demo_files [98; 105; 110; 47; 115; 104]) ∧
  cpio_lookup demo_files [98; 105; 110; 47; 115; 104] = Some [9; 8].
Proof.
  split; [|reflexivity].
  apply (find_in_cpio_correct demo_files (demo_file TRAILER []) [47; 98; 105; 110; 47; 115; 104]).
  - exact demo_files_ok.
  - apply demo_file_ok; simpl; (lia || done).
  - reflexivity.
  - reflexivity.
  - by vm_compute.
Defined.
