(* ===== verification/Execve.v ===== *)
(** The [execve] system call ([src/src/proc/exec.rs]): the arguments read from
    user memory, the executable found in the file system or the initial ramdisk,
    and the new image. *)
From S2P Require Import Prelude Machine Pmm Vmm Vma UserMem Effects Elf UserStack Clone Proc Fork Exec.
From S2P Require Import Text Vfs Ramfs Path Mount VfsProofs Initrd.

Section Execve.
Context {hh : Hhdm} {St I : Type} {ops : InodeOps St I}.
Context (KERNEL_PML4_PHYS : Z).
(** The static [INITRD]. *)
Context (INITRD : option (list Z)).
Implicit Types (s : mm) (rq : sched) (fs : St) (v : VfsContext I).

Definition lookup_and_read_file v (path : list Z) fs : exec (option (list Z) * St) :=
  if negb (utf8_valid path) then Ret (None, fs) else
  '(r, fs) ← read_file v (trim_end 0 path) fs;
  match r with
  | Ok data => Ret (Some data, fs)
  | Err _ =>
      match INITRD with
      | Some initrd => r ← find_in_cpio initrd path; Ret (r, fs)
      | None => Ret (None, fs)
      end
  end.

Definition ENAMETOOLONG := 36.

(** The system call returns a number, or the process enters its new image. *)
Inductive execve_outcome :=
  | ExecReturn (ret : Z) (s : mm) (rq : sched)
  | ExecEnter (ent rsp kst cr3 : Z) (s : mm) (rq : sched).

(** The result for an error of [exec]; the two system calls differ in the last
    case. *)
Definition execve_errno (too_long : Z) (e : ExecError) : Z :=
  match e with
  | NotFound => -2
  | Permission => -13
  | NoMemory => -12
  | NameTooLong => too_long
  | ElfErr _ | StackError => -22
  end.

Definition exec_result (too_long : Z) (o : exec_outcome) : execve_outcome :=
  match o with
  | ExecErr e s rq => ExecReturn (execve_errno too_long e) s rq
  | ExecJump ent rsp kst cr3 s rq => ExecEnter ent rsp kst cr3 s rq
  end.

Definition sys_execve v (pathname_ptr argv_ptr envp_ptr : Z) s rq fs : exec (execve_outcome * St) :=
  match current_process rq with
  | None => Ret (ExecReturn (-22) s rq, fs)
  | Some h =>
      p ← expect (procs rq !! h);
      let sp := address_space p in
      path ← read_user_string (ram s) sp pathname_ptr 4096;
      match path with
      | None => Ret (ExecReturn (-14) s rq, fs)
      | Some path =>
          argv ← read_user_string_array (ram s) sp argv_ptr 256;
          match argv with
          | None => Ret (ExecReturn (-14) s rq, fs)
          | Some argv =>
              envp ← read_user_string_array (ram s) sp envp_ptr 256;
              match envp with
              | None => Ret (ExecReturn (-14) s rq, fs)
              | Some envp =>
                  '(elf_data, fs) ← lookup_and_read_file v path fs;
                  match elf_data with
                  | None => Ret (ExecReturn (-2) s rq, fs)
                  | Some elf_data =>
                      o ← exec_ KERNEL_PML4_PHYS elf_data argv envp path s rq;
                      Ret (exec_result (- ENAMETOOLONG) o, fs)
                  end
              end
          end
      end
  end.

(** An unreadable vector is taken to be empty here. *)
Definition sys_execve_simple v (pathname argv_ptr envp_ptr : Z) s rq fs : exec (execve_outcome * St) :=
  match current_process rq with
  | None => Ret (ExecReturn (-22) s rq, fs)
  | Some h =>
      p ← expect (procs rq !! h);
      let sp := address_space p in
      path ← read_user_string_from (ram s) sp pathname 4096;
      match path with
      | None => Ret (ExecReturn (-14) s rq, fs)
      | Some path =>
          argv ← read_string_array (ram s) sp argv_ptr 256;
          envp ← read_string_array (ram s) sp envp_ptr 256;
          '(elf_data, fs) ← lookup_and_read_file v path fs;
          match elf_data with
          | None => Ret (ExecReturn (-2) s rq, fs)
          | Some elf_data =>
              o ← exec_ KERNEL_PML4_PHYS elf_data (default [] argv) (default [] envp) path s rq;
              Ret (exec_result (-22) o, fs)
          end
      end
  end.
End Execve.

(** ** Specifications *)
Section Specs.
Context {hh : Hhdm} (KERNEL_PML4_PHYS : Z) (INITRD : option (list Z)).
Implicit Types (s : mm) (rq : sched) (F : gset Z) (T : gmap (list Z) Z) (D : gmap Z (Z * Z)) (fs : ramfs) (v : VfsContext positive).

(** A terminated string of the process at [p]. *)
Definition user_string s D (p : Z) (str : list Z) : Prop :=
  holds s D p str (length str + 1) ∧ Forall text_byte str ∧ 0 < p ∧ p + length str + 1 ≤ 2 ^ 47.

(** A vector of strings, ended by a null pointer; none at address 0. *)
Definition user_vector s D (a : Z) (strs : list (list Z)) : Prop :=
  (a = 0 ∧ strs = []) ∨
  ∃ ptrs, a mod 8 = 0 ∧ 0 < a ∧ a + 8 * (length strs + 1) ≤ 2 ^ 47 ∧ length strs < 256 ∧
    (∀ (i : nat) w, (ptrs ++ [0]) !! i = Some w → holds s D (a + 8 * i) (to_le_bytes w) 8) ∧
    Forall2 (λ str p, user_string s D p str ∧ length str < 65536) strs ptrs.

(** Strings are handed on with their terminator. *)
Abbreviation terminated := (λ str : list Z, str ++ [0]).

Lemma user_vector_read co s F P T D a strs : uspace (pmm_inv co) s F P T D → user_vector s D a strs →
  read_user_string_array (ram s) {| pml4_phys := P |} a 256 = Ret (Some (terminated <$> strs)).
Proof.
  intros HU [[-> ->]|(ptrs & Ha & Ha0 & Hl & Hn & Hw & Hs)]; [done|].
  unfold read_user_string_array. rewrite (proj2 (Z.eqb_neq _ _)) by lia.
  apply (read_array_loop_spec (pmm_inv co) s F P T D a 256 strs ptrs); cbn [length]; try done; try lia.
  eapply Forall2_impl; [done|]. intros str p [(? & ? & ? & ?) ?]. by split_and!.
Qed.

Lemma trim_text path : Forall text_byte path → trim_end 0 (path ++ [0]) = path.
Proof.
  intros Ht. unfold trim_end. rewrite reverse_snoc. cbn [trim_start Z.eqb].
  destruct (reverse path) as [|x l] eqn:E; cbn [trim_start].
  - rewrite <- (reverse_involutive path), E. done.
  - assert (text_byte x) as [Hx _].
    { rewrite Forall_forall in Ht. apply Ht, elem_of_reverse. rewrite E. apply list_elem_of_here. }
    rewrite (proj2 (Z.eqb_neq x 0)) by lia. by rewrite <- E, reverse_involutive.
Qed.

(** The lookup of an ASCII path read from user memory is the file system's. *)
Lemma lookup_file v fs path i ino m data :
  Forall text_byte path → Forall (λ b, b < 128) path → ram_wf fs →
  vfs_resolve v path fs = Ret (Ok i, fs) → nodes fs !! i = Some (RamFile ino m data) →
  lookup_and_read_file INITRD v (path ++ [0]) fs = Ret (Some data, fs).
Proof.
  intros Ht Hb Hw Hr Hi. unfold lookup_and_read_file. rewrite utf8_valid_ascii by done. cbn [negb utf8_valid].
  rewrite trim_text by done. change (utf8_valid [0]) with true. cbn [negb].
  rewrite (read_file_spec v path fs i ino m data) by done. done.
Qed.

(** C15: [execve] with a readable ASCII path and readable argument and environment
    vectors, on a path that the file system resolves to a regular file with a
    static well-formed executable, and with enough free frames, enters the
    program of that file. The new address space holds its segments and an initial
    stack with the strings of the two vectors, each with its terminator; the page
    tables of the old image are free, and the file system is unchanged. *)
Theorem execve_correct co s F P T D rq h p fs v i ino m data eh path pptr argv aptr envp eptr :
  let base := if is_pie data then PIE_BASE else 0 in
  uspace (pmm_inv co) s F P T D → current rq = Some h → procs rq !! h = Some p →
  address_space p = {| pml4_phys := P |} → kernel_stack p + kernel_stack_size p < U64 →
  Pmm.node_ok KERNEL_PML4_PHYS → KERNEL_PML4_PHYS ≠ 0 → KERNEL_PML4_PHYS / PAGE_SIZE ∉ F →
  user_string s D pptr path → length path < 4096 → Forall (λ b, b < 128) path →
  user_vector s D aptr argv → user_vector s D eptr envp →
  ram_wf fs → vfs_resolve v path fs = Ret (Ok i, fs) → nodes fs !! i = Some (RamFile ino m data) →
  startable data base eh → stack_need (terminated <$> argv) (terminated <$> envp) (path ++ [0]) ≤ 0x10000 →
  exec_frames data eh base ≤ stdpp.base.size F →
  ∃ rsp q vm s' F' T' D',
    sys_execve_simple KERNEL_PML4_PHYS INITRD v pptr aptr eptr s rq fs =
      Ret (ExecEnter (e_entry eh + elf_slide eh base) rsp (kernel_stack p + kernel_stack_size p) q s'
        (with_proc (set_image {| pml4_phys := q |} vm (proc_name (path ++ [0]))) h rq), fs) ∧
    uspace (pmm_inv co) s' F' q T' D' ∧ tables T ⊆ F' ∧
    started data eh base (terminated <$> argv) (terminated <$> envp) (path ++ [0]) rsp s' D'.
Proof.
  intros base HU Hc Hp Hsp Hk HK HK0 HKF (Hs1 & Hs2 & Hs3 & Hs4) Hlen Hasc Hav Hev Hw Hr Hi Hsb Hneed Hfr.
  destruct (exec_spec KERNEL_PML4_PHYS co s F P T rq h p data eh (terminated <$> argv) (terminated <$> envp) (path ++ [0])
    ltac:(apply HU) Hc Hp Hsp Hk HK HK0 HKF Hsb Hneed Hfr)
    as (rsp & q & vm & s' & F' & T' & D' & E & HU' & Hst & HT & _).
  exists rsp, q, vm, s', F', T', D'. split; [|done].
  unfold sys_execve_simple, current_process, read_user_string_from, read_string_array. rewrite Hc, Hp. exec_simpl.
  rewrite Hsp, (read_user_string_spec (pmm_inv co) s F P T D pptr path) by done. exec_simpl.
  rewrite (user_vector_read co s F P T D aptr argv) by done. exec_simpl.
  rewrite (user_vector_read co s F P T D eptr envp) by done. exec_simpl.
  rewrite (lookup_file v fs path i ino m data) by done. exec_simpl. cbn [from_option id]. rewrite E. exec_simpl. done.
Qed.

(** A path in neither the file system nor an initial ramdisk is refused, and the
    process goes on as it was. *)
Lemma execve_missing co s F P T D rq h p fs v path pptr argv aptr envp eptr e :
  uspace (pmm_inv co) s F P T D → current rq = Some h → procs rq !! h = Some p →
  address_space p = {| pml4_phys := P |} → user_string s D pptr path → length path < 4096 →
  user_vector s D aptr argv → user_vector s D eptr envp → INITRD = None →
  read_file v path fs = Ret (Err e, fs) →
  sys_execve_simple KERNEL_PML4_PHYS INITRD v pptr aptr eptr s rq fs = Ret (ExecReturn (-2) s rq, fs).
Proof.
  intros HU Hc Hp Hsp (Hs1 & Hs2 & Hs3 & Hs4) Hlen Hav Hev Hini Hr.
  unfold sys_execve_simple, current_process, read_user_string_from, read_string_array. rewrite Hc, Hp. exec_simpl.
  rewrite Hsp, (read_user_string_spec (pmm_inv co) s F P T D pptr path) by done. exec_simpl.
  rewrite (user_vector_read co s F P T D aptr argv) by done. exec_simpl.
  rewrite (user_vector_read co s F P T D eptr envp) by done. exec_simpl.
  unfold lookup_and_read_file. rewrite Hini, trim_text, Hr by done. exec_simpl. by destruct (negb _).
Qed.
End Specs.

(** ** [/bin/hello] starts a copy of itself, named by its message *)
Section Demo.
#[local] Existing Instance qemu_hhdm.
Definition demo_path : list Z := [72; 101; 108; 108; 111; 33; 10].
Definition demo_files : ramfs := {|
  nodes := <[1%positive := RamDir 1 493 [(demo_path, 2%positive)]]> {[2%positive := RamFile 2 493 HELLO_ELF]};
  NEXT_INO := 3 |}.

Lemma demo_files_wf : ram_wf demo_files.
Proof.
  unfold ram_wf, demo_files. cbn [nodes]. apply map_Forall_insert_2; [|apply map_Forall_singleton].
  - split; [by repeat constructor|]. repeat constructor; by eexists.
  - by vm_compute.
Qed.

(** The program in memory: its message is a terminated string. *)
Lemma demo_loaded_space : ∃ s F T D, uspace (pmm_inv true) s F demo_P T D ∧ 200 ≤ stdpp.base.size F ∧
  ¬ (0x1000 / PAGE_SIZE ∈ F) ∧ user_string s D 0x4000A2 demo_path.
Proof.
  destruct (load_elf_spec (pmm_inv true) demo_P HELLO_ELF 0 (read_ehdr HELLO_ELF) demo_s demo_F {[ [] := demo_P ]} ∅
    VmSpace_new demo_uspace hello_wf) as (r & s1 & F1 & T1 & D1 & v1 & E1 & HX1 & Hr); [lia|].
  pose proof demo_F_size as Hsz.
  assert (Hphs : elf_phdrs HELLO_ELF (read_ehdr HELLO_ELF) = [read_phdr HELLO_ELF 64]) by reflexivity.
  destruct r as [l|e]; cbn [ok_or_oom] in Hr; rewrite Hphs in Hr; change (segs_frames _ _) with 4 in Hr; [|lia].
  destruct Hr as (Hs & [_ Him _ _ _ _ _]). exists s1, F1, T1, D1. split_and!; [apply HX1|lia| |].
  - intros Hf. destruct HX1 as [_ HF _]. assert (0x1000 / PAGE_SIZE ∈ demo_F ∪ tables {[ [] := demo_P ]} ∪ dframes ∅) as Hin
      by (apply HF, elem_of_union; left; by apply elem_of_union; left).
    rewrite tables_root, dframes_empty, !elem_of_union, elem_of_singleton in Hin.
    destruct Hin as [[Hin|Hin]|Hin]; [by apply kernel_root_free|by vm_compute in Hin|by apply not_elem_of_empty in Hin].
  - split_and!; [|repeat (constructor; [unfold text_byte; lia|]); constructor|lia|cbn [length demo_path]; lia].
    intros k Hk. rewrite (im_byte _ _ _ _ _ _ _ Him (read_phdr HELLO_ELF 64) (0x4000A2 + k)).
    + change (length demo_path + 1) with 8 in Hk.
      revert k Hk. refine (forall_below 8 _ _). cbn. repeat (constructor; [by vm_compute|]). constructor.
    + rewrite Hphs. apply list_elem_of_singleton. done.
    + split; [reflexivity|]. change (p_memsz _) with 169. lia.
    + change (length demo_path + 1) with 8 in Hk. unfold in_seg.
      change (seg_lo _ _) with 1024. change (seg_hi _ _) with 1025. dlia.
Qed.

Lemma execve_correct_witness :
  ∃ s rsp q vm s', sys_execve_simple 0x1000 None (VfsContext_new 1%positive) 0x4000A2 0 0 s demo_rq demo_files =
    Ret (ExecEnter (0x400078 + 0) rsp (0xFFFF800000000000 + KERNEL_STACK_SIZE) q s'
      (with_proc (set_image {| pml4_phys := q |} vm (proc_name (demo_path ++ [0]))) 1%positive demo_rq), demo_files).
Proof.
  destruct demo_loaded_space as (s & F & T & D & HU & Hsz & HK & Hstr).
  destruct (execve_correct 0x1000 None true s F demo_P T D demo_rq 1%positive (set_state Running demo_parent) demo_files
    (VfsContext_new 1%positive) 2%positive 2 493 HELLO_ELF (read_ehdr HELLO_ELF) demo_path 0x4000A2 [] 0 [] 0)
    as (rsp & q & vm & s' & F' & T' & D' & E & _).
  - exact HU.
  - reflexivity.
  - reflexivity.
  - reflexivity.
  - reflexivity.
  - split; [lia|reflexivity].
  - lia.
  - exact HK.
  - exact Hstr.
  - by vm_compute.
  - repeat constructor.
  - by left.
  - by left.
  - exact demo_files_wf.
  - reflexivity.
  - reflexivity.
  - exact hello_startable.
  - by vm_compute.
  - change (exec_frames _ _ _) with 69. lia.
  - exists s, rsp, q, vm, s'. exact E.
Defined.
End Demo.
