(* ===== verification/Keyboard.v ===== *)
(** Keyboard and serial input ([src/src/drivers/keyboard.rs], the input half of
    [src/src/drivers/serial.rs], the blocking read of
    [src/src/shell/readline.rs]): the ring buffer, scancode decoding, and the
    sleep and wake-up protocol with the scheduler. *)
From S2P Require Import Prelude Machine Pmm Vmm Vma Proc.

(** ** [KbBuffer] *)
Abbreviation KB_BUF_SIZE := 256 (only parsing).

Record KbBuffer := { buf : list Z; head : Z; tail : Z }.
Implicit Types (b : KbBuffer) (c sc : Z).

Definition KbBuffer_new : KbBuffer :=
  {| buf := replicate (Z.to_nat KB_BUF_SIZE) 0; head := 0; tail := 0 |}.

(** [self.buf[i] = c] and [self.buf[i]] panic out of range. *)
Definition buf_set (l : list Z) (i c : Z) : exec (list Z) :=
  if i <? length l then Ret (<[Z.to_nat i := c]> l) else Panic.
Definition buf_get (l : list Z) (i : Z) : exec Z := expect (l !! Z.to_nat i).

Definition push b c : exec KbBuffer :=
  let next := (head b + 1) mod KB_BUF_SIZE in
  if next =? tail b then Ret b
  else l ← buf_set (buf b) (head b) c; Ret {| buf := l; head := next; tail := tail b |}.

Definition pop b : exec (option Z * KbBuffer) :=
  if head b =? tail b then Ret (None, b)
  else c ← buf_get (buf b) (tail b);
       Ret (Some c, {| buf := buf b; head := head b; tail := (tail b + 1) mod KB_BUF_SIZE |}).

Definition is_empty b : bool := head b =? tail b.

(** ** Modifier keys and scancodes *)
Record Modifiers := { shift : bool; ctrl : bool; alt : bool; caps : bool }.

Definition SC_LSHIFT := 0x2A.
Definition SC_RSHIFT := 0x36.
Definition SC_LCTRL := 0x1D.
Definition SC_LALT := 0x38.
Definition SC_CAPS := 0x3A.
Definition SC_BREAK := 0x80.

(** Scancode set 1: the character of each key without modifiers, 0 for none. *)
Definition SCANCODE_MAP : list Z :=
  [0; 27; 49; 50; 51; 52; 53; 54; 55; 56; 57; 48; 45; 61; 8; 9; 113;
   119; 101; 114; 116; 121; 117; 105; 111; 112; 91; 93; 10; 0; 97; 115; 100;
   102; 103; 104; 106; 107; 108; 59; 39; 96; 0; 92; 122; 120; 99; 118; 98;
   110; 109; 44; 46; 47; 0; 42; 0; 32] ++ replicate 64 0.

Definition is_ascii_alphabetic c : bool :=
  (65 <=? c) && (c <=? 90) || (97 <=? c) && (c <=? 122).
Definition to_ascii_uppercase c : Z := if (97 <=? c) && (c <=? 122) then c - 32 else c.

(** The characters of [shifted_char] in the order of its arms. *)
Definition shifted_char c : Z :=
  match c with
  | 49 => 33 | 50 => 64 | 51 => 35 | 52 => 36 | 53 => 37 | 54 => 94 | 55 => 38
  | 56 => 42 | 57 => 40 | 48 => 41 | 45 => 95 | 61 => 43 | 91 => 123 | 93 => 125
  | 92 => 124 | 59 => 58 | 39 => 34 | 96 => 126 | 44 => 60 | 46 => 62 | 47 => 63
  | c => c
  end.

(** The statics [KB_BUF] and [MODS]. *)
Record kbd := { KB_BUF : KbBuffer; MODS : Modifiers }.
Implicit Types (k : kbd) (m : Modifiers) (rq : sched).

Definition set_mods k m : kbd := {| KB_BUF := KB_BUF k; MODS := m |}.
Definition set_buf k b : kbd := {| KB_BUF := b; MODS := MODS k |}.

(** The character a pressed key produces under the modifiers. *)
Definition translate_key m c0 : exec Z :=
  let c :=
    if is_ascii_alphabetic c0 then if xorb (shift m) (caps m) then to_ascii_uppercase c0 else c0
    else if shift m then shifted_char c0 else c0 in
  if ctrl m && is_ascii_alphabetic c then u64_sub (to_ascii_uppercase c) 64 else Ret c.

Definition push_char (s : kbd * sched) c : exec (kbd * sched) :=
  b ← push (KB_BUF s.1) c;
  Ret (set_buf s.1 b, wake_up_all_sleeping s.2).

Definition process_scancode (s : kbd * sched) sc : exec (kbd * sched) :=
  let '(k, rq) := s in
  let released := negb (Z.land sc SC_BREAK =? 0) in
  let sc_clean := Z.land sc 0x7F in
  let m := MODS k in
  let with_mods m := Ret (set_mods k m, rq) in
  if (sc_clean =? SC_LSHIFT) || (sc_clean =? SC_RSHIFT) then
    with_mods {| shift := negb released; ctrl := ctrl m; alt := alt m; caps := caps m |}
  else if sc_clean =? SC_LCTRL then
    with_mods {| shift := shift m; ctrl := negb released; alt := alt m; caps := caps m |}
  else if sc_clean =? SC_LALT then
    with_mods {| shift := shift m; ctrl := ctrl m; alt := negb released; caps := caps m |}
  else if (sc_clean =? SC_CAPS) && negb released then
    with_mods {| shift := shift m; ctrl := ctrl m; alt := alt m; caps := negb (caps m) |}
  else if released then Ret s
  else if sc_clean <? length SCANCODE_MAP then
    c0 ← buf_get SCANCODE_MAP sc_clean;
    if c0 =? 0 then Ret s
    else c ← translate_key m c0; push_char s c
  else Ret s.

Definition read_char (s : kbd * sched) : exec (option Z * (kbd * sched)) :=
  '(c, b) ← pop (KB_BUF s.1);
  Ret (c, (set_buf s.1 b, s.2)).

(** [irq_serial] with the bytes the UART holds. *)
Fixpoint irq_serial (s : kbd * sched) (bytes : list Z) : exec (kbd * sched) :=
  match bytes with
  | [] => Ret s
  | c :: bytes => s' ← push_char s c; irq_serial s' bytes
  end.

(** One turn of [wait_key] and of [read_char_blocking]. Interrupts are off from
    the look at the buffer to the switch away, so the turn is one step. *)
Definition wait_turn (s : kbd * sched) : exec (option Z * (kbd * sched) * transfer) :=
  '(c, s) ← read_char s;
  match c with
  | Some _ => Ret (c, s, Return_)
  | None => '(rq, t) ← sleep_current s.2; Ret (None, (s.1, rq), t)
  end.

(** ** The buffer as a bounded queue *)
Record kb_wf b : Prop := {
  kb_len : length (buf b) = 256%nat;
  kb_head : 0 ≤ head b < KB_BUF_SIZE;
  kb_tail : 0 ≤ tail b < KB_BUF_SIZE
}.

Definition pending b : Z := (head b - tail b) mod KB_BUF_SIZE.
Definition slot b (i : Z) : nat := Z.to_nat ((tail b + i) mod KB_BUF_SIZE).

(** The characters waiting, oldest first. *)
Definition contents b : list Z := (λ i, nth (slot b i) (buf b) 0) <$> seqZ 0 (pending b).

Lemma new_wf : kb_wf KbBuffer_new.
Proof. by split. Qed.

Lemma length_contents b : length (contents b) = Z.to_nat (pending b).
Proof. unfold contents. by rewrite length_fmap, length_seqZ. Qed.

Lemma pending_bound b : 0 ≤ pending b < KB_BUF_SIZE.
Proof. unfold pending. apply Z.mod_pos_bound. lia. Qed.

Lemma is_empty_contents b : kb_wf b → is_empty b = bool_decide (contents b = []).
Proof.
  intros [_ Hh Ht]. unfold is_empty. pose proof (length_contents b) as Hl. unfold pending in Hl.
  destruct (Z.eqb_spec (head b) (tail b)) as [E|E]; symmetry.
  - apply bool_decide_eq_true. rewrite E, Z.sub_diag in Hl. by apply nil_length_inv.
  - apply bool_decide_eq_false. intros Hn. rewrite Hn in Hl. simpl in Hl. dlia.
Qed.

Lemma kb_push_spec b c :
  kb_wf b →
  ∃ b', push b c = Ret b' ∧ kb_wf b' ∧
        contents b' = if decide (length (contents b) = 255%nat) then contents b else contents b ++ [c].
Proof.
  intros [Hl Hh Ht]. unfold push. pose proof (length_contents b) as Hlc. unfold pending in Hlc.
  destruct (Z.eqb_spec ((head b + 1) mod 256) (tail b)) as [E|E].
  { exists b. split; [done|]. split; [done|]. rewrite decide_True; [done|]. rewrite Hlc. dlia. }
  unfold buf_set. rewrite (proj2 (Z.ltb_lt _ _)) by lia. exec_simpl.
  eexists. split; [done|]. split.
  { split; cbn [buf head tail]; [by rewrite length_insert|apply Z.mod_pos_bound; lia|done]. }
  rewrite decide_False by (rewrite Hlc; dlia). unfold contents. cbn [buf].
  assert (Hp : pending {| buf := <[Z.to_nat (head b) := c]> (buf b); head := (head b + 1) mod 256; tail := tail b |}
               = pending b + 1) by (unfold pending; cbn [head tail]; dlia).
  rewrite Hp. pose proof (pending_bound b).
  rewrite seqZ_app, fmap_app by lia. f_equal.
  - apply list_fmap_ext. intros k i Hi. apply lookup_seqZ in Hi as [-> Hk]. unfold slot. cbn [tail].
    rewrite !nth_lookup. rewrite list_lookup_insert_ne; [done|]. unfold pending in *. dlia.
  - change (seqZ (0 + pending b) 1) with [0 + (0 + pending b)]. cbn [fmap list_fmap]. unfold slot. cbn [tail].
    replace (Z.to_nat ((tail b + (0 + (0 + pending b))) mod 256)) with (Z.to_nat (head b)) by (unfold pending; dlia).
    f_equal. rewrite nth_lookup, list_lookup_insert_eq by lia. done.
Qed.

Lemma kb_pop_spec b :
  kb_wf b →
  ∃ o b', pop b = Ret (o, b') ∧ kb_wf b' ∧ o = hd_error (contents b) ∧ contents b' = tl (contents b).
Proof.
  intros Hwf. pose proof Hwf as [Hl Hh Ht]. unfold pop. pose proof (is_empty_contents b Hwf) as He.
  unfold is_empty in He. rewrite He. case_bool_decide as Hc.
  { exists None, b. by rewrite Hc. }
  pose proof (pending_bound b). assert (Hp : 0 < pending b).
  { pose proof (length_contents b). destruct (contents b); [done|]. simpl in *. lia. }
  assert (Hcons : contents b = nth (Z.to_nat (tail b)) (buf b) 0 ::
            ((λ i, nth (slot b i) (buf b) 0) <$> seqZ 1 (pending b - 1))).
  { unfold contents. rewrite seqZ_cons by lia. cbn [fmap list_fmap]. f_equal.
    f_equal. unfold slot. rewrite Z.add_0_r, Z.mod_small; lia. }
  unfold buf_get. rewrite (list_lookup_lookup_total_lt (buf b)) by lia. exec_simpl.
  eexists _, _. split; [done|]. split.
  { split; cbn [buf head tail]; [done|done|apply Z.mod_pos_bound; lia]. }
  rewrite Hcons. cbn [hd_error tl]. split; [f_equal; by rewrite nth_lookup, list_lookup_lookup_total_lt by lia|].
  unfold contents. cbn [buf].
  assert (Hp' : pending {| buf := buf b; head := head b; tail := (tail b + 1) mod 256 |} = pending b - 1)
    by (unfold pending in *; cbn [head tail]; dlia).
  rewrite Hp'. replace (seqZ 1 (pending b - 1)) with (Z.add 1 <$> seqZ 0 (pending b - 1)) by apply fmap_add_seqZ.
  rewrite <- list_fmap_compose. apply list_fmap_ext. intros i x Hx.
  apply lookup_seqZ in Hx as [-> Hx]. simpl. unfold slot. cbn [tail]. f_equal. f_equal. dlia.
Qed.

(** A sequence of pushes and pops, with the answers of the pops. *)
Inductive kb_op := Push (c : Z) | Pop.

Fixpoint kb_run b (l : list kb_op) : exec (list (option Z) * KbBuffer) :=
  match l with
  | [] => Ret ([], b)
  | Push c :: l => b' ← push b c; kb_run b' l
  | Pop :: l => '(o, b') ← pop b; '(os, b'') ← kb_run b' l; Ret (o :: os, b'')
  end.

(** The same on a queue that drops what does not fit. *)
Fixpoint queue_run (q : list Z) (l : list kb_op) : list (option Z) * list Z :=
  match l with
  | [] => ([], q)
  | Push c :: l => queue_run (if decide (length q = 255%nat) then q else q ++ [c]) l
  | Pop :: l => let '(os, q') := queue_run (tl q) l in (hd_error q :: os, q')
  end.

Lemma kb_run_spec l : ∀ b,
  kb_wf b → ∃ b', kb_run b l = Ret ((queue_run (contents b) l).1, b') ∧ kb_wf b' ∧
                  contents b' = (queue_run (contents b) l).2.
Proof.
  induction l as [|[c|] l IH]; intros b Hwf; simpl; [eauto| |].
  - destruct (kb_push_spec b c Hwf) as (b1 & -> & Hwf1 & Hc). exec_simpl. rewrite <- Hc. by apply IH.
  - destruct (kb_pop_spec b Hwf) as (o & b1 & -> & Hwf1 & -> & Hc). exec_simpl.
    destruct (IH b1 Hwf1) as (b2 & -> & Hwf2 & Hc2). exec_simpl. rewrite <- Hc.
    destruct (queue_run (contents b1) l) as [os q]. eauto.
Qed.

(** ** Waking readers *)

(** Every sleeping process is known to the scheduler. *)
Definition sleepers_known rq : Prop := ∀ h p,
  procs rq !! h = Some p → state p = Sleeping → h ∈ members rq.
Definition none_sleeping rq : Prop := ∀ h p, procs rq !! h = Some p → state p ≠ Sleeping.

Lemma sleepers_schedule rq rq' t :
  sched_wf rq → sleepers_known rq → schedule rq = Ret (rq', t) → sleepers_known rq'.
Proof.
  intros Hwf Hs E. destruct (schedule_spec rq Hwf) as (t' & E' & _). rewrite E' in E. injection E as <- _.
  intros h p Hp Hst. rewrite after_pick_members. rewrite after_pick_lookup in Hp.
  assert (Hr : (requeue rq).1 !! h = Some p).
  { destruct (decide _); [|done]. apply fmap_Some_1 in Hp as (p0 & _ & ->). done. }
  clear Hp. pose proof Hr as Hr0. rewrite requeue_lookup in Hr. apply fmap_Some_1 in Hr as (p0 & Hp0 & ->).
  destruct (decide (current rq = Some h ∧ _)) as [|_]; [done|].
  specialize (Hs h p0 Hp0 Hst). unfold members, requeue in *. destruct (current rq) as [c|]; [|done].
  cbn [fst snd] in *. destruct (_ || _) eqn:Ed; [|apply elem_of_app; apply elem_of_cons in Hs as [->|]; [right; by left|by left]].
  apply elem_of_cons in Hs as [->|]; [|done]. exfalso.
  rewrite !(is_state_lookup _ _ _ _ Hr0), Hst in Ed. by rewrite !bool_decide_eq_false_2 in Ed.
Qed.

Lemma sleepers_with_current f rq :
  sched_inv rq → sleepers_known rq →
  sleepers_known (match current rq with Some h => with_proc f h rq | None => rq end).
Proof.
  intros _ Hs. destruct (current rq) as [c|] eqn:Hc; [|done]. intros h p Hp Hst.
  unfold members. cbn [with_proc set_procs current queue]. rewrite Hc. destruct (decide (c = h)) as [->|Hne]; [by left|].
  cbn [with_proc set_procs procs] in Hp. rewrite lookup_alter_ne in Hp by done. specialize (Hs h p Hp Hst).
  unfold members in Hs. by rewrite Hc in Hs.
Qed.

Lemma sleepers_woken rq ps' :
  sleepers_known rq → woken (procs rq) ps' → sleepers_known (set_procs rq ps').
Proof.
  intros Hs Hw h p Hp Hst. cbn [set_procs procs] in Hp. destruct (Hw h) as [E|(p0 & _ & _ & E)]; rewrite E in Hp.
  - by eapply Hs.
  - by injection Hp as <-.
Qed.

Lemma sleepers_step rq rq' : sched_inv rq → sleepers_known rq → step rq rq' → sleepers_known rq'.
Proof.
  intros HI Hs Hst. destruct Hst as [rq h p Hn Hr _|rq|rq rq' t E|rq rq' t E|rq rq' t E|rq rq' t code E|rq pd|rq].
  - intros x px Hpx Hsl. cbn [spawn set_queue set_procs procs] in Hpx.
    apply lookup_insert_Some in Hpx as [[<- <-]|[_ Hx]]; [congruence|].
    unfold members. cbn [spawn set_queue set_procs current queue]. rewrite app_assoc. apply elem_of_app. left. by eapply Hs.
  - done.
  - unfold tick in E. destruct (current rq) as [c|] eqn:Ec; [|by injection E as <- _].
    set (f p := if 0 <? time_slice p then set_slice (time_slice p - 1) p else p) in *.
    pose proof (sleepers_with_current f rq HI Hs) as Hs1.
    destruct (with_current_pre f rq HI) as (Hwf & _ & _); [intros p; unfold f; by destruct (0 <? time_slice p)..|].
    rewrite Ec in Hs1, Hwf. destruct (procs (with_proc f c rq) !! c) as [p|]; [|by injection E as <- _].
    destruct (time_slice p =? 0); [by eapply sleepers_schedule|by injection E as <- _].
  - destruct HI. by eapply sleepers_schedule.
  - destruct (with_current_pre (set_state Sleeping) rq HI) as (Hwf & _ & _); [done..|].
    eapply sleepers_schedule; [exact Hwf| |exact E]. by apply sleepers_with_current.
  - destruct (with_current_pre (λ p, set_exit_code code (set_state Dead p)) rq HI) as (Hwf & _ & _); [done..|].
    eapply sleepers_schedule; [exact Hwf| |exact E]. by apply sleepers_with_current.
  - apply sleepers_woken; [done|apply woken_first].
  - apply sleepers_woken; [done|].
    destruct (current rq); [|apply woken_all]. eapply woken_trans; [apply woken_all|apply woken_alter].
Qed.

Lemma woken_lookup (h : positive) q : ∀ (ps : gmap positive Process) p,
  foldl (λ ps h, alter wake h ps) ps q !! h = Some p → h ∈ q → state p ≠ Sleeping.
Proof.
  induction q as [|g q IH] using rev_ind; intros ps p; [by intros _ ?%elem_of_nil|].
  rewrite foldl_snoc, elem_of_app, list_elem_of_singleton. destruct (decide (g = h)) as [->|Hne].
  - rewrite lookup_alter_eq. intros (p0 & _ & ->)%fmap_Some_1 _. unfold wake. by case_decide.
  - rewrite lookup_alter_ne by done. intros Hp [Hh| ->]; [by eapply IH|done].
Qed.

Lemma wake_all_none rq : sleepers_known rq → none_sleeping (wake_up_all_sleeping rq).
Proof.
  intros Hs h p Hp Hst. unfold wake_up_all_sleeping in Hp. cbn [set_procs procs] in Hp.
  assert (Hk : h ∈ members rq).
  { assert (Hw : woken (procs rq) (procs (wake_up_all_sleeping rq))).
    { unfold wake_up_all_sleeping. cbn [set_procs procs].
      destruct (current rq); [|apply woken_all]. eapply woken_trans; [apply woken_all|apply woken_alter]. }
    destruct (Hw h) as [E|(p0 & _ & _ & E)]; unfold wake_up_all_sleeping in E; cbn [set_procs procs] in E;
      rewrite Hp in E; [by eapply Hs|by simplify_eq]. }
  unfold members in Hk. destruct (current rq) as [c|]; simpl in Hk.
  - destruct (decide (c = h)) as [->|Hne].
    + rewrite lookup_alter_eq in Hp. apply fmap_Some_1 in Hp as (p0 & _ & ->). revert Hst. unfold wake. by case_decide.
    + rewrite lookup_alter_ne in Hp by done. apply elem_of_cons in Hk as [->|Hk]; [done|].
      by eapply woken_lookup in Hst.
  - by eapply woken_lookup in Hst.
Qed.

(** ** The input system

    Interrupts deliver scancodes and serial bytes, readers take turns at the
    buffer, [sys_read] polls it, and the scheduler runs. Only readers go to
    sleep. *)
Implicit Types (s : kbd * sched).

Inductive input_step : kbd * sched → kbd * sched → Prop :=
  | InKey s sc s' : 0 ≤ sc < 256 → process_scancode s sc = Ret s' → input_step s s'
  | InSerial s bytes s' : irq_serial s bytes = Ret s' → input_step s s'
  | InRead s o s' t : wait_turn s = Ret (o, s', t) → input_step s s'
  | InPoll s o s' : read_char s = Ret (o, s') → input_step s s'
  | InSched k rq rq' :
      step rq rq' →
      (∀ h p, procs rq' !! h = Some p → state p = Sleeping →
         ∃ p0, procs rq !! h = Some p0 ∧ state p0 = Sleeping) →
      input_step (k, rq) (k, rq').

Definition no_mods : Modifiers := {| shift := false; ctrl := false; alt := false; caps := false |}.
Definition input_boot : kbd * sched := ({| KB_BUF := KbBuffer_new; MODS := no_mods |}, boot).

Record input_inv s : Prop := {
  ii_buf : kb_wf (KB_BUF s.1);
  ii_sched : sched_inv s.2;
  ii_known : sleepers_known s.2;
  ii_awake : contents (KB_BUF s.1) ≠ [] → none_sleeping s.2
}.

Lemma push_char_inv s c : input_inv s → ∃ s', push_char s c = Ret s' ∧ input_inv s'.
Proof.
  intros [Hb Hi Hk Ha]. destruct (kb_push_spec (KB_BUF s.1) c Hb) as (b' & E & Hb' & _).
  unfold push_char. rewrite E. exec_simpl. eexists. split; [done|]. split; cbn [fst snd set_buf KB_BUF].
  - done.
  - eapply step_inv; [done|constructor].
  - eapply sleepers_step; [done|done|constructor].
  - intros _. by apply wake_all_none.
Qed.

Lemma translate_key_ok m c : ∃ c', translate_key m c = Ret c'.
Proof.
  unfold translate_key. set (c1 := if is_ascii_alphabetic c then _ else _). clearbody c1.
  destruct (ctrl m && is_ascii_alphabetic c1) eqn:E; [|eauto].
  apply andb_true_iff in E as [_ E]. unfold is_ascii_alphabetic in E. rewrite u64_sub_ok; [eauto|].
  unfold to_ascii_uppercase.
  destruct (Z.leb_spec 65 c1), (Z.leb_spec c1 90), (Z.leb_spec 97 c1), (Z.leb_spec c1 122); simpl in *; try done; lia.
Qed.

(** Only the modifiers change. *)
Lemma mods_inv k rq m : input_inv (k, rq) → input_inv (set_mods k m, rq).
Proof. intros []. by split. Qed.

Lemma process_scancode_inv s sc :
  0 ≤ sc < 256 → input_inv s → ∃ s', process_scancode s sc = Ret s' ∧ input_inv s'.
Proof.
  intros Hsc Hi. destruct s as [k rq]. unfold process_scancode.
  repeat (case_match; [eexists; split; [done|]; first [by apply mods_inv|done]|]).
  case_match eqn:Hlt; [|eauto]. unfold buf_get.
  destruct (SCANCODE_MAP !! Z.to_nat (Z.land sc 127)) as [c0|] eqn:Ec; exec_simpl.
  - destruct (c0 =? 0); [eauto|]. destruct (translate_key_ok (MODS k) c0) as [c' ->]. exec_simpl.
    by apply push_char_inv.
  - exfalso. apply lookup_ge_None in Ec. apply Z.ltb_lt in Hlt.
    assert (0 ≤ Z.land sc 127) by (apply Z.land_nonneg; lia). lia.
Qed.

Lemma irq_serial_inv bytes : ∀ s, input_inv s → ∃ s', irq_serial s bytes = Ret s' ∧ input_inv s'.
Proof.
  induction bytes as [|c bytes IH]; intros s Hi; simpl; [eauto|].
  destruct (push_char_inv s c Hi) as (s1 & -> & Hi1). exec_simpl. by apply IH.
Qed.

Lemma read_char_inv s :
  input_inv s → ∃ s', read_char s = Ret (hd_error (contents (KB_BUF s.1)), s') ∧ input_inv s' ∧ s'.2 = s.2 ∧
    contents (KB_BUF s'.1) = tl (contents (KB_BUF s.1)).
Proof.
  intros [Hb Hi Hk Ha]. destruct (kb_pop_spec (KB_BUF s.1) Hb) as (o & b' & E & Hb' & -> & Hc).
  unfold read_char. rewrite E. exec_simpl. eexists. split; [done|]. cbn [fst snd set_buf KB_BUF].
  split; [|done]. split; cbn [fst snd set_buf KB_BUF]; [done..|].
  rewrite Hc. intros Hne. apply Ha. intros E'. by rewrite E' in Hne.
Qed.

Lemma wait_turn_inv s :
  input_inv s →
  ∃ s' t, wait_turn s = Ret (hd_error (contents (KB_BUF s.1)), s', t) ∧ input_inv s' ∧
    (contents (KB_BUF s.1) ≠ [] → s'.2 = s.2).
Proof.
  intros Hi. destruct (read_char_inv s Hi) as (s1 & E & Hi1 & Hs1 & Hc1). unfold wait_turn. rewrite E. exec_simpl.
  destruct (contents (KB_BUF s.1)) as [|c l] eqn:Hc; cbn [hd_error]; [|by exists s1, Return_].
  destruct (sleep_inv s1.2 (ii_sched _ Hi1)) as (rq' & t & Es & Hi').
  rewrite Es. exec_simpl. exists (s1.1, rq'), t. split; [done|]. split; [|done]. destruct Hi1. split; cbn [fst snd]; [done..| |].
  - eapply (sleepers_step s1.2); [done|done|by eapply StepSleep].
  - by rewrite Hc1.
Qed.

Lemma input_step_inv s s' : input_inv s → input_step s s' → input_inv s'.
Proof.
  intros Hi Hst. destruct Hst as [s sc s' Hsc E|s bytes s' E|s o s' t E|s o s' E|k rq rq' Hst Hnew].
  - destruct (process_scancode_inv s sc Hsc Hi) as (? & E' & ?). congruence.
  - destruct (irq_serial_inv bytes s Hi) as (? & E' & ?). congruence.
  - destruct (wait_turn_inv s Hi) as (? & ? & E' & ? & _). congruence.
  - destruct (read_char_inv s Hi) as (? & E' & ? & _). congruence.
  - destruct Hi as [Hb Hs Hk Ha]. split; cbn [fst snd] in *; [done|by eapply step_inv|by eapply sleepers_step|].
    intros Hne h p Hp Hst'. destruct (Hnew h p Hp Hst') as (p0 & Hp0 & Hs0). by eapply (Ha Hne).
Qed.

Lemma input_boot_inv : input_inv input_boot.
Proof. split; cbn [fst snd input_boot KB_BUF]; [apply new_wf|apply boot_inv|done|done]. Qed.

Lemma input_reachable s : rtc input_step input_boot s → input_inv s.
Proof.
  intros Hr. assert (Hi : input_inv input_boot) by apply input_boot_inv. revert Hi.
  induction Hr; eauto using input_step_inv.
Qed.

(** ** Properties *)

(** The ring buffer is a first-in first-out queue of 255 characters: any
    sequence of pushes and pops from the empty buffer runs without an index out
    of range, every pop answers what the queue answers, and a push into the
    full buffer drops the new character. *)
Theorem kb_fifo l :
  ∃ b, kb_run KbBuffer_new l = Ret ((queue_run [] l).1, b) ∧ contents b = (queue_run [] l).2.
Proof. destruct (kb_run_spec l KbBuffer_new new_wf) as (b & ? & _ & ?). by exists b. Qed.


Section Demo.
(** The key [a] pressed while shift is held. *)
Definition demo_input : kbd * sched :=
  match process_scancode input_boot 0x2A with
  | Ret s => match process_scancode s 0x1E with Ret s' => s' | _ => s end
  | _ => input_boot
  end.

End Demo.
