(* ===== verification/Ports.v ===== *)
(** Port input and output ([src/src/arch/x86_64/io.rs]): the processor's [in]
    and [out] instructions, answered by the devices. *)
From S2P Require Import Prelude Effects.

Class Ports (D : Type) := {
  port_in8 : Z → D → Z * D;
  port_in16 : Z → D → Z * D;
  port_in32 : Z → D → Z * D;
  port_out8 : Z → Z → D → D;
  port_out16 : Z → Z → D → D;
  port_out32 : Z → Z → D → D
}.

Section Io.
Context {D : Type} {ports : Ports D}.

Definition inb (p : Z) : op D Z := λ d, let '(x, d') := port_in8 p d in Ret (Ok x, d').
Definition inw (p : Z) : op D Z := λ d, let '(x, d') := port_in16 p d in Ret (Ok x, d').
Definition inl (p : Z) : op D Z := λ d, let '(x, d') := port_in32 p d in Ret (Ok x, d').
Definition outb (p x : Z) : op D unit := λ d, Ret (Ok (), port_out8 p x d).
Definition outw (p x : Z) : op D unit := λ d, Ret (Ok (), port_out16 p x d).
Definition outl (p x : Z) : op D unit := λ d, Ret (Ok (), port_out32 p x d).
End Io.
