(* ===== verification/Serial.v ===== *)
(** The serial line driver ([src/src/drivers/serial.rs]) with the 16550 UART it
    programs. *)
From S2P Require Import Prelude Effects Ports.

Definition COM1 := 0x3F8.

(** The bytes that [write_str] sends for a string: a carriage return before
    every line feed. *)
Definition crlf (s : list Z) : list Z := concat ((λ b, if b =? 10 then [13; 10] else [b]) <$> s).

Section Driver.
Context {D : Type} {ports : Ports D}.

Definition serial_init : op D unit :=
  _ ← outb (COM1 + 1) 0x00;
  _ ← outb (COM1 + 3) 0x80;
  _ ← outb (COM1 + 0) 0x01;
  _ ← outb (COM1 + 1) 0x00;
  _ ← outb (COM1 + 3) 0x03;
  _ ← outb (COM1 + 2) 0xC7;
  _ ← outb (COM1 + 4) 0x0B;
  outb (COM1 + 1) 0x01.

Definition is_transmit_empty : op D bool :=
  v ← inb (COM1 + 5);
  mret (negb (Z.land v 0x20 =? 0)).

(** Each turn of the loop asks the device again; [fuel] bounds the turns. *)
Fixpoint wait_transmit (fuel : nat) : op D unit :=
  match fuel with
  | O => λ _, NoFuel
  | S fuel => e ← is_transmit_empty; if e : bool then mret () else wait_transmit fuel
  end.

Definition write_byte (fuel : nat) (b : Z) : op D unit :=
  _ ← wait_transmit fuel;
  outb COM1 b.

Fixpoint serial_write_str (fuel : nat) (s : list Z) : op D unit :=
  match s with
  | [] => mret ()
  | b :: s =>
      _ ← (if b =? 10 then write_byte fuel 13 else mret ());
      _ ← write_byte fuel b;
      serial_write_str fuel s
  end.
End Driver.

(** ** The UART

    [sending] is how many more times the line status will say that the
    transmitter is busy with a byte; the device takes a byte only when it is
    not. The registers at offsets 0 and 1 are the divisor while bit 7 of the line
    control register is set. [lost] counts bytes written to a busy transmitter. *)
Record uart := {
  ier : Z; lcr : Z; fcr : Z; mcr : Z; divisor_low : Z; divisor_high : Z;
  received : list Z; sending : nat; busy_for : nat → nat; sent : list Z; lost : nat
}.

Definition dlab (u : uart) : bool := Z.testbit (lcr u) 7.

Definition set_received (u : uart) (l : list Z) : uart := {|
  ier := ier u; lcr := lcr u; fcr := fcr u; mcr := mcr u; divisor_low := divisor_low u; divisor_high := divisor_high u;
  received := l; sending := sending u; busy_for := busy_for u; sent := sent u; lost := lost u |}.
Definition set_sending (u : uart) (n : nat) : uart := {|
  ier := ier u; lcr := lcr u; fcr := fcr u; mcr := mcr u; divisor_low := divisor_low u; divisor_high := divisor_high u;
  received := received u; sending := n; busy_for := busy_for u; sent := sent u; lost := lost u |}.

(** The transmitter is busy for [busy_for n] polls after the [n]-th byte. *)
Definition transmit (u : uart) (b : Z) : uart :=
  match sending u with
  | O => {| ier := ier u; lcr := lcr u; fcr := fcr u; mcr := mcr u; divisor_low := divisor_low u; divisor_high := divisor_high u;
            received := received u; sending := busy_for u (length (sent u)); busy_for := busy_for u; sent := sent u ++ [b]; lost := lost u |}
  | S _ => {| ier := ier u; lcr := lcr u; fcr := fcr u; mcr := mcr u; divisor_low := divisor_low u; divisor_high := divisor_high u;
            received := received u; sending := sending u; busy_for := busy_for u; sent := sent u; lost := S (lost u) |}
  end.

Definition set_reg (u : uart) (r x : Z) : uart := {|
  ier := if (r =? 1) && negb (dlab u) then x else ier u;
  lcr := if r =? 3 then x else lcr u;
  fcr := if r =? 2 then x else fcr u;
  mcr := if r =? 4 then x else mcr u;
  divisor_low := if (r =? 0) && dlab u then x else divisor_low u;
  divisor_high := if (r =? 1) && dlab u then x else divisor_high u;
  received := if (r =? 2) && Z.testbit x 1 then [] else received u;
  sending := sending u; busy_for := busy_for u; sent := sent u; lost := lost u |}.

Definition uart_out (p x : Z) (u : uart) : uart :=
  let r := p - 0x3F8 in
  if (r =? 0) && negb (dlab u) then transmit u x
  else if (0 <=? r) && (r <=? 4) then set_reg u r x
  else u.

Definition line_status (u : uart) : Z :=
  (match received u with [] => 0 | _ => 0x01 end) + (match sending u with O => 0x20 | S _ => 0 end).

Definition uart_in (p : Z) (u : uart) : Z * uart :=
  let r := p - 0x3F8 in
  if r =? 5 then (line_status u, set_sending u (pred (sending u)))
  else if (r =? 0) && negb (dlab u) then
    match received u with
    | [] => (0, u)
    | b :: l => (b, set_received u l)
    end
  else (0xFF, u).

#[global] Instance uart_ports : Ports uart := {
  port_in8 := uart_in;
  port_in16 _ u := (0xFFFF, u);
  port_in32 _ u := (0xFFFFFFFF, u);
  port_out8 := uart_out;
  port_out16 _ _ u := u;
  port_out32 _ _ u := u
}.

(** ** The driver on the device *)
Lemma line_status_bits u :
  (Z.land (line_status u) 0x20 =? 0) = negb (bool_decide (sending u = O)) ∧
  (Z.land (line_status u) 0x01 =? 0) = bool_decide (received u = []).
Proof. unfold line_status. by destruct (received u), (sending u). Qed.

Lemma wait_transmit_spec fuel u : (sending u < fuel)%nat → wait_transmit fuel u = Ret (Ok (), set_sending u 0).
Proof.
  revert u. induction fuel as [|fuel IH]; intros u Hf; [lia|]. cbn [wait_transmit]. unfold is_transmit_empty, inb. op_unfold.
  unfold port_in8, uart_ports, uart_in. change (COM1 + 5 - 0x3F8 =? 5) with true. cbv iota beta.
  destruct (line_status_bits u) as [-> _]. rewrite negb_involutive. destruct (sending u) as [|k] eqn:Es; cbn [bool_decide]; [done|].
  rewrite bool_decide_false by done. rewrite IH; [done|cbn; lia].
Qed.

(** Ready to send, with no wait of [fuel] polls or more *)
Definition ready (fuel : nat) (u : uart) : Prop := dlab u = false ∧ (sending u < fuel)%nat ∧ ∀ n, (busy_for u n < fuel)%nat.

(** What sending leaves alone *)
Definition same_line (u u' : uart) : Prop :=
  lcr u' = lcr u ∧ ier u' = ier u ∧ received u' = received u ∧ busy_for u' = busy_for u ∧ lost u' = lost u.

Lemma write_byte_spec fuel u b : ready fuel u → ∃ u', write_byte fuel b u = Ret (Ok (), u') ∧
  sent u' = sent u ++ [b] ∧ same_line u u' ∧ ready fuel u'.
Proof.
  intros (Hd & Hs & Hb). unfold write_byte. rewrite (op_bind_ok _ _ _ _ _ (wait_transmit_spec fuel u Hs)).
  eexists. split; [reflexivity|]. unfold port_out8, uart_ports, uart_out. change (COM1 - 0x3F8 =? 0) with true.
  unfold dlab in *. cbn [lcr set_sending]. rewrite Hd. cbn [andb negb]. unfold transmit. cbn. unfold same_line, ready, dlab. cbn. auto 10.
Qed.

Lemma same_line_trans u v w : same_line u v → same_line v w → same_line u w.
Proof. unfold same_line. intuition congruence. Qed.

Lemma serial_write_str_spec fuel s u : ready fuel u → ∃ u', serial_write_str fuel s u = Ret (Ok (), u') ∧
  sent u' = sent u ++ crlf s ∧ same_line u u' ∧ ready fuel u'.
Proof.
  revert u. induction s as [|b s IH]; intros u Hr; cbn [serial_write_str].
  { exists u. unfold crlf, same_line. cbn. rewrite app_nil_r. auto 10. }
  assert (H1 : ∃ u1, (if b =? 10 then write_byte fuel 13 else mret ()) u = Ret (Ok (), u1) ∧
    sent u1 = sent u ++ (if b =? 10 then [13] else []) ∧ same_line u u1 ∧ ready fuel u1).
  { destruct (b =? 10); [by apply write_byte_spec|]. exists u. rewrite app_nil_r. unfold same_line. auto 10. }
  destruct H1 as (u1 & E1 & S1 & L1 & R1). rewrite (op_bind_ok _ _ _ _ _ E1).
  destruct (write_byte_spec fuel u1 b R1) as (u2 & E2 & S2 & L2 & R2). rewrite (op_bind_ok _ _ _ _ _ E2).
  destruct (IH u2 R2) as (u3 & E3 & S3 & L3 & R3). exists u3. split; [done|]. split; [|eauto using same_line_trans].
  rewrite S3, S2, S1. unfold crlf. cbn [fmap list_fmap concat]. rewrite <- !app_assoc. destruct (Z.eqb_spec b 10) as [->|]; done.
Qed.

(** [init] leaves the line at divisor 1 (115200 baud), eight data bits, no
    parity, one stop bit, with the received-data interrupt and its gate on.
    Then, if the transmitter is never busy for [fuel] polls or more, [write_str]
    ends and the device has sent exactly the bytes of the string, in order, with
    a carriage return before every line feed: no byte is written to a busy
    transmitter, and what has been received stays. *)
Theorem serial_correct fuel u s : (sending u < fuel)%nat → (∀ n, (busy_for u n < fuel)%nat) →
  ∃ u1, serial_init u = Ret (Ok (), u1) ∧
    divisor_low u1 = 1 ∧ divisor_high u1 = 0 ∧ lcr u1 = 3 ∧ ier u1 = 1 ∧ mcr u1 = 0x0B ∧ received u1 = [] ∧ sent u1 = sent u ∧
    (∀ l, ∃ u2, serial_write_str fuel s (set_received u1 l) = Ret (Ok (), u2) ∧
      sent u2 = sent u ++ crlf s ∧ lost u2 = lost u ∧ received u2 = l).
Proof.
  intros Hs Hb. assert (E : ∃ u1, serial_init u = Ret (Ok (), u1) ∧
    divisor_low u1 = 1 ∧ divisor_high u1 = 0 ∧ lcr u1 = 3 ∧ ier u1 = 1 ∧ mcr u1 = 0x0B ∧ received u1 = [] ∧ sent u1 = sent u ∧
    sending u1 = sending u ∧ busy_for u1 = busy_for u ∧ lost u1 = lost u).
  { eexists. split; [reflexivity|]. cbn. done. }
  destruct E as (u1 & E & H1 & H2 & H3 & H4 & H5 & H6 & H7 & H8 & H9 & H10). exists u1. split; [exact E|]. split_and!; try done.
  intros l. assert (Hr : ready fuel (set_received u1 l)). { unfold ready, dlab. cbn. rewrite H3, H8, H9. auto. }
  destruct (serial_write_str_spec fuel s _ Hr) as (u2 & E2 & S2 & (L1 & _ & L3 & _ & L5) & R2). cbn in S2, L3, L5.
  exists u2. rewrite S2, H7, L5, H10. auto.
Qed.

Definition demo_uart : uart := {|
  ier := 0; lcr := 0x83; fcr := 0; mcr := 0; divisor_low := 12; divisor_high := 0;
  received := [7]; sending := 2; busy_for := λ n, Nat.modulo n 3; sent := []; lost := 0 |}.

Lemma serial_correct_witness : ∃ u1 u2, serial_init demo_uart = Ret (Ok (), u1) ∧
  serial_write_str 5 [104; 10] (set_received u1 [65; 66]) = Ret (Ok (), u2) ∧ sent u2 = [104; 13; 10].
Proof.
  destruct (serial_correct 5 demo_uart [104; 10]) as (u1 & E1 & _ & _ & _ & _ & _ & _ & _ & H).
  - cbn. lia.
  - intros n. cbn [demo_uart busy_for]. pose proof (Nat.mod_upper_bound n 3). lia.
  - destruct (H [65; 66]) as (u2 & E2 & S2 & _). exists u1, u2. split; [exact E1|]. split; [exact E2|exact S2].
Defined.
