(* ===== verification/Console.v ===== *)
(** What the kernel prints: the serial line and the framebuffer console together
    ([shell_print!] of [src/src/shell/mod.rs], [print_fmt] of
    [src/src/drivers/vga.rs] and [src/src/drivers/serial.rs]), and the kernel log
    ([src/src/drivers/logger.rs]). *)
From Stdlib Require Import String.
From S2P Require Import Prelude Machine Vga Serial Text.
Arguments lit s%_string.

(** The bytes the serial line has sent, and the screen with its memory. *)
Record console := { con_serial : list Z; con_scr : Screen; con_mem : mem }.
Implicit Types (c : console).

Definition serial_print (s : str) c : console :=
  {| con_serial := con_serial c ++ crlf s; con_scr := con_scr c; con_mem := con_mem c |}.
Definition put_screen c (x : Screen * mem) : console := {| con_serial := con_serial c; con_scr := x.1; con_mem := x.2 |}.

Section Console.
Context (FONT : list Z).

Definition vga_print (s : str) c : exec console :=
  x ← Vga.write_str FONT (con_scr c) (con_mem c) s; Ret (put_screen c x).

(** [shell_print!], the text formatted *)
Definition shell_print (s : str) c : exec console := vga_print s (serial_print s c).

Definition vga_clear c : exec console := x ← Vga.clear (con_scr c) (con_mem c); Ret (put_screen c x).
Definition vga_draw (bmp : Bitmap) c : exec console := x ← draw_bitmap (con_scr c) (con_mem c) bmp; Ret (put_screen c x).
End Console.

Definition vga_color (f b : Z) c : console := put_screen c (set_color (con_scr c) f b, con_mem c).

(** ** The log *)
Inductive Level := Error | Warn | Info | Debug | Trace.
#[global] Instance Level_eq_dec : EqDecision Level.
Proof. solve_decision. Defined.

Definition ESC : Z := 27.
Definition level_str (l : Level) : str :=
  match l with
  | Error => ESC :: lit "[31mERROR" ++ ESC :: lit "[0m"
  | Warn => ESC :: lit "[33m WARN" ++ ESC :: lit "[0m"
  | Info => ESC :: lit "[32m INFO" ++ ESC :: lit "[0m"
  | Debug => ESC :: lit "[34mDEBUG" ++ ESC :: lit "[0m"
  | Trace => ESC :: lit "[90mTRACE" ++ ESC :: lit "[0m"
  end.

(** [KernelLogger::log]; every level is at most [Trace], so all are enabled. *)
Definition log_line (l : Level) (target args : str) : str :=
  lit "[" ++ level_str l ++ lit "] " ++ target ++ lit ": " ++ args ++ [10].
Definition log_color (l : Level) (scr : Screen) : Screen :=
  match l with
  | Error | Warn => set_color scr (if decide (l = Error) then RED else YELLOW) BLACK
  | _ => set_color scr LIGHT_GRAY BLACK
  end.
Definition log (l : Level) (target args : str) c : console :=
  let c := serial_print (log_line l target args) c in
  put_screen c (log_color l (con_scr c), con_mem c).

(** ** What the user sees

    The screen shows the text terminal [t]. *)
Definition displays (FONT : list Z) c (t : term) : Prop :=
  ∃ scr, geom_ok scr ∧ con_scr c = with_cursor scr t ∧ shows FONT scr (con_mem c) (t_grid t) ∧ cursor_ok scr t.

(** The terminal after a text. *)
Definition typed c (s : str) (t : term) : term :=
  fold_left (term_put (rows (con_scr c)) (cols (con_scr c)) (fg (con_scr c)) (bg (con_scr c))) (visible false s) t.

(** The terminal after several. *)
Definition typed_all c (l : list str) (t : term) : term := fold_left (λ t s, typed c s t) l t.

(** The console after printing: the line has sent [out], the screen shows the
    texts [l], and geometry and colours are as before. *)
Record prints (FONT : list Z) (out : str) (l : list str) c (t : term) c' : Prop := {
  pr_serial : con_serial c' = con_serial c ++ out;
  pr_shows : displays FONT c' (typed_all c l t);
  pr_scr : con_scr c' = with_cursor (con_scr c) (typed_all c l t)
}.

Lemma typed_scr c c' t' s t : con_scr c' = with_cursor (con_scr c) t' → typed c' s t = typed c s t.
Proof. intros E. unfold typed. by rewrite E. Qed.

Lemma typed_all_scr c c' t' l t : con_scr c' = with_cursor (con_scr c) t' → typed_all c' l t = typed_all c l t.
Proof.
  intros E. unfold typed_all. revert t. induction l as [|s l IH]; intros t; [done|]. cbn [fold_left]. by rewrite (typed_scr c c' t').
Qed.

Lemma prints_refl FONT c t : displays FONT c t → prints FONT [] [] c t c.
Proof.
  intros Hd. split; [by rewrite app_nil_r|done|]. destruct Hd as (scr & _ & Es & _). by rewrite Es.
Qed.

Lemma prints_trans FONT o l c t c1 o' l' c2 :
  prints FONT o l c t c1 → prints FONT o' l' c1 (typed_all c l t) c2 → prints FONT (o ++ o') (l ++ l') c t c2.
Proof.
  intros [S1 D1 E1] [S2 D2 E2]. assert (Et : typed_all c (l ++ l') t = typed_all c1 l' (typed_all c l t)).
  { rewrite (typed_all_scr c c1 _ _ _ E1). unfold typed_all. by rewrite fold_left_app. }
  split; [by rewrite S2, S1, app_assoc|by rewrite Et|]. rewrite Et, E2, E1. done.
Qed.

Lemma serial_print_prints FONT s c t : displays FONT c t → prints FONT (crlf s) [] c t (serial_print s c).
Proof. intros Hd. destruct (prints_refl FONT c t Hd) as [_ D E]. by split. Qed.

Lemma vga_print_spec FONT s c t : length FONT = 4096%nat → displays FONT c t → Forall is_byte s →
  ∃ c', vga_print FONT s c = Ret c' ∧ prints FONT [] [s] c t c'.
Proof.
  intros HF (scr & Hg & Es & Hs & Hc) Hb. unfold vga_print.
  destruct (put_bytes_refines FONT HF scr s Hg Hb false (con_mem c) t Hs Hc) as (m' & E & Hs' & Hc' & _).
  unfold Vga.write_str. rewrite Es. cbn [base with_cursor set_pos]. pose proof (go_base _ Hg). rewrite (proj2 (Z.eqb_neq _ 0)) by lia.
  rewrite E. exec_simpl. assert (Et : typed_all c [s] t = fold_left (term_put (rows scr) (cols scr) (fg scr) (bg scr)) (visible false s) t).
  { unfold typed_all, typed. cbn [fold_left]. by rewrite Es. }
  eexists. split; [done|]. split; [by rewrite app_nil_r| |by rewrite Et, Es]. rewrite Et. exists scr. auto.
Qed.

Lemma shell_print_spec FONT s c t : length FONT = 4096%nat → displays FONT c t → Forall is_byte s →
  ∃ c', shell_print FONT s c = Ret c' ∧ prints FONT (crlf s) [s] c t c'.
Proof.
  intros HF Hd Hb. pose proof (serial_print_prints FONT s c t Hd) as P1.
  destruct (vga_print_spec FONT s (serial_print s c) t HF Hd Hb) as (c' & E & P2). exists c'. split; [exact E|].
  pose proof (prints_trans _ _ _ _ _ _ _ _ _ P1 P2) as P. by rewrite app_nil_r in P.
Qed.

Lemma vga_clear_spec FONT c t : length FONT = 4096%nat → displays FONT c t →
  ∃ c', vga_clear c = Ret c' ∧ con_serial c' = con_serial c ∧ displays FONT c' blank ∧ con_scr c' = with_cursor (con_scr c) blank.
Proof.
  intros HF (scr & Hg & Es & Hs & Hc). unfold vga_clear. rewrite Es.
  destruct (clear_spec FONT HF (with_cursor scr t) (con_mem c) (geom_set_pos _ _ _ Hg)) as (m' & E & Hs' & Hc' & _).
  rewrite E. exec_simpl. eexists. split; [done|]. split; [done|]. split; [|done]. exists scr. by split_and!.
Qed.

(** A log message goes out on the line only, but the colour of the screen
    changes with it. *)
Lemma log_spec FONT l target args c t : displays FONT c t →
  displays FONT (log l target args c) t ∧ con_mem (log l target args c) = con_mem c ∧
  fg (con_scr (log l target args c)) = (match l with Error => RED | Warn => YELLOW | _ => LIGHT_GRAY end).
Proof.
  intros (scr & Hg & Es & Hs & Hc). split; [|by destruct l]. destruct l; cbn [log];
    rewrite ?decide_True by done; rewrite ?decide_False by done; eexists (set_color scr _ _); unfold vga_color; cbn; rewrite Es; (split; [|split; [reflexivity|done]]).
  all: destruct Hg; split; cbn; auto; unfold RED, YELLOW, LIGHT_GRAY, BLACK; lia.
Qed.
