(* ===== verification/Pci.v ===== *)
(** The PCI bus scanner ([src/src/drivers/pci.rs]) with the configuration
    mechanism it drives: an address port that selects a register of a function
    and a data port that reads or writes it. *)
From Stdlib Require Import String.
From S2P Require Import Prelude Machine Effects Ports.

Definition CONFIG_ADDRESS := 0xCF8.
Definition CONFIG_DATA := 0xCFC.

Definition make_addr (bus dev func offset : Z) : Z :=
  Z.lor (Z.lor (Z.lor (Z.lor (Z.shiftl 1 31) (Z.shiftl bus 16)) (Z.shiftl dev 11)) (Z.shiftl func 8)) (Z.land offset 0xFC).

Record PciDevice := {
  bus : Z; dev : Z; func : Z;
  vendor_id : Z; device_id : Z;
  class : Z; subclass : Z; prog_if : Z; revision : Z;
  header_type : Z;
  bars : list Z; irq_line : Z; irq_pin : Z
}.

Definition class_name (d : PciDevice) : string :=
  match class d, subclass d with
  | 0x00, 0x01 => "VGA-Compatible (old)"
  | 0x01, 0x00 => "SCSI Bus Controller"
  | 0x01, 0x01 => "IDE Controller"
  | 0x01, 0x05 => "ATA Controller"
  | 0x01, 0x06 => "SATA/AHCI Controller"
  | 0x01, 0x08 => "NVMe Controller"
  | 0x01, _ => "Mass Storage Controller"
  | 0x02, 0x00 => "Ethernet Controller"
  | 0x02, 0x80 => "Network Controller"
  | 0x02, _ => "Network Controller"
  | 0x03, 0x00 => "VGA Compatible Controller"
  | 0x03, 0x01 => "XGA Controller"
  | 0x03, _ => "Display Controller"
  | 0x04, _ => "Multimedia Controller"
  | 0x05, _ => "Memory Controller"
  | 0x06, 0x00 => "Host Bridge"
  | 0x06, 0x01 => "ISA Bridge"
  | 0x06, 0x04 => "PCI-to-PCI Bridge"
  | 0x06, _ => "Bridge Device"
  | 0x07, _ => "Communication Controller"
  | 0x08, 0x00 => "PIC"
  | 0x08, 0x01 => "DMA Controller"
  | 0x08, 0x02 => "Timer"
  | 0x08, _ => "Generic System Peripheral"
  | 0x09, _ => "Input Device"
  | 0x0A, _ => "Docking Station"
  | 0x0B, _ => "Processor"
  | 0x0C, 0x00 => "FireWire Controller"
  | 0x0C, 0x03 => "USB Controller"
  | 0x0C, 0x05 => "SMBus"
  | 0x0C, _ => "Serial Bus Controller"
  | 0x0D, _ => "Wireless Controller"
  | 0x0F, _ => "Satellite Communication"
  | 0x10, _ => "Encryption Controller"
  | 0x11, _ => "Signal Processing Controller"
  | _, _ => "Unknown Device"
  end%string.

Definition is_ahci (d : PciDevice) : bool := (class d =? 0x01) && (subclass d =? 0x06) && (prog_if d =? 0x01).
Definition is_ide (d : PciDevice) : bool := (class d =? 0x01) && (subclass d =? 0x01).

(** [raw & !mask] of a [u64] *)
Definition clear_low (raw mask : Z) : Z := Z.land raw (u64_not mask).

(** An index beyond the six registers panics. *)
Definition bar_base (d : PciDevice) (n : Z) : exec Z :=
  raw ← expect (bars d !! Z.to_nat n);
  if Z.land raw 1 =? 0 then
    if Z.land (Z.shiftr raw 1) 0x3 =? 2 then
      if n + 1 <? 6 then
        up ← expect (bars d !! Z.to_nat (n + 1));
        Ret (Z.lor (Z.shiftl up 32) (clear_low raw 0xF))
      else Ret (clear_low raw 0xF)
    else Ret (clear_low raw 0xF)
  else Ret (clear_low raw 0x3).

Definition bar_is_io (d : PciDevice) (n : Z) : exec bool :=
  raw ← expect (bars d !! Z.to_nat n);
  Ret (negb (Z.land raw 1 =? 0)).

(** [find] on the list of devices the scan left *)
Definition find (pred : PciDevice → bool) (devices : list PciDevice) : option PciDevice := List.find pred devices.

Section Driver.
Context {D : Type} {ports : Ports D}.

Definition read_u32 (bus dev func offset : Z) : op D Z :=
  _ ← outl CONFIG_ADDRESS (make_addr bus dev func offset);
  inl CONFIG_DATA.

Definition write_u32 (bus dev func offset val : Z) : op D unit :=
  _ ← outl CONFIG_ADDRESS (make_addr bus dev func offset);
  outl CONFIG_DATA val.

(** [offset & !3] of a [u8] *)
Definition dword_of (offset : Z) : Z := Z.land offset 0xFC.

Definition read_u16 (bus dev func offset : Z) : op D Z :=
  dword ← read_u32 bus dev func (dword_of offset);
  mret (Z.shiftr dword (Z.land offset 2 * 8) mod 65536).

Definition read_u8 (bus dev func offset : Z) : op D Z :=
  dword ← read_u32 bus dev func (dword_of offset);
  mret (Z.shiftr dword (Z.land offset 3 * 8) mod 256).

Definition enable_bus_master (bus dev func : Z) : op D unit :=
  cmd ← read_u16 bus dev func 0x04;
  write_u32 bus dev func 0x04 (Z.lor cmd 0x0007).

(** The base address registers of a header type; those it does not have stay 0. *)
Definition read_bars (bus dev func header_type : Z) : op D (list Z) :=
  if header_type =? 0x00 then
    op_fold (λ bars i, bar ← read_u32 bus dev func (0x10 + i * 4); mret (<[Z.to_nat i := bar]> bars)) (seqZ 0 6) (replicate 6 0)
  else if header_type =? 0x01 then
    b0 ← read_u32 bus dev func 0x10;
    b1 ← read_u32 bus dev func 0x14;
    mret (<[1%nat := b1]> (<[0%nat := b0]> (replicate 6 0)))
  else mret (replicate 6 0).

Definition probe (bus dev func : Z) (found : list PciDevice) : op D (list PciDevice) :=
  id ← read_u32 bus dev func 0x00;
  let vendor_id := Z.land id 0xFFFF in
  if vendor_id =? 0xFFFF then mret found else
  let device_id := Z.shiftr id 16 in
  class_dword ← read_u32 bus dev func 0x08;
  let revision := Z.land class_dword 0xFF in
  let prog_if := Z.land (Z.shiftr class_dword 8) 0xFF in
  let subclass := Z.land (Z.shiftr class_dword 16) 0xFF in
  let class := Z.land (Z.shiftr class_dword 24) 0xFF in
  htype ← read_u8 bus dev func 0x0E;
  let header_type := Z.land htype 0x7F in
  bars ← read_bars bus dev func header_type;
  irq_dword ← read_u32 bus dev func 0x3C;
  let irq_line := Z.land irq_dword 0xFF in
  let irq_pin := Z.land (Z.shiftr irq_dword 8) 0xFF in
  mret (found ++ [{| bus := bus; dev := dev; func := func; vendor_id := vendor_id; device_id := device_id;
    class := class; subclass := subclass; prog_if := prog_if; revision := revision;
    header_type := header_type; bars := bars; irq_line := irq_line; irq_pin := irq_pin |}]).

Definition scan_dev (bus : Z) (found : list PciDevice) (dev : Z) : op D (list PciDevice) :=
  id ← read_u32 bus dev 0 0x00;
  if Z.land id 0xFFFF =? 0xFFFF then mret found else
  htype ← read_u8 bus dev 0 0x0E;
  let multi := negb (Z.land htype 0x80 =? 0) in
  found ← probe bus dev 0 found;
  if multi then op_fold (λ found func, probe bus dev func found) (seqZ 1 7) found else mret found.

Definition scan_bus (bus : Z) (found : list PciDevice) : op D (list PciDevice) :=
  op_fold (scan_dev bus) (seqZ 0 32) found.

(** The loop over the functions of the host controller; a missing one ends it. *)
Fixpoint scan_hosts (funcs : list Z) (found : list PciDevice) : op D (list PciDevice) :=
  match funcs with
  | [] => mret found
  | func :: funcs =>
      id ← read_u32 0 0 func 0x00;
      if Z.land id 0xFFFF =? 0xFFFF then mret found else
      found ← scan_bus func found;
      scan_hosts funcs found
  end.

(** The list that [init] stores in [DEVICES] *)
Definition init : op D (list PciDevice) :=
  htype ← read_u8 0 0 0 0x0E;
  if Z.land htype 0x80 =? 0 then scan_bus 0 [] else scan_hosts (seqZ 0 8) [].
End Driver.

(** ** The configuration mechanism

    Each function of a device has 256 bytes of registers; a function that is
    not there answers all ones. What a write does to the registers of a
    function is the device's own [wr]. *)
Record pci := { latch : Z; cfg : Z → Z → Z → mem }.

Definition field (a k n : Z) : Z := a / 2 ^ k mod 2 ^ n.

Section Bus.
Context (wr : mem → Z → Z → mem).

Definition cfg_read (s : pci) : Z :=
  if Z.testbit (latch s) 31
  then load_le 4 (cfg s (field (latch s) 16 8) (field (latch s) 11 5) (field (latch s) 8 3)) (field (latch s) 2 6 * 4)
  else 0xFFFFFFFF.

Definition cfg_write (s : pci) (v : Z) : pci :=
  if Z.testbit (latch s) 31
  then {| latch := latch s; cfg := λ b d f,
    if (b =? field (latch s) 16 8) && (d =? field (latch s) 11 5) && (f =? field (latch s) 8 3)
    then wr (cfg s b d f) (field (latch s) 2 6 * 4) v else cfg s b d f |}
  else s.

#[local] Instance pci_ports : Ports pci := {
  port_in8 _ s := (0xFF, s);
  port_in16 _ s := (0xFFFF, s);
  port_in32 p s := (if p =? 0xCF8 then latch s else if p =? 0xCFC then cfg_read s else 0xFFFFFFFF, s);
  port_out8 _ _ s := s;
  port_out16 _ _ s := s;
  port_out32 p x s :=
    if p =? 0xCF8 then {| latch := x; cfg := cfg s |} else if p =? 0xCFC then cfg_write s x else s
}.

(** The address of a function: eight bits of bus, five of device, three of
    function. *)
Definition is_bdf (b d f : Z) : Prop := 0 ≤ b < 256 ∧ 0 ≤ d < 32 ∧ 0 ≤ f < 8.

Lemma dword_of_eq o : 0 ≤ o < 256 → dword_of o = o / 4 * 4.
Proof.
  intros. unfold dword_of. change 0xFC with (Z.shiftl (Z.ones 6) 2). rewrite land_field by lia.
  rewrite (Z.mod_small (o / 2 ^ 2)) by dlia. change (2 ^ 2) with 4. lia.
Qed.

Lemma make_addr_eq b d f o : is_bdf b d f → 0 ≤ o < 256 →
  make_addr b d f o = 2 ^ 31 + b * 2 ^ 16 + d * 2 ^ 11 + f * 2 ^ 8 + o / 4 * 4.
Proof.
  intros (? & ? & ?) Ho. unfold make_addr. rewrite <- !Z.lor_assoc. fold (dword_of o). rewrite (dword_of_eq o Ho).
  rewrite (lor_shiftl f) by dlia. rewrite (lor_shiftl d) by dlia. rewrite (lor_shiftl b) by dlia. rewrite (lor_shiftl 1) by dlia.
  lia.
Qed.

Lemma make_addr_fields b d f o : is_bdf b d f → 0 ≤ o < 256 → let a := make_addr b d f o in
  Z.testbit a 31 = true ∧ field a 16 8 = b ∧ field a 11 5 = d ∧ field a 8 3 = f ∧ field a 2 6 * 4 = o / 4 * 4.
Proof.
  intros Hb Ho a. assert (Ea : a = 2 ^ 31 + b * 2 ^ 16 + d * 2 ^ 11 + f * 2 ^ 8 + o / 4 * 4) by by apply make_addr_eq.
  destruct Hb as (? & ? & ?). clearbody a. subst a. unfold field. change (2 ^ 31) with 2147483648 in *. split.
  { rewrite Z.testbit_true by lia. change (2 ^ 31) with 2147483648. dlia. }
  split_and!; dlia.
Qed.

(** The state the driver leaves: only the address port has changed. *)
Definition keeps {A} (e : op pci A) (c : Z → Z → Z → mem) (r : A) : Prop :=
  ∀ s, cfg s = c → ∃ s', e s = Ret (Ok r, s') ∧ cfg s' = c.

Lemma keeps_ret {A} c (r : A) : keeps (mret r) c r.
Proof. intros s Hs. by exists s. Qed.

Lemma keeps_bind {A B} (e : op pci A) (k : A → op pci B) c a r :
  keeps e c a → keeps (k a) c r → keeps (e ≫= k) c r.
Proof.
  intros He Hk s Hs. destruct (He s Hs) as (s1 & E1 & Hs1). destruct (Hk s1 Hs1) as (s2 & E2 & Hs2).
  exists s2. by rewrite (op_bind_ok _ _ _ _ _ E1).
Qed.

Lemma read_u32_keeps c b d f o : is_bdf b d f → 0 ≤ o < 256 →
  keeps (read_u32 b d f o) c (load_le 4 (c b d f) (o / 4 * 4)).
Proof.
  intros Hb Ho s <-. destruct (make_addr_fields b d f o Hb Ho) as (E1 & E2 & E3 & E4 & E5).
  exists {| latch := make_addr b d f o; cfg := cfg s |}. split; [|reflexivity]. unfold read_u32, outl, inl. op_unfold. cbn -[make_addr load_le Z.testbit field].
  unfold cfg_read. cbn -[make_addr load_le Z.testbit field]. by rewrite E1, E2, E3, E4, E5.
Qed.

(** ** What the scan finds *)

(** The registers of one function *)
Definition present (m : mem) : bool := negb (load_le 2 m 0 =? 0xFFFF).
Definition multi_function (m : mem) : bool := 128 <=? load8 m 14.

Definition describe (m : mem) (b d f : Z) : PciDevice := {|
  bus := b; dev := d; func := f;
  vendor_id := load_le 2 m 0; device_id := load_le 2 m 2;
  class := load8 m 11; subclass := load8 m 10; prog_if := load8 m 9; revision := load8 m 8;
  header_type := load8 m 14 mod 128;
  bars := (λ i, if i <? (match load8 m 14 mod 128 with 0 => 6 | 1 => 2 | _ => 0 end) then load_le 4 m (16 + 4 * i) else 0) <$> seqZ 0 6;
  irq_line := load8 m 60; irq_pin := load8 m 61 |}.

Lemma load_le_4 m a : load_le 4 m a = load8 m a + 256 * load8 m (a + 1) + 65536 * load8 m (a + 2) + 16777216 * load8 m (a + 3).
Proof. cbn [load_le]. replace (a + 1 + 1 + 1) with (a + 3) by lia. replace (a + 1 + 1) with (a + 2) by lia. lia. Qed.

Lemma load_le_2 m a : load_le 2 m a = load8 m a + 256 * load8 m (a + 1).
Proof. cbn [load_le]. lia. Qed.

Lemma load8_bound m a : 0 ≤ load8 m a < 256.
Proof. unfold load8. dlia. Qed.

(** The bytes of a register, as the code takes them out. *)
Lemma dword_bytes m a : let x := load_le 4 m a in
  Z.land x 0xFFFF = load_le 2 m a ∧ Z.shiftr x 16 = load_le 2 m (a + 2) ∧
  Z.land x 0xFF = load8 m a ∧ Z.land (Z.shiftr x 8) 0xFF = load8 m (a + 1) ∧
  Z.land (Z.shiftr x 16) 0xFF = load8 m (a + 2) ∧ Z.land (Z.shiftr x 24) 0xFF = load8 m (a + 3) ∧
  Z.shiftr x 16 mod 256 = load8 m (a + 2).
Proof.
  intros x. unfold x. rewrite load_le_4, !load_le_2. change 0xFFFF with (2 ^ 16 - 1). change 0xFF with (2 ^ 8 - 1).
  rewrite !land_ones_mod, !Z.shiftr_div_pow2 by lia. replace (a + 2 + 1) with (a + 3) by lia.
  pose proof (load8_bound m a). pose proof (load8_bound m (a + 1)). pose proof (load8_bound m (a + 2)). pose proof (load8_bound m (a + 3)).
  change (2 ^ 16) with 65536. change (2 ^ 8) with 256. change (2 ^ 24) with 16777216. split_and!; dlia.
Qed.

Lemma read_htype_keeps c b d f : is_bdf b d f → keeps (read_u8 b d f 0x0E) c (load8 (c b d f) 14).
Proof.
  intros Hb. unfold read_u8. change (dword_of 14) with 12. change (Z.land 14 3 * 8) with 16.
  eapply keeps_bind; [by apply (read_u32_keeps c b d f 12)|]. change (12 / 4 * 4) with 12.
  destruct (dword_bytes (c b d f) 12) as (_ & _ & _ & _ & _ & _ & ->). apply keeps_ret.
Qed.

Lemma read_bars_keeps c b d f : is_bdf b d f →
  keeps (read_bars b d f (load8 (c b d f) 14 mod 128)) c (bars (describe (c b d f) b d f)).
Proof.
  intros Hb. unfold read_bars. cbn [bars describe]. set (h := load8 _ _ mod 128).
  assert (0 ≤ h) by (unfold h; dlia). change (seqZ 0 6) with [0;1;2;3;4;5].
  destruct (Z.eqb_spec h 0) as [->|]; [|destruct (Z.eqb_spec h 1) as [->|]].
  - cbn [op_fold]. repeat (eapply keeps_bind; [eapply keeps_bind; [apply read_u32_keeps; [done|lia]|apply keeps_ret]|]).
    apply keeps_ret.
  - eapply keeps_bind; [apply read_u32_keeps; [done|lia]|]. eapply keeps_bind; [apply read_u32_keeps; [done|lia]|].
    apply keeps_ret.
  - replace (match h with 0 => 6 | 1 => 2 | _ => 0 end) with 0; [apply keeps_ret|].
    destruct h as [|[]|]; try done; lia.
Qed.

(** What one probe adds to the list *)
Definition probed (c : Z → Z → Z → mem) (b d f : Z) : list PciDevice :=
  if present (c b d f) then [describe (c b d f) b d f] else [].

Lemma absent_id m : (Z.land (load_le 4 m 0) 0xFFFF =? 0xFFFF) = negb (present m).
Proof. unfold present. destruct (dword_bytes m 0) as (-> & _). by rewrite negb_involutive. Qed.

Lemma probe_keeps c b d f l : is_bdf b d f → keeps (probe b d f l) c (l ++ probed c b d f).
Proof.
  intros Hb. unfold probe, probed. eapply keeps_bind; [by apply (read_u32_keeps c b d f 0)|]. change (0 / 4 * 4) with 0.
  rewrite absent_id. destruct (present (c b d f)); cbn [negb]; [|rewrite app_nil_r; apply keeps_ret].
  eapply keeps_bind; [by apply (read_u32_keeps c b d f 8)|]. change (8 / 4 * 4) with 8.
  eapply keeps_bind; [by apply read_htype_keeps|]. cbv zeta. change 0x7F with (2 ^ 7 - 1). rewrite land_ones_mod by lia.
  eapply keeps_bind; [by apply read_bars_keeps|]. eapply keeps_bind; [by apply (read_u32_keeps c b d f 0x3C)|].
  change (60 / 4 * 4) with 60. destruct (dword_bytes (c b d f) 0) as (-> & -> & _).
  destruct (dword_bytes (c b d f) 8) as (_ & _ & -> & -> & -> & -> & _). destruct (dword_bytes (c b d f) 60) as (_ & _ & -> & -> & _).
  apply keeps_ret.
Qed.

(** A loop that appends what each step finds. *)
Lemma keeps_collect {A X} (step : list X → A → op pci (list X)) (g : A → list X) c xs l :
  (∀ l x, x ∈ xs → keeps (step l x) c (l ++ g x)) → keeps (op_fold step xs l) c (l ++ (xs ≫= g)).
Proof.
  revert l. induction xs as [|x xs IH]; intros l H; cbn; [rewrite app_nil_r; apply keeps_ret|].
  eapply keeps_bind; [apply H; left|]. rewrite app_assoc. apply IH. intros. apply H. by right.
Qed.

(** A function other than the first is looked for on multi-function devices. *)
Definition found_funcs (c : Z → Z → Z → mem) (b d : Z) : list Z :=
  if present (c b d 0) then if multi_function (c b d 0) then seqZ 0 8 else [0] else [].
Definition found_on (c : Z → Z → Z → mem) (b : Z) : list PciDevice :=
  d ← seqZ 0 32; f ← found_funcs c b d; probed c b d f.

Lemma multi_bit m : (Z.land (load8 m 14) 0x80 =? 0) = negb (multi_function m).
Proof.
  pose proof (load8_bound m 14). change 0x80 with (Z.shiftl (Z.ones 1) 7). rewrite land_field by lia.
  unfold multi_function. change (2 ^ 7) with 128. change (2 ^ 1) with 2. destruct (Z.leb_spec 128 (load8 m 14)); cbn [negb]; [apply Z.eqb_neq|apply Z.eqb_eq]; dlia.
Qed.

Lemma scan_dev_keeps c b d l : 0 ≤ b < 256 → 0 ≤ d < 32 →
  keeps (scan_dev b l d) c (l ++ (found_funcs c b d ≫= probed c b d)).
Proof.
  intros Hb Hd. unfold scan_dev, found_funcs. eapply keeps_bind; [apply (read_u32_keeps c b d 0 0); [repeat split; lia|lia]|].
  change (0 / 4 * 4) with 0. rewrite absent_id. destruct (present (c b d 0)) eqn:Ep; cbn [negb]; [|rewrite app_nil_r; apply keeps_ret].
  eapply keeps_bind; [apply read_htype_keeps; repeat split; lia|]. rewrite multi_bit, negb_involutive.
  eapply keeps_bind; [apply probe_keeps; repeat split; lia|]. destruct (multi_function (c b d 0)).
  - change (seqZ 0 8) with (0 :: seqZ 1 7). rewrite bind_cons, app_assoc. apply (keeps_collect (λ found func, probe b d func found)).
    intros l' x Hx%elem_of_seqZ. apply probe_keeps. repeat split; lia.
  - cbn [mbind list_bind app]. rewrite app_nil_r. apply keeps_ret.
Qed.

Lemma scan_bus_keeps c b l : 0 ≤ b < 256 → keeps (scan_bus b l) c (l ++ found_on c b).
Proof.
  intros Hb. unfold scan_bus, found_on. apply keeps_collect. intros l' x Hx%elem_of_seqZ. apply scan_dev_keeps; lia.
Qed.

(** The buses scanned: that of each function of the host controller up to the
    first one missing. *)
Fixpoint host_funcs (c : Z → Z → Z → mem) (fs : list Z) : list Z :=
  match fs with
  | [] => []
  | f :: fs => if present (c 0 0 f) then f :: host_funcs c fs else []
  end.

Lemma scan_hosts_keeps c fs l : (∀ f, f ∈ fs → 0 ≤ f < 8) →
  keeps (scan_hosts fs l) c (l ++ (host_funcs c fs ≫= found_on c)).
Proof.
  revert l. induction fs as [|f fs IH]; intros l Hf; cbn [scan_hosts host_funcs]; [rewrite app_nil_r; apply keeps_ret|].
  pose proof (Hf f (list_elem_of_here _ _)).
  eapply keeps_bind; [apply (read_u32_keeps c 0 0 f 0); [repeat split; lia|lia]|]. change (0 / 4 * 4) with 0.
  rewrite absent_id. destruct (present (c 0 0 f)); cbn [negb]; [|rewrite app_nil_r; apply keeps_ret].
  eapply keeps_bind; [apply scan_bus_keeps; lia|]. rewrite bind_cons, app_assoc. apply IH. intros. apply Hf. by right.
Qed.

Definition host_buses (c : Z → Z → Z → mem) : list Z :=
  if multi_function (c 0 0 0) then host_funcs c (seqZ 0 8) else [0].

Lemma init_keeps c : keeps init c (host_buses c ≫= found_on c).
Proof.
  unfold init, host_buses. eapply keeps_bind; [apply read_htype_keeps; repeat split; lia|]. rewrite multi_bit.
  destruct (multi_function (c 0 0 0)); cbn [negb].
  - apply (scan_hosts_keeps c _ []). intros f Hf%elem_of_seqZ. lia.
  - rewrite bind_singleton. apply (scan_bus_keeps c 0 []). lia.
Qed.

(** A function that the scan must report. *)
Definition reachable (c : Z → Z → Z → mem) (b d f : Z) : Prop :=
  is_bdf b d f ∧ present (c b d f) = true ∧
  (f = 0 ∨ present (c b d 0) = true ∧ multi_function (c b d 0) = true) ∧
  (if multi_function (c 0 0 0) then b < 8 ∧ ∀ g, 0 ≤ g ≤ b → present (c 0 0 g) = true else b = 0).

Lemma elem_of_host_funcs c i n b : b ∈ host_funcs c (seqZ i n) ↔ i ≤ b < i + n ∧ ∀ g, i ≤ g ≤ b → present (c 0 0 g) = true.
Proof.
  destruct (decide (n < 0)). { replace (seqZ i n) with (@nil Z) by (symmetry; apply seqZ_nil; lia). cbn. rewrite elem_of_nil. lia. }
  rewrite <- (Z2Nat.id n) by lia. generalize (Z.to_nat n). clear n n0. intros n. revert i. induction n as [|n IH]; intros i.
  { cbn. rewrite elem_of_nil. lia. }
  rewrite seqZ_cons by lia. cbn [host_funcs]. replace (Z.pred (S n)) with (Z.of_nat n) by lia.
  destruct (present (c 0 0 i)) eqn:Ep.
  - rewrite elem_of_cons, IH. split.
    + intros [->|[Hb Hg]]; (split; [lia|]); intros g Hr; [by replace g with i by lia|].
      destruct (decide (g = i)) as [->|]; [done|apply Hg; lia].
    + intros [Hb Hg]. destruct (decide (b = i)); [by left|right]. split; [lia|]. intros. apply Hg. lia.
  - rewrite elem_of_nil. split; [done|]. intros [Hb Hg]. rewrite (Hg i) in Ep by lia. done.
Qed.

Lemma elem_of_found c p :
  p ∈ host_buses c ≫= found_on c ↔ ∃ b d f, reachable c b d f ∧ p = describe (c b d f) b d f.
Proof.
  assert (Hh : ∀ b, b ∈ host_buses c ↔ 0 ≤ b ∧
    (if multi_function (c 0 0 0) then b < 8 ∧ ∀ g, 0 ≤ g ≤ b → present (c 0 0 g) = true else b = 0)).
  { intros b. unfold host_buses. destruct (multi_function _); [rewrite elem_of_host_funcs|rewrite list_elem_of_singleton]; intuition lia. }
  assert (Hf : ∀ b d f, f ∈ found_funcs c b d ↔ 0 ≤ f < 8 ∧ present (c b d 0) = true ∧ (f = 0 ∨ multi_function (c b d 0) = true)).
  { intros b d f. unfold found_funcs. destruct (present (c b d 0)), (multi_function (c b d 0));
      rewrite ?elem_of_seqZ, ?list_elem_of_singleton, ?elem_of_nil; intuition (congruence || lia). }
  unfold found_on, probed. rewrite list_elem_of_bind. setoid_rewrite list_elem_of_bind. setoid_rewrite list_elem_of_bind.
  setoid_rewrite Hh. setoid_rewrite Hf. setoid_rewrite elem_of_seqZ. split.
  - intros (b & (d & (f & Hp & Hf') & Hd) & Hb). exists b, d, f. destruct (present (c b d f)) eqn:Ep; [|by apply elem_of_nil in Hp].
    apply list_elem_of_singleton in Hp. split; [|done]. unfold reachable, is_bdf.
    destruct Hb as [? Hb], Hf' as (? & ? & Hf'). split_and!; try done; try lia; [destruct (multi_function (c 0 0 0)); lia|tauto].
  - intros (b & d & f & ((? & ? & ?) & Hp & Hm & Hb) & ->). exists b. split; [|split; [lia|done]]. exists d. split; [|lia].
    exists f. rewrite Hp. split; [by apply list_elem_of_singleton|]. split; [lia|]. destruct Hm as [->|[]]; auto.
Qed.

Lemma found_nodup c : NoDup (host_buses c ≫= found_on c).
Proof.
  assert (Hbus : ∀ b p, p ∈ found_on c b → bus p = b).
  { intros b p (d & (f & Hp & _)%list_elem_of_bind & _)%list_elem_of_bind. unfold probed in Hp.
    destruct (present _); [|by apply elem_of_nil in Hp]. by apply list_elem_of_singleton in Hp as ->. }
  assert (Hdev : ∀ b d p, p ∈ found_funcs c b d ≫= probed c b d → dev p = d).
  { intros b d p (f & Hp & _)%list_elem_of_bind. unfold probed in Hp.
    destruct (present _); [|by apply elem_of_nil in Hp]. by apply list_elem_of_singleton in Hp as ->. }
  assert (Hfn : ∀ b d f p, p ∈ probed c b d f → func p = f).
  { intros b d f p Hp. unfold probed in Hp. destruct (present _); [|by apply elem_of_nil in Hp]. by apply list_elem_of_singleton in Hp as ->. }
  apply NoDup_bind.
  - intros b1 b2 p _ _ <-%Hbus <-%Hbus. done.
  - intros b _. apply NoDup_bind; [intros d1 d2 p _ _ <-%Hdev <-%Hdev; done| |apply NoDup_seqZ].
    intros d _. apply NoDup_bind; [intros f1 f2 p _ _ <-%Hfn <-%Hfn; done| |].
    + intros f _. unfold probed. destruct (present _); [apply NoDup_singleton|constructor].
    + unfold found_funcs. destruct (present _); [|constructor]. destruct (multi_function _); [apply NoDup_seqZ|apply NoDup_singleton].
  - unfold host_buses. destruct (multi_function _); [|apply NoDup_singleton]. change (seqZ 0 8) with [0;1;2;3;4;5;6;7].
    cbn [host_funcs]. repeat (destruct (present _); [|repeat constructor; set_solver]). repeat constructor; set_solver.
Qed.

(** ** Configuration writes *)

(** What the PCI standard says of a write to the command and status registers:
    command bits take the value written, a status bit is cleared by a one. *)
Definition command_ok : Prop := ∀ m v, 0 ≤ v < U32 →
  load_le 2 (wr m 4 v) 4 = v mod 65536 ∧
  load_le 2 (wr m 4 v) 6 = Z.ldiff (load_le 2 m 6) (v / 65536).

(** Bus mastering, memory and I/O decoding are switched on, every other command
    bit and the whole status register stay as they were, and no other function
    is written. *)
Lemma enable_bus_master_spec b d f s : command_ok → is_bdf b d f → ∃ s', enable_bus_master b d f s = Ret (Ok (), s') ∧
  load_le 2 (cfg s' b d f) 4 = Z.lor (load_le 2 (cfg s b d f) 4) 7 ∧
  load_le 2 (cfg s' b d f) 6 = load_le 2 (cfg s b d f) 6 ∧
  (∀ b' d' f', (b', d', f') ≠ (b, d, f) → cfg s' b' d' f' = cfg s b' d' f').
Proof.
  intros Hw Hb. set (m := cfg s b d f). destruct (make_addr_fields b d f 4 Hb) as (E1 & E2 & E3 & E4 & E5); [lia|].
  assert (Hr : keeps (read_u16 b d f 4) (cfg s) (load_le 2 m 4)).
  { unfold read_u16. change (dword_of 4) with 4. change (Z.land 4 2 * 8) with 0. eapply keeps_bind; [by apply (read_u32_keeps _ b d f 4)|].
    change (4 / 4 * 4) with 4. rewrite Z.shiftr_0_r. change 65536 with (2 ^ 16). rewrite <- land_ones_mod by lia.
    destruct (dword_bytes m 4) as (E & _). fold m. change (2 ^ 16 - 1) with 0xFFFF. rewrite E. apply keeps_ret. }
  destruct (Hr s eq_refl) as (s1 & Es1 & Hs1). unfold enable_bus_master. rewrite (op_bind_ok _ _ _ _ _ Es1).
  set (v := Z.lor _ 7). assert (Hv : 0 ≤ v < 65536).
  { unfold v. replace (load_le 2 m 4) with (Z.land (load_le 2 m 4) (Z.ones 16)).
    - change 7 with (Z.land 7 (Z.ones 16)). rewrite <- Z.land_lor_distr_l, Z.land_ones by lia. dlia.
    - rewrite Z.land_ones by lia. apply Z.mod_small, (load_le_bound 2). }
  destruct (Hw m v) as [Hc Hst]; [lia|]. rewrite Z.mod_small in Hc by lia. rewrite (Z.div_small v), Z.ldiff_0_r in Hst by lia.
  eexists. split; [unfold write_u32, outl; op_unfold; reflexivity|]. unfold port_out32, pci_ports, cfg_write. cbn -[make_addr load_le Z.testbit field].
  rewrite E1. cbn -[make_addr load_le Z.testbit field]. rewrite E2, E3, E4, E5, Hs1, !Z.eqb_refl. cbn [andb]. fold m.
  split_and!; [done..|]. intros b' d' f' Hne. destruct (Z.eqb_spec b' b), (Z.eqb_spec d' d), (Z.eqb_spec f' f); subst; cbn [andb]; done.
Qed.

(** C30: the scan ends, changes no register, and leaves in [DEVICES] a list
    without duplicates of exactly the functions that answer on the buses of the
    host controller: function 0 of a device, and the others when function 0 says
    the device has several. Each entry has the identification, class, header
    type, base addresses and interrupt of its function. [find] then returns a
    device of the list with the property asked for, and nothing only when no
    such function answers. *)
Theorem pci_init_correct s : ∃ devs s', init s = Ret (Ok devs, s') ∧ cfg s' = cfg s ∧ NoDup devs ∧
  (∀ p, p ∈ devs ↔ ∃ b d f, reachable (cfg s) b d f ∧ p = describe (cfg s b d f) b d f) ∧
  (∀ pred, match find pred devs with
           | Some p => pred p = true ∧ ∃ b d f, reachable (cfg s) b d f ∧ p = describe (cfg s b d f) b d f
           | None => ∀ b d f, reachable (cfg s) b d f → pred (describe (cfg s b d f) b d f) = false
           end).
Proof.
  destruct (init_keeps (cfg s) s eq_refl) as (s' & E & Hs'). eexists _, s'. split; [exact E|]. split; [done|].
  split; [apply found_nodup|]. split; [apply elem_of_found|]. intros pred.
  unfold find. destruct (List.find pred _) as [p|] eqn:Ef.
  - apply List.find_some in Ef as [Hp ?]. split; [done|]. by apply elem_of_found, list_elem_of_In.
  - intros b d f Hr. apply (List.find_none _ _ Ef), list_elem_of_In, elem_of_found. eauto.
Qed.
End Bus.

(** The base address of a register: an I/O address with two type bits, a memory
    address with four, or a 64-bit one whose upper half is the next register. *)
Lemma bar_base_spec d n : length (bars d) = 6%nat → Forall (λ x, 0 ≤ x < U32) (bars d) → 0 ≤ n →
  let bar i := nth (Z.to_nat i) (bars d) 0 in
  bar_base d n =
    if 6 <=? n then Panic
    else if bar n mod 2 =? 1 then Ret (bar n - bar n mod 4)
    else if (bar n / 2 mod 4 =? 2) && (n <? 5) then Ret (bar (n + 1) * 2 ^ 32 + (bar n - bar n mod 16))
    else Ret (bar n - bar n mod 16).
Proof.
  intros Hl Hb Hn bar. unfold bar_base, expect. destruct (Z.leb_spec 6 n).
  { by rewrite (lookup_ge_None_2 (bars d) (Z.to_nat n)) by lia. }
  assert (Hbar : ∀ i, 0 ≤ i < 6 → bars d !! Z.to_nat i = Some (bar i) ∧ 0 ≤ bar i < U32).
  { intros i Hi. destruct (lookup_lt_is_Some_2 (bars d) (Z.to_nat i)) as [x Hx]; [lia|]. unfold bar. rewrite (nth_lookup_Some _ _ _ _ Hx).
    split; [done|]. by apply (Forall_lookup_1 _ _ _ _ Hb Hx). }
  destruct (Hbar n) as [-> Hr]; [lia|]. exec_simpl. unfold clear_low.
  assert (Hclr : ∀ k, 0 ≤ k ≤ 4 → Z.land (bar n) (u64_not (2 ^ k - 1)) = bar n - bar n mod 2 ^ k).
  { intros k Hk. apply land_not_ones; [lia|]. unfold is_u64. lia. }
  change 0xF with (2 ^ 4 - 1) at 1 2 3. change (u64_not 3) with (u64_not (2 ^ 2 - 1)). rewrite (Hclr 4), (Hclr 2) by lia. change 1 with (2 ^ 1 - 1) at 1. change 3 with (2 ^ 2 - 1) at 1.
  rewrite !land_ones_mod, Z.shiftr_div_pow2 by lia. change (2 ^ 1) with 2. change (2 ^ 2) with 4. change (2 ^ 4) with 16.
  destruct (Z.eqb_spec (bar n mod 2) 0) as [E0|E0]; [rewrite (proj2 (Z.eqb_neq _ 1)) by lia|rewrite (proj2 (Z.eqb_eq _ 1)) by dlia; done].
  destruct (Z.eqb_spec (bar n / 2 mod 4) 2); [|done]. destruct (Z.ltb_spec (n + 1) 6), (Z.ltb_spec n 5); cbn [andb]; try lia; [|done].
  destruct (Hbar (n + 1)) as [-> ?]; [lia|]. exec_simpl. by rewrite lor_shiftl by dlia.
Qed.

(** A host bridge, an ISA bridge with an IDE controller as its second function,
    and an AHCI controller on bus 1, behind a bridge of the host. *)
Definition demo_function (id cls header : Z) : mem := λ o,
  if o <? 4 then Z.shiftr id (8 * o) else if (8 <=? o) && (o <? 12) then Z.shiftr cls (8 * (o - 8)) else if o =? 14 then header else 0.
Definition demo_cfg (b d f : Z) : mem :=
  if (b =? 0) && (d =? 0) && (f =? 0) then demo_function 0x12378086 0x06000002 0
  else if (b =? 0) && (d =? 1) && (f =? 0) then demo_function 0x70008086 0x06010000 0x80
  else if (b =? 0) && (d =? 1) && (f =? 1) then demo_function 0x70108086 0x01018000 0
  else if (b =? 0) && (d =? 2) && (f =? 0) then demo_function 0x00011b36 0x06040000 1
  else if (b =? 1) && (d =? 0) && (f =? 0) then demo_function 0x29228086 0x01060102 0
  else λ _, 0xFF.

(** The functions of bus 0 are found and named; the controller on bus 1, which
    only the bridge leads to, is not. *)
Example demo_scan :
  match init (ports := pci_ports (λ m _ _, m)) {| latch := 0; cfg := demo_cfg |} with
  | Ret (Ok devs, _) => Some ((λ p, (bus p, dev p, func p, class_name p)) <$> devs, func <$> find is_ide devs, func <$> find is_ahci devs)
  | _ => None
  end = Some ([(0, 0, 0, "Host Bridge"); (0, 1, 0, "ISA Bridge"); (0, 1, 1, "IDE Controller"); (0, 2, 0, "PCI-to-PCI Bridge")]%string,
    Some 1, None) ∧ present (demo_cfg 1 0 0) = true.
Proof. vm_compute. done. Qed.
