(* ===== verification/I8042.v ===== *)
(** The start of the keyboard controller ([init] of
    [src/src/drivers/keyboard.rs]) with the i8042 it programs. *)
From S2P Require Import Prelude Effects Ports.

Definition KB_DATA := 0x60.
Definition KB_STATUS := 0x64.

Section Driver.
Context {D : Type} {ports : Ports D}.

(** The loops ask the device until it answers; [fuel] bounds the turns. *)
Fixpoint i8042_wait_write (fuel : nat) : op D unit :=
  match fuel with
  | O => λ _, NoFuel
  | S fuel => v ← inb KB_STATUS; if Z.land v 0x02 =? 0 then mret () else i8042_wait_write fuel
  end.
Fixpoint i8042_wait_read (fuel : nat) : op D unit :=
  match fuel with
  | O => λ _, NoFuel
  | S fuel => v ← inb KB_STATUS; if Z.land v 0x01 =? 0 then i8042_wait_read fuel else mret ()
  end.
Fixpoint i8042_flush (fuel : nat) : op D unit :=
  match fuel with
  | O => λ _, NoFuel
  | S fuel => v ← inb KB_STATUS; if Z.land v 0x01 =? 0 then mret () else _ ← inb KB_DATA; i8042_flush fuel
  end.

(** [(ccb | 0x01) & !0x10] of a [u8] *)
Definition new_ccb (ccb : Z) : Z := Z.land (Z.lor ccb 0x01) 0xEF.

Definition i8042_init (fuel : nat) : op D unit :=
  _ ← i8042_wait_write fuel;
  _ ← outb KB_STATUS 0xAD;
  _ ← i8042_flush fuel;
  _ ← i8042_wait_write fuel;
  _ ← outb KB_STATUS 0x20;
  _ ← i8042_wait_read fuel;
  ccb ← inb KB_DATA;
  _ ← i8042_wait_write fuel;
  _ ← outb KB_STATUS 0x60;
  _ ← i8042_wait_write fuel;
  _ ← outb KB_DATA (new_ccb ccb);
  _ ← i8042_wait_write fuel;
  _ ← outb KB_STATUS 0xAE;
  i8042_flush fuel.
End Driver.

(** ** The controller

    After a write the input buffer stays full for [latency] polls of the status.
    The answer to a command comes [latency] polls later, behind what the output
    buffer already holds. [sent] are bytes that the keyboard has ready; they
    reach the output buffer when the port is enabled. [dropped] counts bytes
    written while the input buffer was full. *)
Record i8042 := {
  ccb : Z; out : list Z; full : nat; answer : option (nat * Z); data_for_ccb : bool;
  sent : list Z; latency : nat; dropped : nat
}.

Definition kb_out_buffer (d : i8042) (l : list Z) : i8042 := {|
  ccb := ccb d; out := l; full := full d; answer := answer d; data_for_ccb := data_for_ccb d; sent := sent d; latency := latency d; dropped := dropped d |}.

(** A poll of the status; time passes with it. *)
Definition kb_poll (d : i8042) : Z * i8042 :=
  ((match out d with [] => 0 | _ => 1 end) + (match full d with O => 0 | S _ => 2 end),
   {| ccb := ccb d; out := match answer d with Some (O, b) => out d ++ [b] | _ => out d end; full := pred (full d);
      answer := match answer d with Some (S n, b) => Some (n, b) | _ => None end; data_for_ccb := data_for_ccb d;
      sent := sent d; latency := latency d; dropped := dropped d |}).

Definition kb_in (p : Z) (d : i8042) : Z * i8042 :=
  if p =? 0x64 then kb_poll d
  else if p =? 0x60 then match out d with [] => (0, d) | b :: l => (b, kb_out_buffer d l) end
  else (0xFF, d).

Definition kb_out (p x : Z) (d : i8042) : i8042 :=
  match full d with
  | S _ => {| ccb := ccb d; out := out d; full := full d; answer := answer d; data_for_ccb := data_for_ccb d; sent := sent d;
              latency := latency d; dropped := S (dropped d) |}
  | O =>
      if p =? 0x64 then
        if x =? 0xAD then {| ccb := Z.lor (ccb d) 0x10; out := out d; full := latency d; answer := answer d; data_for_ccb := false; sent := sent d;
                             latency := latency d; dropped := dropped d |}
        else if x =? 0xAE then {| ccb := Z.land (ccb d) 0xEF; out := out d ++ sent d; full := latency d; answer := answer d; data_for_ccb := false; sent := [];
                                  latency := latency d; dropped := dropped d |}
        else if x =? 0x20 then {| ccb := ccb d; out := out d; full := latency d; answer := Some (latency d, ccb d); data_for_ccb := false; sent := sent d;
                                  latency := latency d; dropped := dropped d |}
        else {| ccb := ccb d; out := out d; full := latency d; answer := answer d; data_for_ccb := (x =? 0x60); sent := sent d;
                latency := latency d; dropped := dropped d |}
      else if (p =? 0x60) && data_for_ccb d then {| ccb := x; out := out d; full := latency d; answer := answer d; data_for_ccb := false; sent := sent d;
                                                   latency := latency d; dropped := dropped d |}
      else d
  end.

#[global] Instance kb_ports : Ports i8042 := {
  port_in8 := kb_in;
  port_in16 _ d := (0xFFFF, d);
  port_in32 _ d := (0xFFFFFFFF, d);
  port_out8 := kb_out;
  port_out16 _ _ d := d;
  port_out32 _ _ d := d
}.

(** ** The loops on the controller *)
Lemma inb_poll d : inb KB_STATUS d = Ret (Ok (kb_poll d).1, (kb_poll d).2).
Proof. done. Qed.

Lemma inb_kb_data d b l : out d = b :: l → inb KB_DATA d = Ret (Ok b, kb_out_buffer d l).
Proof. intros Ho. unfold inb, port_in8, kb_ports, kb_in. cbn. by rewrite Ho. Qed.

Lemma poll_bits d : (Z.land (kb_poll d).1 0x02 =? 0) = bool_decide (full d = O) ∧ (Z.land (kb_poll d).1 0x01 =? 0) = bool_decide (out d = []).
Proof. unfold kb_poll. by destruct (out d), (full d). Qed.

(** A wait ends after the polls it needs. *)
Definition quiet (d : i8042) : Prop := answer d = None.
Definition with_full (d : i8042) (n : nat) : i8042 := {|
  ccb := ccb d; out := out d; full := n; answer := None; data_for_ccb := data_for_ccb d; sent := sent d; latency := latency d; dropped := dropped d |}.

Lemma wait_write_spec fuel d : quiet d → (full d < fuel)%nat → i8042_wait_write fuel d = Ret (Ok (), with_full d 0).
Proof.
  revert d. induction fuel as [|fuel IH]; intros d Hq Hf; [lia|]. cbn [i8042_wait_write]. rewrite (op_bind_ok _ _ _ _ _ (inb_poll d)).
  destruct (poll_bits d) as [-> _]. unfold quiet in Hq. destruct (full d) as [|n] eqn:En.
  - rewrite bool_decide_true by done. unfold kb_poll, with_full. by rewrite Hq, En.
  - rewrite bool_decide_false by done. rewrite IH; [unfold kb_poll, with_full; cbn; by rewrite Hq|unfold quiet, kb_poll; cbn; by rewrite Hq|cbn; rewrite En; cbn; lia].
Qed.

Lemma flush_spec fuel d : quiet d → (length (out d) < fuel)%nat → ∃ n, (n ≤ full d)%nat ∧
  i8042_flush fuel d = Ret (Ok (), with_full (kb_out_buffer d []) n).
Proof.
  revert d. induction fuel as [|fuel IH]; intros d Hq Hf; [lia|]. cbn [i8042_flush]. rewrite (op_bind_ok _ _ _ _ _ (inb_poll d)).
  destruct (poll_bits d) as [_ ->]. unfold quiet in Hq. destruct (out d) as [|b l] eqn:Eo.
  - rewrite bool_decide_true by done. exists (pred (full d)). split; [lia|]. unfold kb_poll, with_full, kb_out_buffer. by rewrite Hq, Eo.
  - rewrite bool_decide_false by done. cbn [length] in Hf. set (d1 := (kb_poll d).2).
    assert (Ho : out d1 = b :: l) by (unfold d1, kb_poll; cbn; by rewrite Hq).
    rewrite (op_bind_ok _ _ _ _ _ (inb_kb_data d1 b l Ho)). destruct (IH (kb_out_buffer d1 l)) as (n & Hn & E); [unfold quiet, d1, kb_poll; cbn; by rewrite Hq|cbn; lia|].
    exists n. cbn in Hn. split; [lia|]. rewrite E. done.
Qed.

Lemma wait_read_spec fuel d n b : out d = [] → answer d = Some (n, b) → (S n < fuel)%nat → ∃ f, (f ≤ full d)%nat ∧
  i8042_wait_read fuel d = Ret (Ok (), with_full (kb_out_buffer d [b]) f).
Proof.
  revert d n. induction fuel as [|fuel IH]; intros d n Ho Ha Hf; [lia|]. cbn [i8042_wait_read]. rewrite (op_bind_ok _ _ _ _ _ (inb_poll d)).
  destruct (poll_bits d) as [_ ->]. rewrite bool_decide_true by done. destruct n as [|n].
  - destruct fuel as [|fuel]; [lia|]. cbn [i8042_wait_read]. set (d1 := (kb_poll d).2).
    assert (Ed : d1 = with_full (kb_out_buffer d [b]) (pred (full d))) by (unfold d1, kb_poll, with_full; cbn; by rewrite Ha, Ho).
    rewrite Ed, (op_bind_ok _ _ _ _ _ (inb_poll _)). destruct (poll_bits (with_full (kb_out_buffer d [b]) (pred (full d)))) as [_ ->].
    rewrite bool_decide_false by done. exists (pred (pred (full d))). split; [lia|done].
  - destruct (IH (kb_poll d).2 n) as (f & Hf' & E); [by cbn; rewrite Ha|by cbn; rewrite Ha|lia|]. cbn in Hf'. exists f. split; [lia|]. by rewrite E.
Qed.

Lemma ccb_bits c i : 0 ≤ i < 8 →
  Z.testbit (Z.land (new_ccb (Z.lor c 0x10)) 0xEF) i = if i =? 0 then true else if i =? 4 then false else Z.testbit c i.
Proof.
  intros Hi. unfold new_ccb. rewrite !Z.land_spec, !Z.lor_spec. assert (Hc : i ∈ [0;1;2;3;4;5;6;7]) by (rewrite !elem_of_cons; lia).
  rewrite !elem_of_cons, elem_of_nil in Hc. destruct_or!; subst; try done; cbn; rewrite ?orb_false_r, ?andb_true_r, ?orb_true_r; done.
Qed.

(** On a controller that answers within [fuel] polls, [init] ends, having
    written no byte to a full buffer. The keyboard interrupt is enabled and the
    keyboard clock runs, the other bits of the command byte are as they were, and
    no byte is left in the output buffer, neither one from before nor one that
    the keyboard had ready. *)
Theorem i8042_init_correct fuel d : answer d = None → (full d < fuel)%nat → (latency d + 1 < fuel)%nat →
  (length (out d) < fuel)%nat → (length (sent d) < fuel)%nat →
  ∃ d', i8042_init fuel d = Ret (Ok (), d') ∧ out d' = [] ∧ sent d' = [] ∧ dropped d' = dropped d ∧
    ∀ i, 0 ≤ i < 8 → Z.testbit (ccb d') i = if i =? 0 then true else if i =? 4 then false else Z.testbit (ccb d) i.
Proof.
  intros Hq Hf Hl Ho Hs. unfold i8042_init.
  rewrite (op_bind_ok _ _ _ _ _ (wait_write_spec fuel d Hq Hf)). rewrite (op_bind_ok (outb _ _) _ _ _ _ eq_refl).
  set (d1 := port_out8 _ _ _). destruct (flush_spec fuel d1) as (n1 & Hn1 & E1); [done|done|]. rewrite (op_bind_ok _ _ _ _ _ E1). cbn in Hn1.
  rewrite (op_bind_ok _ _ _ _ _ (wait_write_spec fuel (with_full (kb_out_buffer d1 []) n1) eq_refl ltac:(cbn; lia))).
  rewrite (op_bind_ok (outb _ _) _ _ _ _ eq_refl). set (d2 := port_out8 _ _ _).
  destruct (wait_read_spec fuel d2 (latency d) (Z.lor (ccb d) 0x10)) as (n2 & Hn2 & E2); [done|done|lia|]. rewrite (op_bind_ok _ _ _ _ _ E2). cbn in Hn2.
  rewrite (op_bind_ok _ _ _ _ _ (inb_kb_data (with_full (kb_out_buffer d2 [Z.lor (ccb d) 0x10]) n2) _ [] eq_refl)).
  rewrite (op_bind_ok _ _ _ _ _ (wait_write_spec fuel (kb_out_buffer (with_full (kb_out_buffer d2 [Z.lor (ccb d) 0x10]) n2) []) eq_refl ltac:(cbn; lia))).
  rewrite (op_bind_ok (outb _ _) _ _ _ _ eq_refl). set (d3 := port_out8 _ _ _).
  rewrite (op_bind_ok _ _ _ _ _ (wait_write_spec fuel d3 eq_refl ltac:(cbn; lia))).
  rewrite (op_bind_ok (outb _ _) _ _ _ _ eq_refl). set (d4 := port_out8 _ _ _).
  rewrite (op_bind_ok _ _ _ _ _ (wait_write_spec fuel d4 eq_refl ltac:(cbn; lia))).
  rewrite (op_bind_ok (outb _ _) _ _ _ _ eq_refl). set (d5 := port_out8 _ _ _).
  destruct (flush_spec fuel d5) as (n5 & _ & E5); [done|cbn; lia|]. eexists. split; [exact E5|]. split; [done|]. split; [done|]. split; [done|].
  intros i Hi. exact (ccb_bits (ccb d) i Hi).
Qed.

Definition demo_i8042 : i8042 := {|
  ccb := 0x54; out := [0xAA; 0xFE]; full := 1; answer := None; data_for_ccb := false; sent := [0xFA]; latency := 2; dropped := 0 |}.

Lemma i8042_init_correct_witness : ∃ d', i8042_init 5 demo_i8042 = Ret (Ok (), d') ∧ out d' = [] ∧ Z.testbit (ccb d') 0 = true.
Proof.
  destruct (i8042_init_correct 5 demo_i8042) as (d' & E & Ho & _ & _ & Hb); [reflexivity|cbn; lia..|].
  exists d'. split; [exact E|]. split; [exact Ho|]. rewrite (Hb 0); [reflexivity|lia].
Defined.
