(* ===== verification/Pic.v ===== *)
(** The interrupt controller driver ([src/src/arch/x86_64/pic.rs]) with the pair
    of 8259A controllers it programs, and the acknowledgement of hardware
    interrupts at the start of [irq_dispatch] ([src/src/arch/x86_64/idt.rs]). *)
From S2P Require Import Prelude Machine Effects Ports.

Definition PIC1_CMD := 0x20.
Definition PIC1_DATA := 0x21.
Definition PIC2_CMD := 0xA0.
Definition PIC2_DATA := 0xA1.

Definition ICW1_ICW4 := 0x01.
Definition ICW1_INIT := 0x10.
Definition ICW4_8086 := 0x01.
Definition PIC_EOI := 0x20.
Definition PIC_READ_ISR := 0x0B.
Definition IRQ_BASE_MASTER := 32.
Definition IRQ_BASE_SLAVE := 40.

Section Driver.
Context {D : Type} {ports : Ports D}.

Definition io_wait : op D unit := outb 0x80 0.

Definition pic_init : op D unit :=
  _ ← inb PIC1_DATA;
  _ ← inb PIC2_DATA;
  _ ← outb PIC1_CMD (Z.lor ICW1_INIT ICW1_ICW4); _ ← io_wait;
  _ ← outb PIC2_CMD (Z.lor ICW1_INIT ICW1_ICW4); _ ← io_wait;
  _ ← outb PIC1_DATA IRQ_BASE_MASTER; _ ← io_wait;
  _ ← outb PIC2_DATA IRQ_BASE_SLAVE; _ ← io_wait;
  _ ← outb PIC1_DATA 0x04; _ ← io_wait;
  _ ← outb PIC2_DATA 0x02; _ ← io_wait;
  _ ← outb PIC1_DATA ICW4_8086; _ ← io_wait;
  _ ← outb PIC2_DATA ICW4_8086; _ ← io_wait;
  _ ← outb PIC1_DATA 0xEC;
  outb PIC2_DATA 0xFF.

Definition send_eoi_master : op D unit := outb PIC1_CMD PIC_EOI.
Definition send_eoi (irq : Z) : op D unit :=
  _ ← (if 8 <=? irq then outb PIC2_CMD PIC_EOI else mret ());
  outb PIC1_CMD PIC_EOI.

Definition irq_to_port_bit (irq : Z) : Z * Z := if irq <? 8 then (PIC1_DATA, irq) else (PIC2_DATA, irq - 8).

(** A shift of a [u8] by eight or more panics. *)
Definition u8_bit (bit : Z) : exec Z := if bit <? 8 then Ret (Z.shiftl 1 bit) else Panic.

Definition mask_irq (irq : Z) : op D unit :=
  let '(port, bit) := irq_to_port_bit irq in
  val ← inb port;
  b ← check (u8_bit bit);
  outb port (Z.lor val b).
Definition unmask_irq (irq : Z) : op D unit :=
  let '(port, bit) := irq_to_port_bit irq in
  val ← inb port;
  b ← check (u8_bit bit);
  outb port (Z.land val (255 - b)).

Definition is_spurious_irq7 : op D bool :=
  _ ← outb PIC1_CMD PIC_READ_ISR;
  v ← inb PIC1_CMD;
  mret (Z.land v 0x80 =? 0).
Definition is_spurious_irq15 : op D bool :=
  _ ← outb PIC2_CMD PIC_READ_ISR;
  v ← inb PIC2_CMD;
  mret (Z.land v 0x80 =? 0).

Definition disable : op D unit := _ ← outb PIC1_DATA 0xFF; outb PIC2_DATA 0xFF.

(** The part of [irq_dispatch] before the handlers: [true] if the interrupt goes
    to a handler. The spurious test of a line is made for that line only. *)
Definition irq_ack (irq : Z) : op D bool :=
  sp7 ← (if irq =? 7 then is_spurious_irq7 else mret false);
  if sp7 : bool then mret false else
  sp15 ← (if irq =? 15 then is_spurious_irq15 else mret false);
  if sp15 : bool then _ ← send_eoi_master; mret false else
  _ ← send_eoi irq; mret true.
End Driver.

(** ** The 8259A *)

(** The mask, request and in-service registers, the vector base, the number of
    the initialisation word expected next (0 when operating), and whether the
    command port reads the in-service register. *)
Record pic := { imr : Z; irr : Z; isr : Z; base : Z; icw : Z; reads_isr : bool }.
Record pics := { master : pic; slave : pic }.
Implicit Types (p : pic) (d : pics).

(** The line of highest priority in a register. *)
Definition lowest (v : Z) : option Z := snd <$> list_find (λ i, Z.testbit v i = true) (seqZ 0 8).

Definition set_isr p (v : Z) : pic :=
  {| imr := imr p; irr := irr p; isr := v; base := base p; icw := icw p; reads_isr := reads_isr p |}.

(** A write to the command port: an initialisation word, a non-specific end of
    interrupt, or the choice of the register to read. *)
Definition write_cmd p (v : Z) : pic :=
  if Z.testbit v 4 then
    {| imr := 0; irr := irr p; isr := 0; base := base p; icw := 2; reads_isr := false |}
  else if Z.testbit v 3 then
    if Z.testbit v 1
    then {| imr := imr p; irr := irr p; isr := isr p; base := base p; icw := icw p; reads_isr := Z.testbit v 0 |}
    else p
  else if v =? PIC_EOI then
    match lowest (isr p) with Some i => set_isr p (Z.clearbit (isr p) i) | None => p end
  else p.

(** A write to the data port: the next initialisation word, or the mask. *)
Definition write_data p (v : Z) : pic :=
  let q b n := {| imr := imr p; irr := irr p; isr := isr p; base := b; icw := n; reads_isr := reads_isr p |} in
  if icw p =? 2 then q (Z.land v 0xF8) 3
  else if icw p =? 3 then q (base p) 4
  else if icw p =? 4 then q (base p) 0
  else {| imr := v; irr := irr p; isr := isr p; base := base p; icw := 0; reads_isr := reads_isr p |}.

Definition read_cmd p : Z := if reads_isr p then isr p else irr p.

#[global] Instance pic_ports : Ports pics := {
  port_in8 a d := (if a =? PIC1_CMD then read_cmd (master d) else if a =? PIC1_DATA then imr (master d)
                   else if a =? PIC2_CMD then read_cmd (slave d) else if a =? PIC2_DATA then imr (slave d) else 0xFF, d);
  port_in16 _ d := (0, d);
  port_in32 _ d := (0, d);
  port_out8 a v d :=
    if a =? PIC1_CMD then {| master := write_cmd (master d) v; slave := slave d |}
    else if a =? PIC1_DATA then {| master := write_data (master d) v; slave := slave d |}
    else if a =? PIC2_CMD then {| master := master d; slave := write_cmd (slave d) v |}
    else if a =? PIC2_DATA then {| master := master d; slave := write_data (slave d) v |}
    else d;
  port_out16 _ _ d := d;
  port_out32 _ _ d := d
}.

(** The line a controller would signal: requested, not masked, and above every
    line in service. *)
Definition candidate p : option Z :=
  match lowest (Z.ldiff (irr p) (imr p)) with
  | None => None
  | Some i => match lowest (isr p) with Some j => if i <? j then Some i else None | None => Some i end
  end.

Definition take_line p (i : Z) : pic :=
  {| imr := imr p; irr := Z.clearbit (irr p) i; isr := Z.setbit (isr p) i; base := base p; icw := icw p;
     reads_isr := reads_isr p |}.

(** The acknowledge cycle of the processor: the vector, whether a line is really
    in service, and the controllers. The slave hangs on line 2 of the master. *)
Definition inta d : Z * bool * pics :=
  match candidate (master d) with
  | None => (base (master d) + 7, false, d)
  | Some i =>
      let m := take_line (master d) i in
      if i =? 2 then
        match candidate (slave d) with
        | None => (base (slave d) + 7, false, {| master := m; slave := slave d |})
        | Some j => (base (slave d) + j, true, {| master := m; slave := take_line (slave d) j |})
        end
      else (base m + i, true, {| master := m; slave := slave d |})
  end.

(** ** Specifications *)

(** Both controllers initialised by [pic_init]. *)
Record pics_ready d : Prop := {
  pr_master : base (master d) = IRQ_BASE_MASTER ∧ icw (master d) = 0;
  pr_slave : base (slave d) = IRQ_BASE_SLAVE ∧ icw (slave d) = 0;
  pr_imr : is_byte (imr (master d)) ∧ is_byte (imr (slave d))
}.

Lemma lowest_Some v i : lowest v = Some i →
  0 ≤ i < 8 ∧ Z.testbit v i = true ∧ ∀ j, 0 ≤ j < i → Z.testbit v j = false.
Proof.
  unfold lowest. intros ([k x] & H & ->)%fmap_Some_1. apply list_find_Some in H as (H1 & H2 & H3).
  apply lookup_seqZ in H1 as [-> Hk]. cbn. split_and!; [lia|lia|done|]. intros j Hj.
  specialize (H3 (Z.to_nat j) j). destruct (Z.testbit v j); [|done]. destruct H3; [|lia|done].
  apply lookup_seqZ. lia.
Qed.

Lemma lowest_intro v i : 0 ≤ i < 8 → Z.testbit v i = true → (∀ j, 0 ≤ j < i → Z.testbit v j = false) →
  lowest v = Some i.
Proof.
  intros Hi Hb Hl. unfold lowest. assert (list_find (λ k, Z.testbit v k = true) (seqZ 0 8) = Some (Z.to_nat i, i)) as ->; [|done].
  apply list_find_Some. split_and!; [apply lookup_seqZ; lia|done|].
  intros k y Hk Hlt Hy. apply lookup_seqZ in Hk as [-> Hk]. rewrite Hl in Hy; [done|lia].
Qed.

Lemma lowest_None v j : lowest v = None → 0 ≤ j < 8 → Z.testbit v j = false.
Proof.
  unfold lowest. intros H%fmap_None Hj. apply list_find_None in H. rewrite Forall_forall in H.
  specialize (H j). destruct (Z.testbit v j); [|done]. destruct H; [|done]. apply elem_of_seqZ. lia.
Qed.

Lemma clear_set v i : 0 ≤ i → Z.testbit v i = false → Z.clearbit (Z.setbit v i) i = v.
Proof.
  intros Hi Hb. apply Z.bits_inj'. intros n Hn. rewrite Z.clearbit_eqb, Z.setbit_eqb by lia.
  destruct (Z.eqb_spec i n) as [->|]; [by rewrite Hb|]. by rewrite andb_true_r.
Qed.

(** A line taken by a controller is the one its next end of interrupt ends. *)
Lemma candidate_spec p i : candidate p = Some i →
  0 ≤ i < 8 ∧ Z.testbit (irr p) i = true ∧ Z.testbit (imr p) i = false ∧
  ∀ j, 0 ≤ j ≤ i → Z.testbit (isr p) j = false.
Proof.
  unfold candidate. intros H. destruct (lowest (Z.ldiff _ _)) as [k|] eqn:E; [|done].
  apply lowest_Some in E as (Hk & Hb & _). rewrite Z.ldiff_spec in Hb. apply andb_prop in Hb as [Hb1 Hb2].
  apply negb_true_iff in Hb2. destruct (lowest (isr p)) as [j|] eqn:Ej.
  - destruct (Z.ltb_spec k j); simplify_eq. apply lowest_Some in Ej as (_ & _ & Hl). split_and!; try lia; try done.
    intros x Hx. apply Hl. lia.
  - simplify_eq. split_and!; try lia; try done. intros x Hx. apply lowest_None; [done|lia].
Qed.

Lemma eoi_ends p q i : candidate p = Some i → isr q = isr (take_line p i) →
  write_cmd q PIC_EOI = set_isr q (isr p).
Proof.
  intros (Hi & _ & _ & Hl)%candidate_spec Hq. change (write_cmd q PIC_EOI) with
    (match lowest (isr q) with Some j => set_isr q (Z.clearbit (isr q) j) | None => q end).
  rewrite Hq. cbn [isr take_line].
  rewrite (lowest_intro _ i); [by rewrite clear_set by (lia || apply Hl; lia)|done| |].
  - rewrite Z.setbit_eqb, Z.eqb_refl by lia. done.
  - intros j Hj. rewrite Z.setbit_eqb by lia. rewrite (proj2 (Z.eqb_neq _ _)) by lia. apply Hl. lia.
Qed.

(** The controllers after [pic_init], whatever they were: vectors 32 to 47, and
    only the timer, the keyboard and the serial line enabled. *)
Lemma pic_init_correct d : ∃ d', pic_init d = Ret (Ok (), d') ∧ pics_ready d' ∧
  isr (master d') = 0 ∧ isr (slave d') = 0 ∧
  (∀ i, 0 ≤ i < 8 → Z.testbit (imr (master d')) i = negb (bool_decide (i ∈ [0; 1; 4]))) ∧
  (∀ i, 0 ≤ i < 8 → Z.testbit (imr (slave d')) i = true).
Proof.
  destruct d as [m s]. eexists. split; [reflexivity|].
  split_and!; [split; [done|done|split; (split; vm_compute; congruence)]|done|done|..];
    apply (forall_below 8); repeat (constructor; [done|]); constructor.
Qed.

(** The mask bit of a line. *)
Definition masked d (irq : Z) : bool :=
  if irq <? 8 then Z.testbit (imr (master d)) irq else Z.testbit (imr (slave d)) (irq - 8).

Definition set_imr d (irq v : Z) : pics :=
  let q p := {| imr := v; irr := irr p; isr := isr p; base := base p; icw := 0; reads_isr := reads_isr p |} in
  if irq <? 8 then {| master := q (master d); slave := slave d |}
  else {| master := master d; slave := q (slave d) |}.

Lemma imr_out d irq v : pics_ready d → port_out8 (irq_to_port_bit irq).1 v d = set_imr d irq v.
Proof.
  intros [[_ H1] [_ H2] _]. unfold irq_to_port_bit, set_imr. destruct (irq <? 8); cbn; unfold write_data.
  - by rewrite H1.
  - by rewrite H2.
Qed.

Lemma ready_set_imr d irq v : pics_ready d → is_byte v → pics_ready (set_imr d irq v).
Proof. intros [H1 H2 [H3 H4]] Hv. unfold set_imr. destruct (irq <? 8); split; cbn; tauto. Qed.

Lemma byte_testbit v i : is_byte v → 8 ≤ i → Z.testbit v i = false.
Proof.
  intros Hv Hi. rewrite <- (Z.mod_small v (2 ^ 8)) by (unfold is_byte in Hv; lia). by apply Z.mod_pow2_bits_high.
Qed.

Lemma byte_bits v : (∀ n, 8 ≤ n → Z.testbit v n = false) → is_byte v.
Proof.
  intros Hb. assert (v = v mod 2 ^ 8) as ->; [|unfold is_byte; apply Z.mod_pos_bound; lia].
  apply Z.bits_inj'. intros n Hn. destruct (Z.lt_ge_cases n 8).
  - by rewrite Z.mod_pow2_bits_low.
  - rewrite Z.mod_pow2_bits_high by lia. auto.
Qed.

(** The eight bits of a mask byte. *)
Lemma u8_bit_spec b : 0 ≤ b < 8 → ∀ l, 0 ≤ l < 8 →
  is_byte (Z.shiftl 1 b) ∧ Z.testbit (Z.shiftl 1 b) l = (l =? b) ∧ Z.testbit (255 - Z.shiftl 1 b) l = negb (l =? b).
Proof.
  revert b. refine (forall_below 8 _ _). cbn.
  repeat (constructor; [refine (forall_below 8 _ _); cbn; repeat (constructor; [repeat split; vm_compute; congruence|]); constructor|]).
  constructor.
Qed.

(** The register an interrupt's mask bit is in, and the lines of that register. *)
Definition imr_of d (irq : Z) : Z := if irq <? 8 then imr (master d) else imr (slave d).

Lemma masked_set_imr d irq b w f : (irq_to_port_bit irq).2 = b → 0 ≤ irq < 16 →
  (∀ l, 0 ≤ l < 8 → Z.testbit w l = f (l =? b) (Z.testbit (imr_of d irq) l)) → (∀ x, f false x = x) →
  ∀ l, 0 ≤ l < 16 → masked (set_imr d irq w) l = f (l =? irq) (masked d l).
Proof.
  intros Hb Hi Hw Hf l Hl. unfold masked, set_imr, imr_of, irq_to_port_bit in *.
  destruct (Z.ltb_spec irq 8), (Z.ltb_spec l 8); cbn [imr master slave snd] in *; subst b.
  - apply Hw. lia.
  - by rewrite (proj2 (Z.eqb_neq l irq)), Hf by lia.
  - by rewrite (proj2 (Z.eqb_neq l irq)), Hf by lia.
  - rewrite Hw by lia. f_equal. apply eq_bool_prop_intro. rewrite !Is_true_true, !Z.eqb_eq. lia.
Qed.

(** One line is masked or enabled and the others keep their state. *)
Lemma mask_irq_correct d irq : pics_ready d → 0 ≤ irq < 16 →
  (∃ d', mask_irq irq d = Ret (Ok (), d') ∧ pics_ready d' ∧
     ∀ l, 0 ≤ l < 16 → masked d' l = (l =? irq) || masked d l) ∧
  (∃ d', unmask_irq irq d = Ret (Ok (), d') ∧ pics_ready d' ∧
     ∀ l, 0 ≤ l < 16 → masked d' l = negb (l =? irq) && masked d l).
Proof.
  intros Hr Hi. assert (Hv : is_byte (imr_of d irq)) by (destruct Hr as [_ _ [? ?]]; unfold imr_of; by destruct (irq <? 8)).
  assert (Hin : port_in8 (irq_to_port_bit irq).1 d = (imr_of d irq, d)) by (unfold irq_to_port_bit, imr_of; by destruct (irq <? 8)).
  assert (Hb : 0 ≤ (irq_to_port_bit irq).2 < 8) by (unfold irq_to_port_bit; destruct (Z.ltb_spec irq 8); cbn; lia).
  pose proof (λ v, imr_out d irq v Hr) as Ho. pose proof (λ w f, masked_set_imr d irq _ w f eq_refl Hi) as Hm.
  unfold mask_irq, unmask_irq. destruct (irq_to_port_bit irq) as [port b]. cbn [fst snd] in *.
  op_unfold. unfold inb, outb, u8_bit. rewrite Hin, (proj2 (Z.ltb_lt b 8)) by lia. exec_simpl. rewrite !Ho.
  split; (eexists; split; [reflexivity|]; split; [apply ready_set_imr; [done|]|]).
  - destruct (u8_bit_spec b Hb 0) as (? & _); [lia|]. apply byte_bits. intros n Hn.
    by rewrite Z.lor_spec, !byte_testbit.
  - apply (Hm _ orb); [|done]. intros l Hl. destruct (u8_bit_spec b Hb l Hl) as (_ & E & _). rewrite Z.lor_spec, E. apply orb_comm.
  - apply byte_bits. intros n Hn. by rewrite Z.land_spec, (byte_testbit (imr_of d irq)).
  - apply (Hm _ (λ x y, negb x && y)); [|done]. intros l Hl. destruct (u8_bit_spec b Hb l Hl) as (_ & _ & E).
    rewrite Z.land_spec, E. apply andb_comm.
Qed.

Lemma spurious_test v : (Z.land v 0x80 =? 0) = negb (Z.testbit v 7).
Proof.
  assert (Z.land v 0x80 = if Z.testbit v 7 then 0x80 else 0) as ->; [|by destruct (Z.testbit v 7)].
  change 0x80 with (2 ^ 7). apply Z.bits_inj'. intros n Hn. rewrite Z.land_spec, Z.pow2_bits_eqb by lia.
  destruct (Z.eqb_spec 7 n) as [<-|Hne]; [by destruct (Z.testbit v 7)|]. rewrite andb_false_r.
  destruct (Z.testbit v 7); [|by rewrite Z.bits_0]. rewrite Z.pow2_bits_eqb by lia. symmetry. by apply Z.eqb_neq.
Qed.

(** The tests read the in-service register and leave it selected. *)
Definition select_isr p : pic :=
  {| imr := imr p; irr := irr p; isr := isr p; base := base p; icw := icw p; reads_isr := true |}.

Lemma is_spurious_irq7_eq d :
  is_spurious_irq7 d = Ret (Ok (negb (Z.testbit (isr (master d)) 7)), {| master := select_isr (master d); slave := slave d |}).
Proof.
  rewrite <- spurious_test. reflexivity.
Qed.
Lemma is_spurious_irq15_eq d :
  is_spurious_irq15 d = Ret (Ok (negb (Z.testbit (isr (slave d)) 7)), {| master := master d; slave := select_isr (slave d) |}).
Proof. rewrite <- spurious_test. reflexivity. Qed.

(** What an interrupt leaves of a controller: only the request is gone. *)
Definition restored p p' : Prop := isr p' = isr p ∧ imr p' = imr p ∧ base p' = base p ∧ icw p' = icw p.

Lemma line_restored p i q : candidate p = Some i → (q = take_line p i ∨ q = select_isr (take_line p i)) →
  restored p (write_cmd q PIC_EOI).
Proof. intros Hc [-> | ->]; rewrite (eoi_ends p _ i) by done; done. Qed.

Lemma set_bit_7 p i : candidate p = Some i → Z.testbit (isr p) 7 = false → Z.testbit (isr (take_line p i)) 7 = (i =? 7).
Proof.
  intros (Hi & _)%candidate_spec H7. cbn [isr take_line]. rewrite Z.setbit_eqb by lia. rewrite H7. apply orb_false_r.
Qed.

Lemma ready_restored d m s : pics_ready d → restored (master d) m → restored (slave d) s →
  pics_ready {| master := m; slave := s |}.
Proof.
  intros [[H1 H2] [H3 H4] [H5 H6]] (_ & A & B & C) (_ & A' & B' & C').
  split; cbn; rewrite ?A, ?B, ?C, ?A', ?B', ?C'; done.
Qed.

(** The four ways through [irq_ack]. *)
Lemma ack_master d irq : 0 ≤ irq < 8 → (irq = 7 → Z.testbit (isr (master d)) 7 = true) →
  ∃ q, (q = master d ∨ q = select_isr (master d)) ∧
    irq_ack irq d = Ret (Ok true, {| master := write_cmd q PIC_EOI; slave := slave d |}).
Proof.
  intros Hi H7. unfold irq_ack, send_eoi. rewrite (proj2 (Z.leb_gt 8 irq)), (proj2 (Z.eqb_neq irq 15)) by lia.
  destruct (Z.eqb_spec irq 7); op_unfold.
  - rewrite is_spurious_irq7_eq, H7 by done. eexists. split; [by right|done].
  - eexists. split; [by left|done].
Qed.
Lemma ack_slave d irq : 8 ≤ irq < 16 → (irq = 15 → Z.testbit (isr (slave d)) 7 = true) →
  ∃ q, (q = slave d ∨ q = select_isr (slave d)) ∧
    irq_ack irq d = Ret (Ok true, {| master := write_cmd (master d) PIC_EOI; slave := write_cmd q PIC_EOI |}).
Proof.
  intros Hi H7. unfold irq_ack, send_eoi. rewrite (proj2 (Z.leb_le 8 irq)), (proj2 (Z.eqb_neq irq 7)) by lia.
  destruct (Z.eqb_spec irq 15); op_unfold.
  - rewrite is_spurious_irq15_eq, H7 by done. eexists. split; [by right|done].
  - eexists. split; [by left|done].
Qed.
Lemma ack_spurious d :
  (Z.testbit (isr (master d)) 7 = false →
   irq_ack 7 d = Ret (Ok false, {| master := select_isr (master d); slave := slave d |})) ∧
  (Z.testbit (isr (slave d)) 7 = false →
   irq_ack 15 d = Ret (Ok false, {| master := write_cmd (master d) PIC_EOI; slave := select_isr (slave d) |})).
Proof.
  split; intros H; unfold irq_ack; cbn [Z.eqb Pos.eqb]; op_unfold.
  - by rewrite is_spurious_irq7_eq, H.
  - by rewrite is_spurious_irq15_eq, H.
Qed.

(** Interrupts are completed exactly once. For whatever the controllers
    deliver in the state [pic_init] establishes, the acknowledgement in
    [irq_dispatch] runs a handler if and only if a line is really in service, and
    afterwards the in-service registers are what they were before the delivery;
    no end of interrupt is lost or sent for another line. This needs line 7 of
    either controller not to be in service already. *)
Lemma irq_ack_spec d v genuine d1 :
  pics_ready d → Z.testbit (isr (master d)) 7 = false → Z.testbit (isr (slave d)) 7 = false →
  inta d = (v, genuine, d1) →
  32 ≤ v < 48 ∧
  ∃ d2, irq_ack (v - 32) d1 = Ret (Ok genuine, d2) ∧ pics_ready d2 ∧
    restored (master d) (master d2) ∧ restored (slave d) (slave d2).
Proof.
  intros Hr H7 H15 Hi. pose proof Hr as [[Hb1 _] [Hb2 _] _]. unfold inta in Hi.
  destruct (candidate (master d)) as [i|] eqn:Ci; cycle 1.
  { simplify_eq. rewrite Hb1. split; [unfold IRQ_BASE_MASTER; lia|]. eexists. split; [exact (proj1 (ack_spurious _) H7)|].
    split; [by apply (ready_restored d1)|done]. }
  pose proof (candidate_spec _ _ Ci) as (Hir & _). destruct (Z.eqb_spec i 2) as [->|Hi2].
  - assert (Hm : restored (master d) (write_cmd (take_line (master d) 2) PIC_EOI)) by (eapply line_restored; eauto).
    destruct (candidate (slave d)) as [j|] eqn:Cj; simplify_eq; rewrite Hb2; unfold IRQ_BASE_SLAVE.
    + pose proof (candidate_spec _ _ Cj) as (Hjr & _). split; [lia|].
      set (d1 := {| master := _ |}). destruct (ack_slave d1 (40 + j - 32)) as (q & Hq & ->); [lia| |].
      { intros. cbn [slave d1]. rewrite set_bit_7 by done. apply Z.eqb_eq. lia. }
      eexists. split; [done|]. assert (restored (slave d) (write_cmd q PIC_EOI)) by (eapply line_restored; eauto).
      split; [by apply (ready_restored d)|done].
    + split; [lia|]. set (d1 := {| master := _ |}). change (40 + 7 - 32) with 15.
      eexists. split; [exact (proj2 (ack_spurious d1) H15)|]. split; [by apply (ready_restored d)|done].
  - simplify_eq. cbn [base take_line]. rewrite Hb1. unfold IRQ_BASE_MASTER. split; [lia|].
    set (d1 := {| master := _ |}). destruct (ack_master d1 (32 + i - 32)) as (q & Hq & ->); [lia| |].
    { intros. cbn [master d1]. rewrite set_bit_7 by done. apply Z.eqb_eq. lia. }
    eexists. split; [done|]. assert (restored (master d) (write_cmd q PIC_EOI)) by (eapply line_restored; eauto).
    split; [by apply (ready_restored d)|done].
Qed.
