(* ===== verification/Timer.v ===== *)
(** The timer ([src/src/arch/x86_64/timer.rs]): the interval timer's set-up, the
    tick counters and the clock the system calls read. *)
From S2P Require Import Prelude Machine Pmm Vmm Vma Effects Proc Ports.

Definition PIT_CHANNEL0 := 0x40.
Definition PIT_CMD := 0x43.
Definition PIT_FREQ := 1193182.
Definition TIMER_HZ := 1000.

Record clock := { TICK_COUNT : Z; UPTIME_MS : Z; TSC_FREQ_HZ : Z }.
Implicit Types (c : clock).

Definition clock_boot : clock := {| TICK_COUNT := 0; UPTIME_MS := 0; TSC_FREQ_HZ := 0 |}.

Section Driver.
Context {D : Type} {ports : Ports D}.

Definition init_pit (hz : Z) : op D unit :=
  _ ← check (assert_ (negb (hz =? 0)));
  let divisor := PIT_FREQ / hz in
  _ ← check (assert_ (divisor <? 65536));
  _ ← outb PIT_CMD 0x36;
  _ ← outb PIT_CHANNEL0 (Z.land divisor 0xFF);
  outb PIT_CHANNEL0 (Z.land (Z.shiftr divisor 8) 0xFF).

Definition timer_init : op D unit := init_pit TIMER_HZ.
End Driver.

(** [fetch_add] wraps. *)
Definition irq_timer (s : clock * sched) : exec (clock * sched * transfer) :=
  let '(c, rq) := s in
  let c := {| TICK_COUNT := u64_wrap (TICK_COUNT c + 1); UPTIME_MS := u64_wrap (UPTIME_MS c + 1000 / TIMER_HZ);
              TSC_FREQ_HZ := TSC_FREQ_HZ c |} in
  '(rq, t) ← tick rq;
  Ret (c, rq, t).

Definition uptime_ms c : Z := UPTIME_MS c.
Definition ticks c : Z := TICK_COUNT c.
Definition tsc_freq_hz c : Z := TSC_FREQ_HZ c.

(** A loop that polls the uptime: [reads n] is the value the [n]-th poll sees,
    which the timer interrupt advances; the result is the number of polls. *)
Fixpoint poll_until (fuel : nat) (test : Z → exec bool) (reads : nat → Z) (n : nat) : exec nat :=
  match fuel with
  | O => NoFuel
  | S fuel => more ← test (reads n); if more : bool then poll_until fuel test reads (S n) else Ret n
  end.

Definition sleep_busy (fuel : nat) (ms : Z) (reads : nat → Z) : exec nat :=
  end_ ← u64_add (reads O) ms;
  poll_until fuel (λ now, Ret (now <? end_)) reads 1.

(** The instruction returns the counter in two halves. *)
Definition rdtsc (tsc : Z) : Z :=
  let lo := tsc mod U32 in
  let hi := Z.shiftr tsc 32 mod U32 in
  Z.lor (Z.shiftl hi 32) lo.

(** [tsc n] is the time stamp counter at the [n]-th poll. *)
Definition calibrate_tsc (fuel : nat) c (tsc : nat → Z) (reads : nat → Z) : exec clock :=
  let ms := 10 in
  let t0 := rdtsc (tsc O) in
  let start := reads O in
  n ← poll_until fuel (λ now, d ← u64_sub now start; Ret (d <? ms)) reads 1;
  elapsed ← u64_sub (rdtsc (tsc n)) t0;
  p ← u64_mul elapsed 1000;
  Ret {| TICK_COUNT := TICK_COUNT c; UPTIME_MS := UPTIME_MS c; TSC_FREQ_HZ := p / ms |}.

(** [tsc] is what [rdtsc] returns. *)
Definition nanos c (tsc : Z) : exec Z :=
  let freq := tsc_freq_hz c in
  if freq =? 0 then u64_mul (uptime_ms c) 1000000
  else p ← u64_mul tsc 1000000000; Ret (p / freq).

(** [udelay] of [src/src/arch/x86_64.rs]; [clk n] and [tsc n] are the clock and the
    counter at the [n]-th poll. *)
Definition udelay (fuel : nat) (us : Z) (clk : nat → clock) (tsc : nat → Z) : exec nat :=
  t ← nanos (clk O) (rdtsc (tsc O));
  let start := t / 1000 in
  poll_until fuel (λ i, t ← nanos (clk (Z.to_nat i)) (rdtsc (tsc (Z.to_nat i))); d ← u64_sub (t / 1000) start; Ret (d <? us)) Z.of_nat 1.

(** ** The 8254 counter 0: the reload value, and the byte expected next *)
Record pit := { reload : Z; low_byte : option Z }.

#[global] Instance pit_ports : Ports pit := {
  port_in8 _ d := (0, d); port_in16 _ d := (0, d); port_in32 _ d := (0, d);
  port_out8 a v d :=
    if a =? PIT_CMD then {| reload := reload d; low_byte := None |}
    else if a =? PIT_CHANNEL0 then
      match low_byte d with
      | None => {| reload := reload d; low_byte := Some v |}
      | Some l => {| reload := l + 256 * v; low_byte := None |}
      end
    else d;
  port_out16 _ _ d := d; port_out32 _ _ d := d
}.

(** The counter is loaded with the divisor of the frequency asked for, for every
    frequency from 19 Hz on; below, and for 0, the kernel panics. *)
Lemma init_pit_correct hz d : 0 ≤ hz → is_u64 hz →
  init_pit hz d = if 19 <=? hz then Ret (Ok (), {| reload := PIT_FREQ / hz; low_byte := None |}) else Panic.
Proof.
  intros H0 Hu. unfold init_pit. op_unfold. destruct (Z.eqb_spec hz 0) as [->|Hz]; [reflexivity|]. cbn [negb assert_]. exec_simpl.
  assert (Hq : PIT_FREQ / hz < 65536 ↔ 19 ≤ hz).
  { unfold PIT_FREQ. split; intros H; [|apply Z.div_lt_upper_bound; lia].
    destruct (Z.lt_ge_cases hz 19); [|lia].
    assert (1193182 / 18 ≤ 1193182 / hz) as Hd by (apply Z.div_le_compat_l; lia).
    change (1193182 / 18) with 66287 in Hd. revert H Hd. generalize (1193182 / hz). lia. }
  assert (Hq0 : 0 ≤ PIT_FREQ / hz) by (apply Z.div_pos; unfold PIT_FREQ; lia).
  set (q := PIT_FREQ / hz) in *. clearbody q.
  destruct (Z.leb_spec 19 hz); destruct (Z.ltb_spec q 65536); try (exfalso; lia); [|reflexivity].
  cbn. change 0xFF with (Z.ones 8). rewrite !Z.land_ones, Z.shiftr_div_pow2 by lia. change (2 ^ 8) with 256.
  unfold outb. cbn. do 3 f_equal. dlia.
Qed.

(** A polling loop ends at the first read that is late enough. *)
Lemma poll_until_spec (stop : Z) reads : ∀ k n fuel, (k < fuel)%nat →
  (∀ i, (n ≤ i < n + k)%nat → reads i < stop) → stop ≤ reads (n + k)%nat →
  poll_until fuel (λ now, Ret (now <? stop)) reads n = Ret (n + k)%nat.
Proof.
  induction k as [|k IH]; intros n [|fuel] Hf Hb Hs; try lia; cbn [poll_until]; exec_simpl.
  - rewrite Nat.add_0_r in *. by rewrite (proj2 (Z.ltb_ge _ _)).
  - rewrite (proj2 (Z.ltb_lt _ _)) by (apply Hb; lia).
    rewrite IH; [f_equal; lia|lia|intros; apply Hb; lia|]. by replace (S n + k)%nat with (n + S k)%nat by lia.
Qed.

(** [sleep_busy] returns once the uptime has advanced by [ms], if it ever does. *)
Lemma sleep_busy_ends ms reads k fuel : reads O + ms < U64 → (k < fuel)%nat →
  (∀ i, (1 ≤ i < 1 + k)%nat → reads i < reads O + ms) → reads O + ms ≤ reads (1 + k)%nat →
  sleep_busy fuel ms reads = Ret (1 + k)%nat.
Proof.
  intros Hb Hf Hlt Hs. unfold sleep_busy. rewrite u64_add_ok by done. exec_simpl. by apply poll_until_spec.
Qed.

(** The clock runs for [U64 / 10^9] ticks of the counter; then the
    multiplication in [nanos] overflows. *)
Lemma nanos_correct c tsc : 0 ≤ tsc → 0 < TSC_FREQ_HZ c →
  nanos c tsc = if tsc <=? 18446744073 then Ret (tsc * 1000000000 / TSC_FREQ_HZ c) else Panic.
Proof.
  intros Ht Hf. unfold nanos, tsc_freq_hz, u64_mul. rewrite (proj2 (Z.eqb_neq _ _)) by lia.
  destruct (Z.leb_spec tsc 18446744073).
  - by rewrite (proj2 (Z.ltb_lt _ _)) by lia.
  - by rewrite (proj2 (Z.ltb_ge _ _)) by lia.
Qed.

(** A polling loop whose test is true until some poll ends there. *)
Lemma poll_until_test test reads : ∀ k n fuel, (k < fuel)%nat →
  (∀ i, (n ≤ i < n + k)%nat → test (reads i) = Ret true) → test (reads (n + k)%nat) = Ret false →
  poll_until fuel test reads n = Ret (n + k)%nat.
Proof.
  induction k as [|k IH]; intros n [|fuel] Hf Hb Hs; try lia; cbn [poll_until].
  - rewrite Nat.add_0_r in *. by rewrite Hs.
  - rewrite (Hb n) by lia. exec_simpl. rewrite IH; [f_equal; lia|lia|intros; apply Hb; lia|]. by replace (S n + k)%nat with (n + S k)%nat by lia.
Qed.

(** [calibrate_tsc] ends at the first poll that sees ten milliseconds gone, and
    stores the counter's frequency over that time. *)
Lemma calibrate_tsc_ends c tsc reads k fuel : (k < fuel)%nat → (∀ i, is_u64 (tsc i)) →
  (∀ i, (1 ≤ i < 1 + k)%nat → reads O ≤ reads i < reads O + 10) → reads O + 10 ≤ reads (1 + k)%nat →
  tsc O ≤ tsc (1 + k)%nat → (tsc (1 + k)%nat - tsc O) * 1000 < U64 →
  calibrate_tsc fuel c tsc reads =
    Ret {| TICK_COUNT := TICK_COUNT c; UPTIME_MS := UPTIME_MS c; TSC_FREQ_HZ := (tsc (1 + k)%nat - tsc O) * 1000 / 10 |}.
Proof.
  intros Hf Hu Hlt Hs Ht Hb. unfold calibrate_tsc. cbv zeta. rewrite (poll_until_test _ reads k 1 fuel Hf).
  - exec_simpl. unfold rdtsc. rewrite !join_halves by done. rewrite u64_sub_ok by lia. exec_simpl. rewrite u64_mul_ok by done. done.
  - intros i Hi. specialize (Hlt i Hi). rewrite u64_sub_ok by lia. exec_simpl. f_equal. apply Z.ltb_lt. lia.
  - rewrite u64_sub_ok by lia. exec_simpl. f_equal. apply Z.ltb_ge. lia.
Qed.

(** With a calibrated clock [udelay] waits until [us] microseconds of the counter
    have passed; once the counter is past the limit of [nanos] every call panics. *)
Lemma udelay_ends us clk tsc freq k fuel : 0 < freq → (∀ i, TSC_FREQ_HZ (clk i) = freq) → (∀ i, 0 ≤ tsc i) →
  (∀ i j, (i ≤ j ≤ 1 + k)%nat → tsc i ≤ tsc j) → tsc (1 + k)%nat ≤ 18446744073 → (k < fuel)%nat →
  let us_at i := tsc i * 1000000000 / freq / 1000 in
  (∀ i, (1 ≤ i < 1 + k)%nat → us_at i - us_at O < us) → us ≤ us_at (1 + k)%nat - us_at O →
  udelay fuel us clk tsc = Ret (1 + k)%nat.
Proof.
  intros Hq Hc H0 Hm Hl Hf us_at Hlt Hs.
  assert (Hn : ∀ i, (i ≤ 1 + k)%nat → nanos (clk i) (rdtsc (tsc i)) = Ret (tsc i * 1000000000 / freq)).
  { intros i Hi. assert (tsc i ≤ 18446744073) by (transitivity (tsc (1 + k)%nat); [apply Hm; lia|done]).
    unfold rdtsc. rewrite join_halves by (unfold is_u64; specialize (H0 i); lia). rewrite nanos_correct, Hc by (rewrite ?Hc; auto).
    by rewrite (proj2 (Z.leb_le _ _)). }
  assert (Hd : ∀ i, (i ≤ 1 + k)%nat → us_at O ≤ us_at i).
  { intros i Hi. unfold us_at. apply Z.div_le_mono, Z.div_le_mono, Z.mul_le_mono_nonneg_r; try lia. apply Hm. lia. }
  unfold udelay. rewrite Hn by lia. exec_simpl. apply poll_until_test; [done| |].
  - intros i Hi. rewrite Nat2Z.id, Hn by lia. exec_simpl. rewrite u64_sub_ok by (apply Hd; lia). exec_simpl. f_equal. apply Z.ltb_lt. by apply Hlt.
  - rewrite Nat2Z.id, Hn by lia. exec_simpl. rewrite u64_sub_ok by (apply Hd; lia). exec_simpl. f_equal. by apply Z.ltb_ge.
Qed.

Lemma udelay_panics us clk tsc fuel : 0 < TSC_FREQ_HZ (clk O) → 18446744073 < tsc O → is_u64 (tsc O) → udelay fuel us clk tsc = Panic.
Proof.
  intros Hf Ht Hu. unfold udelay, rdtsc. rewrite join_halves, nanos_correct by (destruct Hu; done || lia). by rewrite (proj2 (Z.leb_gt _ _)).
Qed.
