(* ===== verification/Syscall.v ===== *)
(** The system calls ([src/src/syscall.rs]) and the page fault exception they
    rely on when they touch user memory ([exc_page_fault] of
    [src/src/arch/x86_64/idt.rs]). *)
From S2P Require Import Prelude Machine Pmm Vmm Vma UserMem Effects Elf Proc Fork Exec.
From S2P Require Import Text Vfs Mount Execve Keyboard Timer Serial.

Module nr.
Definition SYS_READ := 0.
Definition SYS_WRITE := 1.
Definition SYS_OPEN := 2.
Definition SYS_CLOSE := 3.
Definition SYS_MMAP := 9.
Definition SYS_MUNMAP := 11.
Definition SYS_BRK := 12.
Definition SYS_SIGACTION := 13.
Definition SYS_SIGPROCMASK := 14.
Definition SYS_IOCTL := 16.
Definition SYS_FORK := 57.
Definition SYS_VFORK := 58.
Definition SYS_EXECVE := 59.
Definition SYS_EXIT := 60.
Definition SYS_WAIT4 := 61.
Definition SYS_KILL := 62.
Definition SYS_UNAME := 63.
Definition SYS_GETPID := 39.
Definition SYS_GETPPID := 110.
Definition SYS_GETUID := 102.
Definition SYS_GETGID := 104.
Definition SYS_GETTID := 186.
Definition SYS_SET_TID_ADDRESS := 218.
Definition SYS_EXIT_GROUP := 231.
Definition SYS_CLOCK_GETTIME := 228.
End nr.

Module errno.
Definition ENOSYS := 38.
Definition EINVAL := 22.
Definition EBADF := 9.
Definition ENOMEM := 12.
Definition EFAULT := 14.
Definition EAGAIN := 11.
End errno.

(** The parts of the kernel's state the system calls read or change: memory, the
    scheduler, the keyboard, the clock, the file system, and the bytes sent on
    the serial line, oldest first. *)
Record kernel (St : Type) := {
  k_mm : mm; k_rq : sched; k_kbd : kbd; k_clock : clock; k_fs : St; k_serial : list Z
}.
Arguments k_mm {St} _.
Arguments k_rq {St} _.
Arguments k_kbd {St} _.
Arguments k_clock {St} _.
Arguments k_fs {St} _.
Arguments k_serial {St} _.

Section Syscall.
Context {hh : Hhdm} {St I : Type} {ops : InodeOps St I}.
Implicit Types (k : kernel St) (s : mm) (rq : sched).

Definition with_mm k s : kernel St :=
  {| k_mm := s; k_rq := k_rq k; k_kbd := k_kbd k; k_clock := k_clock k; k_fs := k_fs k; k_serial := k_serial k |}.
Definition with_rq k rq : kernel St :=
  {| k_mm := k_mm k; k_rq := rq; k_kbd := k_kbd k; k_clock := k_clock k; k_fs := k_fs k; k_serial := k_serial k |}.
Definition with_kbd k (b : kbd) : kernel St :=
  {| k_mm := k_mm k; k_rq := k_rq k; k_kbd := b; k_clock := k_clock k; k_fs := k_fs k; k_serial := k_serial k |}.
Definition with_fs k (fs : St) : kernel St :=
  {| k_mm := k_mm k; k_rq := k_rq k; k_kbd := k_kbd k; k_clock := k_clock k; k_fs := fs; k_serial := k_serial k |}.
Definition with_serial k (out : list Z) : kernel St :=
  {| k_mm := k_mm k; k_rq := k_rq k; k_kbd := k_kbd k; k_clock := k_clock k; k_fs := k_fs k; k_serial := out |}.

(** The current process, whose address space is the active one. *)
Definition cur_proc rq : exec (option (positive * Process)) :=
  match current_process rq with
  | None => Ret None
  | Some h => p ← expect (procs rq !! h); Ret (Some (h, p))
  end.

(** ** Page faults: a fault that is not resolved ends in a panic, in user mode
    through [deliver_signal] *)
Definition exc_page_fault s (cur : option (AddressSpace * VmSpace)) (cr2 error_code : Z) : exec mm :=
  if has error_code 8 then Panic else
  '(handled, s) ← handle_page_fault s cur cr2 error_code;
  if handled : bool then Ret s else Panic.

(** ** Kernel accesses through a user pointer

    The processor refuses an address that is not canonical, a page that is not
    present, a user page if [smap] is on, and a write to a read-only page
    ([CR0.WP]); the fault handler runs and the access is repeated. *)
Context (smap : bool).

Definition canonical (v : Z) : bool := (v <? 2 ^ 47) || (U64 - 2 ^ 47 <=? v) && (v <? U64).
Definition leaf_entry (l : leaf) : Z := match l with Small e | Large e => e end.

Definition access_fault (write : bool) (l : option leaf) : option Z :=
  let w := if write then 2 else 0 in
  match l with
  | None => Some w
  | Some l =>
      if smap && has (leaf_entry l) PTE_USER then Some (1 + w)
      else if write && negb (has (leaf_entry l) PTE_WRITABLE) then Some 3
      else None
  end.

(** The address in the direct map of the byte at [v]. *)
Fixpoint user_access (fuel : nat) (write : bool) s sp (vm : VmSpace) (v : Z) : exec (Z * mm) :=
  if negb (canonical v) then Panic else
  let l := mmu_walk (ram s) (pml4_phys sp) v in
  match access_fault write l with
  | None => match l with Some l => Ret (hhdm_offset + leaf_phys v l, s) | None => Panic end
  | Some code =>
      match fuel with
      | O => NoFuel
      | S fuel => s ← exc_page_fault s (Some (sp, vm)) v code; user_access fuel write s sp vm v
      end
  end.

(** One fault per access is enough: a handled fault maps the page. *)
Definition load_user s sp vm (v : Z) : exec (Z * mm) :=
  '(a, s) ← user_access 1 false s sp vm v; Ret (load8 (ram s) a, s).
Definition store_user s sp vm (v b : Z) : exec mm :=
  '(a, s) ← user_access 1 true s sp vm v; Ret (set_ram s (store_bytes (ram s) a [b])).

(** [core::slice::from_raw_parts(buf, count)], read in full. *)
Fixpoint load_slice (n : nat) s sp vm (v : Z) : exec (list Z * mm) :=
  match n with
  | O => Ret ([], s)
  | S n =>
      '(b, s) ← load_user s sp vm v;
      '(bs, s) ← load_slice n s sp vm (v + 1);
      Ret (b :: bs, s)
  end.

(** ** [mod fs] *)
(** [serial::write_str]: what the line has sent grows by the bytes of [str]. *)
Definition write_str (out str : list Z) : list Z := out ++ crlf str.

(** The user memory of a system call is that of the process that makes it. *)
Definition sys_write (fd buf count : Z) k : exec (Z * kernel St) :=
  if (buf =? 0) || (count =? 0) then Ret (- errno.EFAULT, k) else
  if (fd =? 1) || (fd =? 2) then
    _ ← assert_ (count <=? ISIZE_MAX);
    cur ← cur_proc (k_rq k);
    '(_, p) ← expect cur;
    '(bs, s) ← load_slice (Z.to_nat count) (k_mm k) (address_space p) (vm p) buf;
    let k := with_mm k s in
    let k := if utf8_valid bs then with_serial k (write_str (k_serial k) bs) else k in
    Ret (count, k)
  else Ret (- errno.EBADF, k).

Definition sys_read (fd buf count : Z) k : exec (Z * kernel St) :=
  if (buf =? 0) || (count =? 0) then Ret (- errno.EFAULT, k) else
  if fd =? 0 then
    '(c, (b, rq)) ← read_char (k_kbd k, k_rq k);
    let k := with_rq (with_kbd k b) rq in
    match c with
    | Some c =>
        cur ← cur_proc (k_rq k);
        '(_, p) ← expect cur;
        s ← store_user (k_mm k) (address_space p) (vm p) buf c;
        Ret (1, with_mm k s)
    | None => Ret (- errno.EAGAIN, k)
    end
  else Ret (- errno.EBADF, k).

(** ** [mod mm] *)
(** [x as i64] *)
Definition to_i64 (x : Z) : Z := if x <? 2 ^ 63 then x else x - U64.

Definition set_vm (v : VmSpace) (p : Process) : Process := set_image (address_space p) v (name p) p.
Definition set_brk_of (vm : VmSpace) (b : Z) : VmSpace := {| areas := areas vm; brk := b |}.

Definition prot_flags (prot : Z) : Z :=
  let vf := VMA_ANONYMOUS in
  let vf := if has prot 1 then Z.lor vf VMA_READ else vf in
  let vf := if has prot 2 then Z.lor vf VMA_WRITE else vf in
  if has prot 4 then Z.lor vf VMA_EXEC else vf.

(** The file descriptor and the offset are not used. *)
Definition sys_mmap (addr len prot flags : Z) k : exec (Z * kernel St) :=
  if len =? 0 then Ret (- errno.EINVAL, k) else
  cur ← cur_proc (k_rq k);
  match cur with
  | None => Ret (- errno.ENOMEM, k)
  | Some (h, p) =>
      let fixed := negb (addr =? 0) && has flags 0x10 in
      let virt := if fixed then addr else brk (vm p) in
      l ← u64_add len PAGE_SIZE;
      let size := Z.land (l - 1) (u64_not (PAGE_SIZE - 1)) in
      end_ ← u64_add virt size;
      let v := add_vma (vm p) virt end_ (prot_flags prot) in
      let v := if fixed then v else set_brk_of v end_ in
      Ret (to_i64 virt, with_rq k (with_proc (set_vm v) h (k_rq k)))
  end.

Fixpoint unmap_loop (fuel : nat) s sp (v end_ : Z) : exec mm :=
  if v <? end_ then
    match fuel with
    | O => NoFuel
    | S fuel => s ← unmap s sp v; v ← u64_add v PAGE_SIZE; unmap_loop fuel s sp v end_
    end
  else Ret s.

Definition sys_munmap (addr len : Z) k : exec (Z * kernel St) :=
  if negb (addr mod PAGE_SIZE =? 0) then Ret (- errno.EINVAL, k) else
  cur ← cur_proc (k_rq k);
  match cur with
  | None => Ret (- errno.EINVAL, k)
  | Some (h, p) =>
      end_ ← u64_add addr len;
      let rq := with_proc (set_vm (remove_vma (vm p) addr end_)) h (k_rq k) in
      s ← unmap_loop (Z.to_nat (len / PAGE_SIZE + 1)) (k_mm k) (address_space p) addr end_;
      Ret (0, with_mm (with_rq k rq) s)
  end.

Definition sys_brk (nb : Z) k : exec (Z * kernel St) :=
  cur ← cur_proc (k_rq k);
  match cur with
  | None => Ret (- errno.ENOMEM, k)
  | Some (h, p) =>
      if (nb =? 0) || (nb <? brk (vm p)) then Ret (to_i64 (brk (vm p)), k)
      else
        let v := add_vma (vm p) (brk (vm p)) nb (Z.lor (Z.lor VMA_READ VMA_WRITE) VMA_ANONYMOUS) in
        Ret (to_i64 nb, with_rq k (with_proc (set_vm (set_brk_of v nb)) h (k_rq k)))
  end.

(** ** [mod misc] *)
(** A buffer at a translated user address. *)
Definition user_buffer (ptr : Z) k : exec (option Z) :=
  if ptr =? 0 then Ret None else
  cur ← cur_proc (k_rq k);
  match cur with
  | None => Ret None
  | Some (_, p) =>
      r ← translate (ram (k_mm k)) (address_space p) ptr;
      match r with
      | None => Ret None
      | Some phys => a ← phys_to_virt phys; Ret (Some a)
      end
  end.

(** The six fields of 65 bytes. *)
Definition utsname : list Z :=
  let field str := str ++ replicate (65 - length str) 0 in
  concat (field <$> [[77; 121; 79; 83]; [109; 121; 111; 115]; [48; 46; 49; 46; 48];
                     [35; 49; 32; 83; 77; 80]; [120; 56; 54; 95; 54; 52]; []]).

Definition sys_uname (ptr : Z) k : exec (Z * kernel St) :=
  r ← user_buffer ptr k;
  match r with
  | None => Ret (- errno.EFAULT, k)
  | Some a => Ret (0, with_mm k (set_ram (k_mm k) (store_bytes (ram (k_mm k)) a utsname)))
  end.

(** [tsc] is what [rdtsc] returns. *)
Definition sys_clock_gettime (tsc ptr : Z) k : exec (Z * kernel St) :=
  r ← user_buffer ptr k;
  match r with
  | None => Ret (- errno.EFAULT, k)
  | Some a =>
      ns ← nanos (k_clock k) tsc;
      let m := store64 (ram (k_mm k)) a (ns / 1000000000) in
      let m := store64 m (a + 8) (ns mod 1000000000) in
      Ret (0, with_mm k (set_ram (k_mm k) m))
  end.

(** ** [syscall_dispatch]

    A system call returns a number, gives up the processor, or enters a new
    image. A call that sleeps is repeated when the process runs again. *)
Inductive sys_outcome :=
  | SysReturn (ret : Z) (k : kernel St)
  | SysSwitch (t : transfer) (k : kernel St)
  | SysEnter (ent rsp kst cr3 : Z) (k : kernel St).

(** [a as i32] *)
Definition to_i32 (a : Z) : Z := if a mod U32 <? 2 ^ 31 then a mod U32 else a mod U32 - U32.

Definition returns (r : exec (Z * kernel St)) : exec sys_outcome := '(n, k) ← r; Ret (SysReturn n k).

Context (KERNEL_PML4_PHYS fork_child_return : Z) (INITRD : option (list Z)) (vfs : VfsContext I).

Definition cur_pid k (none : Z) (f : Process → Z) : exec sys_outcome :=
  cur ← cur_proc (k_rq k);
  Ret (SysReturn (match cur with Some (_, p) => f p | None => none end) k).

Definition syscall_dispatch (tsc n a0 a1 a2 a3 a4 a5 : Z) k : exec sys_outcome :=
  if n =? nr.SYS_READ then returns (sys_read (to_i32 a0) a1 a2 k)
  else if n =? nr.SYS_WRITE then returns (sys_write (to_i32 a0) a1 a2 k)
  else if n =? nr.SYS_OPEN then Ret (SysReturn (- errno.ENOSYS) k)
  else if n =? nr.SYS_CLOSE then Ret (SysReturn (if a0 <=? 2 then 0 else - errno.EBADF) k)
  else if (n =? nr.SYS_FORK) || (n =? nr.SYS_VFORK) then
    '(r, s, rq) ← sys_fork_simple fork_child_return (k_mm k) (k_rq k);
    Ret (SysReturn r (with_rq (with_mm k s) rq))
  else if n =? nr.SYS_EXECVE then
    '(o, fs) ← sys_execve_simple KERNEL_PML4_PHYS INITRD vfs a0 a1 a2 (k_mm k) (k_rq k) (k_fs k);
    let k := with_fs k fs in
    match o with
    | ExecReturn r s rq => Ret (SysReturn r (with_rq (with_mm k s) rq))
    | ExecEnter ent rsp kst cr3 s rq => Ret (SysEnter ent rsp kst cr3 (with_rq (with_mm k s) rq))
    end
  else if (n =? nr.SYS_EXIT) || (n =? nr.SYS_EXIT_GROUP) then
    '(rq, t) ← sys_exit (k_rq k) (to_i32 a0); Ret (SysSwitch t (with_rq k rq))
  else if n =? nr.SYS_WAIT4 then
    o ← waitpid_round (k_mm k) (k_rq k) (to_i32 a0) a1 (a2 mod U32);
    match o with
    | Waited r s rq => Ret (SysReturn r (with_rq (with_mm k s) rq))
    | Slept rq t => Ret (SysSwitch t (with_rq k rq))
    end
  else if n =? nr.SYS_KILL then Ret (SysReturn 0 k)
  else if n =? nr.SYS_GETPID then cur_pid k 1 pid
  else if n =? nr.SYS_GETPPID then cur_pid k 0 ppid
  else if (n =? nr.SYS_GETTID) || (n =? nr.SYS_SET_TID_ADDRESS) then cur_pid k 1 pid
  else if (n =? nr.SYS_GETUID) || (n =? nr.SYS_GETGID) then Ret (SysReturn 0 k)
  else if n =? nr.SYS_MMAP then returns (sys_mmap a0 a1 a2 a3 k)
  else if n =? nr.SYS_MUNMAP then returns (sys_munmap a0 a1 k)
  else if n =? nr.SYS_BRK then returns (sys_brk a0 k)
  else if n =? nr.SYS_UNAME then returns (sys_uname a0 k)
  else if n =? nr.SYS_CLOCK_GETTIME then returns (sys_clock_gettime tsc a1 k)
  else if (n =? nr.SYS_SIGACTION) || (n =? nr.SYS_SIGPROCMASK) || (n =? nr.SYS_IOCTL) then Ret (SysReturn 0 k)
  else Ret (SysReturn (- errno.ENOSYS) k).

(** The registers of an [InterruptFrame] that [int 0x80] uses. *)
Record call_regs := { f_rax : Z; f_rdi : Z; f_rsi : Z; f_rdx : Z; f_r10 : Z; f_r8 : Z; f_r9 : Z }.

(** [syscall::handle_int80]: the outcome, with the value for [rax] if the call
    returns. *)
Definition handle_int80 (tsc : Z) (f : call_regs) k : exec (sys_outcome * Z) :=
  o ← syscall_dispatch tsc (f_rax f) (f_rdi f) (f_rsi f) (f_rdx f) (f_r10 f) (f_r8 f) (f_r9 f) k;
  Ret (o, match o with SysReturn r _ => u64_wrap r | _ => f_rax f end).

(** [syscall_entry::handle_int80], which nothing calls, passes three arguments. *)
Definition handle_int80_short (tsc : Z) (f : call_regs) k : exec (sys_outcome * Z) :=
  o ← syscall_dispatch tsc (f_rax f) (f_rdi f) (f_rsi f) (f_rdx f) 0 0 0 k;
  Ret (o, match o with SysReturn r _ => u64_wrap r | _ => f_rax f end).
End Syscall.

(** ** Specifications *)
Section Access.
Context {hh : Hhdm} (inv : mm → gset Z → Prop) {FA : FrameAllocator inv}.
Implicit Types (s : mm) (F : gset Z) (T : gmap (list Z) Z) (D : gmap Z (Z * Z)) (vm : VmSpace).

Lemma user_leaf s F P T D v q fl : uspace inv s F P T D → is_user v → D !! page v = Some (q, fl) →
  mmu_walk (ram s) P v = Some (Small (make_pte q fl)) ∧
  hhdm_offset + leaf_phys v (Small (make_pte q fl)) = table_at q + v mod PAGE_SIZE ∧
  has (make_pte q fl) PTE_WRITABLE = has fl PTE_WRITABLE ∧ has (make_pte q fl) PTE_USER = has fl PTE_USER.
Proof.
  intros HU Hv Hq. destruct (us_node _ _ _ _ _ _ HU _ _ _ Hq) as (Hn & _ & Hf).
  rewrite (us_walk _ _ _ _ _ _ HU v Hv), Hq. split_and!; [done|..].
  - cbn [leaf_phys]. rewrite make_pte_addr, mask_node by done. unfold table_at. lia.
  - unfold make_pte. rewrite !has_lor, has_mask by done. by rewrite orb_false_r.
  - unfold make_pte. rewrite !has_lor, has_mask by done. by rewrite orb_false_r.
Qed.

Lemma canonical_user v : is_user v → canonical v = true.
Proof. intros Hv. unfold canonical. by rewrite (proj2 (Z.ltb_lt _ _)) by apply Hv. Qed.

(** An access that the page allows needs no fault. *)
Lemma user_access_ok fuel write s F P T D vm v q fl : uspace inv s F P T D → is_user v →
  D !! page v = Some (q, fl) → (write = true → has fl PTE_WRITABLE = true) →
  user_access false fuel write s {| pml4_phys := P |} vm v = Ret (table_at q + v mod PAGE_SIZE, s).
Proof.
  intros HU Hv Hq Hwr. destruct (user_leaf s F P T D v q fl HU Hv Hq) as (Hw & Ha & Hpw & _).
  assert (E : access_fault false write (Some (Small (make_pte q fl))) = None).
  { destruct write; cbn [access_fault andb leaf_entry]; [|done]. by rewrite Hpw, Hwr. }
  destruct fuel; cbn [user_access]; rewrite canonical_user by done; cbn [negb pml4_phys]; by rewrite Hw, E, Ha.
Qed.

Lemma user_access_fault smap fuel write s sp vm v code : is_user v →
  access_fault smap write (mmu_walk (ram s) (pml4_phys sp) v) = Some code →
  user_access smap (S fuel) write s sp vm v =
    (s ← exc_page_fault s (Some (sp, vm)) v code; user_access smap fuel write s sp vm v).
Proof. intros Hv E. cbn [user_access]. rewrite canonical_user by done. cbn [negb]. by rewrite E. Qed.

Lemma load_user_ok s F P T D vm v b : uspace inv s F P T D → is_user v → ubyte (ram s) D v = Some b →
  load_user false s {| pml4_phys := P |} vm v = Ret (b mod 256, s).
Proof.
  intros HU Hv Hb. unfold ubyte in Hb. destruct (D !! page v) as [[q fl]|] eqn:Hq; [|done].
  unfold load_user. rewrite (user_access_ok 1 false s F P T D vm v q fl) by done. exec_simpl.
  unfold load8. cbn in Hb. by simplify_eq.
Qed.

(** With supervisor access prevention, a touch of a mapped user page is a fault
    that the handler does not resolve. *)
Lemma smap_access_panics s F P T D vm v q fl : uspace inv s F P T D → is_user v →
  D !! page v = Some (q, fl) → has fl PTE_USER = true → load_user true s {| pml4_phys := P |} vm v = Panic.
Proof.
  intros HU Hv Hq Hu. destruct (user_leaf s F P T D v q fl HU Hv Hq) as (Hw & _ & _ & Huser).
  unfold load_user. rewrite (user_access_fault true 0 false s _ vm v 1 Hv).
  2: { cbn [pml4_phys]. rewrite Hw. cbn [access_fault leaf_entry]. by rewrite Huser, Hu. }
  unfold exc_page_fault, handle_page_fault.
  change (has 1 8) with false. change (has 1 1) with true. change (has 1 2) with false.
  by destruct (find_vma vm v).
Qed.

(** The first write to a page of a writable area: the page is committed, zero
    except for the byte. *)
Lemma demand_store s F P T D vm vma v b :
  uspace inv s F P T D → is_user v → D !! page v = None → find_vma vm v = Some vma →
  flags_contain (vma_flags vma) VMA_WRITE = true → (4 ≤ stdpp.base.size F)%nat →
  ∃ s' F' T' q, let D' := <[page v := (q, vma_pte_flags vma)]> D in
    store_user false s {| pml4_phys := P |} vm v b = Ret s' ∧ extends inv P s F T D s' F' T' D' ∧
    ∀ w, ubyte (ram s') D' w =
      if decide (w = v) then Some b else if decide (page w = page v) then Some 0 else ubyte (ram s) D w.
Proof.
  intros HU Hv Hq Hf Hwr Hsz. destruct (page_aligned_user v Hv) as (Hal & Hpu & Hpp).
  destruct (commit_alloc inv s F P T D HU) as (r & s1 & E1 & H1).
  destruct r as [q|]; [|destruct H1 as [_ ->]; rewrite size_empty in Hsz; lia].
  destruct H1 as (Hn & HqF & HU1 & Hz & Hm1).
  destruct (commit_map inv s F P T D (PAGE_SIZE * page v) q (vma_pte_flags vma) s1 HU Hpu (vma_flags_ok vma) Hn HqF HU1 Hz Hm1)
    as (ok & s2 & F' & T' & E2 & Hok & _ & HX & Hb). rewrite Hok in * by done. rewrite Hpp in *. cbn zeta in *.
  set (D' := <[page v := (q, vma_pte_flags vma)]> D) in *.
  assert (Hq' : D' !! page v = Some (q, vma_pte_flags vma)) by apply lookup_insert_eq.
  pose proof (ex_space _ _ _ _ _ _ _ _ _ _ HX) as HU2. destruct (vma_flags_has vma) as (_ & Hpw & _). rewrite Hwr in Hpw.
  pose proof (Z.mod_pos_bound v PAGE_SIZE ltac:(lia)) as Hvm.
  destruct (write_page inv s2 F' P T' D' v q (vma_pte_flags vma) [b] HU2 Hq') as [HX2 Hb2]; [cbn [length]; lia|].
  eexists _, F', T', q. fold D'. split; [|split; [by eapply extends_trans|]].
  - unfold store_user. rewrite (user_access_fault false 0 true s _ vm v 2 Hv).
    2: { cbn [pml4_phys]. by rewrite (us_walk _ _ _ _ _ _ HU v Hv), Hq. }
    unfold exc_page_fault, handle_page_fault. rewrite Hf, Hwr. change (has 2 8) with false. change (has 2 1) with false.
    change (has 2 2) with true. cbn [andb negb]. unfold handle_demand_page. rewrite Hal. exec_simpl. rewrite E1. exec_simpl.
    rewrite E2. exec_simpl.
    rewrite (user_access_ok 0 true s2 F' P T' D' vm v q _ HU2 Hv Hq') by done. by exec_simpl.
  - intros w. rewrite Hb2. unfold written. cbn [length]. destruct (decide (w = v)) as [->|Hne].
    + rewrite decide_True by lia. by rewrite Z.sub_diag.
    + rewrite decide_False by lia. rewrite Hb. destruct (decide (page w = page v)), (decide _) as [[]|]; naive_solver.
Qed.
End Access.

Section Calls.
Context {hh : Hhdm} {St : Type}.
Implicit Types (s : mm) (F : gset Z) (T : gmap (list Z) Z) (D : gmap Z (Z * Z)) (k : kernel St) (p : Process).

(** [p], under handle [h], makes the call; its page tables have the root [P]. *)
Record caller k (h : positive) p (P : Z) : Prop := {
  ca_cur : current (k_rq k) = Some h;
  ca_proc : procs (k_rq k) !! h = Some p;
  ca_space : address_space p = {| pml4_phys := P |}
}.

Lemma cur_proc_ok k h p P : caller k h p P → cur_proc (k_rq k) = Ret (Some (h, p)).
Proof. intros [Hc Hp _]. unfold cur_proc, current_process. by rewrite Hc, Hp. Qed.

Lemma load_slice_ok co s F P T D v : ∀ bs a, uspace (pmm_inv co) s F P T D → Forall is_byte bs →
  (∀ (i : nat) b, bs !! i = Some b → ubyte (ram s) D (a + i) = Some b) → 0 ≤ a → a + length bs ≤ 2 ^ 47 →
  load_slice false (length bs) s {| pml4_phys := P |} v a = Ret (bs, s).
Proof.
  induction bs as [|b bs IH]; intros a HU Hb Hm Ha Hl; [done|]. cbn [length load_slice] in *.
  inversion Hb as [|?? Hb1 Hb2]; subst. change (2 ^ 47) with 140737488355328 in *.
  rewrite (load_user_ok (pmm_inv co) s F P T D v a b HU).
  - exec_simpl. rewrite IH; [|done|done| |lia|lia].
    + exec_simpl. by rewrite Z.mod_small by apply Hb1.
    + intros i c Hi. replace (a + 1 + i) with (a + S i) by lia. by apply Hm.
  - unfold is_user. change (2 ^ 47) with 140737488355328. lia.
  - specialize (Hm 0%nat b eq_refl). by rewrite Z.add_0_r in Hm.
Qed.

(** C36: [write] to descriptor 1 or 2 from a buffer in mapped pages sends the bytes
    on the serial line if they are valid UTF-8, with a carriage return before
    each newline, and nothing otherwise; in both cases it returns the count and
    changes nothing else. On a processor with supervisor access prevention,
    which the kernel turns on where it exists, the same call panics. *)
Theorem sys_write_correct co k h p P F T D (fd buf : Z) bs :
  caller k h p P → uspace (pmm_inv co) (k_mm k) F P T D → fd = 1 ∨ fd = 2 → bs ≠ [] → Forall is_byte bs →
  0 < buf → buf + length bs ≤ 2 ^ 47 →
  (∀ (i : nat) b, bs !! i = Some b → ubyte (ram (k_mm k)) D (buf + i) = Some b) →
  sys_write false fd buf (length bs) k =
    Ret (Z.of_nat (length bs), with_serial k (k_serial k ++
      (if utf8_valid bs then concat ((λ b, if b =? 10 then [13; 10] else [b]) <$> bs) else []))) ∧
  ((∀ q fl, D !! page buf = Some (q, fl) → has fl PTE_USER = true) → sys_write true fd buf (length bs) k = Panic).
Proof.
  intros Hca HU Hfd Hne Hb H0 Hl Hm. change (2 ^ 47) with 140737488355328 in *.
  assert (Hn : 0 < length bs) by (destruct bs; [done|cbn; lia]).
  assert (Hu : is_user buf) by (unfold is_user; change (2 ^ 47) with 140737488355328; lia).
  unfold sys_write. rewrite (proj2 (Z.eqb_neq buf 0)), (proj2 (Z.eqb_neq (length bs) 0)) by lia. cbn [orb].
  assert ((fd =? 1) || (fd =? 2) = true) as -> by (by destruct Hfd; subst fd).
  unfold assert_. rewrite (proj2 (Z.leb_le _ _)) by lia. exec_simpl.
  rewrite (cur_proc_ok k h p P Hca). exec_simpl. cbn [expect]. exec_simpl.
  rewrite (ca_space _ _ _ _ Hca), Nat2Z.id. split.
  - rewrite (load_slice_ok co _ F P T D) by (done || lia). exec_simpl. destruct k as [s rq kb cl fs out].
    destruct (utf8_valid bs); cbn; [done|]. by rewrite app_nil_r.
  - intros Hus. destruct bs as [|b bs]; [done|]. specialize (Hm 0%nat b eq_refl). rewrite Z.add_0_r in Hm.
    unfold ubyte in Hm. destruct (D !! page buf) as [[q fl]|] eqn:Hq; [|done].
    cbn [length load_slice]. by rewrite (smap_access_panics (pmm_inv co) (k_mm k) F P T D _ buf q fl HU Hu Hq (Hus q fl eq_refl)).
Qed.

(** *** [mmap] *)
Lemma add_area vm (b e fl : Z) : disjoint_areas (areas vm) →
  (∀ a x, a ∈ areas vm → contains a x = true → ¬ (b ≤ x < e)) →
  disjoint_areas (areas (add_vma vm b e fl)) ∧
  (∀ x, b ≤ x < e → find_vma (add_vma vm b e fl) x = Some {| start := b; end_ := e; vma_flags := fl |}) ∧
  (∀ x, ¬ (b ≤ x < e) → find_vma (add_vma vm b e fl) x = find_vma vm x).
Proof.
  intros Hd Hfree. pose proof (add_vma_perm vm b e fl) as Hp. set (new := {| start := b; end_ := e; vma_flags := fl |}) in *.
  assert (Hc : ∀ x, contains new x = true ↔ b ≤ x < e).
  { intros x. unfold contains, new. cbn. rewrite andb_true_iff, Z.leb_le, Z.ltb_lt. done. }
  assert (Hd' : disjoint_areas (areas (add_vma vm b e fl))).
  { eapply disjoint_areas_perm; [by symmetry|]. apply disjoint_areas_cons; [done|].
    intros a x Ha Hx%Hc. destruct (contains a x) eqn:E; [|done]. by destruct (Hfree a x Ha E). }
  split_and!; [done|..].
  - intros x Hx. apply find_vma_disjoint; [done| |by apply Hc]. rewrite Hp. apply list_elem_of_here.
  - intros x Hx. destruct (find_vma vm x) as [a|] eqn:E.
    + apply find_vma_Some in E as [Ha Hax]. apply find_vma_disjoint; [done| |done]. rewrite Hp. by apply list_elem_of_further.
    + rewrite find_vma_None in E. apply find_vma_None. intros a Ha. rewrite Hp in Ha. apply elem_of_cons in Ha as [->|Ha]; [|auto].
      destruct (contains new x) eqn:Hn; [|done]. by apply Hc in Hn.
Qed.

Lemma overlap_areas a b x l : b ∈ l → contains b x = true → contains a x = true → ¬ disjoint_areas (a :: l).
Proof.
  intros [i Hi]%list_elem_of_lookup Hb Ha Hd. by pose proof (Hd 0%nat (S i) a b x eq_refl Hi Ha Hb).
Qed.

Lemma prot_write prot : flags_contain (prot_flags prot) VMA_WRITE = has prot 2.
Proof. unfold prot_flags. by destruct (has prot 1), (has prot 2), (has prot 4). Qed.

Lemma caller_vm k h p P v : caller k h p P →
  caller (with_rq k (with_proc (set_vm v) h (k_rq k))) h (set_vm v p) P.
Proof. intros [Hc Hp Hs]. split; [done| |done]. cbn. by rewrite lookup_alter_eq, Hp. Qed.

Lemma mmap_size len : 0 < len → len + 4096 < U64 →
  Z.land (len + PAGE_SIZE - 1) (u64_not (PAGE_SIZE - 1)) = PAGE_SIZE * ((len + 4095) / PAGE_SIZE).
Proof.
  intros H0 H1. change (PAGE_SIZE - 1) with (2 ^ 12 - 1). rewrite land_not_ones by (unfold is_u64; lia).
  change (2 ^ 12) with PAGE_SIZE. replace (len + PAGE_SIZE - 1) with (len + 4095) by lia. dlia.
Qed.

(** C28: [mmap] of a length [len > 0] adds one area, of [len] rounded up to whole
    pages, with the permissions asked for. It starts at the address if the flags
    have [MAP_FIXED] and the address is not 0, and otherwise at the break, which
    moves past it; the range has to end below the end of user space. No memory is
    touched. If the areas were disjoint and the range was free, they are disjoint
    afterwards, exactly the addresses of the range belong to the new area, and the
    first write to a page of a writable mapping that is not mapped yet is resolved
    by demand paging: the page holds zeros and the byte written, and the other pages
    are as before. [mmap] does not check that the range is free: if it is not, the
    areas overlap afterwards. *)
Theorem mmap_correct co k h p P F T D addr len prot flags :
  let fixed := negb (addr =? 0) && has flags 0x10 in
  let b := if fixed then addr else brk (vm p) in
  let n := PAGE_SIZE * ((len + 4095) / PAGE_SIZE) in
  let new := {| start := b; end_ := b + n; vma_flags := prot_flags prot |} in
  caller k h p P → uspace (pmm_inv co) (k_mm k) F P T D → 0 < len → 0 ≤ b → b + n ≤ 2 ^ 47 →
  ∃ k' p', sys_mmap addr len prot flags k = Ret (b, k') ∧ k_mm k' = k_mm k ∧ caller k' h p' P ∧
    brk (vm p') = (if fixed then brk (vm p) else b + n) ∧ areas (vm p') ≡ₚ new :: areas (vm p) ∧
    (∀ a x, a ∈ areas (vm p) → contains a x = true → b ≤ x < b + n → ¬ disjoint_areas (areas (vm p'))) ∧
    (disjoint_areas (areas (vm p)) → (∀ a x, a ∈ areas (vm p) → contains a x = true → ¬ (b ≤ x < b + n)) →
      disjoint_areas (areas (vm p')) ∧
      (∀ x, ¬ (b ≤ x < b + n) → find_vma (vm p') x = find_vma (vm p) x) ∧
      (∀ x, b ≤ x < b + n → find_vma (vm p') x = Some new) ∧
      ∀ x c, b ≤ x < b + n → has prot 2 = true → D !! page x = None → (4 ≤ stdpp.base.size F)%nat →
        ∃ s' F' T' D', store_user false (k_mm k') {| pml4_phys := P |} (vm p') x c = Ret s' ∧
          extends (pmm_inv co) P (k_mm k) F T D s' F' T' D' ∧
          ∀ w, ubyte (ram s') D' w =
            if decide (w = x) then Some c else if decide (page w = page x) then Some 0 else ubyte (ram (k_mm k)) D w).
Proof.
  intros fixed b n new Hca HU Hlen Hb Hn. change (2 ^ 47) with 140737488355328 in *.
  assert (Hln : len ≤ n) by (unfold n; dlia).
  set (v0 := add_vma (vm p) b (b + n) (prot_flags prot)). set (v := if fixed then v0 else set_brk_of v0 (b + n)).
  assert (Hv : areas v = areas v0 ∧ brk v = if fixed then brk (vm p) else b + n) by (unfold v; by destruct fixed).
  destruct Hv as [Hva Hvb]. pose proof (add_vma_perm (vm p) b (b + n) (prot_flags prot)) as Hperm. fold v0 new in Hperm.
  rewrite <- Hva in Hperm.
  exists (with_rq k (with_proc (set_vm v) h (k_rq k))), (set_vm v p).
  split_and!; [|done|by apply caller_vm|exact Hvb|exact Hperm| |].
  - unfold sys_mmap. rewrite (proj2 (Z.eqb_neq _ _)) by lia. rewrite (cur_proc_ok k h p P Hca). exec_simpl. fold fixed. fold b.
    rewrite u64_add_ok by lia. exec_simpl. rewrite mmap_size by lia. fold n. rewrite u64_add_ok by lia. exec_simpl.
    unfold to_i64. by rewrite (proj2 (Z.ltb_lt _ _)) by lia.
  - intros a x Ha Hx Hr Hdis. apply (overlap_areas new a x (areas (vm p))); [done|done| |].
    + unfold contains, new. cbn [start end_]. lia.
    + by eapply disjoint_areas_perm.
  - intros Hd Hfree. destruct (add_area (vm p) b (b + n) (prot_flags prot) Hd Hfree) as (Hd' & Hin & Hout).
    fold v0 in Hd', Hin, Hout. cbn [vm set_vm]. unfold find_vma in Hin, Hout |- *. rewrite <- Hva in Hd', Hin, Hout.
    split_and!; [exact Hd'|exact Hout|exact Hin|]. intros x c Hx Hp2 Hq Hsz.
    destruct (demand_store (pmm_inv co) (k_mm k) F P T D v new x c) as (s' & F' & T' & q & E & HX & Hby);
      [done|unfold is_user; lia|done|by apply Hin|by cbn; rewrite prot_write|done|].
    by exists s', F', T', (<[page x := (q, vma_pte_flags new)]> D).
Qed.

(** *** [munmap] *)
Lemma unmap_uspace co s F P T D v : uspace (pmm_inv co) s F P T D → is_user v →
  ∃ s', unmap s {| pml4_phys := P |} v = Ret s' ∧ uspace (pmm_inv co) s' F P T (delete (page v) D) ∧
    agree_outside (F ∪ tables T) (ram s) (ram s').
Proof.
  intros HU Hv. pose proof (us_inv _ _ _ _ _ _ HU) as HV. pose proof (vi_tree _ _ _ _ _ HV) as HT.
  destruct (unmap_spec (pmm_inv co) s F P T v HV Hv) as (s' & E & HR).
  { intros e. rewrite <- (mmu_walk_tree _ P), (us_walk _ _ _ _ _ _ HU) by done. by destruct (D !! page v). }
  exists s'. split; [done|]. split; [|apply HR]. split; [apply HR|..].
  - intros w Hw. rewrite (remaps_mmu _ _ _ _ _ _ _ _ _ _ HR Hw). destruct (decide (page w = page v)) as [->|Hne].
    + by rewrite lookup_delete_eq.
    + rewrite lookup_delete_ne by congruence. by rewrite <- (mmu_walk_tree _ P), (us_walk _ _ _ _ _ _ HU).
  - intros i q fl [_ Hi]%lookup_delete_Some. by apply (us_node _ _ _ _ _ _ HU i).
  - intros i j q fl fl' [_ Hi]%lookup_delete_Some [_ Hj]%lookup_delete_Some. by apply (us_inj _ _ _ _ _ _ HU i j q fl fl').
Qed.

Lemma unmap_loop_spec co P F T e : e ≤ 2 ^ 47 → ∀ (fuel : nat) s D v,
  uspace (pmm_inv co) s F P T D → 0 ≤ v → v mod PAGE_SIZE = 0 → e - v ≤ PAGE_SIZE * fuel →
  ∃ s' D', unmap_loop fuel s {| pml4_phys := P |} v e = Ret s' ∧ uspace (pmm_inv co) s' F P T D' ∧
    agree_outside (F ∪ tables T) (ram s) (ram s') ∧
    ∀ i, D' !! i = if decide (v ≤ PAGE_SIZE * i < e) then None else D !! i.
Proof.
  change (2 ^ 47) with 140737488355328. intros He. induction fuel as [|fuel IH]; intros s D v HU Hv Hal Hf.
  { cbn [unmap_loop]. rewrite (proj2 (Z.ltb_ge _ _)) by lia. exists s, D. split_and!; try done.
    intros i. by rewrite decide_False by lia. }
  cbn [unmap_loop]. destruct (Z.ltb_spec v e) as [Hlt|Hge]; cycle 1.
  { exists s, D. split_and!; try done. intros i. by rewrite decide_False by lia. }
  destruct (unmap_uspace co s F P T D v HU) as (s1 & -> & HU1 & Hm1);
    [unfold is_user; change (2 ^ 47) with 140737488355328; lia|]. exec_simpl. rewrite u64_add_ok by lia. exec_simpl.
  destruct (IH s1 _ (v + PAGE_SIZE) HU1) as (s' & D' & -> & HU' & Hm & HD); [lia|clear -Hal; dlia|lia|].
  exists s', D'. split_and!; [done|done| |].
  - intros x Hx. rewrite Hm, Hm1 by done. done.
  - intros i. rewrite HD. destruct (decide (i = page v)) as [->|Hne].
    + rewrite lookup_delete_eq. rewrite (decide_True (P := v ≤ _ < e)) by (clear -Hal Hlt; dlia). by destruct (decide _).
    + rewrite lookup_delete_ne by congruence.
      assert ((v + PAGE_SIZE ≤ PAGE_SIZE * i < e) ↔ (v ≤ PAGE_SIZE * i < e)) as Hiff by (clear -Hal Hne; dlia).
      destruct (decide (v + PAGE_SIZE ≤ _ < e)), (decide (v ≤ _ < e)); tauto.
Qed.

(** [munmap] of a page-aligned range of user addresses removes exactly the
    pages that start in the range and the areas that lie in it; what the process
    reads elsewhere is unchanged. The set [F] of free frames is unchanged as
    well: the frames of the removed pages are not given back. *)
Theorem munmap_correct co k h p P F T D addr len :
  caller k h p P → uspace (pmm_inv co) (k_mm k) F P T D →
  0 ≤ addr → addr mod PAGE_SIZE = 0 → 0 ≤ len → addr + len ≤ 2 ^ 47 →
  ∃ k' p' D', sys_munmap addr len k = Ret (0, k') ∧ caller k' h p' P ∧
    uspace (pmm_inv co) (k_mm k') F P T D' ∧
    (∀ i, D' !! i = if decide (addr ≤ PAGE_SIZE * i < addr + len) then None else D !! i) ∧
    (∀ w, D' !! page w = D !! page w → ubyte (ram (k_mm k')) D' w = ubyte (ram (k_mm k)) D w) ∧
    (∀ a, a ∈ areas (vm p') ↔ a ∈ areas (vm p) ∧ ¬ (addr ≤ start a ∧ end_ a ≤ addr + len)) ∧
    brk (vm p') = brk (vm p).
Proof.
  intros Hca HU Ha Hal Hl He. change (2 ^ 47) with 140737488355328 in *.
  destruct (unmap_loop_spec co P F T (addr + len) He (Z.to_nat (len / PAGE_SIZE + 1)) (k_mm k) D addr HU Ha Hal)
    as (s' & D' & E & HU' & Hm & HD); [clear -Hl; dlia|].
  set (v := remove_vma (vm p) addr (addr + len)).
  exists (with_mm (with_rq k (with_proc (set_vm v) h (k_rq k))) s'), (set_vm v p), D'. split_and!.
  - unfold sys_munmap. rewrite (proj2 (Z.eqb_eq _ _)) by done. cbn [negb]. rewrite (cur_proc_ok k h p P Hca). exec_simpl.
    rewrite u64_add_ok by lia. exec_simpl. rewrite (ca_space _ _ _ _ Hca), E. exec_simpl. done.
  - by destruct (caller_vm k h p P v Hca).
  - done.
  - done.
  - intros w Hw. rewrite <- (ubyte_agree (pmm_inv co) _ F P T D _ w HU Hm). unfold ubyte. by rewrite Hw.
  - intros a. unfold v. cbn. rewrite list_elem_of_filter. tauto.
  - done.
Qed.

(** *** [uname] *)
Lemma user_buffer_ok co k h p P F T D ptr q fl : caller k h p P → uspace (pmm_inv co) (k_mm k) F P T D →
  0 < ptr → is_user ptr → D !! page ptr = Some (q, fl) →
  user_buffer ptr k = Ret (Some (table_at q + ptr mod PAGE_SIZE)).
Proof.
  intros Hca HU H0 Hu Hq. unfold user_buffer. rewrite (proj2 (Z.eqb_neq _ _)) by lia.
  rewrite (cur_proc_ok k h p P Hca). exec_simpl. rewrite (ca_space _ _ _ _ Hca).
  rewrite (translate_uspace (pmm_inv co) _ F P T D ptr HU Hu), Hq. exec_simpl. cbn [fst].
  rewrite page_virt by (apply (us_node _ _ _ _ _ _ HU _ _ _ Hq) || apply Z.mod_pos_bound; lia). by exec_simpl.
Qed.

(** C37: [uname] on a buffer that lies in one page fills it with the six fields and
    changes no other byte. A buffer that crosses a page boundary is filled
    through the first page's frame only: the rest goes to the start of the next
    physical frame, whatever that holds. *)
Theorem uname_correct co k h p P F T D ptr q fl :
  caller k h p P → uspace (pmm_inv co) (k_mm k) F P T D → 0 < ptr → is_user ptr → D !! page ptr = Some (q, fl) →
  ∃ k', sys_uname ptr k = Ret (0, k') ∧
    (ptr mod PAGE_SIZE + 390 ≤ PAGE_SIZE →
      extends (pmm_inv co) P (k_mm k) F T D (k_mm k') F T D ∧
      ∀ w, ubyte (ram (k_mm k')) D w = written (ubyte (ram (k_mm k)) D) ptr utsname w) ∧
    (∀ j, 0 ≤ j < ptr mod PAGE_SIZE + 390 - PAGE_SIZE →
      ram (k_mm k') (table_at (q + PAGE_SIZE) + j) = nth (Z.to_nat (PAGE_SIZE - ptr mod PAGE_SIZE + j)) utsname 0).
Proof.
  intros Hca HU H0 Hu Hq. eexists. split.
  { unfold sys_uname. rewrite (user_buffer_ok co k h p P F T D ptr q fl) by done. by exec_simpl. }
  cbn [k_mm with_mm]. split.
  - intros Hl. by apply (write_page (pmm_inv co) (k_mm k) F P T D ptr q fl utsname HU Hq).
  - intros j Hj. pose proof (Z.mod_pos_bound ptr PAGE_SIZE ltac:(lia)). cbn [ram set_ram]. unfold store_bytes, table_at.
    assert (Hlen : Z.of_nat (length utsname) = 390) by reflexivity. rewrite Hlen.
    rewrite (proj2 (Z.leb_le _ _)), (proj2 (Z.ltb_lt _ _)) by lia. cbn [andb]. f_equal; lia.
Qed.
End Calls.

(** ** Witnesses: [/bin/hello] makes the calls *)
Section Demo.
#[local] Existing Instance qemu_hhdm.

Definition demo_kernel (s : mm) : kernel Ramfs.ramfs := {|
  k_mm := s; k_rq := demo_rq; k_kbd := input_boot.1; k_clock := clock_boot; k_fs := demo_files; k_serial := [] |}.

Lemma demo_caller s : caller (demo_kernel s) 1%positive (set_state Running demo_parent) demo_P.
Proof. by split. Qed.

(** [write(1, "Hello!\n", 7)] *)
Lemma sys_write_correct_witness : ∃ s,
  sys_write false 1 0x4000A2 7 (demo_kernel s) =
    Ret (7, with_serial (demo_kernel s) [72; 101; 108; 108; 111; 33; 13; 10]).
Proof.
  destruct demo_loaded_space as (s & F & T & D & HU & _ & _ & Hh & Ht & _ & _). exists s.
  destruct (sys_write_correct true (demo_kernel s) 1%positive (set_state Running demo_parent) demo_P F T D 1 0x4000A2
    demo_path) as [E _].
  - apply demo_caller.
  - exact HU.
  - by left.
  - done.
  - repeat (constructor; [unfold is_byte; lia|]). constructor.
  - lia.
  - cbn [length demo_path]. lia.
  - intros i b Hi. rewrite Hh by (apply lookup_lt_Some in Hi; cbn in Hi |- *; lia). f_equal. rewrite Nat2Z.id.
    by apply nth_lookup_Some.
  - change (Z.of_nat (length demo_path)) with 7 in E. rewrite E. reflexivity.
Defined.

Lemma demo_empty_space : ∃ s, uspace (pmm_inv true) s demo_F demo_P {[ [] := demo_P ]} ∅.
Proof. exists demo_s. exact demo_uspace. Qed.

Lemma mmap_correct_witness : ∃ s k' p',
  sys_mmap 0 5000 3 0x22 (demo_kernel s) = Ret (0x10000000, k') ∧ caller k' 1%positive p' demo_P ∧
  brk (vm p') = 0x10002000 ∧
  ∃ s' F' T' D', store_user false (k_mm k') {| pml4_phys := demo_P |} (vm p') 0x10001000 42 = Ret s' ∧
    extends (pmm_inv true) demo_P s demo_F {[ [] := demo_P ]} ∅ s' F' T' D' ∧
    ubyte (ram s') D' 0x10001000 = Some 42.
Proof.
  destruct demo_empty_space as [s HU].
  destruct (mmap_correct true (demo_kernel s) 1%positive (set_state Running demo_parent) demo_P demo_F
    {[ [] := demo_P ]} ∅ 0 5000 3 0x22) as (k' & p' & E & _ & Hc & Hb & _ & _ & Hs).
  - apply demo_caller.
  - exact HU.
  - lia.
  - cbn. lia.
  - by vm_compute.
  - destruct Hs as (_ & _ & _ & Hs).
    { intros i j a b x Hi Hj _ _. apply lookup_lt_Some in Hi, Hj. cbn in Hi, Hj. lia. }
    { intros a x ->%list_elem_of_singleton Hx. unfold contains in Hx. cbn in Hx |- *. lia. }
    exists s, k', p'. split; [exact E|]. split; [exact Hc|]. split; [exact Hb|].
    destruct (Hs 0x10001000 42) as (s' & F' & T' & D' & Es & HX & Hby).
    + split; vm_compute; congruence.
    + reflexivity.
    + apply lookup_empty.
    + pose proof demo_F_size. lia.
    + exists s', F', T', D'. split; [exact Es|]. split; [exact HX|].
      rewrite Hby. by rewrite decide_True.
Defined.

Lemma munmap_correct_witness : ∃ s k' p' F T D D',
  sys_munmap 0x400000 0xA9 (demo_kernel s) = Ret (0, k') ∧ caller k' 1%positive p' demo_P ∧
  uspace (pmm_inv true) s F demo_P T D ∧ uspace (pmm_inv true) (k_mm k') F demo_P T D' ∧ D' !! 1024 = None.
Proof.
  destruct demo_loaded_space as (s & F & T & D & HU & _).
  destruct (munmap_correct true (demo_kernel s) 1%positive (set_state Running demo_parent) demo_P F T D 0x400000 0xA9)
    as (k' & p' & D' & E & Hc & HU' & HD & _).
  - apply demo_caller.
  - exact HU.
  - lia.
  - reflexivity.
  - lia.
  - lia.
  - exists s, k', p', F, T, D, D'. split; [exact E|]. split; [exact Hc|]. split; [exact HU|]. split; [exact HU'|].
    rewrite HD. by rewrite decide_True by lia.
Defined.

Lemma uname_correct_witness : ∃ s k' D, sys_uname 0x400200 (demo_kernel s) = Ret (0, k') ∧
  ∀ w, ubyte (ram (k_mm k')) D w = written (ubyte (ram s) D) 0x400200 utsname w.
Proof.
  destruct demo_loaded_space as (s & F & T & D & HU & _ & _ & Hh & _).
  specialize (Hh 0 ltac:(cbn; lia)). unfold ubyte in Hh. change (page (0x4000A2 + 0)) with (page 0x400200) in Hh.
  destruct (D !! page 0x400200) as [[q fl]|] eqn:Hq; [|done].
  destruct (uname_correct true (demo_kernel s) 1%positive (set_state Running demo_parent) demo_P F T D 0x400200 q fl)
    as (k' & E & Hw & _).
  - apply demo_caller.
  - exact HU.
  - lia.
  - split; [lia|by vm_compute].
  - exact Hq.
  - exists s, k', D. split; [exact E|]. apply Hw. by vm_compute.
Defined.
End Demo.
