(* ===== verification/Trap.v ===== *)
(** Exceptions and interrupts ([interrupt_dispatch] of
    [src/src/arch/x86_64/idt.rs]): what each vector does to the kernel's state and
    to the devices that raise the interrupts. *)
From S2P Require Import Prelude Machine Pmm Vmm Vma Effects Proc Fork Exec.
From S2P Require Import Text Vfs Mount Execve Keyboard Ports Pic Timer Serial Syscall.

Definition KB_DATA := 0x60.

(** The fields of an [InterruptFrame] the handlers use. *)
Record frame := { fr_vector : Z; fr_error : Z; fr_cs : Z; fr_regs : call_regs }.

Section Trap.
Context {hh : Hhdm} {St I D : Type} {ops : InodeOps St I} {ports : Ports D}.
Context (smap : bool) (KERNEL_PML4_PHYS fork_child_return : Z) (INITRD : option (list Z)) (vfs : VfsContext I).
Implicit Types (k : kernel St) (d : D) (f : frame).

Definition with_clock k (c : clock) : kernel St :=
  {| k_mm := k_mm k; k_rq := k_rq k; k_kbd := k_kbd k; k_clock := c; k_fs := k_fs k; k_serial := k_serial k |}.

(** The handler returns to the interrupted code, possibly after other processes
    have run, or enters a new image. [rax] is the value put in the frame. *)
Inductive trap_outcome :=
  | TrapDone (t : transfer) (rax : option Z) (k : kernel St) (d : D)
  | TrapEnter (ent rsp kst cr3 : Z) (k : kernel St) (d : D).

(** [serial::irq_serial]: the bytes the UART holds go to the keyboard buffer. *)
Fixpoint irq_serial_loop (fuel : nat) (s : kbd * sched) d : exec (kbd * sched * D) :=
  match fuel with
  | O => NoFuel
  | S fuel =>
      let '(status, d) := port_in8 (COM1 + 5) d in
      if Z.land status 0x01 =? 0 then Ret (s, d)
      else
        let '(b, d) := port_in8 COM1 d in
        s ← push_char s b;
        irq_serial_loop fuel s d
  end.

(** Two lower-case hexadecimal digits. *)
Definition hex2 (n : Z) : list Z := Initrd.hex_encode 2 n.
(** [serial_println!("[KB] sc={:#04x}", sc)] *)
Definition key_line (sc : Z) : list Z := [91; 75; 66; 93; 32; 115; 99; 61; 48; 120] ++ hex2 sc ++ [10].

Definition irq_keyboard k d : exec (kernel St * D) :=
  let '(sc, d) := port_in8 KB_DATA d in
  let k := with_serial k (write_str (k_serial k) (key_line sc)) in
  '(b, rq) ← process_scancode (k_kbd k, k_rq k) sc;
  Ret (with_rq (with_kbd k b) rq, d).

(** [fuel] bounds the turns of the UART loop. *)
Definition irq_dispatch (fuel : nat) (irq : Z) k d : exec trap_outcome :=
  '(r, d) ← irq_ack irq d;
  match r with
  | Err _ | Ok false => Ret (TrapDone Return_ None k d)
  | Ok true =>
      if irq =? 0 then
        '(c, rq, t) ← irq_timer (k_clock k, k_rq k);
        Ret (TrapDone t None (with_rq (with_clock k c) rq) d)
      else if irq =? 1 then
        '(k, d) ← irq_keyboard k d; Ret (TrapDone Return_ None k d)
      else if irq =? 4 then
        '((b, rq), d) ← irq_serial_loop fuel (k_kbd k, k_rq k) d;
        Ret (TrapDone Return_ None (with_rq (with_kbd k b) rq) d)
      else Ret (TrapDone Return_ None k d)
  end.

(** The exceptions that only log. *)
Definition exc_ignored (vector : Z) : bool := (vector =? 1) || (vector =? 3) || (vector =? 7).
(** The exceptions whose handlers end in a panic, directly or in
    [deliver_signal], whatever mode they come from. *)
Definition exc_panics (vector : Z) : bool := bool_decide (vector ∈ [0; 2; 4; 5; 6; 8; 10; 11; 12; 13; 16; 17; 18; 19]).

(** [cr2] and [tsc] are the registers the handlers read. *)
Definition interrupt_dispatch (fuel : nat) (cr2 tsc : Z) f k d : exec trap_outcome :=
  let vector := fr_vector f mod 256 in
  if exc_panics vector then Panic
  else if exc_ignored vector then Ret (TrapDone Return_ None k d)
  else if vector =? 14 then
    cur ← cur_proc (k_rq k);
    s ← exc_page_fault (k_mm k) ((λ hp : positive * Process, (address_space hp.2, vm hp.2)) <$> cur) cr2 (fr_error f);
    Ret (TrapDone Return_ None (with_mm k s) d)
  else if (32 <=? vector) && (vector <=? 47) then irq_dispatch fuel (vector - 32) k d
  else if vector =? 0x80 then
    '(o, rax) ← handle_int80 smap KERNEL_PML4_PHYS fork_child_return INITRD vfs tsc (fr_regs f) k;
    match o with
    | SysReturn _ k => Ret (TrapDone Return_ (Some rax) k d)
    | SysSwitch t k => Ret (TrapDone t None k d)
    | SysEnter ent rsp kst cr3 k => Ret (TrapEnter ent rsp kst cr3 k d)
    end
  else Ret (TrapDone Return_ None k d).
End Trap.

(** ** The devices: the interrupt controllers, the keyboard controller with its
    waiting scancodes, and the UART with its received bytes *)
Record devices := { dv_pics : pics; dv_keys : list Z; dv_uart : list Z }.
Definition set_pics (d : devices) (p : pics) : devices := {| dv_pics := p; dv_keys := dv_keys d; dv_uart := dv_uart d |}.

#[global] Instance dev_ports : Ports devices := {
  port_in8 a d :=
    if a =? KB_DATA then (hd 0 (dv_keys d), {| dv_pics := dv_pics d; dv_keys := tl (dv_keys d); dv_uart := dv_uart d |})
    else if a =? COM1 then (hd 0 (dv_uart d), {| dv_pics := dv_pics d; dv_keys := dv_keys d; dv_uart := tl (dv_uart d) |})
    else if a =? 0x3FD then (match dv_uart d with [] => 0x20 | _ => 0x21 end, d)
    else let '(x, p) := port_in8 a (dv_pics d) in (x, set_pics d p);
  port_in16 _ d := (0, d);
  port_in32 _ d := (0, d);
  port_out8 a v d := set_pics d (port_out8 a v (dv_pics d));
  port_out16 _ _ d := d;
  port_out32 _ _ d := d
}.

(** The acknowledgement only talks to the controllers. *)
Lemma irq_ack_devices irq (d : devices) r p :
  irq_ack irq (dv_pics d) = Ret (r, p) → irq_ack irq d = Ret (r, set_pics d p).
Proof.
  destruct d as [p0 ks us]. unfold irq_ack, send_eoi, send_eoi_master, is_spurious_irq7, is_spurious_irq15. op_unfold.
  unfold inb, outb. cbn [dv_pics].
  destruct (irq =? 7), (irq =? 15), (8 <=? irq); cbn; repeat (destruct (_ =? 0); cbn); by intros [= <- <-].
Qed.

(** The UART loop passes on all the bytes and ends. *)
Lemma irq_serial_loop_spec : ∀ (us : list Z) fuel s p ks, (length us < fuel)%nat →
  irq_serial_loop fuel s {| dv_pics := p; dv_keys := ks; dv_uart := us |} =
    (s ← irq_serial s us; Ret (s, {| dv_pics := p; dv_keys := ks; dv_uart := [] |})).
Proof.
  induction us as [|b us IH]; intros [|fuel] s p ks Hf; cbn [length] in Hf; try lia; [done|].
  change (irq_serial_loop (S fuel) s {| dv_pics := p; dv_keys := ks; dv_uart := b :: us |}) with
    (s ← push_char s b; irq_serial_loop fuel s {| dv_pics := p; dv_keys := ks; dv_uart := us |}).
  cbn [irq_serial]. destruct (push_char s b) as [s1| |]; exec_simpl; [|done|done]. apply IH. lia.
Qed.

(** ** The timer puts nobody to sleep *)
Definition no_new_sleepers (rq rq' : sched) : Prop := ∀ h p,
  procs rq' !! h = Some p → state p = Sleeping → ∃ p0, procs rq !! h = Some p0 ∧ state p0 = Sleeping.

Lemma schedule_sleepers rq rq' t : sched_wf rq → schedule rq = Ret (rq', t) → no_new_sleepers rq rq'.
Proof.
  intros Hwf E h p Hp Hst. destruct (schedule_spec rq Hwf) as (t' & E' & _). rewrite E' in E. injection E as <- _.
  rewrite after_pick_lookup in Hp.
  assert (Hr : (requeue rq).1 !! h = Some p).
  { destruct (decide _); [|done]. apply fmap_Some_1 in Hp as (p0 & _ & ->). done. }
  rewrite requeue_lookup in Hr. apply fmap_Some_1 in Hr as (p0 & Hp0 & ->).
  destruct (decide (current rq = Some h ∧ _)) as [|_]; [done|]. eauto.
Qed.

Lemma tick_sleepers rq rq' t : sched_inv rq → tick rq = Ret (rq', t) → no_new_sleepers rq rq'.
Proof.
  intros HI E. unfold tick in E. destruct (current rq) as [c|] eqn:Ec; [|injection E as <- _; intros h p; by eauto].
  set (f p := if 0 <? time_slice p then set_slice (time_slice p - 1) p else p) in *.
  assert (Hf : no_new_sleepers rq (with_proc f c rq)).
  { intros h p Hp Hst. cbn in Hp. destruct (decide (c = h)) as [->|Hne].
    - rewrite lookup_alter_eq in Hp. apply fmap_Some_1 in Hp as (p0 & Hp0 & ->). exists p0. split; [done|].
      revert Hst. unfold f. by destruct (0 <? time_slice p0).
    - rewrite lookup_alter_ne in Hp by done. eauto. }
  destruct (with_current_pre f rq HI) as (Hwf & _ & _); [intros p; unfold f; by destruct (0 <? time_slice p)..|].
  rewrite Ec in Hwf. destruct (procs (with_proc f c rq) !! c) as [p|]; [|by injection E as <- _].
  destruct (time_slice p =? 0); [|by injection E as <- _].
  intros h p' Hp' Hst. destruct (schedule_sleepers _ _ _ Hwf E h p' Hp' Hst) as (p0 & Hp0 & Hs0). eauto.
Qed.

Lemma irq_timer_inv b c rq : input_inv (b, rq) →
  ∃ rq' t, irq_timer (c, rq) =
      Ret ({| TICK_COUNT := u64_wrap (TICK_COUNT c + 1); UPTIME_MS := u64_wrap (UPTIME_MS c + 1);
              TSC_FREQ_HZ := TSC_FREQ_HZ c |}, rq', t) ∧ input_inv (b, rq').
Proof.
  intros Hi. destruct (tick_inv rq (ii_sched _ Hi)) as (rq' & t & E & _). exists rq', t. unfold irq_timer. rewrite E.
  exec_simpl. split; [done|]. eapply input_step_inv; [exact Hi|]. apply InSched; [by eapply StepTick|].
  by eapply tick_sleepers; [apply Hi|].
Qed.

(** ** Hardware interrupts *)
Section Safe.
Context {hh : Hhdm} {St I : Type} {ops : InodeOps St I}.
Context (smap : bool) (KERNEL_PML4_PHYS fork_child_return : Z) (INITRD : option (list Z)) (vfs : VfsContext I).
Implicit Types (k : kernel St) (d : devices).

(** What the handler of a line leaves: the invariants of the input system, memory
    and files as they were, and the device served. *)
Record served (irq : Z) k d k' d' : Prop := {
  sv_input : input_inv (k_kbd k', k_rq k');
  sv_same : k_mm k' = k_mm k ∧ k_fs k' = k_fs k;
  sv_clock : UPTIME_MS (k_clock k') = if irq =? 0 then u64_wrap (UPTIME_MS (k_clock k) + 1) else UPTIME_MS (k_clock k);
  sv_keys : dv_keys d' = if irq =? 1 then tl (dv_keys d) else dv_keys d;
  sv_uart : dv_uart d' = if irq =? 4 then [] else dv_uart d
}.

Lemma irq_dispatch_served fuel irq k d d1 :
  input_inv (k_kbd k, k_rq k) → Forall is_byte (dv_keys d1) → (length (dv_uart d1) < fuel)%nat →
  irq_ack irq d = Ret (Ok true, d1) →
  ∃ t k' d', irq_dispatch fuel irq k d = Ret (TrapDone t None k' d') ∧ dv_pics d' = dv_pics d1 ∧ served irq k d1 k' d'.
Proof.
  intros Hi Hk Hf E. unfold irq_dispatch. rewrite E. exec_simpl.
  destruct (Z.eqb_spec irq 0) as [->|H0].
  { destruct (irq_timer_inv (k_kbd k) (k_clock k) (k_rq k) Hi) as (rq' & t & -> & Hi'). exec_simpl.
    eexists t, _, d1. split; [done|]. split; [done|]. by split. }
  destruct (Z.eqb_spec irq 1) as [->|H1].
  { unfold irq_keyboard. destruct d1 as [p ks us]. cbn [dv_keys] in Hk.
    assert (0 ≤ hd 0 ks < 256) as Hsc by (destruct Hk; cbn; [lia|done]).
    change (port_in8 KB_DATA {| dv_pics := p; dv_keys := ks; dv_uart := us |}) with
      (hd 0 ks, {| dv_pics := p; dv_keys := tl ks; dv_uart := us |}). cbv iota beta.
    destruct (process_scancode_inv (k_kbd k, k_rq k) (hd 0 ks) Hsc Hi) as ([b rq] & E' & Hi').
    cbn [k_kbd k_rq with_serial]. rewrite E'. exec_simpl. eexists _, _, _. split; [done|]. split; [done|]. by split. }
  destruct (Z.eqb_spec irq 4) as [->|H4].
  { destruct d1 as [p ks us]. rewrite irq_serial_loop_spec by done.
    destruct (irq_serial_inv us (k_kbd k, k_rq k) Hi) as ([b rq] & -> & Hi'). exec_simpl.
    eexists _, _, _. split; [done|]. split; [done|]. by split. }
  eexists _, _, _. split; [done|]. split; [done|].
  split; rewrite ?(proj2 (Z.eqb_neq irq 0)), ?(proj2 (Z.eqb_neq irq 1)), ?(proj2 (Z.eqb_neq irq 4)) by done; done.
Qed.

Lemma dispatch_irq fuel cr2 tsc f k d : 32 ≤ fr_vector f < 48 →
  interrupt_dispatch smap KERNEL_PML4_PHYS fork_child_return INITRD vfs fuel cr2 tsc f k d =
    irq_dispatch fuel (fr_vector f - 32) k d.
Proof.
  intros Hv. unfold interrupt_dispatch. rewrite Z.mod_small by lia.
  assert (exc_panics (fr_vector f) = false) as ->.
  { apply bool_decide_eq_false_2. rewrite !elem_of_cons, elem_of_nil. lia. }
  unfold exc_ignored. rewrite !(proj2 (Z.eqb_neq _ _)), (proj2 (Z.leb_le _ _)), (proj2 (Z.leb_le _ _)) by lia. done.
Qed.

(** An exception of a user program that the handlers do not resolve stops the
    kernel, not the program. *)
Lemma user_exception_panics fuel cr2 tsc f k d :
  fr_vector f ∈ [0; 4; 5; 6; 11; 13; 16; 17; 19] → Z.land (fr_cs f) 3 = 3 →
  interrupt_dispatch smap KERNEL_PML4_PHYS fork_child_return INITRD vfs fuel cr2 tsc f k d = Panic.
Proof.
  intros Hv _. unfold interrupt_dispatch. rewrite !elem_of_cons, elem_of_nil in Hv.
  rewrite Z.mod_small by lia. unfold exc_panics. rewrite bool_decide_eq_true_2; [done|].
  rewrite !elem_of_cons, elem_of_nil. lia.
Qed.

(** C11: Hardware interrupts are safe. Whatever line the controllers deliver, and
    whatever scancodes and serial bytes wait, the dispatcher returns without a
    panic: a genuine interrupt is served by its handler (the timer advances the
    uptime and the scheduler, the keyboard takes one scancode, the serial line
    passes on every byte it holds), a spurious one changes nothing. The
    invariants of the scheduler and of the input buffer hold afterwards, memory
    and files are untouched, and the controllers have exactly the lines in
    service that they had before, so no interrupt is lost. *)
Theorem hardware_interrupt_safe fuel cr2 tsc f k d v genuine p1 :
  input_inv (k_kbd k, k_rq k) → pics_ready (dv_pics d) →
  Z.testbit (isr (master (dv_pics d))) 7 = false → Z.testbit (isr (slave (dv_pics d))) 7 = false →
  Forall is_byte (dv_keys d) → (length (dv_uart d) < fuel)%nat →
  inta (dv_pics d) = (v, genuine, p1) → fr_vector f = v →
  ∃ t k' d', interrupt_dispatch smap KERNEL_PML4_PHYS fork_child_return INITRD vfs fuel cr2 tsc f k (set_pics d p1) =
      Ret (TrapDone t None k' d') ∧
    pics_ready (dv_pics d') ∧ restored (master (dv_pics d)) (master (dv_pics d')) ∧
    restored (slave (dv_pics d)) (slave (dv_pics d')) ∧
    if genuine then served (v - 32) k d k' d'
    else k' = k ∧ t = Return_.
Proof.
  intros Hi Hr H7 H15 Hk Hf Ht Hv.
  destruct (irq_ack_spec (dv_pics d) v genuine p1 Hr H7 H15 Ht) as (Hvr & p2 & E & Hr2 & Hm & Hs).
  rewrite dispatch_irq by (by rewrite Hv). rewrite Hv.
  apply (irq_ack_devices (v - 32) (set_pics d p1)) in E. destruct genuine.
  - destruct (irq_dispatch_served fuel (v - 32) k (set_pics d p1) (set_pics (set_pics d p1) p2) Hi Hk Hf E)
      as (t & k' & d' & Ed & Hp & Hsv).
    exists t, k', d'. rewrite Hp. split_and!; [done..|]. by destruct Hsv.
  - unfold irq_dispatch. rewrite E. exec_simpl. eexists _, _, _. split; [done|]. done.
Qed.
End Safe.

(** A key pressed on freshly initialised devices. *)
Section Demo.
#[local] Existing Instance qemu_hhdm.

Definition demo_devices : devices :=
  let p b m r := {| imr := m; irr := r; isr := 0; base := b; icw := 0; reads_isr := false |} in
  {| dv_pics := {| master := p 32 0xEC 2; slave := p 40 0xFF 0 |}; dv_keys := [0x1E]; dv_uart := [] |}.
Definition demo_frame : frame := {|
  fr_vector := 33; fr_error := 0; fr_cs := 0x23;
  fr_regs := {| f_rax := 0; f_rdi := 0; f_rsi := 0; f_rdx := 0; f_r10 := 0; f_r8 := 0; f_r9 := 0 |} |}.
Definition idle_kernel : kernel Ramfs.ramfs := {|
  k_mm := demo_state; k_rq := boot; k_kbd := input_boot.1; k_clock := clock_boot; k_fs := demo_files; k_serial := [] |}.

Lemma hardware_interrupt_safe_witness :
  (inta (dv_pics demo_devices)).1 = (33, true) ∧
  ∃ t k' d', interrupt_dispatch false 0x1000 0 None (VfsContext_new 1%positive) 1 0 0 demo_frame idle_kernel
      (set_pics demo_devices (inta (dv_pics demo_devices)).2) = Ret (TrapDone t None k' d') ∧
    served 1 idle_kernel demo_devices k' d'.
Proof.
  split; [reflexivity|].
  destruct (hardware_interrupt_safe false 0x1000 0 None (VfsContext_new 1%positive) 1 0 0 demo_frame idle_kernel demo_devices
    33 true (inta (dv_pics demo_devices)).2) as (t & k' & d' & E & _ & _ & _ & Hs).
  - exact input_boot_inv.
  - split; [done|done|split; (split; vm_compute; congruence)].
  - reflexivity.
  - reflexivity.
  - repeat constructor; unfold is_byte; lia.
  - cbn. lia.
  - reflexivity.
  - reflexivity.
  - exists t, k', d'. split; [exact E|exact Hs].
Defined.
End Demo.
