(* ===== verification/Asm.v ===== *)
(** The processor instructions that the naked functions of [idt.rs],
    [syscall_entry.rs], [proc.rs], [fork.rs] and [exec.rs] use, on a machine with
    64-bit registers and byte memory. The arithmetic flags are not tracked: every
    program here loads the flags anew before any of them is read. *)
From S2P Require Import Prelude Machine.

Inductive reg :=
  | RAX | RBX | RCX | RDX | RSI | RDI | RBP | RSP
  | R8 | R9 | R10 | R11 | R12 | R13 | R14 | R15.
#[global] Instance reg_eq_dec : EqDecision reg.
Proof. solve_decision. Defined.

Record machine := {
  regs : reg → Z; rip : Z; cs : Z; rflags : Z; ss : Z;
  gs_base : Z; kernel_gs_base : Z; star : Z; mmem : mem
}.

Implicit Types (m : machine) (r : reg) (rs : list reg).

Definition set_regs m (f : reg → Z) : machine := {|
  regs := f; rip := rip m; cs := cs m; rflags := rflags m; ss := ss m;
  gs_base := gs_base m; kernel_gs_base := kernel_gs_base m; star := star m; mmem := mmem m |}.
Definition set_reg m r (v : Z) : machine := set_regs m (λ x, if decide (x = r) then v else regs m x).
Definition set_mem m (f : mem) : machine := {|
  regs := regs m; rip := rip m; cs := cs m; rflags := rflags m; ss := ss m;
  gs_base := gs_base m; kernel_gs_base := kernel_gs_base m; star := star m; mmem := f |}.
Definition set_rflags m (f : Z) : machine := {|
  regs := regs m; rip := rip m; cs := cs m; rflags := f; ss := ss m;
  gs_base := gs_base m; kernel_gs_base := kernel_gs_base m; star := star m; mmem := mmem m |}.

(** A push moves the stack pointer down, modulo [2^64], and stores. *)
Definition push m (v : Z) : machine :=
  let sp := u64_wrap (regs m RSP - 8) in
  set_mem (set_reg m RSP sp) (store64 (mmem m) sp v).

(** The word on top of the stack, and the machine without it. *)
Definition pop m : Z * machine :=
  (load64 (mmem m) (regs m RSP), set_reg m RSP (u64_wrap (regs m RSP + 8))).

Definition set_rip m (a : Z) : machine := {|
  regs := regs m; rip := a; cs := cs m; rflags := rflags m; ss := ss m;
  gs_base := gs_base m; kernel_gs_base := kernel_gs_base m; star := star m; mmem := mmem m |}.

(** The instructions. [Lea] is given the address of its label. [sysretq] takes the
    selectors of user mode from the model specific register [IA32_STAR], the field
    [star]. *)
Inductive instr :=
  | Push (r : reg) | PushImm (n : Z) | Pop (r : reg)
  | Mov (src dst : reg)
  | MovToGs (src : reg) (off : Z) | MovFromGs (off : Z) (dst : reg)
  | MovToStack (src : reg)
  | AddRsp (n : Z) | SubRsp (n : Z) | AndRspM16
  | Load (base : reg) (off : Z) (dst : reg) | Store (src base : reg) (off : Z)
  | Lea (label : Z) (dst : reg)
  | OrImm (n : Z) (dst : reg) | AndImm (n : Z) (dst : reg) | Xor (src dst : reg)
  | Pushfq | Popfq | JmpMem (base : reg) (off : Z) | Ret_
  | Call | Swapgs | Sti | Cli | Iretq | Sysretq.

Abbreviation IF := 0x200 (only parsing).

(** [callee] is what a [call] does between the push of the return address and
    the return. *)
Definition exec_instr (callee : machine → machine) (i : instr) m : machine :=
  match i with
  | Push r => push m (regs m r)
  | PushImm n => push m n
  | Pop r => let '(v, m) := pop m in set_reg m r v
  | Mov src dst => set_reg m dst (regs m src)
  | MovToGs src off => set_mem m (store64 (mmem m) (gs_base m + off) (regs m src))
  | MovFromGs off dst => set_reg m dst (load64 (mmem m) (gs_base m + off))
  | MovToStack src => set_mem m (store64 (mmem m) (regs m RSP) (regs m src))
  | AddRsp n => set_reg m RSP (u64_wrap (regs m RSP + n))
  | SubRsp n => set_reg m RSP (u64_wrap (regs m RSP - n))
  | AndRspM16 => set_reg m RSP (Z.land (regs m RSP) (u64_not 15))
  | Load base off dst => set_reg m dst (load64 (mmem m) (regs m base + off))
  | Store src base off => set_mem m (store64 (mmem m) (regs m base + off) (regs m src))
  | Lea label dst => set_reg m dst label
  | OrImm n dst => set_reg m dst (Z.lor (regs m dst) n)
  | AndImm n dst => set_reg m dst (Z.land (regs m dst) n)
  | Xor src dst => set_reg m dst (Z.lxor (regs m dst) (regs m src))
  | Pushfq => push m (rflags m)
  | Popfq => let '(v, m) := pop m in set_rflags m v
  | JmpMem base off => set_rip m (load64 (mmem m) (regs m base + off))
  | Ret_ => let '(v, m) := pop m in set_rip m v
  | Call => callee m
  | Swapgs => {|
      regs := regs m; rip := rip m; cs := cs m; rflags := rflags m; ss := ss m;
      gs_base := kernel_gs_base m; kernel_gs_base := gs_base m; star := star m; mmem := mmem m |}
  | Sti => set_rflags m (Z.lor (rflags m) IF)
  | Cli => set_rflags m (Z.land (rflags m) (u64_not IF))
  | Iretq =>
      let sp := regs m RSP in
      {| regs := (λ x, if decide (x = RSP) then load64 (mmem m) (sp + 24) else regs m x);
         rip := load64 (mmem m) sp; cs := load64 (mmem m) (sp + 8);
         rflags := load64 (mmem m) (sp + 16); ss := load64 (mmem m) (sp + 32);
         gs_base := gs_base m; kernel_gs_base := kernel_gs_base m; star := star m; mmem := mmem m |}
  | Sysretq => {|
      regs := regs m; rip := regs m RCX; cs := Z.lor (Z.shiftr (star m) 48 + 16) 3;
      rflags := regs m R11; ss := Z.lor (Z.shiftr (star m) 48 + 8) 3;
      gs_base := gs_base m; kernel_gs_base := kernel_gs_base m; star := star m; mmem := mmem m |}
  end.

Definition run (callee : machine → machine) (code : list instr) m : machine :=
  foldl (λ m i, exec_instr callee i m) m code.

Lemma run_app callee a b m : run callee (a ++ b) m = run callee b (run callee a m).
Proof. apply foldl_app. Qed.

(** ** Reading a changed machine *)
Lemma regs_set_eq m r v : regs (set_reg m r v) r = v.
Proof. cbn. by rewrite decide_True. Qed.
Lemma regs_set_ne m r r' v : r' ≠ r → regs (set_reg m r v) r' = regs m r'.
Proof. intros. cbn. by rewrite decide_False. Qed.
Lemma regs_set_mem m f : regs (set_mem m f) = regs m.
Proof. done. Qed.
Lemma regs_set_rflags m f : regs (set_rflags m f) = regs m.
Proof. done. Qed.
Lemma mmem_set_reg m r v : mmem (set_reg m r v) = mmem m.
Proof. done. Qed.
Lemma mmem_set_mem m f : mmem (set_mem m f) = f.
Proof. done. Qed.
Lemma mmem_set_rflags m f : mmem (set_rflags m f) = mmem m.
Proof. done. Qed.
Lemma gs_set_reg m r v : gs_base (set_reg m r v) = gs_base m.
Proof. done. Qed.
Lemma gs_set_mem m f : gs_base (set_mem m f) = gs_base m.
Proof. done. Qed.
Lemma kgs_set_reg m r v : kernel_gs_base (set_reg m r v) = kernel_gs_base m.
Proof. done. Qed.
Lemma kgs_set_mem m f : kernel_gs_base (set_mem m f) = kernel_gs_base m.
Proof. done. Qed.
Create Rewrite HintDb asm.
#[export] Hint Rewrite regs_set_eq regs_set_mem regs_set_rflags mmem_set_reg mmem_set_mem mmem_set_rflags
  gs_set_reg gs_set_mem kgs_set_reg kgs_set_mem : asm.

(** Reads registers and memory of a machine built by updates. *)
Ltac asm_simpl := repeat (autorewrite with asm; rewrite ?regs_set_ne by done).

(** ** Blocks of pushes and pops *)
Record same_control m m' : Prop := {
  sc_rip : rip m' = rip m; sc_cs : cs m' = cs m; sc_rflags : rflags m' = rflags m; sc_ss : ss m' = ss m;
  sc_gs : gs_base m' = gs_base m; sc_kgs : kernel_gs_base m' = kernel_gs_base m; sc_star : star m' = star m
}.

Lemma same_control_refl m : same_control m m.
Proof. done. Qed.
Lemma same_control_trans m1 m2 m3 : same_control m1 m2 → same_control m2 m3 → same_control m1 m3.
Proof. intros [] []. split; congruence. Qed.

(** [m'] is [m] with the words [vals] pushed, the first on top of [sp]. *)
Record pushes m (vals : list Z) m' : Prop := {
  pu_rsp : regs m' RSP = regs m RSP - 8 * length vals;
  pu_regs : ∀ r, r ≠ RSP → regs m' r = regs m r;
  pu_word : ∀ (i : nat) v, vals !! i = Some v → is_u64 v → load64 (mmem m') (regs m RSP - 8 * (i + 1)) = v;
  pu_other : ∀ x, x < regs m RSP - 8 * length vals ∨ regs m RSP ≤ x → mmem m' x = mmem m x;
  pu_control : same_control m m'
}.

Lemma push_pushes m v : 8 ≤ regs m RSP < U64 → pushes m [v] (push m v).
Proof.
  intros Hr. assert (Hs : u64_wrap (regs m RSP - 8) = regs m RSP - 8) by (unfold u64_wrap; apply Z.mod_small; lia).
  unfold push. rewrite Hs. split; cbn [length regs mmem set_mem set_reg set_regs].
  - rewrite decide_True by done. lia.
  - intros r Hne. by rewrite decide_False.
  - intros [|i] w Hi Hw; [|done]. simplify_eq/=. by apply load_store64.
  - intros x Hx. apply store64_other. lia.
  - done.
Qed.

Lemma pushes_app m vals m1 vals2 m2 :
  pushes m vals m1 → pushes m1 vals2 m2 → pushes m (vals ++ vals2) m2.
Proof.
  intros [R1 G1 W1 O1 C1] [R2 G2 W2 O2 C2]. split.
  - rewrite length_app. lia.
  - intros r Hr. by rewrite G2, G1.
  - intros i v Hi Hv. destruct (decide (i < length vals)%nat) as [Hlt|Hge].
    + rewrite lookup_app_l in Hi by done. rewrite <- (W1 i v Hi Hv). apply load64_ext. intros x Hx. apply O2. lia.
    + rewrite lookup_app_r in Hi by lia. rewrite <- (W2 _ v Hi Hv). f_equal. lia.
  - intros x Hx. rewrite length_app in Hx. rewrite O2, O1; [done|lia|lia].
  - by eapply same_control_trans.
Qed.

Lemma run_pushes callee rs : RSP ∉ rs → ∀ m, 8 * length rs ≤ regs m RSP < U64 →
  pushes m (regs m <$> rs) (run callee (Push <$> rs) m).
Proof.
  induction rs as [|r rs IH]; intros Hn m Hr.
  { split; cbn; try done; try lia. }
  apply not_elem_of_cons in Hn as [Hn1 Hn2]. cbn [length fmap list_fmap] in *.
  pose proof (push_pushes m (regs m r) ltac:(lia)) as H1.
  change (run callee (Push r :: (Push <$> rs)) m) with (run callee (Push <$> rs) (push m (regs m r))).
  assert (E : regs m <$> rs = regs (push m (regs m r)) <$> rs).
  { apply list_fmap_ext. intros i x Hx. symmetry. apply (pu_regs _ _ _ H1). intros ->.
    by apply Hn2, list_elem_of_lookup_2 with i. }
  change (list_fmap _ _ (regs m) rs) with (regs m <$> rs). rewrite E.
  apply (pushes_app m [regs m r] (push m (regs m r))); [done|]. apply IH; [done|].
  rewrite (pu_rsp _ _ _ H1). cbn [length]. lia.
Qed.

(** [m'] is [m] after popping into [rs]. *)
Record pops m rs m' : Prop := {
  po_rsp : regs m' RSP = regs m RSP + 8 * length rs;
  po_in : ∀ (i : nat) r, rs !! i = Some r → regs m' r = load64 (mmem m) (regs m RSP + 8 * i);
  po_out : ∀ r, r ∉ rs → r ≠ RSP → regs m' r = regs m r;
  po_mem : mmem m' = mmem m;
  po_control : same_control m m'
}.

Lemma run_pops callee rs : RSP ∉ rs → NoDup rs → ∀ m,
  0 ≤ regs m RSP → regs m RSP + 8 * length rs < U64 → pops m rs (run callee (Pop <$> rs) m).
Proof.
  induction rs as [|r rs IH]; intros Hn Hd m Hr Hlim.
  { split; cbn; try done; try lia. }
  apply not_elem_of_cons in Hn as [Hn1 Hn2]. apply NoDup_cons in Hd as [Hd1 Hd2]. cbn [length fmap list_fmap] in *.
  set (m1 := exec_instr callee (Pop r) m).
  assert (Hw : u64_wrap (regs m RSP + 8) = regs m RSP + 8) by (unfold u64_wrap; apply Z.mod_small; lia).
  assert (E1 : regs m1 RSP = regs m RSP + 8) by (unfold m1; cbn; rewrite decide_False, Hw by done; done).
  assert (E2 : regs m1 r = load64 (mmem m) (regs m RSP)) by (unfold m1; cbn; by rewrite decide_True).
  assert (E3 : ∀ x, x ≠ r → x ≠ RSP → regs m1 x = regs m x).
  { intros x H1 H2. unfold m1. cbn. by rewrite !decide_False. }
  destruct (IH Hn2 Hd2 m1) as [R I O M C]; [lia|lia|].
  change (run callee (Pop r :: (Pop <$> rs)) m) with (run callee (Pop <$> rs) m1). split.
  - etransitivity; [exact R|]. rewrite E1. cbn [length]. lia.
  - intros [|i] x Hi; simplify_eq/=.
    + rewrite O by done. rewrite E2. f_equal. lia.
    + rewrite (I i x Hi). rewrite E1. change (mmem m1) with (mmem m). f_equal. lia.
  - intros x [Hx1 Hx2]%not_elem_of_cons Hx. rewrite O by done. by apply E3.
  - by rewrite M.
  - eapply same_control_trans; [|exact C]. done.
Qed.

(** ** Blocks of loads and stores through a pointer

    [m'] is [m] with the registers of [l] loaded from the offsets they come with. *)
Record loads m (b : reg) (l : list (Z * reg)) m' : Prop := {
  ld_in : ∀ off r, (off, r) ∈ l → regs m' r = load64 (mmem m) (regs m b + off);
  ld_out : ∀ r, r ∉ l.*2 → regs m' r = regs m r;
  ld_mem : mmem m' = mmem m;
  ld_control : same_control m m'
}.

Lemma run_loads callee b l : b ∉ l.*2 → NoDup l.*2 → ∀ m, loads m b l (run callee ((λ x, Load b x.1 x.2) <$> l) m).
Proof.
  induction l as [|[off r] l IH]; intros Hb Hd m; cbn [fmap list_fmap fst snd] in *.
  { split; try done. intros off r Hr. by apply elem_of_nil in Hr. }
  apply not_elem_of_cons in Hb as [Hb1 Hb2]. apply NoDup_cons in Hd as [Hd1 Hd2].
  set (m1 := exec_instr callee (Load b off r) m). destruct (IH Hb2 Hd2 m1) as [I O M C].
  change (run callee (Load b off r :: ?k) m) with (run callee k m1).
  assert (E : ∀ x, x ≠ r → regs m1 x = regs m x) by (intros; by apply regs_set_ne).
  split.
  - intros off' r' [?|Hin]%elem_of_cons; simplify_eq.
    + etransitivity; [by apply O|]. apply regs_set_eq.
    + etransitivity; [by apply I|]. by rewrite E.
  - intros x [Hx1 Hx2]%not_elem_of_cons. etransitivity; [by apply O|]. by apply E.
  - done.
  - eapply same_control_trans; [|exact C]. done.
Qed.

(** [m'] is [m] with the registers of [l] stored at their offsets. *)
Record stores m (b : reg) (l : list (reg * Z)) m' : Prop := {
  st_regs : regs m' = regs m;
  st_word : ∀ r off, (r, off) ∈ l → is_u64 (regs m r) → load64 (mmem m') (regs m b + off) = regs m r;
  st_other : ∀ x, (∀ r off, (r, off) ∈ l → x < regs m b + off ∨ regs m b + off + 8 ≤ x) → mmem m' x = mmem m x;
  st_control : same_control m m'
}.

(** The words that two offsets name do not overlap. *)
Definition apart8 (x y : reg * Z) : Prop := x.2 + 8 ≤ y.2 ∨ y.2 + 8 ≤ x.2.

Lemma run_stores callee b l : ForallOrdPairs apart8 l → ∀ m, stores m b l (run callee ((λ x, Store x.1 b x.2) <$> l) m).
Proof.
  induction l as [|[r off] l IH]; intros Hd m; cbn [fmap list_fmap fst snd] in *.
  { split; try done. intros r off Hr. by apply elem_of_nil in Hr. }
  inversion Hd as [|? ? Ha Hd']; subst. set (m1 := exec_instr callee (Store r b off) m).
  destruct (IH Hd' m1) as [R W O C]. change (run callee (Store r b off :: ?k) m) with (run callee k m1).
  split.
  - exact R.
  - intros r' off' [?|Hin]%elem_of_cons Hu; simplify_eq; [|by apply (W r' off')].
    rewrite (load64_ext (mmem m1)); [by apply load_store64|]. intros x Hx. apply O. intros r2 off2 Hin.
    rewrite Forall_forall in Ha. pose proof (Ha _ Hin) as H2. unfold apart8 in H2. cbn in H2.
    change (regs m1 b) with (regs m b). lia.
  - intros x Hx. rewrite O; [|intros r2 off2 Hin; apply (Hx r2 off2); by right]. apply store64_other. apply (Hx r off). by left.
  - eapply same_control_trans; [|exact C]. done.
Qed.
