(* ===== verification/Io.v ===== *)
(** The wrappers of processor instructions in [src/src/arch/x86_64/io.rs] other
    than the port instructions ([Ports.v]) and those of the translation cache
    ([Tlb.v]): model specific registers, [cpuid], and the interrupt flag. *)
From S2P Require Import Prelude Machine Asm.

(** ** Model specific registers *)
Definition MSR_EFER := 0xC0000080.
Definition MSR_STAR := 0xC0000081.
Definition MSR_LSTAR := 0xC0000082.
Definition MSR_SFMASK := 0xC0000084.
Definition MSR_KERNEL_GS := 0xC0000102.

(** The registers of the processor by number. [rdmsr] and [wrmsr] move a value in
    two 32-bit halves. *)
Definition msrs := Z → Z.
Implicit Types (r : msrs) (n v : Z).

Definition rdmsr n r : Z :=
  let lo := r n mod U32 in
  let hi := Z.shiftr (r n) 32 mod U32 in
  Z.lor (Z.shiftl hi 32) lo.
Definition wrmsr n v r : msrs :=
  let lo := v mod U32 in
  let hi := Z.shiftr v 32 mod U32 in
  λ x, if x =? n then Z.lor (Z.shiftl hi 32) lo else r x.

Lemma rdmsr_eq n r : is_u64 (r n) → rdmsr n r = r n.
Proof. apply join_halves. Qed.
Lemma wrmsr_eq n v r : is_u64 v → wrmsr n v r n = v.
Proof. intros. unfold wrmsr. rewrite Z.eqb_refl. by apply join_halves. Qed.
Lemma wrmsr_ne n k v r : k ≠ n → wrmsr n v r k = r k.
Proof. intros. unfold wrmsr. by rewrite (proj2 (Z.eqb_neq _ _)). Qed.

(** What is written is read back, and no other register changes. *)
Lemma wrmsr_rdmsr n v r k : is_u64 v → is_u64 (r k) → rdmsr k (wrmsr n v r) = if k =? n then v else rdmsr k r.
Proof.
  intros Hv Hk. destruct (Z.eqb_spec k n) as [-> |]; [by rewrite rdmsr_eq, wrmsr_eq by (rewrite ?wrmsr_eq; done)|].
  unfold rdmsr. by rewrite wrmsr_ne.
Qed.

(** ** [cpuid] *)
Record CpuidResult := { eax : Z; ebx : Z; ecx : Z; edx : Z }.

Section Cpuid.
(** The processor's answer to the instruction. *)
Context (cpuid : Z → Z → CpuidResult).
Definition has_feature_ecx (leaf bit : Z) : bool := negb (Z.land (ecx (cpuid leaf 0)) (Z.shiftl 1 bit) =? 0).
Definition has_feature_edx (leaf bit : Z) : bool := negb (Z.land (edx (cpuid leaf 0)) (Z.shiftl 1 bit) =? 0).

Lemma has_feature_bit leaf bit : 0 ≤ bit →
  has_feature_ecx leaf bit = Z.testbit (ecx (cpuid leaf 0)) bit ∧ has_feature_edx leaf bit = Z.testbit (edx (cpuid leaf 0)) bit.
Proof. intros. by split; apply land_bit. Qed.
End Cpuid.

(** ** The interrupt flag *)
Definition RFLAGS_IF := Z.shiftl 1 9.

(** [x] is the register the compiler chooses for the result. *)
Definition read_rflags (x : reg) : list instr := [Pushfq; Pop x].
Definition sti : list instr := [Sti].
Definition cli (x : reg) : list instr := read_rflags x ++ [Cli].

(** What the guards of the locks do with the flags that [cli] returned
    ([SpinGuard::drop] of [src/src/sync/spinlock.rs]). *)
Definition restore_flags (flags : Z) : list instr := if negb (Z.land flags RFLAGS_IF =? 0) then sti else [].

Implicit Types (m : machine) (x : reg).

Lemma cli_spec x m : x ≠ RSP → is_u64 (regs m RSP) → is_u64 (rflags m) → let m' := run id (cli x) m in
  regs m' x = rflags m ∧ rflags m' = Z.land (rflags m) (u64_not RFLAGS_IF) ∧
  (∀ y, y ≠ x → regs m' y = regs m y) ∧
  (∀ a, ¬ (u64_wrap (regs m RSP - 8) ≤ a < u64_wrap (regs m RSP - 8) + 8) → mmem m' a = mmem m a).
Proof.
  intros Hx Hsp Hf m'. set (sp := u64_wrap (regs m RSP - 8)).
  assert (Hw : u64_wrap (sp + 8) = regs m RSP) by (unfold sp, u64_wrap; destruct Hsp; rewrite Z.add_mod_idemp_l by done; rewrite Z.sub_add; by apply Z.mod_small).
  unfold m', cli, read_rflags, run. cbn [app foldl exec_instr pop]. unfold push. fold sp. asm_simpl.
  change (rflags (set_reg _ x _)) with (rflags m). split_and!.
  - by apply load_store64.
  - done.
  - intros y Hy. rewrite regs_set_ne by done. destruct (decide (y = RSP)) as [->|]; [by rewrite regs_set_eq|cbn; by rewrite !decide_False by done].
  - intros a Ha. apply store64_other. lia.
Qed.

Lemma if_cleared f i : is_u64 f → 0 ≤ i → Z.testbit (Z.land f (u64_not RFLAGS_IF)) i = Z.testbit f i && negb (i =? 9).
Proof.
  intros Hf Hi. change (u64_not RFLAGS_IF) with (Z.ldiff (Z.ones 64) (2 ^ 9)). rewrite Z.ldiff_land, Z.land_assoc, <- u64_land_ones by done.
  rewrite Z.land_spec, Z.lnot_spec, Z.pow2_bits_eqb by done. by rewrite (Z.eqb_sym 9).
Qed.

(** Between [cli] and the restoring of the flags it returned interrupts are off;
    afterwards the flags are what they were. *)
Lemma critical_section x m m2 : x ≠ RSP → is_u64 (regs m RSP) → is_u64 (rflags m) →
  let m1 := run id (cli x) m in
  Z.testbit (rflags m1) 9 = false ∧ (rflags m2 = rflags m1 → rflags (run id (restore_flags (regs m1 x)) m2) = rflags m).
Proof.
  intros Hx Hsp Hf m1. destruct (cli_spec x m Hx Hsp Hf) as (E1 & E2 & _). fold m1 in E1, E2. clearbody m1. rewrite E1, E2.
  split; [by rewrite if_cleared, andb_false_r by (done || lia)|]. intros E. unfold restore_flags, RFLAGS_IF. rewrite land_bit by done.
  apply Z.bits_inj'. intros i Hi. destruct (Z.testbit (rflags m) 9) eqn:E9; cbn [run foldl exec_instr sti rflags set_rflags]; rewrite E.
  - rewrite Z.lor_spec, if_cleared by done. change 0x200 with (2 ^ 9). rewrite Z.pow2_bits_eqb, (Z.eqb_sym 9) by done.
    destruct (Z.eqb_spec i 9) as [-> |]; cbn [negb]; [by rewrite E9|by rewrite andb_true_r, orb_false_r].
  - rewrite if_cleared by done. destruct (Z.eqb_spec i 9) as [-> |]; cbn [negb]; [by rewrite E9|by rewrite andb_true_r].
Qed.
