(* ===== verification/Idt.v ===== *)
(** Interrupt entry ([src/src/arch/x86_64/idt.rs]): the descriptor table, the
    assembly stubs that build an [InterruptFrame], and the return to the
    interrupted code. *)
From S2P Require Import Prelude Machine Asm.

Abbreviation SEG_KERNEL_CODE := 0x08 (only parsing).

(** ** Gates *)
Record IdtEntry := {
  offset_low : Z; selector : Z; ist : Z; type_attr : Z; offset_mid : Z; offset_high : Z; zero : Z
}.

Definition MISSING : IdtEntry :=
  {| offset_low := 0; selector := 0; ist := 0; type_attr := 0; offset_mid := 0; offset_high := 0; zero := 0 |}.

Definition interrupt_gate (handler sel i dpl : Z) : IdtEntry := {|
  offset_low := Z.land handler 0xFFFF; selector := sel; ist := Z.land i 0x7;
  type_attr := Z.lor 0x8E (Z.shiftl dpl 5 mod 256);
  offset_mid := Z.land (Z.shiftr handler 16) 0xFFFF;
  offset_high := Z.shiftr handler 32 mod U32; zero := 0 |}.

Definition trap_gate (handler sel dpl : Z) : IdtEntry := {|
  offset_low := Z.land handler 0xFFFF; selector := sel; ist := 0;
  type_attr := Z.lor 0x8F (Z.shiftl dpl 5 mod 256);
  offset_mid := Z.land (Z.shiftr handler 16) 0xFFFF;
  offset_high := Z.shiftr handler 32 mod U32; zero := 0 |}.

(** ** Stubs *)

(** The naked functions; their addresses are chosen by the linker. *)
Inductive stub := NoErr (n : Z) | WithErr (n : Z) | isr_no_err_stub | isr_err_stub.
#[global] Instance stub_eq_dec : EqDecision stub.
Proof. solve_decision. Defined.

(** The code of a stub up to its jump to [isr_common]. *)
Definition stub_code (s : stub) : list instr :=
  match s with
  | NoErr n => [PushImm 0; PushImm n]
  | WithErr n => [PushImm n]
  | isr_no_err_stub => [PushImm 0; PushImm 255]
  | isr_err_stub => [PushImm 255]
  end.

Definition isr_saved : list reg := [RAX; RBX; RCX; RDX; RSI; RDI; RBP; R8; R9; R10; R11; R12; R13; R14; R15].

Definition isr_common : list instr :=
  (Push <$> isr_saved) ++ [Mov RSP RDI; AndRspM16; SubRsp 8; Call; AddRsp 8] ++
  (Pop <$> rev isr_saved) ++ [AddRsp 16; Iretq].

(** ** Filling the tables *)
Section Tables.
Context (addr : stub → Z).

Definition NO_ERR_VECTORS : list Z := [0; 1; 2; 3; 4; 5; 6; 7; 9; 16; 18; 19; 20; 21].
Definition ERR_VECTORS : list Z := [8; 10; 11; 12; 13; 14; 17].

(** [ISR_NO_ERR_TABLE] and [ISR_ERR_TABLE] after [init_tables] *)
Definition set_stubs (mk : Z → stub) (vs : list Z) (t : list Z) : list Z :=
  foldl (λ t v, <[Z.to_nat v := addr (mk v)]> t) t vs.
Definition ISR_NO_ERR_TABLE : list Z :=
  set_stubs NoErr [128] (set_stubs NoErr (seqZ 32 16)
    (set_stubs NoErr NO_ERR_VECTORS (replicate 256 (addr isr_no_err_stub)))).
Definition ISR_ERR_TABLE : list Z := set_stubs WithErr ERR_VECTORS (replicate 256 (addr isr_err_stub)).

Definition make_isr_no_err (v : Z) : exec Z := expect (ISR_NO_ERR_TABLE !! Z.to_nat v).
Definition make_isr_err (v : Z) : exec Z := expect (ISR_ERR_TABLE !! Z.to_nat v).

Definition set_handler (idt : list IdtEntry) (v handler i : Z) : list IdtEntry :=
  <[Z.to_nat v := interrupt_gate handler SEG_KERNEL_CODE i 0]> idt.
Definition set_trap (idt : list IdtEntry) (v handler dpl : Z) : list IdtEntry :=
  <[Z.to_nat v := trap_gate handler SEG_KERNEL_CODE dpl]> idt.

Definition Idt_new : list IdtEntry := replicate 256 MISSING.

(** [init] up to [lidt] *)
Definition init (idt : list IdtEntry) : exec (list IdtEntry) :=
  idt ← for_each NO_ERR_VECTORS (λ v idt, h ← make_isr_no_err v; Ret (set_handler idt v h 0)) idt;
  idt ← for_each ERR_VECTORS (λ v idt, h ← make_isr_err v; Ret (set_handler idt v h 0)) idt;
  h ← make_isr_err 8;
  let idt := <[8%nat := interrupt_gate h SEG_KERNEL_CODE 1 0]> idt in
  idt ← for_each (seqZ 0 16) (λ irq idt, h ← make_isr_no_err (32 + irq); Ret (set_handler idt (32 + irq) h 0)) idt;
  h ← make_isr_no_err 0x80;
  Ret (set_trap idt 0x80 h 3).

(** ** What the processor reads from a gate *)
Definition gate_offset (e : IdtEntry) : Z := offset_low e + 65536 * offset_mid e + U32 * offset_high e.
Definition gate_present (e : IdtEntry) : bool := Z.testbit (type_attr e) 7.
Definition gate_dpl (e : IdtEntry) : Z := Z.land (Z.shiftr (type_attr e) 5) 3.
(** A trap gate leaves interrupts enabled. *)
Definition gate_is_trap (e : IdtEntry) : bool := Z.testbit (type_attr e) 0.

Lemma gate_offset_split h : is_u64 h →
  Z.land h 0xFFFF + 65536 * Z.land (Z.shiftr h 16) 0xFFFF + U32 * (Z.shiftr h 32 mod U32) = h.
Proof.
  intros [H0 H1]. change 0xFFFF with (2 ^ 16 - 1). rewrite !land_ones_mod by lia.
  rewrite !Z.shiftr_div_pow2 by lia. change (2 ^ 16) with 65536. change (2 ^ 32) with U32.
  rewrite (Z.mod_small (h / U32)) by dlia. dlia.
Qed.

(** Vectors for which the processor pushes an error code. *)
Definition hw_error_vectors : list Z := [8; 10; 11; 12; 13; 14; 17; 21; 29; 30].

(** The stub the table holds for a vector. *)
Definition stub_of (v : Z) : option stub :=
  if decide (v ∈ ERR_VECTORS) then Some (WithErr v)
  else if decide (v ∈ NO_ERR_VECTORS ∨ 32 ≤ v < 48 ∨ v = 0x80) then Some (NoErr v)
  else None.

Definition expected_gate (v : Z) : IdtEntry :=
  match stub_of v with
  | None => MISSING
  | Some s => if decide (v = 0x80) then trap_gate (addr s) SEG_KERNEL_CODE 3
              else interrupt_gate (addr s) SEG_KERNEL_CODE (if decide (v = 8) then 1 else 0) 0
  end.

Lemma init_table : init Idt_new = Ret (expected_gate <$> seqZ 0 256).
Proof. reflexivity. Qed.
End Tables.

(** ** Interrupt delivery and return *)
Implicit Types (m : machine) (f : mem).

Definition machine_ok m : Prop :=
  (∀ r, is_u64 (regs m r)) ∧ is_u64 (rip m) ∧ is_u64 (cs m) ∧ is_u64 (rflags m) ∧ is_u64 (ss m).

(** The processor delivers an interrupt on the stack that ends at [top]: it
    aligns the stack and pushes the interrupted state and, for some vectors, an
    error code. *)
Definition deliver (top : Z) (err : option Z) m : machine :=
  let m0 := set_reg m RSP (Z.land top (u64_not 15)) in
  let m0 := foldl push m0 [ss m; regs m RSP; rflags m; cs m; rip m] in
  match err with Some e => push m0 e | None => m0 end.

(** The words of an [InterruptFrame] in memory order. *)
Definition frame_words m (v e : Z) : list Z :=
  (regs m <$> rev isr_saved) ++ [v; e; rip m; cs m; rflags m; regs m RSP; ss m].

Definition frame_at f (fr : Z) (vals : list Z) : Prop :=
  ∀ (i : nat) x, vals !! i = Some x → load64 f (fr + 8 * i) = x.

(** The part of the entry code before the call of [interrupt_dispatch]. *)
Definition isr_prefix (s : stub) : list instr :=
  stub_code s ++ (Push <$> isr_saved) ++ [Mov RSP RDI; AndRspM16; SubRsp 8].
Definition isr_suffix : list instr := [AddRsp 8] ++ (Pop <$> rev isr_saved) ++ [AddRsp 16; Iretq].

Lemma isr_split s : stub_code s ++ isr_common = isr_prefix s ++ Call :: isr_suffix.
Proof. by destruct s. Qed.

Lemma pushes_imm callee vals : ∀ m, 8 * length vals ≤ regs m RSP < U64 →
  pushes m vals (run callee (PushImm <$> vals) m).
Proof.
  induction vals as [|v vals IH]; intros m Hr.
  { split; cbn; try done; lia. }
  cbn [length] in Hr. pose proof (push_pushes m v ltac:(lia)) as H1.
  apply (pushes_app m [v] (push m v)); [done|]. apply IH. rewrite (pu_rsp _ _ _ H1). cbn [length]. lia.
Qed.

Lemma foldl_push_imm callee vals m : foldl push m vals = run callee (PushImm <$> vals) m.
Proof. revert m. induction vals as [|v vals IH]; intros m; [done|]. apply IH. Qed.

Lemma rsp_not_saved : RSP ∉ isr_saved.
Proof. unfold isr_saved. rewrite !not_elem_of_cons. split_and!; try done. apply not_elem_of_nil. Qed.

(** The values a stub and the processor push between the return address and the
    registers. *)
Definition stub_fits (s : stub) (v : Z) (err : option Z) : Prop :=
  s = NoErr v ∧ err = None ∨ s = WithErr v ∧ is_Some err.

Lemma entry_pushes callee s v err top m : stub_fits s v err → top mod 16 = 0 → 256 ≤ top < U64 →
  pushes (set_reg m RSP top)
    [ss m; regs m RSP; rflags m; cs m; rip m; default 0 err; v]
    (run callee (stub_code s) (deliver top err m)).
Proof.
  intros Hs Ha Ht. assert (Hal : Z.land top (u64_not 15) = top).
  { change 15 with (2 ^ 4 - 1). rewrite land_not_ones by (unfold is_u64; lia). change (2 ^ 4) with 16. lia. }
  unfold deliver. rewrite Hal. rewrite (foldl_push_imm callee). set (m0 := set_reg m RSP top).
  assert (E0 : regs m0 RSP = top) by (unfold m0; cbn; by rewrite decide_True).
  set (vs := [ss m; regs m RSP; rflags m; cs m; rip m]).
  assert (H5 : pushes m0 vs (run callee (PushImm <$> vs) m0)) by (apply pushes_imm; rewrite E0; cbn [length vs]; lia).
  pose proof (pu_rsp _ _ _ H5) as R5. rewrite E0 in R5. cbn [length vs] in R5.
  change [ss m; regs m RSP; rflags m; cs m; rip m; default 0 err; v] with (vs ++ [default 0 err; v]).
  eapply pushes_app; [exact H5|]. destruct Hs as [[-> ->]|[-> [e ->]]]; cbn [default].
  - apply (pushes_imm callee [0; v]). rewrite R5. cbn [length]. lia.
  - pose proof (push_pushes (run callee (PushImm <$> vs) m0) e) as He. rewrite R5 in He. specialize (He ltac:(lia)).
    apply (pushes_app _ [e] _ [v] _ He). apply (pushes_imm callee [v]).
    rewrite (pu_rsp _ _ _ He), R5. cbn [length]. lia.
Qed.

(** The stack at the call: the frame is complete and [rdi] points to it. *)
Lemma isr_prefix_spec callee s v err top m : stub_fits s v err → machine_ok m → is_u64 v →
  is_u64 (default 0 err) → top mod 16 = 0 → 256 ≤ top < U64 →
  let m1 := run callee (isr_prefix s) (deliver top err m) in
  regs m1 RDI = top - 176 ∧ regs m1 RSP = top - 184 ∧
  frame_at (mmem m1) (top - 176) (frame_words m v (default 0 err)) ∧
  (∀ x, x < top - 176 ∨ top ≤ x → mmem m1 x = mmem m x) ∧
  gs_base m1 = gs_base m ∧ kernel_gs_base m1 = kernel_gs_base m.
Proof.
  intros Hs (Hr & H1 & H2 & H3 & H4) Hv He Ha Ht m1. unfold m1, isr_prefix. rewrite !run_app.
  pose proof (entry_pushes callee s v err top m Hs Ha Ht) as P1. set (m0 := run callee (stub_code s) _) in *.
  assert (E0 : regs (set_reg m RSP top) RSP = top) by (cbn; by rewrite decide_True).
  pose proof (pu_rsp _ _ _ P1) as R1. rewrite E0 in R1. cbn [length] in R1.
  pose proof rsp_not_saved as Hn.
  pose proof (run_pushes callee isr_saved Hn m0 ltac:(rewrite R1; cbn [length isr_saved]; lia)) as P2.
  set (mp := run callee (Push <$> isr_saved) m0) in *.
  assert (Eregs : regs m0 <$> isr_saved = regs m <$> isr_saved).
  { apply list_fmap_ext. intros i r Hi. assert (r ≠ RSP) by (intros ->; by apply Hn, list_elem_of_lookup_2 with i).
    rewrite (pu_regs _ _ _ P1) by done. cbn. by rewrite decide_False. }
  rewrite Eregs in P2. pose proof (pushes_app _ _ _ _ _ P1 P2) as P.
  clearbody mp. clear P1 P2 R1 Eregs m0.
  set (vals := [ss m; regs m RSP; rflags m; cs m; rip m; default 0 err; v] ++ (regs m <$> isr_saved)) in *.
  assert (HL : length vals = 22%nat) by reflexivity.
  assert (Hfw : frame_words m v (default 0 err) = rev vals) by reflexivity.
  assert (Hvals : ∀ x, x ∈ vals → is_u64 x).
  { intros x [Hx|(r & -> & _)%list_elem_of_fmap]%elem_of_app; [|apply Hr].
    rewrite !elem_of_cons in Hx. destruct Hx as [->|[->|[->|[->|[->|[->|[->|[]%elem_of_nil]]]]]]]; done || apply Hr. }
  clearbody vals. destruct P as [RP _ PW PO PC]. rewrite E0, HL in *.
  assert (Hal : Z.land (regs mp RSP) (u64_not 15) = top - 176).
  { rewrite RP. change 15 with (2 ^ 4 - 1). rewrite land_not_ones by (unfold is_u64; lia). change (2 ^ 4) with 16. dlia. }
  assert (Hw : u64_wrap (top - 176 - 8) = top - 184) by (unfold u64_wrap; rewrite Z.mod_small; lia).
  cbn [run foldl exec_instr]. asm_simpl. rewrite Hal, Hw. split_and!.
  - rewrite RP. lia.
  - done.
  - intros i x Hi. rewrite Hfw, rev_reverse in Hi. apply reverse_lookup_Some in Hi as [Hi Hl].
    assert (Hx : is_u64 x) by (by apply Hvals, list_elem_of_lookup_2 with (length vals - S i)%nat).
    rewrite <- (PW _ _ Hi Hx). f_equal. lia.
  - intros x Hx. rewrite PO by lia. done.
  - apply (sc_gs _ _ PC).
  - apply (sc_kgs _ _ PC).
Qed.

(** The state the processor resumes: the frame as it is in memory. *)
Record resumes f (fr : Z) m2 : Prop := {
  re_regs : ∀ (i : nat) r, rev isr_saved !! i = Some r → regs m2 r = load64 f (fr + 8 * i);
  re_rip : rip m2 = load64 f (fr + 136);
  re_cs : cs m2 = load64 f (fr + 144);
  re_rflags : rflags m2 = load64 f (fr + 152);
  re_rsp : regs m2 RSP = load64 f (fr + 160);
  re_ss : ss m2 = load64 f (fr + 168);
  re_mem : mmem m2 = f
}.

Lemma nodup_saved : NoDup (rev isr_saved).
Proof. apply (bool_decide_unpack (NoDup (rev isr_saved))). by vm_compute. Qed.

Lemma isr_suffix_spec callee fr m : regs m RSP = fr - 8 → 8 ≤ fr → fr + 176 < U64 →
  resumes (mmem m) fr (run callee isr_suffix m).
Proof.
  intros Hr Hlo Hhi. unfold isr_suffix. rewrite !run_app. cbn [run foldl exec_instr].
  rewrite Hr. replace (u64_wrap (fr - 8 + 8)) with fr by (unfold u64_wrap; rewrite Z.mod_small; lia).
  set (m1 := set_reg m RSP fr).
  assert (Hn : RSP ∉ rev isr_saved) by (rewrite rev_reverse, elem_of_reverse; apply rsp_not_saved).
  assert (E1 : regs m1 RSP = fr) by (unfold m1; by asm_simpl).
  pose proof (run_pops callee (rev isr_saved) Hn nodup_saved m1) as P. rewrite E1 in P.
  change (length (rev isr_saved)) with 15%nat in P. specialize (P ltac:(lia) ltac:(lia)).
  change (foldl _ m1 (Pop <$> rev isr_saved)) with (run callee (Pop <$> rev isr_saved) m1).
  set (m2 := run callee (Pop <$> rev isr_saved) m1) in *. clearbody m2.
  destruct P as [PR PI PO PM PC]. rewrite E1 in *. change (length (rev isr_saved)) with 15%nat in PR.
  asm_simpl. rewrite PR.
  replace (u64_wrap (fr + 8 * 15%nat + 16)) with (fr + 136) by (unfold u64_wrap; rewrite Z.mod_small; lia).
  change (mmem m1) with (mmem m) in *. split; cbn [rip cs rflags ss mmem regs]; asm_simpl.
  - intros i r Hi. assert (r ≠ RSP) by (intros ->; by apply Hn, list_elem_of_lookup_2 with i).
    rewrite decide_False by done. asm_simpl. by apply PI.
  - by rewrite PM.
  - rewrite PM. f_equal. lia.
  - rewrite PM. f_equal. lia.
  - rewrite decide_True by done. rewrite PM. f_equal. lia.
  - rewrite PM. f_equal. lia.
  - done.
Qed.

(** ** Main theorems *)

(** C35: after [init_tables] and [init] every vector the kernel handles has a
    present gate to the stub that pushes its number, in the kernel code segment;
    only vector 0x80 can be raised from user mode and keeps interrupts enabled,
    and only the double fault switches to an interrupt stack. Other vectors have
    no gate. For every vector but 21 (control protection) the stub pushes a dummy
    error code exactly when the processor pushes none. *)
Theorem idt_init_correct addr v : (∀ s, is_u64 (addr s)) → 0 ≤ v < 256 →
  ∃ idt e, init addr Idt_new = Ret idt ∧ length idt = 256%nat ∧ idt !! Z.to_nat v = Some e ∧
    match stub_of v with
    | None => gate_present e = false
    | Some s => gate_present e = true ∧ gate_offset e = addr s ∧ selector e = SEG_KERNEL_CODE ∧
        gate_dpl e = (if decide (v = 0x80) then 3 else 0) ∧ gate_is_trap e = bool_decide (v = 0x80) ∧
        ist e = (if decide (v = 8) then 1 else 0) ∧
        (v ≠ 21 → s = if decide (v ∈ hw_error_vectors) then WithErr v else NoErr v)
    end.
Proof.
  intros Ha Hv. exists (expected_gate addr <$> seqZ 0 256), (expected_gate addr v).
  split_and!; [apply init_table|by rewrite length_fmap, length_seqZ| |].
  { rewrite list_lookup_fmap, lookup_seqZ_lt by lia. simpl. by rewrite Z2Nat.id by lia. }
  unfold expected_gate. destruct (stub_of v) as [s|] eqn:Es; [|done].
  assert (Hstub : v ≠ 21 → s = if decide (v ∈ hw_error_vectors) then WithErr v else NoErr v).
  { intros Hne. unfold stub_of in Es. destruct (decide (v ∈ ERR_VECTORS)) as [Hin|Hout]; simplify_eq.
    - rewrite decide_True; [done|]. unfold ERR_VECTORS, hw_error_vectors in *. clear -Hin. set_solver.
    - destruct (decide _) as [Hin|]; simplify_eq. rewrite decide_False; [done|]. intros Hhw.
      unfold hw_error_vectors, ERR_VECTORS, NO_ERR_VECTORS in *. rewrite !elem_of_cons, elem_of_nil in *. lia. }
  destruct (decide (v = 0x80)) as [->|Hne].
  - split_and!; try done. apply gate_offset_split, Ha.
  - rewrite bool_decide_false by done. split_and!; try done; [apply gate_offset_split, Ha|].
    cbn [ist interrupt_gate]. by destruct (decide (v = 8)).
Qed.

(** C25: an interrupt with vector [v] reaches [interrupt_dispatch] with a pointer
    to a frame that holds all registers of the interrupted code, its return
    state, the vector and the error code. Whatever the handler does to the
    registers, the code resumes with exactly the frame the handler leaves; if it
    leaves the frame alone, all registers, the instruction and stack pointers,
    the flags and the segments of the interrupted code are back. *)
Theorem isr_roundtrip callee s v err top m :
  stub_fits s v err → machine_ok m → is_u64 v → is_u64 (default 0 err) → top mod 16 = 0 → 256 ≤ top < U64 →
  (∀ m', regs (callee m') RSP = regs m' RSP) →
  let m1 := run callee (isr_prefix s) (deliver top err m) in
  let m2 := run callee (stub_code s ++ isr_common) (deliver top err m) in
  regs m1 RDI = top - 176 ∧ frame_at (mmem m1) (top - 176) (frame_words m v (default 0 err)) ∧
  resumes (mmem (callee m1)) (top - 176) m2 ∧
  ((∀ x, top - 176 ≤ x < top → mmem (callee m1) x = mmem m1 x) →
   (∀ r, regs m2 r = regs m r) ∧ rip m2 = rip m ∧ cs m2 = cs m ∧ rflags m2 = rflags m ∧ ss m2 = ss m).
Proof.
  intros Hs Hm Hv He Ha Ht Hc m1 m2.
  destruct (isr_prefix_spec callee s v err top m Hs Hm Hv He Ha Ht) as (H1 & H2 & H3 & _). fold m1 in H1, H2, H3.
  assert (HR : resumes (mmem (callee m1)) (top - 176) m2).
  { unfold m2. rewrite isr_split, run_app. fold m1. cbn [run foldl exec_instr].
    apply isr_suffix_spec; [rewrite Hc, H2; lia|lia..]. }
  split_and!; [done..|]. intros Hkeep.
  assert (Hw : ∀ (i : nat) x, frame_words m v (default 0 err) !! i = Some x →
    load64 (mmem (callee m1)) (top - 176 + 8 * i) = x).
  { intros i x Hi. rewrite <- (H3 i x Hi). apply load64_ext. intros y Hy. apply Hkeep.
    apply lookup_lt_Some in Hi. change (length _) with 22%nat in Hi. lia. }
  destruct HR as [R1 R2 R3 R4 R5 R6 _]. split_and!.
  - intros r. destruct (decide (r = RSP)) as [->|Hr].
    + rewrite R5. exact (Hw 20%nat _ eq_refl).
    + assert (r ∈ rev isr_saved) as [i Hi]%list_elem_of_lookup_1.
      { destruct r; try done; apply (bool_decide_unpack (_ ∈ rev isr_saved)); by vm_compute. }
      rewrite (R1 i r Hi). apply Hw. unfold frame_words. apply lookup_app_l_Some.
      by rewrite list_lookup_fmap, Hi.
  - rewrite R2. exact (Hw 17%nat _ eq_refl).
  - rewrite R3. exact (Hw 18%nat _ eq_refl).
  - rewrite R4. exact (Hw 19%nat _ eq_refl).
  - rewrite R6. exact (Hw 21%nat _ eq_refl).
Qed.

(** The stack at the entry of [interrupt_dispatch], after the call has pushed
    its return address, is a multiple of 16; the System V ABI, which the compiled
    function relies on, has it 8 above one. *)
Lemma dispatch_stack_misaligned callee s v err top m :
  stub_fits s v err → machine_ok m → is_u64 v → is_u64 (default 0 err) → top mod 16 = 0 → 256 ≤ top < U64 →
  (regs (run callee (isr_prefix s) (deliver top err m)) RSP - 8) mod 16 = 0.
Proof.
  intros Hs Hm Hv He Ha Ht. destruct (isr_prefix_spec callee s v err top m Hs Hm Hv He Ha Ht) as (_ & -> & _).
  dlia.
Qed.

(** ** Witnesses *)
Definition demo_addr (s : stub) : Z :=
  match s with
  | NoErr n => 0xFFFFFFFF80100000 + 16 * (n mod 256)
  | WithErr n => 0xFFFFFFFF80102000 + 16 * (n mod 256)
  | isr_no_err_stub => 0xFFFFFFFF80104000
  | isr_err_stub => 0xFFFFFFFF80104010
  end.

Lemma demo_addr_u64 s : is_u64 (demo_addr s).
Proof. unfold is_u64, demo_addr. destruct s as [n|n| |]; try lia; pose proof (Z.mod_pos_bound n 256 ltac:(lia)); lia. Qed.

Lemma idt_init_correct_witness :
  ∃ idt e, init demo_addr Idt_new = Ret idt ∧ length idt = 256%nat ∧ idt !! Z.to_nat 14 = Some e ∧
    gate_present e = true ∧ gate_offset e = demo_addr (WithErr 14) ∧ selector e = SEG_KERNEL_CODE ∧
    gate_dpl e = 0 ∧ gate_is_trap e = bool_decide (14 = 0x80) ∧ ist e = 0 ∧ (14 ≠ 21 → WithErr 14 = WithErr 14).
Proof. apply (idt_init_correct demo_addr 14); [apply demo_addr_u64|lia]. Defined.

Definition demo_machine : machine := {|
  regs := λ r, match r with RAX => 1 | RBX => 2 | RSP => 0x7FFFFFFEF000 | R15 => 15 | _ => 0 end;
  rip := 0x400078; cs := 0x23; rflags := 0x202; ss := 0x1B; gs_base := 0; kernel_gs_base := 0xFFFFFFFF80200000; star := 0;
  mmem := λ _, 0 |}.

Lemma isr_roundtrip_witness :
  let top := 0xFFFF800000004000 in
  let callee m := set_reg m RAX 77 in
  let m1 := run callee (isr_prefix (NoErr 32)) (deliver top None demo_machine) in
  let m2 := run callee (stub_code (NoErr 32) ++ isr_common) (deliver top None demo_machine) in
  regs m1 RDI = top - 176 ∧ frame_at (mmem m1) (top - 176) (frame_words demo_machine 32 0) ∧
  resumes (mmem (callee m1)) (top - 176) m2 ∧
  ((∀ x, top - 176 ≤ x < top → mmem (callee m1) x = mmem m1 x) →
   (∀ r, regs m2 r = regs demo_machine r) ∧ rip m2 = rip demo_machine ∧ cs m2 = cs demo_machine ∧
   rflags m2 = rflags demo_machine ∧ ss m2 = ss demo_machine).
Proof.
  intros top callee. apply (isr_roundtrip callee (NoErr 32) 32 None top demo_machine).
  - by left.
  - split; [intros []|split_and!]; unfold is_u64; cbn; lia.
  - unfold is_u64. lia.
  - unfold is_u64. cbn. lia.
  - reflexivity.
  - unfold top. lia.
  - reflexivity.
Defined.
