(* ===== verification/SyscallEntry.v ===== *)
(** The [syscall] entry path ([src/src/arch/x86_64/syscall_entry.rs]): the model
    specific registers, the assembly entry and the return to user mode. *)
From S2P Require Import Prelude Machine Asm Io.

Abbreviation SEG_KERNEL_CODE := 0x08 (only parsing).
Abbreviation SEG_USER_DATA := 0x1B (only parsing).

(** ** The model specific registers [init_syscall] sets *)
Definition EFER_SCE := Z.shiftl 1 0.

Definition init_syscall (entry : Z) (r : msrs) : msrs :=
  let efer := rdmsr MSR_EFER r in
  let r := wrmsr MSR_EFER (Z.lor efer EFER_SCE) r in
  let star := Z.lor (Z.shiftl SEG_KERNEL_CODE 32)
                (Z.shiftl (u64_wrap (Z.land SEG_USER_DATA (u64_not 3) - 8)) 48 mod U64) in
  let r := wrmsr MSR_STAR star r in
  let r := wrmsr MSR_LSTAR entry r in
  wrmsr MSR_SFMASK 0x40700 r.

(** ** The processor's [syscall] instruction

    The return address and the flags go to [rcx] and [r11]; the stack pointer
    stays the user's. *)
Definition hw_syscall (r : msrs) (m : machine) : machine := {|
  regs := λ x, if decide (x = RCX) then rip m else if decide (x = R11) then rflags m else regs m x;
  rip := r MSR_LSTAR; cs := Z.land (Z.shiftr (r MSR_STAR) 32) 0xFFFC; rflags := Z.land (rflags m) (u64_not (r MSR_SFMASK));
  ss := Z.land (Z.shiftr (r MSR_STAR) 32) 0xFFFF + 8;
  gs_base := gs_base m; kernel_gs_base := kernel_gs_base m; star := r MSR_STAR; mmem := mmem m |}.

(** ** [syscall_entry] *)
Definition entry_saved : list reg := [R11; RCX; RAX; RBX; RBP; R12; R13; R14; R15].

Definition arg_moves : list instr :=
  [Mov R8 R9; Mov R10 R8; Mov RDX RCX; Mov RSI RDX; Mov RDI RSI; Mov RAX RDI].
Definition entry_prefix : list instr :=
  [Swapgs; MovToGs RSP 16; MovFromGs 8 RSP] ++ (Push <$> entry_saved) ++
  [SubRsp 8; MovToStack R9] ++ arg_moves ++ [Sti].
Definition entry_suffix : list instr :=
  [AddRsp 8] ++ (Pop <$> [R15; R14; R13; R12; RBP; RBX]) ++ [AddRsp 8] ++ (Pop <$> [RCX; R11]) ++
  [MovFromGs 16 RSP; Cli; Swapgs; Sysretq].
Definition syscall_entry : list instr := entry_prefix ++ [Call] ++ entry_suffix.

Implicit Types (m : machine) (G K : Z).

(** The per-processor block at [G] names the kernel stack [K], which the block
    does not overlap. *)
Record cpu_local m G K : Prop := {
  cl_gs : kernel_gs_base m = G;
  cl_stack : load64 (mmem m) (G + 8) = K;
  cl_align : K mod 16 = 0;
  cl_range : 256 ≤ K < U64;
  cl_apart : G + 24 ≤ K - 256 ∨ K ≤ G
}.

Lemma init_selectors entry r : let r := init_syscall entry r in
  Z.lor (Z.shiftr (r MSR_STAR) 48 + 16) 3 = 0x23 ∧ Z.lor (Z.shiftr (r MSR_STAR) 48 + 8) 3 = 0x1B ∧ Z.land (Z.shiftr (r MSR_STAR) 32) 0xFFFF = SEG_KERNEL_CODE ∧
  Z.land (r MSR_SFMASK) 0x200 = 0x200.
Proof. split_and!; reflexivity. Qed.

Lemma rsp_not_entry_saved : RSP ∉ entry_saved.
Proof. unfold entry_saved. rewrite !not_elem_of_cons. split_and!; try done. apply not_elem_of_nil. Qed.

(** The moves shift the arguments of the Linux convention one place right. *)
Record moved m m' : Prop := {
  mv_regs : regs m' RDI = regs m RAX ∧ regs m' RSI = regs m RDI ∧ regs m' RDX = regs m RSI ∧
    regs m' RCX = regs m RDX ∧ regs m' R8 = regs m R10 ∧ regs m' R9 = regs m R8 ∧ regs m' RSP = regs m RSP;
  mv_mem : mmem m' = mmem m;
  mv_gs : gs_base m' = gs_base m ∧ kernel_gs_base m' = kernel_gs_base m ∧ star m' = star m
}.

Lemma arg_moves_spec callee m : moved m (run callee (arg_moves ++ [Sti]) m).
Proof. split; split_and?; reflexivity. Qed.

(** The switch to the kernel stack named in the per-processor block. *)
Record switched m G K m' : Prop := {
  sw_rsp : regs m' RSP = K;
  sw_regs : ∀ r, r ≠ RSP → regs m' r = regs m r;
  sw_mem : mmem m' = store64 (mmem m) (G + 16) (regs m RSP);
  sw_gs : gs_base m' = G ∧ kernel_gs_base m' = gs_base m ∧ star m' = star m
}.

Lemma switch_spec callee m G K : cpu_local m G K →
  switched m G K (run callee [Swapgs; MovToGs RSP 16; MovFromGs 8 RSP] m).
Proof.
  intros [Hg Hk Ha Hr Hap]. cbn [run foldl exec_instr]. split.
  - asm_simpl. cbn [gs_base mmem regs]. rewrite Hg. by rewrite load_store64_other by lia.
  - intros r Hne. by rewrite regs_set_ne.
  - asm_simpl. cbn [gs_base regs mmem]. by rewrite Hg.
  - done.
Qed.

(** The slot of the seventh argument. *)
Lemma slot_spec callee m : 8 ≤ regs m RSP < U64 →
  pushes m [regs m R9] (run callee [SubRsp 8; MovToStack R9] m).
Proof. intros Hr. exact (push_pushes m (regs m R9) Hr). Qed.

(** The state at the call: the arguments of [syscall_dispatch_entry]. *)
Record entered m G K m1 : Prop := {
  en_nr : regs m1 RDI = regs m RAX;
  en_a0 : regs m1 RSI = regs m RDI;
  en_a1 : regs m1 RDX = regs m RSI;
  en_a2 : regs m1 RCX = regs m RDX;
  en_a3 : regs m1 R8 = regs m R10;
  en_a4 : regs m1 R9 = regs m R8;
  en_a5 : load64 (mmem m1) (regs m1 RSP) = regs m R9;
  en_rsp : regs m1 RSP = K - 80;
  en_saved : ∀ (i : nat) r, entry_saved !! i = Some r → load64 (mmem m1) (K - 8 * (i + 1)) = regs m r;
  en_user_rsp : load64 (mmem m1) (G + 16) = regs m RSP;
  en_kstack : load64 (mmem m1) (G + 8) = K;
  en_gs : gs_base m1 = G ∧ kernel_gs_base m1 = gs_base m ∧ star m1 = star m
}.

Lemma entry_prefix_spec callee m G K : (∀ r, is_u64 (regs m r)) → cpu_local m G K →
  entered m G K (run callee entry_prefix m).
Proof.
  intros Hu Hcl. unfold entry_prefix. rewrite !(run_app _ _ (_ ++ _)).
  destruct (switch_spec callee m G K Hcl) as [SR SG SM SC]. destruct Hcl as [_ Hk Ha Hr Hap].
  set (m0 := run callee _ m) in *. clearbody m0.
  pose proof (run_pushes callee entry_saved rsp_not_entry_saved m0
    ltac:(rewrite SR; cbn [length entry_saved]; lia)) as P1.
  set (mp := run callee (Push <$> entry_saved) m0) in *. clearbody mp.
  assert (R1 := pu_rsp _ _ _ P1). rewrite length_fmap in R1. cbn [length entry_saved] in R1.
  pose proof (slot_spec callee mp ltac:(lia)) as P2.
  set (ms := run callee _ mp) in *. clearbody ms.
  destruct (arg_moves_spec callee ms) as [(D1 & D2 & D3 & D4 & D5 & D6 & D7) MM MG].
  set (m1 := run callee _ ms) in *. clearbody m1.
  assert (E9 : regs mp R9 = regs m R9) by (rewrite (pu_regs _ _ _ P1), SG; done). rewrite E9 in P2.
  pose proof (pushes_app _ _ _ _ _ P1 P2) as [PR PG PW PO [_ _ _ _ Pg Pk Ps]]. clear P1 P2.
  rewrite length_app, length_fmap in *. cbn [length entry_saved] in *. rewrite SR in *.
  assert (Eregs : ∀ r, r ≠ RSP → regs ms r = regs m r) by (intros; rewrite PG by done; by apply SG).
  destruct SC as (G1 & G2 & G3), MG as (G4 & G5 & G6).
  split; rewrite ?MM, ?D1, ?D2, ?D3, ?D4, ?D5, ?D6, ?D7; try (by apply Eregs).
  - rewrite PR. rewrite <- (PW 9%nat (regs m R9) eq_refl (Hu R9)). f_equal; lia.
  - lia.
  - intros i r Hi. assert (Hne : r ≠ RSP).
    { intros ->. by apply rsp_not_entry_saved, list_elem_of_lookup_2 with i. }
    apply PW; [|apply Hu]. rewrite lookup_app_l by (rewrite length_fmap; by eapply lookup_lt_Some).
    by rewrite list_lookup_fmap, Hi, <- (SG r Hne).
  - rewrite (load64_ext (mmem m0)) by (intros; apply PO; lia). rewrite SM. apply load_store64, Hu.
  - rewrite (load64_ext (mmem m0)) by (intros; apply PO; lia). rewrite SM. by rewrite load_store64_other by lia.
  - split_and!; congruence.
Qed.

(** ** The return *)

(** What the compiled [syscall_dispatch_entry] keeps: the stack pointer, the
    segment bases and the frame of its caller. *)
Record keeps_frame K m1 m2 : Prop := {
  kf_rsp : regs m2 RSP = regs m1 RSP;
  kf_gs : gs_base m2 = gs_base m1 ∧ kernel_gs_base m2 = kernel_gs_base m1 ∧ star m2 = star m1;
  kf_frame : ∀ x, K - 72 ≤ x < K → mmem m2 x = mmem m1 x
}.

(** The state after [sysretq]. *)
Record returned m G m1 m2 : Prop := {
  rt_rip : rip m2 = regs m RCX;
  rt_rflags : rflags m2 = regs m R11;
  rt_saved : ∀ r, r ∈ [RBX; RBP; R12; R13; R14; R15; RCX; R11] → regs m2 r = regs m r;
  rt_rsp : regs m2 RSP = load64 (mmem m1) (G + 16);
  rt_clobbered : ∀ r, r ∈ [RAX; RDI; RSI; RDX; R8; R9; R10] → regs m2 r = regs m1 r;
  rt_gs : gs_base m2 = kernel_gs_base m1 ∧ kernel_gs_base m2 = G;
  rt_sel : cs m2 = Z.lor (Z.shiftr (star m1) 48 + 16) 3 ∧ ss m2 = Z.lor (Z.shiftr (star m1) 48 + 8) 3;
  rt_mem : mmem m2 = mmem m1
}.

Lemma NoDup_regs (l : list reg) : bool_decide (NoDup l) = true → NoDup l.
Proof. intros H. by apply bool_decide_eq_true in H. Qed.

Lemma regs_no_rsp (l : list reg) : bool_decide (RSP ∈ l) = false → RSP ∉ l.
Proof. intros H. by apply bool_decide_eq_false in H. Qed.

(** A slot skipped and a block of registers popped. *)
Lemma skip_pops callee rs m : RSP ∉ rs → NoDup rs → 0 ≤ regs m RSP → regs m RSP + 8 + 8 * length rs < U64 →
  pops (set_reg m RSP (regs m RSP + 8)) rs (run callee ([AddRsp 8] ++ (Pop <$> rs)) m).
Proof.
  intros Hn Hd H0 H1. rewrite run_app.
  replace (run callee [AddRsp 8] m) with (set_reg m RSP (regs m RSP + 8))
    by (cbn; unfold u64_wrap; by rewrite Z.mod_small by lia).
  apply run_pops; [done|done|rewrite regs_set_eq; lia|rewrite regs_set_eq; lia].
Qed.

Lemma leave_spec callee m G : gs_base m = G → let m2 := run callee [MovFromGs 16 RSP; Cli; Swapgs; Sysretq] m in
  rip m2 = regs m RCX ∧ rflags m2 = regs m R11 ∧ regs m2 RSP = load64 (mmem m) (G + 16) ∧
  (∀ r, r ≠ RSP → regs m2 r = regs m r) ∧ gs_base m2 = kernel_gs_base m ∧ kernel_gs_base m2 = G ∧
  cs m2 = Z.lor (Z.shiftr (star m) 48 + 16) 3 ∧ ss m2 = Z.lor (Z.shiftr (star m) 48 + 8) 3 ∧ mmem m2 = mmem m.
Proof. intros <-. cbn. split_and!; try done. intros r Hr. by rewrite decide_False. Qed.

Lemma entry_suffix_spec callee m G K mc :
  (∀ (i : nat) r, entry_saved !! i = Some r → load64 (mmem mc) (K - 8 * (i + 1)) = regs m r) →
  regs mc RSP = K - 80 → 256 ≤ K < U64 → gs_base mc = G →
  returned m G mc (run callee entry_suffix mc).
Proof.
  intros Hf Hsp Hr Hg. unfold entry_suffix.
  rewrite app_assoc, run_app, app_assoc, run_app.
  destruct (skip_pops callee [R15; R14; R13; R12; RBP; RBX] mc ltac:(by apply regs_no_rsp) ltac:(by apply NoDup_regs)
    ltac:(lia) ltac:(cbn [length]; lia)) as [BR BI BO BM [_ _ _ _ Bg Bk Bs]].
  set (mb := run callee _ mc) in *. clearbody mb. rewrite regs_set_eq in *. rewrite Hsp in *. cbn [length] in BR.
  destruct (skip_pops callee [RCX; R11] mb ltac:(by apply regs_no_rsp) ltac:(by apply NoDup_regs)
    ltac:(lia) ltac:(cbn [length]; lia)) as [DR DI DO DM [_ _ _ _ Dg Dk Ds]].
  set (md := run callee _ mb) in *. clearbody md. rewrite regs_set_eq in *. rewrite BR in *.
  cbn [gs_base kernel_gs_base star mmem set_reg set_regs] in *.
  destruct (leave_spec callee md G ltac:(congruence)) as (L1 & L2 & L3 & L4 & L5 & L6 & L7 & L8 & L9).
  set (m2 := run callee _ md) in *. clearbody m2. rewrite BM in DM, DI. rewrite DM in L3, L9.
  assert (Hfr : ∀ (i : nat) r x, entry_saved !! i = Some r → x = K - 8 * (i + 1) → load64 (mmem mc) x = regs m r)
    by (intros i r x Hi ->; by apply Hf).
  assert (Hcx : regs md RCX = regs m RCX) by (rewrite (DI 0%nat RCX eq_refl); apply (Hfr 1%nat); [done|lia]).
  assert (H11 : regs md R11 = regs m R11) by (rewrite (DI 1%nat R11 eq_refl); apply (Hfr 0%nat); [done|lia]).
  assert (Hlow : ∀ r, r ∉ [RCX; R11] → r ≠ RSP → regs md r = regs mb r).
  { intros r H1 H2. rewrite DO by done. by rewrite regs_set_ne. }
  split; [congruence|congruence| | | | | |].
  - intros r Hin. rewrite L4 by (intros ->; revert Hin; by apply regs_no_rsp).
    rewrite !elem_of_cons, elem_of_nil in Hin.
    destruct Hin as [->|[->|[->|[->|[->|[->|[->|[->|[]]]]]]]]]; try done;
    (rewrite Hlow; [|by apply (bool_decide_eq_false _)|done]).
    + rewrite (BI 5%nat _ eq_refl). apply (Hfr 3%nat); [done|lia].
    + rewrite (BI 4%nat _ eq_refl). apply (Hfr 4%nat); [done|lia].
    + rewrite (BI 3%nat _ eq_refl). apply (Hfr 5%nat); [done|lia].
    + rewrite (BI 2%nat _ eq_refl). apply (Hfr 6%nat); [done|lia].
    + rewrite (BI 1%nat _ eq_refl). apply (Hfr 7%nat); [done|lia].
    + rewrite (BI 0%nat _ eq_refl). apply (Hfr 8%nat); [done|lia].
  - done.
  - intros r Hin. rewrite !elem_of_cons, elem_of_nil in Hin.
    destruct Hin as [->|[->|[->|[->|[->|[->|[->|[]]]]]]]]; (rewrite L4, Hlow, BO, ?regs_set_ne; [done|..]);
    try done; by apply (bool_decide_eq_false _).
  - split; congruence.
  - split; congruence.
  - done.
Qed.

(** A whole system call, from the user's [syscall] to the instruction after it. *)
Definition syscall_return (callee : machine → machine) (r : msrs) m : machine :=
  run callee syscall_entry (hw_syscall r m).

Lemma hw_cpu_local r m G K : cpu_local m G K → cpu_local (hw_syscall r m) G K.
Proof. by intros []. Qed.
Lemma hw_u64 r m : (∀ x, is_u64 (regs m x)) → is_u64 (rip m) → is_u64 (rflags m) →
  ∀ x, is_u64 (regs (hw_syscall r m) x).
Proof. intros Hu H1 H2 x. cbn. repeat case_decide; auto. Qed.

Lemma syscall_return_spec callee r m G K : let m1 := run callee entry_prefix (hw_syscall r m) in
  (∀ x, is_u64 (regs m x)) → is_u64 (rip m) → is_u64 (rflags m) → cpu_local m G K →
  keeps_frame K m1 (callee m1) →
  entered (hw_syscall r m) G K m1 ∧
  returned (hw_syscall r m) G (callee m1) (syscall_return callee r m).
Proof.
  intros m1 Hu H1 H2 Hcl [KR KG KF].
  assert (He : entered (hw_syscall r m) G K m1).
  { apply entry_prefix_spec; [by apply hw_u64|by apply hw_cpu_local]. }
  split; [done|]. unfold syscall_return, syscall_entry. rewrite run_app, run_app. fold m1.
  change (run callee [Call] m1) with (callee m1). destruct He, Hcl, en_gs0 as (G1 & G2 & G3), KG as (G4 & G5 & G6).
  apply (entry_suffix_spec _ _ _ K); [|congruence|done|congruence].
  intros i x Hi. rewrite <- (en_saved0 i x Hi). assert (Hlt := lookup_lt_Some _ _ _ Hi). cbn [length entry_saved] in Hlt.
  apply load64_ext. intros y Hy. apply KF. lia.
Qed.

(** C23: A system call through [syscall_entry], on the registers [init_syscall]
    sets. The dispatcher is called with the number of [rax] and the arguments of
    [rdi], [rsi], [rdx], [r10], [r8], [r9] in the order of its parameters, on the
    kernel stack of the per-processor block and with the stack aligned for the
    call, and the user stack pointer is in the block. If it returns as the calling
    convention says, with its frame intact, the user program goes on after its
    [syscall] with user selectors, its flags, its callee-saved registers and the
    result in [rax], on the stack pointer that is then in the block: its own if no
    other process has entered the kernel in between. *)
Theorem syscall_entry_correct callee entry r0 m G K :
  let r := init_syscall entry r0 in
  let m1 := run callee entry_prefix (hw_syscall r m) in
  let m2 := syscall_return callee r m in
  (∀ x, is_u64 (regs m x)) → is_u64 (rip m) → is_u64 (rflags m) → cpu_local m G K →
  keeps_frame K m1 (callee m1) →
  (regs m1 <$> [RDI; RSI; RDX; RCX; R8; R9]) ++ [load64 (mmem m1) (regs m1 RSP)] =
    regs m <$> [RAX; RDI; RSI; RDX; R10; R8; R9] ∧
  regs m1 RSP mod 16 = 0 ∧ K - 80 ≤ regs m1 RSP < K ∧ load64 (mmem m1) (G + 16) = regs m RSP ∧
  (rip m2, rflags m2, cs m2, ss m2) = (rip m, rflags m, 0x23, 0x1B) ∧
  regs m2 RSP = load64 (mmem (callee m1)) (G + 16) ∧
  regs m2 <$> [RBX; RBP; R12; R13; R14; R15] = regs m <$> [RBX; RBP; R12; R13; R14; R15] ∧
  regs m2 RAX = regs (callee m1) RAX ∧
  (gs_base m2, kernel_gs_base m2) = (gs_base m, G) ∧ mmem m2 = mmem (callee m1).
Proof.
  intros r m1 m2 Hu H1 H2 Hcl Hk.
  destruct (syscall_return_spec callee r m G K Hu H1 H2 Hcl Hk) as [E R]. fold m1 in E, R. fold m2 in R.
  clearbody m2. destruct E as [N1 N2 N3 N4 N5 N6 N7 Esp _ Eur _ (G4 & G5 & G6)].
  destruct R as [R1 R2 R3 R4 R5 [G7 G8] [R6 R7] R8].
  destruct Hcl as [_ _ Ha _ _], Hk as [_ (G1 & G2 & G3) _].
  split_and!.
  - cbn [fmap list_fmap app]. rewrite N1, N2, N3, N4, N5, N6, N7. reflexivity.
  - rewrite Esp. replace (K - 80) with (K + (-5) * 16) by lia. by rewrite Z.mod_add.
  - lia.
  - lia.
  - rewrite Eur. reflexivity.
  - rewrite R1, R2, R6, R7, G3, G6. reflexivity.
  - exact R4.
  - cbn [fmap list_fmap]. repeat (rewrite R3 by (rewrite !elem_of_cons; tauto)). reflexivity.
  - apply R5. rewrite !elem_of_cons; tauto.
  - rewrite G7, G8, G2, G5. reflexivity.
  - done.
Qed.

Definition demo_G : Z := 0xFFFFFFFF80200000.
Definition demo_K : Z := 0xFFFFFFFF80300000.
Definition demo_user : machine := {|
  regs := λ r, match r with RAX => 1 | RDI => 1 | RSI => 0x400000 | RDX => 14 | RSP => 0x7FFFFFFFE000 | RBX => 7 | _ => 0 end;
  rip := 0x400100; cs := 0x23; rflags := 0x202; ss := 0x1B; gs_base := 0; kernel_gs_base := demo_G; star := 0;
  mmem := store64 (λ _, 0) (demo_G + 8) demo_K |}.
Definition demo_msrs : msrs := λ n, if n =? MSR_EFER then 0xD00 else 0.
Definition demo_callee m : machine := set_reg m RAX 14.

Lemma demo_cpu_local : cpu_local demo_user demo_G demo_K.
Proof. split; [done|by apply load_store64|done|unfold demo_K; lia|unfold demo_G, demo_K; lia]. Qed.
Lemma demo_u64 x : is_u64 (regs demo_user x).
Proof. destruct x; unfold is_u64; cbn; lia. Qed.
Lemma demo_keeps m : keeps_frame demo_K m (demo_callee m).
Proof. by split. Qed.

Lemma demo_callee_mem m : mmem (demo_callee m) = mmem m.
Proof. done. Qed.

Lemma syscall_entry_correct_witness :
  let m2 := syscall_return demo_callee (init_syscall 0xFFFFFFFF80001000 demo_msrs) demo_user in
  (rip m2, rflags m2, cs m2, ss m2) = (0x400100, 0x202, 0x23, 0x1B) ∧ regs m2 RSP = 0x7FFFFFFFE000 ∧ regs m2 RAX = 14.
Proof.
  destruct (syscall_entry_correct demo_callee 0xFFFFFFFF80001000 demo_msrs demo_user demo_G demo_K demo_u64 ltac:(unfold is_u64; cbn; lia)
    ltac:(unfold is_u64; cbn; lia) demo_cpu_local (demo_keeps _)) as (_ & _ & _ & H0 & H1 & Hs & _ & H2 & _).
  split; [exact H1|]. split; [rewrite Hs, demo_callee_mem, H0; reflexivity|]. rewrite H2. apply regs_set_eq.
Defined.

(** The saved user stack pointer is one word per processor, and interrupts are
    enabled during the call: a process whose call is suspended while another
    process enters the kernel returns on that process's stack. *)
Lemma returns_on_last_entrant callee callee' r m mb G K K' :
  let m1 := run callee entry_prefix (hw_syscall r m) in
  (∀ x, is_u64 (regs m x)) → is_u64 (rip m) → is_u64 (rflags m) → cpu_local m G K →
  (∀ x, is_u64 (regs mb x)) → is_u64 (rip mb) → is_u64 (rflags mb) → cpu_local mb G K' →
  keeps_frame K m1 (callee m1) →
  load64 (mmem (callee m1)) (G + 16) = load64 (mmem (run callee' entry_prefix (hw_syscall r mb))) (G + 16) →
  regs (syscall_return callee r m) RSP = regs mb RSP.
Proof.
  intros m1 Hu H1 H2 Hcl Hub H1b H2b Hclb Hk Hslot.
  destruct (syscall_return_spec callee r m G K Hu H1 H2 Hcl Hk) as [_ R].
  rewrite (rt_rsp _ _ _ _ R). fold m1. rewrite Hslot.
  exact (en_user_rsp _ _ _ _ (entry_prefix_spec callee' _ G K' (hw_u64 r mb Hub H1b H2b) (hw_cpu_local r mb G K' Hclb))).
Qed.
