(* ===== verification/Gdt.v ===== *)
(** Segmentation and processor features: the global descriptor table, the task
    state segment and the per-processor block ([src/src/arch/x86_64/gdt.rs]), and
    the control registers set at boot ([init_bsp] of [src/src/arch/x86_64.rs]),
    with the checks that the processor makes when it loads a selector. *)
From S2P Require Import Prelude Machine Asm Io SyscallEntry.

Definition SEG_KERNEL_CODE := 0x08.
Definition SEG_KERNEL_DATA := 0x10.
Definition SEG_USER_DATA := Z.lor 0x18 3.
Definition SEG_USER_CODE := Z.lor 0x20 3.
Definition SEG_TSS := 0x28.

(** ** The structures in memory *)
Definition le_bytes (n : nat) (v : Z) : list Z := (λ i : nat, Z.shiftr v (8 * i) mod 256) <$> seq 0 n.

(** [#[repr(C, packed(4))] struct Tss], 104 bytes *)
Record Tss := { rsp : list Z; ist : list Z; iopb : Z }.
Definition TSS_SIZE := 104.
Definition Tss_new : Tss := {| rsp := [0; 0; 0]; ist := [0; 0; 0; 0; 0; 0; 0]; iopb := TSS_SIZE |}.
Definition tss_bytes (t : Tss) : list Z :=
  le_bytes 4 0 ++ (rsp t ≫= le_bytes 8) ++ le_bytes 8 0 ++ (ist t ≫= le_bytes 8) ++ le_bytes 8 0 ++ le_bytes 2 0 ++ le_bytes 2 (iopb t).

Definition SegDesc_new (access flags : Z) : Z :=
  let limit_low := 0xFFFF in
  let base_low := 0 in
  let base_mid := 0 in
  let limit_high := 0xF in
  let base_high := 0 in
  Z.lor (Z.lor (Z.lor (Z.lor (Z.lor (Z.lor limit_low (Z.shiftl base_low 16)) (Z.shiftl base_mid 32))
    (Z.shiftl access 40)) (Z.shiftl limit_high 48)) (Z.shiftl flags 52)) (Z.shiftl base_high 56).

(** The descriptor of the segment at the address [base] *)
Definition TssDesc_new (base : Z) : Z * Z :=
  let limit := TSS_SIZE - 1 in
  (Z.lor (Z.lor (Z.lor (Z.lor (Z.land limit 0xFFFF) (Z.shiftl (Z.land base 0xFFFFFF) 16)) (Z.shiftl 0x89 40))
     (Z.shiftl (Z.land (Z.shiftr limit 16) 0xF) 48)) (Z.shiftl (Z.land (Z.shiftr base 24) 0xFF) 56),
   Z.land (Z.shiftr base 32) 0xFFFFFFFF).

(** [#[repr(C, align(16))] struct Gdt], seven words *)
Record Gdt := { null : Z; kcode : Z; kdata : Z; udata : Z; ucode : Z; tss : Z * Z }.
Definition GDT_SIZE := 56.
Definition Gdt_new : Gdt := {|
  null := 0;
  kcode := SegDesc_new 0x9a 0x2;
  kdata := SegDesc_new 0x92 0x0;
  udata := SegDesc_new 0xF2 0x0;
  ucode := SegDesc_new 0xFA 0x2;
  tss := (0, 0) |}.
Definition gdt_bytes (g : Gdt) : list Z :=
  [null g; kcode g; kdata g; udata g; ucode g; (tss g).1; (tss g).2] ≫= le_bytes 8.

(** ** The processor

    System registers and memory. [task] is the part of the task register that
    the processor keeps: the address and limit of the segment. *)
Record cpu := {
  gdtr_limit : Z; gdtr_base : Z;
  sel_cs : Z; sel_ds : Z; sel_es : Z; sel_ss : Z; sel_fs : Z; sel_gs : Z;
  tr : Z; task : Z * Z;
  cr0 : Z; cr4 : Z; msr : msrs; cmem : mem
}.
Definition kernel_gs (c : cpu) : Z := msr c MSR_KERNEL_GS.

Definition set_cmem (c : cpu) (m : mem) : cpu := {|
  gdtr_limit := gdtr_limit c; gdtr_base := gdtr_base c;
  sel_cs := sel_cs c; sel_ds := sel_ds c; sel_es := sel_es c; sel_ss := sel_ss c; sel_fs := sel_fs c; sel_gs := sel_gs c;
  tr := tr c; task := task c; cr0 := cr0 c; cr4 := cr4 c; msr := msr c; cmem := m |}.

(** The descriptor a selector names, if it is inside the table. *)
Definition descriptor (m : mem) (limit base sel : Z) : option Z :=
  if sel / 8 * 8 + 7 <=? limit then Some (load64 m (base + sel / 8 * 8)) else None.

Definition d_present (d : Z) : bool := Z.testbit d 47.
Definition d_segment (d : Z) : bool := Z.testbit d 44.
Definition d_code (d : Z) : bool := Z.testbit d 43.
Definition d_writable (d : Z) : bool := Z.testbit d 41.
Definition d_dpl (d : Z) : Z := d / 2 ^ 45 mod 4.
Definition d_long (d : Z) : bool := Z.testbit d 53 && negb (Z.testbit d 54).

(** A 64-bit code segment, or a stack segment, of a privilege level. *)
Definition code_ok (d cpl : Z) : bool := d_present d && d_segment d && d_code d && d_long d && (d_dpl d =? cpl).
Definition stack_ok (d cpl : Z) : bool := d_present d && d_segment d && negb (d_code d) && d_writable d && (d_dpl d =? cpl).
Definition usable (m : mem) (limit base sel : Z) (ok : Z → Z → bool) : bool :=
  match descriptor m limit base sel with Some d => ok d (sel mod 4) | None => false end.

(** The checks on loading a selector; a protection fault, here before there is
    any handler, stops the machine. *)
Definition load_sel (m : mem) (limit base sel : Z) (ok : Z → Z → bool) : exec Z :=
  if usable m limit base sel ok then Ret sel else Panic.

(** [ltr]: an available task segment; its descriptor is marked busy. *)
Definition ltr (m : mem) (limit base sel : Z) : exec (Z * Z * mem) :=
  if sel / 8 * 8 + 15 <=? limit then
    let a := base + sel / 8 * 8 in
    let low := load64 m a in
    let high := load64 m (a + 8) in
    if d_present low && negb (d_segment low) && (low / 2 ^ 40 mod 16 =? 9) then
      let tbase := low / 2 ^ 16 mod 2 ^ 24 + 2 ^ 24 * (low / 2 ^ 56 mod 2 ^ 8) + 2 ^ 32 * (high mod 2 ^ 32) in
      let tlimit := low mod 2 ^ 16 + 2 ^ 16 * (low / 2 ^ 48 mod 2 ^ 4) in
      Ret (tbase, tlimit, store64 m a (Z.lor low (2 ^ 41)))
    else Panic
  else Panic.

(** The stack pointer taken from the task segment on entry to level 0, and the
    one of interrupt stack [i], from 1. *)
Definition entry_stack (c : cpu) : Z := load64 (cmem c) ((task c).1 + 4).
Definition interrupt_stack (c : cpu) (i : Z) : Z := load64 (cmem c) ((task c).1 + 28 + 8 * i).

(** ** The code

    [g], [t] and [l] are the addresses of the table, of the task segment and of
    [CPU_LOCAL]. *)
Section Boot.
Context (g t l : Z).

(** The statics as the image has them: [CpuGdt::new()] and a zero [CpuLocal] *)
Definition statics (m : mem) : mem :=
  let m := store_bytes m g (gdt_bytes Gdt_new) in
  let m := store_bytes m t (tss_bytes Tss_new) in
  store_bytes m l (replicate 24 0).

(** [CpuGdt::set_kernel_stack]: the descriptor of the task segment is built, and
    [lgdt], a far return to the kernel code selector, the loads of the data
    selectors and [ltr] follow. The two words that the far return takes from the
    stack are pushed just before and not kept. *)
Definition CpuGdt_set_kernel_stack (rsp0 : Z) (c : cpu) : exec cpu :=
  let m := store64 (cmem c) (t + 4) rsp0 in
  let '(low, high) := TssDesc_new t in
  let m := store64 (store64 m (g + 40) low) (g + 48) high in
  let limit := GDT_SIZE - 1 in
  code ← load_sel m limit g 8 code_ok;
  data ← load_sel m limit g SEG_KERNEL_DATA stack_ok;
  '(task, m) ← ltr m limit g SEG_TSS;
  Ret {| gdtr_limit := limit; gdtr_base := g;
    sel_cs := code; sel_ds := data; sel_es := data; sel_ss := data; sel_fs := 0; sel_gs := 0;
    tr := SEG_TSS; task := task; cr0 := cr0 c; cr4 := cr4 c; msr := msr c; cmem := m |}.

Definition gdt_init_bsp (kernel_stack_top : Z) (c : cpu) : exec cpu :=
  c ← CpuGdt_set_kernel_stack kernel_stack_top c;
  Ret {| gdtr_limit := gdtr_limit c; gdtr_base := gdtr_base c;
    sel_cs := sel_cs c; sel_ds := sel_ds c; sel_es := sel_es c; sel_ss := sel_ss c; sel_fs := sel_fs c; sel_gs := sel_gs c;
    tr := tr c; task := task c; cr0 := cr0 c; cr4 := cr4 c; msr := wrmsr MSR_KERNEL_GS l (msr c);
    cmem := store64 (cmem c) (l + 8) kernel_stack_top |}.

(** [set_kernel_stack] *)
Definition set_kernel_stack (rsp0 : Z) (c : cpu) : cpu :=
  let c := set_cmem c (store64 (cmem c) (t + 4) rsp0) in
  set_cmem c (store64 (cmem c) (l + 8) rsp0).
End Boot.

Definition CR4_PGE := Z.shiftl 1 7.
Definition CR4_FSGSBASE := Z.shiftl 1 16.
Definition CR4_SMEP := Z.shiftl 1 20.
Definition CR4_SMAP := Z.shiftl 1 21.
Definition CR0_WP := Z.shiftl 1 16.
Definition EFER_NXE := Z.shiftl 1 11.

(** The control registers and the model specific registers of this processor *)
Definition set_control (c : cpu) (r0 r4 : Z) (e : msrs) : cpu := {|
  gdtr_limit := gdtr_limit c; gdtr_base := gdtr_base c;
  sel_cs := sel_cs c; sel_ds := sel_ds c; sel_es := sel_es c; sel_ss := sel_ss c; sel_fs := sel_fs c; sel_gs := sel_gs c;
  tr := tr c; task := task c; cr0 := r0; cr4 := r4; msr := e; cmem := cmem c |}.
Definition read_cr0 (c : cpu) : Z := cr0 c.
Definition write_cr0 (v : Z) (c : cpu) : cpu := set_control c v (cr4 c) (msr c).
Definition read_cr4 (c : cpu) : Z := cr4 c.
Definition write_cr4 (v : Z) (c : cpu) : cpu := set_control c (cr0 c) v (msr c).
Definition set_msr (c : cpu) (e : msrs) : cpu := set_control c (cr0 c) (cr4 c) e.

(** The part of [init_bsp] that follows the tables: [cpuid] is the processor's
    answer to the instruction. *)
Definition cpu_features (cpuid : Z → Z → CpuidResult) (c : cpu) : cpu :=
  let cpuid7 := cpuid 7 0 in
  let has_fsgsbase := negb (Z.land (ebx cpuid7) (Z.shiftl 1 0) =? 0) in
  let has_smep := negb (Z.land (ebx cpuid7) (Z.shiftl 1 7) =? 0) in
  let has_smap := negb (Z.land (ebx cpuid7) (Z.shiftl 1 20) =? 0) in
  let has_nxe := negb (Z.land (edx (cpuid 0x80000001 0)) (Z.shiftl 1 20) =? 0) in
  let r4 := Z.lor (read_cr4 c) CR4_PGE in
  let r4 := if has_smep then Z.lor r4 CR4_SMEP else r4 in
  let r4 := if has_smap then Z.lor r4 CR4_SMAP else r4 in
  let r4 := if has_fsgsbase then Z.lor r4 CR4_FSGSBASE else r4 in
  let c := write_cr4 r4 c in
  let c := write_cr0 (Z.lor (read_cr0 c) CR0_WP) c in
  if has_nxe then set_msr c (wrmsr MSR_EFER (Z.lor (rdmsr MSR_EFER (msr c)) EFER_NXE) (msr c)) else c.

(** [init_syscall] on this processor *)
Definition cpu_init_syscall (entry : Z) (c : cpu) : cpu := set_msr c (SyscallEntry.init_syscall entry (msr c)).

(** The steps of [init_bsp] on these registers; the interrupt table, the
    interrupt controller and the timer, set up in between, leave them alone. *)
Definition init_bsp (g t l entry : Z) (cpuid : Z → Z → CpuidResult) (kernel_stack_top : Z) (c : cpu) : exec cpu :=
  c ← gdt_init_bsp g t l kernel_stack_top c;
  Ret (cpu_features cpuid (cpu_init_syscall entry c)).

(** ** Descriptors *)
Lemma TssDesc_eq b : is_u64 b →
  TssDesc_new b = (b / 2 ^ 24 mod 2 ^ 8 * 2 ^ 56 + (0x89 * 2 ^ 40 + (b mod 2 ^ 24 * 2 ^ 16 + 103)), b / 2 ^ 32).
Proof.
  intros []. unfold TssDesc_new, TSS_SIZE. change (Z.land (104 - 1) 0xFFFF) with 103.
  change (Z.land (Z.shiftr (104 - 1) 16) 0xF) with 0. rewrite Z.shiftl_0_l, Z.lor_0_r.
  change 0xFFFFFFFF with (2 ^ 32 - 1). change 0xFFFFFF with (2 ^ 24 - 1). change 0xFF with (2 ^ 8 - 1).
  rewrite !land_ones_mod, !Z.shiftr_div_pow2 by lia. rewrite (Z.mod_small (b / 2 ^ 32)) by dlia.
  rewrite (lor_shiftl_r (b mod 2 ^ 24) 16) by lia. rewrite (lor_shiftl_r 0x89 40) by dlia. rewrite lor_shiftl_r by dlia. done.
Qed.

(** The processor finds the segment that the descriptor was built for. *)
Lemma ltr_TssDesc m g b : is_u64 b → load64 m (g + 40) = (TssDesc_new b).1 → load64 m (g + 40 + 8) = (TssDesc_new b).2 →
  ltr m 55 g SEG_TSS = Ret (b, 103, store64 m (g + 40) (Z.lor (TssDesc_new b).1 (2 ^ 41))).
Proof.
  intros Hb Hl Hh. unfold ltr. change (SEG_TSS / 8 * 8) with 40. change (40 + 15 <=? 55) with true. cbv iota zeta.
  rewrite Hl, Hh, TssDesc_eq by done. cbn [fst snd]. destruct Hb as [Hb0 Hb1].
  set (low := b / 2 ^ 24 mod 2 ^ 8 * 2 ^ 56 + _).
  assert (E47 : low / 2 ^ 47 mod 2 = 1) by (unfold low; dlia).
  assert (E44 : low / 2 ^ 44 mod 2 = 0) by (unfold low; dlia).
  assert (E40 : low / 2 ^ 40 mod 16 = 9) by (unfold low; dlia).
  unfold d_present, d_segment. rewrite (Z.testbit_eqb low 47), (Z.testbit_eqb low 44), E47, E44, E40 by lia. cbn [Z.eqb Pos.eqb negb andb].
  assert (Eb : low / 2 ^ 16 mod 2 ^ 24 + 2 ^ 24 * (low / 2 ^ 56 mod 2 ^ 8) + 2 ^ 32 * (b / 2 ^ 32 mod 2 ^ 32) = b) by (unfold low; dlia).
  assert (El : low mod 2 ^ 16 + 2 ^ 16 * (low / 2 ^ 48 mod 2 ^ 4) = 103) by (unfold low; dlia).
  by rewrite Eb, El.
Qed.

(** ** Structures in memory *)
Lemma load_store_bytes (n : nat) (m : mem) a bs k : 0 ≤ k → k + n ≤ length bs →
  load_le n (store_bytes m a bs) (a + k) = load_le n (λ x, nth (Z.to_nat x) bs 0) k.
Proof.
  revert k. induction n as [|n IH]; intros k Hk Hl; cbn [load_le]; [done|].
  replace (a + k + 1) with (a + (k + 1)) by lia. rewrite IH by lia. unfold load8, store_bytes.
  rewrite (proj2 (Z.leb_le _ _)), (proj2 (Z.ltb_lt _ _)) by lia. cbn [andb]. by replace (a + k - a) with k by lia.
Qed.

Lemma load_store_bytes_other (n : nat) (m : mem) a bs b : b + n ≤ a ∨ a + length bs ≤ b →
  load_le n (store_bytes m a bs) b = load_le n m b.
Proof.
  intros H. apply load_le_ext. intros x Hx. unfold store_bytes.
  destruct (Z.leb_spec a x), (Z.ltb_spec x (a + length bs)); cbn [andb]; lia || done.
Qed.

(** The three structures do not overlap. *)
Record layout (g t l : Z) : Prop := {
  lay_t : 0 ≤ t ∧ t + 104 ≤ U64;
  lay_l : 0 ≤ l ∧ l + 24 ≤ U64;
  lay_gt : g + 56 ≤ t ∨ t + 104 ≤ g;
  lay_gl : g + 56 ≤ l ∨ l + 24 ≤ g;
  lay_tl : t + 104 ≤ l ∨ l + 24 ≤ t
}.

(** ** The state of a running processor

    Every selector in use names a descriptor of its kind and privilege; those of
    user mode can be loaded; the task register leads to the task segment; the
    stack for interrupts and the stack for system calls are the same. No
    interrupt stack is set up. *)
Record cpu_wf (g t l k : Z) (c : cpu) : Prop := {
  wf_gdtr : gdtr_limit c = 55 ∧ gdtr_base c = g;
  wf_sel : sel_cs c = SEG_KERNEL_CODE ∧ sel_ds c = SEG_KERNEL_DATA ∧ sel_es c = SEG_KERNEL_DATA ∧ sel_ss c = SEG_KERNEL_DATA ∧
    sel_fs c = 0 ∧ sel_gs c = 0;
  wf_kernel : usable (cmem c) 55 g SEG_KERNEL_CODE code_ok = true ∧ usable (cmem c) 55 g SEG_KERNEL_DATA stack_ok = true;
  wf_user : usable (cmem c) 55 g SEG_USER_CODE code_ok = true ∧ usable (cmem c) 55 g SEG_USER_DATA stack_ok = true;
  wf_task : tr c = SEG_TSS ∧ task c = (t, 103);
  wf_entry : entry_stack c = k;
  wf_gs : kernel_gs c = l ∧ load64 (cmem c) (l + 8) = k;
  wf_ist : ∀ i, 1 ≤ i ≤ 7 → interrupt_stack c i = 0
}.

Section Proofs.
Context (g t l : Z) (Hlay : layout g t l).

(** What the structures hold, whatever stack is named. *)
Record tables (m : mem) : Prop := {
  tb_gdt : ∀ i, 0 ≤ i < 5 → load64 m (g + i * 8) = load_le 8 (λ x, nth (Z.to_nat x) (gdt_bytes Gdt_new) 0) (i * 8);
  tb_ist : ∀ i, 1 ≤ i ≤ 7 → load64 m (t + 28 + 8 * i) = 0
}.

Lemma tables_statics m : tables (statics g t l m).
Proof.
  destruct Hlay as [_ Hgt Hgl Htl]. unfold statics. split.
  - intros i Hi. unfold load64. rewrite load_store_bytes_other by (change (length (replicate 24 0)) with 24%nat; lia).
    rewrite load_store_bytes_other by (change (length (tss_bytes Tss_new)) with 104%nat; lia).
    apply (load_store_bytes 8); [lia|]. change (length (gdt_bytes Gdt_new)) with 56%nat. lia.
  - intros i Hi. unfold load64. rewrite load_store_bytes_other by (change (length (replicate 24 0)) with 24%nat; lia).
    replace (t + 28 + 8 * i) with (t + (28 + 8 * i)) by lia.
    rewrite (load_store_bytes 8); [|lia|change (length (tss_bytes Tss_new)) with 104%nat; lia].
    assert (Hi' : i ∈ seqZ 1 7) by (apply elem_of_seqZ; lia). revert i Hi' Hi. apply (Forall_forall (λ i, 1 ≤ i ≤ 7 → _ = 0)).
    change (seqZ 1 7) with [1;2;3;4;5;6;7]. repeat constructor.
Qed.

(** Stores to the words that change later. *)
Lemma tables_store m a v : (a = t + 4 ∨ a = g + 40 ∨ a = g + 48 ∨ a = l + 8) → tables m → tables (store64 m a v).
Proof.
  intros Ha [Hg Hi]. destruct Hlay as [_ Hgt Hgl Htl].
  split; intros i Hr; (rewrite load_store64_other; [by auto|lia]).
Qed.

Lemma tables_usable m : tables m →
  usable m 55 g SEG_KERNEL_CODE code_ok = true ∧ usable m 55 g SEG_KERNEL_DATA stack_ok = true ∧
  usable m 55 g SEG_USER_CODE code_ok = true ∧ usable m 55 g SEG_USER_DATA stack_ok = true.
Proof.
  intros [Hg _]. unfold usable, descriptor.
  change (SEG_KERNEL_CODE / 8 * 8) with (1 * 8). change (SEG_KERNEL_DATA / 8 * 8) with (2 * 8).
  change (SEG_USER_CODE / 8 * 8) with (4 * 8). change (SEG_USER_DATA / 8 * 8) with (3 * 8).
  rewrite !Hg by lia. vm_compute. done.
Qed.

Lemma set_kernel_stack_wf c k k' : tables (cmem c) → is_u64 k' → cpu_wf g t l k c →
  tables (cmem (set_kernel_stack t l k' c)) ∧ cpu_wf g t l k' (set_kernel_stack t l k' c).
Proof.
  intros Ht Hk [W1 W2 W3 W4 W5 W6 W7 W8]. unfold set_kernel_stack. cbn [cmem set_cmem].
  assert (Ht' : tables (store64 (store64 (cmem c) (t + 4) k') (l + 8) k')) by (apply tables_store; [tauto|]; apply tables_store; [tauto|done]).
  split; [done|]. destruct (tables_usable _ Ht') as (? & ? & ? & ?). destruct Hlay as [_ _ _ _ Htl]. destruct W5 as [W5 W5'].
  split; cbn [gdtr_limit gdtr_base sel_cs sel_ds sel_es sel_ss sel_fs sel_gs tr task kernel_gs cmem set_cmem]; auto.
  - unfold entry_stack. cbn [task cmem set_cmem]. rewrite W5'. cbn [fst]. by rewrite load_store64_other, load_store64 by (done || lia).
  - split; [apply W7|]. by rewrite load_store64.
  - intros i Hi. unfold interrupt_stack. cbn [task cmem set_cmem]. rewrite W5'. cbn [fst]. by apply (tb_ist _ Ht').
Qed.

Lemma gdt_init_wf c k : tables (cmem c) → is_u64 k → ∃ c', gdt_init_bsp g t l k c = Ret c' ∧
  tables (cmem c') ∧ cpu_wf g t l k c' ∧ (∀ n, n ≠ MSR_KERNEL_GS → msr c' n = msr c n) ∧ cr0 c' = cr0 c ∧ cr4 c' = cr4 c.
Proof.
  intros Ht Hk. destruct (Hlay) as [[? ?] [? ?] Hgt Hgl Htl]. unfold gdt_init_bsp, CpuGdt_set_kernel_stack.
  destruct (TssDesc_new t) as [low high] eqn:Ed. set (m := store64 (store64 _ (g + 40) low) (g + 48) high).
  assert (Hm : tables m) by (repeat (apply tables_store; [tauto|]); done).
  assert (Hu : is_u64 t) by (unfold is_u64; lia). pose proof (TssDesc_eq t Hu) as Ee. rewrite Ed in Ee. injection Ee as El Eh.
  assert (Hlow : is_u64 low) by (unfold is_u64; dlia). assert (Hhigh : is_u64 high) by (unfold is_u64; dlia).
  destruct (tables_usable _ Hm) as (Uc & Ud & _ & _). unfold load_sel. change SEG_KERNEL_CODE with 8 in Uc. change (GDT_SIZE - 1) with 55.
  rewrite Uc, Ud. exec_simpl. rewrite (ltr_TssDesc m g t Hu).
  2: { rewrite Ed. unfold m. rewrite load_store64_other, load_store64 by (done || lia). done. }
  2: { rewrite Ed. unfold m. replace (g + 40 + 8) with (g + 48) by lia. by rewrite load_store64. }
  rewrite Ed. exec_simpl. set (m' := store64 _ (l + 8) k).
  assert (Hm' : tables m') by (apply tables_store; [tauto|]; apply tables_store; [tauto|]; done).
  destruct (tables_usable _ Hm') as (? & ? & ? & ?). eexists. split; [reflexivity|]. cbn [cmem msr cr0 cr4].
  split; [done|]. split; [|split; [intros n Hn; by apply wrmsr_ne|done]].
  split; cbn [gdtr_limit gdtr_base sel_cs sel_ds sel_es sel_ss sel_fs sel_gs tr task cmem]; auto.
  - by split_and!.
  - unfold entry_stack. cbn [task cmem fst]. unfold m', m. cbn [cmem]. rewrite !load_store64_other by lia. by apply load_store64.
  - split; [apply wrmsr_eq; unfold is_u64; lia|]. unfold m'. by apply load_store64.
  - intros i Hi. unfold interrupt_stack. cbn [task cmem fst]. by apply (tb_ist _ Hm').
Qed.
End Proofs.

(** The addresses of the structures *)
Definition in_statics (g t l x : Z) : Prop := g ≤ x < g + 56 ∨ t ≤ x < t + 104 ∨ l ≤ x < l + 24.

(** Nothing else is written. *)
Lemma gdt_init_frame g t l k c c' x : gdt_init_bsp g t l k c = Ret c' → ¬ in_statics g t l x → cmem c' x = cmem c x.
Proof.
  unfold in_statics, gdt_init_bsp, CpuGdt_set_kernel_stack, load_sel, ltr. destruct (TssDesc_new t) as [low high]. change (SEG_TSS / 8 * 8) with 40.
  intros E Hx. destruct (usable _ _ _ 8 _); [|done]. exec_simpl. destruct (usable _ _ _ SEG_KERNEL_DATA _); [|done]. exec_simpl.
  destruct (_ <=? _); [|done]. destruct (_ && _); [|done]. exec_simpl. injection E as <-. cbn [cmem]. by rewrite !store64_other by lia.
Qed.

(** A well-formed processor stays so while the structures keep their contents. *)
Lemma cpu_wf_mem g t l k c m : cpu_wf g t l k c → (∀ x, in_statics g t l x → m x = cmem c x) → cpu_wf g t l k (set_cmem c m).
Proof.
  intros [W1 W2 W3 W4 [W5 W5'] W6 [W7 W7'] W8] Hm. unfold in_statics in Hm.
  assert (Hu : ∀ sel ok, 0 ≤ sel → usable m 55 g sel ok = usable (cmem c) 55 g sel ok).
  { intros sel ok Hs. unfold usable, descriptor. destruct (Z.leb_spec (sel / 8 * 8 + 7) 55); [|done].
    rewrite (load64_ext (cmem c) m); [done|]. intros x Hx. apply Hm. left. pose proof (Z.div_pos sel 8). lia. }
  assert (Ht : ∀ i, 0 ≤ i ≤ 96 → load64 m (t + i) = load64 (cmem c) (t + i)).
  { intros i Hi. apply load64_ext. intros x Hx. apply Hm. right; left. lia. }
  split; cbn [gdtr_limit gdtr_base sel_cs sel_ds sel_es sel_ss sel_fs sel_gs tr task cmem set_cmem]; auto.
  - by rewrite !Hu.
  - by rewrite !Hu.
  - revert W6. unfold entry_stack. cbn [task cmem set_cmem]. rewrite W5'. cbn [fst]. by rewrite Ht by lia.
  - split; [done|]. rewrite <- W7'. apply load64_ext. intros x Hx. apply Hm. right; right. lia.
  - intros i Hi. specialize (W8 i Hi). revert W8. unfold interrupt_stack. cbn [task cmem set_cmem]. rewrite W5'. cbn [fst].
    rewrite <- !Z.add_assoc, Ht by lia. done.
Qed.

(** ** The features *)
Lemma lor_bit (p : bool) x k i : 0 ≤ k → 0 ≤ i →
  Z.testbit (if p then Z.lor x (Z.shiftl 1 k) else x) i = Z.testbit x i || p && (i =? k).
Proof.
  intros Hk Hi. destruct p; cbn [andb]; [|by rewrite orb_false_r]. rewrite Z.lor_spec, Z.shiftl_1_l, Z.pow2_bits_eqb by lia.
  by rewrite (Z.eqb_sym k i).
Qed.

(** Write protection is on; global pages are on; each protection of the
    processor is on if it has it; every other bit is as it was. *)
Lemma cpu_features_spec cpuid c i : 0 ≤ i → is_u64 (msr c MSR_EFER) → let c' := cpu_features cpuid c in
  Z.testbit (cr0 c') i = Z.testbit (cr0 c) i || (i =? 16) ∧
  Z.testbit (cr4 c') i = Z.testbit (cr4 c) i || (i =? 7) || Z.testbit (ebx (cpuid 7 0)) 7 && (i =? 20) ||
    Z.testbit (ebx (cpuid 7 0)) 20 && (i =? 21) || Z.testbit (ebx (cpuid 7 0)) 0 && (i =? 16) ∧
  Z.testbit (msr c' MSR_EFER) i = Z.testbit (msr c MSR_EFER) i || Z.testbit (edx (cpuid 0x80000001 0)) 20 && (i =? 11).
Proof.
  intros Hi He c'. unfold c', cpu_features. cbv zeta.
  rewrite <- (land_bit (ebx (cpuid 7 0)) 7), <- (land_bit (ebx (cpuid 7 0)) 20), <- (land_bit (ebx (cpuid 7 0)) 0),
    <- (land_bit (edx (cpuid 0x80000001 0)) 20) by lia. unfold CR0_WP, CR4_PGE, CR4_SMEP, CR4_SMAP, CR4_FSGSBASE, EFER_NXE.
  generalize (negb (Z.land (edx (cpuid 0x80000001 0)) (Z.shiftl 1 20) =? 0)). intros nxe.
  assert (E0 : ∀ c2 e, cr0 (if nxe then set_msr c2 e else c2) = cr0 c2) by (by destruct nxe).
  assert (E4 : ∀ c2 e, cr4 (if nxe then set_msr c2 e else c2) = cr4 c2) by (by destruct nxe).
  rewrite E0, E4. split_and!.
  - cbn [write_cr0 set_control cr0 read_cr0 write_cr4]. by rewrite (lor_bit true) by lia.
  - cbn [write_cr0 write_cr4 set_control cr4 read_cr4]. rewrite lor_bit, lor_bit, lor_bit, (lor_bit true) by lia. done.
  - destruct nxe; cbn [andb]; [|by rewrite orb_false_r]. cbn [set_msr write_cr0 write_cr4 set_control msr].
    rewrite rdmsr_eq, wrmsr_eq, (lor_bit true) by (try apply lor_u64; done). done.
Qed.

(** Only the control registers change. *)
Lemma cpu_features_control cpuid c : ∃ r0 r4 e, cpu_features cpuid c = set_control c r0 r4 e ∧ ∀ n, n ≠ MSR_EFER → e n = msr c n.
Proof.
  unfold cpu_features. cbv zeta. destruct (negb (Z.land (edx (cpuid 0x80000001 0)) (Z.shiftl 1 20) =? 0)).
  - eexists _, _, _. split; [reflexivity|]. intros n Hn. by apply wrmsr_ne.
  - by eexists _, _, _.
Qed.

Lemma set_control_wf g t l k c r0 r4 e : e MSR_KERNEL_GS = msr c MSR_KERNEL_GS → cpu_wf g t l k c → cpu_wf g t l k (set_control c r0 r4 e).
Proof. intros He [W1 W2 W3 W4 W5 W6 [W7 W7'] W8]. split; try done. split; [|done]. unfold kernel_gs. cbn. by rewrite He. Qed.

(** The registers of [init_syscall] *)
Lemma init_syscall_msrs entry r : is_u64 entry → is_u64 (r MSR_EFER) →
  let r' := SyscallEntry.init_syscall entry r in
  r' MSR_EFER = Z.lor (r MSR_EFER) (Z.shiftl 1 0) ∧ r' MSR_LSTAR = entry ∧ r' MSR_KERNEL_GS = r MSR_KERNEL_GS.
Proof.
  intros He Hr r'. unfold r', SyscallEntry.init_syscall. split_and!.
  - rewrite !(wrmsr_ne _ MSR_EFER), wrmsr_eq, rdmsr_eq by (rewrite ?rdmsr_eq by done; try apply lor_u64; done). done.
  - by rewrite wrmsr_ne, wrmsr_eq.
  - by rewrite !wrmsr_ne.
Qed.

Lemma init_bsp_spec g t l entry cpuid c m k : layout g t l → cmem c = statics g t l m → is_u64 k → is_u64 entry → is_u64 (msr c MSR_EFER) →
  ∃ c', init_bsp g t l entry cpuid k c = Ret c' ∧ tables g t (cmem c') ∧ cpu_wf g t l k c' ∧
    (∀ i, 0 ≤ i →
      Z.testbit (cr0 c') i = Z.testbit (cr0 c) i || (i =? 16) ∧
      Z.testbit (cr4 c') i = Z.testbit (cr4 c) i || (i =? 7) || Z.testbit (ebx (cpuid 7 0)) 7 && (i =? 20) ||
        Z.testbit (ebx (cpuid 7 0)) 20 && (i =? 21) || Z.testbit (ebx (cpuid 7 0)) 0 && (i =? 16) ∧
      Z.testbit (msr c' MSR_EFER) i = Z.testbit (msr c MSR_EFER) i || (i =? 0) || Z.testbit (edx (cpuid 0x80000001 0)) 20 && (i =? 11)) ∧
    msr c' MSR_LSTAR = entry.
Proof.
  intros Hlay Hc Hk Hen He. unfold init_bsp. assert (Ht : tables g t (cmem c)) by (rewrite Hc; by apply tables_statics).
  destruct (gdt_init_wf g t l Hlay c k Ht Hk) as (c1 & E1 & Ht1 & Hw1 & Em & E0 & E4). rewrite E1. exec_simpl.
  destruct (init_syscall_msrs entry (msr c1)) as (M1 & M2 & M3); [done|by rewrite Em|].
  set (c2 := cpu_init_syscall entry c1). exists (cpu_features cpuid c2). split; [done|].
  destruct (cpu_features_control cpuid c2) as (r0 & r4 & e & Ef & Hn).
  assert (He2 : is_u64 (msr c2 MSR_EFER)). { change (msr c2) with (SyscallEntry.init_syscall entry (msr c1)). rewrite M1, Em by done. apply lor_u64; [done|]. unfold is_u64. by split. }
  split_and!.
  - rewrite Ef. done.
  - rewrite Ef. apply set_control_wf; [by rewrite Hn|]. by apply set_control_wf.
  - intros i Hi. destruct (cpu_features_spec cpuid c2 i Hi He2) as (F0 & F4 & Fe). cbv zeta in *. rewrite F0, F4, Fe.
    unfold c2. cbn [cr0 cr4 msr cpu_init_syscall set_msr set_control]. rewrite E0, E4, M1, Em by done. split_and!; [done..|].
    f_equal. by rewrite (lor_bit true) by lia.
  - rewrite Ef. cbn [set_control msr]. by rewrite Hn.
Qed.

(** C29: on the tables as the image has them, [init_bsp] raises no fault and
    leaves a well-formed processor, and every later [set_kernel_stack] keeps it
    so: each selector in use names a descriptor of its kind and level, those of
    user mode can be loaded with their level, the task register leads to the
    task segment, and the stack that an interrupt from user mode takes is the
    one that a system call takes, the last one set. The double-fault gate names
    interrupt stack 1, which is null. Write protection and global pages are on;
    execution and access prevention, FSGSBASE and no-execute are on exactly when
    the processor reports them, and a system call enters at [syscall_entry]. *)
Theorem cpu_init_correct g t l entry cpuid c m k ks : layout g t l → cmem c = statics g t l m → is_u64 k → Forall is_u64 ks →
  is_u64 entry → is_u64 (msr c MSR_EFER) →
  ∃ c', init_bsp g t l entry cpuid k c = Ret c' ∧
    cpu_wf g t l (default k (last ks)) (foldl (λ c k, set_kernel_stack t l k c) c' ks) ∧
    (∀ i, 0 ≤ i →
      Z.testbit (cr0 c') i = Z.testbit (cr0 c) i || (i =? 16) ∧
      Z.testbit (cr4 c') i = Z.testbit (cr4 c) i || (i =? 7) || Z.testbit (ebx (cpuid 7 0)) 7 && (i =? 20) ||
        Z.testbit (ebx (cpuid 7 0)) 20 && (i =? 21) || Z.testbit (ebx (cpuid 7 0)) 0 && (i =? 16) ∧
      Z.testbit (msr c' MSR_EFER) i = Z.testbit (msr c MSR_EFER) i || (i =? 0) || Z.testbit (edx (cpuid 0x80000001 0)) 20 && (i =? 11)) ∧
    msr c' MSR_LSTAR = entry.
Proof.
  intros Hlay Hc Hk Hks Hen He. destruct (init_bsp_spec g t l entry cpuid c m k Hlay Hc Hk Hen He) as (c' & E & Ht & Hw & Hf & Hl).
  exists c'. split; [done|]. split; [|done]. clear -Hlay Hks Ht Hw. revert k c' Ht Hw. induction Hks as [|k' ks Hk' _ IH]; intros k c Ht Hw; [done|].
  cbn [foldl]. replace (default k (last (k' :: ks))) with (default k' (last ks)) by (rewrite last_cons; by destruct (last ks)).
  destruct (set_kernel_stack_wf g t l Hlay c k k' Ht Hk' Hw). by apply IH.
Qed.

Definition demo_cpu : cpu := {|
  gdtr_limit := 0; gdtr_base := 0; sel_cs := 0x28; sel_ds := 0x30; sel_es := 0x30; sel_ss := 0x30; sel_fs := 0x30; sel_gs := 0x30;
  tr := 0; task := (0, 0); cr0 := 0x80000011; cr4 := 0x20;
  msr := λ n, if n =? MSR_EFER then 0x500 else 0; cmem := statics 0x1000 0x2000 0x3000 (λ _, 0) |}.
Definition demo_cpuid (leaf _ : Z) : CpuidResult :=
  if leaf =? 7 then {| eax := 0; ebx := Z.shiftl 1 7; ecx := 0; edx := 0 |} else {| eax := 0; ebx := 0; ecx := 0; edx := Z.shiftl 1 20 |}.

(** A processor with SMEP and no-execute, started on one stack and then given
    another. *)
Lemma cpu_init_correct_witness : ∃ c',
  init_bsp 0x1000 0x2000 0x3000 0x4000 demo_cpuid 0x9000 demo_cpu = Ret c' ∧
  cpu_wf 0x1000 0x2000 0x3000 0xA000 (set_kernel_stack 0x2000 0x3000 0xA000 c') ∧ Z.testbit (cr4 c') 20 = true.
Proof.
  destruct (cpu_init_correct 0x1000 0x2000 0x3000 0x4000 demo_cpuid demo_cpu (λ _, 0) 0x9000 [0xA000]) as (c' & E & Hw & Hf).
  - split; lia.
  - reflexivity.
  - unfold is_u64. lia.
  - repeat constructor; lia.
  - unfold is_u64. lia.
  - unfold is_u64. cbn. lia.
  - exists c'. split; [exact E|]. split; [exact Hw|]. destruct Hf as [Hf _]. destruct (Hf 20) as (_ & -> & _); [lia|reflexivity].
Defined.

(** What the entry of a system call relies on. *)
Lemma cpu_wf_local g t l k c m : cpu_wf g t l k c → kernel_gs_base m = kernel_gs c → mmem m = cmem c →
  k mod 16 = 0 → 256 ≤ k < U64 → l + 24 ≤ k - 256 ∨ k ≤ l → cpu_local m l k.
Proof. intros W Hg Hm. split; [by rewrite Hg; apply W|by rewrite Hm; apply W|done..]. Qed.
