(* ===== verification/Switch.v ===== *)
(** The assembly that moves the processor from one process to another:
    [context_switch], [jump_to_context] and [iretq_trampoline] of
    [src/src/proc.rs], [fork_child_return] of [src/src/proc/fork.rs] and
    [jump_to_user] of [src/src/proc/exec.rs], run on the machine of Asm.v.

    A switch is one step here: no interrupt is taken inside it. *)
From S2P Require Import Prelude Machine Pmm Vmm Vma UserMem Effects Elf UserStack Proc Fork Exec Asm SyscallEntry.

(** ** The programs *)
(** [label_1] is the address of the label [1:] of [context_switch]. *)
Definition context_switch_asm (label_1 : Z) : list instr :=
  [Store RBX RDI 40; Store RBP RDI 32; Store R12 RDI 24; Store R13 RDI 16; Store R14 RDI 8; Store R15 RDI 0;
   Store RSP RDI 48; Lea label_1 RAX; Store RAX RDI 56; Pushfq; Pop RAX; Store RAX RDI 64;
   Load RSI 0 R15; Load RSI 8 R14; Load RSI 16 R13; Load RSI 24 R12; Load RSI 32 RBP; Load RSI 40 RBX;
   Load RSI 48 RSP; Load RSI 64 RAX; OrImm 0x200 RAX; Push RAX; Popfq; JmpMem RSI 56].

(** The code at the label [1:] *)
Definition context_switch_1_asm : list instr := [Ret_].

Definition jump_to_context_asm : list instr :=
  [Load RDI 0 R15; Load RDI 8 R14; Load RDI 16 R13; Load RDI 24 R12; Load RDI 32 RBP; Load RDI 40 RBX;
   Load RDI 48 RSP; Load RDI 64 RAX; OrImm 0x200 RAX; Push RAX; Popfq; JmpMem RDI 56].

Definition iretq_trampoline_asm : list instr := [Iretq].

Definition fork_child_return_asm : list instr :=
  [Xor RAX RAX] ++ (Pop <$> [R15; R14; R13; R12; RBP; RBX; RCX; R11]) ++ [MovFromGs 16 RSP; Cli; Swapgs; Sysretq].

Definition jump_to_user_asm : list instr :=
  [Push RCX; Push RSI; Pushfq; Pop RAX; OrImm 0x200 RAX; AndImm (u64_not 0x3000) RAX; Push RAX; Push RDX; Push RDI] ++
  ((λ r, Xor r r) <$> [RAX; RBX; RCX; RDX; RSI; RDI; RBP; R8; R9; R10; R11; R12; R13; R14; R15]) ++ [Iretq].

(** Membership in a list written out. *)
Ltac in_list := repeat first [apply list_elem_of_here|apply list_elem_of_further].

Implicit Types (m : machine) (c : CpuContext) (f : mem) (p : Z).

(** ** A [CpuContext] in memory *)
Definition load_ctx f p : CpuContext := {|
  r15 := load64 f p; r14 := load64 f (p + 8); r13 := load64 f (p + 16); r12 := load64 f (p + 24);
  rbp := load64 f (p + 32); rbx := load64 f (p + 40); rsp := load64 f (p + 48); Proc.rip := load64 f (p + 56);
  Proc.rflags := load64 f (p + 64); Proc.cs := load64 f (p + 72); Proc.ss := load64 f (p + 80) |}.
Definition CTX_SIZE : Z := 88.

(** The registers that a switch touches. *)
Definition cpu_of m : cpu := {|
  c_r15 := regs m R15; c_r14 := regs m R14; c_r13 := regs m R13; c_r12 := regs m R12; c_rbp := regs m RBP;
  c_rbx := regs m RBX; c_rsp := regs m RSP; c_rip := rip m; c_rflags := rflags m |}.

Lemma load_ctx_ext f f' p : (∀ x, p ≤ x < p + CTX_SIZE → f' x = f x) → load_ctx f' p = load_ctx f p.
Proof.
  intros H. unfold load_ctx, CTX_SIZE in *. f_equal; apply load64_ext; intros x Hx; apply H; lia.
Qed.

Lemma load_ctx_other f p a v : a + 8 ≤ p ∨ p + CTX_SIZE ≤ a → load_ctx (store64 f a v) p = load_ctx f p.
Proof. intros Ha. apply load_ctx_ext. intros x Hx. apply store64_other. lia. Qed.

(** ** The two halves of a switch

    [restore b] loads the context that [b] points at, and jumps. *)
Definition ctx_regs : list (Z * reg) := [(0, R15); (8, R14); (16, R13); (24, R12); (32, RBP); (40, RBX); (48, RSP); (64, RAX)].
Definition restore (b : reg) : list instr :=
  ((λ x, Load b x.1 x.2) <$> ctx_regs) ++ [OrImm 0x200 RAX; Push RAX; Popfq; JmpMem b 56].
Definition saved_regs : list (reg * Z) := [(RBX, 40); (RBP, 32); (R12, 24); (R13, 16); (R14, 8); (R15, 0); (RSP, 48)].
Definition save (label_1 : Z) : list instr :=
  ((λ x, Store x.1 RDI x.2) <$> saved_regs) ++ [Lea label_1 RAX; Store RAX RDI 56; Pushfq; Pop RAX; Store RAX RDI 64].

Lemma context_switch_halves label_1 : context_switch_asm label_1 = save label_1 ++ restore RSI.
Proof. reflexivity. Qed.
Lemma jump_to_context_restore : jump_to_context_asm = restore RDI.
Proof. reflexivity. Qed.

(** What a switch leaves alone. *)
Record same_rest m m' : Prop := {
  sr_regs : ∀ r, r ∈ [RCX; RDX; RSI; RDI; R8; R9; R10; R11] → regs m' r = regs m r;
  sr_segments : (cs m', ss m', gs_base m', kernel_gs_base m', star m') = (cs m, ss m, gs_base m, kernel_gs_base m, star m)
}.
Lemma same_rest_trans m1 m2 m3 : same_rest m1 m2 → same_rest m2 m3 → same_rest m1 m3.
Proof. intros [R1 S1] [R2 S2]. split; [|congruence]. intros r Hr. by rewrite R2, R1. Qed.

Definition flags_on (v : Z) : Z := Z.lor v 0x200.
Lemma flags_on_u64 v : is_u64 v → is_u64 (flags_on v).
Proof. intros Hv. unfold flags_on. apply lor_u64; [done|unfold is_u64; lia]. Qed.

Lemma wrap_small v : is_u64 v → u64_wrap v = v.
Proof. intros Hv. unfold u64_wrap. apply Z.mod_small, Hv. Qed.

(** The end of [restore]: the flags go through the stack. *)
Lemma popfq_jump callee b m : b = RSI ∨ b = RDI → is_u64 (regs m RAX) → 8 ≤ regs m RSP < U64 →
  regs m RSP ≤ regs m b + 56 ∨ regs m b + 64 ≤ regs m RSP - 8 →
  let m' := run callee [OrImm 0x200 RAX; Push RAX; Popfq; JmpMem b 56] m in
  (∀ r, r ≠ RAX → regs m' r = regs m r) ∧ regs m' RAX = flags_on (regs m RAX) ∧
  mmem m' = store64 (mmem m) (regs m RSP - 8) (flags_on (regs m RAX)) ∧
  rflags m' = flags_on (regs m RAX) ∧ rip m' = load64 (mmem m) (regs m b + 56) ∧
  (cs m', ss m', gs_base m', kernel_gs_base m', star m') = (cs m, ss m, gs_base m, kernel_gs_base m, star m).
Proof.
  intros Hb Hax Hsp Hd m'. pose proof (flags_on_u64 _ Hax) as Hf.
  assert (W : u64_wrap (regs m RSP - 8) = regs m RSP - 8) by (apply wrap_small; unfold is_u64; lia).
  set (m1 := push (set_reg m RAX (flags_on (regs m RAX))) (flags_on (regs m RAX))).
  assert (E1 : regs m1 RSP = regs m RSP - 8). { unfold m1, push. asm_simpl. done. }
  assert (M1 : mmem m1 = store64 (mmem m) (regs m RSP - 8) (flags_on (regs m RAX))).
  { unfold m1, push. asm_simpl. by rewrite W. }
  assert (R1 : ∀ r, r ≠ RAX → r ≠ RSP → regs m1 r = regs m r).
  { intros r ? ?. unfold m1, push. by rewrite regs_set_mem, !regs_set_ne. }
  set (m2 := set_rflags (set_reg m1 RSP (u64_wrap (regs m1 RSP + 8))) (load64 (mmem m1) (regs m1 RSP))).
  assert (Em : m' = set_rip m2 (load64 (mmem m2) (regs m2 b + 56))).
  { unfold m'. cbn [run foldl exec_instr pop]. unfold m2, m1. by rewrite regs_set_eq. }
  assert (R2 : ∀ r, r ≠ RAX → regs m2 r = regs m r).
  { intros r Hr. unfold m2. asm_simpl. destruct (decide (r = RSP)) as [-> | Hne].
    - rewrite regs_set_eq, E1, Z.sub_add. apply wrap_small. unfold is_u64. lia.
    - rewrite regs_set_ne by done. by apply R1. }
  rewrite Em. split_and!.
  - exact R2.
  - unfold set_rip, m2, m1, push. cbn [regs]. asm_simpl. done.
  - exact M1.
  - change (load64 (mmem m1) (regs m1 RSP) = flags_on (regs m RAX)). by rewrite E1, M1, load_store64.
  - change (load64 (mmem m1) (regs m2 b + 56) = load64 (mmem m) (regs m b + 56)).
    rewrite R2 by (by destruct Hb as [-> | ->]). rewrite M1. apply load_store64_other. lia.
  - done.
Qed.

Lemma restore_spec callee b m : b = RSI ∨ b = RDI →
  let c := load_ctx (mmem m) (regs m b) in let m' := run callee (restore b) m in
  8 ≤ rsp c → rsp c ≤ regs m b + 56 ∨ regs m b + 64 ≤ rsp c - 8 →
  cpu_of m' = jump_to_context c ∧ mmem m' = store64 (mmem m) (rsp c - 8) (flags_on (Proc.rflags c)) ∧
  same_rest m m' ∧ is_u64 (regs m' RAX).
Proof.
  intros Hb c m' H8 Hd. unfold m', restore. rewrite run_app. clear m'.
  assert (Hbn : b ∉ ctx_regs.*2) by (destruct Hb as [-> | ->]; apply (bool_decide_unpack _); by vm_compute).
  assert (Hnd : NoDup ctx_regs.*2) by (apply (bool_decide_unpack _); by vm_compute).
  destruct (run_loads callee b ctx_regs Hbn Hnd m) as [I O M [_ Ccs _ Css Cgs Ckgs Cst]].
  set (m1 := run callee (_ <$> ctx_regs) m) in *. clearbody m1.
  assert (Hb0 : regs m1 b = regs m b) by by apply O.
  assert (Hl : ∀ off r, (off, r) ∈ ctx_regs → regs m1 r = load64 (mmem m) (regs m b + off)) by exact I.
  pose proof (Hl 0 R15 ltac:(in_list)) as E15. rewrite Z.add_0_r in E15.
  pose proof (Hl 8 R14 ltac:(in_list)) as E14. pose proof (Hl 16 R13 ltac:(in_list)) as E13. pose proof (Hl 24 R12 ltac:(in_list)) as E12.
  pose proof (Hl 32 RBP ltac:(in_list)) as Ebp. pose proof (Hl 40 RBX ltac:(in_list)) as Ebx.
  assert (Hsp : regs m1 RSP = rsp c) by (apply Hl; in_list). assert (Hax : regs m1 RAX = Proc.rflags c) by (apply Hl; in_list).
  assert (Hs : is_u64 (rsp c)) by apply load64_bound.
  destruct (popfq_jump callee b m1) as (R & Ea & Em & Ef & Ei & Es); [done|rewrite Hax; apply load64_bound|rewrite Hsp; unfold is_u64 in Hs; lia|by rewrite Hsp, Hb0|].
  set (m2 := run callee _ m1) in *. clearbody m2. rewrite Hsp, Hax, M in Em. rewrite Hax in Ef. rewrite Hb0, M in Ei.
  split_and!; [|done| |rewrite Ea, Hax; apply flags_on_u64, load64_bound].
  - unfold cpu_of, jump_to_context. rewrite Ef, Ei, !R by done. rewrite Hsp, E15, E14, E13, E12, Ebp, Ebx. reflexivity.
  - split; [|congruence]. intros r Hr. assert (Hr' : r ∉ ctx_regs.*2 ∧ r ≠ RAX).
    { revert r Hr. apply Forall_forall. repeat constructor; first [done|apply (bool_decide_unpack _); by vm_compute]. }
    rewrite R by apply Hr'. apply O, Hr'.
Qed.

(** The end of [save]: the resume address and the flags. *)
Lemma save_tail callee label_1 m : let oc := regs m RDI in is_u64 (rflags m) → 8 ≤ regs m RSP < U64 →
  let m' := run callee [Lea label_1 RAX; Store RAX RDI 56; Pushfq; Pop RAX; Store RAX RDI 64] m in
  (∀ r, r ≠ RAX → regs m' r = regs m r) ∧ same_control m m' ∧
  mmem m' = store64 (store64 (store64 (mmem m) (oc + 56) label_1) (regs m RSP - 8) (rflags m)) (oc + 64) (rflags m).
Proof.
  intros oc Hf Hsp m'. assert (W : u64_wrap (regs m RSP - 8) = regs m RSP - 8) by (apply wrap_small; unfold is_u64; lia).
  set (m1 := set_mem (set_reg m RAX label_1) (store64 (mmem m) (oc + 56) label_1)).
  assert (E1 : run callee [Lea label_1 RAX; Store RAX RDI 56] m = m1).
  { cbn [run foldl exec_instr]. unfold m1. by rewrite mmem_set_reg, regs_set_eq, regs_set_ne. }
  set (m2 := push m1 (rflags m)).
  assert (Msp : regs m2 RSP = regs m RSP - 8) by (unfold m2, push, m1; asm_simpl; done).
  assert (Mm : mmem m2 = store64 (store64 (mmem m) (oc + 56) label_1) (regs m RSP - 8) (rflags m)).
  { unfold m2, push, m1. asm_simpl. by rewrite W. }
  set (m3 := set_reg (set_reg m2 RSP (u64_wrap (regs m2 RSP + 8))) RAX (load64 (mmem m2) (regs m2 RSP))).
  assert (Eax : regs m3 RAX = rflags m). { unfold m3. rewrite regs_set_eq, Msp, Mm. by apply load_store64. }
  assert (Em : m' = set_mem m3 (store64 (mmem m3) (regs m3 RDI + 64) (regs m3 RAX))).
  { unfold m'. change [Lea label_1 RAX; Store RAX RDI 56; Pushfq; Pop RAX; Store RAX RDI 64] with
      ([Lea label_1 RAX; Store RAX RDI 56] ++ [Pushfq; Pop RAX; Store RAX RDI 64]). rewrite run_app, E1. reflexivity. }
  assert (R : ∀ r, r ≠ RAX → regs m3 r = regs m r).
  { intros r Hr. unfold m3. rewrite regs_set_ne by done. destruct (decide (r = RSP)) as [-> | Hne].
    - rewrite regs_set_eq, Msp, Z.sub_add. apply wrap_small. unfold is_u64. lia.
    - rewrite regs_set_ne by done. unfold m2, push, m1. by rewrite regs_set_mem, regs_set_ne, regs_set_mem, regs_set_ne. }
  rewrite Em. split_and!; [exact R|done|]. rewrite mmem_set_mem, Eax, R by done. by rewrite <- Mm.
Qed.

Lemma saved_regs_apart : ForallOrdPairs apart8 saved_regs.
Proof.
  unfold saved_regs. repeat (apply FOP_cons; [rewrite ?Forall_cons, Forall_nil; unfold apart8; cbn; lia|]). apply FOP_nil.
Qed.

Lemma saved_regs_offset r off : (r, off) ∈ saved_regs → 0 ≤ off ≤ 48.
Proof.
  intros H. assert (F : Forall (λ x, 0 ≤ x.2 ≤ 48) saved_regs) by (repeat constructor; cbn; lia).
  rewrite Forall_forall in F. exact (F _ H).
Qed.

Lemma save_spec callee label_1 m : let oc := regs m RDI in let m' := run callee (save label_1) m in
  (∀ r, is_u64 (regs m r)) → is_u64 (rflags m) → is_u64 label_1 → 8 ≤ regs m RSP →
  regs m RSP ≤ oc ∨ oc + CTX_SIZE ≤ regs m RSP - 8 →
  load_ctx (mmem m') oc = save_context label_1 (cpu_of m) (load_ctx (mmem m) oc) ∧
  (∀ x, x < oc ∨ oc + CTX_SIZE ≤ x → x < regs m RSP - 8 ∨ regs m RSP ≤ x → mmem m' x = mmem m x) ∧
  (∀ r, r ≠ RAX → regs m' r = regs m r) ∧ same_control m m'.
Proof.
  intros oc m' Hu Hf Hl H8 Hd. unfold m', save. rewrite run_app. clear m'. unfold CTX_SIZE in *.
  destruct (run_stores callee RDI saved_regs saved_regs_apart m) as [R1 W1 O1 C1].
  set (m1 := run callee (_ <$> saved_regs) m) in *. clearbody m1. pose proof (Hu RSP) as Hs. unfold is_u64 in Hs.
  pose proof (sc_rflags _ _ C1) as Hfl.
  destruct (save_tail callee label_1 m1) as (R2 & C2 & M2); [by rewrite Hfl|rewrite R1; lia|].
  set (m2 := run callee _ m1) in *. clearbody m2. rewrite R1, Hfl in *. fold oc in M2, W1, O1. split_and!.
  - unfold load_ctx, save_context, cpu_of. cbn [c_r15 c_r14 c_r13 c_r12 c_rbp c_rbx c_rsp c_rflags Proc.cs Proc.ss].
    assert (Hw : ∀ r off, (r, off) ∈ saved_regs → load64 (mmem m2) (oc + off) = regs m r).
    { intros r off Hin. rewrite <- (W1 r off Hin (Hu r)), M2. pose proof (saved_regs_offset _ _ Hin).
      rewrite !load_store64_other by lia. done. }
    pose proof (Hw R15 0 ltac:(in_list)) as E15. rewrite Z.add_0_r in E15.
    rewrite E15, (Hw R14 8), (Hw R13 16), (Hw R12 24), (Hw RBP 32), (Hw RBX 40), (Hw RSP 48) by in_list.
    rewrite M2, load_store64 by done. rewrite !(load_store64_other _ (oc + 64)) by lia.
    rewrite !(load_store64_other _ (regs m RSP - 8)) by lia. rewrite load_store64 by done.
    rewrite !(load_store64_other _ (oc + 56)) by lia.
    f_equal; apply load64_ext; intros x Hx; apply O1; intros r off Hin%saved_regs_offset; lia.
  - intros x Hx1 Hx2. rewrite M2, !store64_other by lia. apply O1. intros r off Hin%saved_regs_offset. lia.
  - intros r Hr. by rewrite R2.
  - by eapply same_control_trans.
Qed.

(** ** The whole switch *)
Definition slot_apart (sp p : Z) : Prop := sp ≤ p ∨ p + CTX_SIZE ≤ sp - 8.

Lemma context_switch_spec callee label_1 m : let oc := regs m RDI in let nc := regs m RSI in
  let new := load_ctx (mmem m) nc in let m' := run callee (context_switch_asm label_1) m in
  (∀ r, is_u64 (regs m r)) → is_u64 (rflags m) → is_u64 label_1 → 8 ≤ regs m RSP → 8 ≤ rsp new →
  oc + CTX_SIZE ≤ nc ∨ nc + CTX_SIZE ≤ oc →
  slot_apart (regs m RSP) oc → slot_apart (regs m RSP) nc → slot_apart (rsp new) oc → slot_apart (rsp new) nc →
  (cpu_of m', load_ctx (mmem m') oc) = context_switch label_1 (cpu_of m) (load_ctx (mmem m) oc) new ∧
  (∀ x, x < oc ∨ oc + CTX_SIZE ≤ x → x < regs m RSP - 8 ∨ regs m RSP ≤ x → x < rsp new - 8 ∨ rsp new ≤ x → mmem m' x = mmem m x) ∧
  same_rest m m' ∧ is_u64 (regs m' RAX).
Proof.
  intros oc nc new m' Hu Hf Hl H8 H8n Hon So Sn So' Sn'. unfold m'. rewrite context_switch_halves, run_app. clear m'.
  unfold slot_apart, CTX_SIZE in *.
  destruct (save_spec callee label_1 m Hu Hf Hl H8) as (E1 & O1 & R1 & C1); [unfold CTX_SIZE; lia|].
  set (m1 := run callee (save label_1) m) in *. clearbody m1. fold oc in E1, O1. unfold CTX_SIZE in *.
  assert (En : load_ctx (mmem m1) (regs m1 RSI) = new).
  { rewrite R1 by done. apply load_ctx_ext. unfold CTX_SIZE. intros x Hx. fold nc in Hx. apply O1; lia. }
  destruct (restore_spec callee RSI m1) as (E2 & M2 & S2 & A2); [by left|rewrite En; done|rewrite En, R1 by done; fold nc; lia|].
  rewrite En in E2, M2. set (m2 := run callee (restore RSI) m1) in *. clearbody m2. split_and!.
  - rewrite E2, M2, load_ctx_other by (unfold CTX_SIZE; lia). by rewrite E1.
  - intros x H1 H2 H3. rewrite M2, store64_other by lia. by apply O1.
  - eapply same_rest_trans; [|exact S2]. destruct C1 as [_ C2 _ C4 C5 C6 C7]. split; [|congruence].
    intros r Hr. apply R1. intros ->. revert Hr. by apply (bool_decide_unpack _).
  - done.
Qed.

(** ** Entering user mode *)

(** [jump_to_context] on a context in memory. *)
Lemma jump_to_context_spec callee m : let c := load_ctx (mmem m) (regs m RDI) in
  let m' := run callee jump_to_context_asm m in
  8 ≤ rsp c → slot_apart (rsp c) (regs m RDI) →
  cpu_of m' = jump_to_context c ∧ (∀ x, x < rsp c - 8 ∨ rsp c ≤ x → mmem m' x = mmem m x) ∧ same_rest m m' ∧ is_u64 (regs m' RAX).
Proof.
  intros c m' H8 Hs. unfold m', slot_apart, CTX_SIZE in *. rewrite jump_to_context_restore.
  destruct (restore_spec callee RDI m) as (E & M & S & A); [by right|done|fold c; lia|]. split_and!; [done| |done..].
  intros x Hx. fold c in M. rewrite M. apply store64_other. lia.
Qed.

(** A context whose stack holds an [iretq] frame, started through
    [iretq_trampoline]. *)
Lemma trampoline_spec callee m c : load_ctx (mmem m) (regs m RDI) = c → 8 ≤ rsp c → slot_apart (rsp c) (regs m RDI) →
  let m' := run callee iretq_trampoline_asm (run callee jump_to_context_asm m) in
  (rip m', cs m', rflags m', regs m' RSP, ss m') =
    (load64 (mmem m) (rsp c), load64 (mmem m) (rsp c + 8), load64 (mmem m) (rsp c + 16), load64 (mmem m) (rsp c + 24), load64 (mmem m) (rsp c + 32)) ∧
  regs m' <$> [RBX; RBP; R12; R13; R14; R15] = [rbx c; rbp c; r12 c; r13 c; r14 c; r15 c].
Proof.
  intros <- H8 Hs m'. destruct (jump_to_context_spec callee m H8 Hs) as (E & O & _ & _). unfold m'.
  set (c := load_ctx _ _) in *. set (m1 := run callee jump_to_context_asm m) in *. clearbody m1. clear m'.
  unfold cpu_of, jump_to_context in E. injection E as e15 e14 e13 e12 ebp ebx esp _ _.
  assert (Hw : ∀ k, 0 ≤ k → load64 (mmem m1) (regs m1 RSP + k) = load64 (mmem m) (rsp c + k)).
  { intros k Hk. rewrite esp. apply load64_ext. intros x Hx. apply O. lia. }
  pose proof (Hw 0 ltac:(lia)) as H0. rewrite !Z.add_0_r in H0. cbn [run foldl iretq_trampoline_asm exec_instr rip cs rflags ss regs].
  split; [rewrite H0, !Hw by lia; reflexivity|]. cbn [fmap list_fmap]. rewrite !decide_False by done. by rewrite e15, e14, e13, e12, ebp, ebx.
Qed.

(** ** Replacing the image: [jump_to_user] *)
Definition user_view m : user_regs := {| u_rip := rip m; u_cs := cs m; u_rflags := rflags m; u_rsp := regs m RSP; u_ss := ss m |}.

Lemma run_clear callee rs : RSP ∉ rs → ∀ m, let m' := run callee ((λ r, Xor r r) <$> rs) m in
  (∀ r, r ∈ rs → regs m' r = 0) ∧ (∀ r, r ∉ rs → regs m' r = regs m r) ∧ mmem m' = mmem m ∧ same_control m m'.
Proof.
  induction rs as [|r rs IH]; intros Hn m; cbn [fmap list_fmap].
  { split_and!; try done. intros r Hr. by apply elem_of_nil in Hr. }
  apply not_elem_of_cons in Hn as [Hn1 Hn2]. set (m1 := exec_instr callee (Xor r r) m).
  destruct (IH Hn2 m1) as (Z1 & O1 & M1 & C1). change (run callee (Xor r r :: ?k) m) with (run callee k m1).
  assert (E : regs m1 r = 0) by (unfold m1; cbn [exec_instr]; rewrite regs_set_eq; apply Z.lxor_nilpotent). split_and!.
  - intros x [-> | Hx]%elem_of_cons; [|by apply Z1]. destruct (decide (r ∈ rs)); [by apply Z1|]. by rewrite O1.
  - intros x [Hx1 Hx2]%not_elem_of_cons. rewrite O1 by done. unfold m1. cbn [exec_instr]. by apply regs_set_ne.
  - by rewrite M1.
  - eapply same_control_trans; [|exact C1]. done.
Qed.

(** The words that [jump_to_user] pushes: the frame of [iretq]. *)
Definition user_frame m : list Z := [regs m RCX; regs m RSI; Z.land (flags_on (rflags m)) (u64_not 0x3000); regs m RDX; regs m RDI].
Definition user_pushes : list instr :=
  [Push RCX; Push RSI; Pushfq; Pop RAX; OrImm 0x200 RAX; AndImm (u64_not 0x3000) RAX; Push RAX; Push RDX; Push RDI].

(** A push of a register leaves the machine as [pushes] says. *)
Lemma flags_pushes callee m : is_u64 (rflags m) → 8 ≤ regs m RSP < U64 →
  let m' := run callee [Pushfq; Pop RAX; OrImm 0x200 RAX; AndImm (u64_not 0x3000) RAX] m in
  regs m' RAX = Z.land (flags_on (rflags m)) (u64_not 0x3000) ∧ (∀ r, r ≠ RAX → regs m' r = regs m r) ∧
  (∀ x, x < regs m RSP - 8 ∨ regs m RSP ≤ x → mmem m' x = mmem m x) ∧ same_control m m'.
Proof.
  intros Hf Hsp m'. destruct (push_pushes m (rflags m) Hsp) as [R G W O C]. cbn [length] in *.
  set (m1 := push m (rflags m)) in *. pose proof (W 0%nat _ eq_refl Hf) as W0.
  replace (regs m RSP - 8 * (0%nat + 1)) with (regs m1 RSP) in W0 by lia.
  set (m2 := set_reg (set_reg m1 RSP (u64_wrap (regs m1 RSP + 8))) RAX (load64 (mmem m1) (regs m1 RSP))).
  set (m3 := set_reg m2 RAX (Z.lor (regs m2 RAX) 0x200)).
  assert (E : m' = set_reg m3 RAX (Z.land (regs m3 RAX) (u64_not 0x3000))) by reflexivity. rewrite E. clearbody m1. split_and!.
  - rewrite regs_set_eq. unfold m3, m2. rewrite !regs_set_eq. by rewrite W0.
  - intros r Hr. rewrite regs_set_ne by done. unfold m3, m2. rewrite !(regs_set_ne _ RAX) by done.
    destruct (decide (r = RSP)) as [-> | Hne]; [|rewrite regs_set_ne by done; by apply G].
    rewrite regs_set_eq, R. replace (regs m RSP - 8 * 1%nat + 8) with (regs m RSP) by lia. apply wrap_small. unfold is_u64. lia.
  - intros x Hx. change (mmem m1 x = mmem m x). apply O. lia.
  - eapply same_control_trans; [exact C|]. done.
Qed.

Lemma user_pushes_spec callee m : (∀ r, is_u64 (regs m r)) → is_u64 (rflags m) → 40 ≤ regs m RSP →
  let m' := run callee user_pushes m in
  regs m' RSP = regs m RSP - 40 ∧ (∀ (i : nat) v, user_frame m !! i = Some v → load64 (mmem m') (regs m RSP - 8 * (i + 1)) = v) ∧
  same_control m m'.
Proof.
  intros Hu Hf Hsp m'. pose proof (Hu RSP) as Hr. unfold is_u64 in Hr.
  pose proof (run_pushes callee [RCX; RSI] ltac:(apply (bool_decide_unpack _); by vm_compute) m ltac:(cbn; lia)) as P1.
  set (m1 := run callee (Push <$> [RCX; RSI]) m) in *. assert (R1 := pu_rsp _ _ _ P1). cbn [length fmap list_fmap] in R1.
  assert (C1 := pu_control _ _ _ P1). pose proof (sc_rflags _ _ C1) as F1.
  destruct (flags_pushes callee m1) as (A2 & G2 & O2 & C2); [by rewrite F1|lia|]. set (m2 := run callee _ m1) in *.
  assert (R2 : regs m2 RSP = regs m1 RSP) by by apply G2.
  pose proof (run_pushes callee [RAX; RDX; RDI] ltac:(apply (bool_decide_unpack _); by vm_compute) m2 ltac:(rewrite R2; cbn [length]; lia)) as P3.
  set (m3 := run callee (Push <$> [RAX; RDX; RDI]) m2) in *.
  assert (E : m' = m3) by reflexivity. rewrite E. clear E m'. clearbody m3. clearbody m2. clearbody m1.
  destruct P1 as [_ G1 W1 O1 _], P3 as [R3 G3 W3 O3 C3]. cbn [length fmap list_fmap] in *. rewrite F1 in A2.
  assert (Hlow : ∀ x, regs m RSP - 16 ≤ x → mmem m3 x = mmem m1 x) by (intros x Hx; rewrite O3, O2; [done|lia|lia]).
  split_and!; [lia| |eapply same_control_trans; [exact C1|eapply same_control_trans; [exact C2|exact C3]]].
  assert (Hi : ∀ (i : nat) r v, [RCX; RSI] !! i = Some r → regs m r = v → load64 (mmem m3) (regs m RSP - 8 * (i + 1)) = v).
  { intros i r v Hir <-. pose proof (lookup_lt_Some _ _ _ Hir) as Hlt. cbn [length] in Hlt.
    rewrite (load64_ext (mmem m1)) by (intros; apply Hlow; lia). apply W1; [|apply Hu]. by destruct i as [|[|]]; simplify_eq/=. }
  assert (Hj : ∀ (i : nat) r v, [RAX; RDX; RDI] !! i = Some r → regs m2 r = v → is_u64 v → load64 (mmem m3) (regs m RSP - 8 * (S (S i) + 1)) = v).
  { intros i r v Hir <- Hv. replace (regs m RSP - 8 * (S (S i) + 1)) with (regs m2 RSP - 8 * (i + 1)) by lia.
    apply W3; [|done]. by destruct i as [|[|[|]]]; simplify_eq/=. }
  intros i v. unfold user_frame. destruct i as [|[|[|[|[|]]]]]; cbn [lookup list_lookup]; intros [= <-]; [by eapply Hi|by eapply Hi|..].
  - eapply Hj; [done|done|]. apply land_u64. by apply flags_on_u64.
  - eapply (Hj 1%nat RDX); [done|rewrite G2, G1; done|apply Hu].
  - eapply (Hj 2%nat RDI); [done|rewrite G2, G1; done|apply Hu].
Qed.

Definition general : list reg := [RAX; RBX; RCX; RDX; RSI; RDI; RBP; R8; R9; R10; R11; R12; R13; R14; R15].

(** The assembly enters user mode with the registers that [Exec.jump_to_user]
    describes, and zero in every general register. *)
Theorem jump_to_user_refines callee m : (∀ r, is_u64 (regs m r)) → is_u64 (rflags m) → 40 ≤ regs m RSP →
  let m' := run callee jump_to_user_asm m in
  user_view m' = jump_to_user (regs m RDI) (regs m RSI) (regs m RDX) (regs m RCX) (rflags m) ∧
  ∀ r, r ≠ RSP → regs m' r = 0.
Proof.
  intros Hu Hf Hsp m'. destruct (user_pushes_spec callee m Hu Hf Hsp) as (R1 & W1 & C1).
  change jump_to_user_asm with (user_pushes ++ ((λ r, Xor r r) <$> general) ++ [Iretq]) in m'.
  unfold m'. rewrite !run_app. clear m'. set (m1 := run callee user_pushes m) in *. clearbody m1.
  destruct (run_clear callee general ltac:(apply (bool_decide_unpack _); by vm_compute) m1) as (Z2 & O2 & M2 & C2).
  set (m2 := run callee (_ <$> general) m1) in *. clearbody m2.
  assert (Esp : regs m2 RSP = regs m RSP - 40) by (rewrite O2; [done|apply (bool_decide_unpack _); by vm_compute]).
  assert (Hw : ∀ (i : nat) v k, user_frame m !! i = Some v → k = 32 - 8 * i → load64 (mmem m2) (regs m2 RSP + k) = v).
  { intros i v k Hi ->. rewrite Esp, M2, <- (W1 i v Hi). f_equal. lia. }
  cbn [run foldl exec_instr]. unfold user_view, jump_to_user. cbn [rip cs rflags ss regs]. split.
  - rewrite decide_True by done. pose proof (Hw 4%nat _ 0 eq_refl ltac:(lia)) as H0. rewrite Z.add_0_r in H0.
    rewrite H0, (Hw 3%nat _ 8 eq_refl), (Hw 2%nat _ 16 eq_refl), (Hw 1%nat _ 24 eq_refl), (Hw 0%nat _ 32 eq_refl) by lia. reflexivity.
  - intros r Hr. rewrite decide_False by done. apply Z2. by destruct r; try in_list.
Qed.

(** ** The first run of a forked child *)
Definition fork_pops : list reg := [R15; R14; R13; R12; RBP; RBX; RCX; R11].

Lemma fork_child_return_spec callee m : 0 ≤ regs m RSP → regs m RSP + 64 < U64 →
  let m' := run callee fork_child_return_asm m in
  rip m' = load64 (mmem m) (regs m RSP + 48) ∧ rflags m' = load64 (mmem m) (regs m RSP + 56) ∧
  regs m' RSP = load64 (mmem m) (gs_base m + 16) ∧ regs m' RAX = 0 ∧
  regs m' <$> [R15; R14; R13; R12; RBP; RBX] = (λ k, load64 (mmem m) (regs m RSP + k)) <$> [0; 8; 16; 24; 32; 40].
Proof.
  intros H0 Hl m'. change fork_child_return_asm with
    (((λ r, Xor r r) <$> [RAX]) ++ (Pop <$> fork_pops) ++ [MovFromGs 16 RSP; Cli; Swapgs; Sysretq]) in m'.
  unfold m'. rewrite !run_app. clear m'.
  destruct (run_clear callee [RAX] ltac:(apply (bool_decide_unpack _); by vm_compute) m) as (Z1 & O1 & M1 & C1).
  set (m1 := run callee (_ <$> [RAX]) m) in *. clearbody m1.
  assert (Esp : regs m1 RSP = regs m RSP) by (apply O1; apply (bool_decide_unpack _); by vm_compute).
  destruct (run_pops callee fork_pops ltac:(apply (bool_decide_unpack _); by vm_compute) ltac:(apply (bool_decide_unpack _); by vm_compute) m1)
    as [_ I2 O2 M2 C2]; [lia|cbn [length fork_pops]; lia|]. set (m2 := run callee (Pop <$> fork_pops) m1) in *. clearbody m2.
  rewrite Esp, M1 in I2. pose proof (sc_gs _ _ C1) as G1. pose proof (sc_gs _ _ C2) as G2.
  assert (Hw : ∀ (i : nat) r k, fork_pops !! i = Some r → k = 8 * i → regs m2 r = load64 (mmem m) (regs m RSP + k)) by (intros i r k Hi ->; by apply I2).
  cbn [run foldl exec_instr]. cbn [rip rflags regs set_reg set_regs set_rflags mmem gs_base]. rewrite !decide_False by done. split_and!.
  - by apply (Hw 6%nat).
  - by apply (Hw 7%nat).
  - rewrite decide_True by done. by rewrite M2, M1, G2, G1.
  - rewrite O2; [|apply (bool_decide_unpack _); by vm_compute|done]. apply Z1. by left.
  - cbn [fmap list_fmap]. rewrite !decide_False by done.
    by rewrite (Hw 0%nat R15 0), (Hw 1%nat R14 8), (Hw 2%nat R13 16), (Hw 3%nat R12 24), (Hw 4%nat RBP 32), (Hw 5%nat RBX 40).
Qed.

#[local] Opaque run.
(** C34: A new user process, if the frames it needs and an aligned block for its
    kernel stack are free, is made; and when it is first run, by loading its
    context and [iretq_trampoline], on a machine whose memory holds the context and
    the kernel stack that were made, the processor enters the program at its entry
    point, in user mode, with interrupts on, on the initial user stack of the
    arguments, and with zero callee-saved registers. *)
Theorem new_user_runs {hh : Hhdm} KERNEL_PML4_PHYS tramp s F rq data eh argv envp nm prio_ b :
  let base := if is_pie data then PIE_BASE else 0 in
  pmm_inv true s F → node_ok KERNEL_PML4_PHYS → KERNEL_PML4_PHYS ≠ 0 → KERNEL_PML4_PHYS / PAGE_SIZE ∉ F →
  startable data base eh → stack_need argv envp nm ≤ 0x10000 → exec_frames data eh base + 4 ≤ size F →
  block_ok 2 b → block_set 2 b ⊆ F →
  ∃ (p : Process) s' rq' F' T' D' rsp_, new_user_process KERNEL_PML4_PHYS tramp nm data argv envp prio_ s rq = Ret (Ok p, s', rq') ∧
    state p = Runnable ∧ Proc.rip (context p) = tramp ∧
    uspace (pmm_inv true) s' F' (pml4_phys (address_space p)) T' D' ∧ started data eh base argv envp nm rsp_ s' D' ∧
    ∀ m, load_ctx (mmem m) (regs m RDI) = context p → slot_apart (rsp (context p)) (regs m RDI) →
      (∀ x, kernel_stack p ≤ x < kernel_stack p + KERNEL_STACK_SIZE → mmem m x = ram s' x) → 0 ≤ kernel_stack p →
      let m' := run id iretq_trampoline_asm (run id jump_to_context_asm m) in
      (rip m', cs m', rflags m', regs m' RSP, ss m') = (e_entry eh + elf_slide eh base, 0x23, 0x202, rsp_, 0x1B) ∧
      regs m' <$> [RBX; RBP; R12; R13; R14; R15] = replicate 6 0.
Proof.
  intros base HI HK HK0 HKF Hsb Hneed Hfr Hb HbF.
  destruct (new_user_process_correct KERNEL_PML4_PHYS tramp true s F rq data eh argv envp nm prio_ HI HK HK0 HKF Hsb Hneed Hfr)
    as (r & s' & rq' & E & _ & _ & _ & Hr). destruct r as [p|e]; [|destruct Hr as (_ & _ & Hno); destruct (Hno eq_refl b Hb HbF)].
  destruct Hr as (F' & T' & D' & rsp_ & _ & Hst & _ & HU & Hs & Hip & Hsp & W0 & W1 & W2 & W3 & W4).
  exists p, s', rq', F', T', D', rsp_. split; [exact E|]. split_and!; try done. intros m Hc Hsl Hm Hk m'.
  destruct (trampoline_spec id m _ Hc ltac:(rewrite Hsp; lia) Hsl) as [E1 E2]. fold m' in E1, E2. clearbody m'.
  assert (Hw : ∀ k, 0 ≤ k ≤ 32 → load64 (mmem m) (rsp (context p) + k) = load64 (ram s') (rsp (context p) + k)).
  { intros k Hk'. apply load64_ext. intros x Hx. apply Hm. lia. }
  pose proof (Hw 0 ltac:(lia)) as Hw0. rewrite !Z.add_0_r in Hw0. rewrite Hw0, !Hw, W0, W1, W2, W3, W4 in E1 by lia.
  split; [exact E1|]. rewrite E2. apply (new_user_context _ _ _ _ _ _ _ _ _ _ _ _ E).
Qed.

Lemma child_started fcr (c : CpuContext) top m :
  rsp c = top → Proc.rip c = fcr → 0 ≤ top - 8 → top + 64 < U64 →
  load_ctx (mmem m) (regs m RDI) = c → slot_apart top (regs m RDI) →
  gs_base m + 24 ≤ top - 8 ∨ top ≤ gs_base m + 16 →
  let m1 := run id jump_to_context_asm m in let m' := run id fork_child_return_asm m1 in
  rip m1 = fcr ∧ rip m' = load64 (mmem m) (top + 48) ∧ rflags m' = load64 (mmem m) (top + 56) ∧
  regs m' RSP = load64 (mmem m) (gs_base m + 16) ∧ regs m' RAX = 0 ∧
  regs m' <$> [R15; R14; R13; R12; RBP; RBX] = (λ k, load64 (mmem m) (top + k)) <$> [0; 8; 16; 24; 32; 40].
Proof.
  intros Ec Ef Hk Hlim Hc Hs Hg m1 m'.
  destruct (jump_to_context_spec id m) as (E & O & [_ S] & _); rewrite ?Hc, ?Ec; [lia|done|].
  rewrite Hc in E, O. rewrite Ec in O. fold m1 in E, O, S.
  pose proof (f_equal c_rip E) as Eip. pose proof (f_equal c_rsp E) as Esp. cbn [cpu_of c_rip c_rsp jump_to_context] in Eip, Esp. rewrite Ec in Esp.
  assert (Eg : gs_base m1 = gs_base m) by congruence. clearbody m1.
  destruct (fork_child_return_spec id m1) as (H1 & H2 & H3 & H4 & H5); [rewrite Esp; lia|rewrite Esp; lia|].
  assert (Hw : ∀ k, 0 ≤ k → load64 (mmem m1) (regs m1 RSP + k) = load64 (mmem m) (top + k)).
  { intros k Hk0. rewrite Esp. apply load64_ext. intros x Hx. apply O. lia. }
  fold m' in H1, H2, H3, H4, H5. rewrite !Hw in H1, H2 by lia. split_and!; [congruence|exact H1|exact H2| |exact H4|].
  - rewrite H3, Eg. apply load64_ext. intros x Hx. apply O. lia.
  - rewrite H5. cbn [fmap list_fmap]. by rewrite !Hw by lia.
Qed.

(** C26: A child that [fork] made is started, by loading its context and running
    [fork_child_return], on a machine whose memory above the end of the child's
    kernel stack is the one the [fork] left. The child resumes at the address, with
    the flags and with the callee-saved registers that it finds there, on the user
    stack pointer of the last system call on the processor, and with zero in [rax].
    [fork] does not put the registers of the parent there: if the frame above the
    stack was neither free nor a table of the parent, it holds what it held before. *)
Theorem forked_child_start {hh : Hhdm} fcr co s F P T rq h parent ret s' rq' (n : positive) (child : Process) m :
  sched_inv rq → current rq = Some h → procs rq !! h = Some parent →
  address_space parent = {| pml4_phys := P |} →
  vmm_inv (pmm_inv co) s F P T → (∀ v e, is_user v → mmu_walk (ram s) P v ≠ Some (Large e)) →
  sys_fork_simple fcr s rq = Ret (ret, s', rq') → procs rq !! n = None → procs rq' !! n = Some child →
  let top := kernel_stack child + kernel_stack_size child in
  load_ctx (mmem m) (regs m RDI) = context child → slot_apart top (regs m RDI) →
  gs_base m + 24 ≤ top - 8 ∨ top ≤ gs_base m + 16 →
  (∀ x, top ≤ x < top + 64 → mmem m x = ram s' x) →
  let m1 := run id jump_to_context_asm m in let m' := run id fork_child_return_asm m1 in
  let resumes f := rip m' = load64 f (top + 48) ∧ rflags m' = load64 f (top + 56) ∧
    regs m' <$> [R15; R14; R13; R12; RBP; RBX] = (λ k, load64 f (top + k)) <$> [0; 8; 16; 24; 32; 40] in
  rip m1 = fcr ∧ resumes (ram s') ∧ (vframe top ∉ F ∪ tables T → resumes (ram s)) ∧
  regs m' RSP = load64 (mmem m) (gs_base m + 16) ∧ regs m' RAX = 0.
Proof.
  intros HS Hcu Hp Hsp HV Hnl E Hn Hn' top Hctx Hs Hg Hm m1 m' resumes.
  destruct (fork_refines fcr signal_mask co s F P T rq h parent HS Hcu Hp Hsp HV Hnl) as (ret0 & s0 & rq0 & E0 & _ & HR).
  unfold sys_fork_simple in E. rewrite E in E0. injection E0 as <- <- <-.
  destruct HR as [(_ & Ep & _)|(_ & [(c0 & ch & Hc0 & Ep & _ & _ & _ & _ & _ & _ & _ & _ & _ & _ & _ & _ & _ & F' & C & k & Ek & Ez & Ect & _ & _ & Hk & _) Hfr])];
    [congruence|].
  rewrite Ep in Hn'. apply lookup_insert_Some in Hn' as [[-> ->]|[_ ?]]; [|congruence].
  assert (Et : top = table_at k + KERNEL_STACK_SIZE) by (unfold top; by rewrite Ek, Ez).
  assert (Hal : top mod 4096 = 0 ∧ 0 ≤ top - 8 ∧ top + 4096 ≤ U64).
  { pose proof hhdm_bound. pose proof hhdm_pos. pose proof hhdm_aligned. destruct Hk as (Hk0 & Hk1 & Hk).
    change (PAGE_SIZE * 2 ^ 2%nat) with 16384 in *. rewrite Et. unfold table_at in *. change KERNEL_STACK_SIZE with 16384. dlia. }
  destruct (child_started fcr (context child) top m) as (H1 & H2 & H3 & H4 & H5 & H6);
    [by rewrite Ect, Et|by rewrite Ect|lia|lia|done..|]. fold m1 m' in H1, H2, H3, H4, H5, H6. clearbody m1 m'.
  assert (Hw : resumes (ram s')).
  { assert (Hl : ∀ k, 0 ≤ k ≤ 56 → load64 (mmem m) (top + k) = load64 (ram s') (top + k)).
    { intros i Hi. apply load64_ext. intros x Hx. apply Hm. lia. }
    unfold resumes. rewrite H2, H3, H6. cbn [fmap list_fmap]. rewrite !Hl by lia. done. }
  split; [done|]. split; [done|]. split; [|done]. intros Hout.
  assert (Hl : ∀ k, 0 ≤ k ≤ 56 → load64 (ram s') (top + k) = load64 (ram s) (top + k)).
  { intros i Hi. apply load64_ext. intros x Hx. apply Hfr. replace (vframe x) with (vframe top); [done|]. unfold vframe. pose proof hhdm_aligned. change PAGE_SIZE with 4096. dlia. }
  unfold resumes in Hw |- *. destruct Hw as (-> & -> & ->). cbn [fmap list_fmap]. rewrite !Hl by lia. done.
Qed.

#[local] Transparent run.

(** ** Threads

    [TH] is a set of processes, [ctx_addr] the addresses of their contexts and
    [stack] the bottoms of their kernel stacks. *)
Section Threads.
Context (label_1 : Z) (TH : gset positive) (ctx_addr stack : positive → Z).

Definition in_ctx h x : Prop := ctx_addr h ≤ x < ctx_addr h + CTX_SIZE.
Definition in_stack h x : Prop := stack h ≤ x < stack h + KERNEL_STACK_SIZE.

Record layout : Prop := {
  ly_label : is_u64 label_1;
  ly_ctx : ∀ h, h ∈ TH → 0 ≤ ctx_addr h ∧ ctx_addr h + CTX_SIZE < U64;
  ly_stack : ∀ h, h ∈ TH → 0 ≤ stack h ∧ stack h + KERNEL_STACK_SIZE < U64;
  ly_ctxs : ∀ h n x, h ∈ TH → n ∈ TH → h ≠ n → in_ctx h x → ¬ in_ctx n x;
  ly_stacks : ∀ h n x, h ∈ TH → n ∈ TH → h ≠ n → in_stack h x → ¬ in_stack n x;
  ly_apart : ∀ h n x, h ∈ TH → n ∈ TH → in_ctx h x → ¬ in_stack n x
}.

(** A suspended thread called [context_switch] on the machine [m0], to return to
    [ra], or it has not run yet. *)
Inductive suspended := Called (ra : Z) (m0 : machine) | Fresh (c : CpuContext) (f : mem).

(** The registers it is to be resumed with, and the stack it owns from there up. *)
Definition resumed (s : suspended) : cpu :=
  match s with
  | Called ra m0 => {| c_r15 := regs m0 R15; c_r14 := regs m0 R14; c_r13 := regs m0 R13; c_r12 := regs m0 R12;
      c_rbp := regs m0 RBP; c_rbx := regs m0 RBX; c_rsp := regs m0 RSP - 8; c_rip := label_1; c_rflags := flags_on (rflags m0) |}
  | Fresh c f => jump_to_context c
  end.
Definition owned (s : suspended) : mem := match s with Called ra m0 => store64 (mmem m0) (regs m0 RSP - 8) ra | Fresh c f => f end.

Record machine_ok h m : Prop := {
  mo_regs : ∀ r, is_u64 (regs m r);
  mo_flags : is_u64 (rflags m);
  mo_rsp : stack h + 16 ≤ regs m RSP ≤ stack h + KERNEL_STACK_SIZE
}.

Record susp_ok f h (s : suspended) : Prop := {
  so_ctx : jump_to_context (load_ctx f (ctx_addr h)) = resumed s;
  so_stack : ∀ x, c_rsp (resumed s) ≤ x < stack h + KERNEL_STACK_SIZE → f x = owned s x;
  so_origin : match s with
    | Called ra m0 => is_u64 ra ∧ machine_ok h m0
    | Fresh c f0 => Proc.rip c ≠ label_1 ∧ stack h + 16 ≤ rsp c ≤ stack h + KERNEL_STACK_SIZE
    end
}.

Record world := { w_machine : machine; w_current : positive; w_suspended : gmap positive suspended }.

Record world_ok w : Prop := {
  wo_current : w_current w ∈ TH;
  wo_not_suspended : w_suspended w !! w_current w = None;
  wo_machine : machine_ok (w_current w) (w_machine w);
  wo_suspended : ∀ h s, w_suspended w !! h = Some s → h ∈ TH ∧ susp_ok (mmem (w_machine w)) h s
}.

(** The call of [context_switch] from [h] to [n], and the return at the label [1:]
    when the context leads there. *)
Definition at_label m : machine := if rip m =? label_1 then run id context_switch_1_asm m else m.
Definition do_switch (h n : positive) (ra : Z) m : machine :=
  at_label (run id (context_switch_asm label_1) (push (set_reg (set_reg m RDI (ctx_addr h)) RSI (ctx_addr n)) ra)).

(** What a thread does between switches: anything that leaves the contexts and the
    stacks of the suspended threads alone. *)
Definition keeps (f f' : mem) h : Prop := ∀ x, in_ctx h x ∨ in_stack h x → f' x = f x.

Inductive step : world → world → Prop :=
  | StepRun w m' : machine_ok (w_current w) m' →
      (∀ h, is_Some (w_suspended w !! h) → keeps (mmem (w_machine w)) (mmem m') h) →
      step w {| w_machine := m'; w_current := w_current w; w_suspended := w_suspended w |}
  | StepSpawn w m' h c : machine_ok (w_current w) m' →
      (∀ n, is_Some (w_suspended w !! n) → keeps (mmem (w_machine w)) (mmem m') n) →
      h ∈ TH → h ≠ w_current w → w_suspended w !! h = None → susp_ok (mmem m') h (Fresh c (mmem m')) →
      step w {| w_machine := m'; w_current := w_current w; w_suspended := <[h := Fresh c (mmem m')]> (w_suspended w) |}
  | StepSwitch w n ra : is_Some (w_suspended w !! n) → is_u64 ra →
      step w {| w_machine := do_switch (w_current w) n ra (w_machine w); w_current := n;
                w_suspended := delete n (<[w_current w := Called ra (w_machine w)]> (w_suspended w)) |}.

Hypothesis HL : layout.
Implicit Types (h n : positive) (w : world).

Lemma susp_ok_keeps f f' h s : keeps f f' h → susp_ok f h s → susp_ok f' h s.
Proof.
  intros Hk [C S O]. split; [|intros x Hx; rewrite Hk; [by apply S|]|done].
  - rewrite (load_ctx_ext f); [done|]. intros x Hx. apply Hk. by left.
  - right. split; [|lia]. destruct s as [ra m0|c f0]; cbn in Hx; [destruct O as [_ [_ _ O]]|destruct O as [_ O]]; lia.
Qed.

(** The stack pointer a suspended thread is resumed with is inside its stack. *)
Lemma susp_rsp f h s : susp_ok f h s → stack h + 8 ≤ c_rsp (resumed s) ≤ stack h + KERNEL_STACK_SIZE.
Proof. intros [_ _ O]. destruct s as [ra m0|c f0]; cbn; [destruct O as [_ [_ _ O]]|destruct O as [_ O]]; lia. Qed.

(** A word in a stack is apart from every context. *)
Lemma stack_slot h n sp : h ∈ TH → n ∈ TH → stack h + 8 ≤ sp ≤ stack h + KERNEL_STACK_SIZE → slot_apart sp (ctx_addr n).
Proof.
  intros Hh Hn Hsp. unfold slot_apart. destruct (decide (sp ≤ ctx_addr n)) as [|H1]; [by left|].
  destruct (decide (ctx_addr n + CTX_SIZE ≤ sp - 8)) as [|H2]; [by right|]. exfalso.
  apply (ly_apart HL n h (Z.max (ctx_addr n) (sp - 8)) Hn Hh); [unfold in_ctx, CTX_SIZE in *|unfold in_stack, CTX_SIZE in *]; lia.
Qed.
Lemma ctx_ctx h n : h ∈ TH → n ∈ TH → h ≠ n → ctx_addr h + CTX_SIZE ≤ ctx_addr n ∨ ctx_addr n + CTX_SIZE ≤ ctx_addr h.
Proof.
  intros Hh Hn Hne. destruct (decide (ctx_addr h + CTX_SIZE ≤ ctx_addr n)) as [|H1]; [by left|].
  destruct (decide (ctx_addr n + CTX_SIZE ≤ ctx_addr h)) as [|H2]; [by right|]. exfalso.
  apply (ly_ctxs HL h n (Z.max (ctx_addr h) (ctx_addr n)) Hh Hn Hne); unfold in_ctx, CTX_SIZE in *; lia.
Qed.

(** The machine that the called routine starts on. *)
Lemma call_spec h n ra m : machine_ok h m → h ∈ TH → n ∈ TH →
  let m1 := push (set_reg (set_reg m RDI (ctx_addr h)) RSI (ctx_addr n)) ra in
  regs m1 RDI = ctx_addr h ∧ regs m1 RSI = ctx_addr n ∧ regs m1 RSP = regs m RSP - 8 ∧
  (∀ r, r ∉ [RDI; RSI; RSP] → regs m1 r = regs m r) ∧ (∀ r, is_u64 (regs m1 r)) ∧ rflags m1 = rflags m ∧
  mmem m1 = store64 (mmem m) (regs m RSP - 8) ra.
Proof.
  intros [Hu Hf Hsp] Hh Hn m1. destruct (ly_stack HL h Hh), (ly_ctx HL h Hh), (ly_ctx HL n Hn). unfold CTX_SIZE in *.
  pose proof (Hu RSP) as Hs. unfold is_u64 in Hs.
  assert (E : u64_wrap (regs m RSP - 8) = regs m RSP - 8) by (apply wrap_small; unfold is_u64; lia).
  assert (Er : ∀ r, r ∉ [RDI; RSI; RSP] → regs m1 r = regs m r).
  { intros r Hr. rewrite !not_elem_of_cons in Hr. destruct Hr as (N1 & N2 & N3 & _). unfold m1, push. by rewrite regs_set_mem, !regs_set_ne. }
  assert (Ed : regs m1 RDI = ctx_addr h) by (unfold m1, push; asm_simpl; done).
  assert (Es : regs m1 RSI = ctx_addr n) by (unfold m1, push; asm_simpl; done).
  assert (Ep : regs m1 RSP = regs m RSP - 8) by (unfold m1, push; asm_simpl; done).
  split_and!; try done.
  - intros r. destruct (decide (r ∈ [RDI; RSI; RSP])) as [Hr|Hr]; [|by rewrite Er].
    rewrite !elem_of_cons, elem_of_nil in Hr. destruct Hr as [-> | [-> | [-> | []]]]; rewrite ?Ed, ?Es, ?Ep; unfold is_u64; lia.
  - unfold m1, push. asm_simpl. by rewrite E.
Qed.

(** What the switch changes, up to the jump. *)
Record switched_to h n m ra s m2 : Prop := {
  sw_cpu : cpu_of m2 = resumed s;
  sw_u64 : ∀ r, is_u64 (regs m2 r);
  sw_saved : jump_to_context (load_ctx (mmem m2) (ctx_addr h)) = resumed (Called ra m);
  sw_other : ∀ x, ¬ in_ctx h x → x < regs m RSP - 16 ∨ regs m RSP - 8 ≤ x →
    x < c_rsp (resumed s) - 8 ∨ c_rsp (resumed s) ≤ x → mmem m2 x = store64 (mmem m) (regs m RSP - 8) ra x
}.

Lemma resumed_u64 f h s : susp_ok f h s → is_u64 (c_rsp (resumed s)) ∧ is_u64 (c_rflags (resumed s)).
Proof.
  intros [<- _ _]. cbn. split; [apply load64_bound|]. apply (flags_on_u64 (load64 f _)), load64_bound.
Qed.

Lemma switch_up_to_jump h n ra m s : machine_ok h m → h ∈ TH → n ∈ TH → h ≠ n → susp_ok (mmem m) n s →
  switched_to h n m ra s (run id (context_switch_asm label_1) (push (set_reg (set_reg m RDI (ctx_addr h)) RSI (ctx_addr n)) ra)).
Proof.
  intros Hm Hh Hn Hne Hs. destruct (call_spec h n ra m Hm Hh Hn) as (Ed & Es & Ep & Er & Hu1 & Ef & Em).
  set (m1 := push _ ra) in *. clearbody m1. destruct Hm as [Hu Hf Hsp]. pose proof (susp_rsp _ _ _ Hs) as Hr.
  destruct (ly_stack HL h Hh), (ly_stack HL n Hn). pose proof (stack_slot h n (regs m RSP) Hh Hn ltac:(lia)) as S1.
  assert (Ec : jump_to_context (load_ctx (mmem m1) (regs m1 RSI)) = resumed s).
  { rewrite Es, Em, load_ctx_other; [apply Hs|]. unfold slot_apart in S1. lia. }
  assert (Esp : rsp (load_ctx (mmem m1) (regs m1 RSI)) = c_rsp (resumed s)) by by rewrite <- Ec.
  destruct (context_switch_spec id label_1 m1) as (E2 & O2 & [R2 _] & A2); rewrite ?Esp, ?Ed, ?Es, ?Ep, ?Ef; try done; try lia.
  { apply HL. } { by apply ctx_ctx. }
  { apply (stack_slot h); [done..|lia]. } { apply (stack_slot h); [done..|lia]. }
  { apply (stack_slot n); [done..|lia]. } { apply (stack_slot n); [done..|lia]. }
  set (m2 := run id _ m1) in *. clearbody m2. 
  pose proof (f_equal fst E2) as E2c. pose proof (f_equal snd E2) as E2s. clear E2. unfold context_switch in *. cbn [fst snd] in E2c, E2s.
  rewrite Ed in E2s, O2. rewrite Ep, Esp in O2. rewrite Ec in E2c. split.
  - done.
  - intros r. destruct (decide (r ∈ [RCX; RDX; RSI; RDI; R8; R9; R10; R11])) as [Hr'|Hr']; [rewrite R2; [apply Hu1|done]|].
    pose proof (f_equal c_rsp E2c) as Hc. cbn in Hc.
    rewrite <- Ec in E2c. unfold cpu_of, jump_to_context, load_ctx in E2c. cbn in E2c. injection E2c as e15 e14 e13 e12 ebp ebx esp _ _.
    destruct r; try (exfalso; apply Hr'; in_list; fail); rewrite ?e15, ?e14, ?e13, ?e12, ?ebp, ?ebx, ?esp; first [done|apply load64_bound].
  - rewrite E2s. unfold jump_to_context, save_context, cpu_of. cbn. rewrite Ep, Ef, !Er by (by apply (bool_decide_unpack _)). done.
  - intros x Hx1 Hx2 Hx3. rewrite O2; [by rewrite Em| |lia|lia]. unfold in_ctx in Hx1. lia.
Qed.

Definition callee_saved : list reg := [RSP; RBX; RBP; R12; R13; R14; R15].

(** The thread [n] goes on as if the switch it called had returned, or starts. *)
Definition resumes n (s : suspended) (m' : machine) : Prop :=
  match s with
  | Called ra m0 =>
      rip m' = ra ∧ regs m' <$> callee_saved = regs m0 <$> callee_saved ∧ rflags m' = flags_on (rflags m0) ∧
      ∀ x, regs m0 RSP ≤ x < stack n + KERNEL_STACK_SIZE → mmem m' x = mmem m0 x
  | Fresh c f => cpu_of m' = jump_to_context c ∧ ∀ x, rsp c ≤ x < stack n + KERNEL_STACK_SIZE → mmem m' x = f x
  end.

(** The part of the stack of [n] above its stack pointer survives the switch. *)
Lemma switched_stack h n ra m s m2 : machine_ok h m → h ∈ TH → n ∈ TH → h ≠ n → susp_ok (mmem m) n s →
  switched_to h n m ra s m2 → ∀ x, c_rsp (resumed s) ≤ x < stack n + KERNEL_STACK_SIZE → mmem m2 x = owned s x.
Proof.
  intros Hm Hh Hn Hne Hs [_ _ _ O] x Hx. pose proof (susp_rsp _ _ _ Hs). pose proof (mo_rsp _ _ Hm).
  assert (Hi : in_stack n x) by (unfold in_stack; lia). assert (Hns : ¬ in_stack h x).
  { intros Hh'. exact (ly_stacks HL h n x Hh Hn Hne Hh' Hi). }
  unfold in_stack in Hns. rewrite O; [|intros Hc; exact (ly_apart HL h n x Hh Hn Hc Hi)|lia|lia].
  rewrite store64_other by lia. by apply Hs.
Qed.

(** The return at the label [1:] *)
Lemma ret_spec callee m : regs m RSP + 8 < U64 → 0 ≤ regs m RSP → let m' := run callee context_switch_1_asm m in
  rip m' = load64 (mmem m) (regs m RSP) ∧ regs m' RSP = regs m RSP + 8 ∧ (∀ r, r ≠ RSP → regs m' r = regs m r) ∧
  mmem m' = mmem m ∧ rflags m' = rflags m.
Proof.
  intros H1 H2 m'. assert (W : u64_wrap (regs m RSP + 8) = regs m RSP + 8) by (apply wrap_small; unfold is_u64; lia).
  split_and!; [done| |intros r Hr|done|done].
  - transitivity (u64_wrap (regs m RSP + 8)); [exact (regs_set_eq m RSP _)|done].
  - exact (regs_set_ne m RSP r _ Hr).
Qed.

Lemma do_switch_called h n ra m ra0 m0 m2 : machine_ok h m → h ∈ TH → n ∈ TH → h ≠ n → susp_ok (mmem m) n (Called ra0 m0) →
  switched_to h n m ra (Called ra0 m0) m2 → let m' := run id context_switch_1_asm m2 in
  rip m2 = label_1 ∧ mmem m' = mmem m2 ∧ machine_ok n m' ∧ resumes n (Called ra0 m0) m'.
Proof.
  intros Hm Hh Hn Hne Hs Hsw m'. pose proof (switched_stack h n ra m _ _ Hm Hh Hn Hne Hs Hsw) as Hst.
  destruct (resumed_u64 _ _ _ Hs) as [_ Hfu]. destruct Hs as [_ _ [Hra [Hu0 Hf0 Hsp0]]]. destruct Hsw as [Ec Hu _ _].
  unfold cpu_of, resumed in Ec. injection Ec as e15 e14 e13 e12 ebp ebx esp eip efl. cbn [resumed c_rsp owned c_rflags] in Hst, Hfu.
  destruct (ly_stack HL n Hn). pose proof (Hu0 RSP) as Hr0. unfold is_u64 in Hr0.
  destruct (ret_spec id m2) as (Ri & Rs & Ro & Rm & Rf); [lia|lia|]. fold m' in Ri, Rs, Ro, Rm, Rf. clearbody m'.
  rewrite esp, Z.sub_add in Rs. split_and!; [done..| |].
  - split; [|by rewrite Rf, efl|by rewrite Rs]. intros r. destruct (decide (r = RSP)) as [-> | Hr]; [by rewrite Rs|]. rewrite Ro by done. apply Hu.
  - unfold resumes. split_and!.
    + rewrite Ri, esp, (load64_ext (store64 (mmem m0) (regs m0 RSP - 8) ra0)); [by apply load_store64|]. intros x Hx. apply Hst. lia.
    + unfold callee_saved. cbn [fmap list_fmap]. rewrite Rs, !Ro by done. by rewrite e15, e14, e13, e12, ebp, ebx.
    + by rewrite Rf, efl.
    + intros x Hx. rewrite Rm, Hst by lia. apply store64_other. lia.
Qed.

Lemma do_switch_resumes h n ra m s : machine_ok h m → h ∈ TH → n ∈ TH → h ≠ n → susp_ok (mmem m) n s →
  ∃ m2, switched_to h n m ra s m2 ∧ mmem (do_switch h n ra m) = mmem m2 ∧
    machine_ok n (do_switch h n ra m) ∧ resumes n s (do_switch h n ra m).
Proof.
  intros Hm Hh Hn Hne Hs. pose proof (switch_up_to_jump h n ra m s Hm Hh Hn Hne Hs) as Hsw.
  unfold do_switch. revert Hsw. generalize (run id (context_switch_asm label_1) (push (set_reg (set_reg m RDI (ctx_addr h)) RSI (ctx_addr n)) ra)).
  intros m2 Hsw. exists m2. split; [done|]. unfold at_label. destruct s as [ra0 m0|c f].
  - destruct (do_switch_called h n ra m ra0 m0 m2 Hm Hh Hn Hne Hs Hsw) as (E & Hrest). by rewrite E, Z.eqb_refl.
  - pose proof (switched_stack h n ra m _ _ Hm Hh Hn Hne Hs Hsw) as Hst.
    destruct (resumed_u64 _ _ _ Hs) as [_ Hfu]. destruct Hs as [_ _ [Hl Hsp]]. destruct Hsw as [Ec Hu _ _].
    pose proof (f_equal c_rip Ec) as Eip. pose proof (f_equal c_rsp Ec) as Esp. pose proof (f_equal c_rflags Ec) as Efl.
    assert (E : rip m2 =? label_1 = false) by (apply Z.eqb_neq; intros E; apply Hl; rewrite <- E; exact (eq_sym Eip)).
    rewrite E. split_and!; [done| |done]. split; [done|by rewrite <- Efl in Hfu|]. cbn in Esp. by rewrite Esp.
Qed.

(** ** The invariant *)
Lemma do_switch_keeps h n ra m s m2 k : machine_ok h m → h ∈ TH → n ∈ TH → k ∈ TH → k ≠ h → k ≠ n →
  susp_ok (mmem m) n s → switched_to h n m ra s m2 → keeps (mmem m) (mmem m2) k.
Proof.
  intros Hm Hh Hn Hk Hkh Hkn Hs [_ _ _ O] x Hx. pose proof (susp_rsp _ _ _ Hs) as Hr. pose proof (mo_rsp _ _ Hm) as Hsp.
  assert (Hnot : ¬ in_ctx h x ∧ ¬ in_stack h x ∧ ¬ in_stack n x).
  { destruct Hx as [Hx|Hx]; split_and!; intros Hy.
    - exact (ly_ctxs HL h k x Hh Hk ltac:(done) Hy Hx). - exact (ly_apart HL k h x Hk Hh Hx Hy). - exact (ly_apart HL k n x Hk Hn Hx Hy).
    - exact (ly_apart HL h k x Hh Hk Hy Hx). - exact (ly_stacks HL h k x Hh Hk ltac:(done) Hy Hx). - exact (ly_stacks HL n k x Hn Hk ltac:(done) Hy Hx). }
  destruct Hnot as (N1 & N2 & N3). unfold in_stack in N2, N3. rewrite O; [|done|lia|lia]. apply store64_other. lia.
Qed.

(** The thread that called the switch is suspended as it should be. *)
Lemma do_switch_suspends h n ra m s m2 : machine_ok h m → h ∈ TH → n ∈ TH → h ≠ n → is_u64 ra →
  susp_ok (mmem m) n s → switched_to h n m ra s m2 → susp_ok (mmem m2) h (Called ra m).
Proof.
  intros Hm Hh Hn Hne Hra Hs [_ _ Hsv O]. split; [done| |done]. cbn. intros x Hx.
  pose proof (susp_rsp _ _ _ Hs) as Hr. pose proof (mo_rsp _ _ Hm) as Hsp.
  assert (Hi : in_stack h x) by (unfold in_stack; lia). assert (Hni : ¬ in_stack n x) by (intros Hn'; exact (ly_stacks HL h n x Hh Hn Hne Hi Hn')).
  unfold in_stack in Hni. apply O; [intros Hc; exact (ly_apart HL h h x Hh Hh Hc Hi)|lia|lia].
Qed.

#[local] Opaque do_switch run.
Lemma world_switch w n ra s : world_ok w → w_suspended w !! n = Some s → is_u64 ra →
  resumes n s (do_switch (w_current w) n ra (w_machine w)) ∧
  world_ok {| w_machine := do_switch (w_current w) n ra (w_machine w); w_current := n;
              w_suspended := delete n (<[w_current w := Called ra (w_machine w)]> (w_suspended w)) |}.
Proof.
  intros [Hc Hns Hm Hsu] Hn Hra. destruct (Hsu n s Hn) as [HnT Hs]. assert (Hne : w_current w ≠ n) by (intros E; congruence).
  destruct (do_switch_resumes _ n ra _ s Hm Hc HnT Hne Hs) as (m2 & Hsw & Em & Hm' & Hr). split; [done|].
  split; cbn; [done|apply lookup_delete_eq|done|]. rewrite Em. intros k sk Hk.
  apply lookup_delete_Some in Hk as [Hkn Hk]. apply lookup_insert_Some in Hk as [[<- <-]|[Hkc Hk]].
  - split; [done|]. by eapply do_switch_suspends.
  - destruct (Hsu k sk Hk) as [HkT Hks]. split; [done|]. eapply susp_ok_keeps; [|done]. by apply (do_switch_keeps (w_current w) n ra (w_machine w) s); try apply not_eq_sym.
Qed.

Lemma step_world_ok w w' : step w w' → world_ok w → world_ok w'.
Proof.
  destruct 1 as [w m' Hm' Hk|w m' h c Hm' Hk HhT Hhc Hh Hs|w n ra [s Hn] Hra]; intros Hw.
  - destruct Hw as [Hc Hns _ Hsu]. split; cbn; try done. intros h s Hh. destruct (Hsu h s Hh) as [HT Hs]. split; [done|].
    eapply susp_ok_keeps; [by apply Hk|done].
  - destruct Hw as [Hc Hns _ Hsu]. split; cbn; try done; [by rewrite lookup_insert_ne|].
    intros k sk [[<- <-]|[Hne Hk']]%lookup_insert_Some; [done|]. destruct (Hsu k sk Hk') as [HT Hs']. split; [done|].
    eapply susp_ok_keeps; [by apply Hk|done].
  - by eapply world_switch.
Qed.

(** C13: Whatever the threads of the kernel do and however often they switch, a switch
    to a thread that gave up the processor in [context_switch] returns from that
    call: at its return address, with the stack pointer, the callee-saved registers
    and the whole stack it had, and with interrupts on. A thread that has not run
    starts with the registers of its context. The other suspended threads stay
    resumable. *)
Theorem threads_resume w0 w n s ra : world_ok w0 → rtc step w0 w → w_suspended w !! n = Some s → is_u64 ra →
  let m' := do_switch (w_current w) n ra (w_machine w) in
  resumes n s m' ∧ machine_ok n m' ∧
  ∀ h sh, h ≠ n → w_suspended w !! h = Some sh → susp_ok (mmem m') h sh.
Proof.
  intros H0 Hrun Hn Hra m'. assert (Hw : world_ok w).
  { revert H0. induction Hrun as [|w1 w2 w3 Hst _ IH]; [done|]. intros H1. by apply IH, (step_world_ok w1). }
  destruct (world_switch w n ra s Hw Hn Hra) as [Hr [_ _ Hm Hs]].
  cbn [w_machine w_current w_suspended] in Hm, Hs. split; [exact Hr|]. split; [exact Hm|]. intros h sh Hne Hh. apply Hs. assert (w_current w ≠ h) by (intros <-; destruct Hw; congruence).
  rewrite lookup_delete_ne, lookup_insert_ne by (try apply not_eq_sym; done). exact Hh.
Qed.
End Threads.

(** ** Two threads *)
Definition demo_label : Z := 0xFFFFFFFF80001080.
Definition demo_threads : gset positive := {[1%positive; 2%positive]}.
Definition demo_ctx (h : positive) : Z := 0x10000 + 0x100 * Zpos h.
Definition demo_stack (h : positive) : Z := 0x100000 * Zpos h.
Definition demo_context : CpuContext := fresh_context 0xFFFFFFFF80005000 (demo_stack 2 + KERNEL_STACK_SIZE).
Definition demo_memory : mem :=
  store64 (store64 (store64 (λ _, 0) (demo_ctx 2 + 48) (rsp demo_context)) (demo_ctx 2 + 56) (Proc.rip demo_context)) (demo_ctx 2 + 64) 0x202.
Definition demo_first : machine := {|
  regs := λ r, match r with RSP => demo_stack 1 + 0x3000 | RBX => 7 | R12 => 12 | _ => 0 end;
  rip := 0xFFFFFFFF80001000; cs := 8; rflags := 0x202; ss := 16; gs_base := 0; kernel_gs_base := 0; star := 0; mmem := demo_memory |}.
Definition demo_world : world := {| w_machine := demo_first; w_current := 1; w_suspended := {[2%positive := Fresh demo_context demo_memory]} |}.

Lemma demo_threads_cases h : h ∈ demo_threads → h = 1%positive ∨ h = 2%positive.
Proof. unfold demo_threads. set_solver. Qed.
Lemma demo_layout : layout demo_label demo_threads demo_ctx demo_stack.
Proof.
  split; unfold in_ctx, in_stack, CTX_SIZE, demo_ctx, demo_stack; [unfold is_u64, demo_label; lia|..].
  - intros h [-> | ->]%demo_threads_cases; lia.
  - intros h [-> | ->]%demo_threads_cases; lia.
  - intros h n x _ _ Hne. assert (Zpos h ≠ Zpos n) by congruence. lia.
  - intros h n x _ _ Hne. assert (Zpos h ≠ Zpos n) by congruence. lia.
  - intros h n x [-> | ->]%demo_threads_cases [-> | ->]%demo_threads_cases; lia.
Qed.
Lemma demo_machine_ok : machine_ok demo_stack 1 demo_first.
Proof. split; [intros []; unfold is_u64, demo_first, demo_stack; cbn; lia|unfold is_u64; cbn; lia|unfold demo_stack; cbn; unfold demo_stack; lia]. Qed.
Lemma demo_world_ok : world_ok demo_label demo_threads demo_ctx demo_stack demo_world.
Proof.
  split; [unfold demo_threads; set_solver|done|exact demo_machine_ok|]. intros h s Hh. cbn [demo_world w_suspended] in Hh. apply lookup_singleton_Some in Hh as [<- <-].
  split; [unfold demo_threads; set_solver|]. split; [vm_compute; reflexivity|done|]. split; [done|unfold demo_context, fresh_context, demo_stack; cbn; lia].
Qed.

Definition demo_world2 : world := {|
  w_machine := do_switch demo_label demo_ctx 1 2 0x5000 demo_first; w_current := 2;
  w_suspended := delete 2%positive (<[1%positive := Called 0x5000 demo_first]> (w_suspended demo_world)) |}.

Lemma threads_resume_witness : let m2 := do_switch demo_label demo_ctx (w_current demo_world2) 1 0x6000 (w_machine demo_world2) in
  rip m2 = 0x5000 ∧ regs m2 <$> callee_saved = regs demo_first <$> callee_saved.
Proof.
  destruct (threads_resume demo_label demo_threads demo_ctx demo_stack demo_layout demo_world demo_world2
    1 (Called 0x5000 demo_first) 0x6000 demo_world_ok) as [(H1 & H2 & _) _].
  - apply rtc_once. apply (StepSwitch _ _ _ _ demo_world); [by eexists|unfold is_u64; lia].
  - reflexivity.
  - unfold is_u64. lia.
  - exact (conj H1 H2).
Defined.

(** ** A forked child and a new process on the demo machine *)

(** Memory in which [c] is stored at [p]. *)
Definition ctx_words c : list Z :=
  [r15 c; r14 c; r13 c; r12 c; rbp c; rbx c; rsp c; Proc.rip c; Proc.rflags c; Proc.cs c; Proc.ss c].
Fixpoint store_words f p (l : list Z) : mem :=
  match l with [] => f | v :: l => store64 (store_words f (p + 8) l) p v end.

Lemma store_words_other l : ∀ f p x, x < p ∨ p + 8 * length l ≤ x → store_words f p l x = f x.
Proof.
  induction l as [|v l IH]; intros f p x Hx; cbn [store_words length] in *; [done|].
  rewrite store64_other by lia. apply IH. lia.
Qed.

Lemma load_words f l : ∀ p (i : nat) v, l !! i = Some v → is_u64 v → load64 (store_words f p l) (p + 8 * i) = v.
Proof.
  induction l as [|v0 l IH]; intros p i v Hi Hv; [done|]. cbn [store_words]. destruct i as [|i].
  - injection Hi as <-. rewrite Z.mul_0_r, Z.add_0_r. by apply load_store64.
  - rewrite load_store64_other by lia. replace (p + 8 * S i) with (p + 8 + 8 * i) by lia. by apply IH.
Qed.

Lemma load_ctx_store f p c : Forall is_u64 (ctx_words c) → load_ctx (store_words f p (ctx_words c)) p = c.
Proof.
  intros Hc. assert (Hw : ∀ (i : nat) v, ctx_words c !! i = Some v → load64 (store_words f p (ctx_words c)) (p + 8 * i) = v).
  { intros i v Hi. apply load_words; [done|]. by eapply Forall_lookup_1. }
  destruct c. unfold load_ctx. f_equal; [rewrite <- (Z.add_0_r p) at 2; exact (Hw 0%nat _ eq_refl)|..].
  - exact (Hw 1%nat _ eq_refl).
  - exact (Hw 2%nat _ eq_refl).
  - exact (Hw 3%nat _ eq_refl).
  - exact (Hw 4%nat _ eq_refl).
  - exact (Hw 5%nat _ eq_refl).
  - exact (Hw 6%nat _ eq_refl).
  - exact (Hw 7%nat _ eq_refl).
  - exact (Hw 8%nat _ eq_refl).
  - exact (Hw 9%nat _ eq_refl).
  - exact (Hw 10%nat _ eq_refl).
Qed.

(** The machine that starts [child] in memory [f]. *)
Definition demo_start f (child : Process) : machine := {|
  regs := λ r, if decide (r = RDI) then 0x5000 else demo_stack 1 + 0x3000;
  rip := 0; cs := 8; rflags := 0x202; ss := 16; gs_base := 0x8000; kernel_gs_base := 0; star := 0;
  mmem := store_words f 0x5000 (ctx_words (context child)) |}.

Section Demo.
#[local] Existing Instance qemu_hhdm.

Lemma demo_not_short : ¬ short_of_memory demo_F {[ [] := demo_P ]}.
Proof.
  intros [H|(C & HC & Hs & Hno)]; rewrite map_size_singleton in *; [pose proof demo_F_size; lia|].
  apply size_1_elem_of in Hs as [f Hf]. apply leibniz_equiv_iff in Hf. subst C.
  assert (Hb : ∀ k, 0 ≤ k ≤ 2 → ∃ g, 512 + 4 * k ≤ g < 516 + 4 * k ∧ (g = demo_P / PAGE_SIZE ∨ g = f)).
  { intros k Hk. assert (block_ok 2 (4096 * (512 + 4 * k))) as Hp.
    { split; [lia|]. split; [|change PAGE_SIZE with 4096; cbn; lia]. change (PAGE_SIZE * 2 ^ 2%nat) with 16384. dlia. }
    destruct (decide (demo_P / PAGE_SIZE ∈ block_set 2 (4096 * (512 + 4 * k)) ∨ f ∈ block_set 2 (4096 * (512 + 4 * k)))) as [Hin|Hout].
    - setoid_rewrite block_set_elem in Hin. setoid_rewrite block_frames_elem in Hin. change (2 ^ 2%nat) with 4 in Hin.
      replace (4096 * (512 + 4 * k) / PAGE_SIZE) with (512 + 4 * k) in Hin by (change PAGE_SIZE with 4096; dlia).
      destruct Hin as [Hin|Hin]; [exists (demo_P / PAGE_SIZE)|exists f]; (split; [|tauto]); lia.
    - destruct (Hno _ Hp). intros g Hg. unfold demo_F. rewrite !elem_of_difference, !elem_of_singleton, demo_frames.
      split; [split; [|intros ->; tauto]|intros ->; tauto]. apply block_set_elem, block_frames_elem in Hg. change (2 ^ 2%nat) with 4 in Hg.
      replace (4096 * (512 + 4 * k) / PAGE_SIZE) with (512 + 4 * k) in Hg by (change PAGE_SIZE with 4096; dlia). lia. }
  destruct (Hb 0) as (g0 & ? & ?), (Hb 1) as (g1 & ? & ?), (Hb 2) as (g2 & ? & ?); lia.
Qed.

(** The child that the process of [demo_rq] forks, started at once. *)
Lemma forked_child_start_witness : ∃ s' rq' (c : positive) (child : Process),
  sys_fork_simple 0xFFFFFFFF80003000 demo_s demo_rq = Ret (1, s', rq') ∧ procs demo_rq !! c = None ∧ procs rq' !! c = Some child ∧
  let top := kernel_stack child + kernel_stack_size child in
  let m' := run id fork_child_return_asm (run id jump_to_context_asm (demo_start (ram s') child)) in
  rip m' = load64 (ram s') (top + 48) ∧ regs m' RAX = 0.
Proof.
  destruct (fork_refines 0xFFFFFFFF80003000 signal_mask true demo_s demo_F demo_P {[ [] := demo_P ]} demo_rq 1
    (set_state Running demo_parent) (reachable_inv _ demo_rq_reachable) eq_refl eq_refl eq_refl (proj1 demo_space_inv)
    demo_no_large) as (ret & s' & rq' & E & _ & [(_ & _ & _ & _ & H)|(-> & H)]);
    [destruct (demo_not_short (H eq_refl))|].
  destruct H as [(c & child & Hc & Ep & _ & _ & _ & _ & _ & _ & _ & _ & _ & _ & _ & _ & _ & F' & C & k & Ek & Ez & Ect & _ & _ & Hk & _) _].
  assert (Hc' : procs rq' !! c = Some child) by by rewrite Ep, lookup_insert_eq.
  exists s', rq', c, child. split_and!; [exact E|done|done|]. intros top m'.
  assert (Ht : 0xFFFF800000000000 < top ∧ top + 4096 < U64).
  { destruct Hk as (Hk0 & Hk1 & Hk). change (PAGE_SIZE * 2 ^ 2%nat) with 16384 in *. unfold top. rewrite Ek, Ez.
    unfold table_at. change hhdm_offset with 0xFFFF800000000000. change KERNEL_STACK_SIZE with 16384. lia. }
  destruct (forked_child_start 0xFFFFFFFF80003000 true demo_s demo_F demo_P {[ [] := demo_P ]} demo_rq 1
    (set_state Running demo_parent) 1 s' rq' c child (demo_start (ram s') child)) as (_ & (H1 & _) & _ & _ & H2); fold top.
  - exact (reachable_inv _ demo_rq_reachable).
  - reflexivity.
  - reflexivity.
  - reflexivity.
  - exact (proj1 demo_space_inv).
  - exact demo_no_large.
  - exact E.
  - exact Hc.
  - exact Hc'.
  - apply load_ctx_store. rewrite Ect. unfold top in Ht. rewrite Ek, Ez in Ht. repeat constructor; cbn; lia.
  - right. change (regs (demo_start (ram s') child) RDI) with 0x5000. unfold CTX_SIZE. lia.
  - left. change (gs_base (demo_start (ram s') child)) with 0x8000. lia.
  - intros x Hx. cbn [demo_start mmem]. apply store_words_other. change (length (ctx_words _)) with 11%nat. lia.
  - exact (conj H1 H2).
Defined.

Lemma new_user_runs_witness : ∃ (p : Process) s' rq' rsp_,
  new_user_process 0x1000 0xFFFFFFFF80002000 [104; 105] HELLO_ELF demo_argv [] 10 demo_state boot = Ret (Ok p, s', rq') ∧
  ∀ m, load_ctx (mmem m) (regs m RDI) = context p → slot_apart (rsp (context p)) (regs m RDI) →
    (∀ x, kernel_stack p ≤ x < kernel_stack p + KERNEL_STACK_SIZE → mmem m x = ram s' x) → 0 ≤ kernel_stack p →
    let m' := run id iretq_trampoline_asm (run id jump_to_context_asm m) in
    (rip m', cs m', rflags m', regs m' RSP, ss m') = (0x400078 + 0, 0x23, 0x202, rsp_, 0x1B) ∧
    regs m' <$> [RBX; RBP; R12; R13; R14; R15] = replicate 6 0.
Proof.
  destruct (new_user_runs 0x1000 0xFFFFFFFF80002000 demo_state (usable_frames demo_map) boot
    HELLO_ELF (read_ehdr HELLO_ELF) demo_argv [] [104; 105] 10 0x200000) as (p & s' & rq' & F' & T' & D' & rsp_ & E & _ & _ & _ & _ & H).
  - exact demo_inv.
  - split; [lia|reflexivity].
  - lia.
  - exact demo_frame_1.
  - exact hello_startable.
  - by vm_compute.
  - pose proof demo_usable_size. change (exec_frames _ _ _) with 69. lia.
  - split; [lia|]. split; [reflexivity|]. cbn. lia.
  - intros f Hf. apply demo_frames. apply block_set_elem, block_frames_elem in Hf.
    change (0x200000 / PAGE_SIZE) with 512 in Hf. change (2 ^ 2%nat) with 4 in Hf. lia.
  - exists p, s', rq', rsp_. exact (conj E H).
Defined.
End Demo.
