(* ===== verification/Ide.v ===== *)
(** The ATA PIO disk driver, [src/src/drivers/ide.rs], over the processor's
    port instructions, and an ATA device it is run against, with drives of a given
    number of sectors. *)
From S2P Require Import Prelude Effects Text Ports.

Definition PRIMARY_BASE := 0x1F0.
Definition PRIMARY_CTRL := 0x3F6.
Definition SECONDARY_BASE := 0x170.
Definition SECONDARY_CTRL := 0x376.

Definition REG_DATA := 0.
Definition REG_FEATURES := 1.
Definition REG_SECCOUNT := 2.
Definition REG_LBA0 := 3.
Definition REG_LBA1 := 4.
Definition REG_LBA2 := 5.
Definition REG_HDDEVSEL := 6.
Definition REG_STATUS := 7.
Definition REG_COMMAND := 7.

Definition SR_BSY := 0x80.
Definition SR_DRQ := 0x08.
Definition SR_ERR := 0x01.
Definition SR_DF := 0x20.

Definition CMD_READ_PIO := 0x20.
Definition CMD_READ_PIO_EX := 0x24.
Definition CMD_WRITE_PIO := 0x30.
Definition CMD_WRITE_PIO_EX := 0x34.
Definition CMD_CACHE_FLUSH := 0xE7.
Definition CMD_IDENTIFY := 0xEC.

Definition SECTOR_SIZE := 512.

(** The error messages, as numbers. *)
Definition BSY_TIMEOUT : Errno := 1.
Definition ATA_ERROR : Errno := 2.
Definition DRQ_TIMEOUT : Errno := 3.
Definition NO_SUCH_DRIVE : Errno := 4.
Definition FLUSH_TIMEOUT : Errno := 5.

(** A detected drive *)
Record Drive : Type := {
  channel : Z;
  drive : Z;
  lba48 : bool;
  sectors : Z;
  model : str;
  serial : str;
  base : Z;
  ctrl : Z
}.

Definition size_mb (d : Drive) : exec Z := n ← u64_mul (sectors d) SECTOR_SIZE; Ret (n / 1024 / 1024).

(** The characters that [str::trim_end] removes, in UTF-8. *)
Definition white_space : list str :=
  [[9]; [10]; [11]; [12]; [13]; [32]; [0xC2; 0x85]; [0xC2; 0xA0]; [0xE1; 0x9A; 0x80]] ++
  ((λ b, [0xE2; 0x80; b]) <$> seqZ 0x80 11 ++ [0xA8; 0xA9; 0xAF]) ++ [[0xE2; 0x81; 0x9F]; [0xE3; 0x80; 0x80]].
Definition ends_in (s c : str) : bool := bool_decide (drop (length s - length c) s = c ∧ (length c ≤ length s)%nat).
Fixpoint trim_loop (n : nat) (s : str) : str :=
  match n with
  | O => s
  | S n => match List.find (ends_in s) white_space with Some c => trim_loop n (take (length s - length c) s) | None => s end
  end.
Definition trim_white (s : str) : str := trim_loop (length s) s.

(** The slice is in range: an IDENTIFY block has 256 words. *)
Definition ata_string (words : list Z) (word_start word_count : nat) : str :=
  let bytes := take word_count (drop word_start words) ≫= λ w, [Z.shiftr w 8 mod 256; Z.land w 0xFF] in
  if utf8_valid bytes then trim_white bytes else [].

Section Driver.
Context {D : Type} {ports : Ports D}.

Definition status (base : Z) : op D Z := inb (base + REG_STATUS).

Definition delay400 (ctrl : Z) : op D unit :=
  _ ← inb ctrl; _ ← inb ctrl; _ ← inb ctrl; _ ← inb ctrl; mret ().

(** The polling loops make at most [100_000] turns. *)
Definition POLLS : nat := Z.to_nat 100000.

Fixpoint wait_bsy_loop (n : nat) (base : Z) : op D bool :=
  match n with
  | O => mret false
  | S n =>
      s ← status base;
      if Z.land s SR_BSY =? 0 then mret true else wait_bsy_loop n base
  end.
Definition wait_bsy (base : Z) : op D bool := wait_bsy_loop POLLS base.

Fixpoint wait_drq_loop (n : nat) (base : Z) : op D unit :=
  match n with
  | O => err DRQ_TIMEOUT
  | S n =>
      s ← status base;
      if negb (Z.land s SR_ERR =? 0) || negb (Z.land s SR_DF =? 0) then err ATA_ERROR
      else if negb (Z.land s SR_DRQ =? 0) then mret ()
      else wait_drq_loop n base
  end.
Definition wait_drq (base : Z) : op D unit := wait_drq_loop POLLS base.

Definition select_drive (base ctrl drive lba_top : Z) : op D unit :=
  _ ← outb (base + REG_HDDEVSEL)
        (Z.lor (Z.lor 0xE0 (Z.shiftl (Z.land drive 1) 4)) (Z.land lba_top 0x0F));
  delay400 ctrl.

(** [n] words from the data register *)
Fixpoint in_words (n : nat) (base : Z) : op D (list Z) :=
  match n with
  | O => mret []
  | S n => w ← inw (base + REG_DATA); ws ← in_words n base; mret (w :: ws)
  end.

(** [n] words of [bs] to the data register, low byte first *)
Fixpoint out_words (n : nat) (base : Z) (bs : list Z) : op D unit :=
  match n, bs with
  | S n, lo :: hi :: bs =>
      _ ← outw (base + REG_DATA) (Z.lor lo (Z.shiftl hi 8)); out_words n base bs
  | _, _ => mret ()
  end.

Definition word_bytes (w : Z) : list Z := [Z.land w 0xFF; Z.land (Z.shiftr w 8) 0xFF].

(** [!wait_bsy(base)] returns with an error. *)
Definition require_ready (base : Z) (e : Errno) : op D unit :=
  b ← wait_bsy base; if b : bool then mret () else err e.

(** One turn of the sector loop of the read functions: the words of sector
    [sec] replace their 512 bytes of [buf]. *)
Definition read_sector (base ctrl : Z) (buf : list Z) (sec : Z) : op D (list Z) :=
  _ ← delay400 ctrl;
  _ ← require_ready base BSY_TIMEOUT;
  _ ← wait_drq base;
  ws ← in_words 256 base;
  let off := Z.to_nat (sec * SECTOR_SIZE) in
  mret (take off buf ++ (ws ≫= word_bytes) ++ drop (off + 512) buf).

Definition write_sector (base ctrl : Z) (buf : list Z) (sec : Z) : op D unit :=
  _ ← delay400 ctrl;
  _ ← require_ready base BSY_TIMEOUT;
  _ ← wait_drq base;
  out_words 256 base (drop (Z.to_nat (sec * SECTOR_SIZE)) buf).

(** The task file of an LBA28 command: [lba] is a [u32], [count] a [u8]. *)
Definition setup_lba28 (base ctrl drive lba count cmd : Z) : op D unit :=
  _ ← select_drive base ctrl drive (Z.land (Z.shiftr lba 24) 0x0F);
  _ ← require_ready base BSY_TIMEOUT;
  _ ← outb (base + REG_FEATURES) 0;
  _ ← outb (base + REG_SECCOUNT) count;
  _ ← outb (base + REG_LBA0) (Z.land lba 0xFF);
  _ ← outb (base + REG_LBA1) (Z.land (Z.shiftr lba 8) 0xFF);
  _ ← outb (base + REG_LBA2) (Z.land (Z.shiftr lba 16) 0xFF);
  outb (base + REG_COMMAND) cmd.

(** The task file of an LBA48 command: each register is written twice, its
    high byte first. *)
Definition setup_lba48 (base ctrl drive lba count cmd : Z) : op D unit :=
  _ ← select_drive base ctrl drive 0;
  _ ← require_ready base BSY_TIMEOUT;
  _ ← outb (base + REG_FEATURES) 0;
  _ ← outb (base + REG_FEATURES) 0;
  _ ← outb (base + REG_SECCOUNT) (Z.land (Z.shiftr count 8) 0xFF);
  _ ← outb (base + REG_LBA0) (Z.land (Z.shiftr lba 24) 0xFF);
  _ ← outb (base + REG_LBA1) (Z.land (Z.shiftr lba 32) 0xFF);
  _ ← outb (base + REG_LBA2) (Z.land (Z.shiftr lba 40) 0xFF);
  _ ← outb (base + REG_SECCOUNT) (Z.land count 0xFF);
  _ ← outb (base + REG_LBA0) (Z.land lba 0xFF);
  _ ← outb (base + REG_LBA1) (Z.land (Z.shiftr lba 8) 0xFF);
  _ ← outb (base + REG_LBA2) (Z.land (Z.shiftr lba 16) 0xFF);
  outb (base + REG_COMMAND) cmd.

Definition read_lba28 (base ctrl drive lba count : Z) (buf : list Z) : op D (list Z) :=
  _ ← setup_lba28 base ctrl drive lba count CMD_READ_PIO;
  op_fold (read_sector base ctrl) (seqZ 0 count) buf.

Definition read_lba48 (base ctrl drive lba count : Z) (buf : list Z) : op D (list Z) :=
  _ ← setup_lba48 base ctrl drive lba count CMD_READ_PIO_EX;
  op_fold (read_sector base ctrl) (seqZ 0 count) buf.

Definition flush_cache (base : Z) : op D unit :=
  _ ← outb (base + REG_COMMAND) CMD_CACHE_FLUSH;
  require_ready base FLUSH_TIMEOUT.

Definition write_lba28 (base ctrl drive lba count : Z) (buf : list Z) : op D unit :=
  _ ← setup_lba28 base ctrl drive lba count CMD_WRITE_PIO;
  _ ← op_fold (λ _ sec, write_sector base ctrl buf sec) (seqZ 0 count) ();
  flush_cache base.

Definition write_lba48 (base ctrl drive lba count : Z) (buf : list Z) : op D unit :=
  _ ← setup_lba48 base ctrl drive lba count CMD_WRITE_PIO_EX;
  _ ← op_fold (λ _ sec, write_sector base ctrl buf sec) (seqZ 0 count) ();
  flush_cache base.

(** [with_drive] looks an index up; [drive_info] returns a copy of the entry. *)
Definition with_drive {A} (DRIVES : list Drive) (idx : Z) (f : Drive → A) : option A := f <$> DRIVES !! Z.to_nat idx.
Definition drive_info (DRIVES : list Drive) (idx : Z) : option Drive := DRIVES !! Z.to_nat idx.
Definition drive_count (DRIVES : list Drive) : Z := length DRIVES.

(** [DRIVES] is filled once by [init]; the transfers below read it. [buf] is
    the caller's buffer; the result is its contents after a successful read. *)
Definition read_sectors (DRIVES : list Drive) (idx lba count : Z) (buf : list Z) : op D (list Z) :=
  _ ← check (assert_ (length buf =? count * SECTOR_SIZE));
  match DRIVES !! Z.to_nat idx with
  | None => err NO_SUCH_DRIVE
  | Some d =>
      if lba48 d then read_lba48 (base d) (ctrl d) (drive d) lba count buf
      else read_lba28 (base d) (ctrl d) (drive d) (lba mod U32) (count mod 256) buf
  end.

Definition write_sectors (DRIVES : list Drive) (idx lba count : Z) (buf : list Z) : op D unit :=
  _ ← check (assert_ (length buf =? count * SECTOR_SIZE));
  match DRIVES !! Z.to_nat idx with
  | None => err NO_SUCH_DRIVE
  | Some d =>
      if lba48 d then write_lba48 (base d) (ctrl d) (drive d) lba count buf
      else write_lba28 (base d) (ctrl d) (drive d) (lba mod U32) (count mod 256) buf
  end.

(** ** Detection *)
Definition identify (base ctrl drive_sel : Z) : op D (option (list Z)) :=
  _ ← outb (base + REG_HDDEVSEL) (Z.lor 0xA0 (Z.shiftl (Z.land drive_sel 1) 4));
  _ ← delay400 ctrl;
  _ ← outb (base + REG_SECCOUNT) 0;
  _ ← outb (base + REG_LBA0) 0;
  _ ← outb (base + REG_LBA1) 0;
  _ ← outb (base + REG_LBA2) 0;
  _ ← outb (base + REG_COMMAND) CMD_IDENTIFY;
  _ ← delay400 ctrl;
  s ← inb (base + REG_STATUS);
  if s =? 0 then mret None else
  ready ← wait_bsy base;
  if negb ready then mret None else
  lba1 ← inb (base + REG_LBA1);
  lba2 ← inb (base + REG_LBA2);
  if negb (lba1 =? 0) || negb (lba2 =? 0) then mret None else
  try_catch (wait_drq base)
    (λ _, ws ← in_words 256 base; mret (Some ws))
    (λ _, mret None).

Definition id_word (id : list Z) (k : nat) : Z := nth k id 0.

(** The number of sectors an IDENTIFY block reports. *)
Definition id_sectors (id : list Z) (is48 : bool) : Z :=
  if is48 then
    Z.lor (Z.lor (Z.lor (id_word id 100) (Z.shiftl (id_word id 101) 16))
                 (Z.shiftl (id_word id 102) 32)) (Z.shiftl (id_word id 103) 48)
  else Z.lor (id_word id 60) (Z.shiftl (id_word id 61) 16).

Definition probe_drive_sel (chan base ctrl : Z) (found : list Drive) (drive_sel : Z) : op D (list Drive) :=
  r ← identify base ctrl drive_sel;
  match r with
  | None => mret found
  | Some id =>
      let is48 := negb (Z.land (id_word id 83) 0x400 =? 0) in
      let n := id_sectors id is48 in
      if n =? 0 then mret found
      else mret (found ++ [{| channel := chan; drive := drive_sel; lba48 := is48; sectors := n;
                              model := ata_string id 27 20; serial := ata_string id 10 10; base := base; ctrl := ctrl |}])
  end.

Definition probe_channel (chan base ctrl : Z) (found : list Drive) : op D (list Drive) :=
  op_fold (probe_drive_sel chan base ctrl) [0; 1] found.

(** [init]; the result is the new [DRIVES]. The message about each drive computes
    its size. *)
Definition init : op D (list Drive) :=
  l ← probe_channel 0 PRIMARY_BASE PRIMARY_CTRL [];
  l ← probe_channel 1 SECONDARY_BASE SECONDARY_CTRL l;
  _ ← check (mapM size_mb l);
  mret l.
End Driver.

(** ** An ATA device

    The PIO protocol of the ATA specification as the driver relies on it: a
    channel at [base] with up to two drives, task-file registers two deep (the
    previous write of a register is its high-order byte in LBA48 commands), a
    device that answers BSY for [latency] polls after a command and after each
    sector, and data moved one word at a time under DRQ. A disk maps a sector
    number to its 512 bytes. A command that reaches past the last sector of the
    drive is refused: the device reports an error, until the next command. *)
Definition disk := Z → list Z.

Record ata : Type := {
  disks : Z → disk;
  capacity : Z → Z;
  hddevsel : Z;
  sc : Z * Z;
  l0 : Z * Z;
  l1 : Z * Z;
  l2 : Z * Z;
  pending : list Z;
  incoming : option (Z * Z * list Z);
  failed : bool;
  busy : nat
}.

Definition selected (d : ata) : Z := Z.land (Z.shiftr (hddevsel d) 4) 1.

Fixpoint words_of (bs : list Z) : list Z :=
  match bs with
  | lo :: hi :: bs => Z.lor lo (Z.shiftl hi 8) :: words_of bs
  | _ => []
  end.

Definition sector_run (dk : disk) (lba : Z) (n : Z) : list Z :=
  seqZ lba n ≫= λ s, words_of (dk s).

Section Device.
Context (base ctrl : Z) (latency : nat).

Definition set_data (d : ata) (p : list Z) (i : option (Z * Z * list Z)) (b : nat) : ata :=
  {| disks := disks d; capacity := capacity d; hddevsel := hddevsel d; sc := sc d; l0 := l0 d; l1 := l1 d; l2 := l2 d;
     pending := p; incoming := i; failed := failed d; busy := b |}.

Definition status_byte (d : ata) : Z :=
  match busy d with
  | S _ => SR_BSY
  | O => Z.lor (if failed d then 0x41 else 0x40) (match pending d, incoming d with [], None => 0 | _, _ => SR_DRQ end)
  end.

Definition ata_in8 (p : Z) (d : ata) : Z * ata :=
  if p =? base + REG_STATUS then (status_byte d, set_data d (pending d) (incoming d) (pred (busy d)))
  else if p =? ctrl then (status_byte d, d)
  else (0, d).

(** BSY rises again at the end of each sector but the last. *)
Definition ata_in16 (p : Z) (d : ata) : Z * ata :=
  if p =? base + REG_DATA then
    match pending d with
    | [] => (0, d)
    | w :: ws =>
        (w, set_data d ws (incoming d)
              (match ws with [] => O | _ => if length ws mod 256 =? 0 then latency else O end))
    end
  else (0, d).

Definition lba28_of (d : ata) : Z :=
  (l0 d).1 + 256 * (l1 d).1 + 65536 * (l2 d).1 + 16777216 * (hddevsel d mod 16).
Definition lba48_of (d : ata) : Z :=
  (l0 d).1 + 256 * (l1 d).1 + 65536 * (l2 d).1 +
  16777216 * ((l0 d).2 + 256 * (l1 d).2 + 65536 * (l2 d).2).
Definition count28_of (d : ata) : Z := if (sc d).1 =? 0 then 256 else (sc d).1.
Definition count48_of (d : ata) : Z :=
  let n := (sc d).1 + 256 * (sc d).2 in if n =? 0 then 65536 else n.

(** A command of [n] sectors from [lba] is accepted if the drive has them. *)
Definition begin_ (d : ata) (p : list Z) (i : option (Z * Z * list Z)) (f : bool) : ata :=
  {| disks := disks d; capacity := capacity d; hddevsel := hddevsel d; sc := sc d; l0 := l0 d; l1 := l1 d; l2 := l2 d;
     pending := p; incoming := i; failed := f; busy := latency |}.
Definition begin_transfer (d : ata) (lba n : Z) (p : list Z) (i : option (Z * Z * list Z)) : ata :=
  if lba + n <=? capacity d (selected d) then begin_ d p i false else begin_ d [] None true.

Definition ata_command (c : Z) (d : ata) : ata :=
  let dk := disks d (selected d) in
  if c =? CMD_READ_PIO then begin_transfer d (lba28_of d) (count28_of d) (sector_run dk (lba28_of d) (count28_of d)) None
  else if c =? CMD_READ_PIO_EX then begin_transfer d (lba48_of d) (count48_of d) (sector_run dk (lba48_of d) (count48_of d)) None
  else if c =? CMD_WRITE_PIO then begin_transfer d (lba28_of d) (count28_of d) [] (Some (lba28_of d, count28_of d, []))
  else if c =? CMD_WRITE_PIO_EX then begin_transfer d (lba48_of d) (count48_of d) [] (Some (lba48_of d, count48_of d, []))
  else begin_ d [] None false.

Definition ata_out8 (p x : Z) (d : ata) : ata :=
  let shift (r : Z * Z) := (x, r.1) in
  let task s a b c dev := {| disks := disks d; capacity := capacity d; hddevsel := dev; sc := s; l0 := a; l1 := b; l2 := c;
                             pending := pending d; incoming := incoming d; failed := failed d; busy := busy d |} in
  if p =? base + REG_SECCOUNT then task (shift (sc d)) (l0 d) (l1 d) (l2 d) (hddevsel d)
  else if p =? base + REG_LBA0 then task (sc d) (shift (l0 d)) (l1 d) (l2 d) (hddevsel d)
  else if p =? base + REG_LBA1 then task (sc d) (l0 d) (shift (l1 d)) (l2 d) (hddevsel d)
  else if p =? base + REG_LBA2 then task (sc d) (l0 d) (l1 d) (shift (l2 d)) (hddevsel d)
  else if p =? base + REG_HDDEVSEL then task (sc d) (l0 d) (l1 d) (l2 d) x
  else if p =? base + REG_COMMAND then ata_command x d
  else d.

Definition store_sector (d : ata) (lba : Z) (bs : list Z) : Z → disk := λ k,
  if k =? selected d then λ s, if s =? lba then bs else disks d k s else disks d k.

(** A sector is stored when its last word arrives. *)
Definition ata_out16 (p x : Z) (d : ata) : ata :=
  if p =? base + REG_DATA then
    match incoming d with
    | None => d
    | Some (lba, n, bs) =>
        let bs' := bs ++ word_bytes x in
        if (length bs' =? 512) then
          {| disks := store_sector d lba bs'; capacity := capacity d; hddevsel := hddevsel d; sc := sc d; l0 := l0 d;
             l1 := l1 d; l2 := l2 d; pending := [];
             incoming := if n =? 1 then None else Some (lba + 1, n - 1, []);
             failed := failed d; busy := latency |}
        else set_data d (pending d) (Some (lba, n, bs')) (busy d)
    end
  else d.

#[global] Instance ata_ports : Ports ata := {
  port_in8 := ata_in8;
  port_in16 := ata_in16;
  port_out8 := ata_out8;
  port_out16 := ata_out16;
  port_in32 := λ _ d, (0, d);
  port_out32 := λ _ _ d, d
}.

(** ** The driver on the device *)
Implicit Types (d : ata) (dk : disk).
Hypothesis Hctrl : ¬ (base ≤ ctrl ≤ base + 7).
Hypothesis Hlat : (latency < POLLS)%nat.

Lemma set_data_id d : set_data d (pending d) (incoming d) (busy d) = d.
Proof. by destruct d. Qed.

Lemma delay400_ok d : delay400 ctrl d = Ret (Ok (), d).
Proof.
  assert (Hi : inb ctrl d = Ret (Ok (status_byte d), d)).
  { unfold inb, port_in8. simpl. unfold ata_in8, REG_STATUS.
    rewrite (proj2 (Z.eqb_neq _ _)) by lia. by rewrite Z.eqb_refl. }
  unfold delay400. by rewrite !(op_bind_ok _ _ _ _ _ Hi).
Qed.

Lemma status_ok d :
  status base d = Ret (Ok (status_byte d), set_data d (pending d) (incoming d) (pred (busy d))).
Proof. unfold status, inb, port_in8. simpl. unfold ata_in8. by rewrite Z.eqb_refl. Qed.

Lemma wait_bsy_loop_ok n d :
  (busy d < n)%nat →
  wait_bsy_loop n base d = Ret (Ok true, set_data d (pending d) (incoming d) 0).
Proof.
  revert d. induction n as [|n IH]; intros d Hn; [lia|]. cbn [wait_bsy_loop].
  rewrite (op_bind_ok _ _ _ _ _ (status_ok d)). unfold status_byte.
  destruct (busy d) as [|b] eqn:Hb.
  - by destruct (pending d), (incoming d), (failed d).
  - rewrite IH by (simpl; lia). done.
Qed.

Lemma require_ready_ok d e :
  (busy d < POLLS)%nat →
  require_ready base e d = Ret (Ok (), set_data d (pending d) (incoming d) 0).
Proof.
  intros. unfold require_ready, wait_bsy. by rewrite (op_bind_ok _ _ _ _ _ (wait_bsy_loop_ok _ _ H)).
Qed.

(** The device has data to move. *)
Definition drq d : Prop := pending d ≠ [] ∨ incoming d ≠ None.

Lemma wait_drq_ok d : busy d = O → failed d = false → drq d → wait_drq base d = Ret (Ok (), d).
Proof.
  intros Hb Hf Hd. unfold wait_drq, POLLS. replace (Z.to_nat 100000) with (S (Z.to_nat 99999)) by lia.
  cbn [wait_drq_loop]. rewrite (op_bind_ok _ _ _ _ _ (status_ok d)). unfold status_byte. rewrite Hb, Hf.
  replace (set_data d (pending d) (incoming d) (pred 0)) with d by (rewrite <- (set_data_id d) at 1; by rewrite Hb).
  destruct Hd. all: by destruct (pending d), (incoming d).
Qed.

Lemma wait_drq_err d : busy d = O → failed d = true → wait_drq base d = Ret (Err ATA_ERROR, d).
Proof.
  intros Hb Hf. unfold wait_drq, POLLS. replace (Z.to_nat 100000) with (S (Z.to_nat 99999)) by lia.
  cbn [wait_drq_loop]. rewrite (op_bind_ok _ _ _ _ _ (status_ok d)). unfold status_byte. rewrite Hb, Hf.
  replace (set_data d (pending d) (incoming d) (pred 0)) with d by (rewrite <- (set_data_id d) at 1; by rewrite Hb).
  by destruct (pending d), (incoming d).
Qed.

(** ** Reading *)
Definition end_busy (rest : list Z) : nat :=
  match rest with [] => O | _ => if length rest mod 256 =? 0 then latency else O end.

Lemma end_busy_lt rest : (end_busy rest < POLLS)%nat.
Proof. unfold end_busy. destruct rest; [|destruct (_ =? 0)]; unfold POLLS in *; lia. Qed.

Lemma inw_ok d w ws :
  pending d = w :: ws →
  inw (base + REG_DATA) d = Ret (Ok w, set_data d ws (incoming d) (end_busy ws)).
Proof. intros Hp. unfold inw, port_in16. simpl. unfold ata_in16. rewrite Z.eqb_refl, Hp. done. Qed.

Lemma in_words_ok ws d rest :
  ws ≠ [] → pending d = ws ++ rest →
  in_words (length ws) base d = Ret (Ok ws, set_data d rest (incoming d) (end_busy rest)).
Proof.
  revert d. induction ws as [|w ws IH]; intros d Hne Hp; [done|]. cbn [length in_words].
  rewrite (op_bind_ok _ _ _ _ _ (inw_ok d w (ws ++ rest) Hp)).
  destruct ws as [|w' ws']; [done|].
  by erewrite op_bind_ok by (apply IH; done).
Qed.

Definition splice (buf : list Z) (off : nat) (bs : list Z) : list Z :=
  take off buf ++ bs ++ drop (off + length bs) buf.

Lemma read_sector_ok d buf sec ws rest :
  pending d = ws ++ rest → length ws = 256%nat → (busy d < POLLS)%nat → failed d = false →
  length (ws ≫= word_bytes) = 512%nat →
  read_sector base ctrl buf sec d =
    Ret (Ok (splice buf (Z.to_nat (sec * 512)) (ws ≫= word_bytes)),
         set_data d rest (incoming d) (end_busy rest)).
Proof.
  intros Hp Hl Hb Hfl H512. unfold read_sector, splice. rewrite (op_bind_ok _ _ _ _ _ (delay400_ok d)).
  rewrite (op_bind_ok _ _ _ _ _ (require_ready_ok d _ Hb)).
  assert (Hne : ws ≠ []) by (by intros ->).
  erewrite op_bind_ok by (apply wait_drq_ok; [done|done|left; simpl; rewrite Hp; by destruct ws]).
  pose proof (in_words_ok ws (set_data d (pending d) (incoming d) 0) rest Hne Hp) as E. rewrite Hl in E.
  rewrite (op_bind_ok _ _ _ _ _ E). by rewrite H512.
Qed.

Definition is_byte (b : Z) : Prop := 0 ≤ b < 256.
Definition disk_ok dk : Prop := ∀ s, length (dk s) = 512%nat ∧ Forall is_byte (dk s).

Lemma word_bytes_pair lo hi : is_byte lo → is_byte hi → word_bytes (Z.lor lo (Z.shiftl hi 8)) = [lo; hi].
Proof.
  unfold is_byte, word_bytes. intros. f_equal; [|f_equal].
  - change 0xFF with (Z.ones 8). rewrite Z.land_lor_distr_l, !Z.land_ones, Z.shiftl_mul_pow2 by lia.
    rewrite Z.mod_mul, Z.lor_0_r by lia. apply Z.mod_small. lia.
  - rewrite Z.shiftr_lor, Z.shiftr_shiftl_l, Z.shiftr_div_pow2, Z.div_small by lia.
    rewrite Z.lor_0_l, Z.sub_diag, Z.shiftl_0_r. change 0xFF with (Z.ones 8).
    rewrite Z.land_ones by lia. apply Z.mod_small. lia.
Qed.

Lemma words_bytes n bs :
  length bs = (2 * n)%nat → Forall is_byte bs →
  length (words_of bs) = n ∧ words_of bs ≫= word_bytes = bs.
Proof.
  revert bs. induction n as [|n IH]; intros bs Hl Hf.
  { by destruct bs. }
  destruct bs as [|lo [|hi bs]]; simpl in Hl; [lia..|].
  inversion_clear Hf as [|?? Hlo Hf']. inversion_clear Hf' as [|?? Hhi Hf].
  destruct (IH bs ltac:(lia) Hf) as [IH1 IH2]. cbn [words_of length]. rewrite IH1.
  split; [done|]. rewrite bind_cons, IH2. by rewrite word_bytes_pair.
Qed.

Definition bytes_run dk (lba n : Z) : list Z := seqZ lba n ≫= dk.

Lemma seqZ_S lba (n : nat) : seqZ lba (S n) = lba :: seqZ (lba + 1) n.
Proof. rewrite seqZ_cons by lia. unfold Z.succ. do 2 f_equal. lia. Qed.

Lemma length_bytes_run dk lba (n : nat) : disk_ok dk → length (bytes_run dk lba n) = (n * 512)%nat.
Proof.
  intros Hd. unfold bytes_run. revert lba. induction n as [|n IH]; intros lba; [done|].
  rewrite seqZ_S, bind_cons, length_app, IH, (proj1 (Hd lba)). lia.
Qed.

Lemma splice_end buf k b1 b2 :
  (k + length b1 + length b2 ≤ length buf)%nat →
  splice (splice buf k b1) (k + length b1) b2 = splice buf k (b1 ++ b2).
Proof.
  intros H. unfold splice. rewrite length_app, Nat.add_assoc.
  assert (Ht : length (take k buf) = k) by (rewrite length_take; lia).
  rewrite (app_assoc (take k buf) b1).
  rewrite take_app_length' by (rewrite length_app; lia).
  rewrite (drop_app_ge (take k buf ++ b1)) by (rewrite length_app; lia).
  rewrite drop_drop, length_app, Ht, <- !app_assoc. do 4 f_equal. lia.
Qed.

Lemma read_run_ok dk (n : nat) : ∀ lba k d buf,
  disk_ok dk → 0 ≤ k → (Z.to_nat k * 512 + n * 512 ≤ length buf)%nat →
  pending d = sector_run dk lba n → (busy d < POLLS)%nat → failed d = false →
  op_fold (read_sector base ctrl) (seqZ k n) buf d =
    Ret (Ok (splice buf (Z.to_nat (k * 512)) (bytes_run dk lba n)),
         set_data d [] (incoming d) (if decide (n = 0%nat) then busy d else 0%nat)).
Proof.
  induction n as [|n IH]; intros lba k d buf Hdk Hk Hb Hp Hd Hfl.
  { unfold bytes_run, splice. simpl. rewrite Nat.add_0_r, take_drop.
    rewrite <- (set_data_id d) at 1. unfold sector_run in Hp. simpl in Hp. by rewrite Hp. }
  rewrite seqZ_S. cbn [op_fold]. unfold sector_run in Hp. rewrite seqZ_S, bind_cons in Hp.
  destruct (Hdk lba) as [Hl Hf]. destruct (words_bytes 256 (dk lba) Hl Hf) as [Hw Hbs].
  erewrite op_bind_ok.
  2: { eapply read_sector_ok; [exact Hp|done|done|done|]. by rewrite Hbs. }
  rewrite Hbs. erewrite (IH (lba + 1)); [|done|lia| |done|apply end_busy_lt|done].
  2: { unfold splice. rewrite !length_app, length_take, length_drop, Hl. lia. }
  unfold bytes_run. rewrite seqZ_S, bind_cons.
  replace (Z.to_nat ((k + 1) * 512)) with (Z.to_nat (k * 512) + length (dk lba))%nat by lia.
  fold (bytes_run dk (lba + 1) n).
  rewrite splice_end by (rewrite Hl, (length_bytes_run dk _ n Hdk); lia).
  rewrite (decide_False (P := S n = 0%nat)) by lia.
  do 2 f_equal. unfold set_data. simpl. case_decide; [|done]. by subst.
Qed.

(** ** The task file *)
Lemma eqb_base a b : (base + a =? base + b) = (a =? b).
Proof. destruct (Z.eqb_spec a b) as [->|]; [apply Z.eqb_refl|]. apply Z.eqb_neq. lia. Qed.

Lemma land_byte x k : 0 ≤ k → Z.land (Z.shiftr x k) 0xFF = (x / 2 ^ k) mod 256.
Proof. intros. change 0xFF with (Z.ones 8). by rewrite Z.land_ones, Z.shiftr_div_pow2 by lia. Qed.

Lemma land_low_byte x : Z.land x 0xFF = x mod 256.
Proof. change 0xFF with (Z.ones 8). by rewrite Z.land_ones by lia. Qed.

(** The registers hold a command for drive [drv]. *)
Definition programmed d (drv lba count : Z) (is48 : bool) : Prop :=
  selected d = Z.land drv 1 ∧
  if is48 then lba48_of d = lba ∧ count48_of d = count
  else lba28_of d = lba ∧ count28_of d = count.

Lemma devsel_fields drv top :
  0 ≤ top → let x := Z.lor (Z.lor 0xE0 (Z.shiftl (Z.land drv 1) 4)) (Z.land top 0x0F) in
  Z.land (Z.shiftr x 4) 1 = Z.land drv 1 ∧ x mod 16 = top mod 16.
Proof.
  intros Ht. assert (Hd : Z.land drv 1 = 0 ∨ Z.land drv 1 = 1).
  { assert (Z.land drv 1 = drv mod 2) as -> by (apply (land_ones_mod drv 1); lia).
    pose proof (Z.mod_pos_bound drv 2). lia. }
  change 0x0F with (Z.ones 4). rewrite Z.land_ones by lia. change (2 ^ 4) with 16.
  pose proof (Z.mod_pos_bound top 16 ltac:(lia)) as Hm. set (t := top mod 16) in *. clearbody t.
  assert (t = 0 ∨ t = 1 ∨ t = 2 ∨ t = 3 ∨ t = 4 ∨ t = 5 ∨ t = 6 ∨ t = 7 ∨ t = 8 ∨ t = 9 ∨ t = 10 ∨
          t = 11 ∨ t = 12 ∨ t = 13 ∨ t = 14 ∨ t = 15) as Hc by lia.
  destruct Hd as [-> | ->]; repeat destruct Hc as [-> |Hc]; subst; done.
Qed.

Ltac out_step :=
  erewrite op_bind_ok by (unfold outb; reflexivity); simpl port_out8; unfold ata_out8 at 1;
  rewrite !eqb_base; simpl Z.eqb; cbv iota beta zeta.

Lemma setup_lba48_ok d drv lba count cmd :
  (busy d < POLLS)%nat → pending d = [] → incoming d = None → 0 ≤ lba → 0 < count < 65536 →
  ∃ d', setup_lba48 base ctrl drv lba count cmd d = Ret (Ok (), ata_command cmd d') ∧
        disks d' = disks d ∧ capacity d' = capacity d ∧ programmed d' drv (lba mod 2 ^ 48) count true.
Proof.
  intros Hb Hp Hi Hl Hc. unfold setup_lba48.
  set (d1 := ata_out8 (base + REG_HDDEVSEL) (Z.lor (Z.lor 0xE0 (Z.shiftl (Z.land drv 1) 4)) (Z.land 0 0x0F)) d).
  assert (Hsel : select_drive base ctrl drv 0 d = Ret (Ok (), d1)).
  { unfold select_drive. erewrite op_bind_ok by (unfold outb; reflexivity). apply delay400_ok. }
  rewrite (op_bind_ok _ _ _ _ _ Hsel). clear Hsel.
  subst d1. unfold ata_out8 at 1. rewrite !eqb_base. simpl Z.eqb. cbv iota beta zeta.
  erewrite op_bind_ok by (by apply require_ready_ok). unfold set_data.
  cbn [disks capacity hddevsel sc l0 l1 l2 pending incoming failed busy].
  repeat (out_step; cbn [disks capacity hddevsel sc l0 l1 l2 pending incoming failed busy fst snd]).
  unfold outb. simpl port_out8. unfold ata_out8. rewrite !eqb_base. simpl Z.eqb. cbv iota beta zeta.
  eexists. split; [reflexivity|]. split; [done|]. split; [done|].
  destruct (devsel_fields drv 0 ltac:(lia)) as [Hs _].
  split; [exact Hs|]. unfold lba48_of, count48_of. simpl l0. simpl l1. simpl l2. simpl sc. cbn [fst snd].
  rewrite !land_byte, !land_low_byte by lia. split; [dlia|].
  replace (count mod 256 + 256 * ((count / 2 ^ 8) mod 256)) with count by dlia.
  by rewrite (proj2 (Z.eqb_neq _ _)) by lia.
Qed.

Lemma setup_lba28_ok d drv lba count cmd :
  (busy d < POLLS)%nat → pending d = [] → incoming d = None → 0 ≤ lba → 0 < count < 256 →
  ∃ d', setup_lba28 base ctrl drv lba count cmd d = Ret (Ok (), ata_command cmd d') ∧
        disks d' = disks d ∧ capacity d' = capacity d ∧ programmed d' drv (lba mod 2 ^ 28) count false.
Proof.
  intros Hb Hp Hi Hl Hc. unfold setup_lba28.
  assert (Ht : Z.land (Z.shiftr lba 24) 0x0F = (lba / 2 ^ 24) mod 16).
  { change 0x0F with (Z.ones 4). by rewrite Z.land_ones, Z.shiftr_div_pow2 by lia. }
  rewrite Ht. set (top := (lba / 2 ^ 24) mod 16). assert (Htop : 0 ≤ top < 16) by (apply Z.mod_pos_bound; lia).
  set (d1 := ata_out8 (base + REG_HDDEVSEL)
               (Z.lor (Z.lor 0xE0 (Z.shiftl (Z.land drv 1) 4)) (Z.land top 0x0F)) d).
  assert (Hsel : select_drive base ctrl drv top d = Ret (Ok (), d1)).
  { unfold select_drive. erewrite op_bind_ok by (unfold outb; reflexivity). apply delay400_ok. }
  rewrite (op_bind_ok _ _ _ _ _ Hsel). clear Hsel.
  subst d1. unfold ata_out8 at 1. rewrite !eqb_base. simpl Z.eqb. cbv iota beta zeta.
  erewrite op_bind_ok by (by apply require_ready_ok). unfold set_data.
  cbn [disks capacity hddevsel sc l0 l1 l2 pending incoming failed busy].
  repeat (out_step; cbn [disks capacity hddevsel sc l0 l1 l2 pending incoming failed busy fst snd]).
  unfold outb. simpl port_out8. unfold ata_out8. rewrite !eqb_base. simpl Z.eqb. cbv iota beta zeta.
  eexists. split; [reflexivity|]. split; [done|]. split; [done|].
  destruct (devsel_fields drv top ltac:(lia)) as [Hs Hm].
  split; [exact Hs|]. unfold lba28_of, count28_of. simpl l0. simpl l1. simpl l2. simpl sc. cbn [fst snd].
  split; [|by rewrite (proj2 (Z.eqb_neq _ _)) by lia].
  cbn [hddevsel]. rewrite Hm, !land_byte, !land_low_byte by lia. subst top. dlia.
Qed.

(** ** Writing *)
Definition committed d (lba n : Z) (bs : list Z) : ata :=
  {| disks := store_sector d lba bs; capacity := capacity d; hddevsel := hddevsel d; sc := sc d; l0 := l0 d;
     l1 := l1 d; l2 := l2 d; pending := [];
     incoming := if n =? 1 then None else Some (lba + 1, n - 1, []); failed := failed d; busy := latency |}.

Lemma out_words_ok n : ∀ bs d lba c acc tl,
  incoming d = Some (lba, c, acc) → length bs = (2 * n)%nat → n ≠ 0%nat →
  (length acc + 2 * n = 512)%nat → Forall is_byte bs →
  out_words n base (bs ++ tl) d = Ret (Ok (), committed d lba c (acc ++ bs)).
Proof.
  induction n as [|n IH]; intros bs d lba c acc tl Hi Hl Hn Ha Hf; [done|].
  destruct bs as [|lo [|hi bs]]; simpl in Hl; [lia..|].
  inversion_clear Hf as [|?? Hlo Hf']. inversion_clear Hf' as [|?? Hhi Hf].
  cbn [app out_words]. erewrite op_bind_ok by (unfold outw; reflexivity).
  simpl port_out16. unfold ata_out16. rewrite Z.eqb_refl, Hi, word_bytes_pair, length_app by done.
  cbn [length]. destruct (Z.eqb_spec (length acc + 2)%nat 512) as [E|E].
  - assert (n = 0%nat) as -> by lia. assert (bs = []) as -> by (by destruct bs; simpl in *; [|lia]). done.
  - assert (n ≠ 0%nat) by lia.
    rewrite (IH bs _ lba c (acc ++ [lo; hi])); [|done|lia|done|rewrite length_app; simpl; lia|done].
    by rewrite <- app_assoc.
Qed.

Lemma write_sector_ok d buf sec lba c chunk tl :
  incoming d = Some (lba, c, []) → pending d = [] → (busy d < POLLS)%nat → failed d = false →
  drop (Z.to_nat (sec * 512)) buf = chunk ++ tl → length chunk = 512%nat → Forall is_byte chunk →
  write_sector base ctrl buf sec d = Ret (Ok (), committed d lba c chunk).
Proof.
  intros Hi Hp Hb Hfl Hd Hl Hf. unfold write_sector. rewrite (op_bind_ok _ _ _ _ _ (delay400_ok d)).
  rewrite (op_bind_ok _ _ _ _ _ (require_ready_ok d _ Hb)).
  erewrite op_bind_ok by (apply wait_drq_ok; [done|done|right; simpl; by rewrite Hi]).
  unfold SECTOR_SIZE. rewrite Hd.
  by apply (out_words_ok 256 chunk (set_data d (pending d) (incoming d) 0) lba c [] tl).
Qed.

(** The disks of [d'] are those of [d] with [n] sectors from [lba] replaced by
    the bytes of [buf] from sector [k] on. *)
Definition disks_written d d' (lba n k : Z) (buf : list Z) : Prop :=
  ∀ j s, disks d' j s =
    if (j =? selected d) && (lba <=? s) && (s <? lba + n)
    then take 512 (drop (Z.to_nat ((s - lba + k) * 512)) buf) else disks d j s.

Lemma write_run_ok (n : nat) : ∀ lba k d buf,
  Forall is_byte buf → 0 ≤ k → (Z.to_nat k * 512 + n * 512 ≤ length buf)%nat →
  pending d = [] → incoming d = (if decide (n = 0%nat) then None else Some (lba, Z.of_nat n, [])) →
  (busy d < POLLS)%nat → failed d = false →
  ∃ d', op_fold (λ _ sec, write_sector base ctrl buf sec) (seqZ k n) () d = Ret (Ok (), d') ∧
        selected d' = selected d ∧ capacity d' = capacity d ∧ pending d' = [] ∧ incoming d' = None ∧ (busy d' < POLLS)%nat ∧
        disks_written d d' lba n k buf.
Proof.
  induction n as [|n IH]; intros lba k d buf Hf Hk Hb Hp Hi Hd Hfl.
  { exists d. repeat split; auto. intros j s. destruct (Z.leb_spec lba s), (Z.ltb_spec s (lba + 0%nat));
      rewrite ?andb_false_r; try done; lia. }
  rewrite (decide_False (P := S n = 0%nat)) in Hi by lia. rewrite seqZ_S. cbn [op_fold].
  set (chunk := take 512 (drop (Z.to_nat (k * 512)) buf)).
  assert (Hl : length chunk = 512%nat) by (subst chunk; rewrite length_take, length_drop; lia).
  erewrite op_bind_ok.
  2: { eapply (write_sector_ok d buf k _ _ chunk (drop 512 (drop (Z.to_nat (k * 512)) buf)));
         [done..|by subst chunk; rewrite take_drop|done|by apply Forall_take, Forall_drop]. }
  set (d1 := committed d lba (S n) chunk).
  destruct (IH (lba + 1) (k + 1) d1 buf) as (d' & E & Hs & Hcp & Hp' & Hi' & Hb' & Hw); [exact Hf|lia|lia|reflexivity| |exact Hlat|done|].
  { subst d1. cbn [committed incoming]. destruct (Z.eqb_spec (S n) 1); case_decide; try lia; [done|].
    do 3 f_equal. lia. }
  exists d'. split; [exact E|]. split; [by rewrite Hs|]. split; [by rewrite Hcp|]. repeat split; [done..|].
  intros j s. rewrite Hw. assert (selected d1 = selected d) as -> by done.
  unfold d1 at 1. cbn [committed disks]. unfold store_sector.
  destruct (Z.eqb_spec j (selected d)) as [->|]; simpl; [|done].
  destruct (Z.leb_spec (lba + 1) s), (Z.ltb_spec s (lba + 1 + n)), (Z.leb_spec lba s),
    (Z.ltb_spec s (lba + S n)), (Z.eqb_spec s lba) as [->|]; simpl; try lia; try done.
  - do 2 f_equal. lia.
  - subst chunk. do 2 f_equal. lia.
Qed.

(** ** Whole transfers *)

(** Between transfers: nothing pending either way, and not stuck busy. *)
Definition idle d : Prop := pending d = [] ∧ incoming d = None ∧ (busy d < POLLS)%nat.

(** The transfers a drive can address: [count] sectors from [lba]. *)
Definition in_range (dr : Drive) (lba count : Z) : Prop :=
  0 ≤ lba ∧ 0 < count ∧
  if lba48 dr then lba < 2 ^ 48 ∧ count < 65536 else lba < 2 ^ 28 ∧ count < 256.

Definition on_channel (dr : Drive) : Prop := Ide.base dr = base ∧ Ide.ctrl dr = ctrl.

Definition modulus (dr : Drive) : Z := if lba48 dr then 2 ^ 48 else 2 ^ 28.
Definition width (dr : Drive) : Z := if lba48 dr then 65536 else 256.

(** The address bits a command has no room for are dropped. *)
Lemma setup_ok dr lba count cmd28 cmd48 d :
  idle d → 0 ≤ lba → 0 < count < width dr →
  ∃ d', (if lba48 dr then setup_lba48 base ctrl (drive dr) lba count cmd48
         else setup_lba28 base ctrl (drive dr) (lba mod U32) (count mod 256) cmd28) d =
          Ret (Ok (), ata_command (if lba48 dr then cmd48 else cmd28) d') ∧
        disks d' = disks d ∧ capacity d' = capacity d ∧ programmed d' (drive dr) (lba mod modulus dr) count (lba48 dr).
Proof.
  intros (Hp & Hi & Hb) Hl Hc. unfold width, modulus in *. destruct (lba48 dr).
  - by apply setup_lba48_ok.
  - rewrite (Z.mod_small count) by lia. replace (lba mod 2 ^ 28) with ((lba mod U32) mod 2 ^ 28) by dlia.
    apply setup_lba28_ok; auto. dlia.
Qed.

Lemma in_range_mod dr lba count : in_range dr lba count →
  0 ≤ lba ∧ 0 < count < width dr ∧ lba mod modulus dr = lba.
Proof. intros (? & ? & H). unfold width, modulus. destruct (lba48 dr); rewrite Z.mod_small by lia; lia. Qed.

(** The device after the command of a transfer. *)
Lemma command_ok d lba count drv is48 c28 c48 p i : programmed d drv lba count is48 →
  (∀ dk, disks d (Z.land drv 1) = dk → ata_command (if is48 then c48 else c28) d = begin_transfer d lba count (p dk) i) →
  ata_command (if is48 then c48 else c28) d =
    if lba + count <=? capacity d (Z.land drv 1) then begin_ d (p (disks d (Z.land drv 1))) i false else begin_ d [] None true.
Proof. intros [Hs _] E. rewrite (E _ eq_refl). unfold begin_transfer. by rewrite Hs. Qed.

Lemma read_command d drv lba count is48 : programmed d drv lba count is48 →
  ata_command (if is48 then CMD_READ_PIO_EX else CMD_READ_PIO) d =
    if lba + count <=? capacity d (Z.land drv 1) then begin_ d (sector_run (disks d (Z.land drv 1)) lba count) None false
    else begin_ d [] None true.
Proof.
  intros HP. apply (command_ok d lba count drv is48 _ _ (λ dk, sector_run dk lba count) None HP).
  intros dk <-. destruct HP as [Hs Hr]. unfold ata_command. destruct is48; destruct Hr as [-> ->]; by rewrite Hs.
Qed.

Lemma write_command d drv lba count is48 : programmed d drv lba count is48 →
  ata_command (if is48 then CMD_WRITE_PIO_EX else CMD_WRITE_PIO) d =
    if lba + count <=? capacity d (Z.land drv 1) then begin_ d [] (Some (lba, count, [])) false
    else begin_ d [] None true.
Proof.
  intros HP. apply (command_ok d lba count drv is48 _ _ (λ _, []) (Some (lba, count, [])) HP).
  intros dk <-. destruct HP as [Hs Hr]. unfold ata_command. destruct is48; destruct Hr as [-> ->]; done.
Qed.

(** A refused command is found at the first sector. *)
Lemma refused_read d buf sec : read_sector base ctrl buf sec (begin_ d [] None true) =
  Ret (Err ATA_ERROR, set_data (begin_ d [] None true) [] None 0).
Proof.
  unfold read_sector. rewrite (op_bind_ok _ _ _ _ _ (delay400_ok _)).
  rewrite (op_bind_ok _ _ _ _ _ (require_ready_ok (begin_ d [] None true) _ Hlat)).
  unfold mbind at 1, op_bind at 1. by rewrite wait_drq_err.
Qed.

Lemma refused_write d buf sec : write_sector base ctrl buf sec (begin_ d [] None true) =
  Ret (Err ATA_ERROR, set_data (begin_ d [] None true) [] None 0).
Proof.
  unfold write_sector. rewrite (op_bind_ok _ _ _ _ _ (delay400_ok _)).
  rewrite (op_bind_ok _ _ _ _ _ (require_ready_ok (begin_ d [] None true) _ Hlat)).
  unfold mbind at 1, op_bind at 1. by rewrite wait_drq_err.
Qed.

Lemma idle_done d p : idle (set_data (begin_ d p None true) [] None 0) ∧ idle (set_data (begin_ d p None false) [] None 0).
Proof. split; repeat split; simpl; unfold POLLS; lia. Qed.

Section Transfer.
Context (DRIVES : list Drive) (idx : Z) (dr : Drive) (lba count : Z) (d : ata).
Hypothesis (Hdr : DRIVES !! Z.to_nat idx = Some dr) (Hch : on_channel dr).
Hypothesis (Hlba : 0 ≤ lba) (Hcount : 0 < count < width dr) (Hid : idle d).
Abbreviation at_ := (lba mod modulus dr).
Abbreviation unit_ := (Z.land (drive dr) 1).

Lemma check_len (buf : list Z) : length buf = Z.to_nat (count * 512) →
  check (E := Errno) (assert_ (length buf =? count * SECTOR_SIZE)) d = Ret (Ok (), d).
Proof. intros Hl. unfold check, assert_. by rewrite (proj2 (Z.eqb_eq _ _)) by (unfold SECTOR_SIZE; lia). Qed.

Lemma read_sectors_ok buf : disk_ok (disks d unit_) → length buf = Z.to_nat (count * 512) →
  ∃ d', read_sectors DRIVES idx lba count buf d =
      Ret (if at_ + count <=? capacity d unit_ then Ok (bytes_run (disks d unit_) at_ count) else Err ATA_ERROR, d') ∧
    idle d' ∧ disks d' = disks d ∧ capacity d' = capacity d.
Proof.
  intros Hdk Hl.
  destruct (setup_ok dr lba count CMD_READ_PIO CMD_READ_PIO_EX d Hid Hlba Hcount) as (d1 & Hs & Hd1 & Hc1 & Hpr).
  rewrite (read_command _ _ _ _ _ Hpr), Hc1, Hd1 in Hs. destruct Hch as [Hb Hc]. set (dk := disks d _) in *. set (a := lba mod modulus dr) in *.
  assert (E : ∀ X, (if lba48 dr then setup_lba48 base ctrl (drive dr) lba count CMD_READ_PIO_EX
      else setup_lba28 base ctrl (drive dr) (lba mod U32) (count mod 256) CMD_READ_PIO) d = Ret (Ok (), X) →
    read_sectors DRIVES idx lba count buf d = op_fold (read_sector base ctrl) (seqZ 0 count) buf X).
  { intros X EX. unfold read_sectors. rewrite (op_bind_ok _ _ _ _ _ (check_len buf Hl)). rewrite Hdr, Hb, Hc.
    unfold width in Hcount. destruct (lba48 dr); unfold read_lba48, read_lba28; rewrite (op_bind_ok _ _ _ _ _ EX); [done|].
    by rewrite (Z.mod_small count) by lia. }
  rewrite (E _ Hs). clear E Hs. destruct (a + count <=? capacity d unit_).
  - exists (set_data (begin_ d1 [] None false) [] None 0). split; [|split; [apply (idle_done d1 [])|by split]].
    replace count with (Z.of_nat (Z.to_nat count)) by lia.
    rewrite (read_run_ok dk (Z.to_nat count) a 0); [|done|lia|lia| |exact Hlat|done].
    2: { cbn [begin_ pending]. by rewrite Z2Nat.id by lia. }
    rewrite decide_False by lia. unfold splice.
    rewrite length_bytes_run, (drop_ge buf) by (try done; lia). simpl. by rewrite app_nil_r.
  - exists (set_data (begin_ d1 [] None true) [] None 0). split; [|split; [apply (idle_done d1 [])|by split]].
    replace count with (Z.of_nat (S (Z.to_nat (count - 1)))) by lia. rewrite seqZ_S. cbn [op_fold].
    by rewrite (op_bind_err _ _ _ _ _ (refused_read d1 buf 0)).
Qed.

Lemma flush_ok d0 :
  idle d0 → ∃ d', flush_cache base d0 = Ret (Ok (), d') ∧ idle d' ∧ disks d' = disks d0 ∧ capacity d' = capacity d0.
Proof.
  intros (Hp & Hi & Hb). unfold flush_cache.
  erewrite op_bind_ok by (unfold outb; reflexivity). simpl port_out8. unfold ata_out8. rewrite !eqb_base.
  simpl Z.eqb. cbv iota beta zeta. rewrite require_ready_ok by exact Hlat.
  eexists. split; [done|]. repeat split. simpl. unfold POLLS. lia.
Qed.

Lemma write_sectors_ok buf : length buf = Z.to_nat (count * 512) → Forall is_byte buf →
  ∃ d', write_sectors DRIVES idx lba count buf d =
      Ret (if at_ + count <=? capacity d unit_ then Ok () else Err ATA_ERROR, d') ∧ idle d' ∧ capacity d' = capacity d ∧
    ∀ j s, disks d' j s =
      if (at_ + count <=? capacity d unit_) && ((j =? unit_) && (at_ <=? s) && (s <? at_ + count))
      then take 512 (drop (Z.to_nat ((s - at_) * 512)) buf) else disks d j s.
Proof.
  intros Hl Hf.
  destruct (setup_ok dr lba count CMD_WRITE_PIO CMD_WRITE_PIO_EX d Hid Hlba Hcount) as (d1 & Hs & Hd1 & Hc1 & Hpr).
  pose proof (proj1 Hpr) as Hsel. rewrite (write_command _ _ _ _ _ Hpr), Hc1 in Hs. destruct Hch as [Hb Hc]. set (a := lba mod modulus dr) in *.
  assert (E : ∀ X, (if lba48 dr then setup_lba48 base ctrl (drive dr) lba count CMD_WRITE_PIO_EX
      else setup_lba28 base ctrl (drive dr) (lba mod U32) (count mod 256) CMD_WRITE_PIO) d = Ret (Ok (), X) →
    write_sectors DRIVES idx lba count buf d =
      (_ ← op_fold (λ _ sec, write_sector base ctrl buf sec) (seqZ 0 count) (); flush_cache base) X).
  { intros X EX. unfold write_sectors. rewrite (op_bind_ok _ _ _ _ _ (check_len buf Hl)). rewrite Hdr, Hb, Hc.
    unfold width in Hcount. destruct (lba48 dr); unfold write_lba48, write_lba28; rewrite (op_bind_ok _ _ _ _ _ EX); [done|].
    by rewrite (Z.mod_small count) by lia. }
  rewrite (E _ Hs). clear E Hs. destruct (a + count <=? capacity d unit_); cbn [andb].
  - destruct (write_run_ok (Z.to_nat count) a 0 (begin_ d1 [] (Some (a, count, [])) false) buf) as (d3 & Hrun & Hs3 & Hc3 & Hp3 & Hi3 & Hb3 & Hw);
      [done|lia|lia|done| |exact Hlat|done|].
    { rewrite decide_False by lia. cbn [begin_ incoming]. by rewrite Z2Nat.id by lia. }
    rewrite Z2Nat.id in Hrun, Hw by lia. destruct (flush_ok d3 ltac:(done)) as (d4 & Hfl & Hid4 & Hd4 & Hc4).
    exists d4. rewrite (op_bind_ok _ _ _ _ _ Hrun). split; [done|]. split; [done|]. split; [by rewrite Hc4, Hc3|].
    intros j s. rewrite Hd4, Hw. change (selected (begin_ d1 _ _ _)) with (selected d1). cbn [begin_ disks].
    by rewrite Hsel, Hd1, Z.add_0_r.
  - exists (set_data (begin_ d1 [] None true) [] None 0). split; [|split; [apply (idle_done d1 [])|split; [done|]]].
    + replace count with (Z.of_nat (S (Z.to_nat (count - 1)))) by lia. rewrite seqZ_S. cbn [op_fold].
      by rewrite (op_bind_err _ _ _ _ _ (op_bind_err _ _ _ _ _ (refused_write d1 buf 0))).
    + intros j s. cbn. by rewrite Hd1.
Qed.
End Transfer.

Lemma bytes_run_chunks dk (n : nat) : ∀ lba k buf,
  0 ≤ k → (length buf = Z.to_nat k * 512 + n * 512)%nat →
  (∀ s, lba ≤ s < lba + n → dk s = take 512 (drop (Z.to_nat ((s - lba + k) * 512)) buf)) →
  bytes_run dk lba n = drop (Z.to_nat (k * 512)) buf.
Proof.
  induction n as [|n IH]; intros lba k buf Hk Hl Hs.
  { unfold bytes_run. simpl. by rewrite drop_ge by lia. }
  unfold bytes_run. rewrite seqZ_S, bind_cons. fold (bytes_run dk (lba + 1) n).
  rewrite (IH (lba + 1) (k + 1) buf) by (try lia; intros; rewrite Hs by lia; do 3 f_equal; lia).
  rewrite Hs by lia. replace (lba - lba + k) with k by lia.
  rewrite <- (take_drop 512 (drop (Z.to_nat (k * 512)) buf)) at 2. f_equal.
  rewrite drop_drop. f_equal. lia.
Qed.

End Device.

Section Demo.
(** The primary channel with a zero-filled master disk, busy for three polls. *)
Definition demo_ata : ata :=
  {| disks := λ _ _, replicate 512 0; capacity := λ _, 4096; hddevsel := 0; sc := (0, 0); l0 := (0, 0); l1 := (0, 0);
     l2 := (0, 0); pending := []; incoming := None; failed := false; busy := 0 |}.
Definition demo_drive : Drive :=
  {| channel := 0; drive := 0; lba48 := true; sectors := 4096; model := []; serial := []; base := 0x1F0; ctrl := 0x3F6 |}.

End Demo.
