(* ===== verification/IdeInit.v ===== *)
(** Detection of the drives ([identify], [probe_channel], [init] and [ata_string]
    of [src/src/drivers/ide.rs]) against the identification protocol of two ATA
    channels, each with up to two devices. *)
From S2P Require Import Prelude Effects Text Ports Ide.

(** ** The channels

    A device answers IDENTIFY with its block of 256 words; a packet device aborts
    the command and leaves its signature in the address registers; an empty
    position of a channel that has another device answers with a zero status; on a
    channel without devices the lines float high. A device is busy for [latency]
    polls of its status. *)
Inductive device := Ata (id : list Z) | Packet | Absent | Floating.

Record chan := { devs : Z → device; sel : Z; reg1 : Z; reg2 : Z; answer : list Z; polls : nat }.

Definition set_polls c n : chan := {| devs := devs c; sel := sel c; reg1 := reg1 c; reg2 := reg2 c; answer := answer c; polls := n |}.
Definition set_answer c ws : chan := {| devs := devs c; sel := sel c; reg1 := reg1 c; reg2 := reg2 c; answer := ws; polls := polls c |}.
Definition attached c : device := devs c (sel c).

Definition chan_status c : Z :=
  match attached c with
  | Absent => 0
  | Floating => 0xFF
  | Packet => match polls c with O => Z.lor 0x40 SR_ERR | S _ => SR_BSY end
  | Ata _ => match polls c with O => Z.lor 0x50 (match answer c with [] => 0 | _ => SR_DRQ end) | S _ => SR_BSY end
  end.

Section Channel.
Context (latency : nat).

Definition chan_in8 (r : Z) c : Z * chan :=
  if r =? 8 then (chan_status c, c)
  else if r =? REG_STATUS then (chan_status c, set_polls c (pred (polls c)))
  else match attached c with
  | Floating => (0xFF, c)
  | _ => (if r =? REG_LBA1 then reg1 c else if r =? REG_LBA2 then reg2 c else 0, c)
  end.

Definition chan_in16 (r : Z) c : Z * chan :=
  match attached c, answer c with
  | Floating, _ => (0xFFFF, c)
  | Ata _, w :: ws => if r =? REG_DATA then (w, set_answer c ws) else (0, c)
  | _, _ => (0, c)
  end.

Definition chan_command (x : Z) c : chan :=
  if negb (x =? CMD_IDENTIFY) then c else
  match attached c with
  | Ata id => {| devs := devs c; sel := sel c; reg1 := reg1 c; reg2 := reg2 c; answer := id; polls := latency |}
  | Packet => {| devs := devs c; sel := sel c; reg1 := 0x14; reg2 := 0xEB; answer := []; polls := latency |}
  | _ => c
  end.

Definition chan_out8 (r x : Z) c : chan :=
  if r =? REG_HDDEVSEL then {| devs := devs c; sel := Z.land (Z.shiftr x 4) 1; reg1 := reg1 c; reg2 := reg2 c; answer := answer c; polls := polls c |}
  else if r =? REG_LBA1 then {| devs := devs c; sel := sel c; reg1 := x; reg2 := reg2 c; answer := answer c; polls := polls c |}
  else if r =? REG_LBA2 then {| devs := devs c; sel := sel c; reg1 := reg1 c; reg2 := x; answer := answer c; polls := polls c |}
  else if r =? REG_COMMAND then chan_command x c
  else c.

(** The two channels by the ports they decode; register 8 is the control block. *)
Record ide := { chan0 : chan; chan1 : chan }.
Implicit Types (d : ide) (c : chan).

Definition get (i : bool) d : chan := if i then chan1 d else chan0 d.
Definition put (i : bool) c d : ide := if i then {| chan0 := chan0 d; chan1 := c |} else {| chan0 := c; chan1 := chan1 d |}.
Definition base_of (i : bool) : Z := if i then SECONDARY_BASE else PRIMARY_BASE.
Definition ctrl_of (i : bool) : Z := if i then SECONDARY_CTRL else PRIMARY_CTRL.
Definition decode_port (p : Z) : option (bool * Z) :=
  if (base_of false <=? p) && (p <=? base_of false + 7) then Some (false, p - base_of false)
  else if (base_of true <=? p) && (p <=? base_of true + 7) then Some (true, p - base_of true)
  else if p =? ctrl_of false then Some (false, 8)
  else if p =? ctrl_of true then Some (true, 8)
  else None.

Definition ide_in (f : Z → chan → Z * chan) (p : Z) d : Z * ide :=
  match decode_port p with
  | Some (i, r) => let '(x, c) := f r (get i d) in (x, put i c d)
  | None => (0, d)
  end.

#[global] Instance ide_ports : Ports ide := {
  port_in8 := ide_in chan_in8;
  port_in16 := ide_in chan_in16;
  port_out8 := λ p x d, match decode_port p with Some (i, r) => put i (chan_out8 r x (get i d)) d | None => d end;
  port_out16 := λ _ _ d, d;
  port_in32 := λ _ d, (0, d);
  port_out32 := λ _ _ d, d
}.

(** ** One channel *)
Lemma put_get i d : put i (get i d) d = d.
Proof. by destruct i, d. Qed.
Lemma get_put i c d : get i (put i c d) = c.
Proof. by destruct i. Qed.
Lemma put_put i c c' d : put i c (put i c' d) = put i c d.
Proof. by destruct i. Qed.

Lemma decode_base i r : 0 ≤ r ≤ 7 → decode_port (base_of i + r) = Some (i, r).
Proof.
  intros Hr. unfold decode_port. destruct i; cbn [base_of]; unfold PRIMARY_BASE, SECONDARY_BASE.
  - rewrite (proj2 (Z.leb_gt _ _)) by lia. cbn [andb]. rewrite !(proj2 (Z.leb_le _ _)) by lia. cbn [andb]. do 2 f_equal. lia.
  - rewrite !(proj2 (Z.leb_le _ _)) by lia. cbn [andb]. do 2 f_equal. lia.
Qed.
Lemma decode_ctrl i : decode_port (ctrl_of i) = Some (i, 8).
Proof. by destruct i. Qed.

Lemma outb_ok i r x d : 0 ≤ r ≤ 7 → outb (base_of i + r) x d = Ret (Ok (), put i (chan_out8 r x (get i d)) d).
Proof. intros. unfold outb, port_out8. cbn [ide_ports]. by rewrite decode_base. Qed.
Lemma inb_ok i r d : 0 ≤ r ≤ 7 → inb (base_of i + r) d = Ret (Ok (chan_in8 r (get i d)).1, put i (chan_in8 r (get i d)).2 d).
Proof. intros. unfold inb, port_in8. cbn [ide_ports]. unfold ide_in. rewrite decode_base by done. by destruct (chan_in8 _ _). Qed.

Lemma delay_ok i d : delay400 (ctrl_of i) d = Ret (Ok (), d).
Proof.
  assert (Hi : inb (ctrl_of i) d = Ret (Ok (chan_status (get i d)), d)).
  { unfold inb, port_in8. cbn [ide_ports]. unfold ide_in. rewrite decode_ctrl. cbn. by rewrite put_get. }
  unfold delay400. by rewrite !(op_bind_ok _ _ _ _ _ Hi).
Qed.

Lemma poll_ok i d : status (base_of i) d = Ret (Ok (chan_status (get i d)), put i (set_polls (get i d) (pred (polls (get i d)))) d).
Proof. unfold status. rewrite inb_ok by (unfold REG_STATUS; lia). done. Qed.

Lemma set_polls_id c : set_polls c (polls c) = c.
Proof. by destruct c. Qed.

Definition answers c : Prop := match attached c with Ata _ | Packet => True | _ => False end.

Lemma wait_bsy_done i n d : answers (get i d) → (polls (get i d) < n)%nat →
  wait_bsy_loop n (base_of i) d = Ret (Ok true, put i (set_polls (get i d) 0) d).
Proof.
  revert d. induction n as [|n IH]; intros d Ha Hn; [lia|]. cbn [wait_bsy_loop]. rewrite (op_bind_ok _ _ _ _ _ (poll_ok i d)).
  destruct (polls (get i d)) as [|k] eqn:Hk.
  - unfold chan_status. rewrite Hk. unfold answers in Ha. destruct (attached (get i d)), (answer (get i d)); done.
  - assert (Z.land (chan_status (get i d)) SR_BSY =? 0 = false) as ->.
    { unfold chan_status. rewrite Hk. unfold answers in Ha. by destruct (attached (get i d)). }
    rewrite IH by (rewrite get_put; cbn; try done; lia). rewrite get_put, put_put. done.
Qed.

Lemma wait_bsy_floating i n d : attached (get i d) = Floating →
  ∃ k, wait_bsy_loop n (base_of i) d = Ret (Ok false, put i (set_polls (get i d) k) d).
Proof.
  revert d. induction n as [|n IH]; intros d Ha.
  { exists (polls (get i d)). by rewrite set_polls_id, put_get. }
  cbn [wait_bsy_loop]. rewrite (op_bind_ok _ _ _ _ _ (poll_ok i d)). unfold chan_status. rewrite Ha.
  change (Z.land 255 SR_BSY =? 0) with false. cbv iota.
  edestruct IH as [k Hk]; [|exists k; rewrite Hk, get_put, put_put; done]. by rewrite get_put.
Qed.

Lemma in_words_answer i ws d id : attached (get i d) = Ata id → answer (get i d) = ws →
  in_words (length ws) (base_of i) d = Ret (Ok ws, put i (set_answer (get i d) []) d).
Proof.
  revert d. induction ws as [|w ws IH]; intros d Ha Hp; cbn [length in_words].
  { destruct (get i d) as [dv s r1 r2 a p] eqn:E. cbn in Hp. subst a. change (set_answer _ []) with {| devs := dv; sel := s; reg1 := r1; reg2 := r2; answer := []; polls := p |}.
    rewrite <- E. by rewrite put_get. }
  erewrite op_bind_ok.
  2: { unfold inw, port_in16. cbn [ide_ports]. unfold ide_in. rewrite decode_base by (unfold REG_DATA; lia). unfold chan_in16. by rewrite Ha, Hp. }
  erewrite op_bind_ok by (apply IH; by rewrite get_put). by rewrite get_put, put_put.
Qed.

Hypothesis Hlat : (latency < POLLS)%nat.

(** What [identify] should return for a position *)
Definition block (x : device) : option (list Z) := match x with Ata id => Some id | _ => None end.

(** The registers after the writes of [identify] *)
Definition identified c (s : Z) : chan :=
  chan_command CMD_IDENTIFY {| devs := devs c; sel := s; reg1 := 0; reg2 := 0; answer := answer c; polls := polls c |}.

(** [wait_bsy] after the first look at the status *)
Lemma wait_bsy_after i c d : answers c → (polls c < POLLS)%nat →
  wait_bsy (base_of i) (put i (set_polls c (pred (polls c))) d) = Ret (Ok true, put i (set_polls c 0) d).
Proof. intros Ha Hp. unfold wait_bsy. by rewrite wait_bsy_done, get_put, put_put by (rewrite get_put; cbn; try done; lia). Qed.

Lemma wait_drq_answer i d id : attached (get i d) = Ata id → answer (get i d) ≠ [] → polls (get i d) = O →
  wait_drq (base_of i) d = Ret (Ok (), d).
Proof.
  intros Ha Hn Hp. unfold wait_drq, POLLS. replace (Z.to_nat 100000) with (S (Z.to_nat 99999)) by lia. cbn [wait_drq_loop].
  rewrite (op_bind_ok _ _ _ _ _ (poll_ok i d)). unfold chan_status. rewrite Ha, Hp. cbn [pred].
  replace (set_polls (get i d) 0) with (get i d) by (rewrite <- Hp; by rewrite set_polls_id). rewrite put_get. by destruct (answer (get i d)).
Qed.

Lemma reg_ok i c d r : r = REG_LBA1 ∨ r = REG_LBA2 → answers c →
  inb (base_of i + r) (put i c d) = Ret (Ok (if r =? REG_LBA1 then reg1 c else reg2 c), put i c d).
Proof.
  intros Hr Ha. rewrite inb_ok, get_put, put_put by (destruct Hr; subst; unfold REG_LBA1, REG_LBA2; lia).
  unfold answers in Ha. destruct Hr as [-> | ->]; unfold chan_in8; cbn; by destruct (attached c).
Qed.

Lemma identified_facts c s : devs (identified c s) = devs c ∧ attached (identified c s) = devs c s.
Proof. unfold identified, chan_command, attached. cbn. destruct (devs c s) eqn:E; cbn; by rewrite ?E. Qed.

(** [identify] after its writes and its first look at the status *)
Definition identify_rest i : op ide (option (list Z)) :=
  ready ← wait_bsy (base_of i);
  if negb ready then mret None else
  lba1 ← inb (base_of i + REG_LBA1);
  lba2 ← inb (base_of i + REG_LBA2);
  if negb (lba1 =? 0) || negb (lba2 =? 0) then mret None else
  try_catch (wait_drq (base_of i)) (λ _, ws ← in_words 256 (base_of i); mret (Some ws)) (λ _, mret None).

Lemma identify_writes c s : s = 0 ∨ s = 1 →
  chan_out8 REG_COMMAND CMD_IDENTIFY (chan_out8 REG_LBA2 0 (chan_out8 REG_LBA1 0 (chan_out8 REG_LBA0 0 (chan_out8 REG_SECCOUNT 0
    (chan_out8 REG_HDDEVSEL (Z.lor 0xA0 (Z.shiftl (Z.land s 1) 4)) c))))) = identified c s.
Proof. by intros [-> | ->]. Qed.

Lemma identify_start i s d : s = 0 ∨ s = 1 →
  let c1 := identified (get i d) s in let d1 := put i (set_polls c1 (pred (polls c1))) d in
  identify (base_of i) (ctrl_of i) s d = if chan_status c1 =? 0 then Ret (Ok None, d1) else identify_rest i d1.
Proof.
  intros Hs c1 d1.
  unfold identify. erewrite op_bind_ok by (apply outb_ok; unfold REG_HDDEVSEL; lia). rewrite (op_bind_ok _ _ _ _ _ (delay_ok i _)).
  do 5 (erewrite op_bind_ok by (apply outb_ok; unfold REG_SECCOUNT, REG_LBA0, REG_LBA1, REG_LBA2, REG_COMMAND; lia)).
  rewrite (op_bind_ok _ _ _ _ _ (delay_ok i _)). rewrite !get_put, !put_put.
  rewrite (identify_writes (get i d) s Hs). fold c1.
  erewrite op_bind_ok by (apply (poll_ok i)). rewrite get_put, put_put. by destruct (chan_status c1 =? 0).
Qed.

Lemma identify_disk i c id d : attached c = Ata id → answer c = id → length id = 256%nat → reg1 c = 0 → reg2 c = 0 → (polls c < POLLS)%nat →
  identify_rest i (put i (set_polls c (pred (polls c))) d) = Ret (Ok (Some id), put i (set_answer (set_polls c 0) []) d).
Proof.
  intros Hx Hw Hid H1 H2 Hp. assert (Ha : answers c) by (unfold answers; by rewrite Hx).
  unfold identify_rest. erewrite op_bind_ok by (by apply wait_bsy_after). cbn [negb].
  erewrite op_bind_ok by (apply reg_ok; [by left|done]). erewrite op_bind_ok by (apply reg_ok; [by right|done]).
  change (REG_LBA1 =? REG_LBA1) with true. change (REG_LBA2 =? REG_LBA1) with false. cbn [set_polls reg1 reg2]. rewrite H1, H2. cbn [Z.eqb negb orb].
  unfold try_catch. erewrite wait_drq_answer; [|rewrite get_put; exact Hx|rewrite get_put; cbn; rewrite Hw; by intros ->|by rewrite get_put].
  erewrite op_bind_ok by (rewrite <- Hid; apply (in_words_answer i id _ id); rewrite get_put; done).
  by rewrite get_put, put_put.
Qed.

Lemma identify_packet i c d : attached c = Packet → reg1 c ≠ 0 → (polls c < POLLS)%nat →
  identify_rest i (put i (set_polls c (pred (polls c))) d) = Ret (Ok None, put i (set_polls c 0) d).
Proof.
  intros Hx H1 Hp. assert (Ha : answers c) by (unfold answers; by rewrite Hx).
  unfold identify_rest. erewrite op_bind_ok by (by apply wait_bsy_after). cbn [negb].
  erewrite op_bind_ok by (apply reg_ok; [by left|done]). erewrite op_bind_ok by (apply reg_ok; [by right|done]).
  change (REG_LBA1 =? REG_LBA1) with true. cbn [set_polls reg1]. by rewrite (proj2 (Z.eqb_neq _ _) H1).
Qed.

Lemma identify_ok i s d : s = 0 ∨ s = 1 → (∀ id, devs (get i d) s = Ata id → length id = 256%nat) →
  ∃ c, devs c = devs (get i d) ∧ identify (base_of i) (ctrl_of i) s d = Ret (Ok (block (devs (get i d) s)), put i c d).
Proof.
  intros Hs Hid. rewrite (identify_start i s d Hs). destruct (identified_facts (get i d) s) as [Hd Ha].
  destruct (devs (get i d) s) as [id| | |] eqn:Hx.
  - assert (E : (reg1 (identified (get i d) s), reg2 (identified (get i d) s), answer (identified (get i d) s), polls (identified (get i d) s)) = (0, 0, id, latency))
      by (unfold identified, chan_command, attached; cbn; by rewrite Hx).
    revert E Hd Ha. generalize (identified (get i d) s). intros c [= E1 E2 E3 E4] Hd Ha.
    assert (chan_status c =? 0 = false) as -> by (unfold chan_status; rewrite Ha; by destruct (polls c), (answer c)).
    erewrite identify_disk by (rewrite ?E4; eauto). eexists. split; [|reflexivity]. done.
  - assert (E : (reg1 (identified (get i d) s), polls (identified (get i d) s)) = (0x14, latency)) by (unfold identified, chan_command, attached; cbn; by rewrite Hx).
    revert E Hd Ha. generalize (identified (get i d) s). intros c [= E1 E2] Hd Ha.
    assert (chan_status c =? 0 = false) as -> by (unfold chan_status; rewrite Ha; by destruct (polls c)).
    erewrite identify_packet by (rewrite ?E1, ?E2; done). eexists. split; [|reflexivity]. done.
  - unfold chan_status. rewrite Ha. eexists. split; [|reflexivity]. done.
  - unfold chan_status. rewrite Ha. change (255 =? 0) with false. cbv iota. unfold identify_rest, wait_bsy.
    revert Hd Ha. generalize (identified (get i d) s). intros c Hd Ha.
    destruct (wait_bsy_floating i POLLS (put i (set_polls c (pred (polls c))) d)) as [k Hk]; [rewrite get_put; exact Ha|].
    rewrite (op_bind_ok _ _ _ _ _ Hk). rewrite get_put, put_put. eexists. split; [|reflexivity]. done.
Qed.

(** ** What should be found *)
Definition capacity (id : list Z) : Z :=
  if Z.testbit (id_word id 83) 10 then id_word id 100 + 2 ^ 16 * id_word id 101 + 2 ^ 32 * id_word id 102 + 2 ^ 48 * id_word id 103
  else id_word id 60 + 2 ^ 16 * id_word id 61.

Definition expected (i : bool) (s : Z) (x : device) : list Drive :=
  match x with
  | Ata id => if capacity id =? 0 then [] else
      [{| channel := Z.b2z i; drive := s; lba48 := Z.testbit (id_word id 83) 10; sectors := capacity id;
          model := ata_string id 27 20; serial := ata_string id 10 10; base := base_of i; ctrl := ctrl_of i |}]
  | _ => []
  end.
Definition expected_drives d : list Drive :=
  expected false 0 (devs (chan0 d) 0) ++ expected false 1 (devs (chan0 d) 1) ++
  expected true 0 (devs (chan1 d) 0) ++ expected true 1 (devs (chan1 d) 1).

Definition block_ok (x : device) : Prop := ∀ id, x = Ata id → length id = 256%nat ∧ Forall (λ w, 0 ≤ w < 2 ^ 16) id.

Lemma id_sectors_ok id : Forall (λ w, 0 ≤ w < 2 ^ 16) id →
  id_sectors id (negb (Z.land (id_word id 83) 0x400 =? 0)) = capacity id ∧ negb (Z.land (id_word id 83) 0x400 =? 0) = Z.testbit (id_word id 83) 10.
Proof.
  intros Hid. assert (Hw : ∀ k, 0 ≤ id_word id k < 2 ^ 16).
  { intros k. unfold id_word. destruct (nth_in_or_default k id 0) as [H| ->]; [|lia]. rewrite Forall_forall in Hid. apply Hid. by apply list_elem_of_In. }
  change 0x400 with (Z.shiftl 1 10). rewrite land_bit by done. split; [|done]. unfold id_sectors, capacity. cbv zeta.
  pose proof (Hw 60%nat). pose proof (Hw 61%nat). pose proof (Hw 100%nat). pose proof (Hw 101%nat). pose proof (Hw 102%nat). pose proof (Hw 103%nat).
  destruct (Z.testbit (id_word id 83) 10); [|rewrite lor_shiftl_r; lia].
  rewrite (lor_shiftl_r (id_word id 101) 16) by lia. rewrite (lor_shiftl_r (id_word id 102) 32) by lia. rewrite lor_shiftl_r; lia.
Qed.

Lemma probe_drive_ok i s d found : s = 0 ∨ s = 1 → block_ok (devs (get i d) s) →
  ∃ c, devs c = devs (get i d) ∧
    probe_drive_sel (Z.b2z i) (base_of i) (ctrl_of i) found s d = Ret (Ok (found ++ expected i s (devs (get i d) s)), put i c d).
Proof.
  intros Hs Hx. destruct (identify_ok i s d Hs) as (c & Hc & Hi); [intros id Hid; by apply Hx|]. exists c. split; [done|].
  unfold probe_drive_sel. rewrite (op_bind_ok _ _ _ _ _ Hi). destruct (devs (get i d) s) as [id| | |]; cbn [block expected]; rewrite ?app_nil_r; try done.
  destruct (Hx id eq_refl) as [_ Hid]. destruct (id_sectors_ok id Hid) as [-> ->]. by destruct (capacity id =? 0); rewrite ?app_nil_r.
Qed.

Lemma probe_channel_ok i d found : block_ok (devs (get i d) 0) → block_ok (devs (get i d) 1) →
  ∃ c, devs c = devs (get i d) ∧
    probe_channel (Z.b2z i) (base_of i) (ctrl_of i) found d =
      Ret (Ok (found ++ expected i 0 (devs (get i d) 0) ++ expected i 1 (devs (get i d) 1)), put i c d).
Proof.
  intros H0 H1. destruct (probe_drive_ok i 0 d found ltac:(by left) H0) as (c & Hc & E).
  destruct (probe_drive_ok i 1 (put i c d) (found ++ expected i 0 (devs (get i d) 0)) ltac:(by right)) as (c' & Hc' & E'); [by rewrite get_put, Hc|].
  rewrite get_put in Hc', E'. exists c'. split; [congruence|]. unfold probe_channel. cbn [op_fold].
  rewrite (op_bind_ok _ _ _ _ _ E), (op_bind_ok _ _ _ _ _ E'). by rewrite Hc, put_put, app_assoc.
Qed.

Definition sizeable (dr : Drive) : bool := sectors dr <? 2 ^ 55.

Lemma sizes_ok l : mapM size_mb l = if forallb sizeable l then Ret ((λ dr, sectors dr * 512 / 1024 / 1024) <$> l) else Panic.
Proof.
  assert (H1 : ∀ dr, size_mb dr = if sizeable dr then Ret (sectors dr * 512 / 1024 / 1024) else Panic).
  { intros dr. unfold size_mb, u64_mul, sizeable, SECTOR_SIZE. by destruct (Z.ltb_spec (sectors dr) (2 ^ 55)), (Z.ltb_spec (sectors dr * 512) U64); try lia. }
  induction l as [|dr l IH]; [done|]. cbn [mapM forallb fmap list_fmap]. rewrite H1. destruct (sizeable dr); cbn [andb]; [|done].
  exec_simpl. rewrite IH. by destruct (forallb sizeable l).
Qed.

(** [init] finds exactly the disks: for every device that answers IDENTIFY with a
    non-zero capacity, in the order of the channels and of the positions, the
    drive with the capacity, the addressing mode and the strings of its block and
    the ports of its channel; packet devices, empty positions and channels without
    devices are passed over. It panics exactly when a drive reports 2^55 sectors
    or more. *)
Theorem ide_init_correct d : (∀ i s, block_ok (devs (get i d) s)) →
  ∃ d', (∀ i, devs (get i d') = devs (get i d)) ∧
    Ide.init d = if forallb sizeable (expected_drives d) then Ret (Ok (expected_drives d), d') else Panic.
Proof.
  intros Hb. destruct (probe_channel_ok false d [] (Hb _ _) (Hb _ _)) as (c & Hc & E).
  destruct (probe_channel_ok true (put false c d) (expected false 0 (devs (get false d) 0) ++ expected false 1 (devs (get false d) 1))
    (Hb true 0) (Hb true 1)) as (c' & Hc' & E').
  exists (put true c' (put false c d)). split; [by intros []|]. unfold Ide.init. rewrite (op_bind_ok _ _ _ _ _ E), (op_bind_ok _ _ _ _ _ E').
  unfold mbind at 1, op_bind, check. rewrite sizes_ok. unfold expected_drives.
  rewrite <- !app_assoc. by destruct (forallb sizeable _).
Qed.
End Channel.

(** ** The strings of a drive *)
Lemma trim_loop_spec n s : (length s ≤ n)%nat →
  ∃ ws, Forall (.∈ white_space) ws ∧ s = trim_loop n s ++ concat ws ∧ Forall (λ c, ends_in (trim_loop n s) c = false) white_space.
Proof.
  revert s. induction n as [|n IH]; intros s Hn; cbn [trim_loop].
  { destruct s; [|cbn in Hn; lia]. exists []. split_and!; [constructor|done|]. by repeat constructor. }
  destruct (List.find (ends_in s) white_space) as [c|] eqn:E.
  - apply find_some in E as [Hc He]. assert (Hlen : (0 < length c)%nat).
    { assert (Hw : Forall (λ c : str, 0 < length c)%nat white_space) by (apply (bool_decide_unpack _); by vm_compute).
      rewrite Forall_forall in Hw. apply Hw. by apply list_elem_of_In. }
    unfold ends_in in He. apply bool_decide_eq_true in He as [He Hle].
    destruct (IH (take (length s - length c) s)) as (ws & Hws & Hs & Hno); [rewrite length_take; lia|].
    exists (ws ++ [c]). split_and!; [|rewrite concat_app; cbn [concat]; rewrite app_nil_r, app_assoc, <- Hs|exact Hno].
    + apply Forall_app. split; [done|]. constructor; [by apply list_elem_of_In|constructor].
    + rewrite <- He at 2. by rewrite take_drop.
  - exists []. cbn. rewrite app_nil_r. split_and!; [constructor|done|]. apply Forall_forall. intros c Hc.
    apply (find_none _ _ E). by apply list_elem_of_In.
Qed.

(** The high byte of each word comes first. *)
Definition id_bytes (words : list Z) (a n : nat) : str := take n (drop a words) ≫= λ w, [w / 256; w mod 256].

(** [ata_string] is the text of the block without the white space at its end, or
    nothing if the bytes are not text. *)
Lemma ata_string_spec words a n : Forall (λ w, 0 ≤ w < 2 ^ 16) words →
  if utf8_valid (id_bytes words a n)
  then ∃ ws, Forall (.∈ white_space) ws ∧ id_bytes words a n = ata_string words a n ++ concat ws ∧
         Forall (λ c, ends_in (ata_string words a n) c = false) white_space
  else ata_string words a n = [].
Proof.
  intros Hw. unfold ata_string. assert (take n (drop a words) ≫= (λ w, [Z.shiftr w 8 mod 256; Z.land w 0xFF]) = id_bytes words a n) as ->.
  { unfold id_bytes. apply (Forall_drop _ a), (Forall_take _ n) in Hw. induction Hw as [|w ws Hw _ IH]; [done|]. cbn. rewrite IH.
    change 255 with (Z.ones 8). rewrite Z.shiftr_div_pow2, Z.land_ones by done. change (2 ^ 8) with 256. rewrite (Z.mod_small (w / 256)) by dlia. done. }
  destruct (utf8_valid (id_bytes words a n)); [|done]. unfold trim_white. by apply trim_loop_spec.
Qed.

(** ** Two channels: a disk and a packet device on the first, nothing on the second *)
Definition demo_block : list Z :=
  replicate 10 0 ++ [0x3432; 0x2020] ++ replicate 8 0x2020 ++ replicate 7 0 ++ [0x5145; 0x4D55; 0x2020] ++ replicate 17 0x2020 ++
  replicate 36 0 ++ [0x400] ++ replicate 16 0 ++ [0x1000; 0; 0; 0] ++ replicate 152 0.
Definition demo_chan (f : Z → device) : chan := {| devs := f; sel := 0; reg1 := 0; reg2 := 0; answer := []; polls := 0 |}.
Definition demo_ide : ide :=
  {| chan0 := demo_chan (λ s, if s =? 0 then Ata demo_block else Packet); chan1 := demo_chan (λ _, Floating) |}.
Definition demo_found : Drive := {| channel := 0; drive := 0; lba48 := true; sectors := 4096; model := [81; 69; 77; 85]; serial := [52; 50]; base := 0x1F0; ctrl := 0x3F6 |}.

Lemma ide_init_correct_witness : ∃ d', Ide.init (ports := ide_ports 3) demo_ide = Ret (Ok [demo_found], d').
Proof.
  destruct (ide_init_correct 3 ltac:(apply Nat.ltb_lt; by vm_compute) demo_ide) as (d' & _ & E).
  - intros i s id. destruct i; [done|]. cbn. destruct (s =? 0); [|done]. intros [= <-]. split; [done|]. apply (bool_decide_unpack _). by vm_compute.
  - exists d'. rewrite E. change (expected_drives demo_ide) with (expected false 0 (Ata demo_block)).
    replace (expected false 0 (Ata demo_block)) with [demo_found] by (by vm_compute). reflexivity.
Defined.
