(* ===== verification/Fat32.v ===== *)
(** The partition table reader [src/src/fs/mbr.rs] and the read-only FAT32
    driver [src/src/fs/fat32.rs], over any disk that can be read by sectors; the ATA
    driver is shown to be one. *)
From S2P Require Import Prelude Machine Effects Text Vfs Ports Ide.

(** ** The disk interface

    [disk_read drive lba count buf] is [ide::read_sectors]; its result is the
    new contents of [buf]. *)
Class Disks (D : Type) := disk_read : Z → Z → Z → list Z → op D (list Z).

Definition ZERO_SECTOR : list Z := replicate 512 0.

(** ** [mbr.rs] *)
Record Partition : Type := {
  p_status : Z;
  part_type : Z;
  lba_start : Z;
  lba_count : Z
}.

Definition is_fat32 (p : Partition) : bool :=
  bool_decide (part_type p ∈ [0x0B; 0x0C; 0x1B; 0x1C]).

Definition partition_at (sector : list Z) (i : nat) : option Partition :=
  let off := (446 + i * 16)%nat in
  let start := le32 sector (off + 8) in
  let cnt := le32 sector (off + 12) in
  if (0 <? start) && (0 <? cnt) then
    Some {| p_status := byte_at sector off; part_type := byte_at sector (off + 4);
            lba_start := start; lba_count := cnt |}
  else None.

Section Driver.
Context {D : Type} {dsk : Disks D}.

Definition mbr_read (drive : Z) : op D (option (list (option Partition))) :=
  try_catch (disk_read drive 0 1 ZERO_SECTOR)
    (λ sector,
       if negb (byte_at sector 510 =? 0x55) || negb (byte_at sector 511 =? 0xAA) then mret None
       else mret (Some (partition_at sector <$> seq 0 4)))
    (λ _, mret None).

(** ** Cluster chains *)
Record Fat32Ctx : Type := {
  fdrive : Z;
  part_lba : Z;
  spc : Z;
  fat_start : Z;
  data_start : Z;
  root_cluster : Z
}.
Implicit Types (ctx : Fat32Ctx).

Definition cluster_lba ctx (c : Z) : exec Z :=
  k ← u64_sub c 2;
  m ← u64_mul k (spc ctx);
  u64_add (data_start ctx) m.

Definition cluster_bytes ctx : Z := spc ctx * 512.

Definition fat_read_sectors ctx (lba count : Z) (buf : list Z) : op D (list Z) :=
  try_catch (disk_read (fdrive ctx) lba count buf) mret (λ _, err EIO).

Definition read_cluster ctx (c : Z) (buf : list Z) : op D (list Z) :=
  lba ← check (cluster_lba ctx c);
  fat_read_sectors ctx lba (spc ctx mod 65536) buf.

Definition next_cluster ctx (c : Z) : op D (option Z) :=
  let byte_off := c * 4 in
  sec ← check (u64_add (fat_start ctx) (byte_off / 512));
  let off := Z.to_nat (byte_off mod 512) in
  buf ← fat_read_sectors ctx sec 1 ZERO_SECTOR;
  let entry := Z.land (le32 buf off) 0x0FFFFFFF in
  if (entry <? 2) || (0x0FFFFFF8 <=? entry) then mret None else mret (Some entry).

Definition MAX_CHAIN : Z := 1000000.

(** The loop stops by itself once [chain] is longer than [MAX_CHAIN]. *)
Fixpoint chain_loop (fuel : nat) ctx (c : Z) (chain : list Z) : op D (list Z) :=
  match fuel with
  | O => λ _, NoFuel
  | S fuel =>
      if 2 <=? c then
        let chain := chain ++ [c] in
        n ← next_cluster ctx c;
        match n with
        | None => mret chain
        | Some next =>
            if MAX_CHAIN <? length chain then mret chain else chain_loop fuel ctx next chain
        end
      else mret chain
  end.
Definition cluster_chain ctx (start : Z) : op D (list Z) :=
  chain_loop (Z.to_nat (MAX_CHAIN + 1)) ctx start [].

(** ** Directory entries *)
Record FatEntry : Type := {
  fe_name : str;
  first_cluster : Z;
  file_size : Z;
  fe_is_dir : bool
}.

(** [char::to_ascii_lowercase], on a code point *)
Definition lower (c : Z) : Z := if (65 <=? c) && (c <=? 90) then c + 32 else c.

(** [String::push] of the code point [c] below [0x10000] *)
Definition utf8 (c : Z) : str :=
  if c <? 0x80 then [c]
  else if c <? 0x800 then [0xC0 + c / 64; 0x80 + c mod 64]
  else [0xE0 + c / 4096; 0x80 + (c / 64) mod 64; 0x80 + c mod 64].

(** [char::from_u32(c).unwrap_or('?')] *)
Definition char_or_q (c : Z) : Z := if (0xD800 <=? c) && (c <=? 0xDFFF) then 63 else c.

Fixpoint take_until (stop : Z → bool) (l : list Z) : list Z :=
  match l with
  | [] => []
  | x :: l => if stop x then [] else x :: take_until stop l
  end.

Definition parse_83_name (raw : list Z) : str :=
  let stem := take_until (Z.eqb 32) (take 8 raw) in
  let stem := match stem with b :: l => (if b =? 5 then 0xE5 else b) :: l | [] => [] end in
  let ext := take_until (Z.eqb 32) (take 3 (drop 8 raw)) in
  let text (l : list Z) := l ≫= λ b, utf8 (lower b) in
  match ext with
  | [] => text stem
  | _ => text stem ++ [46] ++ text ext
  end.

Definition lfn_chars (entry : list Z) : list Z :=
  le16 entry <$> ([1; 3; 5; 7; 9] ++ [14; 16; 18; 20; 22; 24] ++ [28; 30])%nat.

(** The name held by the chunks, last chunk first. *)
Definition lfn_name (chunks : list (list Z)) : str :=
  reverse chunks ≫= λ chunk,
    take_until (λ c, (c =? 0) || (c =? 0xFFFF)) chunk ≫= λ c, utf8 (char_or_q c).

(** The variables of the loop of [read_dir_entries]; [stop] is [break 'outer]. *)
Record scan : Type := { entries : list FatEntry; lfn_chunks : list (list Z); stop : bool }.

Definition scan_entry (sc : scan) (raw : list Z) : scan :=
  if stop sc then sc else
  let skip := {| entries := entries sc; lfn_chunks := []; stop := false |} in
  let first := byte_at raw 0 in
  if first =? 0x00 then {| entries := entries sc; lfn_chunks := lfn_chunks sc; stop := true |}
  else if first =? 0xE5 then skip
  else
  let attr := byte_at raw 11 in
  if attr =? 0x0F then
    {| entries := entries sc; lfn_chunks := lfn_chunks sc ++ [lfn_chars raw]; stop := false |}
  else if negb (Z.land attr 0x08 =? 0) && (Z.land attr 0x10 =? 0) then skip
  else if first =? 46 then skip
  else
  let name := match lfn_chunks sc with [] => parse_83_name raw | _ => lfn_name (lfn_chunks sc) end in
  {| entries := entries sc ++
       [{| fe_name := name;
           first_cluster := Z.lor (Z.shiftl (le16 raw 20) 16) (le16 raw 26);
           file_size := le32 raw 28;
           fe_is_dir := negb (Z.land attr 0x10 =? 0) |}];
     lfn_chunks := []; stop := false |}.

Definition raw_entries (cs : Z) (buf : list Z) : list (list Z) :=
  (λ e, take 32 (drop (e * 32) buf)) <$> seq 0 (Z.to_nat (cs / 32)).

Fixpoint scan_chain ctx (chain : list Z) (buf : list Z) (sc : scan) : op D scan :=
  match chain with
  | [] => mret sc
  | cluster :: chain =>
      if stop sc then mret sc else
      buf' ← read_cluster ctx cluster buf;
      scan_chain ctx chain buf' (foldl scan_entry sc (raw_entries (cluster_bytes ctx) buf'))
  end.

Definition read_dir_entries ctx (start_cluster : Z) : op D (list FatEntry) :=
  chain ← cluster_chain ctx start_cluster;
  let buf := replicate (Z.to_nat (cluster_bytes ctx)) 0 in
  sc ← scan_chain ctx chain buf {| entries := []; lfn_chunks := []; stop := false |};
  mret (entries sc).

(** ** Inodes

    The state is the inode counter of [vfs.rs] and the device. *)
Inductive fat_inode : Type :=
  | Fat32DirInode (ctx : Fat32Ctx) (cluster ino : Z)
  | Fat32FileInode (ctx : Fat32Ctx) (cluster size ino : Z).

Definition fat_alloc_ino : op (Z * D) Z :=
  n ← get_fst; _ ← put_fst (u64_wrap (n + 1)); mret n.

Definition make_inode ctx (e : FatEntry) : op (Z * D) fat_inode :=
  ino ← fat_alloc_ino;
  mret (if fe_is_dir e then Fat32DirInode ctx (first_cluster e) ino
        else Fat32FileInode ctx (first_cluster e) (file_size e) ino).

Definition fat_stat (i : fat_inode) : op (Z * D) Stat :=
  match i with
  | Fat32DirInode _ _ ino =>
      mret {| st_ino := ino; kind := Directory; size := 0; mode := 365; nlink := 2; uid := 0; gid := 0 |}
  | Fat32FileInode _ _ sz ino =>
      mret {| st_ino := ino; kind := Regular; size := sz; mode := 292; nlink := 1; uid := 0; gid := 0 |}
  end.

Definition fat_lookup (i : fat_inode) (name : str) : op (Z * D) fat_inode :=
  match i with
  | Fat32DirInode ctx cluster _ =>
      es ← lift (read_dir_entries ctx cluster);
      match find (λ e, bool_decide (lower <$> fe_name e = lower <$> name)) es with
      | Some e => make_inode ctx e
      | None => err ENOENT
      end
  | Fat32FileInode _ _ _ _ => err ENOTDIR
  end.

Definition fat_readdir (i : fat_inode) (offset : Z) : op (Z * D) (option DirEntry) :=
  match i with
  | Fat32DirInode ctx cluster _ =>
      es ← lift (read_dir_entries ctx cluster);
      match es !! Z.to_nat offset with
      | None => mret None
      | Some e =>
          ino ← fat_alloc_ino;
          mret (Some {| de_name := fe_name e; de_ino := ino;
                        de_kind := if fe_is_dir e then Directory else Regular |})
      end
  | Fat32FileInode _ _ _ _ => err ENOTDIR
  end.

(** The loop of [read]; [buf] is the caller's buffer, [done] the bytes copied
    and [i] the index of the cluster at the head of [chain]. *)
Fixpoint file_read_loop ctx (offset to_read : Z) (i : Z) (chain : list Z)
    (cluster_buf buf : list Z) (done : Z) : op D (list Z * Z) :=
  match chain with
  | [] => mret (buf, done)
  | cluster :: chain =>
      let cs := cluster_bytes ctx in
      let cluster_start := i * cs in
      let cluster_end := cluster_start + cs in
      if cluster_end <=? offset then
        file_read_loop ctx offset to_read (i + 1) chain cluster_buf buf done
      else if offset + to_read <=? cluster_start then mret (buf, done)
      else
        cluster_buf ← read_cluster ctx cluster cluster_buf;
        let in_start := if cluster_start <? offset then offset - cluster_start else 0 in
        let in_end := Z.min (offset + to_read) cluster_end - cluster_start in
        let dst := cluster_start + in_start - offset in
        let len := in_end - in_start in
        let piece := take (Z.to_nat len) (drop (Z.to_nat in_start) cluster_buf) in
        let buf := take (Z.to_nat dst) buf ++ piece ++ drop (Z.to_nat (dst + len)) buf in
        file_read_loop ctx offset to_read (i + 1) chain cluster_buf buf (done + len)
  end.

Definition fat_read (i : fat_inode) (offset len : Z) : op (Z * D) (list Z) :=
  match i with
  | Fat32DirInode _ _ _ => err EISDIR
  | Fat32FileInode ctx cluster sz _ =>
      if (sz <=? offset) || (len =? 0) then mret [] else
      let to_read := Z.min len (sz - offset) in
      chain ← lift (cluster_chain ctx cluster);
      r ← lift (file_read_loop ctx offset to_read 0 chain
                  (replicate (Z.to_nat (cluster_bytes ctx)) 0) (replicate (Z.to_nat len) 0) 0);
      mret (take (Z.to_nat r.2) r.1)
  end.

(** The operations a read-only file system refuses: [ENOTSUP] on a directory,
    [ENOTDIR] on a file, except that writing a file is [ENOTSUP] too. *)
Definition refuse {A} (i : fat_inode) : op (Z * D) A :=
  match i with Fat32DirInode _ _ _ => err ENOTSUP | Fat32FileInode _ _ _ _ => err ENOTDIR end.

#[global] Instance fat_ops : InodeOps (Z * D) fat_inode := {
  i_stat := fat_stat;
  i_read := fat_read;
  i_write := λ _ _ _, err ENOTSUP;
  i_truncate := λ _ _, err ENOTSUP;
  i_lookup := fat_lookup;
  i_readdir := fat_readdir;
  i_create := λ i _ _, refuse i;
  i_mkdir := λ i _ _, refuse i;
  i_unlink := λ i _, refuse i;
  i_rmdir := λ i _, refuse i;
  i_symlink := λ i _ _, refuse i;
  i_readlink := λ _, err EINVAL;
  i_rename := λ i _ _ _, refuse i;
  i_insert_child := λ i _ _, refuse i
}.

(** ** Mounting; the result is the root inode of the file system *)
Definition probe (drive part : Z) : op (Z * D) (option fat_inode) :=
  try_catch (lift (disk_read drive part 1 ZERO_SECTOR))
    (λ sector,
       if negb (byte_at sector 510 =? 0x55) || negb (byte_at sector 511 =? 0xAA) then mret None else
       if negb (le16 sector 11 =? 512) then mret None else
       let spc := byte_at sector 13 in
       let reserved_sectors := le16 sector 14 in
       let num_fats := byte_at sector 16 in
       let fat_size_16 := le16 sector 22 in
       let fat_size_32 := le32 sector 36 in
       let root_cluster := le32 sector 44 in
       if negb (fat_size_16 =? 0) || (fat_size_32 =? 0) || (spc =? 0) then mret None else
       if negb (bool_decide (take 5 (drop 82 sector) = [70; 65; 84; 51; 50])) then mret None else
       fat_start ← check (u64_add part reserved_sectors);
       data_start ← check (u64_add fat_start (num_fats * fat_size_32));
       root_ino ← fat_alloc_ino;
       mret (Some (Fat32DirInode
         {| fdrive := drive; part_lba := part; spc := spc; fat_start := fat_start;
            data_start := data_start; root_cluster := root_cluster |} root_cluster root_ino)))
    (λ _, mret None).

(** The loop over the partitions of [probe_drive]. *)
Fixpoint probe_parts (drive : Z) (parts : list (option Partition)) : op (Z * D) (option fat_inode) :=
  match parts with
  | [] => mret None
  | None :: parts => probe_parts drive parts
  | Some p :: parts =>
      if is_fat32 p then
        r ← probe drive (lba_start p);
        match r with Some fs => mret (Some fs) | None => probe_parts drive parts end
      else probe_parts drive parts
  end.

Definition probe_drive (drive : Z) : op (Z * D) (option fat_inode) :=
  ps ← lift (mbr_read drive);
  r ← match ps with Some parts => probe_parts drive parts | None => mret None end;
  match r with Some fs => mret (Some fs) | None => probe drive 0 end.
End Driver.

(** ** Disks that are read by sectors

    What a client relies on. [dk s] is what sector [s] holds, or [None] if it cannot
    be read. The read of one sector returns it or fails; the read of up to 255
    readable sectors below [limit] returns them. *)
Class SectorDisk {D : Type} {dsk : Disks D} (drv : Z) (inv : D → Prop) (dk : Z → option (list Z)) (limit : Z) := {
  sd_one lba buf d :
    inv d → 0 ≤ lba < 2 ^ 48 → length buf = 512%nat →
    ∃ r d', disk_read drv lba 1 buf d = Ret (r, d') ∧ inv d' ∧
      match dk lba with Some bs => r = Ok bs | None => ∃ e, r = Err e end;
  sd_read lba count buf d :
    inv d → 0 ≤ lba → lba + count ≤ limit → 0 < count < 256 → length buf = Z.to_nat (count * 512) →
    (∀ s, lba ≤ s < lba + count → is_Some (dk s)) →
    ∃ d', disk_read drv lba count buf d = Ret (Ok (seqZ lba count ≫= λ s, default [] (dk s)), d') ∧ inv d';
  sd_sector s bs : dk s = Some bs → length bs = 512%nat ∧ Forall Machine.is_byte bs
}.

Section Correct.
Context {D : Type} {dsk : Disks D} {drv : Z} {inv : D → Prop} {dk : Z → option (list Z)} {limit : Z}.
Context `{!SectorDisk (dsk := dsk) drv inv dk limit}.
Implicit Types (ctx : Fat32Ctx) (d : D).

(** A volume of this drive; the bounds are those of the fields of a boot sector. *)
Definition ctx_ok ctx : Prop :=
  fdrive ctx = drv ∧ 0 < spc ctx < 256 ∧ 0 ≤ fat_start ctx < 2 ^ 40 ∧ 0 ≤ data_start ctx < 2 ^ 42.

(** ** The table and its chains *)
Definition fat_entry ctx (c : Z) : option Z :=
  (λ bs, Z.land (le32 bs (Z.to_nat (c * 4 mod 512))) 0x0FFFFFFF) <$> dk (fat_start ctx + c * 4 / 512).
Definition end_mark (e : Z) : bool := (e <? 2) || (0x0FFFFFF8 <=? e).

(** The clusters that the table links from [c]. *)
Inductive linked ctx : Z → list Z → Prop :=
  | LkNone c : c < 2 → linked ctx c []
  | LkEnd c e : 2 ≤ c → fat_entry ctx c = Some e → end_mark e = true → linked ctx c [c]
  | LkNext c e l : 2 ≤ c → fat_entry ctx c = Some e → end_mark e = false → linked ctx e l → linked ctx c (c :: l).

(** The first [n] clusters of the chain from [c], or [None] if a sector of the table
    that is on the way cannot be read. *)
Fixpoint follow ctx (n : nat) (c : Z) : option (list Z) :=
  match n with
  | O => Some []
  | S n =>
      if 2 <=? c then
        match fat_entry ctx c with
        | None => None
        | Some e => if end_mark e then Some [c] else cons c <$> follow ctx n e
        end
      else Some []
  end.

Lemma follow_linked ctx c l : linked ctx c l → ∀ n, follow ctx n c = Some (take n l).
Proof.
  induction 1 as [c Hc|c e Hc E Hm|c e l Hc E Hm _ IH]; intros [|n]; cbn [follow take]; try done.
  - by rewrite (proj2 (Z.leb_gt _ _)).
  - by rewrite (proj2 (Z.leb_le _ _)), E, Hm, take_nil.
  - by rewrite (proj2 (Z.leb_le _ _)), E, Hm, IH.
Qed.

Lemma follow_length ctx n : ∀ c l, follow ctx n c = Some l → (length l ≤ n)%nat.
Proof.
  induction n as [|n IH]; intros c l; cbn [follow]; [by intros [= <-]|].
  destruct (2 <=? c); [|intros [= <-]; cbn; lia]. destruct (fat_entry ctx c) as [e|]; [|done].
  destruct (end_mark e); [intros [= <-]; cbn; lia|]. intros (l' & E & ->)%fmap_Some. cbn. apply IH in E. lia.
Qed.

Lemma end_mark_range e : end_mark e = false → 2 ≤ e < 0x0FFFFFF8.
Proof. unfold end_mark. intros [E1%Z.ltb_ge E2%Z.leb_gt]%orb_false_iff. lia. Qed.

Lemma next_cluster_ok ctx c d :
  ctx_ok ctx → inv d → 0 ≤ c < U32 →
  ∃ d', next_cluster ctx c d =
      Ret (match fat_entry ctx c with None => Err EIO | Some e => Ok (if end_mark e then None else Some e) end, d') ∧ inv d'.
Proof.
  intros (Hd & _ & Hf & _) Hi Hc. assert (Hsec : 0 ≤ c * 4 / 512 < 2 ^ 25) by dlia.
  destruct (sd_one (fat_start ctx + c * 4 / 512) ZERO_SECTOR d Hi) as (x & d' & E & Hi' & Hx); [lia|done|].
  exists d'. split; [|done]. unfold next_cluster. rewrite u64_add_ok by lia. erewrite op_bind_ok by done.
  unfold fat_read_sectors, try_catch, fat_entry. rewrite Hd.
  destruct (dk (fat_start ctx + c * 4 / 512)) as [bs|].
  - subst x. unfold mbind at 1, op_bind at 1. rewrite E. cbn [fmap option_fmap option_map]. unfold mret at 1, op_ret at 1.
    unfold end_mark. by destruct (_ || _).
  - destruct Hx as [e ->]. unfold mbind at 1, op_bind at 1. by rewrite E.
Qed.

Lemma chain_loop_ok ctx fuel : ∀ c chain d,
  ctx_ok ctx → inv d → 0 ≤ c < U32 → fuel ≠ 0%nat → length chain + fuel = MAX_CHAIN + 1 →
  ∃ d', chain_loop fuel ctx c chain d =
    Ret (match follow ctx fuel c with Some l => Ok (chain ++ l) | None => Err EIO end, d') ∧ inv d'.
Proof.
  induction fuel as [|fuel IH]; intros c chain d Hx Hi Hc Hf Hl; [done|].
  cbn [chain_loop follow]. destruct (Z.leb_spec 2 c); [|exists d; by rewrite app_nil_r].
  destruct (next_cluster_ok ctx c d Hx Hi Hc) as (d' & E & Hi').
  cbv zeta. destruct (fat_entry ctx c) as [e|]; [|exists d'; by rewrite (op_bind_err _ _ _ _ _ E)].
  rewrite (op_bind_ok _ _ _ _ _ E). destruct (end_mark e) eqn:Hm; [by exists d'|].
  rewrite length_app. cbn [length]. destruct (Z.ltb_spec MAX_CHAIN (length chain + 1)%nat).
  - assert (fuel = 0%nat) as -> by lia. by exists d'.
  - pose proof (end_mark_range _ Hm).
    destruct (IH e (chain ++ [c]) d' Hx Hi') as (d'' & E' & Hi''); [lia|lia|rewrite length_app; simpl; lia|].
    exists d''. rewrite E'. split; [|done]. destruct (follow ctx fuel e) as [l|]; [|done].
    cbn [fmap option_fmap option_map]. by rewrite <- app_assoc.
Qed.

Lemma cluster_chain_ok ctx c d :
  ctx_ok ctx → inv d → 0 ≤ c < U32 →
  ∃ d', cluster_chain ctx c d =
    Ret (match follow ctx (Z.to_nat (MAX_CHAIN + 1)) c with Some l => Ok l | None => Err EIO end, d') ∧ inv d'.
Proof.
  intros Hx Hi Hc. unfold cluster_chain.
  apply (chain_loop_ok ctx _ c [] d Hx Hi Hc); cbn [length]; unfold MAX_CHAIN; lia.
Qed.

(** ** Cluster contents *)
Definition cluster_start ctx (c : Z) : Z := data_start ctx + (c - 2) * spc ctx.
Definition cluster_data ctx (c : Z) : list Z :=
  seqZ (cluster_start ctx c) (spc ctx) ≫= λ s, default [] (dk s).
Definition contents ctx (chain : list Z) : list Z := chain ≫= cluster_data ctx.

(** The sectors of a cluster are on the disk and can be read. *)
Definition data_ok ctx (c : Z) : Prop :=
  2 ≤ c < U32 ∧ cluster_start ctx c + spc ctx ≤ limit ∧
  ∀ s, cluster_start ctx c ≤ s < cluster_start ctx c + spc ctx → is_Some (dk s).

Lemma length_sectors lba (n : nat) : (∀ s, lba ≤ s < lba + n → is_Some (dk s)) →
  length (seqZ lba n ≫= λ s, default [] (dk s)) = (n * 512)%nat.
Proof.
  revert lba. induction n as [|n IH]; intros lba Hs; [done|].
  rewrite seqZ_cons, bind_cons, length_app by lia. destruct (Hs lba ltac:(lia)) as [bs E]. rewrite E. cbn [default from_option id].
  rewrite (proj1 (sd_sector lba bs E)). replace (Z.pred (S n)) with (Z.of_nat n) by lia. rewrite IH; [lia|].
  intros s ?. apply Hs. lia.
Qed.

Lemma length_cluster ctx c :
  ctx_ok ctx → data_ok ctx c → length (cluster_data ctx c) = Z.to_nat (cluster_bytes ctx).
Proof.
  intros (_ & Hs & _) (_ & _ & Hd). unfold cluster_data, cluster_bytes.
  replace (spc ctx) with (Z.of_nat (Z.to_nat (spc ctx))) at 1 by lia.
  rewrite length_sectors by (intros s ?; apply Hd; lia). lia.
Qed.

Lemma read_cluster_ok ctx c buf d :
  ctx_ok ctx → inv d → data_ok ctx c → length buf = Z.to_nat (cluster_bytes ctx) →
  ∃ d', read_cluster ctx c buf d = Ret (Ok (cluster_data ctx c), d') ∧ inv d'.
Proof.
  intros (Hd & Hs & _ & Hds) Hi (Hc & Hl & Hsec) Hb.
  destruct (sd_read (cluster_start ctx c) (spc ctx) buf d Hi) as (d' & E & Hi');
    [unfold cluster_start; nia|done|lia|done|done|].
  exists d'. split; [|done]. unfold read_cluster, cluster_lba.
  rewrite u64_sub_ok by lia. exec_simpl. rewrite u64_mul_ok by nia. exec_simpl. rewrite u64_add_ok by nia.
  erewrite op_bind_ok by done. rewrite Z.mod_small by lia. unfold fat_read_sectors, try_catch. rewrite Hd.
  unfold cluster_start in E. by rewrite E.
Qed.

(** ** Reading a file *)
Section Window.
Context (T O : nat).

(** The part of [pre] inside the requested range. *)
Definition window (pre : list Z) : list Z := take T (drop O pre).

Lemma window_app pre cd :
  window (pre ++ cd) = window pre ++ take (T - length (window pre)) (drop (O - length pre) cd).
Proof.
  unfold window. rewrite drop_app, take_app. f_equal. f_equal. rewrite length_take, length_drop. lia.
Qed.

Lemma window_short pre cd : (length pre + length cd ≤ O)%nat → window (pre ++ cd) = window pre.
Proof. intros. rewrite window_app, (drop_ge cd) by lia. by rewrite take_nil, app_nil_r. Qed.

Lemma window_full pre cd : (O + T ≤ length pre)%nat → window (pre ++ cd) = window pre.
Proof.
  intros. rewrite window_app. unfold window at 2. rewrite length_take, length_drop.
  replace (T - _)%nat with 0%nat by lia. by rewrite app_nil_r.
Qed.

Lemma length_window pre : length (window pre) = min T (length pre - O).
Proof. unfold window. by rewrite length_take, length_drop. Qed.
End Window.

(** The piece the loop copies from the cluster that starts at [st]. *)
Lemma piece_window (T O cs st : Z) (pre cd : list Z) :
  let W := window (Z.to_nat T) (Z.to_nat O) in
  let in_start := if st <? O then O - st else 0 in
  let len := Z.min (O + T) (st + cs) - st - in_start in
  let piece := take (Z.to_nat len) (drop (Z.to_nat in_start) cd) in
  0 < T → 0 < cs → 0 ≤ O → 0 ≤ st → O < st + cs → st < O + T →
  length pre = Z.to_nat st → length cd = Z.to_nat cs →
  W (pre ++ cd) = W pre ++ piece ∧ Z.to_nat (st + in_start - O) = length (W pre) ∧
  Z.of_nat (length piece) = len ∧ Z.to_nat (st + in_start - O + len) = (length (W pre) + length piece)%nat.
Proof.
  intros W in_start len piece HT Hcs HO Hst H1 H2 Hp Hc.
  pose proof (length_window (Z.to_nat T) (Z.to_nat O) pre) as HWl. fold W in HWl.
  assert (Hin : 0 ≤ in_start < cs ∧ Z.to_nat in_start = (Z.to_nat O - length pre)%nat).
  { subst in_start. destruct (Z.ltb_spec st O); lia. }
  assert (Hd : 0 ≤ st + in_start - O ∧ Z.to_nat (st + in_start - O) = length (W pre)).
  { rewrite HWl. subst in_start. clear -HT Hcs HO Hst H1 H2 Hp. destruct (Z.ltb_spec st O); lia. }
  assert (Hl : 0 ≤ len ∧ Z.to_nat len = min (Z.to_nat T - length (W pre)) (Z.to_nat cs - Z.to_nat in_start)).
  { rewrite HWl. subst len in_start. clear -HT Hcs HO Hst H1 H2 Hp. destruct (Z.ltb_spec st O); lia. }
  clearbody in_start len. destruct Hin as [Hin1 Hin2], Hd as [Hd1 Hd2], Hl as [Hl1 Hl2].
  assert (Hpl : Z.of_nat (length piece) = len).
  { subst piece. rewrite length_take, length_drop. clear -Hl1 Hl2 Hc. lia. }
  split; [|split; [done|split; [done|clear -Hd1 Hd2 Hpl; lia]]].
  unfold W. rewrite window_app. fold W. f_equal. subst piece. rewrite Hl2, Hin2, <- take_take. f_equal.
  rewrite take_ge; [done|]. rewrite length_drop, <- Hin2. clear -Hc. lia.
Qed.

Lemma file_read_loop_ok ctx offset to_read chain : ∀ i pre cbuf buf d,
  ctx_ok ctx → inv d → Forall (data_ok ctx) chain → 0 ≤ offset → 0 < to_read → 0 ≤ i →
  length cbuf = Z.to_nat (cluster_bytes ctx) →
  length pre = Z.to_nat (i * cluster_bytes ctx) →
  let W := window (Z.to_nat to_read) (Z.to_nat offset) in
  to_read ≤ length buf → take (length (W pre)) buf = W pre →
  ∃ buf' n d', file_read_loop ctx offset to_read i chain cbuf buf (length (W pre)) d = Ret (Ok (buf', n), d') ∧
    inv d' ∧ take (Z.to_nat n) buf' = W (pre ++ contents ctx chain).
Proof.
  induction chain as [|c chain IH]; intros i pre cbuf buf d Hx Hi Hch Ho Ht Hi0 Hcb Hpre W Hlen Hbuf.
  { exists buf, (Z.of_nat (length (W pre))), d. split; [done|]. split; [done|].
    unfold contents. simpl. by rewrite Nat2Z.id, app_nil_r. }
  inversion_clear Hch as [|?? Hc Hch']. pose proof Hx as (_ & Hs & _).
  pose proof (length_cluster ctx c Hx Hc) as Hcl. set (cs := cluster_bytes ctx) in *.
  assert (Hcs : 0 < cs) by (subst cs; unfold cluster_bytes; lia).
  assert (Hcont : contents ctx (c :: chain) = cluster_data ctx c ++ contents ctx chain) by done.
  assert (Hpre' : length (pre ++ cluster_data ctx c) = Z.to_nat ((i + 1) * cs)) by (rewrite length_app; nia).
  rewrite Hcont, app_assoc. cbn [file_read_loop]. cbv zeta. fold cs.
  pose proof (length_window (Z.to_nat to_read) (Z.to_nat offset) pre) as HWl. fold W in HWl.
  destruct (Z.leb_spec (i * cs + cs) offset).
  { assert (HW : W (pre ++ cluster_data ctx c) = W pre) by (apply window_short; nia).
    rewrite <- HW. apply IH; try done; [lia|fold W; by rewrite HW]. }
  destruct (Z.leb_spec (offset + to_read) (i * cs)).
  { exists buf, (Z.of_nat (length (W pre))), d. split; [done|]. split; [done|].
    rewrite Nat2Z.id, Hbuf. unfold W. rewrite !window_full; [done|lia|rewrite length_app; lia]. }
  destruct (read_cluster_ok ctx c cbuf d Hx Hi Hc Hcb) as (d' & E & Hi'). rewrite (op_bind_ok _ _ _ _ _ E).
  destruct (piece_window to_read offset cs (i * cs) pre (cluster_data ctx c)) as (Hp & Hdst & Hpl & Hend);
    [done|done|done|clear -Hi0 Hcs; nia|done|done|done|done|]. fold W in Hp, Hdst, Hend.
  set (piece := take _ (drop _ (cluster_data ctx c))) in *. rewrite Hend, Hdst, <- Hpl.
  replace (length (W pre) + length piece) with (Z.of_nat (length (W (pre ++ cluster_data ctx c))))
    by (rewrite Hp, length_app; clear; lia).
  apply IH; try done; [clear -Hi0; lia|..].
  - rewrite !length_app, length_take, length_drop. clear -Hlen. lia.
  - fold W. rewrite Hp, length_app, Hbuf, app_assoc. rewrite take_app_length'; [done|by rewrite length_app].
Qed.

(** C39: Following a cluster chain ends on every disk, also when the table is
    corrupt or cyclic or has sectors that cannot be read. For every volume and start
    cluster the driver returns the clusters the table links from the start, cut
    after [MAX_CHAIN + 1] of them, or [EIO] if it meets a sector of the table that
    cannot be read; it does not panic. *)
Theorem fat32_chain_total ctx c d :
  ctx_ok ctx → inv d → 0 ≤ c < U32 →
  ∃ r d', cluster_chain ctx c d = Ret (r, d') ∧ inv d' ∧
    match follow ctx (Z.to_nat (MAX_CHAIN + 1)) c with
    | Some chain => r = Ok chain ∧ length chain ≤ MAX_CHAIN + 1
    | None => r = Err EIO
    end ∧ (∀ chain, linked ctx c chain → r = Ok (take (Z.to_nat (MAX_CHAIN + 1)) chain)).
Proof.
  intros Hx Hi Hc. destruct (cluster_chain_ok ctx c d Hx Hi Hc) as (d' & E & Hi').
  eexists _, d'. split; [exact E|]. split; [done|]. split.
  - destruct (follow ctx _ c) as [l|] eqn:Ef; [|done]. split; [done|]. apply follow_length in Ef. unfold MAX_CHAIN in *. lia.
  - intros chain Hl. by rewrite (follow_linked _ _ _ Hl).
Qed.

(** C40: Reading a file whose clusters the table links to the end mark and which
    are on the disk gives, for every offset and length, exactly the bytes of its
    first [MAX_CHAIN + 1] clusters in chain order that lie in the requested range
    and below the file's size; reads that cross cluster borders included. A file
    of more clusters is cut there. *)
Theorem fat32_read_correct ctx c chain sz ino offset len n d :
  let cut := take (Z.to_nat (MAX_CHAIN + 1)) chain in
  ctx_ok ctx → inv d → 0 ≤ c < U32 → linked ctx c chain → Forall (data_ok ctx) cut → 0 ≤ offset → 0 ≤ len →
  ∃ d', fat_read (Fat32FileInode ctx c sz ino) offset len (n, d) =
          Ret (Ok (take (Z.to_nat (Z.min len (sz - offset)))
                        (drop (Z.to_nat offset) (contents ctx cut))), (n, d')) ∧ inv d'.
Proof.
  intros cut Hx Hi Hc Hlk Hch Ho Hl. unfold fat_read.
  destruct ((sz <=? offset) || (len =? 0)) eqn:E0.
  { exists d. split; [|done]. unfold mret, op_ret. replace (Z.to_nat (Z.min len (sz - offset))) with 0%nat; [done|].
    apply orb_true_iff in E0 as [?%Z.leb_le|?%Z.eqb_eq]; lia. }
  apply orb_false_iff in E0 as [E1%Z.leb_gt E2%Z.eqb_neq].
  destruct (cluster_chain_ok ctx c d Hx Hi Hc) as (d1 & E & Hi1). rewrite (follow_linked _ _ _ Hlk) in E. fold cut in E.
  erewrite op_bind_ok by (unfold lift; rewrite E; reflexivity).
  destruct (file_read_loop_ok ctx offset (Z.min len (sz - offset)) cut 0 []
              (replicate (Z.to_nat (cluster_bytes ctx)) 0) (replicate (Z.to_nat len) 0) d1)
    as (buf' & k & d2 & E3 & Hi2 & Hk); rewrite ?length_replicate; try done; try lia.
  { unfold window. by rewrite drop_nil, take_nil. }
  unfold window in E3 at 1. rewrite drop_nil, take_nil in E3. cbn [length] in E3.
  change (Z.of_nat 0) with 0 in E3.
  erewrite op_bind_ok by (unfold lift; rewrite E3; reflexivity).
  exists d2. split; [|done]. unfold mret, op_ret. cbn [fst snd]. by rewrite Hk.
Qed.

(** ** Volumes that are found

    Every file system that [probe_drive] finds is a volume as above. *)
Definition volume (i : fat_inode) : Prop :=
  ∃ ctx ino, i = Fat32DirInode ctx (root_cluster ctx) ino ∧ ctx_ok ctx ∧ 0 ≤ root_cluster ctx < U32.

Lemma probe_volume part n d : inv d → 0 ≤ part < U32 →
  ∃ r n' d', probe drv part (n, d) = Ret (Ok r, (n', d')) ∧ inv d' ∧ ∀ i, r = Some i → volume i.
Proof.
  intros Hi Hp. destruct (sd_one part ZERO_SECTOR d Hi) as (x & d' & E & Hi' & Hx); [lia|done|].
  unfold probe, try_catch, lift. rewrite E. cbn [fst snd].
  destruct x as [bs|e]; [|by exists None, n, d'].
  destruct (dk part) as [bs0|] eqn:Ed; [|by destruct Hx]. injection Hx as ->. destruct (sd_sector part bs0 Ed) as [_ Hb].
  destruct (negb (byte_at bs0 510 =? 0x55) || negb (byte_at bs0 511 =? 0xAA)); [by exists None, n, d'|].
  destruct (negb (le16 bs0 11 =? 512)); [by exists None, n, d'|].
  destruct (negb (le16 bs0 22 =? 0) || (le32 bs0 36 =? 0) || (byte_at bs0 13 =? 0)) eqn:Es; [by exists None, n, d'|].
  destruct (negb (bool_decide _)); [by exists None, n, d'|]. apply orb_false_iff in Es as [_ Es%Z.eqb_neq].
  pose proof (byte_at_bound bs0 13 Hb). pose proof (byte_at_bound bs0 16 Hb). unfold Machine.is_byte in *. pose proof (le_bound bs0 14 Hb).
  pose proof (le_bound bs0 36 Hb). pose proof (le_bound bs0 44 Hb).
  rewrite u64_add_ok by lia. erewrite op_bind_ok by done. rewrite u64_add_ok by nia. erewrite op_bind_ok by done.
  eexists _, _, d'. split; [done|]. split; [done|]. intros i [= <-]. refine (ex_intro _ _ (ex_intro _ _ (conj eq_refl _))).
  split; [|cbn; lia]. unfold ctx_ok. cbn [fdrive spc fat_start data_start]. split; [done|]. split; [lia|]. split; [lia|nia].
Qed.

Lemma probe_parts_volume ps : ∀ n d, inv d → Forall (λ p, ∀ q, p = Some q → 0 ≤ lba_start q < U32) ps →
  ∃ r n' d', probe_parts drv ps (n, d) = Ret (Ok r, (n', d')) ∧ inv d' ∧ ∀ i, r = Some i → volume i.
Proof.
  induction ps as [|[p|] ps IH]; intros n d Hi Hp; cbn [probe_parts]; [by exists None, n, d|..];
    apply Forall_cons in Hp as [Hp Hps]; [|by apply IH].
  destruct (is_fat32 p); [|by apply IH].
  destruct (probe_volume (lba_start p) n d Hi (Hp p eq_refl)) as (x & n1 & d1 & E & Hi1 & Hx).
  rewrite (op_bind_ok _ _ _ _ _ E). destruct x as [fs|]; [by exists (Some fs), n1, d1|by apply IH].
Qed.

Lemma probe_drive_volume n d : inv d →
  ∃ r n' d', probe_drive drv (n, d) = Ret (Ok r, (n', d')) ∧ inv d' ∧ ∀ i, r = Some i → volume i.
Proof.
  intros Hi. destruct (sd_one 0 ZERO_SECTOR d Hi) as (x & d1 & E & Hi1 & Hx); [lia|done|].
  assert (Em : ∃ ps, mbr_read drv d = Ret (Ok ps, d1) ∧
    ∀ l, ps = Some l → Forall (λ p, ∀ q, p = Some q → 0 ≤ lba_start q < U32) l).
  { unfold mbr_read, try_catch. rewrite E. destruct x as [bs|e]; [|by exists None].
    destruct (dk 0) as [bs0|] eqn:Ed; [|by destruct Hx]. injection Hx as ->. destruct (sd_sector 0 bs0 Ed) as [_ Hb].
    destruct (_ || _); [by exists None|]. eexists (Some _). split; [done|]. 
    assert (Hp : ∀ k q, partition_at bs0 k = Some q → 0 ≤ lba_start q < U32).
    { intros k q. unfold partition_at. destruct (_ && _); [|done]. intros [= <-]. by apply (le_bound bs0). }
    intros l [= <-]. do 4 (apply List.Forall_cons; [intros q Hq; exact (Hp _ q Hq)|]). constructor. }
  destruct Em as (ps & Em & Hps). unfold probe_drive. erewrite op_bind_ok by (unfold lift; rewrite Em; reflexivity).
  assert (Hr : ∃ r n' d', (match ps with Some parts => probe_parts drv parts | None => mret None end) (n, d1) = Ret (Ok r, (n', d')) ∧
    inv d' ∧ ∀ i, r = Some i → volume i).
  { destruct ps as [parts|]; [apply probe_parts_volume; auto|by exists None, n, d1]. }
  destruct Hr as (y & n2 & d2 & E2 & Hi2 & Hy). rewrite (op_bind_ok _ _ _ _ _ E2).
  destruct y as [fs|]; [by exists (Some fs), n2, d2|]. by apply probe_volume.
Qed.
End Correct.

(** ** The IDE disks

    [ide::read_sectors] on a drive of an ATA channel is such a disk. A command has
    no room for the upper bits of the address, so that the sectors repeat. *)
#[global] Instance ide_disks {D} `{!Ports D} (DRIVES : list Drive) : Disks D := λ idx lba count buf, Ide.read_sectors DRIVES idx lba count buf.

Section IdeDisk.
Context (base ctrl : Z) (latency : nat) (Hctrl : ¬ (base ≤ ctrl ≤ base + 7)) (Hlat : (latency < POLLS)%nat).
Context (DRIVES : list Drive) (idx : Z) (dr : Drive) (Hdr : DRIVES !! Z.to_nat idx = Some dr) (Hch : on_channel base ctrl dr).
Context (image : disk) (cap : Z) (Himg : disk_ok image).
#[local] Instance channel_ports : Ports ata := ata_ports base ctrl latency.

Definition holds_image (d : ata) : Prop :=
  idle d ∧ disks d (Z.land (drive dr) 1) = image ∧ capacity d (Z.land (drive dr) 1) = cap.
Definition image_sector (s : Z) : option (list Z) :=
  let a := s mod modulus dr in if a <? cap then Some (image a) else None.

Lemma ide_sector_disk : SectorDisk (dsk := ide_disks DRIVES) idx holds_image image_sector (modulus dr).
Proof.
  assert (Hw : 256 ≤ width dr) by (unfold width; destruct (lba48 dr); lia).
  split.
  - intros lba buf d (Hid & Hd & Hc) Hl Hb. rewrite <- Hd in Himg.
    destruct (read_sectors_ok base ctrl latency Hctrl Hlat DRIVES idx dr lba 1 d Hdr Hch ltac:(lia) ltac:(lia) Hid buf Himg ltac:(lia))
      as (d' & E & Hid' & Hd' & Hc').
    eexists _, d'. split; [exact E|]. split; [unfold holds_image; rewrite Hd', Hc'; done|].
    unfold image_sector. rewrite Hd, Hc. 
    destruct (Z.leb_spec (lba mod modulus dr + 1) cap), (Z.ltb_spec (lba mod modulus dr) cap); try lia; [|eauto].
    f_equal. apply app_nil_r.
  - intros lba count buf d (Hid & Hd & Hc) Hl0 Hl Hcnt Hb Hs. rewrite <- Hd in Himg.
    destruct (read_sectors_ok base ctrl latency Hctrl Hlat DRIVES idx dr lba count d Hdr Hch ltac:(lia) ltac:(lia) Hid buf Himg Hb)
      as (d' & E & Hid' & Hd' & Hc').
    exists d'. split; [|unfold holds_image; rewrite Hd', Hc'; done].
    rewrite Z.mod_small in E by lia. rewrite Hd, Hc in E.
    assert (Hcap : ∀ s, lba ≤ s < lba + count → s < cap ∧ image_sector s = Some (image s)).
    { intros s Hr. destruct (Hs s Hr) as [bs Ebs]. unfold image_sector in *. rewrite Z.mod_small in * by lia.
      destruct (Z.ltb_spec s cap); done. }
    destruct (Hcap (lba + count - 1)) as [Hlast _]; [lia|]. rewrite (proj2 (Z.leb_le _ _)) in E by lia.
    etransitivity; [exact E|]. do 3 f_equal. unfold bytes_run. apply Forall_bind_ext, Forall_forall.
    intros s Hr%elem_of_seqZ. by rewrite (proj2 (Hcap s ltac:(lia))).
  - intros s bs. unfold image_sector. destruct (_ <? _); [|done]. intros [= <-]. apply Himg.
Qed.
End IdeDisk.

(** ** Long file names

    The on-disk form of a name of UTF-16 units: 13 units per entry, the last
    entry padded with a zero and then [0xFFFF], stored last entry first. *)
Definition unit_bytes (u : list Z) : list Z := u ≫= λ c, [c mod 256; c / 256].

Definition lfn_entry (ord : Z) (u : list Z) : list Z :=
  [ord] ++ unit_bytes (take 5 u) ++ [0x0F; 0; 0] ++ unit_bytes (take 6 (drop 5 u)) ++ [0; 0] ++
  unit_bytes (drop 11 u).

Fixpoint lfn_split (n : nat) (us : list Z) : list (list Z) :=
  match n with
  | O => []
  | S n => take 13 (us ++ 0 :: replicate 12 0xFFFF) :: lfn_split n (drop 13 us)
  end.

Definition lfn_encode (n : nat) (us : list Z) : list (list Z) :=
  reverse (imap (λ k u, lfn_entry (if (S k =? n)%nat then 0x41 + k else 1 + k) u) (lfn_split n us)).

Definition unit_ok (c : Z) : Prop := 0 < c < 0xFFFF ∧ ¬ (0xD800 ≤ c ≤ 0xDFFF).

Lemma unit_join c : c mod 256 + 256 * (c / 256) = c.
Proof. pose proof (Z.div_mod c 256). lia. Qed.

Lemma lfn_chars_entry ord u : length u = 13%nat → lfn_chars (lfn_entry ord u) = u.
Proof.
  intros Hl. do 13 (destruct u as [|? u]; [discriminate Hl|]). destruct u; [|discriminate Hl].
  unfold lfn_chars, lfn_entry, unit_bytes, le16, byte_at. simpl.
  by rewrite !unit_join.
Qed.

Lemma byte_at_entry ord u :
  length u = 13%nat → byte_at (lfn_entry ord u) 0 = ord ∧ byte_at (lfn_entry ord u) 11 = 0x0F.
Proof. intros Hl. do 13 (destruct u as [|? u]; [discriminate Hl|]). by destruct u. Qed.

Lemma lfn_split_length n us : length (lfn_split n us) = n.
Proof. revert us. induction n as [|n IH]; intros us; simpl; [done|]. by rewrite IH. Qed.

Lemma lfn_split_13 n us : Forall (λ u, length u = 13%nat) (lfn_split n us).
Proof.
  revert us. induction n as [|n IH]; intros us; [constructor|]. cbn [lfn_split]. constructor; [|done].
  rewrite length_take, length_app. cbn [length]. rewrite length_replicate. lia.
Qed.

Definition chunk_text (u : list Z) : str :=
  take_until (λ c, (c =? 0) || (c =? 0xFFFF)) u ≫= λ c, utf8 (char_or_q c).

Lemma take_until_app stop l1 l2 :
  Forall (λ x, stop x = false) l1 → take_until stop (l1 ++ l2) = l1 ++ take_until stop l2.
Proof. induction 1 as [|x l1 Hx Hf IH]; simpl; [done|]. by rewrite Hx, IH. Qed.

Lemma unit_continues us :
  Forall unit_ok us → Forall (λ x, (x =? 0) || (x =? 0xFFFF) = false) us.
Proof.
  intros Hu. eapply Forall_impl; [exact Hu|]. intros x [? ?]. destruct (Z.eqb_spec x 0), (Z.eqb_spec x 0xFFFF); simpl; lia || done.
Qed.

Lemma units_text us : Forall unit_ok us → (us ≫= λ c, utf8 (char_or_q c)) = us ≫= utf8.
Proof.
  induction 1 as [|c us [_ Hc] Hf IH]; [done|]. rewrite !bind_cons, IH. f_equal. unfold char_or_q.
  destruct (Z.leb_spec 0xD800 c), (Z.leb_spec c 0xDFFF); simpl; lia || done.
Qed.

(** The chunks hold the name, 13 units at a time. *)
Lemma lfn_split_text n : ∀ us,
  Forall unit_ok us → (length us ≤ 13 * n)%nat → (lfn_split n us ≫= chunk_text) = us ≫= utf8.
Proof.
  induction n as [|n IH]; intros us Hu Hl; [by destruct us; simpl in *; [|lia]|].
  cbn [lfn_split]. rewrite bind_cons, IH; [|by apply Forall_drop|rewrite length_drop; lia].
  assert (Hc : chunk_text (take 13 (us ++ 0 :: replicate 12 0xFFFF)) = take 13 us ≫= utf8).
  { unfold chunk_text. rewrite take_app. rewrite take_until_app by (by apply unit_continues, Forall_take).
    assert (Hz : take_until (λ c, (c =? 0) || (c =? 0xFFFF))
                   (take (13 - length us) (0 :: replicate 12 0xFFFF)) = []).
    { by destruct (13 - length us)%nat. }
    rewrite Hz, app_nil_r. apply units_text. by apply Forall_take. }
  rewrite Hc, <- bind_app, take_drop. done.
Qed.

(** Long-name entries only collect their chunk. *)
Lemma scan_lfn l : ∀ sc,
  stop sc = false → Forall (λ r, ∃ ord u, r = lfn_entry ord u ∧ length u = 13%nat ∧ ord ≠ 0 ∧ ord ≠ 0xE5) l →
  foldl scan_entry sc l =
    {| entries := entries sc; lfn_chunks := lfn_chunks sc ++ (lfn_chars <$> l); stop := false |}.
Proof.
  induction l as [|r l IH]; intros sc Hs Hl; csimpl.
  { rewrite app_nil_r. by destruct sc; simpl in *; subst. }
  inversion_clear Hl as [|?? (ord & u & -> & Hu & H0 & HE) Hl'].
  destruct (byte_at_entry ord u Hu) as [Hb0 Hb11].
  assert (E : scan_entry sc (lfn_entry ord u) =
    {| entries := entries sc; lfn_chunks := lfn_chunks sc ++ [lfn_chars (lfn_entry ord u)]; stop := false |}).
  { unfold scan_entry. rewrite Hs, Hb0, Hb11. by rewrite !(proj2 (Z.eqb_neq _ _)) by done. }
  rewrite E, IH by done. simpl. by rewrite <- app_assoc.
Qed.

(** A short entry that ends a long name: in use, and neither a label nor a dot
    entry. *)
Definition short_ok (raw : list Z) : Prop :=
  (byte_at raw 0 ∉ [0; 0xE5; 46]) ∧ byte_at raw 11 ≠ 0x0F ∧
  (Z.land (byte_at raw 11) 0x08 = 0 ∨ Z.land (byte_at raw 11) 0x10 ≠ 0).

Lemma scan_short sc raw :
  stop sc = false → lfn_chunks sc ≠ [] → short_ok raw →
  scan_entry sc raw =
    {| entries := entries sc ++
         [{| fe_name := lfn_name (lfn_chunks sc);
             first_cluster := Z.lor (Z.shiftl (le16 raw 20) 16) (le16 raw 26);
             file_size := le32 raw 28;
             fe_is_dir := negb (Z.land (byte_at raw 11) 0x10 =? 0) |}];
       lfn_chunks := []; stop := false |}.
Proof.
  intros Hs Hl (Hb & Ha & Hv). rewrite !not_elem_of_cons in Hb. destruct Hb as (H0 & HE & H46 & _).
  unfold scan_entry. rewrite Hs, !(proj2 (Z.eqb_neq (byte_at raw 0) _)), (proj2 (Z.eqb_neq _ 0x0F)) by done.
  assert (negb (Z.land (byte_at raw 11) 0x08 =? 0) && (Z.land (byte_at raw 11) 0x10 =? 0) = false) as ->.
  { destruct Hv as [->|Hv]; [done|]. rewrite (proj2 (Z.eqb_neq _ _) Hv). apply andb_false_r. }
  by destruct (lfn_chunks sc).
Qed.

Lemma lfn_chars_encode n us : lfn_chars <$> lfn_encode n us = reverse (lfn_split n us).
Proof.
  unfold lfn_encode. rewrite fmap_reverse. f_equal. rewrite fmap_imap.
  pose proof (lfn_split_13 n us) as Hf. revert Hf. generalize (lfn_split n us). intros l Hf.
  transitivity (imap (λ _ u, u) l); [|etransitivity; [apply (imap_const id)|apply list_fmap_id]].
  apply imap_ext. intros k u Hu. simpl. apply lfn_chars_entry. by eapply (Forall_lookup_1 _ _ _ _ Hf).
Qed.

Lemma lfn_encode_entries n us :
  (n ≤ 20)%nat →
  Forall (λ r, ∃ ord u, r = lfn_entry ord u ∧ length u = 13%nat ∧ ord ≠ 0 ∧ ord ≠ 0xE5) (lfn_encode n us).
Proof.
  intros Hn. unfold lfn_encode. apply Forall_reverse, Forall_lookup. intros k r.
  rewrite list_lookup_imap. destruct (lfn_split n us !! k) as [u|] eqn:E; [|done]. intros [= <-].
  pose proof (lookup_lt_Some _ _ _ E) as Hk. rewrite lfn_split_length in Hk.
  do 2 eexists. split; [done|]. split; [by apply (Forall_lookup_1 _ _ _ _ (lfn_split_13 n us) E)|].
  clear -Hk Hn. destruct n as [|n]; [lia|]. destruct (k =? n)%nat; lia.
Qed.

(** Long file names survive the round trip through the directory: scanning
    the entries that encode a name of up to 255 UTF-16 units outside the
    surrogates, followed by its short entry, yields one entry with exactly
    that name in UTF-8 and the short entry's cluster, size and type. *)
Theorem lfn_roundtrip n us raw sc :
  Forall unit_ok us → us ≠ [] → (length us ≤ 13 * n)%nat → (0 < n ≤ 20)%nat →
  stop sc = false → lfn_chunks sc = [] → short_ok raw →
  foldl scan_entry sc (lfn_encode n us ++ [raw]) =
    {| entries := entries sc ++
         [{| fe_name := us ≫= utf8;
             first_cluster := Z.lor (Z.shiftl (le16 raw 20) 16) (le16 raw 26);
             file_size := le32 raw 28;
             fe_is_dir := negb (Z.land (byte_at raw 11) 0x10 =? 0) |}];
       lfn_chunks := []; stop := false |}.
Proof.
  intros Hu Hne Hl Hn Hs Hc Hr. rewrite foldl_app. simpl.
  rewrite scan_lfn; [|done|apply lfn_encode_entries; lia]. rewrite Hc, lfn_chars_encode. simpl.
  rewrite scan_short; [|done| |done].
  - simpl. do 4 f_equal. unfold lfn_name. rewrite reverse_involutive. by apply lfn_split_text.
  - simpl. destruct n; [lia|]. cbn [lfn_split]. rewrite reverse_cons. by destruct (reverse _).
Qed.

Section Demo.
(** A volume of one-sector clusters on a disk of zeros: its file occupies the
    clusters 2 and 3, which hold ones and twos. *)
Definition demo_image (s : Z) : list Z :=
  if s =? 1 then replicate 8 0 ++ [3; 0; 0; 0] ++ [0xFF; 0xFF; 0xFF; 0x0F] ++ replicate 496 0
  else if s =? 10 then replicate 512 1
  else if s =? 11 then replicate 512 2
  else replicate 512 0.

(** The image on the master of the primary channel, 512 MiB. *)
Definition fat_drive : Drive :=
  {| channel := 0; drive := 0; lba48 := false; sectors := 1048576; model := []; serial := []; base := 0x1F0; ctrl := 0x3F6 |}.
Definition fat_ata : ata :=
  {| disks := λ _, demo_image; capacity := λ _, 1048576; hddevsel := 0; sc := (0, 0); l0 := (0, 0); l1 := (0, 0);
     l2 := (0, 0); pending := []; incoming := None; failed := false; busy := 0 |}.
Definition demo_vol : Fat32Ctx :=
  {| fdrive := 0; part_lba := 0; spc := 1; fat_start := 1; data_start := 10; root_cluster := 2 |}.

Lemma demo_image_ok : disk_ok demo_image.
Proof.
  intros s. unfold demo_image. repeat destruct (_ =? _); (split; [done|]);
    repeat first [apply Forall_app; split|apply Forall_replicate|constructor|unfold Ide.is_byte; lia].
Qed.

#[local] Instance fat_ports : Ports ata := ata_ports 0x1F0 0x3F6 3.
Abbreviation demo_sector := (image_sector fat_drive demo_image 1048576).
#[local] Instance demo_disk : SectorDisk (dsk := ide_disks [fat_drive]) 0 (holds_image fat_drive demo_image 1048576) demo_sector (2 ^ 28).
Proof. apply (ide_sector_disk 0x1F0 0x3F6 3); [lia|unfold POLLS; lia|reflexivity|by split|exact demo_image_ok]. Qed.

Lemma fat_ata_holds : holds_image fat_drive demo_image 1048576 fat_ata.
Proof. repeat split; unfold POLLS; cbn; lia. Qed.

Lemma demo_vol_ok : ctx_ok (drv := 0) demo_vol.
Proof. unfold ctx_ok. simpl. lia. Qed.

Lemma demo_linked : linked (dk := demo_sector) demo_vol 2 [2; 3].
Proof.
  apply (LkNext _ _ 3); [lia|vm_compute; reflexivity|done|].
  apply (LkEnd _ _ 0x0FFFFFFF); [lia|vm_compute; reflexivity|done].
Qed.

Lemma fat32_chain_total_witness :
  ∃ d', cluster_chain (dsk := ide_disks [fat_drive]) demo_vol 2 fat_ata = Ret (Ok [2; 3], d').
Proof.
  destruct (fat32_chain_total (dsk := ide_disks [fat_drive]) demo_vol 2 fat_ata demo_vol_ok fat_ata_holds ltac:(lia))
    as (x & d' & E & _ & _ & Hl).
  exists d'. rewrite E, (Hl _ demo_linked). rewrite take_ge; [reflexivity|]. unfold MAX_CHAIN. cbn [length]. lia.
Defined.

Lemma fat32_read_correct_witness :
  ∃ d', fat_read (dsk := ide_disks [fat_drive]) (Fat32FileInode demo_vol 2 600 5) 510 4 (9, fat_ata) =
          Ret (Ok [1; 1; 2; 2], (9, d')).
Proof.
  assert (Hc : take (Z.to_nat (MAX_CHAIN + 1)) [2; 3] = [2; 3]) by (apply take_ge; unfold MAX_CHAIN; cbn [length]; lia).
  destruct (fat32_read_correct (dsk := ide_disks [fat_drive]) demo_vol 2 [2; 3] 600 5 510 4 9 fat_ata demo_vol_ok fat_ata_holds ltac:(lia) demo_linked)
    as (d' & E & _); [|lia|lia|].
  - rewrite Hc. repeat constructor; try (unfold cluster_start; cbn; lia);
      (intros s Hs; unfold cluster_start in Hs; cbn in Hs; unfold image_sector; rewrite Z.mod_small by (cbn; lia);
       rewrite (proj2 (Z.ltb_lt _ _)) by lia; by eexists).
  - exists d'. rewrite Hc in E. exact E.
Defined.

(** The entry of the name [ab] and its short entry [AB~1]. *)
Lemma lfn_roundtrip_witness :
  entries (foldl scan_entry {| entries := []; lfn_chunks := []; stop := false |}
             (lfn_encode 1 [97; 98] ++ [[65; 66; 126; 49] ++ replicate 28 32])) ≠ [].
Proof.
  rewrite (lfn_roundtrip 1 [97; 98]); [done|..]; try done.
  - repeat constructor; lia.
  - simpl. lia.
  - lia.
  - split; [compute_done|split; [done|by left]].
Defined.
End Demo.
