(* ===== verification/Shell.v ===== *)
(** The shell ([src/src/shell/mod.rs], [readline.rs] and [builtins.rs]): line
    editing, the splitting of a line into arguments, and the built-in commands
    over the virtual file system, the process table and the consoles. Each key comes
    with the number of times its reader slept, which [readline] reports. *)
From Stdlib Require Import String.
From S2P Require Import Prelude Machine Vga Bmp Pmm Effects Elf Proc Fork Exec Text Vfs Path Mount Timer Serial Console Pci Ide.
Arguments lit s%_string.

(** [str::parse::<usize>()] *)
Fixpoint parse_digits (acc : Z) (s : str) : option Z :=
  match s with
  | [] => Some acc
  | c :: s =>
      if between 48 57 c then
        let acc := acc * 10 + (c - 48) in
        if U64 <=? acc then None else parse_digits acc s
      else None
  end.
Definition parse_usize (s : str) : option Z :=
  match s with
  | [] => None
  | [c] => if (c =? 43) || (c =? 45) then None else parse_digits 0 s
  | c :: s' => parse_digits 0 (if c =? 43 then s' else s)
  end.

(** [args.join(" ")] *)
Fixpoint join (l : list str) : str :=
  match l with
  | [] => []
  | [a] => a
  | a :: l => a ++ 32 :: join l
  end.

(** ** [parse_args]; a [char] is its code point. *)
Definition QUOTE : Z := 34.
Definition APOSTROPHE : Z := 39.
Record parser := { p_args : list str; p_current : str; p_in_quote : bool; p_quote_char : Z }.

Definition parse_char (p : parser) (ch : Z) : parser :=
  if ((ch =? QUOTE) || (ch =? APOSTROPHE)) && negb (p_in_quote p) then
    {| p_args := p_args p; p_current := p_current p; p_in_quote := true; p_quote_char := ch |}
  else if p_in_quote p && (ch =? p_quote_char p) then
    {| p_args := p_args p; p_current := p_current p; p_in_quote := false; p_quote_char := p_quote_char p |}
  else if ((ch =? 32) || (ch =? 9)) && negb (p_in_quote p) then
    match p_current p with
    | [] => p
    | _ => {| p_args := p_args p ++ [p_current p]; p_current := []; p_in_quote := p_in_quote p; p_quote_char := p_quote_char p |}
    end
  else {| p_args := p_args p; p_current := p_current p ++ [ch]; p_in_quote := p_in_quote p; p_quote_char := p_quote_char p |}.

Definition parse_args (line : str) : list str :=
  let p := foldl parse_char {| p_args := []; p_current := []; p_in_quote := false; p_quote_char := QUOTE |} line in
  match p_current p with
  | [] => p_args p
  | _ => p_args p ++ [p_current p]
  end.

(** ** The state the shell works on

    [w_keys] are the characters that the blocking reads of the keyboard return,
    in order, each with the number of times that the shell goes to sleep before it
    is there; when there is none left the shell waits. What other processes do
    while it sleeps is not part of the model: they leave its world alone. *)
Record world {St I : Type} := {
  w_con : console; w_vfs : VfsContext I; w_fs : St; w_mm : mm; w_rq : sched; w_clock : clock;
  w_keys : list (nat * Z); w_drives : list Drive; w_pci : list PciDevice
}.
Arguments world : clear implicits.

(** What is left to do after a command. *)
Inductive after := Continue | Reboot | Halt.

Section Shell.
Context {hh : Hhdm} {St I : Type} {ops : InodeOps St I}.
Context (FONT : list Z) (KERNEL_PML4_PHYS iretq_trampoline : Z).
(** [fat32::probe_drive]: the root of the file system on a drive *)
Context (probe_drive : Z → op St (option I)).
Implicit Types (w : world St I) (args : list str) (path : str).

(** A command changes the world and cannot fail. *)
Definition act := fallible Empty_set (world St I).

Definition set_con w (c : console) : world St I := {| w_con := c; w_vfs := w_vfs w; w_fs := w_fs w; w_mm := w_mm w; w_rq := w_rq w;
  w_clock := w_clock w; w_keys := w_keys w; w_drives := w_drives w; w_pci := w_pci w |}.
Definition set_vfs w (x : VfsContext I * St) : world St I := {| w_con := w_con w; w_vfs := x.1; w_fs := x.2; w_mm := w_mm w; w_rq := w_rq w;
  w_clock := w_clock w; w_keys := w_keys w; w_drives := w_drives w; w_pci := w_pci w |}.
Definition set_procs_mem w (s : mm) (rq : sched) : world St I := {| w_con := w_con w; w_vfs := w_vfs w; w_fs := w_fs w; w_mm := s; w_rq := rq;
  w_clock := w_clock w; w_keys := w_keys w; w_drives := w_drives w; w_pci := w_pci w |}.
Definition set_keys w (ks : list (nat * Z)) : world St I := {| w_con := w_con w; w_vfs := w_vfs w; w_fs := w_fs w; w_mm := w_mm w; w_rq := w_rq w;
  w_clock := w_clock w; w_keys := ks; w_drives := w_drives w; w_pci := w_pci w |}.

Definition get : act (world St I) := λ w, Ret (Ok w, w).

(** [shell_print!] and [shell_println!] *)
Definition print (s : str) : act unit := λ w, c ← shell_print FONT s (w_con w); Ret (Ok (), set_con w c).
Definition println (s : str) : act unit := print (s ++ [10]).
(** [serial::write_str] and [vga::write_str] alone *)
Definition print_serial (s : str) : act unit := λ w, Ret (Ok (), set_con w (serial_print s (w_con w))).
Definition print_vga (s : str) : act unit := λ w, c ← vga_print FONT s (w_con w); Ret (Ok (), set_con w c).
Definition screen (f : console → exec console) : act unit := λ w, c ← f (w_con w); Ret (Ok (), set_con w c).

(** [with_vfs]; the result of the operation is a value. *)
Definition with_vfs {A} (e : op (VfsContext I * St) A) : act (result A) := λ w,
  '(r, x) ← e (w_vfs w, w_fs w); Ret (Ok r, set_vfs w x).
Definition on_vfs {A} (f : VfsContext I → op St A) : act (result A) := with_vfs (v ← get_fst; lift (f v)).

(** [if let Err(e) = r { shell_println!("{}{}", msg, e.0) }] *)
Definition report {A} (msg : str) (r : result A) : act unit :=
  match r with
  | Ok _ => mret ()
  | Err e => println (msg ++ dec e)
  end.

Definition for_all {A} (f : A → act unit) : list A → act unit :=
  fix go l := match l with [] => mret () | x :: l => _ ← f x; go l end.

(** [keyboard::wait_key]: sleeping prints nothing. *)
Definition wait_key : act Z := λ w,
  match w_keys w with
  | [] => NoFuel
  | (_, k) :: ks => Ret (Ok k, set_keys w ks)
  end.

(** [read_char_blocking], which reports on the serial line *)
Fixpoint kb_sleeps (n : nat) : act unit :=
  match n with
  | O => mret ()
  | S n =>
      _ ← print_serial (lit "[KB] sleeping..." ++ [10]);
      _ ← print_serial (lit "[KB] woke up" ++ [10]);
      kb_sleeps n
  end.
Definition read_char_blocking : act Z :=
  w ← get;
  _ ← kb_sleeps (default O (fst <$> hd_error (w_keys w)));
  c ← wait_key;
  _ ← print_serial (lit "[KB] got char=0x" ++ hex 2 c ++ [10]);
  mret c.

(** ** [readline] *)
Fixpoint readline_loop (fuel : nat) (line : str) : act str :=
  match fuel with
  | O => λ _, NoFuel
  | S fuel =>
      c ← read_char_blocking;
      if (c =? 10) || (c =? 13) then _ ← print_serial [10]; _ ← print_vga [10]; mret line
      else if (c =? 8) || (c =? 127) then
        match line with
        | [] => readline_loop fuel line
        | _ => _ ← print_serial [8; 32; 8]; _ ← print_vga [8]; readline_loop fuel (removelast line)
        end
      else if c =? 3 then _ ← print_serial (lit "^C" ++ [10]); _ ← print_vga (lit "^C" ++ [10]); mret []
      else if (c =? 4) && bool_decide (line = []) then mret (lit "exit")
      else if (0x20 <=? c) && (c <? 0x7F) then
        _ ← print_serial [c]; _ ← print_vga [c]; readline_loop fuel (line ++ [c])
      else readline_loop fuel line
  end.
(** Each turn takes a character. *)
Definition readline : act str := w ← get; readline_loop (S (length (w_keys w))) [].

(** ** The built-in commands *)
Definition help_text : list str := lit <$> [
  "Built-in commands:";
  "  ls [path]          list directory contents";
  "  cd <path>          change directory";
  "  pwd                print working directory";
  "  cat <file>         print file contents";
  "  echo <text>        print text";
  "  mkdir <path>       create directory";
  "  touch <file>       create empty file";
  "  rm <file>          remove file";
  "  rmdir <dir>        remove empty directory";
  "  mv <src> <dst>     move/rename";
  "  cp <src> <dst>     copy file";
  "  write <file> <text> write text to file";
  "  stat <path>        show file info";
  "  ln -s <target> <link> create symlink";
  "  run <file> [args]  execute ELF binary from VFS";
  "  mount [n /path]    mount drive n at /path (no args: list mounts)";
  "  umount <path>      unmount filesystem";
  "  drives             list detected disk drives";
  "  lspci              list PCI devices";
  "  view <file.bmp>    display BMP image";
  "  clear              clear screen";
  "  history            command history";
  "  uname              system info";
  "  uptime             system uptime";
  "  free               memory usage";
  "  reboot             restart system";
  "  halt               halt system"]%string.
Definition cmd_help : act unit := for_all println help_text.

(** [sort_unstable_by] on the names *)
Fixpoint insert_entry (e : DirEntry) (l : list DirEntry) : list DirEntry :=
  match l with
  | [] => [e]
  | x :: l' => if str_lt (de_name x) (de_name e) then x :: insert_entry e l' else e :: l
  end.
Definition sort_entries (l : list DirEntry) : list DirEntry := foldr insert_entry [] l.

Definition entry_prefix (k : FileType) : str :=
  match k with
  | Directory => 27 :: lit "[34m"
  | Symlink => 27 :: lit "[36m"
  | CharDevice => 27 :: lit "[33m"
  | Regular => 27 :: lit "[0m"
  end.
Definition entry_suffix (k : FileType) : str := match k with Directory => lit "/" | Symlink => lit "@" | _ => [] end.

(** The columns of [ls]; [line_len] is what the line holds so far. *)
Fixpoint ls_entries (line_len : Z) (l : list DirEntry) : act Z :=
  match l with
  | [] => mret line_len
  | e :: l =>
      let suffix := entry_suffix (de_kind e) in
      let raw_len := Z.of_nat (length (de_name e) + length suffix) in
      _ ← print (entry_prefix (de_kind e) ++ de_name e ++ suffix ++ 27 :: lit "[0m");
      if 80 <=? line_len + raw_len + 20 then _ ← print [10]; ls_entries 0 l
      else
        let n := Z.max 0 (20 - raw_len) in
        _ ← for_all (λ _, print [32]) (seqZ 0 n);
        ls_entries (line_len + raw_len + n) l
  end.

(** [fuel] bounds the entries of a directory. *)
Definition cmd_ls (fuel : nat) args : act unit :=
  let path := default (lit ".") (hd_error args) in
  r ← on_vfs (λ v, readdir_all fuel v path);
  match r with
  | Err e => println (lit "ls: " ++ path ++ lit ": error " ++ dec e)
  | Ok entries =>
      n ← ls_entries 0 (sort_entries entries);
      if 0 <? n then print [10] else mret ()
  end.

Definition cmd_cd args : act unit :=
  let path := default (lit "/home/root") (hd_error args) in
  r ← with_vfs (cd path);
  report (lit "cd: " ++ path ++ lit ": error ") r.

Definition cmd_pwd : act unit := w ← get; println (cwd_path (w_vfs w)).

Definition missing_operand (cmd : str) : act unit := println (cmd ++ lit ": missing operand").

Definition cat_one path : act unit :=
  r ← on_vfs (λ v, read_file v path);
  match r with
  | Ok data => if utf8_valid data then print data else println (lit "cat: " ++ path ++ lit ": binary file")
  | Err e => println (lit "cat: " ++ path ++ lit ": error " ++ dec e)
  end.
Definition cmd_cat args : act unit := match args with [] => missing_operand (lit "cat") | _ => for_all cat_one args end.

Definition cmd_echo args : act unit := println (join args).

Definition cmd_mkdir args : act unit :=
  match args with
  | [] => missing_operand (lit "mkdir")
  | _ => for_all (λ path, r ← on_vfs (λ v, vfs_mkdir v path); report (lit "mkdir: " ++ path ++ lit ": error ") r) args
  end.

Definition cmd_touch args : act unit :=
  match args with
  | [] => missing_operand (lit "touch")
  | _ => for_all (λ path, r ← on_vfs (λ v, vfs_open v path (Z.lor O_CREAT O_WRONLY)); report (lit "touch: " ++ path ++ lit ": error ") r) args
  end.

(** The options are recognised and dropped. *)
Definition is_rm_option (a : str) : bool := bool_decide (a = lit "-r") || bool_decide (a = lit "-rf") || bool_decide (a = lit "-fr").
Definition cmd_rm args : act unit :=
  for_all (λ path, r ← on_vfs (λ v, vfs_unlink v path); report (lit "rm: " ++ path ++ lit ": error ") r)
    (List.filter (λ a, negb (is_rm_option a)) args).

Definition cmd_rmdir args : act unit :=
  match args with
  | [] => missing_operand (lit "rmdir")
  | _ => for_all (λ path, r ← on_vfs (λ v, vfs_rmdir v path); report (lit "rmdir: " ++ path ++ lit ": error ") r) args
  end.

Definition cmd_mv args : act unit :=
  match args with
  | a :: b :: _ => r ← on_vfs (λ v, vfs_rename v a b); report (lit "mv: error ") r
  | _ => missing_operand (lit "mv")
  end.

Definition cmd_cp args : act unit :=
  match args with
  | a :: b :: _ => r ← on_vfs (λ v, data ← read_file v a; write_file v b data); report (lit "cp: error ") r
  | _ => missing_operand (lit "cp")
  end.

Definition cmd_write args : act unit :=
  match args with
  | f :: ((_ :: _) as words) => r ← on_vfs (λ v, write_file v f (join words ++ [10])); report (lit "write: error ") r
  | _ => println (lit "write: usage: write <file> <text...>")
  end.

Definition kind_name (k : FileType) : str :=
  match k with
  | Regular => lit "regular file"
  | Directory => lit "directory"
  | Symlink => lit "symbolic link"
  | CharDevice => lit "character device"
  end.
Definition stat_one path : act unit :=
  r ← on_vfs (λ v, vfs_stat v path);
  match r with
  | Err e => println (lit "stat: " ++ path ++ lit ": error " ++ dec e)
  | Ok s =>
      _ ← println (lit "  File: " ++ path);
      _ ← println (lit "  Size: " ++ dec (size s) ++ lit "  Type: " ++ kind_name (kind s));
      _ ← println (lit " Inode: " ++ dec (st_ino s) ++ lit "  Links: " ++ dec (nlink s));
      println (lit "  Mode: " ++ octal (mode s))
  end.
Definition cmd_stat args : act unit := match args with [] => missing_operand (lit "stat") | _ => for_all stat_one args end.

Definition cmd_ln args : act unit :=
  match args with
  | o :: target :: link :: _ =>
      if bool_decide (o = lit "-s") then r ← on_vfs (λ v, vfs_symlink v target link); report (lit "ln: error ") r
      else println (lit "ln: usage: ln -s <target> <link>")
  | _ => println (lit "ln: usage: ln -s <target> <link>")
  end.

(** The messages of [Process::new_user] *)
Definition spawn_error (e : SpawnError) : str :=
  match e with
  | OOM_kernel_stack => lit "OOM: kernel stack"
  | OOM_address_space => lit "OOM: address space"
  | ELF_load_failed => lit "ELF load failed"
  | user_stack_build_failed => lit "user stack build failed"
  end.
Definition run_envp : list str := (λ s, s ++ [0]) <$> [lit "PATH=/bin"; lit "HOME=/root"; lit "TERM=linux"].
Definition new_user (path : str) (data : list Z) (argv envp : list str) (prio_ : Z) : act (outcome SpawnError Process) := λ w,
  '(r, s, rq) ← new_user_process KERNEL_PML4_PHYS iretq_trampoline path data argv envp prio_ (w_mm w) (w_rq w);
  Ret (Ok r, set_procs_mem w s rq).
Definition spawn_proc (p : Process) : act unit := λ w, Ret (Ok (), set_procs_mem w (w_mm w) (spawn_process (w_rq w) p)).

Definition cmd_run args : act unit :=
  match args with
  | [] => println (lit "run: usage: run <path> [args...]")
  | path :: _ =>
      r ← on_vfs (λ v, read_file v path);
      match r with
      | Err e => println (lit "run: " ++ path ++ lit ": error " ++ dec e)
      | Ok elf_data =>
          if negb (is_valid_elf elf_data) then println (lit "run: " ++ path ++ lit ": not a valid ELF64 binary") else
          r ← new_user path elf_data ((λ s, s ++ [0]) <$> args) run_envp 5;
          match r with
          | Ok p =>
              _ ← spawn_proc p;
              println (lit "Spawned '" ++ path ++ lit "' as pid " ++ dec (pid p))
          | Err e => println (lit "run: " ++ path ++ lit ": " ++ spawn_error e)
          end
      end
  end.

Definition cmd_mount args : act unit :=
  match args with
  | a :: mountpoint :: _ =>
      match parse_usize a with
      | None => println (lit "mount: invalid drive index")
      | Some drive_idx =>
          r ← on_vfs (λ _, probe_drive drive_idx);
          match r with
          | Ok (Some fs) =>
              r ← with_vfs (mount mountpoint fs);
              match r with
              | Err e => println (lit "mount: error " ++ dec e)
              | Ok _ => println (lit "mounted drive " ++ dec drive_idx ++ lit " at " ++ mountpoint)
              end
          | _ => println (lit "mount: no supported filesystem found on drive " ++ dec drive_idx)
          end
      end
  | _ => w ← get; for_all (λ mp, println (lit "  " ++ mp)) (list_mounts (w_vfs w))
  end.

Definition cmd_umount args : act unit :=
  match args with
  | [] => println (lit "umount: usage: umount <mountpoint>")
  | mp :: _ => r ← with_vfs (umount mp); report (lit "umount: " ++ mp ++ lit ": error ") r
  end.

(** [b'a' + i as u8] overflows from drive 159 on; there are at most four drives. *)
Definition drive_line (i : Z) (d : Drive) (mb : Z) : str :=
  lit "  hd" ++ [97 + i] ++ lit " — " ++ model d ++ lit " [" ++ dec mb ++ lit " MiB, LBA" ++ dec (if lba48 d then 48 else 28) ++ lit "]".
Definition cmd_drives : act unit :=
  w ← get;
  let ds := w_drives w in let count := drive_count ds in
  if count =? 0 then println (lit "No drives detected.")
  else for_all (λ i, match drive_info ds i with Some d => mb ← check (size_mb d); println (drive_line i d mb) | None => mret () end) (seqZ 0 count).

Definition pci_line (d : PciDevice) : str :=
  hex 2 (bus d) ++ lit ":" ++ hex 2 (dev d) ++ lit "." ++ dec (func d) ++ lit " [" ++ hex 4 (vendor_id d) ++ lit ":" ++ hex 4 (device_id d) ++
  lit "] " ++ lit (class_name d).
Definition cmd_lspci : act unit := w ← get; for_all (λ d, println (pci_line d)) (w_pci w).

Definition cmd_view args : act unit :=
  match args with
  | [] => println (lit "view: usage: view <file.bmp>")
  | path :: _ =>
      r ← on_vfs (λ v, read_file v path);
      match r with
      | Err e => println (lit "view: " ++ path ++ lit ": error " ++ dec e)
      | Ok data =>
          b ← check (decode data);
          match b with
          | Some bmp =>
              _ ← println (lit "Displaying " ++ dec (bmp_width bmp) ++ lit "x" ++ dec (bmp_height bmp) ++ lit " — press any key to exit");
              _ ← screen (vga_draw bmp);
              _ ← wait_key;
              screen vga_clear
          | None => println (lit "view: " ++ path ++ lit ": unsupported format (24-bit uncompressed BMP only)")
          end
      end
  end.

Definition cmd_clear : act unit := _ ← screen vga_clear; print_serial (27 :: lit "[2J" ++ 27 :: lit "[H").

(** ** [Shell::execute] and one turn of [Shell::run] *)
Definition cmd_history (history : list str) : act unit :=
  for_all (λ e, println (pad 32 4 (dec (e.1 + 1)) ++ lit "  " ++ e.2)) (zip (seqZ 0 (length history)) history).
Definition cmd_uptime : act unit :=
  w ← get;
  let ms := uptime_ms (w_clock w) in
  println (lit "up " ++ dec (ms / 60000) ++ lit "m " ++ dec (ms mod 60000 / 1000) ++ lit "s").
Definition cmd_free : act unit :=
  w ← get;
  a ← check (u64_mul (free_pages (w_mm w)) 4096);
  b ← check (u64_mul (total_pages (w_mm w)) 4096);
  _ ← println (lit "              total        free");
  println (lit "Mem:      " ++ pad 32 8 (dec (b / 1024)) ++ lit " K  " ++ pad 32 8 (dec (a / 1024)) ++ lit " K").

Definition done (e : act unit) : act after := _ ← e; mret Continue.

(** The commands by name. *)
Definition commands (fuel : nat) (history : list str) (rest : list str) : list (str * act after) := [
  (lit "help", done cmd_help);
  (lit "ls", done (cmd_ls fuel rest));
  (lit "cd", done (cmd_cd rest));
  (lit "pwd", done cmd_pwd);
  (lit "cat", done (cmd_cat rest));
  (lit "echo", done (cmd_echo rest));
  (lit "mkdir", done (cmd_mkdir rest));
  (lit "touch", done (cmd_touch rest));
  (lit "rm", done (cmd_rm rest));
  (lit "rmdir", done (cmd_rmdir rest));
  (lit "mv", done (cmd_mv rest));
  (lit "cp", done (cmd_cp rest));
  (lit "write", done (cmd_write rest));
  (lit "stat", done (cmd_stat rest));
  (lit "ln", done (cmd_ln rest));
  (lit "run", done (cmd_run rest));
  (lit "mount", done (cmd_mount rest));
  (lit "umount", done (cmd_umount rest));
  (lit "drives", done cmd_drives);
  (lit "lspci", done cmd_lspci);
  (lit "view", done (cmd_view rest));
  (lit "clear", done cmd_clear);
  (lit "history", done (cmd_history history));
  (lit "uname", done (println (lit "SarOS 0.1.0 x86_64")));
  (lit "uptime", done cmd_uptime);
  (lit "free", done cmd_free);
  (lit "reboot", mret Reboot);
  (lit "halt", mret Halt);
  (lit "poweroff", mret Halt)].

Definition execute (fuel : nat) (history : list str) (args : list str) : act after :=
  cmd ← check (expect (hd_error args));
  match List.find (λ e, bool_decide (e.1 = cmd)) (commands fuel history (tail args)) with
  | Some (_, f) => f
  | None => done (println (cmd ++ lit ": command not found"))
  end.

Definition is_space (c : Z) : bool := (c =? 32) || between 9 13 c.

Definition prompt (cwd : str) : str :=
  27 :: lit "[32mroot@saros" ++ 27 :: lit "[0m:" ++ 27 :: lit "[34m" ++ cwd ++ 27 :: lit "[0m# ".

(** The result is the history and what to do next. *)
Definition shell_turn (fuel : nat) (history : list str) : act (list str * after) :=
  w ← get;
  _ ← print (prompt (cwd_path (w_vfs w)));
  line ← readline;
  if forallb is_space line then mret (history, Continue) else
  let history := history ++ [line] in
  match parse_args line with
  | [] => mret (history, Continue)
  | args => a ← execute fuel history args; mret (history, a)
  end.

(** The loop of [run], until the machine stops or the shell waits for input;
    [turns] bounds the commands. *)
Fixpoint shell_loop (turns fuel : nat) (history : list str) : act (list str * after) :=
  match turns with
  | O => λ _, NoFuel
  | S turns =>
      '(history, a) ← shell_turn fuel history;
      match a with
      | Continue => shell_loop turns fuel history
      | _ => mret (history, a)
      end
  end.

(** The message of the day, on the screen only *)
Definition motd : act unit :=
  r ← on_vfs (λ v, read_file v (lit "/etc/motd"));
  match r with
  | Ok s => if utf8_valid s then print_vga s else mret ()
  | Err _ => mret ()
  end.
Definition run (turns fuel : nat) : act (list str * after) := _ ← motd; shell_loop turns fuel [].
End Shell.
