(* ===== verification/ShellProofs.v ===== *)
(** Properties of the shell: the arguments a line spells, the line that is read
    and echoed, and commands on the RAM file system seen from the keyboard to the
    screen. *)
From Stdlib Require Import String.
From S2P Require Import Prelude Machine Vga Pmm Effects Proc Exec Text Vfs Ramfs Path Mount VfsProofs Rootfs Timer Serial Console Shell.

(** A literal is bytes. *)
Lemma lit_bytes s : Forall is_byte (lit s).
Proof.
  induction s as [|c s IH]; cbn [lit]; constructor; [|done]. pose proof (Ascii.N_ascii_bounded c). unfold is_byte. lia.
Qed.

(** ** How a line spells its arguments

    An argument is written as pieces put side by side: text without blanks and
    quotes, or any text in quotes that do not occur in it. *)
Definition is_blank (c : Z) : bool := (c =? 32) || (c =? 9).
Definition is_quote (c : Z) : bool := (c =? QUOTE) || (c =? APOSTROPHE).

Inductive spells_arg : str → str → Prop :=
  | SpPlain a : a ≠ [] → Forall (λ c, is_blank c = false ∧ is_quote c = false) a → spells_arg a a
  | SpQuoted q a : is_quote q = true → a ≠ [] → q ∉ a → spells_arg a (q :: a ++ [q])
  | SpGlued a b x y : spells_arg a x → spells_arg b y → spells_arg (a ++ b) (x ++ y).

Inductive spells : list str → str → Prop :=
  | SpNil : spells [] []
  | SpBlank c args l : is_blank c = true → spells args l → spells args (c :: l)
  | SpLast a x : spells_arg a x → spells [a] x
  | SpCons a x c args l : spells_arg a x → is_blank c = true → spells args l → spells (a :: args) (x ++ c :: l).

(** The parser outside quotes. *)
Definition at_word (p : parser) (args : list str) (cur : str) : Prop := p_args p = args ∧ p_current p = cur ∧ p_in_quote p = false.

Lemma quoted_text q a p : p_in_quote p = true → p_quote_char p = q → q ∉ a →
  foldl parse_char p a = {| p_args := p_args p; p_current := p_current p ++ a; p_in_quote := true; p_quote_char := q |}.
Proof.
  revert p. induction a as [|c a IH]; intros p Hq Hc Hn; cbn [foldl].
  { rewrite app_nil_r. by destruct p; cbn in *; subst. }
  apply not_elem_of_cons in Hn as [Hqc Hn].
  assert (E : parse_char p c = {| p_args := p_args p; p_current := p_current p ++ [c]; p_in_quote := true; p_quote_char := q |}).
  { unfold parse_char. rewrite Hq, Hc. cbn [negb]. rewrite !andb_false_r. rewrite (proj2 (Z.eqb_neq c q)) by congruence. done. }
  rewrite E, IH by done. cbn. by rewrite <- app_assoc.
Qed.

Lemma spells_arg_parse a x p args cur : spells_arg a x → at_word p args cur → at_word (foldl parse_char p x) args (cur ++ a).
Proof.
  intros H. revert p cur. induction H as [a _ Ha|q a Hq _ Hn|a b x y _ IHa _ IHb]; intros p cur (E1 & E2 & E3).
  - revert p cur E1 E2 E3. induction Ha as [|c a [Hb Hq] _ IH]; intros p cur E1 E2 E3; cbn [foldl]; [rewrite app_nil_r; by split|].
    replace (cur ++ c :: a) with ((cur ++ [c]) ++ a) by by rewrite <- app_assoc.
    unfold is_blank, is_quote in *. unfold parse_char. rewrite E3, Hb, Hq, E2. cbn [andb]. by apply IH.
  - cbn [foldl]. unfold parse_char at 2. unfold is_quote in Hq. rewrite Hq, E3. cbn [andb negb].
    rewrite foldl_app, (quoted_text q a); [|reflexivity|reflexivity|exact Hn]. cbn [foldl p_args p_current]. unfold parse_char. cbn [p_in_quote p_quote_char p_args p_current].
    rewrite andb_false_r, Z.eqb_refl. cbn [andb]. split_and!; cbn; [done|by rewrite E2|done].
  - rewrite foldl_app, app_assoc. apply IHb, IHa. by split.
Qed.

Lemma spells_arg_nonempty a x : spells_arg a x → a ≠ [].
Proof. induction 1 as [| |a b x y _ IH _ _]; [done|done|]. intros [-> ->]%app_nil. done. Qed.

Lemma blank_parse c p args cur : is_blank c = true → at_word p args cur →
  at_word (parse_char p c) (match cur with [] => args | _ => args ++ [cur] end) [].
Proof.
  intros Hb (E1 & E2 & E3). assert (Hq : (c =? QUOTE) || (c =? APOSTROPHE) = false).
  { unfold is_blank in Hb. apply orb_true_iff in Hb as [H|H]; apply Z.eqb_eq in H as ->; done. }
  unfold is_blank in Hb. unfold parse_char. rewrite Hq, E3, Hb, E2. cbn [andb negb]. destruct cur; cbn; by split_and!; subst.
Qed.

Lemma spells_parse args l : spells args l → ∀ p done, at_word p done [] →
  ∃ done' cur, at_word (foldl parse_char p l) done' cur ∧ done' ++ (match cur with [] => [] | _ => [cur] end) = done ++ args.
Proof.
  induction 1 as [|c args l Hb _ IH|a x Ha|a x c args l Ha Hb _ IH]; intros p done Hp.
  - exists done, []. by rewrite !app_nil_r.
  - cbn [foldl]. apply IH. by apply (blank_parse c p done []).
  - exists done, a. pose proof (spells_arg_nonempty _ _ Ha). split; [by apply (spells_arg_parse a x p done [])|]. by destruct a.
  - rewrite foldl_app. cbn [foldl]. pose proof (spells_arg_nonempty _ _ Ha).
    pose proof (spells_arg_parse a x p done [] Ha Hp) as H1. cbn [app] in H1. apply (blank_parse c _ _ _ Hb) in H1. destruct a as [|z a]; [done|].
    destruct (IH _ _ H1) as (d' & cur & H2 & E). exists d', cur. split; [done|]. by rewrite E, <- app_assoc.
Qed.

Lemma parse_args_spells args l : spells args l → parse_args l = args.
Proof.
  intros H. unfold parse_args. destruct (spells_parse args l H {| p_args := []; p_current := []; p_in_quote := false; p_quote_char := QUOTE |} [])
    as (d & cur & (E1 & E2 & _) & E); [done|]. rewrite E1, E2. destruct cur; cbn [app] in E; [by rewrite app_nil_r in E|done].
Qed.

(** ** Line editing *)
Definition is_erase (k : Z) : bool := (k =? 8) || (k =? 127).
Definition is_printable (k : Z) : bool := (0x20 <=? k) && (k <? 0x7F).

(** A key that does not end the line: [Enter], [^C], and [^D] on an empty line do. *)
Definition edits_line (line : str) (k : Z) : Prop := k ≠ 10 ∧ k ≠ 13 ∧ k ≠ 3 ∧ (k = 4 → line ≠ []).
Definition edit_key (line : str) (k : Z) : str :=
  if is_erase k then removelast line else if is_printable k then line ++ [k] else line.
Definition echo_serial (line : str) (k : Z) : str :=
  if is_erase k then match line with [] => [] | _ => [8; 32; 8] end else if is_printable k then [k] else [].
Definition echo_screen (line : str) (k : Z) : list str :=
  if is_erase k then match line with [] => [] | _ => [[8]] end else if is_printable k then [[k]] else [].

Fixpoint typing (line : str) (ks : list Z) : Prop :=
  match ks with
  | [] => True
  | k :: ks => edits_line line k ∧ typing (edit_key line k) ks
  end.
(** What [read_char_blocking] reports for a key that comes after [n] sleeps, and
    what the serial line gets while a line is typed. *)
Definition kb_log (n : nat) (k : Z) : str :=
  concat (replicate n (lit "[KB] sleeping..." ++ [13; 10] ++ lit "[KB] woke up" ++ [13; 10])) ++
  crlf (lit "[KB] got char=0x" ++ hex 2 k ++ [10]).
Fixpoint echoed (line : str) (ks : list (nat * Z)) : str :=
  match ks with [] => [] | (n, k) :: ks => kb_log n k ++ echo_serial line k ++ echoed (edit_key line k) ks end.
Definition line_log (ks : list (nat * Z)) : str := concat ((λ x, kb_log x.1 x.2 ++ [x.2]) <$> ks).
Fixpoint shown (line : str) (ks : list Z) : list str :=
  match ks with [] => [] | k :: ks => echo_screen line k ++ shown (edit_key line k) ks end.

Lemma crlf_plain s : 10 ∉ s → crlf s = s.
Proof.
  unfold crlf. induction s as [|x s IH]; intros Hn; [done|]. apply not_elem_of_cons in Hn as [Hx Hn]. cbn.
  rewrite (proj2 (Z.eqb_neq x 10)) by congruence. cbn. by rewrite IH.
Qed.

Lemma edits_line_tests line k : edits_line line k →
  (k =? 10) || (k =? 13) = false ∧ (k =? 3) = false ∧ (k =? 4) && bool_decide (line = []) = false.
Proof.
  intros (H1 & H2 & H3 & H4). rewrite !(proj2 (Z.eqb_neq _ _)) by done. split_and!; try done.
  destruct (Z.eqb_spec k 4) as [->|]; [|done]. by rewrite bool_decide_false by auto.
Qed.

(** *** The line on the screen

    The line fits in what is left of the row, after every key. *)
Fixpoint fits (n : Z) (line : str) (ks : list Z) : Prop :=
  match ks with
  | [] => True
  | k :: ks => length (edit_key line k) ≤ n ∧ fits n (edit_key line k) ks
  end.

(** The terminal [t] with [line] typed at its cursor: cells to the right of the
    line are as before or erased, and nothing else has changed. *)
Definition shows_line (f b : Z) t (line : str) (t' : term) : Prop :=
  t_row t' = t_row t ∧ t_col t' = t_col t + length line ∧
  (∀ (i : nat) ch, line !! i = Some ch → t_grid t' (t_row t) (t_col t + i) = Some (ch, f, b)) ∧
  (∀ y, t_col t + length line ≤ y → t_grid t' (t_row t) y = t_grid t (t_row t) y ∨ t_grid t' (t_row t) y = Some (32, f, b)) ∧
  (∀ x y, x ≠ t_row t ∨ y < t_col t → t_grid t' x y = t_grid t x y).

Lemma typed_all_one (c : console) k t : k ≠ 27 → typed_all c [[k]] t =
  term_put (rows (con_scr c)) (cols (con_scr c)) (fg (con_scr c)) (bg (con_scr c)) t k.
Proof. done. Qed.

Lemma set_cell_eq g r y v : set_cell g r y v r y = v.
Proof. unfold set_cell. by rewrite !Z.eqb_refl. Qed.

Lemma set_cell_ne g r y v x' y' : x' ≠ r ∨ y' ≠ y → set_cell g r y v x' y' = g x' y'.
Proof. intros H. unfold set_cell. destruct (Z.eqb_spec x' r), (Z.eqb_spec y' y); cbn [andb]; try done. tauto. Qed.

Lemma shows_line_append (c : console) t line k t' : let scr := con_scr c in
  is_printable k = true → 0 ≤ t_row t < rows scr → 0 ≤ t_col t → t_col t + length (line ++ [k]) < cols scr →
  shows_line (fg scr) (bg scr) t line t' → shows_line (fg scr) (bg scr) t (line ++ [k]) (typed_all c [[k]] t').
Proof.
  destruct t' as [r' c' g']. intros scr Hp Hr Hc Hfit (H1 & H2 & H3 & H4 & H5). cbn [t_row t_col t_grid] in *. apply andb_true_iff in Hp as [Hk1%Z.leb_le Hk2%Z.ltb_lt].
  rewrite length_app in Hfit. cbn [length] in Hfit. rewrite typed_all_one by lia. fold scr. unfold term_put.
  rewrite (proj2 (Z.eqb_neq k 10)), (proj2 (Z.eqb_neq k 13)), (proj2 (Z.eqb_neq k 8)) by lia.
  rewrite (proj2 (Z.leb_gt (cols scr) _)) by lia. cbn [t_row t_col t_grid]. rewrite (proj2 (Z.leb_gt (rows scr) _)) by lia.
  unfold shows_line. cbn [t_row t_col t_grid]. rewrite length_app. cbn [length]. rewrite H1, H2. split_and!; [done|lia|..].
  - intros i ch Hi. apply lookup_app_Some in Hi as [Hi|[Hi1 Hi2]].
    + pose proof (lookup_lt_Some _ _ _ Hi). rewrite set_cell_ne by lia. auto.
    + destruct (i - length line)%nat as [|n] eqn:En; [|by destruct n]. injection Hi2 as <-. replace i with (length line) by lia. apply set_cell_eq.
  - intros y Hy. rewrite set_cell_ne by lia. apply H4. lia.
  - intros x y Hxy. rewrite set_cell_ne by lia. by apply H5.
Qed.

Lemma shows_line_erase c t line t' : let scr := con_scr c in line ≠ [] → 0 ≤ t_row t < rows scr → 0 ≤ t_col t →
  shows_line (fg scr) (bg scr) t line t' → shows_line (fg scr) (bg scr) t (removelast line) (typed_all c [[8]] t').
Proof.
  intros scr Hl Hr Hc. destruct line as [|k line _] using rev_ind; [done|]. rewrite removelast_last.
  destruct t' as [r' c' g']. intros (H1 & H2 & H3 & H4 & H5). cbn [t_row t_col t_grid] in *. rewrite length_app in H2, H4. cbn [length] in H2, H4. rewrite typed_all_one by lia. fold scr.
  unfold term_put. cbn [Z.eqb Pos.eqb]. rewrite H1, H2. rewrite (proj2 (Z.ltb_lt _ _)) by lia.
  cbn [t_row t_col t_grid]. rewrite (proj2 (Z.leb_gt (rows scr) _)) by lia. unfold shows_line. cbn [t_row t_col t_grid].
  replace (t_col t + (length line + 1)%nat - 1) with (t_col t + length line) by lia. split_and!; [done|done|..].
  - intros i ch Hi. pose proof (lookup_lt_Some _ _ _ Hi). rewrite set_cell_ne by lia. apply H3. by apply lookup_app_l_Some.
  - intros y Hy. destruct (decide (y = t_col t + length line)) as [->|]; [right; apply set_cell_eq|].
    rewrite set_cell_ne by lia. apply H4. lia.
  - intros x y Hxy. rewrite set_cell_ne by lia. by apply H5.
Qed.

Lemma shown_line c t ks : let scr := con_scr c in 0 ≤ t_row t < rows scr → 0 ≤ t_col t → ∀ line t',
  fits (cols scr - 1 - t_col t) line ks → shows_line (fg scr) (bg scr) t line t' →
  shows_line (fg scr) (bg scr) t (foldl edit_key line ks) (typed_all c (shown line ks) t').
Proof.
  intros scr Hr Hc. induction ks as [|k ks IH]; intros line t' Hf Hs; [done|]. destruct Hf as [Hf1 Hf2]. cbn [foldl shown].
  unfold typed_all. rewrite fold_left_app. fold (typed_all c). apply IH; [done|]. unfold edit_key, echo_screen in *.
  destruct (is_erase k); [destruct line as [|x line]; [done|by apply shows_line_erase]|].
  destruct (is_printable k) eqn:Ep; [|done]. apply shows_line_append; auto. subst scr. lia.
Qed.

Lemma shows_line_nil f b t : shows_line f b t [] t.
Proof. unfold shows_line. cbn [length]. split_and!; try done; [lia|auto]. Qed.

(** *** A line of printable characters *)
Definition printable (s : str) : Prop := Forall (λ k, is_printable k = true) s.

Lemma printable_spec k : is_printable k = true → 0x20 ≤ k < 0x7F.
Proof. intros [?%Z.leb_le ?%Z.ltb_lt]%andb_true_iff. lia. Qed.

Lemma printable_edit ks : printable ks.*2 → ∀ line, typing line ks.*2 ∧ foldl edit_key line ks.*2 = line ++ ks.*2 ∧
  echoed line ks = line_log ks ∧ shown line ks.*2 = (λ k, [k]) <$> ks.*2.
Proof.
  unfold printable. induction ks as [|[n k] ks IH]; intros Hp line; cbn [typing foldl echoed shown fmap list_fmap snd] in *; [by rewrite app_nil_r|].
  apply Forall_cons in Hp as [Hk Hp]. pose proof (printable_spec k Hk). assert (He : is_erase k = false).
  { unfold is_erase. rewrite !(proj2 (Z.eqb_neq _ _)) by lia. done. }
  assert (E1 : edit_key line k = line ++ [k]) by (unfold edit_key; by rewrite He, Hk).
  assert (E2 : echo_serial line k = [k]) by (unfold echo_serial; by rewrite He, Hk).
  assert (E3 : echo_screen line k = [[k]]) by (unfold echo_screen; by rewrite He, Hk).
  rewrite E1, E2, E3. destruct (IH Hp (line ++ [k])) as (H1 & H2 & H3 & H4).
  rewrite H2, H3, H4, <- app_assoc. split; [|split; [done|]].
  - split; [|done]. unfold edits_line. lia.
  - split; [|done]. unfold line_log. cbn. by rewrite <- app_assoc.
Qed.

Lemma spaces_no_args l : printable l → forallb is_space l = true → parse_args l = [].
Proof.
  intros Hp Hs. apply parse_args_spells. induction Hp as [|k l Hk _ IH]; [constructor|]. cbn [forallb] in Hs.
  apply andb_true_iff in Hs as [Hs Hl]. constructor; [|auto]. pose proof (printable_spec k Hk). unfold is_space, between in Hs. unfold is_blank.
  destruct (Z.eqb_spec k 32) as [->|]; [done|]. apply andb_true_iff in Hs as [?%Z.leb_le ?%Z.leb_le]. lia.
Qed.

(** What a turn prints before the command runs, [n] the sleeps before [Enter]. *)
Definition turn_serial (cwd : str) (ks : list (nat * Z)) (n : nat) : str :=
  crlf (prompt cwd) ++ line_log ks ++ kb_log n 10 ++ [13; 10].
Definition turn_screen (cwd line : str) : list str := prompt cwd :: ((λ k, [k]) <$> line) ++ [[10]].

Lemma prompt_bytes cwd : Forall is_byte cwd → Forall is_byte (prompt cwd).
Proof.
  intros Hc. unfold prompt.
  repeat first [apply Forall_app; split | apply Forall_cons; split; [unfold is_byte; lia|] | exact Hc | apply lit_bytes].
Qed.

(** The arguments are made of characters of the line. *)
Lemma spells_arg_printable a x : spells_arg a x → printable x → printable a.
Proof.
  unfold printable. induction 1 as [|q a _ _ _|a b x y _ IHa _ IHb]; [done|..].
  - rewrite Forall_cons, Forall_app. tauto.
  - rewrite !Forall_app. tauto.
Qed.

Lemma spells_printable args l : spells args l → printable l → Forall printable args.
Proof.
  unfold printable. induction 1 as [|c args l _ _ IH|a x Ha|a x c args l Ha _ _ IH]; intros Hp; [constructor|..].
  - apply Forall_cons in Hp as [_ Hp]. auto.
  - constructor; [|done]. by apply (spells_arg_printable a x).
  - apply Forall_app in Hp as [Hx [_ Hl]%Forall_cons]. constructor; [by apply (spells_arg_printable a x)|auto].
Qed.

Lemma join_printable words : Forall printable words → printable (join words).
Proof.
  unfold printable. induction 1 as [|a words Ha _ IH]; [constructor|]. cbn [join]. destruct words; [done|].
  apply Forall_app. split; [done|]. by constructor.
Qed.

Lemma printable_line s : printable s → Forall is_byte (s ++ [10]) ∧ utf8_valid (s ++ [10]) = true ∧ crlf (s ++ [10]) = s ++ [13; 10].
Proof.
  intros Hs. assert (Hb : ∀ k, k ∈ s → 32 ≤ k < 127). { intros k Hk. exact (printable_spec k (proj1 (Forall_forall _ _) Hs k Hk)). }
  split; [|split].
  - apply Forall_app. split; [|by repeat constructor]. apply Forall_forall. intros k Hk%Hb. unfold is_byte. lia.
  - rewrite utf8_valid_ascii; [done|]. apply Forall_forall. intros k Hk%Hb. lia.
  - unfold crlf. rewrite fmap_app, concat_app. fold (crlf s). rewrite crlf_plain; [done|]. intros H%Hb. lia.
Qed.

(** ** Printing and reading *)
Section Shell.
Context {hh : Hhdm} {St I : Type} {ops : InodeOps St I}.
Context (FONT : list Z) (HF : length FONT = 4096%nat).
Implicit Types (w : world St I) (c : console) (t : term).

(** The world with another console and other keys to come. *)
Definition at_con w c (ks : list (nat * Z)) : world St I := set_con (set_keys w ks) c.

Lemma act_bind {A B} (e : act A) (f : A → act B) w a w' : e w = Ret (Ok a, w') → (e ≫= f) w = f a w'.
Proof. apply op_bind_ok. Qed.

Lemma done_ok (e : act unit) w w' : e w = Ret (Ok (), w') → done e w = Ret (Ok Continue, w').
Proof. intros E. unfold done. by rewrite (act_bind _ _ _ _ _ E). Qed.

Lemma at_con_id w : at_con w (w_con w) (w_keys w) = w.
Proof. by destruct w. Qed.

Lemma print_ok w t s : displays FONT (w_con w) t → Forall is_byte s →
  ∃ c', print FONT s w = Ret (Ok (), at_con w c' (w_keys w)) ∧ prints FONT (crlf s) [s] (w_con w) t c'.
Proof.
  intros Hd Hb. destruct (shell_print_spec FONT s (w_con w) t HF Hd Hb) as (c' & E & P). exists c'. split; [|done].
  unfold print. by rewrite E.
Qed.

(** Different texts on the line and on the screen. *)
Lemma print_both w t s s' : displays FONT (w_con w) t → Forall is_byte s' → ∃ c',
  print_serial s w = Ret (Ok (), at_con w (serial_print s (w_con w)) (w_keys w)) ∧
  print_vga FONT s' (at_con w (serial_print s (w_con w)) (w_keys w)) = Ret (Ok (), at_con w c' (w_keys w)) ∧
  prints FONT (crlf s) [s'] (w_con w) t c'.
Proof.
  intros Hd Hb. pose proof (serial_print_prints FONT s (w_con w) t Hd) as P1.
  destruct (vga_print_spec FONT s' (serial_print s (w_con w)) t HF Hd Hb) as (c' & E & P2). exists c'.
  split; [done|]. split; [unfold print_vga; cbn [w_con at_con set_con]; by rewrite E|].
  pose proof (prints_trans _ _ _ _ _ _ _ _ _ P1 P2) as P. by rewrite app_nil_r in P.
Qed.

(** Waiting for a key leaves the screen alone. *)
Lemma kb_sleeps_spec n : ∀ w t, displays FONT (w_con w) t →
  ∃ c', kb_sleeps n w = Ret (Ok (), at_con w c' (w_keys w)) ∧
    prints FONT (concat (replicate n (lit "[KB] sleeping..." ++ [13; 10] ++ lit "[KB] woke up" ++ [13; 10]))) [] (w_con w) t c'.
Proof.
  induction n as [|n IH]; intros w t Hd; cbn [kb_sleeps replicate concat].
  { exists (w_con w). split; [by rewrite at_con_id|by apply prints_refl]. }
  set (s1 := lit "[KB] sleeping..." ++ [10]). set (s2 := lit "[KB] woke up" ++ [10]).
  pose proof (serial_print_prints FONT s1 (w_con w) t Hd) as P1.
  pose proof (serial_print_prints FONT s2 (serial_print s1 (w_con w)) _ (pr_shows _ _ _ _ _ _ P1)) as P2.
  pose proof (prints_trans _ _ _ _ _ _ _ _ _ P1 P2) as P12.
  destruct (IH (at_con w (serial_print s2 (serial_print s1 (w_con w))) (w_keys w)) t (pr_shows _ _ _ _ _ _ P12)) as (c' & E & P3).
  exists c'. split; [exact E|]. exact (prints_trans _ _ _ _ _ _ _ _ _ P12 P3).
Qed.

Lemma read_char_spec w t n k ks : displays FONT (w_con w) t → w_keys w = (n, k) :: ks →
  ∃ c', read_char_blocking w = Ret (Ok k, at_con w c' ks) ∧ prints FONT (kb_log n k) [] (w_con w) t c'.
Proof.
  intros Hd Hk. destruct (kb_sleeps_spec n w t Hd) as (c1 & E1 & P1).
  set (s := lit "[KB] got char=0x" ++ hex 2 k ++ [10]). exists (serial_print s c1). split.
  - unfold read_char_blocking. rewrite (op_bind_ok get _ w w w eq_refl), Hk. cbn [hd_error fmap option_fmap option_map fst default].
    rewrite (op_bind_ok _ _ _ _ _ E1). rewrite (op_bind_ok wait_key _ _ k (at_con w c1 ks)); [done|].
    unfold wait_key. cbn [w_keys at_con set_con set_keys]. rewrite Hk. done.
  - pose proof (serial_print_prints FONT s c1 _ (pr_shows _ _ _ _ _ _ P1)) as P2. exact (prints_trans _ _ _ _ _ _ _ _ _ P1 P2).
Qed.

Lemma readline_key fuel line w t n k ks : displays FONT (w_con w) t → w_keys w = (n, k) :: ks → edits_line line k →
  ∃ c', readline_loop FONT (S fuel) line w = readline_loop FONT fuel (edit_key line k) (at_con w c' ks) ∧
    prints FONT (kb_log n k ++ echo_serial line k) (echo_screen line k) (w_con w) t c'.
Proof.
  intros Hd Hk He. destruct (edits_line_tests line k He) as (T1 & T2 & T3). cbn [readline_loop].
  destruct (read_char_spec w t n k ks Hd Hk) as (c0 & Er & P0). pose proof (pr_shows _ _ _ _ _ _ P0) as Hd0.
  rewrite (op_bind_ok _ _ _ _ _ Er). rewrite T1. unfold edit_key, echo_serial, echo_screen, is_erase, is_printable.
  destruct ((k =? 8) || (k =? 127)).
  - destruct line as [|x line]; [exists c0; split; [done|by rewrite app_nil_r]|].
    destruct (print_both (at_con w c0 ks) t [8; 32; 8] [8] Hd0 ltac:(by repeat constructor)) as (c' & E1 & E2 & P).
    rewrite (op_bind_ok _ _ _ _ _ E1), (op_bind_ok _ _ _ _ _ E2). exists c'. split; [done|].
    exact (prints_trans _ _ _ _ _ _ _ _ _ P0 P).
  - rewrite T2, T3. destruct ((32 <=? k) && (k <? 127)) eqn:Ep; [|exists c0; split; [done|by rewrite app_nil_r]].
    apply andb_true_iff in Ep as [?%Z.leb_le ?%Z.ltb_lt].
    destruct (print_both (at_con w c0 ks) t [k] [k] Hd0) as (c' & E1 & E2 & P); [repeat constructor; lia|].
    rewrite (op_bind_ok _ _ _ _ _ E1), (op_bind_ok _ _ _ _ _ E2). exists c'. split; [done|].
    rewrite crlf_plain in P; [|rewrite list_elem_of_singleton; lia]. exact (prints_trans _ _ _ _ _ _ _ _ _ P0 P).
Qed.

Lemma readline_loop_spec ks : ∀ fuel line w t n e rest, displays FONT (w_con w) t → w_keys w = ks ++ (n, e) :: rest → (e = 10 ∨ e = 13) →
  typing line ks.*2 → (length ks < fuel)%nat →
  ∃ c', readline_loop FONT fuel line w = Ret (Ok (foldl edit_key line ks.*2), at_con w c' rest) ∧
    prints FONT (echoed line ks ++ kb_log n e ++ [13; 10]) (shown line ks.*2 ++ [[10]]) (w_con w) t c'.
Proof.
  induction ks as [|[m k] ks IH]; intros fuel line w t n e rest Hd Hk He Ht Hf; (destruct fuel as [|fuel]; [cbn in Hf; lia|]); cbn [app] in Hk.
  - cbn [readline_loop]. destruct (read_char_spec w t n e rest Hd Hk) as (c0 & Er & P0). pose proof (pr_shows _ _ _ _ _ _ P0) as Hd0.
    rewrite (op_bind_ok _ _ _ _ _ Er). replace ((e =? 10) || (e =? 13)) with true by (destruct He as [->| ->]; done).
    destruct (print_both (at_con w c0 rest) t [10] [10] Hd0 ltac:(by repeat constructor)) as (c' & E1 & E2 & P).
    rewrite (op_bind_ok _ _ _ _ _ E1), (op_bind_ok _ _ _ _ _ E2). exists c'. split; [done|]. exact (prints_trans _ _ _ _ _ _ _ _ _ P0 P).
  - destruct Ht as [Hek Ht]. destruct (readline_key fuel line w t m k (ks ++ (n, e) :: rest) Hd Hk Hek) as (c1 & E1 & P1). rewrite E1.
    destruct (IH fuel (edit_key line k) (at_con w c1 (ks ++ (n, e) :: rest)) (typed_all (w_con w) (echo_screen line k) t) n e rest)
      as (c2 & E2 & P2); [apply P1|done|done|done|cbn in Hf; lia|].
    exists c2. split; [exact E2|]. pose proof (prints_trans _ _ _ _ _ _ _ _ _ P1 P2) as P.
    cbn [echoed shown fmap list_fmap snd]. rewrite <- !app_assoc in P. rewrite <- !app_assoc. exact P.
Qed.

Lemma readline_spec w t ks n e rest : displays FONT (w_con w) t → w_keys w = ks ++ (n, e) :: rest → (e = 10 ∨ e = 13) → typing [] ks.*2 →
  ∃ c', readline FONT w = Ret (Ok (foldl edit_key [] ks.*2), at_con w c' rest) ∧
    prints FONT (echoed [] ks ++ kb_log n e ++ [13; 10]) (shown [] ks.*2 ++ [[10]]) (w_con w) t c'.
Proof.
  intros Hd Hk He Ht. unfold readline, get. op_unfold. apply (readline_loop_spec ks _ [] w t n e rest); auto.
  rewrite Hk, length_app. cbn. lia.
Qed.

(** Whatever is typed before [Enter], [readline] returns the line that the
    keys edit: printable characters are appended, backspace removes the last one,
    other keys do nothing. The serial line has echoed every change, after the
    reports of the keyboard reads. As long as the line fits in its row, the screen
    shows exactly that line where the cursor was, with the cursor after it, and
    nothing else on the screen changes. *)
Theorem readline_correct w t ks n e rest : displays FONT (w_con w) t → w_keys w = ks ++ (n, e) :: rest → (e = 10 ∨ e = 13) → typing [] ks.*2 →
  fits (cols (con_scr (w_con w)) - 1 - t_col t) [] ks.*2 →
  let line := foldl edit_key [] ks.*2 in
  ∃ c' t', readline FONT w = Ret (Ok line, at_con w c' rest) ∧
    con_serial c' = con_serial (w_con w) ++ echoed [] ks ++ kb_log n e ++ [13; 10] ∧
    shows_line (fg (con_scr (w_con w))) (bg (con_scr (w_con w))) t line t' ∧
    displays FONT c' (typed (w_con w) [10] t').
Proof.
  intros Hd Hk He Ht Hf line. destruct (readline_spec w t ks n e rest Hd Hk He Ht) as (c' & E & [P1 P2 P3]).
  exists c', (typed_all (w_con w) (shown [] ks.*2) t). split; [exact E|]. split; [exact P1|].
  destruct Hd as (scr & _ & Es & _ & [Hr Hc]). split.
  - apply shown_line; [rewrite Es; exact Hr|lia|exact Hf|apply shows_line_nil].
  - unfold typed_all in P2. by rewrite fold_left_app in P2.
Qed.

Context (KP TR : Z) (probe : Z → op St (option I)).
Abbreviation turn := (shell_turn FONT KP TR probe).
Abbreviation exec_cmd := (execute FONT KP TR probe).

(** A turn reads a line, splits it and runs the command. *)
Lemma turn_spec fuel h w t ks n args rest : displays FONT (w_con w) t → Forall is_byte (cwd_path (w_vfs w)) →
  printable ks.*2 → spells args ks.*2 → args ≠ [] → w_keys w = ks ++ (n, 10) :: rest →
  ∃ c', turn fuel h w = (a ← exec_cmd fuel (h ++ [ks.*2]) args; mret (h ++ [ks.*2], a)) (at_con w c' rest) ∧
    prints FONT (turn_serial (cwd_path (w_vfs w)) ks n) (turn_screen (cwd_path (w_vfs w)) ks.*2) (w_con w) t c'.
Proof.
  intros Hd Hc Hp Hs Ha Hk. unfold shell_turn.
  rewrite (op_bind_ok get _ w w w eq_refl).
  destruct (print_ok w t (prompt (cwd_path (w_vfs w))) Hd (prompt_bytes _ Hc)) as (c1 & E1 & P1). rewrite (op_bind_ok _ _ _ _ _ E1).
  destruct (printable_edit ks Hp []) as (T1 & T2 & T3 & T4).
  destruct (readline_spec (at_con w c1 (w_keys w)) (typed_all (w_con w) [prompt (cwd_path (w_vfs w))] t) ks n 10 rest) as (c2 & E2 & P2);
    [apply P1|done|by left|done|]. rewrite T2 in E2. cbn [app] in E2. rewrite T3, T4 in P2.
  rewrite (op_bind_ok _ _ _ _ _ E2). exists c2. split; [|by apply (prints_trans _ _ _ _ _ _ _ _ _ P1 P2)].
  pose proof (parse_args_spells _ _ Hs) as Ep. destruct (forallb is_space ks.*2) eqn:Es.
  { rewrite (spaces_no_args ks.*2 Hp Es) in Ep. by subst. }
  rewrite Ep. by destruct args.
Qed.

Lemma execute_found fuel h cmd rest w name f : List.find (λ e, bool_decide (e.1 = cmd)) (commands FONT KP TR probe fuel h rest) = Some (name, f) →
  exec_cmd fuel h (cmd :: rest) w = f w.
Proof. intros E. unfold execute. cbn [hd_error tail]. etransitivity; [apply (op_bind_ok _ _ w cmd w); reflexivity|]. by rewrite E. Qed.

(** The word of a command that is not built in is reported. *)
Lemma execute_unknown fuel h cmd rest w t : displays FONT (w_con w) t → Forall is_byte cmd →
  List.find (λ e, bool_decide (e.1 = cmd)) (commands FONT KP TR probe fuel h rest) = None →
  ∃ c', exec_cmd fuel h (cmd :: rest) w = Ret (Ok Continue, at_con w c' (w_keys w)) ∧
    prints FONT (crlf (cmd ++ lit ": command not found" ++ [10])) [cmd ++ lit ": command not found" ++ [10]] (w_con w) t c'.
Proof.
  intros Hd Hb E. unfold execute. unfold done, println.
  destruct (print_ok w t (cmd ++ lit ": command not found" ++ [10]) Hd) as (c' & E' & P).
  { apply Forall_app. split; [done|]. apply Forall_app. split; [apply lit_bytes|by repeat constructor]. }
  exists c'. split; [|done]. etransitivity; [apply (op_bind_ok _ _ w cmd w); reflexivity|]. cbn beta. change (tail (cmd :: rest)) with rest. rewrite E, <- app_assoc.
  by rewrite (op_bind_ok _ _ _ _ _ E').
Qed.
End Shell.

(** ** Commands on the RAM file system *)
Section Session.
Context {hh : Hhdm} (FONT : list Z) (HF : length FONT = 4096%nat) (KP TR : Z) (probe : Z → op ramfs (option positive)).
Implicit Types (w : world ramfs positive) (t : term).

Abbreviation turn := (shell_turn FONT KP TR probe).

(** [write], when the file can be written *)
Lemma write_turn fuel h f words w : words ≠ [] → ram_wf (w_fs w) → cwd_ok (w_vfs w) →
  length (join words ++ [10]) ≤ ISIZE_MAX → writable_target (w_vfs w) f (w_fs w) →
  ∃ s', execute FONT KP TR probe fuel h (lit "write" :: f :: words) w = Ret (Ok Continue, set_vfs w (w_vfs w, s')) ∧
    read_file (w_vfs w) f s' = Ret (Ok (join words ++ [10]), s').
Proof.
  intros Hw Hwf Hc Hl Ht. destruct (write_file_spec _ f (join words ++ [10]) _ Hwf Hc Hl Ht) as (i & s' & E & _ & _ & Er & _).
  exists s'. split; [|done]. erewrite execute_found by reflexivity. destruct words as [|x words]; [done|].
  assert (Eo : on_vfs (λ v, write_file v f (join (x :: words) ++ [10])) w = Ret (Ok (Ok ()), set_vfs w (w_vfs w, s'))).
  { unfold on_vfs, with_vfs. rewrite (op_bind_ok get_fst _ (w_vfs w, w_fs w) (w_vfs w) (w_vfs w, w_fs w) eq_refl). unfold lift. by rewrite E. }
  apply done_ok. unfold cmd_write. by rewrite (act_bind _ _ _ _ _ Eo).
Qed.

(** [cat] of a text file *)
Lemma cat_turn fuel h f data w t : displays FONT (w_con w) t → Forall is_byte data → utf8_valid data = true →
  read_file (w_vfs w) f (w_fs w) = Ret (Ok data, w_fs w) →
  ∃ c', execute FONT KP TR probe fuel h [lit "cat"; f] w = Ret (Ok Continue, at_con w c' (w_keys w)) ∧
    prints FONT (crlf data) [data] (w_con w) t c'.
Proof.
  intros Hd Hb Hu E. destruct (print_ok FONT HF w t data Hd Hb) as (c' & Ep & P). exists c'. split; [|done].
  erewrite execute_found by reflexivity.
  assert (Eo : on_vfs (λ v, read_file v f) w = Ret (Ok (Ok data), w)).
  { unfold on_vfs, with_vfs. rewrite (op_bind_ok get_fst _ (w_vfs w, w_fs w) (w_vfs w) (w_vfs w, w_fs w) eq_refl). unfold lift. rewrite E. by destruct w. }
  apply done_ok. assert (E1 : cat_one FONT f w = Ret (Ok (), at_con w c' (w_keys w))).
  { unfold cat_one. by rewrite (act_bind _ _ _ _ _ Eo), Hu. }
  unfold cmd_cat. cbn [for_all]. by rewrite (act_bind _ _ _ _ _ E1).
Qed.

End Session.

(** A line that spells a list of arguments is split into exactly those:
    arguments are separated by blanks, and each is written as pieces without
    blanks and quotes or in quotes that do not occur in the piece. *)
Theorem parse_args_correct args l : spells args l → parse_args l = args.
Proof. apply parse_args_spells. Qed.

(** Any non-empty arguments without both kinds of quotes can be typed. *)
Definition quote_arg (a : str) : str := let q := if bool_decide (QUOTE ∈ a) then APOSTROPHE else QUOTE in q :: a ++ [q].

Lemma quote_spells args : Forall (λ a, a ≠ [] ∧ (QUOTE ∉ a ∨ APOSTROPHE ∉ a)) args → spells args (join (quote_arg <$> args)).
Proof.
  assert (Hq : ∀ a, a ≠ [] → (QUOTE ∉ a ∨ APOSTROPHE ∉ a) → spells_arg a (quote_arg a)).
  { intros a Ha Hn. unfold quote_arg. case_bool_decide; apply SpQuoted; auto; tauto. }
  induction 1 as [|a args [Ha Hn] _ IH]; [constructor|]. destruct args as [|b args]; [apply SpLast; auto|].
  change (join (quote_arg <$> a :: b :: args)) with (quote_arg a ++ 32 :: join (quote_arg <$> b :: args)). apply SpCons; auto.
Qed.

(** ** Witnesses *)
Definition line1 : str := lit "write /tmp/a hi 'a b'".
Definition line2 : str := lit "cat /tmp/a".

Lemma line1_spells : spells [lit "write"; lit "/tmp/a"; lit "hi"; lit "a b"] line1.
Proof.
  apply (SpCons (lit "write") (lit "write") 32 _ (lit "/tmp/a hi 'a b'")); [by apply SpPlain; [|repeat constructor]|done|].
  apply (SpCons (lit "/tmp/a") (lit "/tmp/a") 32 _ (lit "hi 'a b'")); [by apply SpPlain; [|repeat constructor]|done|].
  apply (SpCons (lit "hi") (lit "hi") 32 _ (lit "'a b'")); [by apply SpPlain; [|repeat constructor]|done|].
  apply SpLast. apply (SpQuoted APOSTROPHE (lit "a b")); [done|done|]. cbn. rewrite !not_elem_of_cons. split_and!; try done. apply not_elem_of_nil.
Qed.

Lemma line2_spells : spells [lit "cat"; lit "/tmp/a"] line2.
Proof.
  apply (SpCons (lit "cat") (lit "cat") 32 _ (lit "/tmp/a")); [by apply SpPlain; [|repeat constructor]|done|].
  apply SpLast. by apply SpPlain; [|repeat constructor].
Qed.

Lemma parse_args_correct_witness : parse_args line1 = [lit "write"; lit "/tmp/a"; lit "hi"; lit "a b"].
Proof. apply parse_args_correct. exact line1_spells. Defined.

Definition demo_font : list Z := replicate 4096 0xAA.
Definition demo_con : console := {| con_serial := []; con_scr := with_cursor demo_screen blank; con_mem := λ _, 0 |}.
Definition demo_world (keys : list (nat * Z)) : world ramfs positive := {|
  w_con := demo_con; w_vfs := root_ctx; w_fs := rootfs0;
  w_mm := {| ram := λ _, 0; PMM := BuddyAllocator_new; FREE_PAGES := 0; TOTAL_PAGES := 0 |};
  w_rq := boot; w_clock := clock_boot; w_keys := keys; w_drives := []; w_pci := [] |}.

Lemma demo_displays : displays demo_font demo_con blank.
Proof.
  exists demo_screen. split; [exact demo_geom|]. split; [reflexivity|]. split; [|split; cbn; lia].
  intros x y _. by destruct (_ && _).
Qed.

Lemma line1_printable : printable line1.
Proof. unfold printable, line1. cbn. repeat (constructor; [reflexivity|]). constructor. Qed.
Lemma line2_printable : printable line2.
Proof. unfold printable, line2. cbn. repeat (constructor; [reflexivity|]). constructor. Qed.
Lemma tmp_target : writable_target root_ctx (lit "/tmp/a") rootfs0.
Proof. right. do 5 eexists. split_and!; vm_compute; reflexivity. Qed.
#[local] Opaque rootfs0.

(** Typing [l], [s], backspace, [Enter], with one sleep before the first key,
    reads [l]. *)
Definition demo_typed : list (nat * Z) := [(1%nat, 108); (0%nat, 115); (0%nat, 8)].
Lemma readline_correct_witness : ∃ c' t', readline demo_font (demo_world (demo_typed ++ [(0%nat, 10); (2%nat, 120)])) = Ret (Ok [108], at_con (demo_world []) c' [(2%nat, 120)]) ∧
  con_serial c' = echoed [] demo_typed ++ kb_log 0 10 ++ [13; 10] ∧ shows_line WHITE BLACK blank [108] t' ∧ displays demo_font c' (typed demo_con [10] t').
Proof.
  destruct (readline_correct demo_font (length_replicate _ _) (demo_world (demo_typed ++ [(0%nat, 10); (2%nat, 120)])) blank demo_typed 0 10 [(2%nat, 120)])
    as (c' & t' & E & Es & Hl & Hd).
  - exact demo_displays.
  - reflexivity.
  - left. reflexivity.
  - cbn. unfold edits_line. lia.
  - vm_compute. repeat split; discriminate.
  - exists c', t'. split; [exact E|]. split; [exact Es|]. split; [exact Hl|exact Hd].
Defined.

(** The report of a key after one sleep. *)
Example kb_log_demo : kb_log 1 10 = lit "[KB] sleeping..." ++ [13; 10] ++ lit "[KB] woke up" ++ [13; 10] ++ lit "[KB] got char=0x0a" ++ [13; 10].
Proof. vm_compute. reflexivity. Qed.

#[local] Existing Instance qemu_hhdm.

(** When a line has wrapped, backspace does not go back to the row above: with
    four columns, [d] stays on the screen after it has been erased from the line. *)
Example wrapped_erase : let t := fold_left (term_put 2 4 WHITE BLACK) [97; 98; 99; 100; 8] blank in
  t_row t = 1 ∧ t_col t = 0 ∧ t_grid t 0 3 = Some (100, WHITE, BLACK) ∧ foldl edit_key [] [97; 98; 99; 100; 8] = [97; 98; 99].
Proof. vm_compute. done. Qed.

(** [^D] on an empty line reads [exit], which is not a command. *)
Example exit_not_found {hh : Hhdm} {St I} {ops : InodeOps St I} FONT KP TR probe fuel h :
  List.find (λ e, bool_decide (e.1 = lit "exit")) (commands FONT KP TR probe fuel h []) = @None (str * act after).
Proof. reflexivity. Qed.
