(* ===== verification/Boot.v ===== *)
(** The start of the first processes ([kernel_main] of [src/src/main.rs]): the
    idle task and the shell, with what they ask of the frame allocator and of the
    heap, and the switch to the first of them. *)
From Stdlib Require Import String.
From S2P Require Import Prelude Machine Pmm Slab Heap HeapUse Vmm Vma Proc Fork Exec Text.
Arguments lit s%_string.

Section Boot.
Context {hh : Hhdm}.
Implicit Types (s : mm) (held : list (Z * Layout)) (rq : sched) (p : Process) (F X : gset Z).

(** [if let Some(p) = Process::new_kernel(..) { spawn(p) }]: the stack comes from
    the frame allocator; [rs] are the requests of the [Arc] around the process and of
    the queue that [spawn] puts it into. *)
Definition start_kernel (turns : nat) (rs : list request) (nm : str) (entry prio_ cr3 : Z) (h : heap) held rq
    : exec (heap * list (Z * Layout) * sched) :=
  '(p, s, rq) ← new_kernel nm entry prio_ cr3 (hmm h) rq;
  let h := {| hmm := s; caches := caches h |} in
  match p with
  | Some p => '(h, held) ← requests turns rs h held; Ret (h, held, spawn_process rq p)
  | None => Ret (h, held, rq)
  end.

(** The end of [kernel_main]; [idle_task] and [shell_task] are addresses. *)
Definition start_processes (turns : nat) (rs1 rs2 : list request) (idle_task shell_task cr3 : Z) (h : heap) held rq
    : exec (heap * list (Z * Layout) * sched * transfer) :=
  '(h, held, rq) ← start_kernel turns rs1 (lit "idle") idle_task 255 cr3 h held rq;
  '(h, held, rq) ← start_kernel turns rs2 (lit "shell") shell_task 5 cr3 h held rq;
  '(rq, t) ← schedule rq;
  Ret (h, held, rq, t).

(** A new kernel thread: its stack is a block of its own, and it starts at its
    entry with interrupts on. *)
Record kernel_thread (nm : str) (entry prio_ cr3 k : Z) p : Prop := {
  kt_state : state p = Runnable;
  kt_priority : priority p = prio_;
  kt_rip : rip (context p) = entry;
  kt_rsp : rsp (context p) = table_at k + KERNEL_STACK_SIZE;
  kt_stack : kernel_stack p = table_at k;
  kt_rflags : rflags (context p) = 0x202;
  kt_space : address_space p = kernel cr3;
  kt_name : name p = proc_name nm
}.

Lemma start_kernel_spec turns rs nm entry prio_ cr3 h F X held ls rq m n : client_inv h F X held → after m rs (snd <$> held) = Some ls →
  (2 ≤ m ≤ MAX_ORDER)%nat → room m F (S (cost rs + n)) → MAX_SLABS < Z.of_nat turns →
  ∃ k h' held' F' p, start_kernel turns rs nm entry prio_ cr3 h held rq = Ret (h', held', spawn_process (alloc_pid rq).2 p) ∧
    kernel_thread nm entry prio_ cr3 k p ∧ pid p = NEXT_PID rq ∧ (sched_inv rq → sched_inv (spawn_process (alloc_pid rq).2 p)) ∧
    block_ok 2 k ∧ block_set 2 k ## X ∧ client_inv h' F' (X ∪ block_set 2 k) held' ∧ snd <$> held' = ls ∧ room m F' n ∧
    same_frames X (ram (hmm h)) (ram (hmm h')).
Proof.
  intros HI Ha Hm Hroom Ht. unfold start_kernel, new_kernel. cbn [alloc_pid].
  destruct (client_frames h F X held 2 m (cost rs + n) HI) as (k & s1 & E & Hk & Hks & HkX & HI1 & R1 & S1); [lia|lia|done|].
  rewrite E. exec_simpl. assert (Hkn : node_ok k) by by apply (block_ok_node 2).
  pose proof hhdm_bound as Hhb. pose proof hhdm_pos. assert (Hkb : k + 16384 ≤ PHYS_LIMIT).
  { destruct Hk as (_ & _ & Hk). by change (PAGE_SIZE * 2 ^ 2%nat) with 16384 in Hk. }
  rewrite table_virt by done. exec_simpl. rewrite u64_add_ok by (destruct Hkn; unfold table_at; lia). exec_simpl.
  destruct (requests_ok turns m rs _ _ _ held ls n HI1 Ha ltac:(lia) R1 Ht) as (h' & held' & F' & E2 & El & HI2 & R2 & S2).
  cbn [hmm] in S2. rewrite E2. exec_simpl. eexists k, h', held', F', _. split; [reflexivity|]. split; [by split|]. split; [done|]. split.
  { intros Hi. apply spawn_inv; [by apply (step_inv rq _ Hi), StepPid|apply not_elem_of_dom, is_fresh|done|].
    unfold stack_ok. destruct Hkn. cbn. unfold table_at. lia. }
  split_and!; [done..|]. intros x Hx. rewrite S2 by set_solver. by apply S1.
Qed.

(** The first switch, to the second of two processes, which has the better
    priority. *)
Lemma first_schedule rq h1 h2 p1 p2 : current rq = None → queue rq = [h1; h2] → h1 ≠ h2 →
  procs rq !! h1 = Some p1 → procs rq !! h2 = Some p2 → state p1 = Runnable → state p2 = Runnable → priority p2 < priority p1 →
  schedule rq = Ret ({| procs := alter (set_state Running) h2 (procs rq); queue := [h1]; current := Some h2; NEXT_PID := NEXT_PID rq |}, JumpTo h2).
Proof.
  intros Hc Hq Hne H1 H2 S1 S2 Hp. assert (Hb : best (procs rq) [h1; h2] = Some (1%nat, priority p2)).
  { simpl. unfold is_state, prio. rewrite H1, H2, S1, S2. simpl. by rewrite (proj2 (Z.leb_gt _ _)) by lia. }
  unfold schedule, pick_next. rewrite Hc. cbn [queue procs set_current]. by rewrite Hq, Hb.
Qed.

(** With room for the two stacks and for the requests, the end of [kernel_main]
    starts the idle task and the shell, each a kernel thread with a stack of its own
    and the next process number, and the first process to run is the shell: it has
    the better priority, although it was started second. The idle task stays ready,
    and what others hold is as it was. *)
Theorem boot_runs_shell turns rs1 rs2 h F X held ls m idle_task shell_task cr3 : client_inv h F X held →
  after m (rs1 ++ rs2) (snd <$> held) = Some ls → (2 ≤ m ≤ MAX_ORDER)%nat → room m F (cost (rs1 ++ rs2) + 2) → MAX_SLABS < Z.of_nat turns →
  ∃ k1 k2 p1 p2 h1 h2 h' held' F' rq', start_processes turns rs1 rs2 idle_task shell_task cr3 h held boot = Ret (h', held', rq', JumpTo h2) ∧
    current rq' = Some h2 ∧ queue rq' = [h1] ∧ procs rq' !! h1 = Some p1 ∧ procs rq' !! h2 = Some (set_state Running p2) ∧
    kernel_thread (lit "idle") idle_task 255 cr3 k1 p1 ∧ kernel_thread (lit "shell") shell_task 5 cr3 k2 p2 ∧
    pid p1 = 1 ∧ pid p2 = 2 ∧ block_ok 2 k1 ∧ block_ok 2 k2 ∧ block_set 2 k1 ## X ∧ block_set 2 k2 ## X ∪ block_set 2 k1 ∧
    client_inv h' F' (X ∪ block_set 2 k1 ∪ block_set 2 k2) held' ∧ snd <$> held' = ls ∧ sched_inv rq' ∧
    same_frames X (ram (hmm h)) (ram (hmm h')).
Proof.
  intros HI Ha Hm Hroom Ht. unfold start_processes. rewrite after_app in Ha. destruct (after m rs1 _) as [ls1|] eqn:Ea; [|done]. cbn in Ha.
  rewrite cost_app in Hroom. replace (cost rs1 + cost rs2 + 2)%nat with (S (cost rs1 + S (cost rs2 + 0))) in Hroom by lia.
  destruct (start_kernel_spec turns rs1 (lit "idle") idle_task 255 cr3 h F X held ls1 boot m _ HI Ea Hm Hroom Ht)
    as (k1 & g1 & held1 & F1 & p1 & E1 & T1 & I1 & V1 & O1 & Hk1 & HI1 & <- & R1 & S1).
  rewrite E1. exec_simpl. set (rq1 := spawn_process _ p1).
  destruct (start_kernel_spec turns rs2 (lit "shell") shell_task 5 cr3 g1 F1 _ held1 ls rq1 m _ HI1 Ha Hm R1 Ht)
    as (k2 & g2 & held2 & F2 & p2 & E2 & T2 & I2 & V2 & O2 & Hk2 & HI2 & El & _ & S2).
  rewrite E2. exec_simpl. set (rq2 := spawn_process _ p2).
  set (h1 := fresh (dom (procs boot))). set (h2 := fresh (dom (procs rq1))).
  assert (Hh : h1 ≠ h2). { intros Heq. apply (is_fresh (dom (procs rq1))). fold h2. rewrite <- Heq. unfold rq1, spawn_process. cbn. set_solver. }
  assert (L1 : procs rq2 !! h1 = Some p1).
  { unfold rq2, spawn_process. cbn. rewrite lookup_insert_ne by done. apply lookup_insert_eq. }
  assert (L2 : procs rq2 !! h2 = Some p2) by apply lookup_insert_eq.
  pose proof (first_schedule rq2 h1 h2 p1 p2 eq_refl eq_refl Hh L1 L2 (kt_state _ _ _ _ _ _ T1) (kt_state _ _ _ _ _ _ T2)) as Es.
  rewrite (kt_priority _ _ _ _ _ _ T1), (kt_priority _ _ _ _ _ _ T2) in Es. specialize (Es ltac:(lia)). rewrite Es. exec_simpl.
  exists k1, k2, p1, p2, h1, h2, g2, held2, F2. eexists. split; [reflexivity|]. cbn [current queue procs]. split_and!; try done.
  - apply (step_inv rq2); [exact (V2 (V1 boot_inv))|]. by apply (StepSchedule _ _ (JumpTo h2)).
  - intros x Hx. rewrite S2 by (clear -Hx; set_solver). by apply S1.
Qed.
End Boot.
