(* ===== verification/Main.v ===== *)
(** The boot sequence as a whole ([kernel_main] of [src/src/main.rs] and [init_bsp]
    of [src/src/arch/x86_64.rs]): the components in the order in which they are
    started, on one memory and the devices of the machine; and the panic handler.

    Each driver runs on the device it talks to. Lists, inodes and processes are
    values; the memory they take is asked of the heap, with the requests of each
    step of the boot as a parameter, since their layouts are for the compiler and the
    [alloc] library to choose. The messages that the components log themselves are
    left out; those of [kernel_main] and [init_bsp] are sent. *)
From Stdlib Require Import String.
From S2P Require Import Prelude Machine Vga Pmm Limine Slab Heap HeapUse Vmm Vma Effects Proc Fork Exec Text Vfs Mount Ramfs Rootfs Boot.
From S2P Require Import Ports Serial Console Pci I8042 Pic Timer Asm Io SyscallEntry Idt Gdt Ide IdeInit.
Arguments lit s%_string.

(** A driver function without an error result. *)
Definition drive {D A} (o : op D A) (d : D) : exec (A * D) :=
  '(r, d) ← o d; match r with Ok a => Ret (a, d) | Err _ => Panic end.

(** [logger::init]: [set_logger] fails the second time. *)
Definition logger_init (set : bool) : exec bool := if set then Panic else Ret true.

(** What the steps of the boot ask of the heap. *)
Record traffic := { for_pci : list request; for_ide : list request; for_files : list request; for_idle : list request; for_shell : list request }.
Definition all_requests (tr : traffic) : list request := for_pci tr ++ for_ide tr ++ for_files tr ++ for_idle tr ++ for_shell tr.

(** What the boot leaves behind: the processor and the devices, and the statics of
    the kernel. *)
Record kernel_state := {
  CPU : Gdt.cpu; UART : Serial.uart; PICS : Pic.pics; PIT : Timer.pit; PCI : Pci.pci; IDE : IdeInit.ide; KBC : I8042.i8042;
  LOGGER : bool; IDT : list Idt.IdtEntry; HEAP : heap; HELD : list (Z * Layout); KERNEL_PML4_PHYS : Z; SCREEN : Vga.Screen;
  DEVICES : list PciDevice; DRIVES : list Ide.Drive; VFS : Mount.VfsContext positive; INODES : ramfs;
  INTERRUPTS : bool; CLOCK : Timer.clock; RUN_QUEUE : sched
}.

Section Main.
Context {hh : Hhdm}.
(** The font and the image that are part of the kernel; the devices' own
    behaviour; the processor's answers; the addresses that the linker and the boot
    loader chose; the time; the use of the heap. *)
Context (FONT image : list Z) (wr : mem → Z → Z → mem) (latency fuel : nat) (cpuid : Z → Z → CpuidResult).
Context (g t l entry kernel_stack_top : Z) (addr : stub → Z) (memmap_req fb_req cr3 idle_task shell_task : Z) (tsc reads : nat → Z).
Context (turns : nat) (tr : traffic).

(** The serial line and the screen, as the log uses them. *)
Definition output : Type := Serial.uart * Vga.Screen.
Implicit Types (o : output) (s : mm).

Definition serial_println (text : str) o : exec output :=
  '(_, u) ← drive (serial_write_str fuel (text ++ [10])) o.1; Ret (u, o.2).
Definition klog (logger : bool) (lvl : Level) (target text : str) o : exec output :=
  if logger then '(_, u) ← drive (serial_write_str fuel (log_line lvl target text)) o.1; Ret (u, log_color lvl o.2) else Ret o.

Definition ARCH : str := lit "SarOS::arch::x86_64".
Definition MAIN : str := lit "SarOS".

(** [arch::x86_64::init_bsp] *)
Definition init_bsp (c : Gdt.cpu) (pics_ : Pic.pics) (pit_ : Timer.pit) o : exec (Gdt.cpu * list Idt.IdtEntry * Pic.pics * Timer.pit * output) :=
  c ← Gdt.gdt_init_bsp g t l kernel_stack_top c;
  o ← klog true Debug ARCH (lit "GDT loaded") o;
  idt ← Idt.init addr Idt_new;
  o ← klog true Debug ARCH (lit "IDT loaded") o;
  '(_, pics_) ← drive Pic.pic_init pics_;
  o ← klog true Debug ARCH (lit "PIC remapped") o;
  '(_, pit_) ← drive Timer.timer_init pit_;
  o ← klog true Debug ARCH (lit "PIT initialized") o;
  let c := Gdt.cpu_init_syscall entry c in
  o ← klog true Debug ARCH (lit "SYSCALL initialized") o;
  let c := Gdt.cpu_features cpuid c in
  o ← klog true Debug ARCH (lit "CPU features: WP enabled; SMEP/SMAP/FSGSBASE/NXE if supported") o;
  Ret (c, idt, pics_, pit_, o).

Definition pmm_message s : exec str :=
  f ← u64_mul (free_pages s) PAGE_SIZE;
  n ← u64_mul (total_pages s) PAGE_SIZE;
  Ret (lit "PMM: " ++ dec (f / 1024 / 1024) ++ lit " MiB free / " ++ dec (n / 1024 / 1024) ++ lit " MiB total").

Definition BANNER : str := lit "SarOS 0.1.0" ++ [10].

(** [vga::init] and the banner *)
Definition start_screen s (scr : Vga.Screen) : exec (mm * Vga.Screen) :=
  '(scr, m) ← Vga.init (first_framebuffer (ram s) fb_req) scr (ram s);
  let scr := set_color scr LIGHT_GREEN BLACK in
  '(scr, m) ← Vga.write_str FONT scr m BANNER;
  Ret (set_ram s m, set_color scr WHITE BLACK).

(** [kernel_main] up to the switch to the first process *)
Definition kernel_main (c : Gdt.cpu) (u : Serial.uart) (pics_ : Pic.pics) (pit_ : Timer.pit) (pci_ : Pci.pci) (ide_ : IdeInit.ide) (kbc : I8042.i8042)
    : exec (kernel_state * transfer) :=
  '(_, u) ← drive serial_init u;
  o ← serial_println (lit "=== Kernel booting ===") (u, Vga.uninit);
  logger ← logger_init false;
  o ← klog logger Info MAIN (lit "Logger initialized") o;
  '(c, idt, pics_, pit_, o) ← init_bsp c pics_ pit_ o;
  s ← pmm_init (cmem c) memmap_req (mm_boot (cmem c));
  text ← pmm_message s;
  o ← klog logger Info MAIN text o;
  let pml4 := init_kernel_pml4 cr3 in
  o ← klog logger Info MAIN (lit "VMM initialized") o;
  '(s, scr) ← start_screen s o.2;
  '(devices, pci_) ← drive (Pci.init (ports := Pci.pci_ports wr)) pci_;
  '(h, held) ← requests turns (for_pci tr) {| hmm := s; caches := KernelAllocator_new |} [];
  '(drives, ide_) ← drive (Ide.init (ports := IdeInit.ide_ports latency)) ide_;
  '(h, held) ← requests turns (for_ide tr) h held;
  '(v, inodes) ← drive (init_rootfs image) no_inodes;
  '(h, held) ← requests turns (for_files tr) h held;
  o ← klog logger Info MAIN (lit "Filesystem initialized") (o.1, scr);
  '(_, kbc) ← drive (i8042_init fuel) kbc;
  o ← klog logger Info MAIN (lit "Keyboard i8042 initialized") o;
  let interrupts := true in
  o ← klog logger Info MAIN (lit "Interrupts enabled") o;
  clock_ ← calibrate_tsc fuel clock_boot tsc reads;
  '(h, held, rq, to) ← start_processes turns (for_idle tr) (for_shell tr) idle_task shell_task cr3 h held boot;
  Ret ({| CPU := c; UART := o.1; PICS := pics_; PIT := pit_; PCI := pci_; IDE := ide_; KBC := kbc;
          LOGGER := logger; IDT := idt; HEAP := h; HELD := held; KERNEL_PML4_PHYS := pml4; SCREEN := o.2;
          DEVICES := devices; DRIVES := drives; VFS := v; INODES := inodes;
          INTERRUPTS := interrupts; CLOCK := clock_; RUN_QUEUE := rq |}, to).

(** ** The steps *)
Implicit Types (u : Serial.uart) (scr : Vga.Screen).

Lemma drive_ok {D A} (x : op D A) d a d' : x d = Ret (Ok a, d') → drive x d = Ret (a, d').
Proof. intros E. unfold drive. by rewrite E. Qed.

Lemma serial_ready u : (sending u < fuel)%nat → (∀ n, (busy_for u n < fuel)%nat) →
  ∃ u', drive serial_init u = Ret ((), u') ∧ ready fuel u'.
Proof. intros Hs Hb. eexists. split; [reflexivity|]. unfold ready, dlab. cbn. auto. Qed.

Lemma send_ok u scr text : ready fuel u → ∃ u', serial_println text (u, scr) = Ret (u', scr) ∧ ready fuel u'.
Proof.
  intros Hr. destruct (serial_write_str_spec fuel (text ++ [10]) u Hr) as (u' & E & _ & _ & R). exists u'.
  unfold serial_println. cbn [fst snd]. by rewrite (drive_ok _ _ _ _ E).
Qed.

Lemma klog_ok u scr lvl target text : ready fuel u →
  ∃ u', klog true lvl target text (u, scr) = Ret (u', log_color lvl scr) ∧ ready fuel u'.
Proof.
  intros Hr. destruct (serial_write_str_spec fuel (log_line lvl target text) u Hr) as (u' & E & _ & _ & R). exists u'.
  unfold klog. cbn [fst snd]. by rewrite (drive_ok _ _ _ _ E).
Qed.

(** Follows a log message. *)
Ltac logged :=
  match goal with
  | H : ready fuel ?u |- context [klog true ?lvl ?target ?text (?u, ?scr)] =>
      let u' := fresh "u" in let E := fresh "E" in let R := fresh "R" in
      destruct (klog_ok u scr lvl target text H) as (u' & E & R); rewrite E; clear E H; exec_simpl
  end.

Definition gray scr : Vga.Screen := set_color scr LIGHT_GRAY BLACK.
Lemma geom_gray scr : geom_ok scr → geom_ok (gray scr).
Proof. intros []. split; cbn; auto; unfold LIGHT_GRAY, BLACK; lia. Qed.

(** The controllers and the counter after [init_bsp] *)
Record interrupts_ready (pics_ : Pic.pics) (pit_ : Timer.pit) : Prop := {
  ir_pics : pics_ready pics_;
  ir_service : isr (master pics_) = 0 ∧ isr (slave pics_) = 0;
  ir_master : ∀ i, 0 ≤ i < 8 → Z.testbit (imr (master pics_)) i = negb (bool_decide (i ∈ [0; 1; 4]));
  ir_slave : ∀ i, 0 ≤ i < 8 → Z.testbit (imr (slave pics_)) i = true;
  ir_rate : Timer.reload pit_ = 1193
}.

Lemma init_bsp_ok c m pics_ pit_ u scr : layout g t l → cmem c = statics g t l m → is_u64 kernel_stack_top → is_u64 entry →
  is_u64 (msr c MSR_EFER) → ready fuel u →
  ∃ c' pics' pit' u', init_bsp c pics_ pit_ (u, scr) = Ret (c', expected_gate addr <$> seqZ 0 256, pics', pit', (u', gray scr)) ∧
    ready fuel u' ∧ cpu_wf g t l kernel_stack_top c' ∧ msr c' MSR_LSTAR = entry ∧ Z.testbit (cr0 c') 16 = true ∧
    interrupts_ready pics' pit' ∧ ∀ x, ¬ in_statics g t l x → cmem c' x = cmem c x.
Proof.
  intros Hlay Hc Hk He Hf Hr. destruct (init_bsp_spec g t l entry cpuid c m kernel_stack_top Hlay Hc Hk He Hf) as (c' & E & _ & Hw & Hb & Hl).
  unfold Gdt.init_bsp in E. destruct (gdt_init_bsp g t l kernel_stack_top c) as [c1| |] eqn:E1; [|done..]. injection E as <-.
  destruct (pic_init_correct pics_) as (pics' & Ep & P1 & P2 & P3 & P4 & P5).
  unfold init_bsp. rewrite E1. exec_simpl. logged. rewrite Idt.init_table. exec_simpl. logged. rewrite (drive_ok _ _ _ _ Ep). exec_simpl. logged.
  assert (Et : timer_init pit_ = Ret (Ok (), {| Timer.reload := 1193; low_byte := None |})) by (unfold timer_init; by rewrite init_pit_correct).
  rewrite (drive_ok _ _ _ _ Et). exec_simpl. logged. logged. logged.
  eexists _, pics', _, _. split; [reflexivity|]. split; [done|]. split; [done|]. split; [done|].
  split; [destruct (Hb 16) as (-> & _); [lia|apply orb_true_r]|]. split; [by split|].
  intros x Hx. destruct (cpu_features_control cpuid (cpu_init_syscall entry c1)) as (? & ? & ? & -> & _). exact (gdt_init_frame _ _ _ _ _ _ x E1 Hx).
Qed.

(** The terminal with the banner on its first line. *)
Definition banner (fb : Vga.Framebuffer) : term :=
  fold_left (term_put (fb_height fb / FONT_HEIGHT) (fb_width fb / FONT_WIDTH) LIGHT_GREEN BLACK) BANNER blank.

Definition in_screen (fb : Vga.Framebuffer) (x : Z) : Prop := fb_address fb ≤ x < fb_address fb + fb_height fb * fb_pitch fb.

Lemma start_screen_ok s scr fb fbs : length FONT = 4096%nat → fb_ok fb → first_framebuffer (ram s) fb_req = Some (take 1 (fb :: fbs)) →
  0 ≤ fg scr < U32 → 0 ≤ bg scr < U32 →
  ∃ scr' m', start_screen s scr = Ret (set_ram s m', set_color (with_cursor scr' (banner fb)) WHITE BLACK) ∧
    geom_ok scr' ∧ shows FONT scr' m' (t_grid (banner fb)) ∧ cursor_ok scr' (banner fb) ∧
    (Vga.base scr', height scr', pitch scr') = (fb_address fb, fb_height fb, fb_pitch fb) ∧
    ∀ x, ¬ in_screen fb x → m' x = ram s x.
Proof.
  intros HF Hfb Efb Hf Hb. destruct (Vga.init_spec FONT HF fb [] scr (ram s) Hfb Hf Hb) as (scr1 & m1 & E1 & Hg & Hs & Hc & _ & _ & Ec & Er & Eb & Ho).
  unfold start_screen. rewrite Efb. change (take 1 (fb :: fbs)) with [fb]. rewrite E1. exec_simpl.
  set (scr2 := set_color scr1 LIGHT_GREEN BLACK). assert (Hg2 : geom_ok scr2).
  { destruct Hg. split; cbn; auto; unfold LIGHT_GREEN, BLACK; lia. }
  change (set_color (with_cursor scr1 blank) LIGHT_GREEN BLACK) with (with_cursor scr2 blank).
  destruct (put_bytes_refines FONT HF scr2 BANNER Hg2 ltac:(apply (bool_decide_unpack _); by vm_compute) false m1 blank) as (m2 & E2 & Hs2 & Hc2 & Ho2); [done|done|].
  rewrite visible_plain in E2, Hs2, Hc2 by (apply (bool_decide_unpack _); by vm_compute). change (rows scr2) with (rows scr1) in *. change (cols scr2) with (cols scr1) in *.
  change (fg scr2) with LIGHT_GREEN in *. change (bg scr2) with BLACK in *.
  assert (Etb : fold_left (term_put (rows scr1) (cols scr1) LIGHT_GREEN BLACK) BANNER blank = banner fb) by (unfold banner; by rewrite Er, Ec).
  rewrite Etb in E2, Hs2, Hc2. clear Etb. unfold Vga.write_str. change (Vga.base (with_cursor scr2 blank)) with (Vga.base scr1). pose proof (go_base _ Hg).
  rewrite (proj2 (Z.eqb_neq _ 0)) by lia. rewrite E2. exec_simpl. injection Eb as Eb1 Eb2 Eb3.
  exists scr2, m2. split; [reflexivity|]. split; [exact Hg2|]. split; [exact Hs2|]. split; [exact Hc2|]. split; [by rewrite <- Eb1, <- Eb2, <- Eb3|]. intros x Hx. unfold in_screen in Hx.
  change (Vga.base scr2) with (Vga.base scr1) in *. change (height scr2) with (height scr1) in *. change (pitch scr2) with (pitch scr1) in *.
  rewrite Eb1, Eb2, Eb3 in *. rewrite Ho2, Ho by lia. done.
Qed.

#[local] Opaque banner.

Lemma pmm_message_ok co s F : pmm_inv co s F → TOTAL_PAGES s = FREE_PAGES s → ∃ text, pmm_message s = Ret text.
Proof.
  intros HI Ht. pose proof (pmm_inv_size _ _ _ HI). destruct HI as (_ & _ & _ & Hf & _).
  unfold pmm_message, free_pages, total_pages. rewrite Ht, Hf, u64_mul_ok by lia. exec_simpl. by eexists.
Qed.

(** ** The machine at boot *)

(** The memory that the kernel changes before it reads the responses: its own
    structures and the usable memory. *)
Definition kernel_owned (es : list MemoryMapEntry) (x : Z) : Prop := in_statics g t l x ∨ vframe x ∈ usable_frames es.

(** [m] is the memory with the kernel image and the responses of the boot loader;
    the usable memory holds neither, and the framebuffer is apart from both. *)
Record bootable (m : mem) (es : list MemoryMapEntry) (fb : Vga.Framebuffer) (fbs : list Vga.Framebuffer) : Prop := {
  bt_layout : layout g t l;
  bt_stack : is_u64 kernel_stack_top;
  bt_entry : is_u64 entry;
  bt_font : length FONT = 4096%nat;
  bt_image : length image ≤ ISIZE_MAX;
  bt_map : memmap_ok true (-1) es;
  bt_fb : fb_ok fb;
  bt_responses : ∀ m', (∀ x, ¬ kernel_owned es x → m' x = m x) →
    memmap_response m' (response m' memmap_req) es ∧ framebuffer_response m' (response m' fb_req) (fb :: fbs);
  bt_statics : ∀ x, in_statics g t l x → is_u64 x ∧ vframe x ∉ usable_frames es;
  bt_screen : ∀ x, in_screen fb x → ¬ kernel_owned es x
}.

(** The devices answer within the kernel's patience. *)
Record responsive (u : Serial.uart) (ide_ : IdeInit.ide) (kbc : I8042.i8042) : Prop := {
  rs_uart : (sending u < fuel)%nat ∧ ∀ n, (busy_for u n < fuel)%nat;
  rs_ide : (latency < POLLS)%nat ∧ ∀ i x, IdeInit.block_ok (devs (get i ide_) x);
  rs_sizes : forallb sizeable (expected_drives ide_) = true;
  rs_kbc : I8042.answer kbc = None ∧ (full kbc < fuel)%nat ∧ (I8042.latency kbc + 1 < fuel)%nat ∧
    (length (out kbc) < fuel)%nat ∧ (length (I8042.sent kbc) < fuel)%nat
}.

(** Ten milliseconds pass within [k] polls. *)
Record time_passes (k : nat) : Prop := {
  tp_fuel : (k < fuel)%nat;
  tp_counter : ∀ i, is_u64 (tsc i);
  tp_wait : ∀ i, (1 ≤ i < 1 + k)%nat → reads O ≤ reads i < reads O + 10;
  tp_end : reads O + 10 ≤ reads (1 + k)%nat;
  tp_mono : tsc O ≤ tsc (1 + k)%nat;
  tp_bound : (tsc (1 + k)%nat - tsc O) * 1000 < U64
}.

(** The requests are well formed, with layouts of at most [2 ^ m] pages, and there
    are free blocks of that size, one for each request and each stack. *)
Record provided (m : nat) (es : list MemoryMapEntry) : Prop := {
  pv_turns : MAX_SLABS < Z.of_nat turns;
  pv_order : (2 ≤ m ≤ MAX_ORDER)%nat;
  pv_requests : is_Some (after m (all_requests tr) []);
  pv_room : room m (usable_frames es) (cost (all_requests tr) + 2)
}.

(** ** The machine after boot *)
Record booted (m : nat) (es : list MemoryMapEntry) (fb : Vga.Framebuffer) (pci_ : Pci.pci) (ide_ : IdeInit.ide) (kbc : I8042.i8042) (k : nat)
    (st : kernel_state) (h1 h2 : positive) (p1 p2 : Process) (k1 k2 : Z) : Prop := {
  bd_cpu : cpu_wf g t l kernel_stack_top (set_cmem (CPU st) (ram (hmm (HEAP st))));
  bd_syscall : msr (CPU st) MSR_LSTAR = entry;
  bd_protect : Z.testbit (cr0 (CPU st)) 16 = true;
  bd_idt : IDT st = expected_gate addr <$> seqZ 0 256;
  bd_interrupts : interrupts_ready (PICS st) (PIT st) ∧ INTERRUPTS st = true;
  bd_uart : ready fuel (UART st);
  bd_screen : displays FONT {| con_serial := []; con_scr := SCREEN st; con_mem := ram (hmm (HEAP st)) |} (banner fb);
  bd_colour : (fg (SCREEN st), bg (SCREEN st)) = (LIGHT_GRAY, BLACK);
  bd_devices : NoDup (DEVICES st) ∧
    ∀ p, p ∈ DEVICES st ↔ ∃ b d f, reachable (cfg pci_) b d f ∧ p = describe (cfg pci_ b d f) b d f;
  bd_drives : DRIVES st = expected_drives ide_;
  bd_files : VFS st = root_ctx ∧ ram_wf (INODES st) ∧
    Forall (λ f, read_file root_ctx f.1 (INODES st) = Ret (Ok f.2, INODES st)) (rootfs_texts ++ [(IMAGE_PATH, image)]);
  bd_keyboard : out (KBC st) = [] ∧ Z.testbit (ccb (KBC st)) 0 = true;
  bd_clock : TSC_FREQ_HZ (CLOCK st) = (tsc (1 + k)%nat - tsc O) * 1000 / 10;
  bd_stacks : block_set 2 k1 ## block_set 2 k2 ∧ block_set 2 k1 ∪ block_set 2 k2 ⊆ usable_frames es;
  bd_held : after m (all_requests tr) [] = Some (snd <$> HELD st);
  bd_frames : ∃ F, F ⊆ usable_frames es ∧ client_inv (HEAP st) F (block_set 2 k1 ∪ block_set 2 k2) (HELD st);
  bd_queue : sched_inv (RUN_QUEUE st) ∧ current (RUN_QUEUE st) = Some h2 ∧ queue (RUN_QUEUE st) = [h1];
  bd_idle : procs (RUN_QUEUE st) !! h1 = Some p1 ∧ kernel_thread (lit "idle") idle_task 255 cr3 k1 p1;
  bd_shell : procs (RUN_QUEUE st) !! h2 = Some (set_state Running p2) ∧ kernel_thread (lit "shell") shell_task 5 cr3 k2 p2
}.

Lemma statics_other m x : ¬ in_statics g t l x → statics g t l m x = m x.
Proof.
  intros Hx. unfold in_statics in Hx. unfold statics. cbv zeta.
  assert (H : ∀ m' a bs, x < a ∨ a + length bs ≤ x → store_bytes m' a bs x = m' x).
  { intros m' a bs Ha. unfold store_bytes. destruct (Z.leb_spec a x), (Z.ltb_spec x (a + length bs)); try done. lia. }
  change (Z.of_nat (length (gdt_bytes Gdt_new))) with 56 in *.
  rewrite (H _ l), (H _ t), (H _ g); [done|change (length (gdt_bytes Gdt_new)) with 56%nat; lia|change (length (tss_bytes Tss_new)) with 104%nat; lia|change (length (replicate 24 0)) with 24%nat; lia].
Qed.

(** Memory: the allocator takes the usable frames, the screen shows the banner. *)
Lemma memory_ok m es fb fbs mc scr : bootable m es fb fbs → (∀ x, ¬ in_statics g t l x → mc x = m x) → 0 ≤ fg scr < U32 → 0 ≤ bg scr < U32 →
  ∃ s s' scr', pmm_init mc memmap_req (mm_boot mc) = Ret s ∧ (∃ text, pmm_message s = Ret text) ∧
    start_screen s scr = Ret (s', set_color (with_cursor scr' (banner fb)) WHITE BLACK) ∧
    pmm_inv true s' (usable_frames es) ∧ geom_ok scr' ∧ shows FONT scr' (ram s') (t_grid (banner fb)) ∧ cursor_ok scr' (banner fb) ∧
    (Vga.base scr', height scr', pitch scr') = (fb_address fb, fb_height fb, fb_pitch fb) ∧
    ∀ x, in_statics g t l x → ram s' x = mc x.
Proof.
  intros [Hlay _ _ HF _ Hmap Hfb Hresp Hst Hscr] Hmc Hf Hb.
  destruct (init_refines true es mc Hmap) as (s & Es & HI & Hag & Htot).
  destruct (Hresp mc) as [R1 _]; [intros x Hx; apply Hmc; intros Hs; apply Hx; by left|].
  destruct (Hresp (ram s)) as [_ R2].
  { intros x Hx. rewrite Hag by (intros Hu; apply Hx; by right). apply Hmc. intros Hs. apply Hx. by left. }
  destruct (start_screen_ok s scr fb fbs HF Hfb (first_framebuffer_ok _ _ _ R2) Hf Hb) as (scr' & m' & E & Hg & Hs & Hc & Eb & Ho).
  exists s, (set_ram s m'), scr'. split; [unfold pmm_init; rewrite (memory_map_ok _ _ _ R1); exec_simpl; exact Es|].
  split; [by apply (pmm_message_ok true s (usable_frames es))|]. split; [exact E|].
  split; [apply pmm_inv_frame; [exact HI|]; intros x Hx; apply Ho; intros Hin; apply (Hscr x Hin); by right|].
  split; [exact Hg|]. split; [exact Hs|]. split; [exact Hc|]. split; [exact Eb|].
  intros x Hx. cbn [ram set_ram]. rewrite Ho by (intros Hin; apply (Hscr x Hin); by left). apply Hag. by apply Hst in Hx as [_ Hx].
Qed.

(** A set with the frames of all addresses *)
Lemma frames_between a n : ∃ A : gset Z, ∀ f, f ∈ A ↔ a ≤ f < a + n.
Proof. exists (list_to_set (seqZ a n)). intros f. by rewrite elem_of_list_to_set, elem_of_seqZ. Qed.

Lemma all_frames : ∃ A : gset Z, (∀ x, is_u64 x → vframe x ∈ A) ∧ (∀ f, 0 ≤ f < 17179869184 → f ∈ A).
Proof.
  destruct (frames_between (- 4503599627370496) 9007199254740992) as [A HA]. exists A. split; [|intros f Hf; apply HA; lia].
  intros x Hx. apply HA. unfold is_u64 in Hx. pose proof hhdm_pos. pose proof hhdm_bound. unfold vframe. dlia.
Qed.

Lemma stack_frames k f : Pmm.block_ok 2 k → f ∈ block_set 2 k → 0 ≤ f < 17179869184.
Proof.
  intros (H1 & _ & H2) [H3 H4]%block_set_elem%block_frames_elem.
  change (PAGE_SIZE * 2 ^ 2%nat) with 16384 in H2. change (2 ^ 2%nat) with 4 in H4. dlia.
Qed.

(** ** The use of the heap *)

(** The heap and the scheduler after the boot *)
Record settled (m : nat) (es : list MemoryMapEntry) s (h : heap) (held : list (Z * Layout)) (rq : sched) (h1 h2 : positive) (p1 p2 : Process) (k1 k2 : Z) : Prop := {
  sl_queue : current rq = Some h2 ∧ queue rq = [h1] ∧ sched_inv rq;
  sl_idle : procs rq !! h1 = Some p1 ∧ kernel_thread (lit "idle") idle_task 255 cr3 k1 p1;
  sl_shell : procs rq !! h2 = Some (set_state Running p2) ∧ kernel_thread (lit "shell") shell_task 5 cr3 k2 p2;
  sl_stacks : block_set 2 k1 ## block_set 2 k2 ∧ block_set 2 k1 ∪ block_set 2 k2 ⊆ usable_frames es;
  sl_held : after m (all_requests tr) [] = Some (snd <$> held);
  sl_frames : ∃ F, F ⊆ usable_frames es ∧ client_inv h F (block_set 2 k1 ∪ block_set 2 k2) held;
  sl_memory : ∀ x, is_u64 x → vframe x ∉ usable_frames es → ram (hmm h) x = ram s x
}.

Lemma heap_ok m es s : provided m es → pmm_inv true s (usable_frames es) →
  ∃ g1 l1 g2 l2 g3 l3 g4 l4 rq h1 h2 p1 p2 k1 k2,
    requests turns (for_pci tr) {| hmm := s; caches := KernelAllocator_new |} [] = Ret (g1, l1) ∧
    requests turns (for_ide tr) g1 l1 = Ret (g2, l2) ∧ requests turns (for_files tr) g2 l2 = Ret (g3, l3) ∧
    start_processes turns (for_idle tr) (for_shell tr) idle_task shell_task cr3 g3 l3 boot = Ret (g4, l4, rq, JumpTo h2) ∧
    settled m es s g4 l4 rq h1 h2 p1 p2 k1 k2.
Proof.
  intros [Ht Hm [ls Ha] Hroom] HI. assert (Hm' : (m ≤ MAX_ORDER)%nat) by lia. pose proof Ha as Ha0. unfold all_requests in Ha, Hroom.
  rewrite after_app in Ha. destruct (after m (for_pci tr) []) as [ls1|] eqn:A1; [|done]. cbn in Ha.
  rewrite after_app in Ha. destruct (after m (for_ide tr) ls1) as [ls2|] eqn:A2; [|done]. cbn in Ha.
  rewrite after_app in Ha. destruct (after m (for_files tr) ls2) as [ls3|] eqn:A3; [|done]. cbn in Ha.
  rewrite !(cost_app (for_pci tr)), (cost_app (for_ide tr)), (cost_app (for_files tr)), <- !Nat.add_assoc in Hroom.
  destruct all_frames as (A & HA & HA2). set (X := A ∖ usable_frames es).
  pose proof (client_boot s _ X HI ltac:(set_solver)) as HC. change (@nil Layout) with (snd <$> ([] : list (Z * Layout))) in A1.
  destruct (requests_ok turns m _ _ _ _ _ _ _ HC A1 Hm' Hroom Ht) as (g1 & l1 & F1 & E1 & <- & C1 & R1 & S1).
  destruct (requests_ok turns m _ _ _ _ _ _ _ C1 A2 Hm' R1 Ht) as (g2 & l2 & F2 & E2 & <- & C2 & R2 & S2).
  destruct (requests_ok turns m _ _ _ _ _ _ _ C2 A3 Hm' R2 Ht) as (g3 & l3 & F3 & E3 & <- & C3 & R3 & S3).
  destruct (boot_runs_shell turns (for_idle tr) (for_shell tr) g3 F3 X l3 ls m idle_task shell_task cr3 C3 Ha Hm R3 Ht)
    as (k1 & k2 & p1 & p2 & h1 & h2 & g4 & l4 & F4 & rq & E4 & B1 & B2 & B3 & B4 & B5 & B6 & _ & _ & K1 & K2 & D1 & D2 & C4 & El & B9 & S4).
  exists g1, l1, g2, l2, g3, l3, g4, l4, rq, h1, h2, p1, p2, k1, k2. split_and!; [done..|].
  assert (HU : ∀ k, Pmm.block_ok 2 k → block_set 2 k ## X → block_set 2 k ⊆ usable_frames es).
  { intros k Hk HD f Hf. pose proof (HA2 f (stack_frames k f Hk Hf)). set_solver. }
  split; [done|done|done| |by rewrite Ha0, El| |].
  - split; [set_solver|]. apply union_subseteq. split; apply HU; [done..|]. set_solver.
  - exists F4. split; [|apply (client_less g4 F4 (X ∪ block_set 2 k1 ∪ block_set 2 k2)); [set_solver|done]].
    destruct (client_free _ _ _ _ C4) as [HI4 HX4]. intros f Hf. pose proof (HA2 f (fa_bound _ _ f HI4 Hf)). set_solver.
  - intros x Hx Hu. pose proof (HA x Hx). rewrite S4, S3, S2, S1 by set_solver. done.
Qed.

(** The devices and the file system *)
Lemma pci_ok (pci_ : Pci.pci) : ∃ devices pci', drive (Pci.init (ports := Pci.pci_ports wr)) pci_ = Ret (devices, pci') ∧ NoDup devices ∧
  ∀ p, p ∈ devices ↔ ∃ b d f, reachable (cfg pci_) b d f ∧ p = describe (cfg pci_ b d f) b d f.
Proof.
  destruct (init_keeps wr (cfg pci_) pci_ eq_refl) as (pci' & E & _). eexists _, pci'. split; [exact (drive_ok _ _ _ _ E)|].
  split; [exact (found_nodup (cfg pci_))|exact (elem_of_found wr (cfg pci_))].
Qed.

Lemma ide_ok (ide_ : IdeInit.ide) : (latency < POLLS)%nat → (∀ i x, IdeInit.block_ok (devs (get i ide_) x)) →
  forallb sizeable (expected_drives ide_) = true →
  ∃ ide', drive (Ide.init (ports := IdeInit.ide_ports latency)) ide_ = Ret (expected_drives ide_, ide').
Proof.
  intros Hl Hb Hs. destruct (ide_init_correct latency Hl ide_ Hb) as (ide' & _ & E). rewrite Hs in E. exists ide'. exact (drive_ok _ _ _ _ E).
Qed.

Lemma rootfs_ok : length image ≤ ISIZE_MAX → ∃ inodes, drive (init_rootfs image) no_inodes = Ret (root_ctx, inodes) ∧ ram_wf inodes ∧
  Forall (λ f, read_file root_ctx f.1 inodes = Ret (Ok f.2, inodes)) (rootfs_texts ++ [(IMAGE_PATH, image)]).
Proof.
  intros Hi. destruct (rootfs_correct image Hi) as (inodes & E & Hw & _ & Hf & _). exists inodes.
  split; [exact (drive_ok _ _ _ _ E)|]. split; [exact Hw|exact Hf].
Qed.


(** C1: On a machine whose devices answer, with the responses of the boot loader in
    memory and a usable framebuffer, [kernel_main] reaches its first process without
    a panic, whatever it asks of the heap: the requests of the boot are any
    well-formed list of allocations, reallocations, releases and writes, of layouts of
    at most [2 ^ m] pages, and one free block of that size per allocation and stack is
    enough. The shell runs and the idle task waits, each on a stack of its own; the
    kernel holds exactly the objects it asked for and did not release, and what
    the heap, the stacks and the frame allocator hold does not overlap; the processor is
    well formed on the same memory, with its gates, its system call entry and write
    protection; only the timer, the keyboard and the serial line can interrupt, a
    thousand times a second for the timer; the screen shows the banner; the lists of
    functions and drives are those of the machine; and the files of the root file
    system can be read. *)
Theorem kernel_main_correct m es fb fbs c u pics_ pit_ pci_ ide_ kbc k n :
  bootable m es fb fbs → responsive u ide_ kbc → time_passes k → provided n es → cmem c = statics g t l m → is_u64 (msr c MSR_EFER) →
  ∃ st h1 h2 p1 p2 k1 k2, kernel_main c u pics_ pit_ pci_ ide_ kbc = Ret (st, JumpTo h2) ∧
    booted n es fb pci_ ide_ kbc k st h1 h2 p1 p2 k1 k2.
Proof.
  intros HB HR HT HP Hc Hefer. destruct (HR) as [[U1 U2] [I1 I2] Isz (K1 & K2 & K3 & K4 & K5)].
  destruct (serial_ready u U1 U2) as (u0 & E0 & R0). destruct (send_ok u0 Vga.uninit (lit "=== Kernel booting ===") R0) as (u1 & E1 & R1).
  destruct (rootfs_ok (bt_image _ _ _ _ HB)) as (inodes & E9 & Hrw & Hfiles).
  unfold kernel_main. revert E9. generalize (drive (init_rootfs image) no_inodes). intros files E9. rewrite E0. exec_simpl. rewrite E1. cbn [logger_init]. exec_simpl. clear R0 E0 E1. logged.
  destruct (init_bsp_ok c m pics_ pit_ u2 (log_color Info Vga.uninit) (bt_layout _ _ _ _ HB) Hc (bt_stack _ _ _ _ HB) (bt_entry _ _ _ _ HB) Hefer R)
    as (c' & pics' & pit' & u3 & E3 & R3 & Hw & Hl & Hwp & Hir & Hfr). rewrite E3. exec_simpl. clear E3 R.
  destruct (memory_ok m es fb fbs (cmem c') (gray Vga.uninit) HB) as (s & s' & scr & E4 & [text E5] & E6 & HI & Hg & Hs & Hcu & Eb & Hst).
  { intros x Hx. rewrite Hfr, Hc by done. by apply statics_other. }
  { cbn. unfold LIGHT_GRAY. lia. } { cbn. unfold BLACK. lia. }
  rewrite E4. exec_simpl. rewrite E5. exec_simpl. clear E4 E5. logged. logged.
  change (log_color Info (log_color Info (gray (log_color Info Vga.uninit)))) with (gray Vga.uninit). cbn [snd]. rewrite E6. exec_simpl. clear E6.
  destruct (heap_ok n es s' HP HI) as (g1 & l1 & g2 & l2 & g3 & l3 & g4 & l4 & rq & h1 & h2 & p1 & p2 & k1 & k2 & H1 & H2 & H3 & H4 & HS).
  destruct (pci_ok pci_) as (devices & pci' & E7 & Hnd & Hdev). rewrite E7. exec_simpl. rewrite H1. exec_simpl.
  destruct (ide_ok ide_ I1 I2 Isz) as (ide' & E8). rewrite E8. exec_simpl. rewrite H2. exec_simpl.
  rewrite E9. exec_simpl. rewrite H3. exec_simpl. cbn [fst].
  logged. destruct (i8042_init_correct fuel kbc K1 K2 K3 K4 K5) as (kbc' & E10 & Ko & _ & _ & Kb). rewrite (drive_ok _ _ _ _ E10). exec_simpl.
  logged. logged. destruct HT as [T1 T2 T3 T4 T5 T6]. rewrite (calibrate_tsc_ends clock_boot tsc reads k fuel T1 T2 T3 T4 T5 T6). exec_simpl.
  rewrite H4. exec_simpl. eexists _, h1, h2, p1, p2, k1, k2. split; [reflexivity|]. clear E7 E8 E9 E10 H1 H2 H3 H4. destruct HS as [(Q1 & Q2 & Q3) Hi1 Hi2 Hks Hh HF Hmem].
  assert (Hscr : ∀ x, in_screen fb x → ram (hmm g4) x = ram s' x).
  { intros x Hx. apply Hmem; [|intros Hu; apply (bt_screen _ _ _ _ HB x Hx); by right].
    destruct (bt_fb _ _ _ _ HB) as [_ F1 F2 _ _ _]. unfold in_screen in Hx. unfold is_u64. lia. }
  split; cbn [CPU UART PICS PIT PCI IDE KBC LOGGER IDT HEAP HELD SCREEN DEVICES DRIVES VFS INODES INTERRUPTS CLOCK RUN_QUEUE fst snd].
  - apply cpu_wf_mem; [exact Hw|]. intros x Hx. rewrite <- (Hst x Hx). by apply Hmem; apply (bt_statics _ _ _ _ HB).
  - exact Hl.
  - exact Hwp.
  - reflexivity.
  - split; [exact Hir|reflexivity].
  - assumption.
  - exists (gray scr). split; [by apply geom_gray|]. revert Hs Hcu. generalize (banner fb). intros tb Hs Hcu.
    split; [reflexivity|]. split; [|exact Hcu]. cbn [con_mem].
    apply (shows_agree FONT (bt_font _ _ _ _ HB) scr (ram s')); [exact Hg| |exact Hs]. injection Eb as Eb1 Eb2 Eb3. rewrite Eb1, Eb2, Eb3. exact Hscr.
  - reflexivity.
  - split; [exact Hnd|exact Hdev].
  - reflexivity.
  - split; [reflexivity|]. split; [exact Hrw|exact Hfiles].
  - split; [exact Ko|]. exact (Kb 0 ltac:(lia)).
  - reflexivity.
  - exact Hks.
  - exact Hh.
  - exact HF.
  - split; [exact Q3|]. split; [exact Q1|exact Q2].
  - exact Hi1.
  - exact Hi2.
Qed.
End Main.

(** ** The panic handler

    [info], the place and the message are the texts of the panic. The handler then
    halts with interrupts off. *)
Section Panic.
Context (FONT : list Z).
Implicit Types (c : console) (tm : term).

Definition panic_title : str := [10] ++ lit " *** KERNEL PANIC *** " ++ [10].
Definition panic_screen (location : option (str * Z)) (message : str) c : exec console :=
  c ← vga_print FONT panic_title c;
  c ← match location with
      | Some (file, line) => vga_print FONT (file ++ lit ":" ++ dec line ++ [10]) c
      | None => Ret c
      end;
  vga_print FONT (message ++ [10]) c.
Definition panic_serial (info : str) c : console :=
  serial_print (info ++ [10]) (serial_print ([10; 10] ++ lit "=== KERNEL PANIC ===" ++ [10]) c).
Definition panic (info : str) (location : option (str * Z)) (message : str) c : exec console :=
  let c := panic_serial info c in
  let c := vga_color WHITE RED c in
  panic_screen location message c.

Definition panic_texts (location : option (str * Z)) (message : str) : list str :=
  panic_title :: match location with Some (file, line) => [file ++ lit ":" ++ dec line ++ [10]] | None => [] end ++ [message ++ [10]].

Lemma vga_prints l : length FONT = 4096%nat → Forall (Forall is_byte) l → ∀ c tm, displays FONT c tm →
  ∃ c', foldl (λ r s, c ← r; vga_print FONT s c) (Ret c) l = Ret c' ∧ prints FONT [] l c tm c'.
Proof.
  intros HF Hl. induction Hl as [|s l Hs _ IH]; intros c tm Hd; [exists c; split; [done|by apply prints_refl]|].
  destruct (vga_print_spec FONT s c tm HF Hd Hs) as (c2 & E & P).
  destruct (IH c2 (typed_all c [s] tm) (pr_shows _ _ _ _ _ _ P)) as (c' & E' & P').
  exists c'. split; [cbn [foldl]; exec_simpl; rewrite E; exact E'|]. exact (prints_trans _ _ _ _ _ _ _ _ _ P P').
Qed.

Lemma panic_screen_spec location message c tm : length FONT = 4096%nat → displays FONT c tm →
  Forall (Forall is_byte) (panic_texts location message) →
  ∃ c', panic_screen location message c = Ret c' ∧ prints FONT [] (panic_texts location message) c tm c'.
Proof.
  intros HF Hd Hb. destruct (vga_prints _ HF Hb c tm Hd) as (c' & E & P). exists c'. split; [|done]. rewrite <- E.
  clear. unfold panic_screen, panic_texts. generalize panic_title. intros title.
  destruct location as [[file line]|]; cbn [app foldl]; exec_simpl; destruct (vga_print FONT title c); reflexivity.
Qed.

Lemma panic_color c tm : displays FONT c tm → displays FONT (vga_color WHITE RED c) tm.
Proof.
  intros (scr & Hg & Es & Hs & Hc). exists (set_color scr WHITE RED).
  split; [|split; [cbn; by rewrite Es|done]]. destruct Hg. split; cbn; auto; unfold WHITE, RED; lia.
Qed.

Lemma typed_all_same c1 c l tm : con_scr c1 = con_scr c → typed_all c1 l tm = typed_all c l tm.
Proof. intros E. unfold typed_all, typed. by rewrite E. Qed.

Lemma panic_serial_sent info c : con_serial (panic_serial info c) =
  con_serial c ++ crlf ([10; 10] ++ lit "=== KERNEL PANIC ===" ++ [10]) ++ crlf (info ++ [10]).
Proof. symmetry. apply app_assoc. Qed.

Lemma panic_serial_displays info c tm : displays FONT c tm → displays FONT (panic_serial info c) tm.
Proof. intros (scr & Hd). by exists scr. Qed.

(** On a console that works, the handler itself does not fail: it sends the report
    on the serial line and shows the title, the place and the message in white on
    red. *)
Lemma panic_reports info location message c tm : length FONT = 4096%nat → displays FONT c tm →
  Forall (Forall is_byte) (panic_texts location message) →
  ∃ c', panic info location message c = Ret c' ∧
    con_serial c' = con_serial c ++ crlf ([10; 10] ++ lit "=== KERNEL PANIC ===" ++ [10]) ++ crlf (info ++ [10]) ∧
    displays FONT c' (typed_all (vga_color WHITE RED c) (panic_texts location message) tm).
Proof.
  intros HF Hd Hb. pose proof (panic_color _ tm (panic_serial_displays info c tm Hd)) as Hd1.
  destruct (panic_screen_spec location message _ tm HF Hd1 Hb) as (c' & E & [Ps Pd _]). exists c'. split; [exact E|].
  rewrite app_nil_r in Ps. split; [exact (eq_trans Ps (panic_serial_sent info c))|].
  by rewrite (typed_all_same _ (vga_color WHITE RED c)) in Pd.
Qed.
End Panic.

(** ** A machine with 5 MiB of memory and a disk *)
Section Demo.
#[local] Existing Instance qemu_hhdm.

Definition demo_fb : Vga.Framebuffer := {| fb_address := 0xFD000000; fb_width := 640; fb_height := 480; fb_pitch := 2560; fb_bpp := 32 |}.

(** The responses of the boot loader: words at addresses. *)
Definition demo_words : list (Z * Z) :=
  [(0x10028, 0x11000); (0x11008, 2); (0x11010, 0x12000); (0x12000, 0x13000); (0x12008, 0x13020);
   (0x13000, 0); (0x13008, 0x100000); (0x13010, 1); (0x13020, 0x100000); (0x13028, 0x500000); (0x13030, 0);
   (0x20028, 0x21000); (0x21008, 1); (0x21010, 0x22000); (0x22000, 0x23000);
   (0x23000, 0xFD000000); (0x23008, 640); (0x23010, 480); (0x23018, 2560); (0x23020, 32)].
Definition demo_memory : mem := foldl (λ m w, store64 m w.1 w.2) (λ _, 0) demo_words.
Definition demo_boot_cpu : Gdt.cpu := set_cmem demo_cpu (statics 0x1000 0x2000 0x3000 demo_memory).

Lemma demo_not_owned x : 0x10000 ≤ x < 0x100000000 → ¬ kernel_owned 0x1000 0x2000 0x3000 demo_map x.
Proof.
  intros Hx [Hs|Hu]; [unfold in_statics in Hs; lia|]. apply demo_frames in Hu. unfold vframe in Hu. cbn [Machine.hhdm_offset qemu_hhdm] in Hu. dlia.
Qed.

Lemma demo_word m' a v n : (∀ x, ¬ kernel_owned 0x1000 0x2000 0x3000 demo_map x → m' x = demo_memory x) →
  0x10000 ≤ a < 0xFFFFFFF0 → (n ≤ 8)%nat → load_le n demo_memory a = v → load_le n m' a = v.
Proof. intros Hm Ha Hn <-. apply load_le_ext. intros x Hx. apply Hm, demo_not_owned. lia. Qed.

Lemma demo_responses m' : (∀ x, ¬ kernel_owned 0x1000 0x2000 0x3000 demo_map x → m' x = demo_memory x) →
  memmap_response m' (response m' 0x10000) demo_map ∧ framebuffer_response m' (response m' 0x20000) [demo_fb].
Proof.
  intros Hm. assert (H : ∀ a v, 0x10000 ≤ a < 0xFFFFFFF0 → load64 demo_memory a = v → load64 m' a = v) by (intros; by apply (demo_word _ _ _ 8%nat Hm)).
  assert (Hw : ∀ p ws, 0x10000 ≤ p < 0x100000 → Forall (λ x, load64 demo_memory (p + 8 * Z.of_nat x.1) = x.2) (zip (seq 0 (length ws)) ws) → (length ws ≤ 8)%nat → words_at m' p ws).
  { intros p ws Hp Hf Hl i w Hi. apply H; [apply lookup_lt_Some in Hi; lia|]. rewrite Forall_lookup in Hf. apply (Hf i (i, w)).
    apply lookup_zip_Some. split; [|done]. apply lookup_seq. split; [lia|]. by apply lookup_lt_Some in Hi. }
  unfold response. rewrite (H (0x10000 + 40) 0x11000), (H (0x20000 + 40) 0x21000) by (lia || by vm_compute). split; (split; [done|]).
  - rewrite (H (0x11000 + 8) 2), (H (0x11000 + 16) 0x12000) by (lia || by vm_compute). split; [done|].
    intros [|[|i]] e [= <-].
    + rewrite (H (0x12000 + 8 * Z.of_nat 0) 0x13000) by (lia || by vm_compute). apply Hw; [lia|apply (bool_decide_unpack _); by vm_compute|cbn; lia].
    + rewrite (H (0x12000 + 8 * Z.of_nat 1) 0x13020) by (lia || by vm_compute). apply Hw; [lia|apply (bool_decide_unpack _); by vm_compute|cbn; lia].
  - rewrite (H (0x21000 + 8) 1), (H (0x21000 + 16) 0x22000) by (lia || by vm_compute). split; [done|].
    intros [|i] f [= <-]. rewrite (H (0x22000 + 8 * Z.of_nat 0) 0x23000) by (lia || by vm_compute).
    split; [apply Hw; [lia|apply (bool_decide_unpack _); by vm_compute|cbn; lia]|]. apply (demo_word _ _ _ 2%nat Hm); [lia|lia|by vm_compute].
Qed.

Definition demo_font : list Z := replicate 4096 0.
Definition demo_tsc (n : nat) : Z := if (n =? 0)%nat then 0 else 20000000.
Definition demo_pci : Pci.pci := {| latch := 0; cfg := λ _ _ _ _, 0xFF |}.
Definition demo_pit : Timer.pit := {| Timer.reload := 0; low_byte := None |}.
Definition demo_pic : Pic.pic := {| imr := 0; irr := 0; isr := 0; Pic.base := 0; icw := 0; reads_isr := false |}.
Definition demo_pics : Pic.pics := {| master := demo_pic; slave := demo_pic |}.

Lemma demo_bootable : bootable demo_font [66; 77] 0x1000 0x2000 0x3000 0x4000 0x9000 0x10000 0x20000 demo_memory demo_map demo_fb [].
Proof.
  split; [split; lia|unfold is_u64; lia|unfold is_u64; lia|apply length_replicate|cbn; lia|exact demo_map_ok| | | |].
  - split; cbn; lia.
  - exact demo_responses.
  - intros x Hx. unfold in_statics in Hx. split; [unfold is_u64; lia|]. intros Hu.
    apply demo_frames in Hu. unfold vframe in Hu. cbn [Machine.hhdm_offset qemu_hhdm] in Hu. dlia.
  - intros x Hx. apply demo_not_owned. unfold in_screen in Hx. cbn in Hx. lia.
Qed.

Lemma demo_responsive : responsive 3 5 demo_uart demo_ide demo_i8042.
Proof.
  split; [split; [cbn; lia|]| |by vm_compute|split_and!; cbn; try lia; done].
  - intros n. cbn [demo_uart busy_for]. pose proof (Nat.mod_upper_bound n 3). lia.
  - split; [apply Nat.ltb_lt; by vm_compute|]. intros i s id. destruct i; [done|]. cbn. destruct (s =? 0); [|done]. intros [= <-]. split; [done|].
    apply (bool_decide_unpack _). by vm_compute.
Qed.

Lemma demo_time : time_passes 5 demo_tsc (λ n, 10 * Z.of_nat n) 0.
Proof.
  split; unfold demo_tsc; try (cbn; lia).
  intros i. destruct (i =? 0)%nat; unfold is_u64; lia.
Qed.

(** Some requests of the boot: a list that grows, a string, the image, inodes and
    the processes. *)
Definition demo_traffic : traffic :=
  {| for_pci := [Alloc {| size_ := 96; align := 4 |}; Write 0 3 0x80; Realloc 0 192];
     for_ide := [Alloc {| size_ := 40; align := 1 |}];
     for_files := [Alloc {| size_ := 152058; align := 1 |}; Alloc {| size_ := 24; align := 8 |}; Dealloc 0];
     for_idle := [Alloc {| size_ := 600; align := 16 |}];
     for_shell := [Alloc {| size_ := 600; align := 16 |}] |}.
Definition demo_turns : nat := Z.to_nat (MAX_SLABS + 1).

Lemma enough_turns z : 0 ≤ z → z < Z.of_nat (Z.to_nat (z + 1)).
Proof. lia. Qed.

Definition demo_held : list Layout :=
  [{| size_ := 600; align := 16 |}; {| size_ := 600; align := 16 |}; {| size_ := 152058; align := 1 |}; {| size_ := 40; align := 1 |}; {| size_ := 192; align := 4 |}].
Lemma demo_after : after 6 (all_requests demo_traffic) [] = Some demo_held.
Proof. by vm_compute. Qed.

Lemma demo_provided : provided demo_turns demo_traffic 6 demo_map.
Proof.
  split; [apply (enough_turns MAX_SLABS); by vm_compute|lia|exists demo_held; exact demo_after|].
  exists ((λ i, 0x200000 + 0x40000 * i) <$> seqZ 0 16). split; [by apply (bool_decide_unpack _); vm_compute|]. split; [by apply Nat.leb_le; vm_compute|].
  intros b (i & -> & Hi%elem_of_seqZ)%list_elem_of_fmap. split.
  - split; [lia|]. split; [|cbn; lia]. change (PAGE_SIZE * 2 ^ 6%nat) with 0x40000. dlia.
  - intros f Hf. apply demo_frames. apply block_set_elem, block_frames_elem in Hf. change (2 ^ 6%nat) with 64 in Hf. dlia.
Qed.
#[local] Opaque demo_turns.

Lemma kernel_main_correct_witness : ∃ st h2,
  kernel_main demo_font [66; 77] (λ m _ _, m) 3 5 demo_cpuid 0x1000 0x2000 0x3000 0x4000 0x9000 demo_addr 0x10000 0x20000 0x1000 0x5000 0x6000
    demo_tsc (λ n, 10 * Z.of_nat n) demo_turns demo_traffic demo_boot_cpu demo_uart demo_pics demo_pit demo_pci demo_ide demo_i8042 = Ret (st, JumpTo h2) ∧
  current (RUN_QUEUE st) = Some h2 ∧ DRIVES st = expected_drives demo_ide ∧ snd <$> HELD st = demo_held.
Proof.
  destruct (kernel_main_correct demo_font [66; 77] (λ m _ _, m) 3 5 demo_cpuid 0x1000 0x2000 0x3000 0x4000 0x9000 demo_addr 0x10000 0x20000 0x1000 0x5000 0x6000
    demo_tsc (λ n, 10 * Z.of_nat n) demo_turns demo_traffic demo_memory demo_map demo_fb [] demo_boot_cpu demo_uart demo_pics demo_pit demo_pci demo_ide demo_i8042 0 6
    demo_bootable demo_responsive demo_time demo_provided) as (st & h1 & h2 & p1 & p2 & k1 & k2 & E & B).
  - reflexivity.
  - unfold is_u64. cbn. lia.
  - exists st, h2. split; [exact E|]. destruct B as [_ _ _ _ _ _ _ _ _ Bd _ _ _ _ Bh _ (_ & Bc & _) _ _]. split; [exact Bc|]. split; [exact Bd|].
    rewrite demo_after in Bh. injection Bh as Bh. symmetry. exact Bh.
Defined.
End Demo.
